(* ===== verification/_CoqProject ===== *)
-Q . S2P
Prelude.v
MapSum.v
RustStr.v
Providers.v
Json.v
ModelIdentity.v
ValuePricing.v
ValueTables.v
ValueAdmission.v
ValueSettlement.v
ValueMaintenance.v
ValueCheckpoints.v
ValueLedger.v
ValueRows.v
ValueHistory.v
ValueJournal.v
ValueStatus.v
ValueBounds.v
ValueSettled.v
ValueCodec.v
ValueWitness.v
MeteredText.v
Vectors.v
QuotaCycle.v
QuotaCycleValid.v
QuotaCycleProofs.v
QuotaLedger.v
QuotaLedgerValid.v
QuotaLedgerProofs.v
QuotaTable.v
TokenPeriod.v
Gregorian.v
UserUsage.v
UserGrant.v
MarketTrials.v
MarketGrants.v
TrialSound.v
TrialProofs.v
TrialClosed.v
Termination.v
TerminationProofs.v
ProviderHealth.v
ResidentMemory.v
RequestMemory.v
RequestMemoryProofs.v
SerializedSize.v
ResponseCache.v
ResponseCacheProofs.v
InFlight.v
Recovery.v
Shares.v
ShareGate.v
ShareGateProofs.v
ShareGrants.v
ShareGrantsProofs.v
ShareBindings.v
ShareStoreProofs.v
ShareInvariant.v
ShareWitness.v
SseTransport.v
SseProofs.v
SseReference.v
ResponsesTransport.v
ResponsesProofs.v
ResponsesCodec.v
Terminal.v
Ingress.v
IngressProofs.v
WebAuth.v
WebAuthProofs.v
RouterNamespace.v
RouterControl.v
RouterControlProofs.v
RouterOutbox.v
RouterFences.v
KiroWire.v
KiroStream.v
KiroCrc.v
KiroCodec.v
KiroEvent.v
