(* ===== verification/Prelude.v ===== *)
(** * A model of cc-switch-server

    cc-switch-server is a proxy for language models that one owner runs and shares with others. A request of a client
    enters through a Share: the gate of the Share decides whether this user may use it, a ledger in US dollars and the
    counters of the grant charge it, trackers and memory budgets bound what runs at once, a provider account is chosen by
    its health, the answer of the upstream is decoded while it streams, and what was used settles the ledgers. A Router
    elsewhere gives the Share a public host name and exchanges messages with this server. This library models the parts
    that decide and account, in Rust under [src/src/], and proves what they promise. File names below are relative to it.

    ** Parts, and the files that model them

    - Shared groundwork. [Prelude]: the type [result] of fallible code with its monad, [fail_if], [ok_or], [try_fold] (a
      loop that stops at the first error), machine integers as [Z] with [checked_*], [sat_*] and [wrap_*] operations, and
      assignment to a field of a record. [MapSum]: sums and counts over finite maps. [RustStr]:
      [str] as byte strings with the operations the code uses. [Json]: [serde_json::Value]. [Providers]: the
      application and provider types of [domain/providers/model.rs].
    - The value ledger ([repository/server_sqlite/value_quota.rs], [value_quota/tariff.rs], pricing in
      [domain/usage/value_pricing.rs]). [ModelIdentity], [ValuePricing], [MeteredText], [Vectors]: what a request costs.
      [ValueTables]: the tables, daily checkpoints, status. [ValueAdmission], [ValueSettlement], [ValueMaintenance]:
      admission, settlement, sweeping, compaction and repair. [ValueCheckpoints] to [ValueSettled] prove that
      checkpoints are always the aggregates of the rows, that a status reads the rows, that admission keeps within the
      limit, and what settlement and repair change; [ValueCodec] and [ValueWitness] evaluate a concrete day.
    - Quotas in tokens. [QuotaCycle*] ([domain/sharing/quota_cycle.rs]): cycles of upstream accounts.
      [QuotaLedger*] ([domain/usage/quota_ledger.rs]) and [QuotaTable] ([repository/server_sqlite/quota.rs]): exact
      usage per revision, and that the persisted table refines it. [TokenPeriod] ([domain/sharing/token_period.rs]):
      windows of a policy; the calendar is the class of [chrono]'s documented laws, with a computable instance in
      [Gregorian]. [UserUsage], [UserGrant] ([domain/sharing/shares.rs]): counters of a grant.
    - The market. [MarketTrials] ([domain/sharing/market_trials.rs]) and [MarketGrants] ([shares.rs]): one-time trials
      and managed grants; [TrialSound], [TrialProofs], [TrialClosed]: no token is lost or counted twice
      and an exhausted or uncertain trial stays closed, over every sequence of operations. [Termination],
      [TerminationProofs] ([repository/server_sqlite/market_termination.rs]): the receipt that settles an entitlement.
    - Shares ([domain/sharing/shares.rs] with [invariants.rs], [retired_fields.rs], and [state.rs] around them).
      [Shares]: the data. [ShareGate]: admission and charging. [ShareGrants]: patches and the owner's grant.
      [ShareBindings]: bindings, upsert, import, tombstones, and the synchronisation with the Router. [ShareGateProofs],
      [ShareGrantsProofs], [ShareStoreProofs], [ShareInvariant]: who is admitted, what a patch may change, and an
      invariant of the store kept by every operation; [ShareWitness] evaluates samples.
    - The proxy's limits. [ProviderHealth] ([domain/health.rs]), [InFlight] ([state/in_flight.rs]), [ResidentMemory]
      ([infra/resident_memory.rs]), [RequestMemory*] and [SerializedSize] ([proxy/request_memory.rs]),
      [ResponseCache*] ([domain/sharing/previous_response_cache.rs]), [Recovery] ([proxy/execution/]).
    - Streams. [SseTransport] ([proxy/sse_transport.rs]) decodes server-sent events, [SseProofs] and [SseReference]
      show that chunks do not matter and that the events are those of a reference on the whole input.
      [ResponsesTransport] ([proxy/responses_transport.rs]) and its proofs add the dialect of Responses endpoints;
      [Terminal] ([proxy/terminal_detector.rs]) finds the end of an answer. [KiroWire], [KiroEvent]
      ([proxy/kiro/wire/]) decode a binary event stream; [KiroStream], [KiroCrc], [KiroCodec]: chunks, corruption and
      round trips.
    - Access. [Ingress], [IngressProofs] ([clients/router/ingress.rs], [verify_router_ingress] of [api/mod.rs]): the requests
      a Router signs, the headers the routes trust, and the cache against replays. [WebAuth], [WebAuthProofs]
      ([domain/web_auth.rs], handlers of [api/settings.rs]): sessions of the owner's web console and the throttle of its
      login.
    - The Router. [RouterNamespace] ([domain/router/namespace.rs]): public host names. [RouterControl]
      ([clients/router/control_store.rs]): identity, Routers, outbox, cursors and hosts; [RouterControlProofs],
      [RouterOutbox], [RouterFences]: consistency of all tables, exclusive leases, progress, and fences.

    ** How code is modelled

    - A function of the code is a function here; a method that writes [&mut self] takes the state and returns it. Where
      an error leaves a partial write behind, the state is returned beside the result; where a database transaction
      rolls it back, an [Err] carries no state and the caller keeps the old one ([transact], [committed]).
    - A SQLite table is a finite map from its primary key; a write that breaks a constraint of the schema (a CHECK, a
      UNIQUE index, a foreign key) returns the error, and cascades are written out.
    - Integers are [Z] within the range of their Rust type: each [checked_add] and the like is the [checked_*] or
      [sat_*] operation of that width, so overflow is a branch of the model as it is of the code.
    - The clock, random identifiers and generated keys are arguments. A loop over readings of a lock is a sequence of
      operations, so every theorem over lists of operations quantifies over interleavings.
    - Code outside the repository is a parameter: [chrono], [serde_json], SHA-256, Ed25519, [Url::parse]. What the code
      relies on is a class or a named hypothesis ([CompactPrinter], [Calendar] and others), each with an instance that
      can be computed, and the theorems with hypotheses have a witness at a concrete input.
    - Fuel. Where a loop is not structural it takes fuel, and the fuel is the length of what the loop consumes: the
      buffer for decoders ([drain_lines], [feed_from], [drain_documents]), the text for parsers. Lemmas named [*_fuel]
      show that more fuel changes nothing.

    ** What the theorems show

    Properties numbered C1, C2, ... in the files are the claims about the program, the most important first: the money
    (the value ledger), who may use a Share, the market trials, health and memory, the Router, streams and quotas. They
    are invariants over every sequence of operations, equivalences with reference definitions, refinements, round trips,
    bounds, and progress; the lemmas under them are shared by file.

    ** Not modelled

    The HTTP layer beyond the middleware and handlers named above and the command line ([api/], [cli.rs], [main.rs]), OAuth and the other network clients
    ([clients/oauth/], the live connection of [clients/router/]), the rewriting of requests and answers between upstream
    dialects ([proxy/forwarder.rs], [proxy/adapters.rs], [proxy/transforms.rs], [proxy/stream_transforms.rs] and the
    bridges of single vendors), logs and metrics, files, backups and self update, and the web interface: they are input
    and output, or mappings of foreign formats without a contract of their own. Within modelled files: migrations of old
    schemas, listing queries, metrics, file permissions, and the text of errors. *)
From Stdlib Require Import ZArith Lia.
From stdpp Require Export base gmap strings list sorting numbers pretty.

(** ** Fallible code: Rust's [Result] *)
Inductive result (E A : Type) : Type :=
  | Ok (a : A)
  | Err (e : E).
Arguments Ok {E A} a.
Arguments Err {E A} e.

#[global] Instance result_ret {E} : MRet (result E) := λ A a, Ok a.
#[global] Instance result_bind {E} : MBind (result E) :=
  λ A B f r, match r with Ok a => f a | Err e => Err e end.
#[global] Instance result_fmap {E} : FMap (result E) :=
  λ A B f r, match r with Ok a => Ok (f a) | Err e => Err e end.
#[global] Instance result_eq_dec {E A} `{EqDecision E, EqDecision A} :
  EqDecision (result E A).
Proof. solve_decision. Defined.

(** [Option::ok_or] and [Result::ok]. *)
Definition ok_or {E A} (e : E) (o : option A) : result E A :=
  match o with Some a => Ok a | None => Err e end.
Definition to_ok {E A} (r : result E A) : option A :=
  match r with Ok a => Some a | Err _ => None end.
(** [if b { return Err(e) }]. *)
Definition fail_if {E} (b : bool) (e : E) : result E () :=
  if b then Err e else Ok ().

Section result_lemmas.
Context {E A B : Type}.
Implicit Types (r : result E A) (f : A → result E B).

Lemma bind_Ok r f b : r ≫= f = Ok b ↔ ∃ a, r = Ok a ∧ f a = Ok b.
Proof. destruct r; simpl; split; naive_solver. Qed.
Lemma bind_Err r f e : r ≫= f = Err e ↔ r = Err e ∨ ∃ a, r = Ok a ∧ f a = Err e.
Proof. destruct r; simpl; split; naive_solver. Qed.
Lemma fmap_Ok r (g : A → B) b : g <$> r = Ok b ↔ ∃ a, r = Ok a ∧ b = g a.
Proof. destruct r; simpl; split; naive_solver. Qed.
Lemma ok_or_Ok (e : E) (o : option A) a : ok_or e o = Ok a ↔ o = Some a.
Proof. destruct o; simpl; naive_solver. Qed.
Lemma ok_or_Err (e e' : E) (o : option A) : ok_or e o = Err e' ↔ o = None ∧ e = e'.
Proof. destruct o; simpl; naive_solver. Qed.
Lemma fail_if_Ok (c : bool) (e : E) u : fail_if c e = Ok u ↔ c = false.
Proof. destruct c, u; simpl; naive_solver. Qed.
Lemma to_ok_Some r a : to_ok r = Some a ↔ r = Ok a.
Proof. destruct r; simpl; naive_solver. Qed.
End result_lemmas.

(** [simplify_result] turns a hypothesis that a chain of binds returned [Ok] into the
    equations of its steps. *)
Ltac simplify_result :=
  repeat match goal with
  | H : _ ≫= _ = Ok _ |- _ => apply bind_Ok in H as (? & ? & ?)
  | H : _ <$> _ = Ok _ |- _ => apply fmap_Ok in H as (? & ? & ?)
  | H : ok_or _ _ = Ok _ |- _ => apply ok_or_Ok in H
  | H : fail_if _ _ = Ok _ |- _ => apply fail_if_Ok in H
  | H : to_ok _ = Some _ |- _ => apply to_ok_Some in H
  | H : mret _ = Ok _ |- _ => injection H as H
  | H : Ok _ = Ok _ |- _ => injection H as H
  | H : Err _ = Ok _ |- _ => discriminate H
  | H : Ok _ = Err _ |- _ => discriminate H
  end; simplify_eq.

(** ** Machine integers: values are [Z], every operation writes out its width *)
Local Open Scope Z_scope.

Definition U16_MAX : Z := 65535.
Definition U32_MAX : Z := 4294967295.
Definition U64_MAX : Z := 18446744073709551615.
Definition I64_MAX : Z := 9223372036854775807.
Definition I64_MIN : Z := -9223372036854775808.
Definition U128_MAX : Z := 340282366920938463463374607431768211455.
Definition I128_MAX : Z := 170141183460469231731687303715884105727.
Definition I128_MIN : Z := -170141183460469231731687303715884105728.
(** [usize] on the 64-bit targets the program is built for. *)
Definition USIZE_MAX : Z := U64_MAX.

(** The value of a [checked_*] operation at the range [lo..=hi]. *)
Definition checked (lo hi z : Z) : option Z :=
  if (lo <=? z) && (z <=? hi) then Some z else None.
(** The value of a [saturating_*] operation, and of [clamp], at the range [lo..=hi]. *)
Definition saturate (lo hi z : Z) : Z := Z.max lo (Z.min hi z).

Definition checked_u64 : Z → option Z := checked 0 U64_MAX.
Definition checked_i64 : Z → option Z := checked I64_MIN I64_MAX.
Definition checked_i128 : Z → option Z := checked I128_MIN I128_MAX.
Definition sat_u32 : Z → Z := saturate 0 U32_MAX.
Definition sat_u64 : Z → Z := saturate 0 U64_MAX.
Definition sat_i64 : Z → Z := saturate I64_MIN I64_MAX.
Definition sat_u128 : Z → Z := saturate 0 U128_MAX.
Definition sat_usize : Z → Z := saturate 0 USIZE_MAX.

(** [u64], [i64], ... as predicates on the value. *)
Definition is_u64 (z : Z) : Prop := 0 ≤ z ≤ U64_MAX.
Definition is_i64 (z : Z) : Prop := I64_MIN ≤ z ≤ I64_MAX.
Definition is_i128 (z : Z) : Prop := I128_MIN ≤ z ≤ I128_MAX.

Lemma checked_Some lo hi z z' : checked lo hi z = Some z' ↔ z' = z ∧ lo ≤ z ≤ hi.
Proof.
  unfold checked. destruct (Z.leb_spec lo z), (Z.leb_spec z hi); simpl; split;
    try intros [= ->]; try intros [-> ?]; try done; lia.
Qed.
Lemma checked_None lo hi z : checked lo hi z = None ↔ z < lo ∨ hi < z.
Proof.
  unfold checked. destruct (Z.leb_spec lo z), (Z.leb_spec z hi); simpl; split;
    try done; lia.
Qed.

Lemma checked_in lo hi z : lo ≤ z ≤ hi → checked lo hi z = Some z.
Proof. intros. by apply checked_Some. Qed.
Lemma checked_i128_in z : I128_MIN ≤ z ≤ I128_MAX → checked_i128 z = Some z.
Proof. apply checked_in. Qed.
Lemma checked_u64_in z : 0 ≤ z ≤ U64_MAX → checked_u64 z = Some z.
Proof. apply checked_in. Qed.
Lemma checked_i64_in z : I64_MIN ≤ z ≤ I64_MAX → checked_i64 z = Some z.
Proof. apply checked_in. Qed.
Lemma saturate_in lo hi z : lo ≤ z ≤ hi → saturate lo hi z = z.
Proof. unfold saturate. lia. Qed.
Lemma saturate_range lo hi z : lo ≤ hi → lo ≤ saturate lo hi z ≤ hi.
Proof. unfold saturate. lia. Qed.

(** Arithmetic side conditions about widths: unfold the bounds and call [lia]. *)
Ltac unfold_widths :=
  unfold checked_u64, checked_i64, checked_i128, sat_u32, sat_u64, sat_i64, sat_u128,
    sat_usize, saturate, is_u64, is_i64, is_i128, USIZE_MAX, U16_MAX, U32_MAX, U64_MAX,
    I64_MAX, I64_MIN, U128_MAX, I128_MAX, I128_MIN in *.
Ltac width_lia := unfold_widths; lia.

(** ** Sequencing over a collection: [for x in xs { f(x)?; }] *)
Fixpoint for_each {E A} (f : A → result E ()) (l : list A) : result E () :=
  match l with [] => Ok () | x :: l' => _ ← f x; for_each f l' end.

Lemma for_each_Ok {E A} (f : A → result E ()) l :
  for_each f l = Ok () ↔ ∀ x, x ∈ l → f x = Ok ().
Proof.
  induction l as [|x l IH]; simpl.
  - split; [intros _ y Hy; inversion Hy|done].
  - rewrite bind_Ok. split.
    + intros ([] & Hx & Hl) y [->|Hy]%elem_of_cons; [done|]. by apply IH.
    + intros H. exists (). split; [apply H; left|]. apply IH. intros y Hy. apply H. by right.
Qed.

(** The same with an accumulator: [let mut s = ..; for x in xs { s = f(s, x)?; }]. *)
Fixpoint try_fold {E S A} (f : S → A → result E S) (s : S) (l : list A) : result E S :=
  match l with [] => Ok s | x :: l' => s' ← f s x; try_fold f s' l' end.

Lemma try_fold_app {E S A} (f : S → A → result E S) s l k :
  try_fold f s (l ++ k) = s' ← try_fold f s l; try_fold f s' k.
Proof. revert s. induction l as [|x l IH]; intros s; simpl; [done|].
  destruct (f s x); simpl; [apply IH|done].
Qed.

Lemma try_fold_fmap {E S A B} (f : S → B → result E S) (g : A → B) s l :
  try_fold f s (g <$> l) = try_fold (λ s x, f s (g x)) s l.
Proof. revert s. induction l as [|x l IH]; intros s; [done|]. cbn [fmap list_fmap try_fold]. destruct (f s (g x)); [apply IH|done]. Qed.

(** A pass that checks each element and refuses a repeated key ([BTreeSet::insert]). *)
Section try_fold_distinct.
Context {E A K : Type} `{HK : Countable K} (check : A → result E ()) (key : A → K) (dup : E).
Definition distinct_step (seen : gset K) (x : A) : result E (gset K) :=
  _ ← check x;
  if bool_decide (key x ∈ seen) then Err dup else Ok ({[key x]} ∪ seen).
Lemma distinct_step_Ok seen x seen' :
  distinct_step seen x = Ok seen' ↔
  check x = Ok () ∧ key x ∉ seen ∧ seen' = {[key x]} ∪ seen.
Proof.
  unfold distinct_step. rewrite bind_Ok. split.
  - intros ([] & Hrc & Hr). case_bool_decide; [done|]. by injection Hr as <-.
  - intros (Hrc & Hrn & ->). exists (). split; [done|]. by rewrite bool_decide_eq_false_2.
Qed.
Lemma try_fold_distinct l seen :
  (∃ seen', try_fold distinct_step seen l = Ok seen') ↔
  (∀ x, x ∈ l → check x = Ok () ∧ key x ∉ seen) ∧ NoDup (key <$> l).
Proof.
  revert seen. induction l as [|x l IH]; intros seen.
  - split; [intros _|by eexists]. split; [intros x Hx; inversion Hx|constructor].
  - rewrite fmap_cons, NoDup_cons. cbn [try_fold]. setoid_rewrite bind_Ok.
    setoid_rewrite distinct_step_Ok. split.
    + intros (seen' & ? & (Hc & Hn & ->) & H).
      destruct (proj1 (IH _) (ex_intro _ _ H)) as [Hl Hnd]. split; [|split; [|done]].
      * intros y [->|Hy]%elem_of_cons; [done|]. destruct (Hl y Hy). set_solver.
      * intros (y & Hy & Hyl)%list_elem_of_fmap. destruct (Hl y Hyl). set_solver.
    + intros [Hl [Hnx Hnd]]. destruct (Hl x ltac:(left)) as [Hc Hn].
      destruct (proj2 (IH ({[key x]} ∪ seen))) as [seen' H]; [|by eauto 10].
      split; [|done]. intros y Hy. destruct (Hl y ltac:(by right)). split; [done|].
      assert (key y ≠ key x); [|set_solver]. intros Hk. apply Hnx. rewrite <-Hk.
      by apply list_elem_of_fmap_2.
Qed.
Lemma try_fold_distinct_set l seen seen' :
  try_fold distinct_step seen l = Ok seen' → seen' = list_to_set (key <$> l) ∪ seen.
Proof.
  revert seen. induction l as [|x l IH]; intros seen; cbn [try_fold].
  - intros [= <-]. set_solver.
  - intros (seen1 & (_ & _ & ->)%distinct_step_Ok & ->%IH)%bind_Ok. set_solver.
Qed.
End try_fold_distinct.

(** A pass with a second check per element, and two passes in one. *)
Lemma try_fold_guard {E S A} (f : S → A → result E S) (g : A → result E ()) s l s' :
  try_fold (λ s x, s' ← f s x; _ ← g x; Ok s') s l = Ok s' ↔
  try_fold f s l = Ok s' ∧ ∀ x, x ∈ l → g x = Ok ().
Proof.
  revert s. induction l as [|x l IH]; intros s; cbn [try_fold].
  - split; [intros ->; split; [done|intros x Hx; inversion Hx]|by intros [-> _]].
  - rewrite !bind_Ok. setoid_rewrite bind_Ok. setoid_rewrite bind_Ok. split.
    + intros (s1 & (s2 & Hf & [] & Hg & [= ->]) & Hl%IH). destruct Hl as [Hl Hgl].
      split; [by eexists|]. intros y [->|Hy]%elem_of_cons; [done|by apply Hgl].
    + intros [(s1 & Hf & Hl) Hg]. exists s1. split; [exists s1; split; [done|]|].
      * exists (). split; [apply Hg; left|done].
      * apply IH. split; [done|]. intros y Hy. apply Hg. by right.
Qed.
Lemma try_fold_pair {E S T A} (f : S → A → result E S) (g : T → A → result E T) s t l s' t' :
  try_fold (λ acc x, a ← f acc.1 x; b ← g acc.2 x; Ok (a, b)) (s, t) l = Ok (s', t') ↔
  try_fold f s l = Ok s' ∧ try_fold g t l = Ok t'.
Proof.
  revert s t. induction l as [|x l IH]; intros s t; cbn [try_fold fst snd].
  - split; [by intros [= -> ->]|by intros [[= ->] [= ->]]].
  - rewrite !bind_Ok. setoid_rewrite bind_Ok. setoid_rewrite bind_Ok. split.
    + intros ([s1 t1] & (a & Hf & b & Hg & [= -> ->]) & [Hl Hr]%IH).
      split; [by exists s1|by exists t1].
    + intros [(a & Hf & Hl) (b & Hg & Hr)]. exists (a, b). split; [by eauto 10|]. by apply IH.
Qed.

(** ** [BTreeMap]: a finite map visited in the byte order of its keys *)
Definition key_le {A} (p q : string * A) : Prop := String.le p.1 q.1.
#[global] Instance key_le_dec {A} : RelDecision (@key_le A).
Proof. intros p q. unfold key_le. apply _. Defined.
Definition btree_entries {A} (m : gmap string A) : list (string * A) :=
  merge_sort key_le (map_to_list m).
Definition btree_values {A} (m : gmap string A) : list A := (btree_entries m).*2.

Lemma btree_entries_perm {A} (m : gmap string A) : btree_entries m ≡ₚ map_to_list m.
Proof. apply merge_sort_Permutation. Qed.
Lemma elem_of_btree_entries {A} (m : gmap string A) k v :
  (k, v) ∈ btree_entries m ↔ m !! k = Some v.
Proof. rewrite btree_entries_perm. apply elem_of_map_to_list. Qed.
Lemma NoDup_btree_entries {A} (m : gmap string A) : NoDup (btree_entries m).
Proof. rewrite btree_entries_perm. apply NoDup_map_to_list. Qed.
(** The entries have pairwise distinct images under [f]. *)
Lemma NoDup_btree_fmap {A K} (f : string * A → K) (m : gmap string A) :
  NoDup (f <$> btree_entries m) ↔
  ∀ k1 x1 k2 x2, m !! k1 = Some x1 → m !! k2 = Some x2 → f (k1, x1) = f (k2, x2) → k1 = k2.
Proof.
  split.
  - intros Hnd k1 x1 k2 x2 H1%elem_of_btree_entries H2%elem_of_btree_entries Hf.
    apply list_elem_of_lookup in H1 as [i Hi], H2 as [j Hj].
    assert (i = j) as ->.
    { eapply (NoDup_lookup (f <$> btree_entries m)); [done| |].
      - rewrite list_lookup_fmap, Hi. done.
      - rewrite list_lookup_fmap, Hj. simpl. by rewrite Hf. }
    congruence.
  - intros Hinj. pose proof (NoDup_btree_entries m) as Hnd.
    assert (∀ l, NoDup l → (∀ e, e ∈ l → m !! e.1 = Some e.2) → NoDup (f <$> l)) as Hgen.
    { induction 1 as [|e l Hn Hl IH]; intros Hm; [constructor|]. rewrite fmap_cons.
      constructor; [|apply IH; intros; apply Hm; by right].
      intros (e' & Hf & He')%list_elem_of_fmap. apply Hn.
      destruct e as [k1 x1], e' as [k2 x2].
      assert (k1 = k2) as ->.
      { eapply Hinj; [apply (Hm (k1, x1)); left|apply (Hm (k2, x2)); by right|done]. }
      pose proof (Hm (k2, x1) ltac:(left)). pose proof (Hm (k2, x2) ltac:(by right)).
      simplify_eq/=. done. }
    apply Hgen; [done|]. by intros [k x] Hx%elem_of_btree_entries.
Qed.
Lemma elem_of_btree_values {A} (m : gmap string A) v :
  v ∈ btree_values m ↔ ∃ k, m !! k = Some v.
Proof.
  unfold btree_values. rewrite list_elem_of_fmap. split.
  - intros ([k w] & -> & H%elem_of_btree_entries). eauto.
  - intros [k H]. exists (k, v). by rewrite elem_of_btree_entries.
Qed.
Lemma for_each_btree {E A} (f : string * A → result E ()) (m : gmap string A) :
  for_each f (btree_entries m) = Ok () ↔ ∀ k v, m !! k = Some v → f (k, v) = Ok ().
Proof.
  rewrite for_each_Ok. split.
  - intros H k v Hk. by apply H, elem_of_btree_entries.
  - intros H [k v] Hk%elem_of_btree_entries. auto.
Qed.

(** What an insertion changes in a collection flattened over a map. *)
Definition flat_map_entries `{HK : Countable K} {A B} (f : K * A → list B) (m : gmap K A) : list B :=
  map_to_list m ≫= f.
Lemma flat_map_delete `{HK : Countable K} {A B} (f : K * A → list B) (m : gmap K A) k :
  flat_map_entries f m ≡ₚ
  from_option (λ y, f (k, y)) [] (m !! k) ++ flat_map_entries f (delete k m).
Proof.
  unfold flat_map_entries. destruct (m !! k) as [y|] eqn:E; simpl.
  - by rewrite <-(map_to_list_delete m k y).
  - by rewrite delete_id.
Qed.
Lemma flat_map_ext `{HK : Countable K} {A B} (f g : K * A → list B) (m : gmap K A) :
  (∀ k x, m !! k = Some x → f (k, x) = g (k, x)) → flat_map_entries f m = flat_map_entries g m.
Proof.
  intros H. unfold flat_map_entries.
  assert (∀ e, e ∈ map_to_list m → f e = g e) as He.
  { intros [k x] Hin%elem_of_map_to_list. auto. }
  induction (map_to_list m) as [|e es IH]; [done|]. cbn.
  rewrite He by left. rewrite IH; [done|]. intros e' ?. apply He. by right.
Qed.
Lemma flat_map_insert `{HK : Countable K} {A B} (f : K * A → list B) (m : gmap K A) k x :
  flat_map_entries f (<[k := x]> m) ++ from_option (λ y, f (k, y)) [] (m !! k) ≡ₚ
  f (k, x) ++ flat_map_entries f m.
Proof.
  rewrite (flat_map_delete f m k), (flat_map_delete f (<[k := x]> m) k), lookup_insert_eq.
  simpl. rewrite delete_insert_eq, <-app_assoc. by rewrite (Permutation_app_comm _ (from_option _ _ _)).
Qed.

(** ** Loops: [loop { .. }] as a step function, run with binary fuel

    [run p step s] performs at most [p] steps and stops at the first one that returns
    [inr]; the fuel is a binary number, so a generous bound costs nothing when the loop
    stops early. *)
Fixpoint run {S R} (p : positive) (step : S → S + R) (s : S) : S + R :=
  match p with
  | xH => step s
  | xO q => match run q step s with inl s' => run q step s' | inr r => inr r end
  | xI q =>
      match step s with
      | inl s1 => match run q step s1 with inl s' => run q step s' | inr r => inr r end
      | inr r => inr r
      end
  end.

Section run.
Context {S R : Type} (step : S → S + R).

Lemma run_inv (I : S → Prop) (Q : R → Prop) :
  (∀ s s', I s → step s = inl s' → I s') →
  (∀ s r, I s → step s = inr r → Q r) →
  ∀ p s, I s →
    (∀ s', run p step s = inl s' → I s') ∧ (∀ r, run p step s = inr r → Q r).
Proof.
  intros Hl Hr p. induction p as [p IH|p IH|]; intros s Hs; simpl.
  - destruct (step s) as [s1|r1] eqn:E1; [|naive_solver].
    destruct (IH s1 (Hl _ _ Hs E1)) as [H1 H2].
    destruct (run p step s1) as [s2|r2] eqn:E2; [|naive_solver].
    apply IH. by apply H1.
  - destruct (IH s Hs) as [H1 H2].
    destruct (run p step s) as [s2|r2] eqn:E2; [|naive_solver].
    apply IH. by apply H1.
  - naive_solver.
Qed.

(** A loop whose every step decreases a measure stops within the measure's value. *)
Lemma run_measure (μ : S → Z) (I : S → Prop) :
  (∀ s s', I s → step s = inl s' → I s' ∧ μ s' < μ s) →
  ∀ p s, I s → (∀ s', run p step s = inl s' → I s' ∧ μ s' + Zpos p ≤ μ s).
Proof.
  intros Hd p. induction p as [p IH|p IH|]; intros s Hs s'; simpl.
  - destruct (step s) as [s1|r1] eqn:E1; [|done].
    destruct (Hd _ _ Hs E1) as [Hs1 ?].
    destruct (run p step s1) as [s2|r2] eqn:E2; [|done].
    destruct (IH _ Hs1 _ E2) as [Hs2 ?]. intros E3.
    destruct (IH _ Hs2 _ E3) as [??]. split; [done|lia].
  - destruct (run p step s) as [s2|r2] eqn:E2; [|done].
    destruct (IH _ Hs _ E2) as [Hs2 ?]. intros E3.
    destruct (IH _ Hs2 _ E3) as [??]. split; [done|lia].
  - intros E. destruct (Hd _ _ Hs E). split; [done|lia].
Qed.
Lemma run_terminates (μ : S → Z) (I : S → Prop) :
  (∀ s s', I s → step s = inl s' → I s' ∧ μ s' < μ s) →
  (∀ s, I s → 0 ≤ μ s) →
  ∀ p s, I s → μ s < Zpos p → ∃ r, run p step s = inr r.
Proof.
  intros Hd H0 p s Hs Hp. destruct (run p step s) as [s'|r] eqn:E; [|eauto].
  destruct (run_measure μ I Hd p s Hs s' E) as [HI ?]. specialize (H0 _ HI). lia.
Qed.
End run.

(** ** Assignment to one field of a record: [r <| field := v |>] is the Rust assignment [r.field = v] on a copy, and
    [r <| field ::= f |>] applies [f] to the field; a record type declares its fields once, by an [Eta] instance *)
(** The record rebuilt from its fields, each projected once. *)
Class Eta (T : Type) := eta : T → T.
(** The update of the field [proj]; found by rewriting its one occurrence in [eta]. *)
Class Updates {T F : Type} (proj : T → F) := update : (F → F) → T → T.
Arguments update {T F} proj {_} f r /.

Ltac derive_update proj :=
  match type of proj with
  | ?T → _ =>
      let inst := constr:(_ : Eta T) in
      let body := eval hnf in inst in
      let f := fresh "f" in let r := fresh "r" in
      intros f r;
      let e := eval cbv beta in (body r) in
      match e with context C [proj r] => let e' := context C [f (proj r)] in exact e' end
  end.
#[global] Hint Extern 0 (Updates ?proj) => (red; derive_update proj) : typeclass_instances.

Notation "r <| field := v |>" := (update field (λ _, v) r) (at level 14, left associativity, only parsing).
Notation "r <| field ::= f |>" := (update field f r) (at level 14, left associativity, only parsing).

(** [simplify_fields] computes the fields of updated records. *)
Ltac simplify_fields := cbn [update] in *.
