(* ===== verification/MapSum.v ===== *)
(** * Sums over finite maps

    The total of a quantity over the values of a map, under insertion, removal and
    pointwise growth. *)
From S2P Require Import Prelude.
From Stdlib Require Import ZArith Lia.

Local Open Scope Z_scope.

Definition sum_by {A} (f : A → Z) (l : list A) : Z := foldr (λ x n, f x + n) 0 l.
Definition map_sum `{Countable K} {A} (f : A → Z) (m : gmap K A) : Z := sum_by f (map_to_list m).*2.

Section sums.
Context `{Countable K} {A : Type}.
Implicit Types (f g : A → Z) (l : list A) (m : gmap K A).

Lemma sum_by_app f l k : sum_by f (l ++ k) = sum_by f l + sum_by f k.
Proof. induction l as [|x l IH]; simpl; [done|]. rewrite IH. lia. Qed.
#[global] Instance sum_by_perm f : Proper ((≡ₚ) ==> (=)) (sum_by f).
Proof. induction 1; simpl; lia. Qed.
Lemma sum_by_ext f g l : (∀ x, x ∈ l → f x = g x) → sum_by f l = sum_by g l.
Proof.
  induction l as [|x l IH]; simpl; intros He; [done|].
  rewrite (He x ltac:(left)), IH; [done|]. intros y Hy. apply He. by right.
Qed.
Lemma sum_by_nonneg f l : (∀ x, x ∈ l → 0 ≤ f x) → 0 ≤ sum_by f l.
Proof.
  induction l as [|x l IH]; simpl; intros He; [done|].
  pose proof (He x ltac:(left)). assert (0 ≤ sum_by f l); [|lia]. apply IH. intros y Hy. apply He. by right.
Qed.
Lemma sum_by_filter f (p : A → bool) l :
  sum_by f (List.filter p l) = sum_by (λ x, if p x then f x else 0) l.
Proof. induction l as [|x l IH]; simpl; [done|]. destruct (p x); simpl; by rewrite IH. Qed.

Lemma map_sum_empty f : map_sum f (∅ : gmap K A) = 0.
Proof. unfold map_sum. by rewrite map_to_list_empty. Qed.
Lemma map_sum_fresh f m k x : m !! k = None → map_sum f (<[k := x]> m) = f x + map_sum f m.
Proof. intros Hk. unfold map_sum. by rewrite (map_to_list_insert m k x Hk). Qed.
Lemma map_sum_delete f m k x : m !! k = Some x → map_sum f m = f x + map_sum f (delete k m).
Proof. intros Hk. rewrite <-(insert_delete_id m k x Hk) at 1. apply map_sum_fresh, lookup_delete_eq. Qed.
Lemma map_sum_insert f m k x : map_sum f (<[k := x]> m) = f x - from_option f 0 (m !! k) + map_sum f m.
Proof.
  destruct (m !! k) as [y|] eqn:E; simpl.
  - rewrite <-insert_delete_eq, map_sum_fresh by apply lookup_delete_eq.
    rewrite (map_sum_delete f m k y E). lia.
  - rewrite map_sum_fresh by done. lia.
Qed.
Lemma map_sum_ext f g m : (∀ k x, m !! k = Some x → f x = g x) → map_sum f m = map_sum g m.
Proof.
  intros He. apply sum_by_ext. intros x ([k y] & -> & Hy%elem_of_map_to_list)%list_elem_of_fmap. by apply (He k).
Qed.
Lemma map_sum_nonneg f m : (∀ k x, m !! k = Some x → 0 ≤ f x) → 0 ≤ map_sum f m.
Proof.
  intros He. apply sum_by_nonneg. intros x ([k y] & -> & Hy%elem_of_map_to_list)%list_elem_of_fmap. by apply (He k).
Qed.
Lemma map_sum_member f m k x : (∀ k x, m !! k = Some x → 0 ≤ f x) → m !! k = Some x → f x ≤ map_sum f m.
Proof.
  intros He Hk. rewrite (map_sum_delete f m k x Hk).
  assert (0 ≤ map_sum f (delete k m)); [|lia].
  apply map_sum_nonneg. intros j y [_ Hj]%lookup_delete_Some. by apply (He j).
Qed.
(** Growing every value and adding more can only grow the sum. *)
Lemma map_sum_mono f m m' : (∀ k x, m !! k = Some x → ∃ x', m' !! k = Some x' ∧ f x ≤ f x') →
  (∀ k x, m' !! k = Some x → 0 ≤ f x) → map_sum f m ≤ map_sum f m'.
Proof.
  revert m'. induction m as [|k x m Hk IH] using map_ind; intros m' Hle Hpos.
  - rewrite map_sum_empty. by apply map_sum_nonneg.
  - destruct (Hle k x ltac:(apply lookup_insert_eq)) as (x' & Hx' & Hf).
    rewrite map_sum_fresh, (map_sum_delete f m' k x' Hx') by done.
    assert (map_sum f m ≤ map_sum f (delete k m')); [|lia]. apply IH.
    + intros j y Hj. destruct (Hle j y) as (y' & Hy' & ?).
      { rewrite lookup_insert_ne; [done|]. intros ->. congruence. }
      exists y'. split; [|done]. rewrite lookup_delete_ne; [done|]. intros ->. congruence.
    + intros j y [_ Hj]%lookup_delete_Some. by apply (Hpos j).
Qed.
(** The sum after any change at one key. *)
Lemma map_sum_alter f m k new : map_sum f (partial_alter (λ _, new) k m) =
  from_option f 0 new - from_option f 0 (m !! k) + map_sum f m.
Proof.
  destruct new as [x|]; [apply map_sum_insert|].
  change (partial_alter _ _ _) with (delete k m). destruct (m !! k) as [y|] eqn:E; simpl.
  - rewrite (map_sum_delete f m k y E). lia.
  - rewrite delete_id by done. lia.
Qed.
Lemma map_sum_le f g m : (∀ k x, m !! k = Some x → f x ≤ g x) → map_sum f m ≤ map_sum g m.
Proof.
  induction m as [|k x m Hk IH] using map_ind; intros Hle; [by rewrite !map_sum_empty|].
  rewrite !map_sum_fresh by done. specialize (Hle k x ltac:(apply lookup_insert_eq)) as Hx.
  assert (map_sum f m ≤ map_sum g m); [|lia]. apply IH. intros j y Hj. apply (Hle j).
  rewrite lookup_insert_ne; [done|]. intros ->. congruence.
Qed.
Lemma map_sum_zero f m : (∀ k x, m !! k = Some x → f x = 0) → map_sum f m = 0.
Proof.
  intros Hz. rewrite (map_sum_ext f (λ _, 0) m Hz). clear Hz.
  induction m as [|k x m Hk IH] using map_ind; [apply map_sum_empty|]. rewrite map_sum_fresh by done. lia.
Qed.
End sums.

Lemma sum_by_fmap {A B} (g : A → B) (f : B → Z) l : sum_by f (g <$> l) = sum_by (λ x, f (g x)) l.
Proof. induction l as [|x l IH]; [done|]. change (f (g x) + sum_by f (g <$> l) = f (g x) + sum_by (λ x, f (g x)) l). by rewrite IH. Qed.
Lemma map_sum_btree {A} (f : A → Z) (m : gmap string A) : sum_by f (btree_values m) = map_sum f m.
Proof. unfold map_sum, btree_values. by rewrite btree_entries_perm. Qed.

(** ** Counters as multisets: a map of counters represents a list of keys when it holds the number of times each key occurs, and no zeros *)
Definition count_of (counts : gmap string Z) (key : string) : Z := default 0 (counts !! key).
Definition occurrences (key : string) (keys : list string) : Z :=
  Z.of_nat (length (filter (λ k, k = key) keys)).
Definition represents (keys : list string) (counts : gmap string Z) : Prop :=
  ∀ key, counts !! key = if occurrences key keys =? 0 then None else Some (occurrences key keys).

Lemma occurrences_cons k key keys :
  occurrences key (k :: keys) = occurrences key keys + if decide (k = key) then 1 else 0.
Proof. unfold occurrences. rewrite filter_cons. case_decide; simpl; lia. Qed.
Lemma occurrences_app key keys keys' :
  occurrences key (keys ++ keys') = occurrences key keys + occurrences key keys'.
Proof. unfold occurrences. rewrite filter_app, length_app. lia. Qed.
Lemma occurrences_range key keys : 0 ≤ occurrences key keys ≤ Z.of_nat (length keys).
Proof. unfold occurrences. pose proof (length_filter (λ k, k = key) keys). lia. Qed.
#[global] Instance occurrences_perm key : Proper ((≡ₚ) ==> (=)) (occurrences key).
Proof. intros l k H. unfold occurrences. by rewrite H. Qed.
Lemma occurrences_pos key keys : 0 < occurrences key keys ↔ key ∈ keys.
Proof.
  split.
  - unfold occurrences. intros H. destruct (filter (λ k, k = key) keys) as [|k l] eqn:E; [simpl in H; lia|].
    assert (k ∈ filter (λ k, k = key) keys) as [-> Hk]%list_elem_of_filter by (rewrite E; left). done.
  - intros [keys' ->]%elem_of_Permutation. unfold occurrences. rewrite filter_cons, decide_True by done. simpl. lia.
Qed.
#[global] Instance represents_perm : Proper ((≡ₚ) ==> eq ==> iff) represents.
Proof.
  intros l k H m _ <-. unfold represents. split; intros Hr key; rewrite Hr, (occurrences_perm key l k H); done.
Qed.

Lemma represents_nil : represents [] ∅.
Proof. intros key. apply lookup_empty. Qed.
Lemma represents_count keys counts key : represents keys counts → count_of counts key = occurrences key keys.
Proof. intros H. unfold count_of. rewrite H. by destruct (Z.eqb_spec (occurrences key keys) 0) as [->|]. Qed.
Lemma represents_dom keys counts key : represents keys counts → is_Some (counts !! key) ↔ key ∈ keys.
Proof.
  intros H. rewrite H, <-occurrences_pos. pose proof (occurrences_range key keys).
  destruct (Z.eqb_spec (occurrences key keys) 0); split; try lia; try done; by intros [? ?].
Qed.
Lemma represents_unique keys counts counts' : represents keys counts → represents keys counts' → counts = counts'.
Proof. intros H H'. apply map_eq. intros key. by rewrite H, H'. Qed.
(** Counting one key more, or several. *)
Lemma represents_more keys counts k n : represents keys counts →
  represents (replicate (S n) k ++ keys) (<[k := count_of counts k + Z.of_nat (S n)]> counts).
Proof.
  intros H key. rewrite (represents_count keys), occurrences_app by done. pose proof (occurrences_range k keys).
  assert (∀ j, occurrences j (replicate (S n) k) = if decide (k = j) then Z.of_nat (S n) else 0) as Hrep.
  { intros j. unfold occurrences. induction (S n) as [|m IH]; simpl; [by case_decide|].
    rewrite filter_cons. case_decide; simpl; lia. }
  rewrite Hrep. case_decide as Hk.
  - subst key. rewrite lookup_insert_eq. destruct (Z.eqb_spec (Z.of_nat (S n) + occurrences k keys) 0); [lia|].
    f_equal. lia.
  - rewrite lookup_insert_ne by done. apply H.
Qed.
Lemma represents_bump keys counts k : represents keys counts →
  represents (k :: keys) (<[k := count_of counts k + 1]> counts).
Proof. apply (represents_more keys counts k 0). Qed.
(** Counting one key less, and removing the counter at zero. *)
Lemma represents_drop keys counts k : represents (k :: keys) counts →
  represents keys (if count_of counts k - 1 =? 0 then delete k counts else <[k := count_of counts k - 1]> counts).
Proof.
  intros H key. pose proof (occurrences_range k keys). rewrite (represents_count (k :: keys)) by done.
  rewrite occurrences_cons, decide_True by done. replace (occurrences k keys + 1 - 1) with (occurrences k keys) by lia.
  destruct (Z.eqb_spec (occurrences k keys) 0) as [E|E]; (destruct (decide (k = key)) as [<-|Hk];
    [rewrite ?lookup_delete_eq, ?lookup_insert_eq
    |rewrite ?lookup_delete_ne, ?lookup_insert_ne, H, occurrences_cons, decide_False, Z.add_0_r by done; done]).
  - by rewrite E.
  - by rewrite (proj2 (Z.eqb_neq _ _) E).
Qed.
(** The counters add up to the number of keys. *)
Lemma represents_total keys counts : represents keys counts → map_sum (λ n, n) counts = Z.of_nat (length keys).
Proof.
  revert counts. induction keys as [|k keys IH]; intros counts H.
  - apply map_sum_zero. intros key n Hn. by rewrite H in Hn.
  - specialize (IH _ (represents_drop keys counts k H)).
    pose proof (represents_count _ _ k H) as Hk. rewrite occurrences_cons, decide_True in Hk by done.
    assert (counts !! k = Some (count_of counts k)) as Hl.
    { rewrite H, occurrences_cons, decide_True, Hk by done. pose proof (occurrences_range k keys).
      by destruct (Z.eqb_spec (occurrences k keys + 1) 0); [lia|]. }
    rewrite (map_sum_delete _ _ _ _ Hl). simpl length.
    destruct (Z.eqb_spec (count_of counts k - 1) 0) as [E|E]; [lia|].
    rewrite map_sum_insert, Hl, (map_sum_delete _ _ _ _ Hl) in IH. simpl in IH. lia.
Qed.
(** Adding up two maps of counters, entry by entry. *)
Lemma represents_merge_step keys counts k n rest : represents keys counts → 0 < n →
  (∀ key, occurrences key rest = if decide (k = key) then n else 0) →
  represents (rest ++ keys) (<[k := count_of counts k + n]> counts).
Proof.
  intros H Hn Hrest key. rewrite occurrences_app, Hrest, (represents_count keys) by done.
  pose proof (occurrences_range k keys). case_decide as Hk.
  - subst key. rewrite lookup_insert_eq. destruct (Z.eqb_spec (n + occurrences k keys) 0); [lia|]. f_equal. lia.
  - rewrite lookup_insert_ne by done. apply H.
Qed.
