(* ===== verification/RustStr.v ===== *)
(** * Rust's [str]

    A Rust string is a sequence of UTF-8 bytes; the model keeps the bytes, so [len], the
    byte order of [Ord] and the ASCII operations are the code's own.  [trim] and
    [char::is_control] are defined on the UTF-8 encoding of the characters that have the
    Unicode property (White_Space, Cc). *)
From S2P Require Import Prelude.
From Stdlib Require Import ZArith Lia Ascii.

Local Open Scope Z_scope.

Definition code (c : ascii) : Z := Z.of_N (N_of_ascii c).
Definition in_bytes (lo hi : Z) (c : ascii) : bool := (lo <=? code c) && (code c <=? hi).

Definition str_len (s : string) : Z := Z.of_nat (String.length s).
Definition is_empty (s : string) : bool := match s with "" => true | _ => false end.
Definition str_eqb (a b : string) : bool := bool_decide (a = b).
(** [needles.contains(&s)] and [matches!(s, "a" | "b")]. *)
Definition one_of (needles : list string) (s : string) : bool := existsb (str_eqb s) needles.

Definition is_ascii_digit (c : ascii) : bool := in_bytes 48 57 c.
Definition is_ascii_alphabetic (c : ascii) : bool := in_bytes 65 90 c || in_bytes 97 122 c.
Definition is_ascii_alphanumeric (c : ascii) : bool := is_ascii_digit c || is_ascii_alphabetic c.
Definition ascii_lower (c : ascii) : ascii :=
  if in_bytes 65 90 c then ascii_of_N (N_of_ascii c + 32) else c.

Fixpoint all_bytes (p : ascii → bool) (s : string) : bool :=
  match s with "" => true | String c s' => p c && all_bytes p s' end.
Fixpoint contains_char (c : ascii) (s : string) : bool :=
  match s with "" => false | String d s' => bool_decide (c = d) || contains_char c s' end.
Fixpoint to_ascii_lowercase (s : string) : string :=
  match s with "" => "" | String c s' => String (ascii_lower c) (to_ascii_lowercase s') end.
Definition eq_ignore_ascii_case (a b : string) : bool :=
  str_eqb (to_ascii_lowercase a) (to_ascii_lowercase b).
(** [s.replace(from, to)] for single characters. *)
Fixpoint replace_char (from to : ascii) (s : string) : string :=
  match s with
  | "" => ""
  | String c s' => String (if bool_decide (c = from) then to else c) (replace_char from to s')
  end.

Fixpoint strip_prefix (p s : string) : option string :=
  match p, s with
  | "", _ => Some s
  | String a p', String b s' => if bool_decide (a = b) then strip_prefix p' s' else None
  | String _ _, "" => None
  end.
Definition starts_with (p s : string) : bool := bool_decide (is_Some (strip_prefix p s)).
Fixpoint strip_suffix (suf s : string) : option string :=
  if str_eqb s suf then Some ""
  else match s with "" => None | String c s' => String c <$> strip_suffix suf s' end.
Definition ends_with (suf s : string) : bool := bool_decide (is_Some (strip_suffix suf s)).

(** [split_once] and [rsplit_once]: at the first, at the last occurrence of the pattern. *)
Fixpoint split_once (pat s : string) : option (string * string) :=
  match strip_prefix pat s with
  | Some rest => Some ("", rest)
  | None =>
      match s with
      | "" => None
      | String c s' => prod_map (String c) id <$> split_once pat s'
      end
  end.
Fixpoint rsplit_once (pat s : string) : option (string * string) :=
  match s with
  | "" => (λ rest, ("", rest)) <$> strip_prefix pat ""
  | String c s' =>
      match rsplit_once pat s' with
      | Some (a, b) => Some (String c a, b)
      | None => (λ rest, ("", rest)) <$> strip_prefix pat s
      end
  end.

(** The characters with the White_Space property, by the length of their encoding. *)
Definition ws1 (a : ascii) : bool := in_bytes 9 13 a || in_bytes 32 32 a.
Definition ws2 (a b : ascii) : bool :=
  in_bytes 194 194 a && (in_bytes 133 133 b || in_bytes 160 160 b).
Definition ws3 (a b c : ascii) : bool :=
  (in_bytes 225 225 a && in_bytes 154 154 b && in_bytes 128 128 c)
  || (in_bytes 226 226 a
      && ((in_bytes 128 128 b
           && (in_bytes 128 138 c || in_bytes 168 169 c || in_bytes 175 175 c))
          || (in_bytes 129 129 b && in_bytes 159 159 c)))
  || (in_bytes 227 227 a && in_bytes 128 128 b && in_bytes 128 128 c).

Section trim_by.
Variables (w1 : ascii → bool) (w2 : ascii → ascii → bool) (w3 : ascii → ascii → ascii → bool).
Fixpoint trim_by (s : string) : string :=
  match s with
  | "" => ""
  | String a s1 =>
      if w1 a then trim_by s1
      else match s1 with
      | "" => s
      | String b s2 =>
          if w2 a b then trim_by s2
          else match s2 with
          | "" => s
          | String c s3 => if w3 a b c then trim_by s3 else s
          end
      end
  end.
End trim_by.
Definition trim_start : string → string := trim_by ws1 ws2 ws3.
Definition trim_end (s : string) : string :=
  String.rev (trim_by ws1 (λ b a, ws2 a b) (λ c b a, ws3 a b c) (String.rev s)).
Definition trim (s : string) : string := trim_end (trim_start s).

(** [s.chars().any(char::is_whitespace)]. *)
Fixpoint any_whitespace (s : string) : bool :=
  match s with
  | "" => false
  | String _ s' => negb (str_eqb (trim_start s) s) || any_whitespace s'
  end.
(** [s.matches(c).count()]. *)
Fixpoint count_char (c : ascii) (s : string) : nat :=
  match s with "" => O | String d s' => if bool_decide (c = d) then S (count_char c s') else count_char c s' end.

(** [s.chars().any(char::is_control)]: C0, DEL and the two-byte C1 block. *)
Fixpoint any_control (s : string) : bool :=
  match s with
  | "" => false
  | String a s' =>
      in_bytes 0 31 a || in_bytes 127 127 a
      || (in_bytes 194 194 a && match s' with "" => false | String b _ => in_bytes 128 159 b end)
      || any_control s'
  end.

Definition is_ascii_lowercase (c : ascii) : bool := in_bytes 97 122 c.
(** [s.contains(pat)]. *)
Definition contains_str (pat s : string) : bool := bool_decide (is_Some (split_once pat s)).
(** [s.split(c)]: never empty. *)
Fixpoint split_char (c : ascii) (s : string) : list string :=
  match s with
  | "" => [""]
  | String d s' =>
      if bool_decide (d = c) then "" :: split_char c s'
      else match split_char c s' with [] => [] | w :: l => String d w :: l end
  end.
(** [s.trim_end_matches(c)]. *)
Fixpoint trim_end_char (c : ascii) (s : string) : string :=
  match s with
  | "" => ""
  | String d s =>
      let s := trim_end_char c s in
      if is_empty s && bool_decide (d = c) then "" else String d s
  end.

(** The value of a string of decimal digits, as [parse] reads it. *)
Definition digit (c : ascii) : Z := code c - 48.
Fixpoint dec_value_go (acc : Z) (s : string) : Z :=
  match s with "" => acc | String c s' => dec_value_go (10 * acc + digit c) s' end.
Definition dec_value : string → Z := dec_value_go 0.
Definition all_digits : string → bool := all_bytes is_ascii_digit.

(** ** Lemmas *)
Lemma str_eqb_eq a b : str_eqb a b = true ↔ a = b.
Proof. unfold str_eqb. by rewrite bool_decide_eq_true. Qed.
Lemma str_eqb_neq a b : str_eqb a b = false ↔ a ≠ b.
Proof. unfold str_eqb. by rewrite bool_decide_eq_false. Qed.
Lemma str_eqb_refl a : str_eqb a a = true.
Proof. by apply str_eqb_eq. Qed.
Lemma is_empty_true s : is_empty s = true ↔ s = "".
Proof. by destruct s. Qed.
Lemma is_empty_false s : is_empty s = false ↔ s ≠ "".
Proof. by destruct s. Qed.
Lemma one_of_true l s : one_of l s = true ↔ s ∈ l.
Proof.
  unfold one_of. rewrite existsb_exists, list_elem_of_In. split.
  - intros (x & Hx & ->%str_eqb_eq). done.
  - intros Hx. exists s. split; [done|apply str_eqb_refl].
Qed.

Lemma app_nil_r_string (s : string) : s +:+ "" = s.
Proof. induction s; simpl; [done|]. change (String a s +:+ "") with (String a (s +:+ "")). by f_equal. Qed.
Lemma app_assoc_string (a b c : string) : (a +:+ b) +:+ c = a +:+ (b +:+ c).
Proof. induction a as [|x a IH]; [done|]. exact (f_equal (String x) IH). Qed.
Lemma app_cons_string x (a b : string) : String x a +:+ b = String x (a +:+ b).
Proof. done. Qed.
Lemma length_app_string (a b : string) :
  String.length (a +:+ b) = (String.length a + String.length b)%nat.
Proof. induction a as [|x a IH]; [done|]. rewrite app_cons_string. simpl. by rewrite IH. Qed.

Lemma str_len_app a b : str_len (a +:+ b) = str_len a + str_len b.
Proof. unfold str_len. rewrite length_app_string. lia. Qed.
Lemma str_len_nonneg s : 0 ≤ str_len s.
Proof. unfold str_len. lia. Qed.

Lemma length_rev_app a b :
  String.length (String.rev_app a b) = (String.length a + String.length b)%nat.
Proof. revert b. induction a; intros b; simpl; [done|]. rewrite IHa. simpl. lia. Qed.
Lemma length_rev_string s : String.length (String.rev s) = String.length s.
Proof. unfold String.rev. rewrite length_rev_app. simpl. lia. Qed.

Lemma length_trim_by_le w1 w2 w3 n s :
  (String.length s ≤ n)%nat →
  (String.length (trim_by w1 w2 w3 s) ≤ String.length s)%nat.
Proof.
  revert s; induction n as [|n IH]; intros s Hle.
  { destruct s; simpl in *; lia. }
  destruct s as [|a s1]; [done|]. cbn [trim_by String.length] in *.
  pose proof (IH s1 ltac:(lia)). destruct (w1 a); [lia|].
  destruct s1 as [|b s2]; [done|]. cbn [String.length] in *.
  pose proof (IH s2 ltac:(lia)). destruct (w2 a b); [lia|].
  destruct s2 as [|c s3]; [done|]. cbn [String.length] in *.
  pose proof (IH s3 ltac:(lia)). destruct (w3 a b c); [lia|simpl; lia].
Qed.
Lemma length_trim_by w1 w2 w3 s : (String.length (trim_by w1 w2 w3 s) ≤ String.length s)%nat.
Proof. by eapply length_trim_by_le. Qed.
Lemma length_trim s : (String.length (trim s) ≤ String.length s)%nat.
Proof.
  unfold trim, trim_end. rewrite length_rev_string. etrans; [apply length_trim_by|].
  rewrite length_rev_string. apply length_trim_by.
Qed.

Lemma strip_prefix_Some p s t : strip_prefix p s = Some t ↔ s = p +:+ t.
Proof.
  revert s; induction p as [|a p IH]; intros s; simpl.
  - change ("" +:+ t) with t. naive_solver.
  - rewrite app_cons_string. destruct s as [|b s]; [done|]. case_bool_decide; subst.
    + rewrite IH. naive_solver.
    + naive_solver.
Qed.
Lemma starts_with_true p s : starts_with p s = true ↔ ∃ t, s = p +:+ t.
Proof.
  unfold starts_with. rewrite bool_decide_eq_true. unfold is_Some.
  by setoid_rewrite strip_prefix_Some.
Qed.
Lemma app_self_nil (a b : string) : a +:+ b = b → a = "".
Proof.
  intros H. apply (f_equal String.length) in H. rewrite length_app_string in H.
  destruct a; simpl in *; [done|lia].
Qed.
Lemma strip_suffix_Some suf s t : strip_suffix suf s = Some t ↔ s = t +:+ suf.
Proof.
  revert t; induction s as [|c s IH]; intros t; simpl.
  - destruct (str_eqb "" suf) eqn:E.
    + apply str_eqb_eq in E as <-. split; [by intros [= <-]|].
      intros H. symmetry in H. destruct t; [done|]. discriminate H.
    + apply str_eqb_neq in E. split; [done|].
      destruct t; [by rewrite (eq_refl : "" +:+ suf = suf)|]. intros H; discriminate H.
  - destruct (str_eqb (String c s) suf) eqn:E.
    + apply str_eqb_eq in E as <-. split; [by intros [= <-]|].
      intros H. symmetry in H. by apply app_self_nil in H as ->.
    + apply str_eqb_neq in E. rewrite fmap_Some. setoid_rewrite IH. split.
      * by intros (t' & -> & ->).
      * destruct t as [|d t]; [by intros H; destruct E|].
        rewrite app_cons_string. intros [= -> ->]. eauto.
Qed.
Lemma ends_with_true suf s : ends_with suf s = true ↔ ∃ t, s = t +:+ suf.
Proof.
  unfold ends_with. rewrite bool_decide_eq_true. unfold is_Some.
  by setoid_rewrite strip_suffix_Some.
Qed.
Lemma rsplit_once_app pat s a b : rsplit_once pat s = Some (a, b) → s = a +:+ pat +:+ b.
Proof.
  revert a b; induction s as [|c s IH]; intros a b; simpl.
  - rewrite fmap_Some. intros (r & Hr%strip_prefix_Some & [= -> ->]). exact Hr.
  - destruct (rsplit_once pat s) as [[x y]|] eqn:E.
    + intros [= <- <-]. rewrite (IH _ _ eq_refl). done.
    + intros (r & Hr%strip_prefix_Some & [= -> ->])%fmap_Some. exact Hr.
Qed.

(** ** Decimal strings *)
Lemma all_bytes_app p a b : all_bytes p (a +:+ b) = all_bytes p a && all_bytes p b.
Proof. induction a as [|c a IH]; [done|]. rewrite app_cons_string. simpl. rewrite IH. apply andb_assoc. Qed.
Lemma dec_value_go_app acc a b : dec_value_go acc (a +:+ b) = dec_value_go (dec_value_go acc a) b.
Proof. revert acc; induction a as [|c a IH]; intros acc; [done|]. rewrite app_cons_string. simpl. apply IH. Qed.
Lemma dec_value_snoc s c : dec_value (s +:+ String c "") = 10 * dec_value s + digit c.
Proof. unfold dec_value. by rewrite dec_value_go_app. Qed.

Lemma digit_range c : is_ascii_digit c = true → 0 ≤ digit c ≤ 9.
Proof. unfold is_ascii_digit, in_bytes, digit. lia. Qed.
Lemma digit_char c : is_ascii_digit c = true → pretty_N_char (Z.to_N (digit c)) = c.
Proof. by destruct c as [[] [] [] [] [] [] [] []]; vm_compute. Qed.
Lemma pretty_char_digit n : (n < 10)%N →
  is_ascii_digit (pretty_N_char n) = true ∧ digit (pretty_N_char n) = Z.of_N n.
Proof.
  intros H. assert (n = 0 ∨ n = 1 ∨ n = 2 ∨ n = 3 ∨ n = 4 ∨ n = 5 ∨ n = 6 ∨ n = 7 ∨ n = 8 ∨ n = 9)%N
    as Hn by lia.
  by destruct_or!; subst.
Qed.

Lemma string_snoc (s : string) : s = "" ∨ ∃ s' c, s = s' +:+ String c "".
Proof.
  induction s as [|c s IH]; [by left|right]. destruct IH as [->|(s' & d & ->)].
  - by exists "", c.
  - by exists (String c s'), d.
Qed.
Lemma string_rev_ind (P : string → Prop) :
  P "" → (∀ s c, P s → P (s +:+ String c "")) → ∀ s, P s.
Proof.
  intros H0 Hs s. remember (String.length s) as n eqn:Hn. revert s Hn.
  induction n as [n IH] using lt_wf_ind. intros s ->.
  destruct (string_snoc s) as [->|(s' & c & ->)]; [done|].
  apply Hs, (IH (String.length s')); [|done]. rewrite length_app_string. simpl. lia.
Qed.

Lemma pretty_N_go_app n s : pretty_N_go n s = pretty_N_go n "" +:+ s.
Proof.
  revert s. induction (N.lt_wf_0 n) as [n _ IH]. intros s.
  destruct (decide (n = 0)%N) as [->|Hn]; [done|].
  rewrite !(pretty_N_go_step n) by lia.
  assert (n `div` 10 < n)%N by (apply N.div_lt; lia).
  set (c := pretty_N_char _). rewrite (IH _ ltac:(done) (String c s)).
  rewrite (IH _ ltac:(done) (String c "")). by rewrite app_assoc_string.
Qed.
Lemma pretty_N_go_snoc n d : (d < 10)%N → (0 < 10 * n + d)%N →
  pretty_N_go (10 * n + d) "" = pretty_N_go n "" +:+ String (pretty_N_char d) "".
Proof.
  intros Hd Hpos. rewrite pretty_N_go_step by done.
  replace ((10 * n + d) `div` 10)%N with n by (apply (N.div_unique _ _ _ d); lia).
  replace ((10 * n + d) `mod` 10)%N with d by (apply (N.mod_unique _ _ n); lia).
  by rewrite pretty_N_go_app.
Qed.

Lemma dec_value_nonneg s : all_digits s = true → 0 ≤ dec_value s.
Proof.
  induction s as [|s c IH] using string_rev_ind; [done|].
  unfold all_digits. rewrite all_bytes_app, dec_value_snoc. simpl.
  intros [H1 [Hc _]%andb_prop]%andb_prop. apply IH in H1. apply digit_range in Hc. lia.
Qed.

(** No leading zero: [0] itself, or a first byte other than ['0']. *)
Definition no_leading_zero (s : string) : bool :=
  negb ((1 <? str_len s) && starts_with "0" s).

Lemma pretty_go_dec_value s : all_digits s = true → starts_with "0" s = false →
  pretty_N_go (Z.to_N (dec_value s)) "" = s.
Proof.
  induction s as [|s c IH] using string_rev_ind; [done|].
  unfold all_digits. rewrite all_bytes_app, dec_value_snoc. simpl.
  intros [Hs [Hc _]%andb_prop]%andb_prop Hz. pose proof (digit_range c Hc).
  pose proof (dec_value_nonneg s Hs).
  assert (s = "" ∨ starts_with "0" s = false) as Hs0.
  { destruct s as [|b s]; [by left|right]. apply not_true_is_false. intros Ht.
    apply not_true_iff_false in Hz. apply Hz. apply starts_with_true in Ht as [t ->].
    apply starts_with_true. by exists (t +:+ String c ""). }
  replace (Z.to_N (10 * dec_value s + digit c))
    with (10 * Z.to_N (dec_value s) + Z.to_N (digit c))%N by lia.
  assert (0 < 10 * Z.to_N (dec_value s) + Z.to_N (digit c))%N as Hpos.
  { destruct Hs0 as [->|Hs0].
    - assert (digit c ≠ 0); [|lia]. intros Hd. apply not_true_iff_false in Hz. apply Hz.
      apply starts_with_true. exists "". rewrite <-(digit_char c Hc), Hd. done.
    - destruct (decide (dec_value s = 0)) as [E|]; [|lia].
      specialize (IH Hs Hs0). rewrite E in IH. subst s. simpl in *.
      assert (digit c ≠ 0); [|lia]. intros Hd. apply not_true_iff_false in Hz. apply Hz.
      apply starts_with_true. exists "". rewrite <-(digit_char c Hc), Hd. done. }
  rewrite pretty_N_go_snoc by lia. rewrite (digit_char c Hc).
  destruct Hs0 as [->|Hs0]; [done|]. by rewrite IH.
Qed.

Lemma pretty_N_go_digits n s : (0 < n)%N →
  all_digits (pretty_N_go n s) = all_digits s
  ∧ dec_value (pretty_N_go n "") = Z.of_N n
  ∧ starts_with "0" (pretty_N_go n s) = false.
Proof.
  revert s. induction (N.lt_wf_0 n) as [n _ IH]. intros s Hn.
  assert (n `div` 10 < n)%N by (apply N.div_lt; lia).
  pose proof (N.div_mod' n 10) as Hdm.
  assert (n `mod` 10 < 10)%N as Hm by (apply N.mod_lt; lia).
  destruct (pretty_char_digit _ Hm) as [Hc Hv].
  destruct (decide (n `div` 10 = 0)%N) as [E|E].
  - rewrite !(pretty_N_go_step n), E, !pretty_N_go_0 by lia.
    rewrite E in Hdm. replace (n `mod` 10)%N with n in * by lia.
    split_and!; [by unfold all_digits; cbn [all_bytes]; rewrite Hc| |].
    + change (String (pretty_N_char n) "") with ("" +:+ String (pretty_N_char n) "").
      rewrite dec_value_snoc. unfold dec_value. simpl. lia.
    + apply not_true_is_false. intros [t [= Ht _]]%starts_with_true.
      rewrite Ht in Hv. change (digit "0") with 0 in Hv. lia.
  - destruct (IH (n `div` 10)%N ltac:(done) (String (pretty_N_char (n `mod` 10)) s) ltac:(lia))
      as (H1 & H2 & H3).
    rewrite !(pretty_N_go_step n) by lia. split_and!; [|..|done].
    + rewrite H1. unfold all_digits. cbn [all_bytes]. by rewrite Hc.
    + rewrite pretty_N_go_app, dec_value_snoc, H2, Hv. lia.
Qed.

(** The canonical decimal strings are exactly the printed non-negative integers. *)
Lemma pretty_Z_nonneg z : 0 < z → pretty z = pretty_N_go (Z.to_N z) "".
Proof. intros H. by destruct z. Qed.
Lemma pretty_dec_value s :
  s ≠ "" → all_digits s = true → no_leading_zero s = true → pretty (dec_value s) = s.
Proof.
  intros Hne Hd Hz. destruct (starts_with "0" s) eqn:H0.
  - unfold no_leading_zero in Hz. rewrite H0 in Hz.
    apply starts_with_true in H0 as [t ->]. destruct t; [done|].
    exfalso. unfold str_len in Hz. rewrite length_app_string in Hz. rewrite andb_true_r in Hz.
    apply negb_true_iff, Z.ltb_ge in Hz. simpl in Hz. lia.
  - pose proof (pretty_go_dec_value s Hd H0) as Hp. pose proof (dec_value_nonneg s Hd).
    destruct (decide (dec_value s = 0)) as [E|]; [by rewrite E in Hp|].
    by rewrite pretty_Z_nonneg by lia.
Qed.
Lemma dec_value_pretty z : 0 ≤ z →
  pretty z ≠ "" ∧ all_digits (pretty z) = true ∧ no_leading_zero (pretty z) = true
  ∧ dec_value (pretty z) = z.
Proof.
  intros Hz. destruct (decide (z = 0)) as [->|]; [done|].
  rewrite pretty_Z_nonneg by lia.
  destruct (pretty_N_go_digits (Z.to_N z) "" ltac:(lia)) as (H1 & H2 & H3).
  split_and!; [|done|..].
  - intros E. rewrite E in H2. change (dec_value "") with 0 in H2. lia.
  - unfold no_leading_zero. rewrite H3. by rewrite andb_false_r.
  - rewrite H2. lia.
Qed.
Lemma dec_value_upper s : all_digits s = true → dec_value s < 10 ^ str_len s.
Proof.
  induction s as [|s c IH] using string_rev_ind; [done|].
  unfold all_digits, str_len. rewrite all_bytes_app, dec_value_snoc, length_app_string.
  simpl. intros [Hs [Hc _]%andb_prop]%andb_prop. apply IH in Hs.
  apply digit_range in Hc. unfold str_len in Hs. rewrite Nat2Z.inj_add, Z.pow_add_r by lia.
  simpl. lia.
Qed.
Lemma starts_with_app_false p a b : starts_with p (a +:+ b) = false → starts_with p a = false.
Proof.
  intros H. apply not_true_is_false. intros [t ->]%starts_with_true.
  apply not_true_iff_false in H. apply H, starts_with_true. rewrite app_assoc_string. eauto.
Qed.
Lemma dec_value_lower s : s ≠ "" → all_digits s = true → starts_with "0" s = false →
  10 ^ (str_len s - 1) ≤ dec_value s.
Proof.
  induction s as [|s c IH] using string_rev_ind; [done|].
  unfold all_digits, str_len. rewrite all_bytes_app, dec_value_snoc, length_app_string.
  simpl. intros _ [Hs [Hc _]%andb_prop]%andb_prop Hz. pose proof (digit_range c Hc).
  destruct (decide (s = "")) as [->|Hne].
  - destruct (decide (digit c = 0)) as [E|]; [|change (dec_value "") with 0; simpl; lia].
    pose proof (digit_char c Hc) as Hd. rewrite E in Hd. rewrite <-Hd in Hz. discriminate Hz.
  - specialize (IH Hne Hs (starts_with_app_false _ _ _ Hz)). unfold str_len in IH.
    replace (Z.of_nat (String.length s + 1) - 1) with (1 + (Z.of_nat (String.length s) - 1)) by lia.
    assert (0 < String.length s)%nat by (destruct s; [done|simpl; lia]).
    rewrite Z.pow_add_r by lia. lia.
Qed.

(** ** Substrings *)
Lemma rev_app_spec (a b c : string) : String.rev_app a (b +:+ c) = String.rev_app a b +:+ c.
Proof. revert b; induction a as [|x a IH]; intros b; [done|]. simpl. by rewrite <-IH. Qed.
Lemma rev_cons x (s : string) : String.rev (String x s) = String.rev s +:+ String x "".
Proof.
  unfold String.rev. simpl. change (String x "") with ("" +:+ String x "").
  by rewrite rev_app_spec.
Qed.
Lemma rev_app_string (a b : string) : String.rev (a +:+ b) = String.rev b +:+ String.rev a.
Proof.
  induction a as [|x a IH].
  - change ("" +:+ b) with b. by rewrite app_nil_r_string.
  - by rewrite app_cons_string, !rev_cons, IH, app_assoc_string.
Qed.
Lemma rev_involutive_string (s : string) : String.rev (String.rev s) = s.
Proof. induction s as [|x s IH]; [done|]. by rewrite rev_cons, rev_app_string, IH. Qed.

Lemma trim_by_suffix_le w1 w2 w3 n s : (String.length s ≤ n)%nat →
  ∃ a, s = a +:+ trim_by w1 w2 w3 s.
Proof.
  revert s; induction n as [|n IH]; intros s Hle.
  { destruct s; simpl in *; [by exists ""|lia]. }
  destruct s as [|a s1]; [by exists ""|]. cbn [trim_by String.length] in *.
  destruct (IH s1 ltac:(lia)) as [p1 H1]. destruct (w1 a).
  { exists (String a p1). by rewrite app_cons_string, <-H1. }
  destruct s1 as [|b s2]; [by exists ""|]. cbn [String.length] in *.
  destruct (IH s2 ltac:(lia)) as [p2 H2]. destruct (w2 a b).
  { exists (String a (String b p2)). by rewrite !app_cons_string, <-H2. }
  destruct s2 as [|c s3]; [by exists ""|]. cbn [String.length] in *.
  destruct (IH s3 ltac:(lia)) as [p3 H3]. destruct (w3 a b c); [|by exists ""].
  exists (String a (String b (String c p3))). by rewrite !app_cons_string, <-H3.
Qed.
Lemma trim_parts s : ∃ a b, s = a +:+ trim s +:+ b.
Proof.
  destruct (trim_by_suffix_le ws1 ws2 ws3 _ s (le_n _)) as [a Ha].
  unfold trim, trim_end, trim_start in *. set (t := trim_by ws1 ws2 ws3 s) in *.
  destruct (trim_by_suffix_le ws1 (λ b a, ws2 a b) (λ c b a, ws3 a b c) _ (String.rev t) (le_n _))
    as [b Hb].
  exists a, (String.rev b). rewrite <-rev_app_string, <-Hb, rev_involutive_string. exact Ha.
Qed.
Lemma split_once_app pat s a b : split_once pat s = Some (a, b) → s = a +:+ pat +:+ b.
Proof.
  revert a b; induction s as [|c s IH]; intros a b; simpl;
    (destruct (strip_prefix pat _) as [r|] eqn:E;
      [apply strip_prefix_Some in E; intros [= <- <-]; exact E|]); [done|].
  intros ([x y] & Hx & [= -> ->])%fmap_Some. rewrite (IH _ _ Hx). done.
Qed.
Lemma ascii_lower_idemp c : ascii_lower (ascii_lower c) = ascii_lower c.
Proof. destruct c as [[] [] [] [] [] [] [] []]; reflexivity. Qed.
Lemma to_ascii_lowercase_idemp s :
  to_ascii_lowercase (to_ascii_lowercase s) = to_ascii_lowercase s.
Proof. induction s as [|c s IH]; [done|]. simpl. by rewrite ascii_lower_idemp, IH. Qed.
Lemma pretty_len z : 0 ≤ z ≤ I128_MAX → str_len (pretty z) ≤ 39.
Proof.
  intros Hz. destruct (dec_value_pretty z ltac:(lia)) as (Hne & Hd & _ & Hv).
  destruct (decide (z = 0)) as [->|]; [done|].
  assert (starts_with "0" (pretty z) = false) as H0.
  { rewrite pretty_Z_nonneg by lia. apply pretty_N_go_digits. lia. }
  pose proof (dec_value_lower _ Hne Hd H0) as Hl. rewrite Hv in Hl.
  destruct (Z.le_gt_cases (str_len (pretty z)) 39) as [|Hgt]; [done|]. exfalso.
  assert (10 ^ 39 ≤ 10 ^ (str_len (pretty z) - 1)) as Hp by (apply Z.pow_le_mono_r; lia).
  change (10 ^ 39) with 1000000000000000000000000000000000000000 in Hp. width_lia.
Qed.

(** *** Text without blanks *)
(** A printable character of ASCII that is not a space. *)
Definition graphic : ascii → bool := in_bytes 33 126.
Lemma all_bytes_mono p q s : (∀ c, p c = true → q c = true) → all_bytes p s = true → all_bytes q s = true.
Proof. intros Hpq. induction s as [|c s IH]; [done|]. cbn. intros [Hc Hs]%andb_true_iff. by rewrite Hpq, IH. Qed.
Lemma trim_by_id w1 w2 w3 s : all_bytes graphic s = true → (∀ a, graphic a = true → w1 a = false) →
  (∀ a b, graphic a = true → w2 a b = false) → (∀ a b c, graphic a = true → w3 a b c = false) → trim_by w1 w2 w3 s = s.
Proof.
  intros Hs H1 H2 H3. destruct s as [|a [|b [|c s]]]; [done|..]; cbn [all_bytes] in Hs; apply andb_true_iff in Hs as [Ha _];
    cbn [trim_by]; by rewrite ?(H1 a Ha), ?(H2 a _ Ha), ?(H3 a _ _ Ha).
Qed.
Lemma graphic_not_space a : graphic a = true → ws1 a = false ∧ in_bytes 194 194 a = false ∧ in_bytes 225 225 a = false ∧
  in_bytes 226 226 a = false ∧ in_bytes 227 227 a = false ∧ in_bytes 128 175 a = false.
Proof. by destruct a as [[] [] [] [] [] [] [] []]; vm_compute. Qed.
Lemma graphic_not_tail c : graphic c = true → in_bytes 128 138 c = false ∧ in_bytes 168 169 c = false ∧ in_bytes 175 175 c = false ∧
  in_bytes 159 159 c = false ∧ in_bytes 128 128 c = false ∧ in_bytes 133 133 c = false ∧ in_bytes 160 160 c = false.
Proof. by destruct c as [[] [] [] [] [] [] [] []]; vm_compute. Qed.
Lemma all_bytes_rev p s : all_bytes p (String.rev s) = all_bytes p s.
Proof. induction s as [|c s IH]; [done|]. rewrite rev_cons, all_bytes_app, IH. cbn. by rewrite andb_true_r, andb_comm. Qed.
Lemma trim_graphic s : all_bytes graphic s = true → trim s = s.
Proof.
  intros Hs. unfold trim, trim_end, trim_start. rewrite (trim_by_id _ _ _ s Hs).
  - rewrite trim_by_id; [apply rev_involutive_string|by rewrite all_bytes_rev|..].
    + by intros a [? _]%graphic_not_space.
    + intros a b (_ & _ & _ & _ & _ & H1 & H2)%graphic_not_tail. unfold ws2. by rewrite H1, H2, andb_false_r.
    + intros a b c (H1 & H2 & H3 & H4 & H5 & _)%graphic_not_tail. unfold ws3. by rewrite H1, H2, H3, H4, H5, !andb_false_r.
  - by intros a [? _]%graphic_not_space.
  - intros a b (_ & H1 & _)%graphic_not_space. unfold ws2. by rewrite H1.
  - intros a b c (_ & _ & H1 & H2 & H3 & _)%graphic_not_space. unfold ws3. by rewrite H1, H2, H3.
Qed.

(** ** Bytes and UTF-8: a byte is an [ascii], a slice of bytes a list of them; what [str::from_utf8] accepts *)
Notation bytes := (list ascii).
(** [str::from_utf8]: no overlong form, no surrogate, nothing above U+10FFFF. *)
Definition continuation : ascii → bool := in_bytes 128 191.
Definition starts_three (a b : ascii) : bool :=
  in_bytes 224 224 a && in_bytes 160 191 b || in_bytes 225 236 a && continuation b
  || in_bytes 237 237 a && in_bytes 128 159 b || in_bytes 238 239 a && continuation b.
Definition starts_four (a b : ascii) : bool :=
  in_bytes 240 240 a && in_bytes 144 191 b || in_bytes 241 243 a && continuation b
  || in_bytes 244 244 a && in_bytes 128 143 b.
Fixpoint valid_utf8 (l : bytes) : bool :=
  match l with
  | [] => true
  | a :: l =>
      if code a <=? 127 then valid_utf8 l else
      match l with
      | [] => false
      | b :: l =>
          if in_bytes 194 223 a && continuation b then valid_utf8 l else
          match l with
          | [] => false
          | c :: l =>
              if starts_three a b && continuation c then valid_utf8 l else
              match l with
              | [] => false
              | d :: l => starts_four a b && continuation c && continuation d && valid_utf8 l
              end
          end
      end
  end.
Definition from_utf8 (l : bytes) : option string := if valid_utf8 l then Some (String.string_of_list_ascii l) else None.
(** [chars().take(n)]: a character starts at a byte that is no continuation. *)
Fixpoint take_chars (n : nat) (s : string) : string :=
  match s with
  | EmptyString => ""
  | String c s =>
      if continuation c then String c (take_chars n s)
      else match n with O => "" | S n => String c (take_chars n s) end
  end.
