(* ===== verification/Providers.v ===== *)
(** * Applications and provider types ([src/domain/providers/model.rs])

    The enumerations other components key their state by, with the names that appear in
    those keys, and the one fact about separators that keeps such keys apart. *)
From S2P Require Import Prelude RustStr.
From Stdlib Require Import ZArith Lia Ascii.

(** domain/providers/model.rs:8-12 [AppKind] *)
Inductive AppKind : Type := Claude | Codex | Gemini.
#[global] Instance AppKind_eq_dec : EqDecision AppKind.
Proof. solve_decision. Defined.
(** domain/providers/model.rs:15-21 [as_str] *)
Definition app_as_str (a : AppKind) : string :=
  match a with Claude => "claude" | Codex => "codex" | Gemini => "gemini" end.

(** domain/providers/model.rs:25-82 [ProviderType] *)
Inductive ProviderType : Type :=
  | PTClaude | PTClaudeAuth | PTClaudeOAuth | PTCodex
  | PTCodexOAuth | PTGemini | PTGeminiCli | PTOpenRouter
  | PTGitHubCopilot | PTDeepSeekAccount | PTKiroOAuth | PTAmazonQOAuth
  | PTKimiCode | PTQoderCosy | PTCodeBuddyOAuth | PTWorkBuddyOAuth
  | PTTraeSolo | PTTraeRaw | PTTraeIntl | PTCursorOAuth
  | PTCursorApiKey | PTAntigravityOAuth | PTAgyOAuth | PTOllamaCloud
  | PTAwsBedrock | PTNvidia | PTDeepSeekApi | PTGrokOAuth.
#[global] Instance ProviderType_eq_dec : EqDecision ProviderType.
Proof. solve_decision. Defined.
(** domain/providers/model.rs:109-140 [as_str] *)
Definition type_as_str (t : ProviderType) : string :=
  match t with
  | PTClaude => "claude"
  | PTClaudeAuth => "claude_auth"
  | PTClaudeOAuth => "claude_oauth"
  | PTCodex => "codex"
  | PTCodexOAuth => "codex_oauth"
  | PTGemini => "gemini"
  | PTGeminiCli => "gemini_cli"
  | PTOpenRouter => "openrouter"
  | PTGitHubCopilot => "github_copilot"
  | PTDeepSeekAccount => "deepseek_account"
  | PTKiroOAuth => "kiro_oauth"
  | PTAmazonQOAuth => "amazon_q_oauth"
  | PTKimiCode => "kimi_code"
  | PTQoderCosy => "qoder_cosy"
  | PTCodeBuddyOAuth => "codebuddy_oauth"
  | PTWorkBuddyOAuth => "workbuddy_oauth"
  | PTTraeSolo => "trae_solo"
  | PTTraeRaw => "trae_raw_chat"
  | PTTraeIntl => "trae_raw_chat_intl"
  | PTCursorOAuth => "cursor_oauth"
  | PTCursorApiKey => "cursor_apikey"
  | PTAntigravityOAuth => "antigravity_oauth"
  | PTAgyOAuth => "agy_oauth"
  | PTOllamaCloud => "ollama_cloud"
  | PTAwsBedrock => "aws_bedrock"
  | PTNvidia => "nvidia"
  | PTDeepSeekApi => "deepseek_api"
  | PTGrokOAuth => "grok_oauth"
  end.

Lemma app_as_str_inj a b : app_as_str a = app_as_str b → a = b.
Proof. by destruct a, b. Qed.
Lemma type_as_str_inj t u : type_as_str t = type_as_str u → t = u.
Proof. by destruct t, u. Qed.

(** ** Joined keys

    [format!("{a}{sep}{x}")] determines [a] and [x] when the separator is not in [a]. *)
Definition joined (sep : ascii) (a x : string) : string := a +:+ String sep x.
Lemma joined_inj sep a b x y : contains_char sep a = false → contains_char sep b = false →
  joined sep a x = joined sep b y → a = b ∧ x = y.
Proof.
  unfold joined. revert b. induction a as [|c a IH]; intros [|d b]; simpl; intros Ha Hb H.
  - by injection H.
  - injection H as <- _. by rewrite bool_decide_eq_true_2 in Hb.
  - injection H as -> _. by rewrite bool_decide_eq_true_2 in Ha.
  - apply orb_false_iff in Ha as [_ Ha], Hb as [_ Hb]. injection H as <- H.
    by destruct (IH b Ha Hb H) as [-> ->].
Qed.
Lemma joined_ne sep a x : joined sep a x ≠ a.
Proof. unfold joined. induction a as [|c a IH]; simpl; [done|]. by intros [= ?]. Qed.
Lemma contains_joined sep a x : contains_char sep (joined sep a x) = true.
Proof.
  unfold joined. induction a as [|c a IH]; simpl; [by rewrite bool_decide_eq_true_2|]. by rewrite IH, orb_true_r.
Qed.
Lemma app_no_colon a : contains_char ":" (app_as_str a) = false.
Proof. by destruct a. Qed.
Lemma type_no_colon t : contains_char ":" (type_as_str t) = false.
Proof. by destruct t. Qed.
