(* ===== verification/Json.v ===== *)
(** * [serde_json::Value]

    The document type the proxy reads and rewrites.  The crate is built with its
    [preserve_order] feature, so an object is the list of its members in insertion order,
    with distinct keys; [get] finds the member of a key.  Parsing and printing belong to the
    crate and are parameters wherever the code uses them. *)
From S2P Require Import Prelude RustStr.
From Stdlib Require Import ZArith Lia.

Local Open Scope Z_scope.

(** An integer of [i64] or [u64], or a float kept as its printed text. *)
Inductive number : Type :=
  | NInt (z : Z)
  | NFloat (text : string).

Inductive value : Type :=
  | Null
  | Bool (b : bool)
  | Number (n : number)
  | VString (s : string)
  | Array (items : list value)
  | Object (members : list (string * value)).

Section value_ind.
Variable P : value → Prop.
Hypotheses (HNull : P Null) (HBool : ∀ b, P (Bool b)) (HNumber : ∀ n, P (Number n))
  (HString : ∀ s, P (VString s)) (HArray : ∀ l, Forall P l → P (Array l))
  (HObject : ∀ m, Forall (λ kv, P kv.2) m → P (Object m)).
Fixpoint value_ind' (v : value) : P v :=
  match v with
  | Null => HNull
  | Bool b => HBool b
  | Number n => HNumber n
  | VString s => HString s
  | Array l =>
      HArray l ((fix go (l : list value) : Forall P l :=
        match l with
        | [] => Forall_nil_2 P
        | x :: l' => Forall_cons_2 P x l' (value_ind' x) (go l')
        end) l)
  | Object m =>
      HObject m ((fix go (m : list (string * value)) : Forall (λ kv, P kv.2) m :=
        match m with
        | [] => Forall_nil_2 _
        | (k, x) :: m' => Forall_cons_2 (λ kv, P kv.2) (k, x) m' (value_ind' x) (go m')
        end) m)
  end.
End value_ind.

Fixpoint member (key : string) (m : list (string * value)) : option value :=
  match m with
  | [] => None
  | (k, v) :: m' => if str_eqb k key then Some v else member key m'
  end.
(** [Value::get] with a string index: [None] unless the value is an object. *)
Definition get (key : string) (v : value) : option value :=
  match v with Object m => member key m | _ => None end.
Definition as_str (v : value) : option string := match v with VString s => Some s | _ => None end.
Definition as_bool (v : value) : option bool := match v with Bool b => Some b | _ => None end.
Definition as_array (v : value) : option (list value) := match v with Array l => Some l | _ => None end.
Definition is_object (v : value) : bool := match v with Object _ => true | _ => false end.
Definition as_u64 (v : value) : option Z :=
  match v with Number (NInt z) => checked_u64 z | _ => None end.
Definition as_i64 (v : value) : option Z :=
  match v with Number (NInt z) => checked_i64 z | _ => None end.

(** Rust's [Option::or_else] and [Iterator::find_map]. *)
Definition or_else {A} (a b : option A) : option A := match a with Some _ => a | None => b end.
Fixpoint find_map {A B} (f : A → option B) (l : list A) : option B :=
  match l with [] => None | x :: l' => or_else (f x) (find_map f l') end.

(** Objects hold each key once, at every depth. *)
Inductive wf_value : value → Prop :=
  | wf_null : wf_value Null
  | wf_bool b : wf_value (Bool b)
  | wf_number n : wf_value (Number n)
  | wf_string s : wf_value (VString s)
  | wf_array l : Forall wf_value l → wf_value (Array l)
  | wf_object m : NoDup m.*1 → Forall (λ kv, wf_value kv.2) m → wf_value (Object m).

Lemma member_Some_elem key m v : member key m = Some v → (key, v) ∈ m.
Proof.
  induction m as [|[k x] m IH]; [done|]. simpl.
  destruct (str_eqb k key) eqn:E; [apply str_eqb_eq in E as ->|].
  - intros [= ->]. left.
  - intros H. right. by apply IH.
Qed.
Lemma find_map_Some {A B} (f : A → option B) l b :
  find_map f l = Some b → ∃ a, a ∈ l ∧ f a = Some b.
Proof.
  induction l as [|x l IH]; simpl; [done|]. destruct (f x) eqn:E; simpl.
  - intros [= ->]. exists x. split; [left|done].
  - intros (a & Ha & Hf)%IH. exists a. split; [by right|done].
Qed.
Lemma find_map_None {A B} (f : A → option B) l :
  find_map f l = None ↔ ∀ a, a ∈ l → f a = None.
Proof.
  induction l as [|x l IH]; simpl.
  - split; [intros _ a Ha; inversion Ha|done].
  - destruct (f x) eqn:E; simpl.
    + split; [done|]. intros H. rewrite H in E by left. done.
    + rewrite IH. split.
      * intros H a [->|Ha]%elem_of_cons; auto.
      * intros H a Ha. apply H. by right.
Qed.
