(* ===== verification/ModelIdentity.v ===== *)
(** * Model identity ([identity_candidates] of [src/domain/usage/value_pricing.rs])

    The price of a logged model name is the price of the first candidate identity that the
    snapshot prices: the name itself, then the names obtained by peeling provider
    qualifiers and runtime suffixes, breadth first.  The peeling functions are partial
    string functions; the search is a queue with a set of names already seen. *)
From S2P Require Import Prelude RustStr.
From Stdlib Require Import ZArith Lia Ascii.

Local Open Scope Z_scope.

(** [value.rsplit('/').next()]: what follows the last slash, or everything. *)
Definition rsplit_last (pat s : string) : string :=
  match rsplit_once pat s with Some (_, b) => b | None => s end.

(** Peeling shortens a name or removes its dots: the measure of the loops below. *)
Fixpoint dots (s : string) : nat :=
  match s with "" => 0 | String c s' => (if bool_decide (c = "."%char) then 1 else 0) + dots s' end%nat.
Definition rank (s : string) : nat := String.length s + dots s.

(** domain/usage/value_pricing.rs:860-866 [strip_path_leaf] *)
Definition strip_path_leaf (value : string) : option string :=
  let leaf := trim (rsplit_last "/" value) in
  if is_empty leaf || str_eqb leaf value then None else Some leaf.

(** [value.find(stem)], with the text before and from the match. *)
Definition find_at (stem value : string) : option (string * string) :=
  prod_map id (λ rest, stem +:+ rest) <$> split_once stem value.
(** The first match of [stem] in [value] counts when it is preceded by a dot; the result
    is the qualifier before the dot and the text from the stem. *)
Definition stem_after_dot (stem value : string) : option (string * string) :=
  match find_at stem value with
  | Some (before, from) => (λ prefix, (prefix, from)) <$> strip_suffix "." before
  | None => None
  end.
(** An [o] followed by a digit and preceded by a dot, the first such position. *)
Fixpoint o_series_after_dot (before value : string) : option (string * string) :=
  match value with
  | String "." ((String "o" (String d _)) as from) =>
      if is_ascii_digit d then Some (String.rev before, from)
      else o_series_after_dot (String "."%char before) from
  | String c rest => o_series_after_dot (String c before) rest
  | "" => None
  end.
(** The split with the shorter qualifier, that is with the smaller position. *)
Definition min_split (a b : option (string * string)) : option (string * string) :=
  match a, b with
  | Some x, Some y => if str_len y.1 <? str_len x.1 then Some y else Some x
  | Some x, None => Some x
  | None, o => o
  end.
Definition STEMS : list string :=
  ["claude-"; "gpt-"; "gemini-"; "kimi-"; "glm-"; "deepseek-"; "codex-"].
Fixpoint split_on (c : Ascii.ascii) (s : string) : list string :=
  match s with
  | "" => [""]
  | String d s' =>
      if bool_decide (d = c) then "" :: split_on c s'
      else match split_on c s' with [] => [String d ""] | x :: l => String d x :: l end
  end.
(** domain/usage/value_pricing.rs:873-913 [strip_provider_dot_prefix] *)
Definition strip_provider_dot_prefix (value : string) : option string :=
  let by_stem := foldl (λ acc stem, min_split acc (stem_after_dot stem value)) None STEMS in
  match min_split by_stem (o_series_after_dot "" value) with
  | None => None
  | Some (prefix, from) =>
      if is_empty prefix
         || negb (forallb (λ part, negb (is_empty part) && all_bytes is_ascii_alphanumeric part)
                    (split_on "."%char prefix))
      then None
      else Some from
  end.

(** domain/usage/value_pricing.rs:958-970 [strip_bedrock_revision] *)
Definition strip_bedrock_revision (value : string) : option string :=
  match strip_suffix ":0" value with
  | None => None
  | Some next =>
      match rsplit_once "-v" next with
      | Some (base, rev) =>
          if negb (is_empty base) && all_digits rev then Some base
          else if is_empty next then None else Some next
      | None => if is_empty next then None else Some next
      end
  end.

(** The inner [for suffix in suffixes] loop: every suffix is tried once, in order, and an
    empty remainder leaves the loop.  The flag is [stripped]. *)
Fixpoint strip_each (suffixes : list string) (st : string * bool) : string * bool :=
  match suffixes with
  | [] => st
  | suf :: rest =>
      match strip_suffix suf st.1 with
      | Some next => if is_empty next then st else strip_each rest (next, true)
      | None => strip_each rest st
      end
  end.
Definition strip_round (current : string) : string * bool :=
  let st := strip_each ["-thinking"; "-latest"] (current, false) in
  let st := strip_each ["[1m]"; "-1m"] st in
  match strip_bedrock_revision st.1 with Some next => (next, true) | None => st end.
Definition strip_step (st : string * bool) : string * bool + string * bool :=
  let '(next, stripped) := strip_round st.1 in
  if stripped then inl (next, true) else inr (next, st.2).
(** domain/usage/value_pricing.rs:918-953 [strip_runtime_suffix].  Every round that strips
    lowers the rank of the value, which bounds the rounds ([strip_runtime_suffix_total]). *)
Definition strip_runtime_suffix (value : string) : option string :=
  match run (Pos.of_succ_nat (rank value)) strip_step (value, false) with
  | inr (current, true) => Some current
  | _ => None
  end.

(** domain/usage/value_pricing.rs:977-983 [strip_date_stamp] *)
Definition strip_date_stamp (value : string) : option string :=
  match rsplit_once "-" value with
  | Some (base, suffix) =>
      if (str_len suffix =? 8) && all_digits suffix && negb (is_empty base) then Some base else None
  | None => None
  end.
(** domain/usage/value_pricing.rs:986-1000 [claude_dot_version_to_hyphen] *)
Definition claude_dot_version_to_hyphen (value : string) : option string :=
  rest ← strip_prefix "claude-" value;
  '(family, version) ← split_once "-" rest;
  if negb (one_of ["sonnet"; "opus"; "haiku"] family) then None
  else if negb (contains_char "."%char version)
          || negb (all_bytes (λ b, is_ascii_digit b || bool_decide (b = "."%char)) version)
  then None
  else Some ("claude-" +:+ family +:+ "-" +:+ replace_char "."%char "-"%char version).

(** domain/usage/value_pricing.rs:850-856 [push_unique] *)
Definition push_unique (out : list string) (next : option string) : list string :=
  match next with
  | Some n => if one_of out n then out else out ++ [n]
  | None => out
  end.
(** domain/usage/value_pricing.rs:840-848 [unwrap_identity] *)
Definition unwrap_identity (value : string) : list string :=
  let out := push_unique [] (strip_path_leaf value) in
  let out := push_unique out (strip_provider_dot_prefix value) in
  let out := push_unique out (strip_runtime_suffix value) in
  let out := push_unique out (strip_date_stamp value) in
  push_unique out (claude_dot_version_to_hyphen value).

(** The state of the search: the queue, the names seen, the names listed. *)
Definition search : Type := list string * gset string * list string.
Definition candidates_step (st : search) : search + list string :=
  let '(queue, seen, ordered) := st in
  match queue with
  | [] => inr ordered
  | current :: queue =>
      if is_empty current || bool_decide (current ∈ seen) then inl (queue, seen, ordered)
      else
        let seen := {[current]} ∪ seen in
        let next := filter (λ n, n ≠ "" ∧ n ∉ seen) (unwrap_identity current) in
        inl (queue ++ next, seen, ordered ++ [current])
  end.
Definition weight (s : string) : positive := (6 ^ Pos.of_succ_nat (rank s))%positive.
(** domain/usage/value_pricing.rs:821-838 [identity_candidates].  The fuel always suffices
    ([identity_candidates_total]). *)
Definition identity_candidates (model_text : string) : list string :=
  let start := to_ascii_lowercase (trim model_text) in
  match run (Pos.succ (weight start)) candidates_step ([start], ∅, []) with
  | inr ordered => ordered
  | inl _ => []
  end.

(** ** Every peeling step lowers the rank *)
Lemma dots_app a b : dots (a +:+ b) = (dots a + dots b)%nat.
Proof. induction a as [|c a IH]; [done|]. rewrite app_cons_string. simpl. lia. Qed.
Lemma rank_app a b : rank (a +:+ b) = (rank a + rank b)%nat.
Proof. unfold rank. rewrite length_app_string, dots_app. lia. Qed.
Lemma rank_cons c s : rank (String c s) = (rank (String c "") + rank s)%nat.
Proof. change (String c s) with (String c "" +:+ s). apply rank_app. Qed.
Lemma rank_zero s : rank s = 0%nat → s = "".
Proof. destruct s; [done|]. unfold rank; simpl; lia. Qed.
Lemma rank_eq_part a m b : rank m = rank (a +:+ m +:+ b) → a = "" ∧ b = "".
Proof. rewrite !rank_app. intros. split; apply rank_zero; lia. Qed.

Lemma strip_path_leaf_rank v n : strip_path_leaf v = Some n → (rank n < rank v)%nat.
Proof.
  unfold strip_path_leaf, rsplit_last. intros H.
  destruct (is_empty _ || str_eqb _ _) eqn:E; [done|]. injection H as <-.
  apply orb_false_elim in E as [_ Hne%str_eqb_neq].
  destruct (rsplit_once "/" v) as [[a b]|] eqn:Hr.
  - apply rsplit_once_app in Hr as ->. destruct (trim_parts b) as (x & y & Hb).
    apply (f_equal rank) in Hb. rewrite !rank_app in *. change (rank "/") with 1%nat. lia.
  - destruct (trim_parts v) as (x & y & Hv).
    pose proof (f_equal rank Hv) as Hr'. rewrite !rank_app in Hr'.
    destruct (decide (rank (trim v) = rank v)) as [E|]; [|lia].
    exfalso. apply Hne. assert (rank (trim v) = rank (x +:+ trim v +:+ y)) as Hp by congruence.
    apply rank_eq_part in Hp as [-> ->]. rewrite Hv at 2. by rewrite app_nil_r_string.
Qed.

Lemma stem_after_dot_app stem v p f :
  stem_after_dot stem v = Some (p, f) → v = p +:+ "." +:+ f.
Proof.
  unfold stem_after_dot, find_at.
  destruct (split_once stem v) as [[b r]|] eqn:E; simpl; [|done].
  intros (q & Hq%strip_suffix_Some & [= -> ->])%fmap_Some. apply split_once_app in E as ->.
  subst b. by rewrite !app_assoc_string.
Qed.
Lemma o_series_after_dot_app before v p f :
  o_series_after_dot before v = Some (p, f) → String.rev before +:+ v = p +:+ "." +:+ f.
Proof.
  revert before; induction v as [|c v IH]; intros before; [done|]. intros H.
  assert (o_series_after_dot (String c before) v = Some (p, f) ∨
          (c = "."%char ∧ String.rev before = p ∧ v = f)) as [H'|(-> & -> & ->)]; [| |done].
  { simpl in H. repeat case_match; simplify_eq; eauto. }
  apply IH in H'. by rewrite rev_cons, app_assoc_string in H'.
Qed.
Lemma strip_provider_dot_prefix_rank v n :
  strip_provider_dot_prefix v = Some n → (rank n < rank v)%nat.
Proof.
  unfold strip_provider_dot_prefix. set (Q := λ o, ∀ p f, o = Some (p, f) → v = p +:+ "." +:+ f).
  assert (∀ a b, Q a → Q b → Q (min_split a b)) as Hmin.
  { intros [[]|] [[]|] Ha Hb; simpl; try case_match; done. }
  assert (Q (min_split (foldl (λ acc stem, min_split acc (stem_after_dot stem v)) None STEMS)
                       (o_series_after_dot "" v))) as HQ.
  { apply Hmin; [|intros p f; by intros ?%o_series_after_dot_app].
    assert (Q None) as H0 by done. revert H0. generalize (@None (string * string)).
    induction STEMS as [|st l IH]; intros o Ho; simpl; [done|].
    apply IH, Hmin; [done|]. intros p f. apply stem_after_dot_app. }
  destruct (min_split _ _) as [[p f]|]; [|done]. case_match; [done|]. intros [= <-].
  rewrite (HQ _ _ eq_refl), !rank_app. change (rank ".") with 2%nat. lia.
Qed.

Lemma strip_suffix_rank suf v n : strip_suffix suf v = Some n → rank v = (rank n + rank suf)%nat.
Proof. intros ->%strip_suffix_Some. apply rank_app. Qed.
Lemma strip_bedrock_revision_rank v n : strip_bedrock_revision v = Some n → (rank n < rank v)%nat.
Proof.
  unfold strip_bedrock_revision. destruct (strip_suffix ":0" v) as [x|] eqn:E; [|done].
  apply strip_suffix_rank in E. change (rank ":0") with 2%nat in E.
  destruct (rsplit_once "-v" x) as [[b r]|] eqn:E2.
  - apply rsplit_once_app in E2 as ->. rewrite !rank_app in E.
    repeat case_match; intros; simplify_eq; rewrite ?rank_app; lia.
  - case_match; intros; simplify_eq. lia.
Qed.
Lemma strip_date_stamp_rank v n : strip_date_stamp v = Some n → (rank n < rank v)%nat.
Proof.
  unfold strip_date_stamp. destruct (rsplit_once "-" v) as [[b r]|] eqn:E; [|done].
  apply rsplit_once_app in E as ->. case_match; [|done]. intros [= <-].
  rewrite !rank_app. change (rank "-") with 1%nat. lia.
Qed.

Lemma strip_each_rank l c b : Forall (λ suf, 0 < rank suf)%nat l →
  strip_each l (c, b) = (c, b)
  ∨ ∃ c', strip_each l (c, b) = (c', true) ∧ (rank c' < rank c)%nat.
Proof.
  intros Hl. revert c b. induction Hl as [|suf l Hs Hl IH]; intros c b; simpl; [by left|].
  destruct (strip_suffix suf c) as [n|] eqn:E; [|apply IH].
  apply strip_suffix_rank in E. case_match; [by left|]. right.
  destruct (IH n true) as [->|(c' & -> & ?)]; eexists; (split; [done|lia]).
Qed.
Lemma strip_round_rank c :
  strip_round c = (c, false) ∨ ∃ c', strip_round c = (c', true) ∧ (rank c' < rank c)%nat.
Proof.
  unfold strip_round.
  destruct (strip_each_rank ["-thinking"; "-latest"] c false) as [->|(c1 & -> & ?)];
    [repeat constructor; vm_compute; lia| |].
  - destruct (strip_each_rank ["[1m]"; "-1m"] c false) as [->|(c2 & -> & ?)];
      [repeat constructor; vm_compute; lia| |]; simpl;
      (destruct (strip_bedrock_revision _) as [n|] eqn:E;
        [apply strip_bedrock_revision_rank in E; right; eexists; split; [done|lia]|]);
      [by left|right; eauto].
  - destruct (strip_each_rank ["[1m]"; "-1m"] c1 true) as [->|(c2 & -> & ?)];
      [repeat constructor; vm_compute; lia| |]; simpl;
      (destruct (strip_bedrock_revision _) as [n|] eqn:E;
        [apply strip_bedrock_revision_rank in E|]);
      right; eexists; (split; [done|lia]).
Qed.
Lemma strip_runtime_suffix_rank v n : strip_runtime_suffix v = Some n → (rank n < rank v)%nat.
Proof.
  unfold strip_runtime_suffix. set (p := Pos.of_succ_nat _).
  pose proof (run_inv strip_step
    (λ st, rank st.1 ≤ rank v ∧ (st.2 = true → rank st.1 < rank v))%nat
    (λ st, st.2 = true → rank st.1 < rank v)%nat) as Hinv.
  assert (∀ r, run p strip_step (v, false) = inr r → r.2 = true → (rank r.1 < rank v)%nat) as H.
  { apply Hinv; [| |done].
    - intros [c b] s' [H1 H2]. unfold strip_step. simpl in *.
      destruct (strip_round_rank c) as [->|(c' & -> & ?)]; [done|].
      intros [= <-]. simpl. split; [lia|intros _; lia].
    - intros [c b] r [H1 H2]. unfold strip_step. simpl in *.
      destruct (strip_round_rank c) as [->|(c' & -> & ?)]; [|done]. by intros [= <-]. }
  destruct (run p strip_step (v, false)) as [|[c []]]; try done.
  intros [= <-]. by apply (H _ eq_refl).
Qed.
(** The loop of [strip_runtime_suffix] always reaches its [break]. *)
Lemma strip_runtime_suffix_total v :
  ∃ r, run (Pos.of_succ_nat (rank v)) strip_step (v, false) = inr r.
Proof.
  apply (run_terminates strip_step (λ st, Z.of_nat (rank st.1)) (λ _, True)); [|lia|done|simpl; lia].
  intros [c b] s' _. unfold strip_step. simpl.
  destruct (strip_round_rank c) as [->|(c' & -> & ?)]; [done|]. intros [= <-]. simpl. lia.
Qed.

Lemma replace_char_rank from to s :
  String.length (replace_char from to s) = String.length s.
Proof. induction s; simpl; congruence. Qed.
Lemma replace_dots s : dots (replace_char "."%char "-"%char s) = 0%nat.
Proof. induction s as [|c s IH]; [done|]. simpl. rewrite IH. by repeat case_bool_decide; subst. Qed.
Lemma contains_dots s : contains_char "."%char s = true → (0 < dots s)%nat.
Proof.
  induction s as [|c s IH]; [done|]. simpl.
  intros [->%bool_decide_eq_true|Hc%IH]%orb_true_iff; [by rewrite bool_decide_true by done; lia|].
  case_bool_decide; lia.
Qed.
Lemma claude_dot_version_rank v n :
  claude_dot_version_to_hyphen v = Some n → (rank n < rank v)%nat.
Proof.
  unfold claude_dot_version_to_hyphen. intros (rest & Hr%strip_prefix_Some & H)%bind_Some.
  apply bind_Some in H as ([fam ver] & Hs%split_once_app & H). subst.
  repeat case_match; simplify_eq.
  match goal with E : negb _ || _ = false |- _ =>
    apply orb_false_elim in E as [Hc%negb_false_iff%contains_dots _] end.
  assert (rank (replace_char "."%char "-"%char ver) < rank ver)%nat.
  { unfold rank. rewrite replace_char_rank, replace_dots. lia. }
  rewrite !rank_app. lia.
Qed.

Lemma push_unique_elem out o n : n ∈ push_unique out o → n ∈ out ∨ o = Some n.
Proof. destruct o; simpl; [case_match|]; set_solver. Qed.
Lemma unwrap_identity_rank v n : n ∈ unwrap_identity v → (rank n < rank v)%nat.
Proof.
  unfold unwrap_identity. intros H.
  repeat (apply push_unique_elem in H as [H|H]);
    eauto using strip_path_leaf_rank, strip_provider_dot_prefix_rank,
      strip_runtime_suffix_rank, strip_date_stamp_rank, claude_dot_version_rank.
  inversion H.
Qed.
Lemma push_unique_length out o : (length (push_unique out o) ≤ S (length out))%nat.
Proof. destruct o; simpl; [case_match|]; rewrite ?length_app; simpl; lia. Qed.
Lemma unwrap_identity_length v : (length (unwrap_identity v) ≤ 5)%nat.
Proof.
  unfold unwrap_identity.
  do 5 (etrans; [apply push_unique_length|]; apply le_n_S). done.
Qed.

(** ** The search terminates *)
Definition qweight (q : list string) : Z := foldr (λ s acc, Zpos (weight s) + acc) 0 q.
Lemma qweight_app a b : qweight (a ++ b) = qweight a + qweight b.
Proof. induction a; simpl; lia. Qed.
Lemma qweight_nonneg q : 0 ≤ qweight q.
Proof. induction q; simpl; lia. Qed.
Lemma weight_pow s : Zpos (weight s) = 6 ^ Z.of_nat (S (rank s)).
Proof. unfold weight. rewrite Pos2Z.inj_pow. f_equal. Qed.
Lemma qweight_bound q k : (∀ n, n ∈ q → (rank n < k)%nat) →
  qweight q ≤ Z.of_nat (length q) * 6 ^ Z.of_nat k.
Proof.
  intros H. induction q as [|x q IH]; simpl; [lia|].
  assert (qweight q ≤ Z.of_nat (length q) * 6 ^ Z.of_nat k) by (apply IH; intros; apply H; by right).
  assert (Zpos (weight x) ≤ 6 ^ Z.of_nat k); [|lia].
  rewrite weight_pow. apply Z.pow_le_mono_r; [lia|].
  specialize (H x ltac:(left)). lia.
Qed.
Lemma filter_length_le {A} (P : A → Prop) `{∀ x, Decision (P x)} (l : list A) :
  (length (filter P l) ≤ length l)%nat.
Proof. apply length_filter. Qed.

Lemma candidates_step_measure (st st' : search) :
  candidates_step st = inl st' → qweight st'.1.1 < qweight st.1.1.
Proof.
  destruct st as [[q seen] ord]. unfold candidates_step.
  destruct q as [|c q]; [done|]. case_match.
  - intros [= <-]. simpl. lia.
  - intros [= <-]. simpl. rewrite qweight_app.
    set (next := filter _ (unwrap_identity c)).
    assert (qweight next ≤ Z.of_nat (length next) * 6 ^ Z.of_nat (rank c)) as Hb.
    { apply qweight_bound. intros n [_ Hn]%list_elem_of_filter. by apply unwrap_identity_rank. }
    assert (length next ≤ 5)%nat as Hl.
    { etrans; [apply filter_length_le|apply unwrap_identity_length]. }
    rewrite weight_pow, Nat2Z.inj_succ, Z.pow_succ_r by lia.
    assert (0 < 6 ^ Z.of_nat (rank c)) by (apply Z.pow_pos_nonneg; lia). nia.
Qed.
Definition search_start (model_text : string) : string := to_ascii_lowercase (trim model_text).
(** The queue empties within the fuel of [identity_candidates]. *)
Lemma identity_candidates_total t :
  ∃ ordered, run (Pos.succ (weight (search_start t))) candidates_step ([search_start t], ∅, [])
    = inr ordered.
Proof.
  apply (run_terminates candidates_step (λ st, qweight st.1.1) (λ _, True)); [..|done|].
  - intros s s' _ H. split; [done|]. by apply candidates_step_measure.
  - intros. apply qweight_nonneg.
  - simpl. lia.
Qed.

(** ** The search lists exactly the reachable names *)
(** [b] is one peeling step away from [a]. *)
Definition peels (a b : string) : Prop := b ∈ unwrap_identity a ∧ b ≠ "".

Record search_inv (start : string) (st : search) : Prop := {
  si_seen : ∀ x, x ∈ st.1.2 ↔ x ∈ st.2;
  si_nodup : NoDup st.2;
  si_reach : ∀ x, x ∈ st.1.1 ∨ x ∈ st.2 → x ≠ "" → rtc peels start x;
  si_start : start ≠ "" → start ∈ st.1.1 ∨ start ∈ st.2;
  si_nonempty : "" ∉ st.2;
  si_closed : ∀ x y, x ∈ st.2 → peels x y → y ∈ st.1.1 ∨ y ∈ st.2;
  si_head : start ≠ "" → head (st.2 ++ st.1.1) = Some start;
}.
Lemma candidates_step_inv start st st' :
  search_inv start st → candidates_step st = inl st' → search_inv start st'.
Proof.
  destruct st as [[q seen] ord]. intros [Hs Hn Hr H0 He Hc Hh]. unfold candidates_step. simpl in *.
  destruct q as [|c q]; [done|]. case_match eqn:E.
  - assert (∀ x, x = c → x ≠ "" → x ∈ ord) as Hskip.
    { intros x -> Hx. apply orb_true_iff in E as [E%is_empty_true|E%bool_decide_eq_true]; [done|].
      by apply Hs. }
    assert (∀ x, x ≠ "" → x ∈ c :: q ∨ x ∈ ord → x ∈ q ∨ x ∈ ord) as Hmove.
    { intros x Hx [[->|?]%elem_of_cons|?]; auto. }
    intros [= <-]. split; simpl; auto.
    + intros x [?|?]; apply Hr; [left; by right|by right].
    + intros x y Hx Hy. apply Hmove; [apply Hy|eauto].
    + intros Hse. specialize (Hh Hse). destruct ord as [|o ord]; [|done]. simpl in Hh.
      injection Hh as ->. specialize (Hskip start eq_refl Hse). inversion Hskip.
  - apply orb_false_elim in E as [Hce%is_empty_false Hcs%bool_decide_eq_false].
    intros [= <-]. split; simpl.
    + set_solver.
    + apply NoDup_app. split_and!; [done|set_solver|apply NoDup_singleton].
    + intros x Hx Hxe. assert (rtc peels start c) as Hrc by (apply Hr; [left; left|done]).
      destruct Hx as [[Hx|[_ Hx]%list_elem_of_filter]%elem_of_app|[Hx| ->%list_elem_of_singleton]%elem_of_app].
      * apply Hr; [left; by right|done].
      * eapply rtc_r; [exact Hrc|]. by split.
      * apply Hr; [by right|done].
      * done.
    + intros Hse. specialize (H0 Hse). set_solver.
    + set_solver.
    + intros x y [Hx| ->%list_elem_of_singleton]%elem_of_app Hy.
      * specialize (Hc _ _ Hx Hy). set_solver.
      * destruct Hy as [Hy Hye]. destruct (decide (y ∈ {[c]} ∪ seen)) as [Hin|Hin].
        -- right. set_solver.
        -- left. apply elem_of_app. right. apply list_elem_of_filter. done.
    + intros Hse. specialize (Hh Hse). by destruct ord.
Qed.

Lemma search_inv_init start : search_inv start ([start], ∅, []).
Proof.
  split; simpl; try set_solver; try apply NoDup_nil_2.
Qed.
Lemma identity_candidates_inv t :
  search_inv (search_start t) ([], list_to_set (identity_candidates t), identity_candidates t).
Proof.
  destruct (identity_candidates_total t) as [ordered Ho].
  unfold identity_candidates. fold (search_start t). rewrite Ho.
  assert (∀ r, run (Pos.succ (weight (search_start t))) candidates_step
      ([search_start t], ∅, []) = inr r → search_inv (search_start t) ([], list_to_set r, r)) as H.
  { apply (run_inv candidates_step (search_inv (search_start t))); [| |apply search_inv_init].
    - intros s s' Hs Hstep. by eapply candidates_step_inv.
    - intros [[[|c q] seen] ord] r Hs; simpl; [|case_match; done]. intros [= <-].
      destruct Hs as [Hs Hn Hr H0 He Hc Hh]. split; simpl in *; auto. intros x.
      by rewrite elem_of_list_to_set. }
  by apply H.
Qed.

Lemma peels_from_empty x : rtc peels "" x → x = "".
Proof.
  intros Hp. inversion Hp as [|? y ? [Hy ?]]; subst; [done|]. vm_compute in Hy. inversion Hy.
Qed.
Lemma elem_of_identity_candidates t x :
  x ∈ identity_candidates t ↔ search_start t ≠ "" ∧ rtc peels (search_start t) x.
Proof.
  destruct (identity_candidates_inv t) as [_ Hn Hr H0 He Hc Hh]. simpl in *.
  set (s := search_start t) in *. split.
  - intros Hx. assert (x ≠ "") as Hxe by (intros ->; done).
    assert (rtc peels s x) as Hp by (apply Hr; auto). split; [|done].
    intros E. rewrite E in Hp. by apply peels_from_empty in Hp.
  - intros [Hs Hp]. revert x Hp. apply (rtc_ind_r (λ x, x ∈ identity_candidates t)).
    + by destruct (H0 Hs) as [Hin|]; [inversion Hin|].
    + intros y z _ Hyz IH. by destruct (Hc _ _ IH Hyz) as [Hin|]; [inversion Hin|].
Qed.

(** ** Properties *)
(** The search for a model's priced identity ends, and the candidates it lists are
    exactly the names reachable from the trimmed lower-case name by peeling, each once,
    the name itself first. *)
Theorem identity_candidates_spec t :
  (∃ ordered, run (Pos.succ (weight (search_start t))) candidates_step
                ([search_start t], ∅, []) = inr ordered)
  ∧ NoDup (identity_candidates t)
  ∧ (∀ x, x ∈ identity_candidates t ↔ search_start t ≠ "" ∧ rtc peels (search_start t) x)
  ∧ head (identity_candidates t)
    = if is_empty (search_start t) then None else Some (search_start t).
Proof.
  split; [apply identity_candidates_total|].
  pose proof (elem_of_identity_candidates t) as Hel.
  destruct (identity_candidates_inv t) as [_ Hn _ _ _ _ Hh]. simpl in *.
  split_and!; [done|done|]. destruct (is_empty (search_start t)) eqn:E.
  - apply is_empty_true in E. destruct (identity_candidates t) as [|c l]; [done|].
    destruct (proj1 (Hel c) ltac:(left)) as [? _]. done.
  - apply is_empty_false in E. specialize (Hh E). by rewrite app_nil_r in Hh.
Qed.
