(* ===== verification/ValuePricing.v ===== *)
(** * USD-equivalent pricing ([src/domain/usage/value_pricing.rs])

    The price arithmetic of a Share's USD-equivalent quota: the canonical decimal wire
    form, the rate tables of a pricing snapshot, their validation, and the exact price of
    a request's tokens in picos (10{^-12} USD), computed with the code's checked [i128]
    operations. *)
From S2P Require Import Prelude RustStr Json ModelIdentity.
From Stdlib Require Import ZArith Lia Ascii.

Local Open Scope Z_scope.

(** ** Data *)
(** domain/usage/value_pricing.rs:8-8 [TARIFF_POLICY] *)
Definition TARIFF_POLICY : string := "api-equivalent-v1".
(** domain/usage/value_pricing.rs:9-9 [PICOS_PER_MICRO] *)
Definition PICOS_PER_MICRO : Z := 1000000.
(** domain/usage/value_pricing.rs:11-11 [MAX_LIMIT_MICROS] *)
Definition MAX_LIMIT_MICROS : Z := 1000000000000000.
(** domain/usage/value_pricing.rs:12-12 [MAX_SNAPSHOT_BYTES] *)
Definition MAX_SNAPSHOT_BYTES : Z := 4 * 1024 * 1024.
(** domain/usage/value_pricing.rs:13-13 [MAX_MODELS] *)
Definition MAX_MODELS : Z := 10000.

(** domain/usage/value_pricing.rs:443-452 [ValueError] *)
Inductive ValueError : Type :=
  | InvalidDecimal | OutOfRange | InvalidPolicy | InvalidSnapshot
  | PriceUnavailable | UsageUnavailable | Overflow.
#[global] Instance ValueError_eq_dec : EqDecision ValueError.
Proof. solve_decision. Defined.

(** domain/usage/value_pricing.rs:522-527 [ContextInputBasis] *)
Inductive ContextInputBasis : Type := FreshInput | RawInput.
#[global] Instance ContextInputBasis_eq_dec : EqDecision ContextInputBasis.
Proof. solve_decision. Defined.
(** domain/usage/value_pricing.rs:528-535 [CacheWritePolicy] *)
Inductive CacheWritePolicy : Type := Unavailable | FiveMinutesOnly | OneHourOnly | Both.
#[global] Instance CacheWritePolicy_eq_dec : EqDecision CacheWritePolicy.
Proof. solve_decision. Defined.

(** domain/usage/value_pricing.rs:634-643 [ValueTokens]: six [u64] counters. *)
Record ValueTokens := mk_tokens {
  fresh_input : Z; output : Z; cache_read : Z;
  cache_write5m : Z; cache_write1h : Z; cache_write_unknown : Z;
}.
(** domain/usage/value_pricing.rs:537-546 [ExecutionRates]: rates in picos per token. *)
Record ExecutionRates := mk_rates {
  r_input : option string; r_output : option string; r_cache_read : option string;
  r_cache_write5m : option string; r_cache_write1h : option string;
  cache_write_policy : CacheWritePolicy;
}.
#[global] Instance ExecutionRates_eq_dec : EqDecision ExecutionRates.
Proof. solve_decision. Defined.
(** domain/usage/value_pricing.rs:658-662 [PricedValue] *)
Record PricedValue := mk_priced { usage_picos : Z; conservative_cache_ttl : bool }.
(** domain/usage/value_pricing.rs:664-672 [ExecutionModelPrice] *)
Record ExecutionModelPrice := mk_model_price {
  context_input_basis : ContextInputBasis;
  long_context_threshold : option Z;
  long_context_inclusive : bool;
  rates : gmap string ExecutionRates;
}.
#[global] Instance ExecutionModelPrice_eq_dec : EqDecision ExecutionModelPrice.
Proof. solve_decision. Defined.
(** domain/usage/value_pricing.rs:739-749 [PricingSnapshot] *)
Record PricingSnapshot := mk_snapshot {
  schema_version : Z;
  tariff_policy_id : string;
  currency : string;
  models : gmap string ExecutionModelPrice;
  exact_aliases : gmap string string;
}.
(** domain/usage/value_pricing.rs:504-509 [ValueQuota] *)
Record ValueQuota := mk_quota { limit_usd_micros : string; quota_tariff_policy_id : string }.

(** ** Decimal amounts *)
(** domain/usage/value_pricing.rs:468-477 [unsigned_decimal] *)
Definition unsigned_decimal (raw : string) : result ValueError Z :=
  if is_empty raw || (39 <? str_len raw) || ((1 <? str_len raw) && starts_with "0" raw)
     || negb (all_digits raw)
  then Err InvalidDecimal
  else if dec_value raw <=? I128_MAX then Ok (dec_value raw) else Err OutOfRange.

(** [format!("{fraction:0<6}")]: pad on the right with zeros to width six. *)
Definition pad_zeros (fraction : string) : string :=
  fraction +:+ String.concat "" (replicate (6 - String.length fraction) "0").
(** domain/usage/value_pricing.rs:480-502 [usd_to_micros] *)
Definition usd_to_micros (raw : string) : result ValueError string :=
  let '(whole, fraction) := default (raw, "") (split_once "." raw) in
  if is_empty whole || (contains_char "."%char raw && is_empty fraction)
     || (6 <? str_len fraction) || negb (all_digits whole) || negb (all_digits fraction)
  then Err InvalidDecimal
  else
    w ← (if dec_value whole <=? I128_MAX then Ok (dec_value whole) else Err OutOfRange);
    let f := dec_value (pad_zeros fraction) in
    micros ← ok_or Overflow (checked_i128 (w * 1000000) ≫= λ v, checked_i128 (v + f));
    if (micros =? 0) || (MAX_LIMIT_MICROS <? micros) then Err OutOfRange
    else Ok (pretty micros).

(** domain/usage/value_pricing.rs:510-520 [ValueQuota::limit_picos] *)
Definition limit_picos (q : ValueQuota) : result ValueError Z :=
  micros ← unsigned_decimal (limit_usd_micros q);
  if negb (str_eqb (quota_tariff_policy_id q) TARIFF_POLICY) || (micros =? 0)
     || (MAX_LIMIT_MICROS <? micros)
  then Err InvalidPolicy
  else ok_or Overflow (checked_i128 (micros * PICOS_PER_MICRO)).

(** ** Rate tables *)
(** domain/usage/value_pricing.rs:548-558 [ExecutionRates::rate] *)
Definition rate (raw : option string) : result ValueError (option Z) :=
  match raw with
  | None => Ok None
  | Some raw =>
      v ← unsigned_decimal raw;
      if I64_MAX <? v then Err OutOfRange else Ok (Some v)
  end.
(** domain/usage/value_pricing.rs:559-596 [ExecutionRates::validate] *)
Definition rates_validate (r : ExecutionRates) : result ValueError () :=
  _ ← rate (r_input r); _ ← rate (r_output r); _ ← rate (r_cache_read r);
  _ ← rate (r_cache_write5m r); _ ← rate (r_cache_write1h r);
  _ ← fail_if (bool_decide (r_input r = None) || bool_decide (r_output r = None)) PriceUnavailable;
  let some5 := bool_decide (is_Some (r_cache_write5m r)) in
  let some1 := bool_decide (is_Some (r_cache_write1h r)) in
  fail_if
    match cache_write_policy r with
    | Unavailable => some5 || some1
    | FiveMinutesOnly => negb some5 || some1
    | OneHourOnly => negb some1 || some5
    | Both => negb some5 || negb some1
    end InvalidSnapshot.
(** domain/usage/value_pricing.rs:600-609 [add], the accumulating closure of [price]. *)
Definition add_cost (total count : Z) (rate : option Z) : result ValueError Z :=
  if count =? 0 then Ok total
  else
    r ← ok_or PriceUnavailable rate;
    v ← ok_or Overflow (checked_i128 (count * r));
    ok_or Overflow (checked_i128 (total + v)).
(** domain/usage/value_pricing.rs:615-624 [unknown_rate]: the rate of cache writes whose
    lifetime the upstream did not report. *)
Definition unknown_rate (r : ExecutionRates) : result ValueError (option Z) :=
  match cache_write_policy r with
  | Unavailable => Ok None
  | FiveMinutesOnly => rate (r_cache_write5m r)
  | OneHourOnly => rate (r_cache_write1h r)
  | Both =>
      o5 ← rate (r_cache_write5m r); v5 ← ok_or PriceUnavailable o5;
      o1 ← rate (r_cache_write1h r); v1 ← ok_or PriceUnavailable o1;
      Ok (Some (Z.max v5 v1))
  end.
(** domain/usage/value_pricing.rs:597-631 [ExecutionRates::price] *)
Definition rates_price (r : ExecutionRates) (t : ValueTokens) : result ValueError PricedValue :=
  _ ← rates_validate r;
  ri ← rate (r_input r); total ← add_cost 0 (fresh_input t) ri;
  ro ← rate (r_output r); total ← add_cost total (output t) ro;
  rc ← rate (r_cache_read r); total ← add_cost total (cache_read t) rc;
  r5 ← rate (r_cache_write5m r); total ← add_cost total (cache_write5m t) r5;
  r1 ← rate (r_cache_write1h r); total ← add_cost total (cache_write1h t) r1;
  ru ← unknown_rate r; total ← add_cost total (cache_write_unknown t) ru;
  Ok (mk_priced total
        ((0 <? cache_write_unknown t) && bool_decide (cache_write_policy r = Both))).

(** domain/usage/value_pricing.rs:645-656 [ValueTokens::raw_input] *)
Definition raw_input (t : ValueTokens) : result ValueError Z :=
  foldl (λ acc n, sum ← acc; ok_or Overflow (checked_u64 (sum + n))) (Ok (fresh_input t))
    [cache_read t; cache_write5m t; cache_write1h t; cache_write_unknown t].

(** ** Model prices *)
Definition TIERS : list string := ["standard"; "priority"; "flex"].
Definition rate_key (tier : string) (long : bool) : string :=
  tier +:+ "/" +:+ (if long then "long" else "base").
(** domain/usage/value_pricing.rs:732-736 [ExecutionModelPrice::supports_tier] *)
Definition supports_tier (m : ExecutionModelPrice) (tier : string) : bool :=
  bool_decide (is_Some (rates m !! rate_key tier false))
  && (bool_decide (long_context_threshold m = None)
      || bool_decide (is_Some (rates m !! rate_key tier true))).
Definition valid_rate_key (key : string) : bool :=
  one_of ["standard/base"; "standard/long"; "priority/base"; "priority/long";
          "flex/base"; "flex/long"] key.
(** domain/usage/value_pricing.rs:674-706 [ExecutionModelPrice::validate] *)
Definition model_validate (m : ExecutionModelPrice) : result ValueError () :=
  _ ← fail_if (bool_decide (long_context_threshold m = Some 0)
               || bool_decide (rates m = ∅) || (6 <? Z.of_nat (size (rates m)))) InvalidSnapshot;
  _ ← for_each (λ '(key, r),
        _ ← fail_if (negb (valid_rate_key key)) InvalidSnapshot;
        _ ← fail_if (ends_with "/long" key && bool_decide (long_context_threshold m = None))
              InvalidSnapshot;
        rates_validate r) (btree_entries (rates m));
  for_each (λ tier,
    fail_if (existsb (λ key, starts_with (tier +:+ "/") key) (btree_entries (rates m)).*1
             && negb (supports_tier m tier)) InvalidSnapshot) TIERS.
(** domain/usage/value_pricing.rs:719-725 [long]: does the request price as long context? *)
Definition is_long (m : ExecutionModelPrice) (context_input : Z) : bool :=
  match long_context_threshold m with
  | None => false
  | Some n => if long_context_inclusive m then n <=? context_input else n <? context_input
  end.
(** domain/usage/value_pricing.rs:707-731 [ExecutionModelPrice::price] *)
Definition model_price (m : ExecutionModelPrice) (effective_tier : string) (t : ValueTokens)
  : result ValueError PricedValue :=
  _ ← fail_if (negb (one_of TIERS effective_tier)) PriceUnavailable;
  context_input ← match context_input_basis m with
                  | FreshInput => Ok (fresh_input t)
                  | RawInput => raw_input t
                  end;
  r ← ok_or PriceUnavailable (rates m !! rate_key effective_tier (is_long m context_input));
  rates_price r t.

(** ** Snapshots *)
(** domain/usage/value_pricing.rs:750-752 [valid_model_key] *)
Definition valid_model_key (key : string) : bool :=
  negb (is_empty key) && (str_len key <=? 250) && str_eqb (trim key) key && negb (any_control key).

Section snapshot.
(** [serde_json::to_vec] and the hex SHA-256 digest, from crates. *)
Variable to_vec : PricingSnapshot → option string.
Variable sha256_hex : string → string.

(** domain/usage/value_pricing.rs:754-786 [PricingSnapshot::validate] *)
Definition snapshot_validate (s : PricingSnapshot) : result ValueError () :=
  _ ← fail_if (negb (schema_version s =? 1) || negb (str_eqb (tariff_policy_id s) TARIFF_POLICY)
               || negb (str_eqb (currency s) "USD") || bool_decide (models s = ∅)
               || (MAX_MODELS <? Z.of_nat (size (models s)))
               || (MAX_MODELS * 4 <? Z.of_nat (size (exact_aliases s)))) InvalidSnapshot;
  _ ← for_each (λ '(key, price),
        _ ← fail_if (negb (valid_model_key key)) InvalidSnapshot;
        model_validate price) (btree_entries (models s));
  _ ← for_each (λ '(alias, key),
        fail_if (negb (valid_model_key alias) || bool_decide (models s !! key = None)
                 || bool_decide (is_Some (models s !! alias))) InvalidSnapshot)
        (btree_entries (exact_aliases s));
  bytes ← ok_or InvalidSnapshot (to_vec s);
  fail_if (MAX_SNAPSHOT_BYTES <? str_len bytes) InvalidSnapshot.
(** domain/usage/value_pricing.rs:787-791 [PricingSnapshot::revision] *)
Definition revision (s : PricingSnapshot) : result ValueError string :=
  _ ← snapshot_validate s;
  bytes ← ok_or InvalidSnapshot (to_vec s);
  Ok ("sha256:" +:+ sha256_hex bytes).
End snapshot.

(** domain/usage/value_pricing.rs:801-807 [model], the lookup of one candidate name *)
Definition resolve_candidate (s : PricingSnapshot) (candidate : string)
  : option ExecutionModelPrice :=
  models s !! default candidate (exact_aliases s !! candidate).
(** domain/usage/value_pricing.rs:797-809 [PricingSnapshot::model] *)
Definition snapshot_model (s : PricingSnapshot) (effective_model : string)
  : result ValueError ExecutionModelPrice :=
  ok_or PriceUnavailable
    (find_map (resolve_candidate s) (effective_model :: identity_candidates effective_model)).
(** domain/usage/value_pricing.rs:1004-1029 [unique_map]: the map reader of snapshots. *)
Fixpoint unique_map {V} (entries : list (string * V)) (values : gmap string V)
  : result string (gmap string V) :=
  match entries with
  | [] => Ok values
  | (key, v) :: rest =>
      if bool_decide (is_Some (values !! key)) then Err "duplicate pricing key"
      else unique_map rest (<[key := v]> values)
  end.

(** ** Service tiers *)
(** domain/usage/value_pricing.rs:344-361 [canonical_service_tier] *)
Definition canonical_service_tier (raw : option string) : option string :=
  match trim <$> raw with
  | None => Some "standard"
  | Some raw =>
      if is_empty raw || existsb (eq_ignore_ascii_case raw) ["auto"; "default"; "standard"]
      then Some "standard"
      else if eq_ignore_ascii_case raw "priority" then Some "priority"
      else if eq_ignore_ascii_case raw "flex" then Some "flex"
      else None
  end.

(** ** Admission estimates *)
(** domain/usage/value_pricing.rs:282-282 [DEFAULT_OUTPUT_CEILING] *)
Definition DEFAULT_OUTPUT_CEILING : Z := 32000.
(** domain/usage/value_pricing.rs:283-283 [MAX_OUTPUT_CEILING] *)
Definition MAX_OUTPUT_CEILING : Z := 128000.
(** domain/usage/value_pricing.rs:287-292 [RiskEstimate] *)
Record RiskEstimate := mk_estimate { input_tokens : Z; output_tokens : Z }.
(** domain/usage/value_pricing.rs:294-312 [RiskEstimate::from_request] *)
Definition from_request (body_len : Z) (body : option value) : RiskEstimate :=
  let requested :=
    body ≫= λ body,
      or_else
        (find_map (λ key, get key body ≫= as_u64)
           ["max_tokens"; "max_completion_tokens"; "max_output_tokens"])
        (or_else (get "generationConfig" body ≫= get "maxOutputTokens")
                 (get "generation_config" body ≫= get "max_output_tokens") ≫= as_u64) in
  mk_estimate ((body_len + 2) / 3)
    (from_option (saturate 1 MAX_OUTPUT_CEILING) DEFAULT_OUTPUT_CEILING requested).
(** domain/usage/value_pricing.rs:313-319 [RiskEstimate::tokens] *)
Definition estimate_tokens (e : RiskEstimate) : ValueTokens :=
  mk_tokens (input_tokens e) (output_tokens e) 0 0 0 0.

(** ** Decimal amounts: lemmas *)
Lemma unsigned_decimal_range s n : unsigned_decimal s = Ok n → 0 ≤ n ≤ I128_MAX.
Proof.
  unfold unsigned_decimal. case_match eqn:E; [done|].
  apply orb_false_elim in E as [_ Hd%negb_false_iff].
  pose proof (dec_value_nonneg s Hd). case_match eqn:E2; [|done]. intros [= <-]. lia.
Qed.
Lemma unsigned_decimal_pretty z : 0 ≤ z ≤ I128_MAX → unsigned_decimal (pretty z) = Ok z.
Proof.
  intros Hz. destruct (dec_value_pretty z ltac:(lia)) as (Hne & Hd & Hnz & Hv).
  pose proof (pretty_len z Hz) as Hl. unfold unsigned_decimal.
  apply is_empty_false in Hne. unfold no_leading_zero in Hnz. apply negb_true_iff in Hnz.
  rewrite Hne, Hd, Hnz, Hv. rewrite (proj2 (Z.ltb_ge _ _)) by lia. simpl.
  by rewrite (proj2 (Z.leb_le _ _)) by lia.
Qed.
Lemma unsigned_decimal_inv s n : unsigned_decimal s = Ok n → s = pretty n.
Proof.
  intros H. unfold unsigned_decimal in H.
  destruct (is_empty s || _ || _ || _) eqn:E; [done|].
  repeat apply orb_false_elim in E as [E ?]. case_match; [|done]. injection H as <-.
  symmetry. apply pretty_dec_value.
  - by apply is_empty_false.
  - by apply negb_false_iff.
  - unfold no_leading_zero. by apply negb_true_iff.
Qed.

Lemma concat_zeros k :
  all_digits (String.concat "" (replicate k "0")) = true
  ∧ str_len (String.concat "" (replicate k "0")) = Z.of_nat k
  ∧ ∀ acc, dec_value_go acc (String.concat "" (replicate k "0")) = acc * 10 ^ Z.of_nat k.
Proof.
  assert (∀ k, String.concat "" (replicate (S k) "0")
               = String "0" (String.concat "" (replicate k "0"))) as Hs by (by intros []).
  induction k as [|k (IH1 & IH2 & IH3)].
  - split_and!; [done..|]. intros. simpl. lia.
  - rewrite Hs. split_and!.
    + done.
    + unfold str_len in *. simpl. lia.
    + intros acc. simpl dec_value_go. rewrite IH3. change (digit "0") with 0.
      rewrite Nat2Z.inj_succ, Z.pow_succ_r by lia. lia.
Qed.
Lemma pad_zeros_value f : str_len f ≤ 6 →
  dec_value (pad_zeros f) = dec_value f * 10 ^ (6 - str_len f).
Proof.
  intros Hl. unfold pad_zeros, dec_value. rewrite dec_value_go_app.
  destruct (concat_zeros (6 - String.length f)) as (_ & _ & ->).
  unfold str_len in *. do 2 f_equal. lia.
Qed.
Lemma dec_value_app a b : all_digits b = true →
  dec_value (a +:+ b) = dec_value a * 10 ^ str_len b + dec_value b.
Proof.
  induction b as [|b c IH] using string_rev_ind.
  - rewrite app_nil_r_string. unfold str_len. simpl. change (dec_value "") with 0. lia.
  - unfold all_digits, str_len. rewrite all_bytes_app, <-app_assoc_string, !dec_value_snoc, length_app_string.
    intros [Hb _]%andb_prop. rewrite IH by done. unfold str_len. simpl.
    rewrite Nat2Z.inj_add, Z.pow_add_r by lia. simpl. lia.
Qed.

(** ** Rate tables: lemmas *)
(** The rate a column contributes, once the table is valid. *)
Definition rate_value (o : option string) : option Z :=
  match rate o with Ok v => v | Err _ => None end.
Definition unknown_value (r : ExecutionRates) : option Z :=
  match cache_write_policy r with
  | Unavailable => None
  | FiveMinutesOnly => rate_value (r_cache_write5m r)
  | OneHourOnly => rate_value (r_cache_write1h r)
  | Both => v5 ← rate_value (r_cache_write5m r); v1 ← rate_value (r_cache_write1h r);
            Some (Z.max v5 v1)
  end.
(** The bill: each counter with the rate of its column. *)
Definition bill (r : ExecutionRates) (t : ValueTokens) : list (Z * option Z) :=
  [(fresh_input t, rate_value (r_input r)); (output t, rate_value (r_output r));
   (cache_read t, rate_value (r_cache_read r));
   (cache_write5m t, rate_value (r_cache_write5m r));
   (cache_write1h t, rate_value (r_cache_write1h r));
   (cache_write_unknown t, unknown_value r)].
(** The exact total of a bill; [None] when tokens were counted in a column without rate. *)
Fixpoint bill_total (l : list (Z * option Z)) : option Z :=
  match l with
  | [] => Some 0
  | (n, r) :: l =>
      rest ← bill_total l;
      if n =? 0 then Some rest else v ← r; Some (n * v + rest)
  end.

Definition tokens_u64 (t : ValueTokens) : Prop :=
  is_u64 (fresh_input t) ∧ is_u64 (output t) ∧ is_u64 (cache_read t) ∧ is_u64 (cache_write5m t)
  ∧ is_u64 (cache_write1h t) ∧ is_u64 (cache_write_unknown t).

Lemma rate_value_range o v : rate_value o = Some v → 0 ≤ v ≤ I64_MAX.
Proof.
  unfold rate_value, rate. destruct o as [raw|]; simpl; [|done].
  destruct (unsigned_decimal raw) as [n|] eqn:E; simpl; [|done].
  apply unsigned_decimal_range in E. destruct (Z.ltb_spec I64_MAX n); [done|].
  intros [= <-]. lia.
Qed.
Lemma unknown_value_range r v : unknown_value r = Some v → 0 ≤ v ≤ I64_MAX.
Proof.
  unfold unknown_value. case_match; [done|apply rate_value_range..|].
  intros (v5 & ?%rate_value_range & (v1 & ?%rate_value_range & [= <-])%bind_Some)%bind_Some. lia.
Qed.

Lemma rate_Ok o v : rate o = Ok v → rate_value o = v ∧ (is_Some o → is_Some v).
Proof.
  intros Ho. unfold rate_value. rewrite Ho. split; [done|]. intros [raw ->].
  unfold rate in Ho. simplify_result. case_match; simplify_result. by eexists.
Qed.
Lemma unknown_rate_Ok r v5 v1 :
  rate (r_cache_write5m r) = Ok v5 → rate (r_cache_write1h r) = Ok v1 →
  (cache_write_policy r = Both → is_Some v5 ∧ is_Some v1) →
  unknown_rate r = Ok (unknown_value r).
Proof.
  intros H5 H1 Hb. unfold unknown_rate, unknown_value, rate_value. rewrite H5, H1.
  destruct (cache_write_policy r); try done. by destruct (Hb eq_refl) as [[? ->] [? ->]].
Qed.
(** Valid tables read every column, and the policy's columns are present. *)
Lemma rates_validate_Ok r : rates_validate r = Ok () →
  (rate (r_input r) = Ok (rate_value (r_input r)) ∧ rate (r_output r) = Ok (rate_value (r_output r))
   ∧ rate (r_cache_read r) = Ok (rate_value (r_cache_read r))
   ∧ rate (r_cache_write5m r) = Ok (rate_value (r_cache_write5m r))
   ∧ rate (r_cache_write1h r) = Ok (rate_value (r_cache_write1h r)))
  ∧ (is_Some (rate_value (r_input r)) ∧ is_Some (rate_value (r_output r)))
  ∧ unknown_rate r = Ok (unknown_value r)
  ∧ (cache_write_policy r = Both →
       is_Some (rate_value (r_cache_write5m r)) ∧ is_Some (rate_value (r_cache_write1h r))).
Proof.
  unfold rates_validate. intros H.
  apply bind_Ok in H as (vi & Hi & H). apply bind_Ok in H as (vo & Ho & H).
  apply bind_Ok in H as (vc & Hc & H). apply bind_Ok in H as (v5 & H5 & H).
  apply bind_Ok in H as (v1 & H1 & H). apply bind_Ok in H as ([] & Hio & Hp).
  apply fail_if_Ok, orb_false_elim in Hio as [Hi0%bool_decide_eq_false Ho0%bool_decide_eq_false].
  apply fail_if_Ok in Hp.
  destruct (rate_Ok _ _ Hi) as [Ei Si], (rate_Ok _ _ Ho) as [Eo So], (rate_Ok _ _ Hc) as [Ec _],
    (rate_Ok _ _ H5) as [E5 S5], (rate_Ok _ _ H1) as [E1 S1].
  assert (cache_write_policy r = Both → is_Some v5 ∧ is_Some v1) as Hboth.
  { intros Hb. rewrite Hb in Hp.
    apply orb_false_elim in Hp as [?%negb_false_iff%bool_decide_eq_true
      ?%negb_false_iff%bool_decide_eq_true]. auto. }
  rewrite Ei, Eo, Ec, E5, E1. split_and!; try done.
  - apply Si. by apply not_eq_None_Some.
  - apply So. by apply not_eq_None_Some.
  - by eapply unknown_rate_Ok.
Qed.

(** Accumulating a bill: checked arithmetic returns the exact total or overflows. *)
Fixpoint add_costs (total : Z) (l : list (Z * option Z)) : result ValueError Z :=
  match l with [] => Ok total | (n, r) :: l => total ← add_cost total n r; add_costs total l end.
Definition billable (l : list (Z * option Z)) : Prop :=
  Forall (λ nr, is_u64 nr.1 ∧ ∀ v, nr.2 = Some v → 0 ≤ v ≤ I64_MAX) l.

Lemma rates_price_costs r t : rates_validate r = Ok () →
  rates_price r t =
    total ← add_costs 0 (bill r t);
    Ok (mk_priced total
      ((0 <? cache_write_unknown t) && bool_decide (cache_write_policy r = Both))).
Proof.
  intros Hv. destruct (rates_validate_Ok r Hv) as ((Hi & Ho & Hc & H5 & H1) & _ & Hu & _).
  unfold rates_price. rewrite Hv, Hi, Ho, Hc, H5, H1, Hu. unfold bill. simpl.
  repeat (destruct (add_cost _ _ _); simpl; [|done]). done.
Qed.
Lemma bill_billable r t : tokens_u64 t → billable (bill r t).
Proof.
  intros (?&?&?&?&?&?). unfold billable, bill.
  repeat (apply Forall_cons_2;
    [split; [done|intros v; first [apply rate_value_range|apply unknown_value_range]]|]).
  apply Forall_nil_2.
Qed.
Lemma bill_total_nonneg l s : billable l → bill_total l = Some s → 0 ≤ s.
Proof.
  intros Hl. revert s. induction Hl as [|[n r] l [Hn Hr] Hl IH]; intros s; simpl.
  - intros [= <-]. lia.
  - destruct (bill_total l) as [rest|]; simpl; [|done]. specialize (IH _ eq_refl).
    simpl in *. case_match; [by intros [= <-]|].
    destruct r as [v|]; simpl; [|done]. intros [= <-]. specialize (Hr _ eq_refl). width_lia.
Qed.
Lemma add_costs_Ok l total v : billable l → 0 ≤ total ≤ I128_MAX →
  add_costs total l = Ok v ↔ ∃ s, bill_total l = Some s ∧ v = total + s ∧ v ≤ I128_MAX.
Proof.
  intros Hl. revert total. induction Hl as [|[n r] l [Hn Hr] Hl IH]; intros total Ht; simpl.
  { split; [intros [= <-]; exists 0; split_and!; lia || done|].
    intros (s & [= <-] & -> & ?). f_equal. lia. }
  rewrite bind_Ok. unfold add_cost. simpl in *. destruct (Z.eqb_spec n 0) as [->|Hn0].
  - split.
    + intros (a & [= <-] & H). apply IH in H as (s & -> & ?); [|done]. by exists s.
    + intros (s & Hs & ?). exists total. split; [done|]. apply IH; [done|].
      destruct (bill_total l); simpl in *; [|done]. injection Hs as <-. eauto.
  - split.
    + intros (a & Ha & H). simplify_result.
      repeat match goal with E : checked_i128 _ = Some _ |- _ => apply checked_Some in E as [-> ?] end.
      specialize (Hr _ eq_refl).
      apply IH in H as (s & Hs & -> & ?); [|width_lia]. rewrite Hs. simpl.
      eexists. split_and!; [done|lia|lia].
    + intros (s & Hs & -> & Hmax).
      destruct (bill_total l) as [rest|] eqn:El; simpl in *; [|done].
      destruct r as [x|]; simpl in *; [|done]. injection Hs as <-.
      specialize (Hr _ eq_refl). pose proof (bill_total_nonneg l rest Hl El).
      exists (total + n * x). assert (0 ≤ n * x) by width_lia.
      rewrite checked_i128_in by width_lia. simpl.
      rewrite checked_i128_in by width_lia. simpl.
      split; [done|]. apply IH; [width_lia|]. exists rest. split_and!; [done|lia|lia].
Qed.
Lemma rates_price_Ok r t p : rates_validate r = Ok () → tokens_u64 t →
  rates_price r t = Ok p ↔
    ∃ total, bill_total (bill r t) = Some total ∧ total ≤ I128_MAX
      ∧ p = mk_priced total ((0 <? cache_write_unknown t)
                             && bool_decide (cache_write_policy r = Both)).
Proof.
  intros Hv Ht. rewrite rates_price_costs by done. rewrite bind_Ok.
  setoid_rewrite add_costs_Ok; [|by apply bill_billable|width_lia]. split.
  - intros (v & (s & Hs & -> & ?) & [= <-]). exists s. split_and!; [done|lia|done].
  - intros (s & Hs & ? & ->). exists (0 + s). split; [|done]. exists s. split_and!; [done|lia|lia].
Qed.
Lemma bill_total_cons_Some n v l :
  bill_total ((n, Some v) :: l) = (λ rest, n * v + rest) <$> bill_total l.
Proof.
  simpl. destruct (bill_total l); simpl; [|done]. destruct (Z.eqb_spec n 0) as [->|]; [|done].
  f_equal.
Qed.
Lemma bill_total_mono l l' s' : billable l → billable l' →
  Forall2 (λ a b, a.1 ≤ b.1 ∧ a.2 = b.2) l l' →
  bill_total l' = Some s' → ∃ s, bill_total l = Some s ∧ s ≤ s'.
Proof.
  intros Hl Hl' H. revert s'. induction H as [|[n r] [n' r'] l l' [Hn Hr] H IH]; intros s'.
  { intros [= <-]. by exists 0. }
  apply Forall_cons in Hl as [[Hn1 _] Hl], Hl' as [[Hn2 Hv] Hl']. simpl in *. subst r'.
  destruct (bill_total l') as [s0|]; simpl; [|done].
  destruct (IH Hl Hl' s0 eq_refl) as (s & -> & ?). simpl.
  destruct (Z.eqb_spec n' 0) as [->|].
  - intros [= <-]. rewrite (proj2 (Z.eqb_eq n 0)) by width_lia. eauto.
  - destruct r as [v|]; simpl; [|done]. intros [= <-]. specialize (Hv _ eq_refl).
    case_match; eexists; (split; [done|nia]).
Qed.
Lemma bill_total_app l l' : bill_total (l ++ l') =
  a ← bill_total l; b ← bill_total l'; Some (a + b).
Proof.
  induction l as [|[n r] l IH]; simpl; [by destruct (bill_total l')|].
  rewrite IH. destruct (bill_total l) as [a|], (bill_total l') as [b|]; simpl; try done.
  - case_match; [done|]. destruct r; simpl; [|done]. f_equal. lia.
  - by destruct (n =? 0), r.
Qed.

(** ** Properties *)
(** A wire amount parses exactly when it is the canonical decimal of an integer in
    [0, i128::MAX]; every amount has one spelling, so parsing and printing round-trip. *)
Theorem unsigned_decimal_canonical s n :
  unsigned_decimal s = Ok n ↔ 0 ≤ n ≤ I128_MAX ∧ s = pretty n.
Proof.
  split.
  - intros H. split; [by eapply unsigned_decimal_range|by apply unsigned_decimal_inv].
  - intros [? ->]. by apply unsigned_decimal_pretty.
Qed.

Lemma usd_to_micros_parts raw s : usd_to_micros raw = Ok s →
  ∃ whole frac, (raw = whole +:+ "." +:+ frac ∨ (raw = whole ∧ frac = ""))
    ∧ all_digits whole = true ∧ all_digits frac = true ∧ str_len frac ≤ 6
    ∧ s = pretty (dec_value whole * 1000000 + dec_value (pad_zeros frac))
    ∧ 0 < dec_value whole * 1000000 + dec_value (pad_zeros frac) ≤ MAX_LIMIT_MICROS.
Proof.
  unfold usd_to_micros. intros H.
  destruct (default (raw, "") (split_once "." raw)) as [whole frac] eqn:Hs.
  destruct (is_empty whole || _ || _ || _ || _) eqn:E; [done|].
  repeat apply orb_false_elim in E as [E ?].
  repeat match goal with E : negb _ = false |- _ => apply negb_false_iff in E end.
  exists whole, frac. split.
  { destruct (split_once "." raw) as [[]|] eqn:E1; simpl in Hs; simplify_eq; [|by right].
    left. by apply split_once_app. }
  apply bind_Ok in H as (w & Hw & H). apply bind_Ok in H as (m & Hm & H).
  apply ok_or_Ok, bind_Some in Hm as (v & [-> _]%checked_Some & [-> _]%checked_Some).
  destruct (dec_value whole <=? I128_MAX); [injection Hw as <-|done].
  destruct (_ || _) eqn:E2 in H; [done|]. apply orb_false_elim in E2 as [?%Z.eqb_neq ?%Z.ltb_ge].
  injection H as <-. split_and!; try done; [lia|].
  pose proof (dec_value_nonneg whole ltac:(done)).
  assert (0 ≤ dec_value (pad_zeros frac)); [|lia].
  rewrite pad_zeros_value by lia. pose proof (dec_value_nonneg frac ltac:(done)).
  assert (0 ≤ 10 ^ (6 - str_len frac)) by (apply Z.pow_nonneg; lia). nia.
Qed.
(** A USD amount typed by a user becomes exactly its value in micro-USD (digits after
    the point scaled, nothing rounded), printed canonically and in (0, MAX_LIMIT]; the quota
    built from it has the limit in picos, without overflow. *)
Theorem usd_to_micros_exact raw s (H : usd_to_micros raw = Ok s) :
  ∃ whole frac micros,
    (raw = whole +:+ "." +:+ frac ∨ (raw = whole ∧ frac = ""))
    ∧ s = pretty micros ∧ 0 < micros ≤ MAX_LIMIT_MICROS
    ∧ micros * 10 ^ str_len frac = 1000000 * dec_value (whole +:+ frac)
    ∧ limit_picos (mk_quota s TARIFF_POLICY) = Ok (micros * PICOS_PER_MICRO).
Proof.
  apply usd_to_micros_parts in H as (whole & frac & Hraw & Hw & Hf & Hl & -> & Hm).
  set (micros := dec_value whole * _ + _) in *.
  exists whole, frac, micros. split_and!; try done; [lia|lia|..].
  - subst micros. rewrite pad_zeros_value, dec_value_app by done.
    assert (10 ^ 6 = 10 ^ (6 - str_len frac) * 10 ^ str_len frac) as Hp.
    { rewrite <-Z.pow_add_r by (unfold str_len in *; lia). f_equal. lia. }
    change (10 ^ 6) with 1000000 in Hp. rewrite Hp. ring.
  - unfold MAX_LIMIT_MICROS in Hm. unfold limit_picos. simpl.
    rewrite unsigned_decimal_pretty by width_lia. simpl.
    rewrite (proj2 (Z.eqb_neq micros 0)), (proj2 (Z.ltb_ge _ _)) by (unfold MAX_LIMIT_MICROS; lia).
    simpl. rewrite checked_i128_in by (unfold PICOS_PER_MICRO; width_lia). done.
Qed.
Lemma usd_to_micros_exact_witness :
  ∃ whole frac micros,
    ("12.5" = whole +:+ "." +:+ frac ∨ ("12.5" = whole ∧ frac = ""))
    ∧ "12500000" = pretty micros ∧ 0 < micros ≤ MAX_LIMIT_MICROS
    ∧ micros * 10 ^ str_len frac = 1000000 * dec_value (whole +:+ frac)
    ∧ limit_picos (mk_quota "12500000" TARIFF_POLICY) = Ok (micros * PICOS_PER_MICRO).
Proof. apply (usd_to_micros_exact "12.5"). vm_compute. reflexivity. Defined.

(** A table with both cache-write columns, used by the witnesses. *)
Definition sample_rates : ExecutionRates :=
  mk_rates (Some "3000000") (Some "15000000") (Some "300000") (Some "3750000") (Some "6000000") Both.
Lemma tokens_u64_intro t :
  forallb (λ z, (0 <=? z) && (z <=? U64_MAX))
    [fresh_input t; output t; cache_read t; cache_write5m t; cache_write1h t; cache_write_unknown t]
  = true → tokens_u64 t.
Proof.
  simpl. rewrite !andb_true_iff, !Z.leb_le. unfold tokens_u64, is_u64. tauto.
Qed.

(** On a valid rate table the price of a request is exactly the sum over the token
    classes of count times rate, with an unreported cache lifetime at the policy's rate; it
    is returned precisely when every counted class has a rate and the sum fits [i128]
    (otherwise [PriceUnavailable] or [Overflow], never a wrapped amount). *)
Theorem rates_price_exact r t (Hv : rates_validate r = Ok ()) (Ht : tokens_u64 t) :
  (∀ p, rates_price r t = Ok p ↔
     ∃ total, bill_total (bill r t) = Some total ∧ total ≤ I128_MAX
       ∧ p = mk_priced total ((0 <? cache_write_unknown t)
                              && bool_decide (cache_write_policy r = Both)))
  ∧ (bill_total (bill r t) = None → ∃ e, rates_price r t = Err e
                                        ∧ (e = PriceUnavailable ∨ e = Overflow)).
Proof.
  split; [intros p; by apply rates_price_Ok|].
  intros Hn. rewrite rates_price_costs by done.
  destruct (add_costs 0 (bill r t)) as [v|e] eqn:E.
  - apply add_costs_Ok in E as (s & Hs & _); [congruence|by apply bill_billable|width_lia].
  - exists e. split; [done|]. clear Hn. revert E. generalize 0. generalize (bill r t).
    intros l. induction l as [|[n o] l IH]; intros total; simpl; [done|].
    rewrite bind_Err. intros [H|(a & _ & H)]; [|by eapply IH].
    unfold add_cost in H. case_match; [done|].
    apply bind_Err in H as [H|(x & _ & H)]; [apply ok_or_Err in H as [_ <-]; auto|].
    apply bind_Err in H as [H|(y & _ & H)]; apply ok_or_Err in H as [_ <-]; auto.
Qed.
Lemma rates_price_exact_witness :
  rates_price sample_rates (mk_tokens 1000 200 0 0 0 10) = Ok (mk_priced 6060000000 true)
  ↔ ∃ total, bill_total (bill sample_rates (mk_tokens 1000 200 0 0 0 10)) = Some total
      ∧ total ≤ I128_MAX ∧ mk_priced 6060000000 true = mk_priced total true.
Proof.
  apply (rates_price_exact sample_rates (mk_tokens 1000 200 0 0 0 10)).
  - vm_compute. reflexivity.
  - apply tokens_u64_intro. vm_compute. reflexivity.
Defined.

(** Pricing is monotone: more tokens in any class never lower the price, and a
    request that is priced stays priced (and does not overflow) with fewer tokens. *)
Theorem rates_price_monotone r t t' p' (Hv : rates_validate r = Ok ())
    (Ht : tokens_u64 t) (Ht' : tokens_u64 t')
    (Hle : fresh_input t ≤ fresh_input t' ∧ output t ≤ output t' ∧ cache_read t ≤ cache_read t'
           ∧ cache_write5m t ≤ cache_write5m t' ∧ cache_write1h t ≤ cache_write1h t'
           ∧ cache_write_unknown t ≤ cache_write_unknown t')
    (Hp : rates_price r t' = Ok p') :
  ∃ p, rates_price r t = Ok p ∧ usage_picos p ≤ usage_picos p'.
Proof.
  apply rates_price_Ok in Hp as (s' & Hs' & Hmax & ->); [|done..].
  destruct (bill_total_mono (bill r t) (bill r t') s') as (s & Hs & ?);
    [by apply bill_billable..| |done|].
  { destruct Hle as (?&?&?&?&?&?). unfold bill. repeat (apply Forall2_cons; split); done. }
  eexists. split; [apply rates_price_Ok; [done..|]|].
  - exists s. split_and!; [done|lia|reflexivity].
  - simpl. done.
Qed.
Lemma rates_price_monotone_witness :
  ∃ p, rates_price sample_rates (mk_tokens 1000 200 0 0 0 0) = Ok p ∧ usage_picos p ≤ 6060000000.
Proof.
  apply (rates_price_monotone sample_rates (mk_tokens 1000 200 0 0 0 0)
           (mk_tokens 1000 200 0 0 0 10) (mk_priced 6060000000 true)).
  - vm_compute. reflexivity.
  - apply tokens_u64_intro. vm_compute. reflexivity.
  - apply tokens_u64_intro. vm_compute. reflexivity.
  - simpl. lia.
  - vm_compute. reflexivity.
Defined.

(** An unreported cache lifetime is charged conservatively: with both cache-write
    rates known, any attribution of the unknown writes to the two lifetimes prices at most
    what was charged, and is itself priceable. *)
Theorem unknown_ttl_conservative r t n5 n1 p (Hv : rates_validate r = Ok ())
    (Hpol : cache_write_policy r = Both) (Ht : tokens_u64 t)
    (Hn : 0 ≤ n5 ∧ 0 ≤ n1 ∧ cache_write_unknown t = n5 + n1)
    (H5 : cache_write5m t + n5 ≤ U64_MAX) (H1 : cache_write1h t + n1 ≤ U64_MAX)
    (Hp : rates_price r t = Ok p) :
  ∃ p', rates_price r (mk_tokens (fresh_input t) (output t) (cache_read t)
                         (cache_write5m t + n5) (cache_write1h t + n1) 0) = Ok p'
    ∧ usage_picos p' ≤ usage_picos p ∧ conservative_cache_ttl p' = false.
Proof.
  assert (tokens_u64 (mk_tokens (fresh_input t) (output t) (cache_read t)
            (cache_write5m t + n5) (cache_write1h t + n1) 0)) as Ht2.
  { destruct Ht as (?&?&?&?&?&?). unfold tokens_u64; simpl; split_and!; try done; width_lia. }
  destruct (rates_validate_Ok r Hv) as (_ & _ & _ & Hb).
  destruct (Hb Hpol) as [[v5 E5] [v1 E1]].
  pose proof (rate_value_range _ _ E5). pose proof (rate_value_range _ _ E1).
  apply rates_price_Ok in Hp as (s & Hs & Hmax & ->); [|done..]. simpl.
  set (front := [(fresh_input t, rate_value (r_input r)); (output t, rate_value (r_output r));
                 (cache_read t, rate_value (r_cache_read r))]).
  assert (∀ a b c fi o cr, fi = fresh_input t → o = output t → cr = cache_read t →
    bill_total (bill r (mk_tokens fi o cr a b c)) =
    f ← bill_total front; Some (f + (a * v5 + (b * v1 + (c * Z.max v5 v1 + 0))))) as Hbill.
  { intros a b c ? ? ? -> -> ->.
    assert (unknown_value r = Some (Z.max v5 v1)) as Hu
      by (unfold unknown_value; by rewrite Hpol, E5, E1).
    unfold bill. rewrite Hu, E5, E1.
    cbn [fresh_input output cache_read cache_write5m cache_write1h cache_write_unknown].
    trans (bill_total (front ++ [(a, Some v5); (b, Some v1); (c, Some (Z.max v5 v1))])); [done|].
    rewrite bill_total_app, !bill_total_cons_Some. done. }
  clearbody front. destruct t as [fi o cr a b c].
  cbn [fresh_input output cache_read cache_write5m cache_write1h cache_write_unknown] in *.
  rewrite Hbill in Hs by done.
  destruct (bill_total front) as [f|] eqn:Ef; simpl in Hs; [|done]. injection Hs as <-.
  eexists. split.
  - apply (proj2 (rates_price_Ok _ _ _ Hv Ht2)).
    eexists. split_and!; [by rewrite Hbill by done|nia|reflexivity].
  - cbn [usage_picos conservative_cache_ttl]. split; [nia|done].
Qed.
Lemma unknown_ttl_conservative_witness :
  ∃ p', rates_price sample_rates (mk_tokens 1000 200 0 4 6 0) = Ok p'
    ∧ usage_picos p' ≤ 6060000000 ∧ conservative_cache_ttl p' = false.
Proof.
  apply (unknown_ttl_conservative sample_rates (mk_tokens 1000 200 0 0 0 10) 4 6
           (mk_priced 6060000000 true)).
  - vm_compute. reflexivity.
  - reflexivity.
  - apply tokens_u64_intro. vm_compute. reflexivity.
  - simpl. lia.
  - simpl. width_lia.
  - simpl. width_lia.
  - vm_compute. reflexivity.
Defined.

(** ** Validated model prices and snapshots *)
Lemma model_validate_rates m key r :
  model_validate m = Ok () → rates m !! key = Some r → rates_validate r = Ok ().
Proof.
  unfold model_validate. intros H Hk.
  apply bind_Ok in H as ([] & _ & H). apply bind_Ok in H as ([] & H & _).
  apply (proj1 (for_each_btree _ _)) with (k := key) (v := r) in H; [|done].
  apply bind_Ok in H as ([] & _ & H). by apply bind_Ok in H as ([] & _ & H).
Qed.
Lemma supports_tier_key m tier long :
  supports_tier m tier = true → (long = true → long_context_threshold m ≠ None) →
  ∃ r, rates m !! rate_key tier long = Some r.
Proof.
  unfold supports_tier. rewrite andb_true_iff, orb_true_iff, !bool_decide_eq_true.
  intros [Hb Hl] Ht. destruct long; [|done]. destruct Hl; [|done]. by destruct Ht.
Qed.
Lemma estimate_bounds body_len body : 0 ≤ body_len →
  let e := from_request body_len body in
  body_len ≤ 3 * input_tokens e ∧ 3 * input_tokens e ≤ body_len + 2
  ∧ 1 ≤ output_tokens e ≤ MAX_OUTPUT_CEILING.
Proof.
  intros Hl. simpl. unfold from_request. simpl.
  pose proof (Z.div_mod (body_len + 2) 3 ltac:(lia)) as Hd.
  pose proof (Z.mod_pos_bound (body_len + 2) 3 ltac:(lia)).
  split_and!; [lia|lia|..];
    (destruct (body ≫= _) as [n|]; simpl;
      [apply saturate_range; unfold MAX_OUTPUT_CEILING; lia
      |unfold DEFAULT_OUTPUT_CEILING, MAX_OUTPUT_CEILING; lia]).
Qed.

(** Admission can always price its reservation: on a validated model price, at a tier
    the model supports and for any request body that fits in memory, the reservation's
    price is defined (never unavailable, never an overflow) and non-negative. *)
Theorem admission_estimate_priced m tier body_len body
    (Hv : model_validate m = Ok ()) (Ht : tier ∈ TIERS) (Hs : supports_tier m tier = true)
    (Hlen : 0 ≤ body_len ≤ USIZE_MAX) :
  ∃ p, model_price m tier (estimate_tokens (from_request body_len body)) = Ok p
    ∧ 0 ≤ usage_picos p ≤ I128_MAX ∧ conservative_cache_ttl p = false.
Proof.
  pose proof (estimate_bounds body_len body ltac:(lia)) as (He1 & He2 & He3).
  unfold MAX_OUTPUT_CEILING in He3.
  remember (from_request body_len body) as e eqn:He. clear He.
  assert (tokens_u64 (estimate_tokens e)) as Hu.
  { unfold tokens_u64, estimate_tokens; simpl; split_and!; width_lia. }
  assert (∃ c, match context_input_basis m with
               | FreshInput => Ok (fresh_input (estimate_tokens e))
               | RawInput => raw_input (estimate_tokens e)
               end = Ok c) as [c Hc].
  { destruct (context_input_basis m); [by eexists|]. unfold raw_input, estimate_tokens. simpl.
    do 4 (rewrite checked_u64_in by width_lia; simpl). by eexists. }
  destruct (supports_tier_key m tier (is_long m c)) as [r Hr]; [done| |].
  { unfold is_long. by destruct (long_context_threshold m). }
  pose proof (model_validate_rates _ _ _ Hv Hr) as Hrv.
  destruct (rates_validate_Ok r Hrv) as (_ & [[vi Ei] [vo Eo]] & _).
  pose proof (rate_value_range _ _ Ei). pose proof (rate_value_range _ _ Eo).
  exists (mk_priced (input_tokens e * vi + (output_tokens e * vo + 0)) false).
  assert (0 ≤ input_tokens e * vi ≤ 6148914691236517206 * I64_MAX).
  { split; [apply Z.mul_nonneg_nonneg|apply Z.mul_le_mono_nonneg]; width_lia. }
  assert (0 ≤ output_tokens e * vo ≤ 128000 * I64_MAX).
  { split; [apply Z.mul_nonneg_nonneg|apply Z.mul_le_mono_nonneg]; width_lia. }
  split; [|simpl; split; [width_lia|done]].
  unfold model_price. rewrite (proj2 (one_of_true TIERS tier) Ht). simpl fail_if.
  cbn [mbind result_bind]. rewrite Hc. cbn [mbind result_bind]. rewrite Hr. simpl.
  apply (proj2 (rates_price_Ok _ _ _ Hrv Hu)).
  exists (input_tokens e * vi + (output_tokens e * vo + 0)). split_and!; [|width_lia|done].
  unfold bill, estimate_tokens. cbn [fresh_input output cache_read cache_write5m cache_write1h
    cache_write_unknown]. rewrite Ei, Eo, !bill_total_cons_Some. done.
Qed.
Definition sample_model : ExecutionModelPrice :=
  mk_model_price RawInput (Some 200000) false
    (<["standard/base" := sample_rates]> (<["standard/long" := sample_rates]> ∅)).
Lemma admission_estimate_priced_witness :
  ∃ p, model_price sample_model "standard" (estimate_tokens (from_request 900000 None)) = Ok p
    ∧ 0 ≤ usage_picos p ≤ I128_MAX ∧ conservative_cache_ttl p = false.
Proof.
  apply (admission_estimate_priced sample_model "standard" 900000 None).
  - vm_compute. reflexivity.
  - left.
  - vm_compute. reflexivity.
  - width_lia.
Defined.

Section snapshot_facts.
Context (to_vec : PricingSnapshot → option string) (s : PricingSnapshot).
Hypothesis Hvalid : snapshot_validate to_vec s = Ok ().

Lemma snapshot_models_valid k m : models s !! k = Some m → model_validate m = Ok ().
Proof.
  intros Hk. unfold snapshot_validate in Hvalid.
  apply bind_Ok in Hvalid as ([] & _ & H). apply bind_Ok in H as ([] & H & _).
  apply (proj1 (for_each_btree _ _)) with (k := k) (v := m) in H; [|done].
  by apply bind_Ok in H as ([] & _ & H).
Qed.
Lemma snapshot_alias_valid a k : exact_aliases s !! a = Some k →
  models s !! a = None ∧ is_Some (models s !! k).
Proof.
  intros Hk. unfold snapshot_validate in Hvalid.
  apply bind_Ok in Hvalid as ([] & _ & H). apply bind_Ok in H as ([] & _ & H).
  apply bind_Ok in H as ([] & H & _).
  apply (proj1 (for_each_btree _ _)) with (k := a) (v := k) in H; [|done].
  apply fail_if_Ok, orb_false_elim in H as [[_ H1%bool_decide_eq_false]%orb_false_elim
    H2%bool_decide_eq_false].
  split; [by apply eq_None_not_Some|by apply not_eq_None_Some].
Qed.
End snapshot_facts.

(** Name resolution in a validated snapshot: a priced model name resolves to its own
    row (no alias and no peeled name can shadow it), an alias resolves to its target, and
    whatever resolves is a validated row of the snapshot reached from a name reachable by
    peeling. *)
Theorem snapshot_model_resolution to_vec s (Hv : snapshot_validate to_vec s = Ok ()) :
  (∀ k m, models s !! k = Some m → snapshot_model s k = Ok m)
  ∧ (∀ a k m, exact_aliases s !! a = Some k → models s !! k = Some m → snapshot_model s a = Ok m)
  ∧ (∀ name m, snapshot_model s name = Ok m →
       model_validate m = Ok ()
       ∧ ∃ c, (c = name ∨ rtc peels (search_start name) c) ∧ resolve_candidate s c = Some m).
Proof.
  split_and!.
  - intros k m Hk. unfold snapshot_model, resolve_candidate. simpl.
    destruct (exact_aliases s !! k) as [t|] eqn:Ea.
    + destruct (snapshot_alias_valid _ _ Hv _ _ Ea). congruence.
    + simpl. by rewrite Hk.
  - intros a k m Ha Hk. unfold snapshot_model, resolve_candidate. simpl.
    rewrite Ha. simpl. by rewrite Hk.
  - intros name m H. apply ok_or_Ok, find_map_Some in H as (c & Hc & Hm). split.
    + eapply snapshot_models_valid; [done|]. exact Hm.
    + exists c. split; [|done]. apply elem_of_cons in Hc as [->|Hc]; [by left|right].
      by apply elem_of_identity_candidates in Hc as [_ ?].
Qed.
Definition sample_snapshot : PricingSnapshot :=
  mk_snapshot 1 TARIFF_POLICY "USD" (<["gpt-5" := sample_model]> ∅)
    (<["codex-latest" := "gpt-5"]> ∅).
Lemma snapshot_model_resolution_witness :
  snapshot_model sample_snapshot "gpt-5" = Ok sample_model
  ∧ snapshot_model sample_snapshot "codex-latest" = Ok sample_model.
Proof.
  split.
  - apply (proj1 (snapshot_model_resolution (λ _, Some "{}") sample_snapshot ltac:(vm_compute; reflexivity))).
    vm_compute. reflexivity.
  - apply (proj1 (proj2 (snapshot_model_resolution (λ _, Some "{}") sample_snapshot
             ltac:(vm_compute; reflexivity)))) with (k := "gpt-5"); vm_compute; reflexivity.
Defined.
