(* ===== verification/ValueTables.v ===== *)
(** * The USD ledger of a Share: tables, checkpoints and status
    ([src/repository/server_sqlite/value_quota.rs])

    The SQLite tables of the USD-equivalent quota as finite maps, the daily checkpoints kept beside the
    attempts, and the status of a window computed from both. Rows hold text, as the columns do: amounts are
    decimal strings, structured values are their JSON. A function that runs in a transaction takes the database
    and returns the new one, or an error; an error returns no database, which is the rollback. *)
From S2P Require Import Prelude MapSum RustStr Json ModelIdentity ValuePricing.
From Stdlib Require Import ZArith Lia Ascii.

Local Open Scope Z_scope.

(** ** Codecs: [serde_json] and the SHA-256 digest, from crates *)
Class Serde (A : Type) := {
  to_json : A → string;
  from_json : string → option A;
  from_to : ∀ a, from_json (to_json a) = Some a;
}.
#[global] Instance to_json_inj `{Serde A} : Inj (=) (=) to_json.
Proof. intros a b Hab. apply (inj Some). by rewrite <-!from_to, Hab. Qed.
(** The digest in hexadecimal: it never starts with the prefix of a synthetic settlement. *)
Class Digest := {
  sha256_hex : string → string;
  sha256_hex_plain : ∀ s, starts_with "synthetic:" (sha256_hex s) = false;
}.

(** ** Errors *)
(** domain/usage/value_pricing.rs:366-377 [ValueQuotaRejectionKind] *)
Inductive ValueQuotaRejectionKind : Type :=
  | Exhausted | Busy | AuthorizationRevoked | StorageBusy | Blocked.
(** domain/usage/value_pricing.rs:391-398 [code] *)
Definition rejection_code (k : ValueQuotaRejectionKind) : string :=
  match k with
  | Exhausted => "VALUE_QUOTA_EXHAUSTED"
  | Busy => "VALUE_QUOTA_BUSY"
  | AuthorizationRevoked => "VALUE_QUOTA_AUTHORIZATION_REVOKED"
  | StorageBusy => "VALUE_QUOTA_STORAGE_BUSY"
  | Blocked => "VALUE_QUOTA_BLOCKED_NEEDS_RECONCILE"
  end.
(** domain/usage/value_pricing.rs:18-25 [PriceRejection]: its reason and the revisions in force; the model and
    tier it repeats for the log are left out *)
Record PriceRejection := mk_price_rejection {
  reason_code : string; active_pricing_revision : option string;
  pending_pricing_revision : option string; pr_effective_from_ms : option Z;
}.
(** What [anyhow] carries: the text of an [ensure!], a pricing error, a typed rejection, or a constraint that
    SQLite refused. *)
Inductive QuotaError : Type :=
  | Message (text : string)
  | Pricing (e : ValueError)
  | Rejected (kind : ValueQuotaRejectionKind) (resets_at_ms : option Z)
  | Unpriced (r : PriceRejection)
  | Constraint.
Definition lift {A} (r : result ValueError A) : result QuotaError A :=
  match r with Ok a => Ok a | Err e => Err (Pricing e) end.
Definition CORRUPT : QuotaError := Message "VALUE_QUOTA_CHECKPOINT_CORRUPT".
(** [u64::try_from] on a column. *)
Definition column_u64 (z : Z) : result QuotaError Z :=
  ok_or (Message "out of range integral type conversion attempted") (checked_u64 z).

Lemma lift_Ok {A} (r : result ValueError A) a : lift r = Ok a ↔ r = Ok a.
Proof. destruct r; simpl; naive_solver. Qed.

(** ** Scope and window *)
(** repository/server_sqlite/value_quota.rs:21-30 [Scope] *)
Record Scope := mk_scope {
  sc_router_url : string; sc_installation_id : string; sc_share_id : string; sc_email : string;
  sc_entitlement_id : option string;
}.
#[global] Instance Scope_eq_dec : EqDecision Scope.
Proof. solve_decision. Defined.
(** repository/server_sqlite/value_quota.rs:31-53 [key] *)
Definition scope_key `{Serde Scope} (s : Scope) : result QuotaError string :=
  _ ← fail_if (is_empty (sc_router_url s) || is_empty (sc_installation_id s) || is_empty (sc_share_id s))
        (Message "invalid value quota scope");
  _ ← fail_if (is_empty (sc_email s) || (320 <? str_len (sc_email s))
        || negb (str_eqb (sc_email s) (to_ascii_lowercase (trim (sc_email s)))))
        (Message "invalid value quota identity");
  _ ← fail_if (from_option (λ id, is_empty id || (256 <? str_len id)) false (sc_entitlement_id s))
        (Message "invalid value quota entitlement");
  Ok (to_json s).
(** repository/server_sqlite/value_quota.rs:56-61 [Window] *)
Record Window := mk_window {
  w_id : string; w_starts_at_ms : Z; w_ends_at_ms : option Z; w_metered_from_ms : Z;
}.
(** repository/server_sqlite/value_quota.rs:63-73 [validate] *)
Definition window_validate (w : Window) : result QuotaError () :=
  _ ← fail_if (is_empty (w_id w) || (w_starts_at_ms w <? 0) || (w_metered_from_ms w <? 0))
        (Message "invalid value quota window");
  fail_if (from_option (λ e, e <=? w_starts_at_ms w) false (w_ends_at_ms w))
    (Message "invalid value quota window end").
(** repository/server_sqlite/value_quota.rs:74-76 [metered_start_ms] *)
Definition metered_start_ms (w : Window) : Z := Z.max (w_starts_at_ms w) (w_metered_from_ms w).
(** repository/server_sqlite/value_quota.rs:260-268 [QuotaStatus] *)
Record QuotaStatus := mk_status {
  qs_observed_picos : string; qs_manual_offset_picos : string; qs_used_picos : string;
  qs_pending_risk_picos : string; qs_metering_status : string; qs_usage_watermark : Z;
  qs_usage_pricing_revisions_digest : string;
}.
(** repository/server_sqlite/value_quota.rs:269-269 [DAY_MS] *)
Definition DAY_MS : Z := 86400000.
(** [at.div_euclid(DAY_MS) * DAY_MS] *)
Definition day_of (at_ms : Z) : Z := at_ms / DAY_MS * DAY_MS.

(** ** Checkpoints *)
(** repository/server_sqlite/value_quota.rs:460-466 [Checkpoint] *)
Record Checkpoint := mk_checkpoint {
  cp_amount : string; cp_risk : string; cp_states : gmap string Z; cp_revisions : gmap string Z;
  cp_watermark : Z;
}.
(** repository/server_sqlite/value_quota.rs:468-474 [empty] *)
Definition checkpoint_empty : Checkpoint := mk_checkpoint "0" "0" ∅ ∅ 0.
(** repository/server_sqlite/value_quota.rs:475-480 [count] *)
Definition checkpoint_count (c : Checkpoint) : result QuotaError Z :=
  try_fold (λ sum value, ok_or CORRUPT (checked_u64 (sum + value))) 0 (btree_values (cp_states c)).
(** repository/server_sqlite/value_quota.rs:590-596 [Contribution] *)
Record Contribution := mk_contribution {
  c_amount : string; c_risk : string; c_state : string; c_revision : option string; c_watermark : Z;
}.
(** repository/server_sqlite/value_quota.rs:490-500 [number] *)
Definition number (old change : string) (add : bool) : result QuotaError string :=
  old ← lift (unsigned_decimal old);
  change ← lift (unsigned_decimal change);
  r ← ok_or (Message "value checkpoint overflow") (checked_i128 (if add then old + change else old - change));
  _ ← fail_if (r <? 0) CORRUPT;
  Ok (pretty r).
(** repository/server_sqlite/value_quota.rs:501-515 [counter] *)
Definition counter (m : gmap string Z) (key : string) (add : bool) : result QuotaError (gmap string Z) :=
  next ← ok_or CORRUPT (checked_u64 (if add then count_of m key + 1 else count_of m key - 1));
  Ok (if next =? 0 then delete key m else <[key := next]> m).
(** repository/server_sqlite/value_quota.rs:481-524 [change] *)
Definition change (c : Checkpoint) (d : Contribution) (add : bool) : result QuotaError Checkpoint :=
  amount ← number (cp_amount c) (c_amount d) add;
  risk ← number (cp_risk c) (c_risk d) add;
  states ← counter (cp_states c) (c_state d) add;
  revisions ← match c_revision d with
              | Some revision => counter (cp_revisions c) revision add
              | None => Ok (cp_revisions c)
              end;
  Ok (mk_checkpoint amount risk states revisions (Z.max (cp_watermark c) (c_watermark d))).
(** repository/server_sqlite/value_quota.rs:538-546 [merge]: one map of counters into another *)
Definition merge_counts (target source : gmap string Z) : result QuotaError (gmap string Z) :=
  try_fold (λ target '(key, value),
    n ← ok_or (Message "value checkpoint count overflow") (checked_u64 (count_of target key + value));
    Ok (<[key := n]> target)) target (btree_entries source).
(** repository/server_sqlite/value_quota.rs:525-549 [merge] *)
Definition merge (c other : Checkpoint) : result QuotaError Checkpoint :=
  let add a b :=
    a ← lift (unsigned_decimal a); b ← lift (unsigned_decimal b);
    s ← ok_or (Message "value checkpoint overflow") (checked_i128 (a + b)); Ok (pretty s) in
  amount ← add (cp_amount c) (cp_amount other);
  risk ← add (cp_risk c) (cp_risk other);
  states ← merge_counts (cp_states c) (cp_states other);
  revisions ← merge_counts (cp_revisions c) (cp_revisions other);
  Ok (mk_checkpoint amount risk states revisions (Z.max (cp_watermark c) (cp_watermark other))).
(** repository/server_sqlite/value_quota.rs:553-564 [metering] *)
Definition metering (c : Checkpoint) : string :=
  let has state := bool_decide (is_Some (cp_states c !! state)) in
  if has "pending" then "pending"
  else if existsb has ["conservative"; "unavailable"; "gap"] then "conservative"
  else "observed".

(** ** Tables *)
(** repository/server_sqlite/value_quota.rs:1295-1299 [value_quota_attempts], a row of the table *)
Record AttemptRow := mk_attempt_row {
  a_scope : string; a_policy_epoch : string; a_window_id : string; a_started_at_ms : Z;
  a_pricing_revision : string; a_effective_model : string; a_effective_tier : string;
  a_frozen_tariff_json : string; a_usage_revision : Z; a_usage_picos : string;
  a_pending_risk_picos : string; a_metering_status : string; a_observation_sha256 : option string;
  a_compacted_at_ms : option Z; a_watermark : Z;
}.
(** repository/server_sqlite/value_quota.rs:647-648 [value_quota_gaps], a row of the table *)
Record GapRow := mk_gap { g_started_at_ms : Z; g_watermark : Z }.
(** repository/server_sqlite/value_quota.rs:2003-2005 [value_quota_revisions], a row of the table *)
Record RevisionRow := mk_revision {
  rv_observation_sha256 : string; rv_observation_json : string; rv_usage_picos : string;
  rv_metering_status : string; rv_watermark : Z;
}.
(** repository/server_sqlite/value_quota.rs:1660-1662 [value_quota_adjustments], a row of the table *)
Record AdjustmentRow := mk_adjustment {
  j_scope : string; j_window_id : string; j_payload_json : string; j_target_picos : option string;
  j_observed_watermark : Z; j_actor : string; j_reason : string; j_created_at_ms : Z; j_watermark : Z;
}.
(** The database: one map for each table, by its primary key. *)
Record Database := mk_db {
  meta : gmap string string;
  snapshots : gmap (string * string * string) string;
  coverage : gmap string Z;
  attempts : gmap (string * string) AttemptRow;
  checkpoints : gmap (string * Z) (string * string);
  gaps : gmap (string * string) GapRow;
  revisions : gmap (string * string * Z) RevisionRow;
  adjustments : gmap string AdjustmentRow;
}.
Definition set_meta (m : gmap string string) (db : Database) : Database :=
  mk_db m (snapshots db) (coverage db) (attempts db) (checkpoints db) (gaps db) (revisions db) (adjustments db).
Definition set_attempts (m : gmap (string * string) AttemptRow) (db : Database) : Database :=
  mk_db (meta db) (snapshots db) (coverage db) m (checkpoints db) (gaps db) (revisions db) (adjustments db).
Definition set_checkpoints (m : gmap (string * Z) (string * string)) (db : Database) : Database :=
  mk_db (meta db) (snapshots db) (coverage db) (attempts db) m (gaps db) (revisions db) (adjustments db).
Definition set_gaps (m : gmap (string * string) GapRow) (db : Database) : Database :=
  mk_db (meta db) (snapshots db) (coverage db) (attempts db) (checkpoints db) m (revisions db) (adjustments db).
Definition set_revisions (m : gmap (string * string * Z) RevisionRow) (db : Database) : Database :=
  mk_db (meta db) (snapshots db) (coverage db) (attempts db) (checkpoints db) (gaps db) m (adjustments db).
Definition set_adjustments (m : gmap string AdjustmentRow) (db : Database) : Database :=
  mk_db (meta db) (snapshots db) (coverage db) (attempts db) (checkpoints db) (gaps db) (revisions db) m.
Definition set_coverage (m : gmap string Z) (db : Database) : Database :=
  mk_db (meta db) (snapshots db) m (attempts db) (checkpoints db) (gaps db) (revisions db) (adjustments db).
Definition set_snapshots (m : gmap (string * string * string) string) (db : Database) : Database :=
  mk_db (meta db) m (coverage db) (attempts db) (checkpoints db) (gaps db) (revisions db) (adjustments db).

Definition STATES : list string := ["pending"; "observed"; "conservative"; "unavailable"].
(** The CHECK constraints of an attempt. *)
Definition attempt_allowed (a : AttemptRow) : bool :=
  (0 <=? a_started_at_ms a) && (0 <=? a_usage_revision a) && one_of STATES (a_metering_status a)
  && from_option (λ at_ms, 0 <=? at_ms) true (a_compacted_at_ms a) && (0 <? a_watermark a).
(** An UPDATE or INSERT that keeps them. *)
Definition write_attempt (db : Database) (id : string * string) (a : AttemptRow) : result QuotaError Database :=
  _ ← fail_if (negb (attempt_allowed a)) Constraint;
  Ok (set_attempts (<[id := a]> (attempts db)) db).

(** ** Watermarks *)
Definition WATERMARK_KEY : string := "value_quota_watermark_v1".
(** [parse::<i64>] *)
Definition parse_i64 (raw : string) : result QuotaError Z :=
  let '(negative, digits) :=
    match raw with
    | String "-"%char rest => (true, rest)
    | String "+"%char rest => (false, rest)
    | _ => (false, raw)
    end in
  _ ← fail_if (is_empty digits || negb (all_digits digits)) (Message "invalid digit found in string");
  ok_or (Message "number too large to fit in target type")
    (checked_i64 (if negative : bool then - dec_value digits else dec_value digits)).
(** repository/server_sqlite/value_quota.rs:769-784 [next_watermark] *)
Definition next_watermark (db : Database) : result QuotaError (Database * Z) :=
  raw ← ok_or (Message "Query returned no rows") (meta db !! WATERMARK_KEY);
  now ← parse_i64 raw;
  next ← ok_or (Message "value quota watermark overflow") (checked_i64 (now + 1));
  Ok (set_meta (<[WATERMARK_KEY := pretty next]> (meta db)) db, next).
(** repository/server_sqlite/value_quota.rs:950-964 [raise_watermark_floor] *)
Definition raise_watermark_floor (db : Database) (floor : Z) : result QuotaError Database :=
  floor ← ok_or (Message "value quota watermark overflow") (checked_i64 floor);
  raw ← ok_or (Message "Query returned no rows") (meta db !! WATERMARK_KEY);
  now ← parse_i64 raw;
  Ok (if now <? floor then set_meta (<[WATERMARK_KEY := pretty floor]> (meta db)) db else db).

(** ** Manual adjustments *)
(** domain/usage/value_pricing.rs:64-67 [ValueUsageEditAction] *)
Inductive ValueUsageEditAction : Type := Set_ | Clear.
#[global] Instance ValueUsageEditAction_eq_dec : EqDecision ValueUsageEditAction.
Proof. solve_decision. Defined.
(** domain/usage/value_pricing.rs:53-61 [ValueUsageEdit] *)
Record ValueUsageEdit := mk_edit {
  e_action : ValueUsageEditAction; e_target_picos : option string; e_expected_grant_revision : Z;
  e_window_id : string; e_expected_watermark : Z; e_operation_id : string; e_reason : string;
}.
#[global] Instance ValueUsageEdit_eq_dec : EqDecision ValueUsageEdit.
Proof. solve_decision. Defined.
(** repository/server_sqlite/value_quota.rs:1623-1625 [reconcile], what a [set] repaired *)
Record Reconcile := mk_reconcile {
  rc_resolved_pending_attempts : Z; rc_rebuilt_checkpoint_days : Z; rc_cleared_blocks : Z;
  rc_restore_fence_cleared : bool; rc_router_watermark : option Z;
}.
(** repository/server_sqlite/value_quota.rs:1657-1659 [payload] *)
Record AdjustmentPayload := mk_payload {
  p_edit : ValueUsageEdit; p_actor : string; p_offset_picos : string; p_observed_picos : string;
  p_before_picos : string; p_after_picos : string; p_observed_watermark : Z; p_reconcile : option Reconcile;
}.

Section ledger.
Context `{!Digest, !Serde Scope, !Serde Checkpoint, !Serde AdjustmentPayload, !Serde (list string)}.

(** ** Checkpoints in the table *)
(** repository/server_sqlite/value_quota.rs:566-578 [read_checkpoint] *)
Definition read_checkpoint (db : Database) (key : string) (day : Z) : result QuotaError Checkpoint :=
  match checkpoints db !! (key, day) with
  | None => Ok checkpoint_empty
  | Some (json, hash) =>
      _ ← fail_if (negb (str_eqb (sha256_hex json) hash)) CORRUPT;
      ok_or (Message "checkpoint does not parse") (from_json json)
  end.
(** repository/server_sqlite/value_quota.rs:579-589 [write_checkpoint] *)
Definition write_checkpoint (db : Database) (scope : string) (day : Z) (c : Checkpoint) : result QuotaError Database :=
  let json := to_json c in
  _ ← fail_if (day <? 0) Constraint;
  Ok (set_checkpoints (<[(scope, day) := (json, sha256_hex json)]> (checkpoints db)) db).
Definition changed (c : Checkpoint) (d : option Contribution) (add : bool) : result QuotaError Checkpoint :=
  match d with Some d => change c d add | None => Ok c end.
(** repository/server_sqlite/value_quota.rs:597-613 [update_checkpoint] *)
Definition update_checkpoint (db : Database) (scope : string) (at_ms : Z) (old new : option Contribution) :
    result QuotaError Database :=
  let day := day_of at_ms in
  c ← read_checkpoint db scope day;
  c ← changed c old false;
  c ← changed c new true;
  write_checkpoint db scope day c.

(** What a row adds to its day. *)
Definition attempt_contribution (a : AttemptRow) : Contribution :=
  mk_contribution (a_usage_picos a) (a_pending_risk_picos a) (a_metering_status a) (Some (a_pricing_revision a))
    (a_watermark a).
Definition gap_contribution (g : GapRow) : Contribution := mk_contribution "0" "0" "gap" None (g_watermark g).
(** The contribution with the watermark column read as [u64]. *)
Definition with_column (d : Contribution) : result QuotaError Contribution :=
  _ ← column_u64 (c_watermark d); Ok d.
(** The rows of a scope, in the order a query without ORDER BY returns them: any order. *)
Definition scope_attempts (db : Database) (scope : string) : list AttemptRow :=
  filter (λ a, a_scope a = scope) (map_to_list (attempts db)).*2.
Definition scope_gaps (db : Database) (scope : string) : list GapRow :=
  (filter (λ e, e.1.1 = scope) (map_to_list (gaps db))).*2.
(** repository/server_sqlite/value_quota.rs:616-664 [rebuild_checkpoints_in_tx] *)
Definition rebuild_checkpoints (db : Database) (scope : string) : result QuotaError (Database * Z) :=
  let add days at_ms d :=
    d ← with_column d;
    c ← change (default checkpoint_empty (days !! day_of at_ms)) d true;
    Ok (<[day_of at_ms := c]> days) in
  days ← try_fold (λ days a, add days (a_started_at_ms a) (attempt_contribution a))
           (∅ : gmap Z Checkpoint) (scope_attempts db scope);
  days ← try_fold (λ days g, add days (g_started_at_ms g) (gap_contribution g)) days (scope_gaps db scope);
  let db := set_checkpoints (filter (λ e, e.1.1 ≠ scope) (checkpoints db)) db in
  db ← try_fold (λ db '(day, c), write_checkpoint db scope day c) db (map_to_list days);
  Ok (db, Z.of_nat (size days)).

(** ** Blocks *)
(** repository/server_sqlite/value_quota.rs:280-282 [block_key] *)
Definition block_key (scope_key window_id : string) : string :=
  "value_quota_blocked:" +:+ scope_key +:+ ":" +:+ window_id.
(** repository/server_sqlite/value_quota.rs:283-285 [legacy_scope_block_key] *)
Definition legacy_scope_block_key (scope_key : string) : string := "value_quota_blocked:" +:+ scope_key.
(** repository/server_sqlite/value_quota.rs:965-971 [window_blocked] *)
Definition window_blocked (db : Database) (key window_id : string) : bool :=
  bool_decide (is_Some (meta db !! block_key key window_id))
  || bool_decide (is_Some (meta db !! legacy_scope_block_key key)).

(** ** Status of a window *)
(** [started_at_ms>=?2 AND (?3 IS NULL OR started_at_ms<?3)] *)
Definition in_span (from : Z) (until : option Z) (at_ms : Z) : bool :=
  (from <=? at_ms) && from_option (λ u, at_ms <? u) true until.
(** repository/server_sqlite/value_quota.rs:999-1000 [status_in_tx]: the days of a scope that have a checkpoint *)
Definition checkpoint_days (db : Database) (key : string) (full_from full_until : Z) : list Z :=
  filter (λ day, in_span full_from (Some full_until) day)
    (filter (λ e, e.1 = key) (map_to_list (checkpoints db)).*1).*2.
(** repository/server_sqlite/value_quota.rs:1053-1055 [status_in_tx]: the newest adjustment of the window *)
Definition last_adjustment (db : Database) (key window_id : string) : option AdjustmentRow :=
  foldr (λ j newest, match newest with
    | Some n => if j_watermark n <? j_watermark j then Some j else newest
    | None => Some j end) None
    (filter (λ j, j_scope j = key ∧ j_window_id j = window_id) (map_to_list (adjustments db)).*2).
(** repository/server_sqlite/value_quota.rs:991-1050 [status_in_tx]: the whole days of the window from their
    checkpoints, the days it covers in part from their rows *)
Definition window_aggregate (db : Database) (key : string) (window : Window) : result QuotaError Checkpoint :=
  let from := metered_start_ms window in
  last_ms ← ok_or (Message "invalid value window") (checked_i64 (from + (DAY_MS - 1)));
  let full_from := day_of last_ms in
  let full_until := day_of (default I64_MAX (w_ends_at_ms window)) in
  let whole := in_span full_from (Some full_until) in
  let partial at_ms := in_span from (w_ends_at_ms window) at_ms && negb (whole at_ms) in
  aggregate ← try_fold (λ aggregate day, c ← read_checkpoint db key day; merge aggregate c) checkpoint_empty
    (checkpoint_days db key full_from full_until);
  count ← checkpoint_count aggregate;
  let actual := Z.of_nat (length (filter (λ a, whole (a_started_at_ms a)) (scope_attempts db key)))
    + Z.of_nat (length (filter (λ g, whole (g_started_at_ms g)) (scope_gaps db key))) in
  _ ← fail_if (negb (actual =? count)) CORRUPT;
  aggregate ← try_fold (λ aggregate a, d ← with_column (attempt_contribution a); change aggregate d true) aggregate
    (filter (λ a, partial (a_started_at_ms a)) (scope_attempts db key));
  let edge := filter (λ g, partial (g_started_at_ms g)) (scope_gaps db key) in
  match edge with
  | [] => Ok aggregate
  | _ =>
      mark ← column_u64 (foldr (λ g m, Z.max (g_watermark g) m) 0 edge);
      Ok (mk_checkpoint (cp_amount aggregate) (cp_risk aggregate)
            (<["gap" := Z.of_nat (length edge)]> (cp_states aggregate)) (cp_revisions aggregate)
            (Z.max (cp_watermark aggregate) mark))
  end.
(** repository/server_sqlite/value_quota.rs:1058-1070 [status_in_tx]: the offset and mark of the adjustment *)
Definition adjustment_offset (j : AdjustmentRow) : result QuotaError (Z * Z) :=
  payload ← ok_or (Message "invalid value adjustment") (from_json (j_payload_json j));
  offset ← lift (unsigned_decimal (p_offset_picos payload));
  mark ← column_u64 (j_watermark j);
  Ok (offset, mark).
(** repository/server_sqlite/value_quota.rs:972-1091 [status_in_tx] *)
Definition status_in_tx (db : Database) (scope : Scope) (window : Window) : result QuotaError QuotaStatus :=
  _ ← window_validate window;
  key ← scope_key scope;
  let blocked := window_blocked db key (w_id window) in
  _ ← fail_if (negb (from_option (λ at_ms, at_ms <=? metered_start_ms window) false (coverage db !! key)))
        (Message "VALUE_QUOTA_COVERAGE_INCOMPLETE");
  aggregate ← window_aggregate db key window;
  observed ← lift (unsigned_decimal (cp_amount aggregate));
  '(offset, mark) ← match last_adjustment db key (w_id window) with
                    | None => Ok (0, 0)
                    | Some j => adjustment_offset j
                    end;
  used ← ok_or (Message "value adjusted quota overflow") (checked_i128 (observed + offset));
  Ok (mk_status (pretty observed) (pretty offset) (pretty used) (cp_risk aggregate)
        (if blocked then "blocked" else metering aggregate) (Z.max (cp_watermark aggregate) mark)
        (sha256_hex (to_json (btree_entries (cp_revisions aggregate)).*1))).
End ledger.
