(* ===== verification/ValueAdmission.v ===== *)
(** * Admission to the USD ledger ([src/repository/server_sqlite/value_quota.rs], [value_quota/tariff.rs])

    Pricing snapshots and their activation, the one-time budget of a market trial, and the admission of an
    attempt: the reservation it takes and the rows it leaves. *)
From S2P Require Import Prelude MapSum RustStr Json ModelIdentity ValuePricing ValueTables.
From Stdlib Require Import ZArith Lia.

Local Open Scope Z_scope.

(** ** Data *)
(** repository/server_sqlite/value_quota.rs:79-95 [Admission] *)
Record Admission := mk_admission {
  ad_enforce : bool; ad_scope : Scope; ad_window : Window; ad_policy_epoch : string; ad_quota : ValueQuota;
  ad_pricing_revision : string; ad_request_id : string; ad_attempt_id : string;
  ad_effective_model : string; ad_effective_tier : string; ad_started_at_ms : Z;
  ad_estimate : RiskEstimate; ad_parallel_limit : Z;
}.
(** repository/server_sqlite/value_quota.rs:106-113 [MarketTrialBudget] *)
Record MarketTrialBudget := mk_trial_budget {
  tb_scope_id : string; tb_entitlement_id : string; tb_allowance_micros : string; tb_limit_micros : string;
  tb_scope_used_picos : string; tb_used_picos : string;
}.
(** repository/server_sqlite/value_quota.rs:117-123 [MarketTrialAttempt] *)
Record MarketTrialAttempt := mk_trial_attempt {
  ma_request_id : string; ma_attempt_id : string; ma_entitlement_id : string;
  ma_settled_floor_picos : option string;
}.
(** repository/server_sqlite/value_quota.rs:296-300 [AttemptMeta] *)
Record AttemptMeta := mk_meta { am_input_tokens : Z; am_output_tokens : Z; am_reserved_picos : string }.
(** repository/server_sqlite/value_quota.rs:302-304 [reserved] *)
Definition reserved (m : AttemptMeta) : Z := default 0 (to_ok (unsigned_decimal (am_reserved_picos m))).
(** repository/server_sqlite/value_quota.rs:711-714 [PendingTariff] *)
Record PendingTariff := mk_pending_tariff { pt_revision : string; pt_effective_from_ms : Z }.

Section admission.
Context `{!Digest, !Serde Scope, !Serde Checkpoint, !Serde AdjustmentPayload, !Serde (list string)}.
Context `{!Serde (string * string), !Serde (Scope * string), !Serde AttemptMeta, !Serde MarketTrialAttempt}.
Context `{!Serde PricingSnapshot, !Serde ExecutionModelPrice, !Serde PendingTariff}.

(** ** Keys of the [meta] table *)
(** repository/server_sqlite/value_quota.rs:286-291 [attempt_meta_key] *)
Definition attempt_meta_key (request_id attempt_id : string) : string :=
  "value_attempt:" +:+ to_json (request_id, attempt_id).
(** repository/server_sqlite/value_quota.rs:125-130 [trial_index_key] *)
Definition trial_index_key (request_id attempt_id : string) : string :=
  "value_trial_index:" +:+ to_json (request_id, attempt_id).
(** repository/server_sqlite/value_quota.rs:155-164 [trial_attempt_prefix] *)
Definition trial_attempt_prefix (s : Scope) (t : MarketTrialBudget) : string :=
  let s := mk_scope (sc_router_url s) (sc_installation_id s) (sc_share_id s) (sc_email s) None in
  "value_trial_attempt:" +:+ sha256_hex (to_json (s, tb_scope_id t)) +:+ ":".
(** repository/server_sqlite/value_quota/tariff.rs:5-10 [active_key] *)
Definition active_key (s : Scope) : string := "value_tariff:" +:+ sc_router_url s +:+ ":" +:+ sc_installation_id s.
(** repository/server_sqlite/value_quota.rs:700-705 [pending_tariff_key] *)
Definition pending_tariff_key (s : Scope) : string :=
  "value_tariff_pending:" +:+ sc_router_url s +:+ ":" +:+ sc_installation_id s.

(** repository/server_sqlite/value_quota.rs:306-319 [read_attempt_meta] *)
Definition read_attempt_meta (db : Database) (request_id attempt_id : string) : option AttemptMeta :=
  meta db !! attempt_meta_key request_id attempt_id ≫= from_json.
(** repository/server_sqlite/value_quota.rs:132-153 [read_trial_attempt] *)
Definition read_trial_attempt (db : Database) (request_id attempt_id : string) :
    result QuotaError (option (string * MarketTrialAttempt)) :=
  match meta db !! trial_index_key request_id attempt_id with
  | None => Ok None
  | Some key =>
      raw ← ok_or (Message "Query returned no rows") (meta db !! key);
      marker ← ok_or (Message "trial marker does not parse") (from_json raw);
      _ ← fail_if (negb (str_eqb (ma_request_id marker) request_id && str_eqb (ma_attempt_id marker) attempt_id))
            (Message "VALUE_QUOTA_TRIAL_IDENTITY_CONFLICT");
      Ok (Some (key, marker))
  end.
(** An INSERT into [meta] without ON CONFLICT. *)
Definition insert_meta (db : Database) (key value : string) : result QuotaError Database :=
  _ ← fail_if (bool_decide (is_Some (meta db !! key))) Constraint;
  Ok (set_meta (<[key := value]> (meta db)) db).

(** ** Pricing snapshots *)
Definition snapshot_revision (s : PricingSnapshot) : result ValueError string :=
  revision (λ s, Some (to_json s)) sha256_hex s.
(** repository/server_sqlite/value_quota.rs:379-392 [cached_snapshot], on a miss *)
Definition read_snapshot (db : Database) (router_url installation_id rev : string) :
    result QuotaError PricingSnapshot :=
  json ← ok_or (Message "VALUE_QUOTA_SNAPSHOT_UNAVAILABLE") (snapshots db !! (router_url, installation_id, rev));
  s ← ok_or (Message "snapshot does not parse") (from_json json);
  r ← lift (snapshot_revision s);
  _ ← fail_if (negb (str_eqb r rev)) (Message "VALUE_QUOTA_SNAPSHOT_CORRUPT");
  Ok s.
Notation snapshot_cache := (gmap (string * string * string) PricingSnapshot).
(** repository/server_sqlite/value_quota.rs:345-353 [remember_snapshot] *)
Definition remember_snapshot (key : string * string * string) (s : PricingSnapshot) (cache : snapshot_cache) :
    snapshot_cache :=
  <[key := s]> (if 32 <=? Z.of_nat (size cache) then ∅ else cache).
(** repository/server_sqlite/value_quota.rs:354-394 [cached_snapshot] *)
Definition cached_snapshot (cache : snapshot_cache) (db : Database) (router_url installation_id rev : string) :
    snapshot_cache * result QuotaError PricingSnapshot :=
  let key := (router_url, installation_id, rev) in
  match cache !! key with
  | Some hit =>
      (cache, if bool_decide (is_Some (snapshots db !! key)) then Ok hit
              else Err (Message "VALUE_QUOTA_SNAPSHOT_UNAVAILABLE"))
  | None =>
      match read_snapshot db router_url installation_id rev with
      | Ok s => (remember_snapshot key s cache, Ok s)
      | Err e => (cache, Err e)
      end
  end.
(** repository/server_sqlite/value_quota.rs:737-768 [install_in_tx] *)
Definition install_in_tx (cache : snapshot_cache) (db : Database) (scope : Scope) (rev : string) (s : PricingSnapshot) :
    snapshot_cache * result QuotaError Database :=
  let key := (sc_router_url scope, sc_installation_id scope, rev) in
  let stored :=
    _ ← scope_key scope;
    r ← lift (snapshot_revision s);
    _ ← fail_if (negb (str_eqb r rev)) (Message "pricing snapshot hash mismatch");
    match snapshots db !! key with
    | Some p =>
        _ ← fail_if (negb (str_eqb p (to_json s))) (Message "immutable pricing revision conflict");
        Ok db
    | None => Ok (set_snapshots (<[key := to_json s]> (snapshots db)) db)
    end in
  match stored with
  | Ok db => (remember_snapshot key s cache, Ok db)
  | Err e => (cache, Err e)
  end.

(** ** Tariffs *)
(** repository/server_sqlite/value_quota/tariff.rs:25-38 [read_pending] *)
Definition read_pending (db : Database) (scope : Scope) : result QuotaError (option PendingTariff) :=
  match meta db !! pending_tariff_key scope with
  | None => Ok None
  | Some raw => p ← ok_or (Message "VALUE_QUOTA_PENDING_TARIFF_CORRUPT") (from_json raw); Ok (Some p)
  end.
(** repository/server_sqlite/value_quota/tariff.rs:40-63 [activate_due_in_tx] *)
Definition activate_due_in_tx (db : Database) (scope : Scope) (now : Z) :
    result QuotaError (Database * option string) :=
  pending ← read_pending db scope;
  db ← match pending with
       | Some p =>
           if pt_effective_from_ms p <=? now then
             _ ← read_snapshot db (sc_router_url scope) (sc_installation_id scope) (pt_revision p);
             Ok (set_meta (delete (pending_tariff_key scope) (<[active_key scope := pt_revision p]> (meta db))) db)
           else Ok db
       | None => Ok db
       end;
  Ok (db, meta db !! active_key scope).
(** repository/server_sqlite/value_quota/tariff.rs:93-112 [schedule_tariff] *)
Definition schedule_tariff (db : Database) (scope : Scope) (p : PendingTariff) (now : Z) : result QuotaError Database :=
  _ ← read_snapshot db (sc_router_url scope) (sc_installation_id scope) (pt_revision p);
  let db := set_meta (<[pending_tariff_key scope := to_json p]> (meta db)) db in
  r ← activate_due_in_tx db scope now;
  Ok r.1.
(** repository/server_sqlite/value_quota/tariff.rs:12-23 [admission_revision] *)
Definition admission_revision (db : Database) (a : Admission) (now : Z) : result QuotaError (Database * string) :=
  '(db, active) ← activate_due_in_tx db (ad_scope a) now;
  rev ← ok_or (Message "VALUE_QUOTA_SNAPSHOT_UNAVAILABLE")
          (or_else (a_pricing_revision <$> attempts db !! (ad_request_id a, ad_attempt_id a)) active);
  Ok (db, rev).
Definition covers (r : result QuotaError PricingSnapshot) (model tier : string) : bool :=
  from_option (λ s, from_option (λ m, supports_tier m tier) false (to_ok (snapshot_model s model))) false (to_ok r).
(** repository/server_sqlite/value_quota/tariff.rs:175-201 [price_rejection] *)
Definition price_rejection (db : Database) (scope : Scope) (rev model tier reason : string) : PriceRejection :=
  let pending := default None (to_ok (read_pending db scope)) in
  let pending_covers := from_option (λ p,
    covers (read_snapshot db (sc_router_url scope) (sc_installation_id scope) (pt_revision p)) model tier)
    false pending in
  mk_price_rejection (if pending_covers then "tariff_not_effective" else reason) (Some rev)
    (pt_revision <$> pending) (pt_effective_from_ms <$> pending).

(** ** The budget of a market trial *)
(** repository/server_sqlite/value_quota.rs:174-177 [trial_available_in_tx]: the running totals *)
Record TrialTotals := mk_totals { tt_scope_spent : Z; tt_scope_pending : Z; tt_spent : Z; tt_pending : Z }.
Definition OVERFLOW : QuotaError := Message "value quota arithmetic overflow".
Definition add_i128 (a b : Z) : result QuotaError Z := ok_or OVERFLOW (checked_i128 (a + b)).
(** repository/server_sqlite/value_quota.rs:179-193 [trial_available_in_tx]: the markers under the prefix, each
    joined with its attempt *)
Definition trial_markers (db : Database) (prefix : string) : list string :=
  (filter (λ e, starts_with prefix e.1) (map_to_list (meta db))).*2.
(** repository/server_sqlite/value_quota.rs:194-198 [trial_available_in_tx]: a marker with its attempt *)
Definition trial_row (db : Database) (raw : string) : result QuotaError (MarketTrialAttempt * AttemptRow) :=
  marker ← ok_or (Message "trial marker does not parse") (from_json raw);
  row ← ok_or (Message "VALUE_QUOTA_TRIAL_ATTEMPT_MISSING")
          (attempts db !! (ma_request_id marker, ma_attempt_id marker));
  Ok (marker, row).
(** repository/server_sqlite/value_quota.rs:208-210 [trial_available_in_tx]: the floor a settlement left *)
Definition marker_floor (m : MarketTrialAttempt) : result QuotaError Z :=
  lift (unsigned_decimal (default "0" (ma_settled_floor_picos m))).
(** repository/server_sqlite/value_quota.rs:194-226 [trial_available_in_tx]: one attempt of the trial *)
Definition add_trial_attempt (db : Database) (scope : Scope) (trial : MarketTrialBudget) (t : TrialTotals)
    (raw : string) : result QuotaError TrialTotals :=
  '(marker, row) ← trial_row db raw;
  s ← ok_or (Message "scope does not parse") (from_json (a_scope row));
  _ ← fail_if (negb (str_eqb (sc_router_url s) (sc_router_url scope)
        && str_eqb (sc_installation_id s) (sc_installation_id scope)
        && str_eqb (sc_share_id s) (sc_share_id scope) && str_eqb (sc_email s) (sc_email scope)
        && bool_decide (sc_entitlement_id s = Some (ma_entitlement_id marker))))
        (Message "VALUE_QUOTA_USAGE_SCOPE_CONFLICT");
  _ ← fail_if (str_eqb (a_metering_status row) "unavailable") (Rejected Blocked None);
  used ← lift (unsigned_decimal (a_usage_picos row));
  floor ← marker_floor marker;
  let used := Z.max used floor in
  risk ← lift (unsigned_decimal (a_pending_risk_picos row));
  scope_spent ← add_i128 (tt_scope_spent t) used;
  scope_pending ← add_i128 (tt_scope_pending t) risk;
  if str_eqb (ma_entitlement_id marker) (tb_entitlement_id trial) then
    spent ← add_i128 (tt_spent t) used;
    pending ← add_i128 (tt_pending t) risk;
    Ok (mk_totals scope_spent scope_pending spent pending)
  else Ok (mk_totals scope_spent scope_pending (tt_spent t) (tt_pending t)).
(** repository/server_sqlite/value_quota.rs:239-252 [trial_available_in_tx]: what one of the two caps leaves *)
Definition trial_cap (remaining : Z) (cap : string * Z * Z) : result QuotaError Z :=
  let '(limit, spent, pending) := cap in
  limit ← lift (unsigned_decimal limit);
  limit ← ok_or OVERFLOW (checked_i128 (limit * PICOS_PER_MICRO));
  _ ← fail_if (limit <=? spent) (Rejected Exhausted None);
  left_over ← ok_or OVERFLOW (checked_i128 (limit - spent) ≫= λ v, checked_i128 (v - pending));
  Ok (Z.min remaining left_over).
(** repository/server_sqlite/value_quota.rs:169-257 [trial_available_in_tx] *)
Definition trial_available_in_tx (db : Database) (scope : Scope) (trial : MarketTrialBudget) : result QuotaError Z :=
  t ← try_fold (add_trial_attempt db scope trial) (mk_totals 0 0 0 0)
        (trial_markers db (trial_attempt_prefix scope trial));
  used ← lift (unsigned_decimal (tb_used_picos trial));
  scope_used ← lift (unsigned_decimal (tb_scope_used_picos trial));
  remaining ← try_fold trial_cap I128_MAX
    [(tb_limit_micros trial, Z.max (tt_spent t) used, tt_pending t);
     (tb_allowance_micros trial, Z.max (tt_scope_spent t) scope_used, tt_scope_pending t)];
  _ ← fail_if (remaining <=? 0) (Rejected Busy None);
  Ok remaining.

(** ** Admission *)
(** repository/server_sqlite/value_quota.rs:1273-1278 [in_flight] *)
Definition in_flight (db : Database) (key : string) (w : Window) : Z :=
  Z.of_nat (length (filter (λ a, str_eqb (a_metering_status a) "pending"
    && in_span (metered_start_ms w) (w_ends_at_ms w) (a_started_at_ms a)) (scope_attempts db key))).
(** repository/server_sqlite/value_quota.rs:1245-1291 [reserved], the reservation of an enforced admission *)
Definition reserve_in_tx (db : Database) (a : Admission) (trial : option MarketTrialBudget) (key : string)
    (model : ExecutionModelPrice) : result QuotaError Z :=
  if negb (ad_enforce a) then Ok 0 else
  current ← status_in_tx db (ad_scope a) (ad_window a);
  _ ← fail_if (str_eqb (qs_metering_status current) "blocked") (Rejected Blocked None);
  spent ← lift (unsigned_decimal (qs_used_picos current));
  pending ← lift (unsigned_decimal (qs_pending_risk_picos current));
  limit ← lift (limit_picos (ad_quota a));
  _ ← fail_if (limit <=? spent) (Rejected Exhausted (w_ends_at_ms (ad_window a)));
  available ← ok_or OVERFLOW (checked_i128 (limit - spent) ≫= λ v, checked_i128 (v - pending));
  _ ← fail_if (available <=? 0) (Rejected Busy None);
  available ← match trial with
              | Some t => left_over ← trial_available_in_tx db (ad_scope a) t; Ok (Z.min available left_over)
              | None => Ok available
              end;
  _ ← fail_if (saturate 1 4 (ad_parallel_limit a) <=? in_flight db key (ad_window a)) (Rejected Busy None);
  Ok (saturate 0 available
        (default available (usage_picos <$> to_ok (model_price model (ad_effective_tier a)
           (estimate_tokens (ad_estimate a)))))).
(** repository/server_sqlite/value_quota.rs:1318-1322 [admit_with_trial_in_tx]: the key of the marker of a trial attempt *)
Definition trial_marker_key (a : Admission) (t : MarketTrialBudget) : string :=
  trial_attempt_prefix (ad_scope a) t +:+ to_json (ad_request_id a, ad_attempt_id a).
(** repository/server_sqlite/value_quota.rs:1311-1331 [admit_with_trial_in_tx]: the markers of a trial attempt *)
Definition mark_trial (db : Database) (a : Admission) (trial : option MarketTrialBudget) : result QuotaError Database :=
  match trial with
  | None => Ok db
  | Some t =>
      let marker := mk_trial_attempt (ad_request_id a) (ad_attempt_id a) (tb_entitlement_id t) (Some "0") in
      db ← insert_meta db (trial_marker_key a t) (to_json marker);
      insert_meta db (trial_index_key (ad_request_id a) (ad_attempt_id a)) (trial_marker_key a t)
  end.
(** repository/server_sqlite/value_quota.rs:1345-1372 [admit_with_trial_in_tx]: an earlier coverage gap of the
    request gives way to its attempt *)
Definition supersede_gap (db : Database) (key request_id : string) : result QuotaError Database :=
  match gaps db !! (key, request_id) with
  | None => Ok db
  | Some g =>
      _ ← column_u64 (g_watermark g);
      db ← update_checkpoint db key (g_started_at_ms g) (Some (gap_contribution g)) None;
      Ok (set_gaps (delete (key, request_id) (gaps db)) db)
  end.
(** repository/server_sqlite/value_quota.rs:1293-1300 [admit_with_trial_in_tx]: the row of a new attempt *)
Definition new_attempt (a : Admission) (key : string) (model : ExecutionModelPrice) (risk watermark : Z) : AttemptRow :=
  mk_attempt_row key (ad_policy_epoch a) (w_id (ad_window a)) (ad_started_at_ms a) (ad_pricing_revision a)
    (ad_effective_model a) (ad_effective_tier a) (to_json model) 0 "0" (pretty risk) "pending" None None watermark.
(** repository/server_sqlite/value_quota.rs:1292-1372 [admit_with_trial_in_tx]: the rows of a new attempt *)
Definition insert_admitted (db : Database) (a : Admission) (trial : option MarketTrialBudget) (key : string)
    (model : ExecutionModelPrice) (risk : Z) : result QuotaError Database :=
  '(db, watermark) ← next_watermark db;
  let row := new_attempt a key model risk watermark in
  db ← write_attempt db (ad_request_id a, ad_attempt_id a) row;
  let db := set_meta (<[attempt_meta_key (ad_request_id a) (ad_attempt_id a) :=
      to_json (mk_meta (input_tokens (ad_estimate a)) (output_tokens (ad_estimate a)) (pretty risk))]>
      (meta db)) db in
  db ← mark_trial db a trial;
  _ ← column_u64 watermark;
  db ← update_checkpoint db key (ad_started_at_ms a) None (Some (attempt_contribution row));
  supersede_gap db key (ad_request_id a).
(** repository/server_sqlite/value_quota.rs:1214-1244 [admit_with_trial_in_tx]: a replay of an admitted attempt *)
Definition replay_admission (db : Database) (a : Admission) (trial : option MarketTrialBudget) (key : string)
    (old : AttemptRow) : result QuotaError Z :=
  _ ← fail_if (negb (str_eqb (a_scope old) key && str_eqb (a_pricing_revision old) (ad_pricing_revision a)
        && str_eqb (a_effective_model old) (ad_effective_model a)
        && str_eqb (a_effective_tier old) (ad_effective_tier a)
        && str_eqb (a_window_id old) (w_id (ad_window a)) && (a_started_at_ms old =? ad_started_at_ms a)))
        (Message "VALUE_QUOTA_REQUEST_IDENTITY_CONFLICT");
  _ ← fail_if (from_option (λ t, negb (bool_decide (is_Some (meta db !! trial_marker_key a t)))) false trial)
        (Message "VALUE_QUOTA_TRIAL_IDENTITY_CONFLICT");
  Ok (from_option reserved 0 (read_attempt_meta db (ad_request_id a) (ad_attempt_id a))).
(** repository/server_sqlite/value_quota.rs:1149-1167 [admit_with_trial_in_tx]: the checks of an admission *)
Definition admission_key (a : Admission) (trial : option MarketTrialBudget) : result QuotaError string :=
  _ ← window_validate (ad_window a);
  _ ← fail_if (is_empty (ad_policy_epoch a) || is_empty (ad_request_id a) || is_empty (ad_attempt_id a))
        (Message "invalid admission identity");
  _ ← fail_if (negb (in_span (metered_start_ms (ad_window a)) (w_ends_at_ms (ad_window a)) (ad_started_at_ms a)))
        (Message "VALUE_QUOTA_WINDOW_CONFLICT");
  key ← scope_key (ad_scope a);
  _ ← fail_if (from_option (λ t, negb (ad_enforce a && negb (is_empty (tb_scope_id t))
        && bool_decide (sc_entitlement_id (ad_scope a) = Some (tb_entitlement_id t)))) false trial)
        (Message "VALUE_QUOTA_TRIAL_IDENTITY_CONFLICT");
  Ok key.
(** repository/server_sqlite/value_quota.rs:1144-1376 [admit_with_trial_in_tx] *)
Definition admit_with_trial_in_tx (db : Database) (a : Admission) (trial : option MarketTrialBudget) :
    result QuotaError (Database * Z) :=
  key ← admission_key a trial;
  s ← read_snapshot db (sc_router_url (ad_scope a)) (sc_installation_id (ad_scope a)) (ad_pricing_revision a);
  let refuse reason := Unpriced (price_rejection db (ad_scope a) (ad_pricing_revision a) (ad_effective_model a)
    (ad_effective_tier a) reason) in
  model ← ok_or (refuse "model_unpriced") (to_ok (snapshot_model s (ad_effective_model a)));
  _ ← fail_if (negb (supports_tier model (ad_effective_tier a))) (refuse "tier_unpriced");
  match attempts db !! (ad_request_id a, ad_attempt_id a) with
  | Some old => r ← replay_admission db a trial key old; Ok (db, r)
  | None =>
      r ← reserve_in_tx db a trial key model;
      db ← insert_admitted db a trial key model r;
      Ok (db, r)
  end.
(** repository/server_sqlite/value_quota.rs:444-449 [restore_fence_blocks] *)
Definition restore_fence_blocks (fence : gmap string Z) (scope : Scope) (w : Window) : result QuotaError bool :=
  key ← scope_key scope;
  Ok (from_option (λ at_ms, metered_start_ms w <? at_ms) false (fence !! key)).
(** repository/server_sqlite/value_quota.rs:1117-1138 [admit_with_market_trial] *)
Definition admit_with_market_trial (db : Database) (fence : gmap string Z) (input : Admission)
    (trial : option MarketTrialBudget) (now : Z) : result QuotaError (Database * Z) :=
  _ ← if ad_enforce input then
        fenced ← restore_fence_blocks fence (ad_scope input) (ad_window input);
        fail_if fenced (Rejected Blocked None)
      else Ok ();
  '(db, rev) ← admission_revision db input now;
  admit_with_trial_in_tx db
    (mk_admission (ad_enforce input) (ad_scope input) (ad_window input) (ad_policy_epoch input) (ad_quota input) rev
       (ad_request_id input) (ad_attempt_id input) (ad_effective_model input) (ad_effective_tier input)
       (ad_started_at_ms input) (ad_estimate input) (ad_parallel_limit input)) trial.
(** repository/server_sqlite/value_quota.rs:1094-1112 [status] *)
Definition status (db : Database) (fence : gmap string Z) (scope : Scope) (w : Window) : result QuotaError QuotaStatus :=
  fenced ← restore_fence_blocks fence scope w;
  s ← status_in_tx db scope w;
  Ok (if fenced : bool then mk_status (qs_observed_picos s) (qs_manual_offset_picos s) (qs_used_picos s)
        (qs_pending_risk_picos s) "blocked" (qs_usage_watermark s) (qs_usage_pricing_revisions_digest s) else s).
End admission.
