(* ===== verification/ValueSettlement.v ===== *)
(** * Settlement of the USD ledger ([src/repository/server_sqlite/value_quota.rs])

    How a usage log is classified for the attempt it describes, and what an observation or a guessed outcome
    writes: the amount, the state and the risk left, with the revision that decides which evidence stands. *)
From S2P Require Import Prelude MapSum RustStr Json ModelIdentity ValuePricing ValueTables.
From S2P Require Import ValueAdmission.
From Stdlib Require Import ZArith Lia.

Local Open Scope Z_scope.

(** ** Usage logs *)
(** domain/usage/store.rs:626-634 [UsageState] *)
Inductive UsageState : Type := UPending | UObserved | UMissing | UParseError | UInterrupted | UNotApplicable.
#[global] Instance UsageState_eq_dec : EqDecision UsageState.
Proof. solve_decision. Defined.
(** domain/usage/store.rs:41-46 [RequestKind] *)
Inductive RequestKind : Type := Text | Image | Video.
#[global] Instance RequestKind_eq_dec : EqDecision RequestKind.
Proof. solve_decision. Defined.
(** domain/usage/store.rs:1400-1403 [CacheCreationDetails] *)
Record CacheCreationDetails := mk_details { five_minutes : Z; one_hour : Z }.
(** domain/usage/store.rs:244-388 [UsageLog]: the fields a settlement reads *)
Record UsageLog := mk_log {
  l_request_id : string; l_request_kind : RequestKind; l_profile_id : option string;
  l_model : option string; l_actual_model : option string;
  l_reported_model : option string; l_reported_model_mismatch : option bool;
  l_reported_model_conflict : option bool;
  l_reported_service_tier : option string; l_reported_service_tier_conflict : option bool;
  l_effective_service_tier : option string;
  l_status_code : Z; l_failure_kind : option string; l_attempt_count : Z;
  l_raw_input_tokens : option Z; l_input_tokens : option Z; l_output_tokens : option Z;
  l_cache_read_tokens : option Z; l_cache_creation_tokens : option Z;
  l_cache_creation_details : option CacheCreationDetails; l_total_tokens : option Z;
  l_share_id : option string; l_user_email : option string;
  l_is_health_check : bool; l_is_streaming : bool; l_stream_status : option string;
  l_usage_state : UsageState; l_usage_revision : Z; l_usage_estimated : bool;
  l_value_streamed_text_bytes : option Z;
}.
(** domain/usage/store.rs:417-423 [processed_tokens] *)
Definition processed_tokens (l : UsageLog) : Z :=
  let part o := default 0 o in
  sat_u64 (sat_u64 (sat_u64 (part (l_input_tokens l) + part (l_output_tokens l)) + part (l_cache_read_tokens l))
    + part (l_cache_creation_tokens l)).
(** repository/server_sqlite/value_quota.rs:1703-1708 [in_progress_log] *)
Definition in_progress_log (l : UsageLog) : bool :=
  bool_decide (l_usage_state l = UPending)
  || (l_is_streaming l && from_option (one_of ["pending"; "streaming"]) false (l_stream_status l)).
(** repository/server_sqlite/value_quota.rs:1710-1734 [partial_tokens] *)
Definition partial_tokens (l : UsageLog) (m : option AttemptMeta) : ValueTokens :=
  let cache := default 0 (l_cache_creation_tokens l) in
  let '(w5, w1, unknown) := match l_cache_creation_details l with
    | Some d => if bool_decide (checked_u64 (five_minutes d + one_hour d) = Some cache)
                then (five_minutes d, one_hour d, 0) else (0, 0, cache)
    | None => (0, 0, cache)
    end in
  let ceiling := from_option (λ m, Z.max (am_output_tokens m) 1) MAX_OUTPUT_CEILING m in
  let streamed := (default 0 (l_value_streamed_text_bytes l) + 2) / 3 in
  mk_tokens (default 0 (or_else (l_input_tokens l) (am_input_tokens <$> m)))
    (Z.min (Z.max (default 0 (l_output_tokens l)) streamed) ceiling)
    (default 0 (l_cache_read_tokens l)) w5 w1 unknown.
(** repository/server_sqlite/value_quota.rs:1895-1922 [tokens_for_log] *)
Definition tokens_for_log (l : UsageLog) : option ValueTokens :=
  fresh ← l_input_tokens l;
  out ← l_output_tokens l;
  let cache := default 0 (l_cache_creation_tokens l) in
  '(w5, w1, unknown) ← match l_cache_creation_details l with
    | Some d =>
        sum ← checked_u64 (five_minutes d + one_hour d);
        if sum =? cache then Some (five_minutes d, one_hour d, 0) else None
    | None => Some (0, 0, cache)
    end;
  let tokens := mk_tokens fresh out (default 0 (l_cache_read_tokens l)) w5 w1 unknown in
  if from_option (λ raw, negb (bool_decide (to_ok (raw_input tokens) = Some raw))) false (l_raw_input_tokens l)
  then None else Some tokens.

(** ** Outcomes *)
(** repository/server_sqlite/value_quota.rs:1381-1396 [ObservedOutcome] *)
Inductive ObservedOutcome : Type := InProgress | Final | FinalConservative | Free | Interrupted | UnknownOutcome.
#[global] Instance ObservedOutcome_eq_dec : EqDecision ObservedOutcome.
Proof. solve_decision. Defined.
(** repository/server_sqlite/value_quota.rs:1398-1400 [terminal] *)
Definition terminal (o : ObservedOutcome) : bool := negb (bool_decide (o = InProgress)).
(** repository/server_sqlite/value_quota.rs:2173-2181 [AttemptOutcome] *)
Inductive AttemptOutcome : Type := NotSent | UpstreamError | Unknown.
(** repository/server_sqlite/value_quota.rs:1403-1420 [Observation] *)
Record Observation := mk_observation {
  o_request_id : string; o_attempt_id : string; o_scope : Scope; o_usage_revision : Z;
  o_effective_model : string; o_effective_tier : string; o_reported_model : option string;
  o_observed_tier : option string; o_tokens : option ValueTokens; o_outcome : ObservedOutcome;
  o_synthetic : bool;
}.
Definition no_tokens (t : ValueTokens) : bool :=
  (fresh_input t =? 0) && (output t =? 0) && (cache_read t =? 0) && (cache_write5m t =? 0)
  && (cache_write1h t =? 0) && (cache_write_unknown t =? 0).
(** repository/server_sqlite/value_quota.rs:1744-1757 [evidence_ok] *)
Definition evidence_ok (l : UsageLog) (model : string) : bool :=
  let actual := or_else (l_actual_model l) (l_model l) in
  let missing_workbuddy := from_option (ends_with ".workbuddy_oauth") false (l_profile_id l)
    && bool_decide (l_reported_model l = None) in
  bool_decide (actual = Some model) && negb missing_workbuddy
  && negb (default false (l_reported_model_mismatch l)) && negb (default false (l_reported_model_conflict l))
  && negb (default false (l_reported_service_tier_conflict l))
  && negb (bool_decide (l_usage_state l = UParseError)) && bool_decide (l_request_kind l = Text)
  && negb (l_is_health_check l).
(** repository/server_sqlite/value_quota.rs:1736-1816 [classify_log] *)
Definition classify_log (l : UsageLog) (model admitted_tier : string) (m : option AttemptMeta) (force_terminal : bool) :
    ObservedOutcome * option ValueTokens * option string :=
  let ok := evidence_ok l model in
  let tokens := if l_usage_estimated l then None else tokens_for_log l in
  let has_usage := from_option (λ t, negb (no_tokens t)) false tokens || (0 <? processed_tokens l)
    || (0 <? default 0 (l_raw_input_tokens l)) || (0 <? default 0 (l_total_tokens l)) in
  let uncertain := or_else tokens
    (if negb (l_usage_estimated l) && has_usage then Some (partial_tokens l m) else None) in
  let tier := canonical_service_tier (or_else (l_reported_service_tier l) (l_effective_service_tier l)) in
  let observed_tier := match tier with
    | Some t => if str_eqb t admitted_tier then None else Some t
    | None => None
    end in
  if in_progress_log l && negb force_terminal then (InProgress, if ok then tokens else None, None)
  else if (400 <=? l_status_code l) && negb has_usage && (default 0 (l_value_streamed_text_bytes l) =? 0)
          && negb (bool_decide (l_failure_kind l = Some "upstream_outcome_unknown"))
  then (Free, None, None)
  else if negb ok || bool_decide (tier = None) then (UnknownOutcome, uncertain, observed_tier)
  else
    let completed := if l_is_streaming l then bool_decide (l_stream_status l = Some "completed")
      else negb (in_progress_log l) in
    if completed && (((200 <=? l_status_code l) && (l_status_code l <? 300)) || has_usage) then
      match tokens with
      | Some t =>
          if (1 <? l_attempt_count l) || bool_decide (is_Some observed_tier)
          then (FinalConservative, Some t, observed_tier) else (Final, Some t, None)
      | None => (UnknownOutcome, uncertain, observed_tier)
      end
    else if l_is_streaming l then (Interrupted, Some (partial_tokens l m), observed_tier)
    else (UnknownOutcome, uncertain, observed_tier).

Section settlement.
Context `{!Digest, !Serde Scope, !Serde Checkpoint, !Serde AdjustmentPayload, !Serde (list string)}.
Context `{!Serde (string * string), !Serde (Scope * string), !Serde AttemptMeta, !Serde MarketTrialAttempt}.
Context `{!Serde PricingSnapshot, !Serde ExecutionModelPrice, !Serde PendingTariff}.
(** The JSON of an observation, and of a guessed outcome with its revision and amount; only digests of them are
    compared. *)
Context (observation_json : Observation → string).
Context (outcome_json : string → string → Z → AttemptOutcome → string → string).

(** ** Writing a settlement *)
(** repository/server_sqlite/value_quota.rs:1984-1984 [write_settlement] *)
Definition settled_state (state : string) : bool := one_of ["observed"; "conservative"] state.
(** repository/server_sqlite/value_quota.rs:2197-2197 [settle_outcome_in_tx] *)
Definition unsettled_state (state : string) : bool := one_of ["pending"; "unavailable"] state.
(** repository/server_sqlite/value_quota.rs:1984-1999 [write_settlement]: a trial keeps the highest amount *)
Definition raise_trial_floor (db : Database) (id : string * string) (old : AttemptRow) (amount : Z) :
    result QuotaError Database :=
  found ← read_trial_attempt db id.1 id.2;
  match found with
  | None => Ok db
  | Some (key, marker) =>
      scope ← ok_or (Message "scope does not parse") (from_json (a_scope old));
      _ ← fail_if (negb (bool_decide (sc_entitlement_id scope = Some (ma_entitlement_id marker))))
            (Message "VALUE_QUOTA_USAGE_SCOPE_CONFLICT");
      floor ← marker_floor marker;
      let marker := mk_trial_attempt (ma_request_id marker) (ma_attempt_id marker) (ma_entitlement_id marker)
        (Some (pretty (Z.max floor amount))) in
      Ok (set_meta (<[key := to_json marker]> (meta db)) db)
  end.
(** repository/server_sqlite/value_quota.rs:2002-2005 [write_settlement]: INSERT OR REPLACE, with a unique
    watermark *)
Definition put_revision (db : Database) (id : string * string) (rev : Z) (r : RevisionRow) : result QuotaError Database :=
  _ ← fail_if ((rev <? 0) || (rv_watermark r <=? 0)) Constraint;
  Ok (set_revisions (<[(id, rev) := r]> (filter (λ e, rv_watermark e.2 ≠ rv_watermark r) (revisions db))) db).
(** repository/server_sqlite/value_quota.rs:2032-2032 [write_settlement]: DELETE of the older revisions *)
Definition drop_revisions_before (db : Database) (id : string * string) (rev : Z) : Database :=
  set_revisions (filter (λ e, ¬ (e.1.1 = id ∧ e.1.2 < rev)) (revisions db)) db.
(** repository/server_sqlite/value_quota.rs:2006-2011 [write_settlement]: the row after its UPDATE *)
Definition settled_attempt (old : AttemptRow) (rev : Z) (digest : string) (amount : Z) (state : string)
    (risk watermark : Z) : AttemptRow :=
  mk_attempt_row (a_scope old) (a_policy_epoch old) (a_window_id old) (a_started_at_ms old)
    (a_pricing_revision old) (a_effective_model old) (a_effective_tier old) (a_frozen_tariff_json old)
    rev (pretty amount) (pretty risk) state (Some digest) (a_compacted_at_ms old) watermark.
(** repository/server_sqlite/value_quota.rs:1968-2035 [write_settlement] *)
Definition write_settlement (db : Database) (id : string * string) (old : AttemptRow) (rev : Z)
    (digest observation : string) (amount : Z) (state : string) (risk : Z) : result QuotaError Database :=
  db ← if settled_state state then raise_trial_floor db id old amount else Ok db;
  '(db, watermark) ← next_watermark db;
  db ← put_revision db id rev (mk_revision digest observation (pretty amount) state watermark);
  let new := settled_attempt old rev digest amount state risk watermark in
  db ← write_attempt db id new;
  _ ← column_u64 watermark;
  db ← update_checkpoint db (a_scope old) (a_started_at_ms old)
    (Some (mk_contribution (a_usage_picos old) (a_pending_risk_picos old) (a_metering_status old)
       (Some (a_pricing_revision old)) 0))
    (Some (attempt_contribution new));
  Ok (if bool_decide (is_Some (a_compacted_at_ms old)) && settled_state state
      then drop_revisions_before db id rev else db).

(** ** Observations *)
(** repository/server_sqlite/value_quota.rs:2045-2049 [digest] *)
Definition observation_digest (o : Observation) : string :=
  (if o_synthetic o then "synthetic:" else "") +:+ sha256_hex (observation_json o).
(** repository/server_sqlite/value_quota.rs:2061-2061 [settle_in_tx] *)
Definition is_synthetic (digest : string) : bool := starts_with "synthetic:" digest.
(** repository/server_sqlite/value_quota.rs:2050-2072 [settle_in_tx]: does the observation change the row? *)
Definition takes_effect (old : AttemptRow) (o : Observation) : bool :=
  if o_usage_revision o <? a_usage_revision old then false
  else if o_usage_revision o =? a_usage_revision old then
    match a_observation_sha256 old with
    | None => true
    | Some previous =>
        if str_eqb previous (observation_digest o) then false
        else if o_synthetic o then unsettled_state (a_metering_status old)
        else is_synthetic previous || (str_eqb (a_metering_status old) "pending" && terminal (o_outcome o))
    end
  else true.
(** repository/server_sqlite/value_quota.rs:2073-2084 [tariff]: the frozen price of the attempt *)
Definition frozen_tariff (db : Database) (old : AttemptRow) (effective_model : string) :
    result QuotaError (PricingSnapshot * ExecutionModelPrice) :=
  scope ← ok_or (Message "scope does not parse") (from_json (a_scope old));
  snapshot ← read_snapshot db (sc_router_url scope) (sc_installation_id scope) (a_pricing_revision old);
  tariff ← (if bool_decide (is_Some (a_compacted_at_ms old)) then
              _ ← fail_if (negb (str_eqb (a_frozen_tariff_json old) "null"))
                    (Message "VALUE_QUOTA_COMPACTED_TARIFF_CORRUPT");
              lift (snapshot_model snapshot effective_model)
            else ok_or (Message "tariff does not parse") (from_json (a_frozen_tariff_json old)));
  model ← lift (snapshot_model snapshot effective_model);
  _ ← fail_if (negb (bool_decide (model = tariff))) (Message "VALUE_QUOTA_FROZEN_TARIFF_CORRUPT");
  Ok (snapshot, tariff).
(** repository/server_sqlite/value_quota.rs:2085-2094 [reported_matches] *)
Definition reported_matches (s : PricingSnapshot) (o : Observation) : bool :=
  let canonical model := default model (exact_aliases s !! model) in
  from_option (λ reported, str_eqb (canonical reported) (canonical (o_effective_model o))) true (o_reported_model o).
(** repository/server_sqlite/value_quota.rs:2099-2103 [price] *)
Definition price_at (tariff : ExecutionModelPrice) (o : Observation) (tier : string) : option PricedValue :=
  o_tokens o ≫= λ t, to_ok (model_price tariff tier t).
(** repository/server_sqlite/value_quota.rs:2104-2110 [unknown] *)
Definition unknown_amount (tariff : ExecutionModelPrice) (o : Observation) (pending : bool) (old_amount reserved : Z) : Z :=
  let priced := Z.max (from_option usage_picos 0 (price_at tariff o (o_effective_tier o)))
    (from_option usage_picos 0 (o_observed_tier o ≫= price_at tariff o)) in
  Z.max (Z.max priced reserved) (if pending then old_amount else 0).
(** repository/server_sqlite/value_quota.rs:2111-2146 [settle_in_tx]: the amount and the state *)
Definition settled_value (s : PricingSnapshot) (tariff : ExecutionModelPrice) (o : Observation) (pending : bool)
    (old_amount reserved : Z) : Z * string :=
  let unknown := (unknown_amount tariff o pending old_amount reserved, "conservative") in
  match o_outcome o with
  | InProgress => (from_option usage_picos old_amount (price_at tariff o (o_effective_tier o)), "pending")
  | Free => (0, "observed")
  | Final | FinalConservative | Interrupted =>
      if negb (reported_matches s o) then unknown
      else match price_at tariff o (o_effective_tier o) with
      | None => unknown
      | Some priced =>
          let conservative := conservative_cache_ttl priced || negb (bool_decide (o_outcome o = Final)) in
          let other := match o_observed_tier o with
            | Some t => if str_eqb t (o_effective_tier o) then None else Some t
            | None => None
            end in
          match other with
          | Some t => (Z.max (usage_picos priced) (from_option usage_picos (usage_picos priced) (price_at tariff o t)),
                       "conservative")
          | None => (usage_picos priced, if conservative then "conservative" else "observed")
          end
      end
  | UnknownOutcome => unknown
  end.
(** repository/server_sqlite/value_quota.rs:2147-2155 [risk] *)
Definition risk_left (old_risk old_amount amount : Z) (state : string) : result QuotaError Z :=
  if str_eqb state "pending" then
    r ← ok_or (Message "value quota risk overflow")
          (checked_i128 (old_risk + old_amount) ≫= λ v, checked_i128 (v - amount));
    Ok (Z.max r 0)
  else Ok 0.
(** repository/server_sqlite/value_quota.rs:2036-2169 [settle_in_tx] *)
Definition settle_in_tx (db : Database) (o : Observation) : result QuotaError (Database * bool) :=
  let id := (o_request_id o, o_attempt_id o) in
  old ← ok_or (Message "VALUE_QUOTA_ATTEMPT_UNKNOWN") (attempts db !! id);
  key ← scope_key (o_scope o);
  _ ← fail_if (negb (str_eqb (a_scope old) key && str_eqb (a_effective_model old) (o_effective_model o)
        && str_eqb (a_effective_tier old) (o_effective_tier o))) (Message "VALUE_QUOTA_OBSERVATION_SCOPE_CONFLICT");
  rev ← ok_or (Message "out of range integral type conversion attempted") (checked_i64 (o_usage_revision o));
  if negb (takes_effect old o) then Ok (db, false) else
  '(snapshot, tariff) ← frozen_tariff db old (o_effective_model o);
  let reserved := from_option reserved 0 (read_attempt_meta db id.1 id.2) in
  old_amount ← lift (unsigned_decimal (a_usage_picos old));
  let '(amount, state) := settled_value snapshot tariff o (str_eqb (a_metering_status old) "pending")
    old_amount reserved in
  old_risk ← (if str_eqb state "pending" then lift (unsigned_decimal (a_pending_risk_picos old)) else Ok 0);
  risk ← risk_left old_risk old_amount amount state;
  db ← write_settlement db id old rev (observation_digest o) (observation_json o) amount state risk;
  Ok (db, true).
(** repository/server_sqlite/value_quota.rs:2187-2226 [settle_outcome_in_tx] *)
Definition settle_outcome_in_tx (db : Database) (request_id attempt_id : string) (outcome : AttemptOutcome)
    (only_unobserved : bool) : result QuotaError (Database * bool) :=
  let id := (request_id, attempt_id) in
  match attempts db !! id with
  | None => Ok (db, false)
  | Some old =>
      if negb (unsettled_state (a_metering_status old))
         || (only_unobserved && (negb (a_usage_revision old =? 0) || bool_decide (is_Some (a_observation_sha256 old))))
      then Ok (db, false)
      else
        let reserved := from_option reserved 0 (read_attempt_meta db request_id attempt_id) in
        '(amount, state) ← match outcome with
          | NotSent | UpstreamError => Ok (0, "observed")
          | Unknown =>
              old_amount ← lift (unsigned_decimal (a_usage_picos old));
              Ok (Z.max reserved old_amount, "conservative")
          end;
        let text := outcome_json request_id attempt_id (a_usage_revision old) outcome (pretty amount) in
        db ← write_settlement db id old (a_usage_revision old) ("synthetic:" +:+ sha256_hex text) text amount state 0;
        Ok (db, true)
  end.
End settlement.
