(* ===== verification/ValueMaintenance.v ===== *)
(** * Operations over the USD ledger ([src/repository/server_sqlite/value_quota.rs])

    Settlement from a usage log and in isolation, the sweeper, the compaction of old history, the owner's
    adjustments with the reconcile, the acknowledgement of a projection, and coverage. *)
From S2P Require Import Prelude MapSum RustStr Json ModelIdentity ValuePricing ValueTables.
From S2P Require Import ValueAdmission ValueSettlement.
From Stdlib Require Import ZArith Lia.

Local Open Scope Z_scope.

(** repository/server_sqlite/value_quota.rs:2467-2472 [SweepReport] *)
Record SweepReport := mk_sweep { sw_from_usage_log : Z; sw_outcome_unknown : Z; sw_blocked : Z }.
(** repository/server_sqlite/value_quota.rs:1421-1426 [Adjustment] *)
Record Adjustment := mk_adjustment_request {
  d_scope : Scope; d_window : Window; d_grant_revision : Z; d_edit : ValueUsageEdit;
}.
(** What a blocked window records: the reason, and the watermark of the Router when it is ahead. *)
Record RouterBlock := mk_block { bl_reason : string; bl_router_watermark : Z }.
(** repository/server_sqlite/value_quota.rs:275-275 [ROUTER_AHEAD_REASON] *)
Definition ROUTER_AHEAD_REASON : string := "router_watermark_ahead_of_authority".
(** repository/server_sqlite/value_quota.rs:273-273 [LEGACY_DEGRADED_META] *)
Definition LEGACY_DEGRADED_META : string := "value_quota_degraded_v1".
(** repository/server_sqlite/value_quota.rs:2348-2348 [SWEEP_CANDIDATE_LIMIT] *)
Definition SWEEP_CANDIDATE_LIMIT : nat := 400.

(** ORDER BY started_at_ms, request_id, attempt_id; the sweeper leaves the order of equal times open. *)
Definition started_le (p q : (string * string) * AttemptRow) : Prop :=
  a_started_at_ms p.2 < a_started_at_ms q.2 ∨
  a_started_at_ms p.2 = a_started_at_ms q.2 ∧
    (p.1.1 ≠ q.1.1 ∧ String.le p.1.1 q.1.1 ∨ p.1.1 = q.1.1 ∧ String.le p.1.2 q.1.2).
#[global] Instance started_le_dec : RelDecision started_le.
Proof. intros p q. unfold started_le. apply _. Defined.
Definition oldest (n : nat) (rows : list ((string * string) * AttemptRow)) : list ((string * string) * AttemptRow) :=
  take n (merge_sort started_le rows).

Section maintenance.
Context `{!Digest, !Serde Scope, !Serde Checkpoint, !Serde AdjustmentPayload, !Serde (list string)}.
Context `{!Serde (string * string), !Serde (Scope * string), !Serde AttemptMeta, !Serde MarketTrialAttempt}.
Context `{!Serde PricingSnapshot, !Serde ExecutionModelPrice, !Serde PendingTariff, !Serde RouterBlock}.
Context (observation_json : Observation → string).
Context (outcome_json : string → string → Z → AttemptOutcome → string → string).

(** ** Settlement from a usage log *)
(** repository/server_sqlite/value_quota.rs:1848-1848 [settle_log_in_tx] *)
Definition log_attempt (l : UsageLog) : string := pretty (Z.max (l_attempt_count l) 1).
(** repository/server_sqlite/value_quota.rs:1826-1894 [settle_log_in_tx] *)
Definition settle_log_in_tx (db : Database) (l : UsageLog) (force_terminal : bool) : result QuotaError (Database * bool) :=
  let attempt := log_attempt l in
  match attempts db !! (l_request_id l, attempt) with
  | None => Ok (db, false)
  | Some row =>
      scope ← ok_or (Message "scope does not parse") (from_json (a_scope row));
      _ ← fail_if (negb (bool_decide (l_share_id l = Some (sc_share_id scope))
            && from_option (λ e, eq_ignore_ascii_case e (sc_email scope)) false (l_user_email l)))
            (Message "VALUE_QUOTA_USAGE_SCOPE_CONFLICT");
      let m := read_attempt_meta db (l_request_id l) attempt in
      let '(outcome, tokens, observed_tier) :=
        classify_log l (a_effective_model row) (a_effective_tier row) m force_terminal in
      rev ← ok_or (Message "value usage revision overflow") (checked_u64 (l_usage_revision l + 1));
      rev ← (if force_terminal : bool then old ← column_u64 (a_usage_revision row); Ok (Z.max rev old) else Ok rev);
      settle_in_tx observation_json db
        (mk_observation (l_request_id l) attempt scope rev (a_effective_model row) (a_effective_tier row)
           (l_reported_model l) observed_tier tokens outcome force_terminal)
  end.
(** repository/server_sqlite/value_quota.rs:1691-1695 [settle_usage_log_isolated]: ON CONFLICT(key) DO NOTHING *)
Definition block_window (db : Database) (scope window_id : string) : Database :=
  match meta db !! block_key scope window_id with
  | Some _ => db
  | None => set_meta (<[block_key scope window_id := "settlement_requires_reconcile"]> (meta db)) db
  end.
(** repository/server_sqlite/value_quota.rs:1670-1702 [settle_usage_log_isolated]: an error rolls back to the
    savepoint *)
Definition settle_usage_log_isolated (db : Database) (l : UsageLog) : Database :=
  match settle_log_in_tx db l false with
  | Ok (db', _) => db'
  | Err _ =>
      foldl (λ db a, block_window db (a_scope a) (a_window_id a)) db
        (filter (λ e, e.1.1 = l_request_id l) (map_to_list (attempts db))).*2
  end.

(** ** Sweeper *)
(** repository/server_sqlite/value_quota.rs:2312-2346 [resolve_window_pending_in_tx] *)
Definition resolve_window_pending (db : Database) (key : string) (w : Window) (started_before : Z) :
    result QuotaError (Database * Z) :=
  try_fold (λ '(db, resolved) id,
      '(db, settled) ← settle_outcome_in_tx outcome_json db id.1 id.2 Unknown false;
      Ok (db, resolved + if settled : bool then 1 else 0)) (db, 0)
    (filter (λ e, (str_eqb (a_scope e.2) key && unsettled_state (a_metering_status e.2)
      && in_span (metered_start_ms w) (w_ends_at_ms w) (a_started_at_ms e.2)
      && (a_started_at_ms e.2 <? started_before)) = true) (map_to_list (attempts db))).*1.
(** repository/server_sqlite/value_quota.rs:2354-2377 [sweep_candidates] *)
Definition sweep_candidates (db : Database) (started_before_ms : Z) (limit : nat) : list (string * string) :=
  let stale state n := oldest n (filter (λ e, (str_eqb (a_metering_status e.2) state
    && (a_started_at_ms e.2 <? started_before_ms)) = true) (map_to_list (attempts db))) in
  let pending := (stale "pending" limit).*1 in
  pending ++ (stale "unavailable" (limit - length pending)%nat).*1.
(** repository/server_sqlite/value_quota.rs:2387-2393 [sweep_one_in_tx]: is the attempt still there and unsettled? *)
Definition is_unsettled (db : Database) (id : string * string) : bool :=
  from_option (λ a, unsettled_state (a_metering_status a)) false (attempts db !! id).
(** repository/server_sqlite/value_quota.rs:2398-2424 [sweep_one_in_tx]: the usage record of the request, when there
    is one that parses and names this attempt; an error rolls back to the savepoint. The flag says whether the
    attempt is settled by it. [logs] reads the usage records. *)
Definition sweep_from_log (logs : string → option UsageLog) (db : Database) (id : string * string) : Database * bool :=
  match logs id.1 with
  | Some l =>
      if str_eqb (log_attempt l) id.2 then
        let db := match settle_log_in_tx db l true with Ok (db', _) => db' | Err _ => db end in
        (db, negb (is_unsettled db id))
      else (db, false)
  | None => (db, false)
  end.
(** repository/server_sqlite/value_quota.rs:2380-2430 [sweep_one_in_tx] *)
Definition sweep_one (logs : string → option UsageLog) (db : Database) (id : string * string) (report : SweepReport) :
    result QuotaError (Database * SweepReport) :=
  if negb (is_unsettled db id) then Ok (db, report)
  else
    let '(db, resolved) := sweep_from_log logs db id in
    if resolved then
      Ok (db, mk_sweep (sw_from_usage_log report + 1) (sw_outcome_unknown report) (sw_blocked report))
    else
      '(db, settled) ← settle_outcome_in_tx outcome_json db id.1 id.2 Unknown false;
      Ok (db, if settled : bool
              then mk_sweep (sw_from_usage_log report) (sw_outcome_unknown report + 1) (sw_blocked report)
              else report).
(** repository/server_sqlite/value_quota.rs:2434-2465 [sweep_batch_in_tx] *)
Definition sweep_batch (logs : string → option UsageLog) (st : Database * SweepReport) (ids : list (string * string)) :
    Database * SweepReport :=
  foldl (λ '(db, report) id,
    match sweep_one logs db id report with
    | Ok st => st
    | Err _ =>
        (from_option (λ a, block_window db (a_scope a) (a_window_id a)) db (attempts db !! id),
         mk_sweep (sw_from_usage_log report) (sw_outcome_unknown report) (sw_blocked report + 1))
    end) st ids.
(** repository/server_sqlite/value_quota.rs:2479-2502 [sweep_stale_attempts], with nothing else running between
    the batches *)
Definition sweep_stale_attempts (logs : string → option UsageLog) (db : Database) (started_before_ms : Z) :
    Database * SweepReport :=
  sweep_batch logs (db, mk_sweep 0 0 0) (sweep_candidates db started_before_ms SWEEP_CANDIDATE_LIMIT).

(** ** Compaction *)
(** repository/server_sqlite/value_quota.rs:2542-2552 [compact_in_tx]: one attempt *)
Definition compact_attempt (now : Z) (db : Database) (id : string * string) (a : AttemptRow) : result QuotaError Database :=
  c ← read_checkpoint db (a_scope a) (day_of (a_started_at_ms a));
  n ← checkpoint_count c;
  _ ← fail_if (n <=? 0) CORRUPT;
  let db := drop_revisions_before db id (a_usage_revision a) in
  db ← write_attempt db id (mk_attempt_row (a_scope a) (a_policy_epoch a) (a_window_id a) (a_started_at_ms a)
         (a_pricing_revision a) (a_effective_model a) (a_effective_tier a) "null" (a_usage_revision a)
         (a_usage_picos a) (a_pending_risk_picos a) (a_metering_status a) (a_observation_sha256 a) (Some now)
         (a_watermark a));
  Ok (set_meta (delete (attempt_meta_key id.1 id.2) (meta db)) db).
(** repository/server_sqlite/value_quota.rs:2528-2554 [compact_in_tx] *)
Definition compact_in_tx (db : Database) (cutoff now : Z) : result QuotaError (Database * Z) :=
  let rows := oldest 100 (filter (λ e, ((a_started_at_ms e.2 <? cutoff) && settled_state (a_metering_status e.2)
    && bool_decide (a_compacted_at_ms e.2 = None)) = true) (map_to_list (attempts db))) in
  db ← try_fold (λ db e, compact_attempt now db e.1 e.2) db rows;
  Ok (db, Z.of_nat (length rows)).

(** ** Adjustments by the owner *)
(** repository/server_sqlite/value_quota.rs:940-947 [blocked_router_watermark] *)
Definition blocked_router_watermark (db : Database) (block : string) : option Z :=
  bl_router_watermark <$> (meta db !! block ≫= from_json).
(** repository/server_sqlite/value_quota.rs:1598-1626 [apply_adjustments_in_tx]: what a [set] repairs first *)
Definition reconcile (db : Database) (key : string) (w : Window) (stale_before_ms : Z) (fenced : bool) :
    result QuotaError (Database * Reconcile) :=
  '(db, days) ← rebuild_checkpoints db key;
  '(db, resolved) ← resolve_window_pending db key w stale_before_ms;
  let blocks := [block_key key (w_id w); legacy_scope_block_key key] in
  let marks := omap (blocked_router_watermark db) blocks in
  let mark := match marks with [] => None | m :: ms => Some (foldr Z.max m ms) end in
  db ← match mark with Some m => raise_watermark_floor db m | None => Ok db end;
  let cleared := filter (λ k, is_Some (meta db !! k)) (remove_dups (blocks ++ [LEGACY_DEGRADED_META])) in
  let db := set_meta (foldr delete (meta db) (blocks ++ [LEGACY_DEGRADED_META])) db in
  Ok (db, mk_reconcile resolved days (Z.of_nat (length cleared)) fenced mark).
(** repository/server_sqlite/value_quota.rs:1632-1655 [apply_adjustments_in_tx]: the offset and the target *)
Definition edit_offset (e : ValueUsageEdit) (observed : Z) : result QuotaError (Z * option string) :=
  match e_action e with
  | Clear =>
      _ ← fail_if (bool_decide (is_Some (e_target_picos e)))
            (Message "VALUE_QUOTA_TARGET_INVALID: clear must not include targetPicos");
      Ok (0, None)
  | Set_ =>
      raw ← ok_or (Message "VALUE_QUOTA_TARGET_INVALID: targetPicos is required") (e_target_picos e);
      target ← lift (unsigned_decimal raw);
      _ ← fail_if (negb ((observed <=? target) && (target <=? MAX_LIMIT_MICROS * 1000000)))
            (Message "VALUE_QUOTA_TARGET_BELOW_OBSERVED_OR_OUT_OF_RANGE");
      Ok (target - observed, Some (pretty target))
  end.
(** repository/server_sqlite/value_quota.rs:1660-1662 [apply_adjustments_in_tx]: the INSERT, whose operation and watermark are unique *)
Definition insert_adjustment (db : Database) (operation_id : string) (j : AdjustmentRow) : result QuotaError Database :=
  _ ← fail_if (bool_decide (is_Some (adjustments db !! operation_id)) || (j_watermark j <=? 0)
        || existsb (λ k, j_watermark k =? j_watermark j) (map_to_list (adjustments db)).*2) Constraint;
  Ok (set_adjustments (<[operation_id := j]> (adjustments db)) db).
(** repository/server_sqlite/value_quota.rs:1570-1579 [apply_adjustments_in_tx]: the checks of one edit *)
Definition check_edit (d : Adjustment) : result QuotaError () :=
  let e := d_edit d in
  fail_if (is_empty (e_operation_id e) || (128 <? str_len (e_operation_id e)) || is_empty (trim (e_reason e))
      || (1000 <? str_len (e_reason e)) || negb (e_expected_grant_revision e =? d_grant_revision d)
      || negb (str_eqb (e_window_id e) (w_id (d_window d)))) (Message "VALUE_QUOTA_REVISION_CONFLICT").
(** repository/server_sqlite/value_quota.rs:1570-1663 [apply_adjustments_in_tx]: one edit *)
Definition apply_adjustment (db : Database) (d : Adjustment) (key actor : string) (now stale_before_ms : Z)
    (fenced : bool) : result QuotaError Database :=
  let e := d_edit d in
  _ ← check_edit d;
  match adjustments db !! e_operation_id e with
  | Some old =>
      payload ← ok_or (Message "adjustment does not parse") (from_json (j_payload_json old));
      _ ← fail_if (negb (str_eqb (j_scope old) key && bool_decide (p_edit payload = e)
            && str_eqb (p_actor payload) actor)) (Message "VALUE_QUOTA_OPERATION_CONFLICT");
      Ok db
  | None =>
      '(db, repaired) ← (if bool_decide (e_action e = Set_) then
                           '(db, r) ← reconcile db key (d_window d) stale_before_ms fenced; Ok (db, Some r)
                         else Ok (db, None));
      current ← status_in_tx db (d_scope d) (d_window d);
      observed ← lift (unsigned_decimal (qs_observed_picos current));
      '(offset, target) ← edit_offset e observed;
      '(db, watermark) ← next_watermark db;
      let payload := mk_payload e actor (pretty offset) (qs_observed_picos current) (qs_used_picos current)
        (pretty (observed + offset)) (qs_usage_watermark current) repaired in
      mark ← ok_or (Message "out of range integral type conversion attempted") (checked_i64 (qs_usage_watermark current));
      insert_adjustment db (e_operation_id e)
        (mk_adjustment key (w_id (d_window d)) (to_json payload) target mark actor (e_reason e) now watermark)
  end.
(** repository/server_sqlite/value_quota.rs:1550-1665 [apply_adjustments_in_tx] *)
Definition apply_adjustments_in_tx (db : Database) (edits : list Adjustment) (actor : string)
    (now stale_before_ms : Z) (fenced : list string) : result QuotaError Database :=
  _ ← fail_if (is_empty actor || bool_decide (edits = []) || (500 <? Z.of_nat (length edits)))
        (Message "VALUE_QUOTA_TARGET_INVALID: invalid adjustment batch");
  r ← try_fold (λ '(db, seen) d,
        key ← scope_key (d_scope d);
        _ ← fail_if (bool_decide (key ∈ seen)) (Message "VALUE_QUOTA_TARGET_INVALID: duplicate adjustment scope");
        db ← apply_adjustment db d key actor now stale_before_ms (bool_decide (key ∈ fenced));
        Ok (db, {[key]} ∪ seen)) (db, ∅ : gset string) edits;
  Ok r.1.
(** repository/server_sqlite/value_quota.rs:1521-1549 [apply_adjustments]: the edits in one transaction, then the
    fences they cleared *)
Definition apply_adjustments (db : Database) (fence : gmap string Z) (edits : list Adjustment) (actor : string)
    (now stale_before_ms : Z) : result QuotaError (Database * gmap string Z) :=
  keys ← try_fold (λ keys d,
           if bool_decide (e_action (d_edit d) = Set_) then
             key ← scope_key (d_scope d);
             Ok (if bool_decide (is_Some (fence !! key)) then keys ++ [key] else keys)
           else Ok keys) [] edits;
  db ← apply_adjustments_in_tx db edits actor now stale_before_ms keys;
  Ok (db, foldr delete fence keys).

(** ** Coverage and acknowledgement *)
(** repository/server_sqlite/value_quota.rs:785-798 [begin_coverage] *)
Definition begin_coverage (db : Database) (scope : Scope) (now : Z) : result QuotaError (Database * Z) :=
  _ ← fail_if (now <? 0) (Message "invalid coverage timestamp");
  key ← scope_key scope;
  Ok match coverage db !! key with
     | Some at_ms => (db, at_ms)
     | None => (set_coverage (<[key := now]> (coverage db)) db, now)
     end.
(** repository/server_sqlite/value_quota.rs:802-812 [cover_from] *)
Definition cover_from (db : Database) (scope : Scope) (from_ms : Z) : result QuotaError Database :=
  _ ← fail_if (from_ms <? 0) (Message "invalid coverage timestamp");
  key ← scope_key scope;
  Ok (set_coverage (<[key := from_option (Z.min from_ms) from_ms (coverage db !! key)]> (coverage db)) db).
(** repository/server_sqlite/value_quota.rs:900-926 [ack_in_tx]: an acknowledgement ahead of the projection that
    was sent; [usage_watermark] and [w] are the projection's *)
Definition ack_ahead (db : Database) (scope : Scope) (w : Window) (ack : Z) : result QuotaError (Database * bool) :=
  current ← status_in_tx db scope w;
  if qs_usage_watermark current <? ack then
    key ← scope_key scope;
    let block := block_key key (w_id w) in
    let mark := Z.max (default 0 (blocked_router_watermark db block)) ack in
    Ok (set_meta (<[block := to_json (mk_block ROUTER_AHEAD_REASON mark)]> (meta db)) db, true)
  else Ok (db, false).
End maintenance.
