(* ===== verification/ValueCheckpoints.v ===== *)
(** * Checkpoints as aggregates of rows

    A checkpoint aggregates a list of contributions when its amounts are their sums and its counters count their
    states and revisions. [change] adds and removes one contribution, [merge] joins two lists. *)
From S2P Require Import Prelude MapSum RustStr Json ModelIdentity ValuePricing ValueTables.
From Stdlib Require Import ZArith Lia.

Local Open Scope Z_scope.

(** The successful steps of a computation, with what its checks tell. *)
Ltac invert_ok :=
  repeat (simplify_result; repeat match goal with
  | H : lift _ = Ok _ |- _ => apply lift_Ok in H
  | H : checked_u64 _ = Some _ |- _ => apply checked_Some in H as [? ?]; subst
  | H : checked_i64 _ = Some _ |- _ => apply checked_Some in H as [? ?]; subst
  | H : checked_i128 _ = Some _ |- _ => apply checked_Some in H as [? ?]; subst
  | H : (_ <? _) = false |- _ => apply Z.ltb_ge in H
  | H : (_ <=? _) = false |- _ => apply Z.leb_gt in H
  | H : negb _ = false |- _ => apply negb_false_iff in H
  | H : str_eqb _ _ = true |- _ => apply str_eqb_eq in H
  | H : bool_decide _ = true |- _ => apply bool_decide_eq_true in H
  | H : bool_decide _ = false |- _ => apply bool_decide_eq_false in H
  end).

Definition picos (raw : string) : Z := default 0 (to_ok (unsigned_decimal raw)).
Definition amount_of (d : Contribution) : Z := picos (c_amount d).
Definition risk_of (d : Contribution) : Z := picos (c_risk d).
(** The columns of a row parse. *)
Record contribution_ok (d : Contribution) : Prop := {
  co_amount : unsigned_decimal (c_amount d) = Ok (amount_of d);
  co_risk : unsigned_decimal (c_risk d) = Ok (risk_of d);
}.
Record aggregates (l : list Contribution) (c : Checkpoint) : Prop := {
  ag_amount : unsigned_decimal (cp_amount c) = Ok (sum_by amount_of l);
  ag_risk : unsigned_decimal (cp_risk c) = Ok (sum_by risk_of l);
  ag_states : represents (c_state <$> l) (cp_states c);
  ag_revisions : represents (omap c_revision l) (cp_revisions c);
  ag_watermark : ∀ d, d ∈ l → c_watermark d ≤ cp_watermark c;
}.
#[global] Instance aggregates_perm : Proper ((≡ₚ) ==> eq ==> iff) aggregates.
Proof.
  assert (∀ l k c, l ≡ₚ k → aggregates l c → aggregates k c) as Hp.
  { intros l k c H [Ha Hr Hs Hv Hw]. split; try by rewrite <-H.
    intros d Hd. apply Hw. by rewrite H. }
  intros l k H c _ <-. split; by apply Hp.
Qed.

Lemma picos_Ok raw n : unsigned_decimal raw = Ok n → picos raw = n.
Proof. unfold picos. by intros ->. Qed.
Lemma picos_nonneg raw : 0 ≤ picos raw.
Proof.
  unfold picos. destruct (unsigned_decimal raw) as [n|] eqn:E; simpl; [|done].
  by apply unsigned_decimal_range in E as [].
Qed.
Lemma picos_pretty n : 0 ≤ n ≤ I128_MAX → picos (pretty n) = n.
Proof. intros H. by apply picos_Ok, unsigned_decimal_pretty. Qed.
Lemma sum_nonneg_amount l : 0 ≤ sum_by amount_of l.
Proof. apply sum_by_nonneg. intros d _. apply picos_nonneg. Qed.
Lemma sum_nonneg_risk l : 0 ≤ sum_by risk_of l.
Proof. apply sum_by_nonneg. intros d _. apply picos_nonneg. Qed.

Lemma aggregates_nil : aggregates [] checkpoint_empty.
Proof. split; [reflexivity..| | |]; [apply represents_nil..|]. intros d Hd. inversion Hd. Qed.
(** No rows, no counters: a checkpoint of some row has a state. *)
Lemma aggregates_empty l : aggregates l checkpoint_empty → l = [].
Proof.
  intros [_ _ Hs _ _]. destruct l as [|d l]; [done|]. exfalso.
  assert (is_Some ((∅ : gmap string Z) !! c_state d)) as [? Hx]; [|by rewrite lookup_empty in Hx].
  apply (represents_dom _ _ _ Hs). rewrite fmap_cons. left.
Qed.

(** ** One row more, one row less *)
Lemma number_add old change n m : unsigned_decimal old = Ok n → unsigned_decimal change = Ok m →
  n + m ≤ I128_MAX → number old change true = Ok (pretty (n + m)).
Proof.
  intros Hn Hm Hs. unfold number. rewrite Hn, Hm. simpl.
  apply unsigned_decimal_range in Hn, Hm. rewrite checked_i128_in by width_lia. simpl.
  by rewrite (proj2 (Z.ltb_ge _ _)) by lia.
Qed.
Lemma number_Ok old change add s : number old change add = Ok s →
  ∃ n m, unsigned_decimal old = Ok n ∧ unsigned_decimal change = Ok m ∧
    unsigned_decimal s = Ok (if add then n + m else n - m).
Proof.
  unfold number. intros H. invert_ok. do 2 eexists. split; [done|]. split; [done|].
  apply unsigned_decimal_pretty. width_lia.
Qed.
Lemma state_counter_add keys m key : represents keys m → Z.of_nat (length keys) < U64_MAX →
  counter m key true = Ok (<[key := count_of m key + 1]> m) ∧ represents (key :: keys) (<[key := count_of m key + 1]> m).
Proof.
  intros H Hl. pose proof (represents_count _ _ key H) as Hc. pose proof (occurrences_range key keys).
  unfold counter. rewrite checked_u64_in by width_lia. simpl.
  rewrite (proj2 (Z.eqb_neq _ _)) by lia. split; [done|]. by apply represents_bump.
Qed.
Lemma counter_Ok_add keys m key m' : represents keys m → counter m key true = Ok m' → represents (key :: keys) m'.
Proof.
  intros H Hc. unfold counter in Hc. invert_ok.
  pose proof (represents_count _ _ key H). pose proof (occurrences_range key keys).
  rewrite (proj2 (Z.eqb_neq _ _)) by lia. by apply represents_bump.
Qed.
Lemma counter_Ok_drop keys m key m' : represents (key :: keys) m → counter m key false = Ok m' → represents keys m'.
Proof.
  intros H Hc. unfold counter in Hc. invert_ok. by apply represents_drop.
Qed.

Lemma change_steps c d add c' : change c d add = Ok c' →
  number (cp_amount c) (c_amount d) add = Ok (cp_amount c') ∧ number (cp_risk c) (c_risk d) add = Ok (cp_risk c') ∧
  counter (cp_states c) (c_state d) add = Ok (cp_states c') ∧
  match c_revision d with
  | Some r => counter (cp_revisions c) r add = Ok (cp_revisions c')
  | None => cp_revisions c' = cp_revisions c
  end ∧ cp_watermark c' = Z.max (cp_watermark c) (c_watermark d).
Proof. unfold change. intros H. destruct (c_revision d); invert_ok; naive_solver. Qed.
Lemma change_Ok_add l c d c' : aggregates l c → change c d true = Ok c' → contribution_ok d ∧ aggregates (d :: l) c'.
Proof.
  intros [Ha Hr Hs Hv Hw] ((n & m & Hn & Hm & Hx)%number_Ok & (n' & m' & Hn' & Hm' & Hx')%number_Ok & Hcs & Hcv & Hcw)%change_steps.
  rewrite Ha in Hn. rewrite Hr in Hn'. simplify_eq.
  pose proof (picos_Ok _ _ Hm). pose proof (picos_Ok _ _ Hm').
  split; [split; unfold amount_of, risk_of; congruence|]. split.
  - rewrite Hx. f_equal. simpl. unfold amount_of at 2. lia.
  - rewrite Hx'. f_equal. simpl. unfold risk_of at 2. lia.
  - rewrite fmap_cons. by eapply counter_Ok_add.
  - simpl. destruct (c_revision d); [by eapply counter_Ok_add|by rewrite Hcv].
  - rewrite Hcw. intros e [->|He]%elem_of_cons; [lia|]. specialize (Hw e He). lia.
Qed.
Lemma change_Ok_drop l c d d' c' : aggregates (d :: l) c →
  c_amount d' = c_amount d → c_risk d' = c_risk d → c_state d' = c_state d → c_revision d' = c_revision d →
  change c d' false = Ok c' → aggregates l c'.
Proof.
  intros [Ha Hr Hs Hv Hw] E1 E2 E3 E4
    ((n & m & Hn & Hm & Hx)%number_Ok & (n' & m' & Hn' & Hm' & Hx')%number_Ok & Hcs & Hcv & Hcw)%change_steps.
  rewrite Ha in Hn. rewrite Hr in Hn'. simplify_eq. rewrite E1 in Hm. rewrite E2 in Hm'. rewrite E3 in Hcs. rewrite E4 in Hcv.
  apply picos_Ok in Hm, Hm'. simpl in *. split.
  - rewrite Hx. f_equal. unfold amount_of at 1. lia.
  - rewrite Hx'. f_equal. unfold risk_of at 1. lia.
  - by eapply counter_Ok_drop.
  - destruct (c_revision d); [by eapply counter_Ok_drop|by rewrite Hcv].
  - rewrite Hcw. intros e He. specialize (Hw e ltac:(by right)). lia.
Qed.
(** Adding a row cannot fail while the sums stay in their widths. *)
Lemma change_add_total l c d : aggregates l c → contribution_ok d →
  sum_by amount_of (d :: l) ≤ I128_MAX → sum_by risk_of (d :: l) ≤ I128_MAX → Z.of_nat (length l) < U64_MAX →
  ∃ c', change c d true = Ok c' ∧ aggregates (d :: l) c'.
Proof.
  intros Hag [Hda Hdr] Hsa Hsr Hl. pose proof Hag as [Ha Hr Hs Hv Hw]. simpl in Hsa, Hsr.
  assert (∃ c', change c d true = Ok c') as [c' Hc']; [|exists c'; split; [done|by eapply change_Ok_add]].
  unfold change. rewrite (number_add _ _ _ _ Ha Hda), (number_add _ _ _ _ Hr Hdr) by lia. simpl.
  destruct (state_counter_add _ _ (c_state d) Hs) as [-> _]; [by rewrite length_fmap|]. simpl.
  destruct (c_revision d) as [r|]; simpl; [|by eexists].
  destruct (state_counter_add _ _ r Hv) as [-> _]; [|simpl; by eexists].
  assert (length (omap c_revision l) ≤ length l)%nat; [|lia].
  clear. induction l as [|d l IH]; [simpl; lia|]. cbn. destruct (c_revision d); simpl; lia.
Qed.

(** ** Merging *)
Lemma merge_counts_fold (es : list (string * Z)) target : NoDup es.*1 →
  (∀ k v, (k, v) ∈ es → 0 ≤ count_of target k + v ≤ U64_MAX) →
  ∃ m, try_fold (λ target '(key, value),
      n ← ok_or (Message "value checkpoint count overflow") (checked_u64 (count_of target key + value));
      Ok (<[key := n]> target)) target es = Ok m ∧
    ∀ key, m !! key = match list_to_map (M := gmap string Z) es !! key with
                      | Some v => Some (count_of target key + v)
                      | None => target !! key
                      end.
Proof.
  revert target. induction es as [|[k v] es IH]; intros target Hnd Hb; [by exists target|].
  rewrite fmap_cons in Hnd. apply NoDup_cons in Hnd as [Hk Hnd]. cbn [try_fold].
  rewrite checked_u64_in by (apply Hb; left). cbn.
  destruct (IH (<[k := count_of target k + v]> target)) as (m & Hm & Hl); [done| |].
  { intros k' v' Hin. specialize (Hb k' v' ltac:(by right)). unfold count_of in *.
    rewrite lookup_insert_ne; [done|]. intros <-. apply Hk. by apply (list_elem_of_fmap_2 fst _ (k, v')). }
  exists m. split; [done|]. intros key. rewrite Hl. destruct (decide (k = key)) as [<-|Hne].
  - rewrite not_elem_of_list_to_map_1 by done. by rewrite !lookup_insert_eq.
  - unfold count_of. by rewrite !lookup_insert_ne by done.
Qed.
Lemma merge_counts_total ks ls target source : represents ks target → represents ls source →
  Z.of_nat (length ks + length ls) ≤ U64_MAX →
  ∃ m, merge_counts target source = Ok m ∧ represents (ls ++ ks) m.
Proof.
  intros Hk Hl Hb. destruct (merge_counts_fold (btree_entries source) target) as (m & Hm & Hlook).
  - apply NoDup_btree_fmap. by intros k1 x1 k2 x2 _ _ Heq.
  - intros k v Hin%elem_of_btree_entries. rewrite Hl in Hin. rewrite (represents_count ks) by done.
    pose proof (occurrences_range k ls). pose proof (occurrences_range k ks).
    case_match; [done|]. simplify_eq. lia.
  - exists m. split; [done|]. intros key. rewrite Hlook, occurrences_app.
    rewrite (list_to_map_proper _ (map_to_list source)), list_to_map_to_list;
      [|apply NoDup_btree_fmap; by intros k1 x1 k2 x2 _ _ Heq|apply btree_entries_perm].
    rewrite Hl, (represents_count ks) by done. rewrite (Hk key).
    pose proof (occurrences_range key ls). pose proof (occurrences_range key ks).
    destruct (Z.eqb_spec (occurrences key ls) 0) as [->|]; [done|].
    destruct (Z.eqb_spec (occurrences key ls + occurrences key ks) 0); [lia|]. f_equal. lia.
Qed.
Lemma length_omap_le {A B} (f : A → option B) l : (length (omap f l) ≤ length l)%nat.
Proof. induction l as [|x l IH]; [simpl; lia|]. cbn. destruct (f x); simpl; lia. Qed.
Lemma omap_app' {A B} (f : A → option B) l k : omap f (l ++ k) = omap f l ++ omap f k.
Proof. induction l as [|x l IH]; [done|]. cbn. destruct (f x); by rewrite IH. Qed.
(** Merging cannot fail while the sums stay in their widths. *)
Lemma merge_total l k c o : aggregates l c → aggregates k o →
  sum_by amount_of (k ++ l) ≤ I128_MAX → sum_by risk_of (k ++ l) ≤ I128_MAX →
  Z.of_nat (length (k ++ l)) ≤ U64_MAX →
  ∃ c', merge c o = Ok c' ∧ aggregates (k ++ l) c'.
Proof.
  intros [Ha Hr Hs Hv Hw] [Ha' Hr' Hs' Hv' Hw']. rewrite !sum_by_app, length_app. intros Hsa Hsr Hl.
  pose proof (sum_nonneg_amount l). pose proof (sum_nonneg_amount k).
  pose proof (sum_nonneg_risk l). pose proof (sum_nonneg_risk k).
  pose proof (length_omap_le c_revision l). pose proof (length_omap_le c_revision k).
  destruct (merge_counts_total _ _ _ _ Hs Hs') as (ms & Hms & Hrs); [rewrite !length_fmap; lia|].
  destruct (merge_counts_total _ _ _ _ Hv Hv') as (mv & Hmv & Hrv); [lia|].
  unfold merge. rewrite Ha, Ha', Hr, Hr'. simpl. rewrite !checked_i128_in by width_lia. simpl.
  rewrite Hms. simpl. rewrite Hmv. simpl. eexists. split; [done|].
  split; cbn [cp_amount cp_risk cp_states cp_revisions cp_watermark].
  - rewrite unsigned_decimal_pretty, sum_by_app by lia. f_equal. lia.
  - rewrite unsigned_decimal_pretty, sum_by_app by lia. f_equal. lia.
  - by rewrite fmap_app.
  - by rewrite omap_app'.
  - intros d [Hd|Hd]%elem_of_app; [specialize (Hw' d Hd)|specialize (Hw d Hd)]; lia.
Qed.
(** The number of rows behind a checkpoint. *)
Lemma sum_fold vs s : (∀ v, v ∈ vs → 0 ≤ v) → 0 ≤ s → s + sum_by (λ n, n) vs ≤ U64_MAX →
  try_fold (λ sum value, ok_or CORRUPT (checked_u64 (sum + value))) s vs = Ok (s + sum_by (λ n, n) vs).
Proof.
  revert s. induction vs as [|v vs IH]; intros s Hv Hs Hb; cbn [try_fold]; [simpl; f_equal; lia|].
  simpl in Hb. pose proof (Hv v ltac:(left)).
  assert (0 ≤ sum_by (λ n, n) vs) by (apply sum_by_nonneg; intros; apply Hv; by right).
  rewrite checked_u64_in by width_lia. cbn. rewrite IH; [fold (sum_by (λ n : Z, n) vs); f_equal; lia| |lia|lia]. intros; apply Hv; by right.
Qed.
Lemma checkpoint_count_rows l c : aggregates l c → Z.of_nat (length l) ≤ U64_MAX →
  checkpoint_count c = Ok (Z.of_nat (length l)).
Proof.
  intros [_ _ Hs _ _] Hl. unfold checkpoint_count.
  pose proof (represents_total _ _ Hs) as Ht. rewrite length_fmap, <-map_sum_btree in Ht.
  rewrite sum_fold, Ht; [done| |lia|rewrite Ht; lia].
  intros v [k Hk]%elem_of_btree_values. rewrite Hs in Hk. pose proof (occurrences_range k (c_state <$> l)).
  case_match; simplify_eq. lia.
Qed.

(** ** What the status reads off an aggregate *)
Definition has_state (l : list Contribution) (state : string) : Prop := ∃ d, d ∈ l ∧ c_state d = state.
#[global] Instance has_state_dec l state : Decision (has_state l state).
Proof.
  refine (cast_if (decide (state ∈ c_state <$> l))); abstract (unfold has_state; rewrite list_elem_of_fmap in *; naive_solver).
Defined.
Lemma aggregates_state l c state : aggregates l c → is_Some (cp_states c !! state) ↔ has_state l state.
Proof. intros H. rewrite (represents_dom _ _ _ (ag_states _ _ H)), list_elem_of_fmap. unfold has_state. naive_solver. Qed.
(** The metering state of a window, from its rows. *)
Definition metering_of (l : list Contribution) : string :=
  if decide (has_state l "pending") then "pending"
  else if decide (has_state l "conservative" ∨ has_state l "unavailable" ∨ has_state l "gap") then "conservative"
  else "observed".
Lemma metering_rows l c : (∀ state, is_Some (cp_states c !! state) ↔ has_state l state) → metering c = metering_of l.
Proof.
  intros H. unfold metering, metering_of. cbn [existsb].
  rewrite !(bool_decide_ext _ _ (H _)), orb_false_r.
  destruct (decide (has_state l "pending")) as [Hp|Hp]; [by rewrite bool_decide_true|rewrite bool_decide_false by done].
  destruct (decide _) as [Hc|Hc].
  - destruct Hc as [Hc|[Hc|Hc]]; rewrite (bool_decide_true _ Hc), ?orb_true_r; done.
  - rewrite !bool_decide_false by tauto. done.
Qed.
#[global] Instance metering_perm : Proper ((≡ₚ) ==> (=)) metering_of.
Proof.
  intros l k Hp. assert (∀ state, has_state l state ↔ has_state k state) as Hs by (intros; unfold has_state; by setoid_rewrite Hp).
  unfold metering_of. repeat destruct (decide _); rewrite ?Hs in *; naive_solver.
Qed.
