(* ===== verification/ValueLedger.v ===== *)
(** * The ledger and its checkpoints

    The invariant that ties every daily checkpoint to the rows of its day, and what follows for the status of a
    window: whole days read from checkpoints and partial days read from rows add up to the rows of the window. *)
From S2P Require Import Prelude MapSum RustStr Json ModelIdentity ValuePricing ValueTables.
From S2P Require Import ValueCheckpoints.
From Stdlib Require Import ZArith Lia.

Local Open Scope Z_scope.

(** ** The rows of a scope over a span of time *)
Definition contributions (db : Database) (scope : string) (span : Z → bool) : list Contribution :=
  (attempt_contribution <$> filter (λ a, span (a_started_at_ms a)) (scope_attempts db scope))
  ++ (gap_contribution <$> filter (λ g, span (g_started_at_ms g)) (scope_gaps db scope)).
Definition on_day (day at_ms : Z) : bool := day_of at_ms =? day.

(** One row of either table as a list of contributions. *)
Definition attempt_part (scope : string) (span : Z → bool) (e : (string * string) * AttemptRow) : list Contribution :=
  if str_eqb (a_scope e.2) scope && span (a_started_at_ms e.2) then [attempt_contribution e.2] else [].
Definition gap_part (scope : string) (span : Z → bool) (e : (string * string) * GapRow) : list Contribution :=
  if str_eqb e.1.1 scope && span (g_started_at_ms e.2) then [gap_contribution e.2] else [].
Lemma contributions_parts db scope span :
  contributions db scope span =
  flat_map_entries (attempt_part scope span) (attempts db) ++ flat_map_entries (gap_part scope span) (gaps db).
Proof.
  unfold contributions, flat_map_entries, scope_attempts, scope_gaps. f_equal.
  - induction (map_to_list (attempts db)) as [|[id a] l IH]; [done|].
    rewrite fmap_cons, filter_cons. cbn [mbind list_bind]. rewrite <-IH. unfold attempt_part at 1. cbn [snd].
    destruct (decide (a_scope a = scope)) as [->|Hs].
    + rewrite str_eqb_refl, filter_cons. simpl. destruct (span (a_started_at_ms a)); [rewrite decide_True by done|rewrite decide_False by naive_solver]; done.
    + by rewrite (proj2 (str_eqb_neq _ _)).
  - induction (map_to_list (gaps db)) as [|[id g] l IH]; [done|].
    rewrite filter_cons. cbn [mbind list_bind]. rewrite <-IH. unfold gap_part at 1. cbn [fst snd].
    destruct (decide (id.1 = scope)) as [<-|Hs].
    + rewrite str_eqb_refl, fmap_cons, filter_cons. simpl. destruct (span (g_started_at_ms g)); [rewrite decide_True by done|rewrite decide_False by naive_solver]; done.
    + by rewrite (proj2 (str_eqb_neq _ _)).
Qed.
Lemma elem_of_contributions db scope span d :
  d ∈ contributions db scope span ↔
  (∃ id a, attempts db !! id = Some a ∧ a_scope a = scope ∧ span (a_started_at_ms a) = true ∧ d = attempt_contribution a)
  ∨ (∃ id g, gaps db !! id = Some g ∧ id.1 = scope ∧ span (g_started_at_ms g) = true ∧ d = gap_contribution g).
Proof.
  rewrite contributions_parts, elem_of_app. unfold flat_map_entries.
  setoid_rewrite list_elem_of_bind. setoid_rewrite elem_of_map_to_list'. f_equiv; split.
  - intros ([id a] & Hd & Hin). exists id, a. unfold attempt_part in Hd. simpl in *.
    case_match eqn:E; [|inversion Hd]. apply andb_true_iff in E as [->%str_eqb_eq ?]. by apply list_elem_of_singleton in Hd as ->.
  - intros (id & a & Hin & <- & Hs & ->). exists (id, a). split; [|done]. unfold attempt_part. simpl.
    rewrite str_eqb_refl, Hs. left.
  - intros ([id g] & Hd & Hin). exists id, g. unfold gap_part in Hd. simpl in *.
    case_match eqn:E; [|inversion Hd]. apply andb_true_iff in E as [->%str_eqb_eq ?]. by apply list_elem_of_singleton in Hd as ->.
  - intros (id & g & Hin & <- & Hs & ->). exists (id, g). split; [|done]. unfold gap_part. simpl.
    rewrite str_eqb_refl, Hs. left.
Qed.
(** Rows of disjoint spans. *)
Lemma contributions_split db scope p q : (∀ t, p t = true → q t = false) →
  contributions db scope (λ t, p t || q t) ≡ₚ contributions db scope p ++ contributions db scope q.
Proof.
  intros Hpq. unfold contributions.
  assert (∀ {A} (f : A → Z) l, filter (λ x, (p (f x) || q (f x))) l ≡ₚ filter (λ x, p (f x)) l ++ filter (λ x, q (f x)) l) as Hf.
  { intros A f l. induction l as [|x l IH]; [done|]. rewrite !filter_cons. pose proof (Hpq (f x)).
    destruct (p (f x)), (q (f x)); simpl; try (exfalso; by naive_solver);
      repeat (rewrite decide_True by done || rewrite decide_False by naive_solver); simpl; rewrite IH; [done| |done].
    by rewrite Permutation_middle. }
  rewrite !Hf, !fmap_app. solve_Permutation.
Qed.
Lemma contributions_ext db scope p q : (∀ t, p t = q t) → contributions db scope p = contributions db scope q.
Proof.
  intros H. rewrite !contributions_parts. f_equal; apply flat_map_ext; intros; unfold attempt_part, gap_part; by rewrite H.
Qed.
Lemma contributions_none db scope : contributions db scope (λ _, false) = [].
Proof.
  destruct (contributions db scope (λ _, false)) as [|d l] eqn:E; [done|]. exfalso.
  assert (d ∈ contributions db scope (λ _, false)) as Hd by (rewrite E; left).
  apply elem_of_contributions in Hd. naive_solver.
Qed.

(** ** Days *)
Lemma day_of_bounds t : day_of t ≤ t < day_of t + DAY_MS.
Proof. unfold day_of, DAY_MS. pose proof (Z.div_mod t 86400000 ltac:(lia)). pose proof (Z.mod_pos_bound t 86400000 ltac:(lia)). lia. Qed.
Lemma day_of_mono s t : s ≤ t → day_of s ≤ day_of t.
Proof. intros H. unfold day_of, DAY_MS. pose proof (Z.div_le_mono s t 86400000 ltac:(lia) H). lia. Qed.
Lemma day_of_idemp t : day_of (day_of t) = day_of t.
Proof. unfold day_of, DAY_MS. by rewrite Z.div_mul. Qed.
Lemma day_of_le_iff s t : day_of s ≤ t ↔ day_of s ≤ day_of t.
Proof.
  split; [|pose proof (day_of_bounds t); lia]. intros H%day_of_mono. by rewrite day_of_idemp in H.
Qed.
(** The span of whole days between two midnights covers whole days. *)
Lemma whole_days a b t :
  in_span (day_of a) (Some (day_of b)) t = in_span (day_of a) (Some (day_of b)) (day_of t).
Proof.
  unfold in_span. simpl. apply eq_bool_prop_intro. rewrite !andb_True.
  pose proof (day_of_le_iff a t). pose proof (day_of_le_iff b t).
  split; intros [Hle Hlt]; apply Is_true_true in Hle, Hlt; apply Z.leb_le in Hle; apply Z.ltb_lt in Hlt;
    (split; apply Is_true_true; [apply Z.leb_le; tauto|apply Z.ltb_lt]).
  - apply Z.nle_gt. intros Hn. apply Z.lt_nge in Hlt. tauto.
  - apply Z.nle_gt. intros Hn. apply Z.lt_nge in Hlt. tauto.
Qed.

(** ** The invariant *)
Section ledger.
Context `{!Digest, !Serde Scope, !Serde Checkpoint, !Serde AdjustmentPayload, !Serde (list string)}.

(** The watermark column of a row, under the ledger's counter. *)
Definition mark_ok (top mark : Z) : Prop := 0 < mark ≤ top.
Record days_ok (top : Z) (db : Database) : Prop := {
  do_attempts : ∀ id a, attempts db !! id = Some a →
    0 ≤ a_started_at_ms a ∧ contribution_ok (attempt_contribution a) ∧ mark_ok top (a_watermark a);
  do_gaps : ∀ id g, gaps db !! id = Some g → 0 ≤ g_started_at_ms g ∧ mark_ok top (g_watermark g);
  do_checkpoints : ∀ scope day, ∃ c, read_checkpoint db scope day = Ok c ∧
    aggregates (contributions db scope (on_day day)) c ∧ 0 ≤ cp_watermark c ≤ top;
}.
Record ledger_ok (top : Z) (db : Database) : Prop := {
  lo_top : meta db !! WATERMARK_KEY = Some (pretty top) ∧ 0 ≤ top ≤ I64_MAX;
  lo_days : days_ok top db;
  lo_adjustments : ∀ id j, adjustments db !! id = Some j →
    mark_ok top (j_watermark j) ∧ ∃ p, from_json (j_payload_json j) = Some p ∧
      unsigned_decimal (p_offset_picos p) = Ok (picos (p_offset_picos p));
}.

Lemma contributions_ok top db scope span : days_ok top db →
  ∀ d, d ∈ contributions db scope span → contribution_ok d ∧ mark_ok top (c_watermark d).
Proof.
  intros [Ha Hg _] d [(id & a & Hid & _ & _ & ->)|(id & g & Hid & _ & _ & ->)]%elem_of_contributions.
  - by destruct (Ha id a Hid) as (_ & ? & ?).
  - destruct (Hg id g Hid) as [_ ?]. split; [by split|done].
Qed.

(** ** Whole days *)
Lemma elem_of_checkpoint_days db key a b day :
  day ∈ checkpoint_days db key a b ↔ is_Some (checkpoints db !! (key, day)) ∧ in_span a (Some b) day = true.
Proof.
  unfold checkpoint_days. rewrite list_elem_of_filter, list_elem_of_fmap, Is_true_true.
  setoid_rewrite list_elem_of_filter. setoid_rewrite list_elem_of_fmap. setoid_rewrite elem_of_map_to_list'.
  split.
  - intros (Hs & [k d] & -> & <- & [[k' d'] x] & Hk & Hx). simpl in *. simplify_eq. split; [by eexists|done].
  - intros [[x Hx] Hs]. split; [done|]. exists (key, day). split; [done|]. split; [done|]. by exists ((key, day), x).
Qed.
Lemma NoDup_checkpoint_days db key a b : NoDup (checkpoint_days db key a b).
Proof.
  unfold checkpoint_days. apply NoDup_filter. pose proof (NoDup_fst_map_to_list (checkpoints db)) as Hnd.
  induction (map_to_list (checkpoints db)).*1 as [|[k d] l IH]; [constructor|].
  apply NoDup_cons in Hnd as [Hn Hnd]. rewrite filter_cons. case_decide; [|by apply IH]. simpl in *. subst k.
  constructor; [|by apply IH].
  intros ([k' d'] & Hd & [Hk Hin]%list_elem_of_filter)%list_elem_of_fmap. simpl in *. by subst.
Qed.
(** The rows of several days. *)
Lemma contributions_days db scope days : NoDup days →
  contributions db scope (λ t, bool_decide (day_of t ∈ days)) ≡ₚ days ≫= λ day, contributions db scope (on_day day).
Proof.
  induction days as [|day days IH]; intros Hnd.
  - rewrite (contributions_ext _ _ _ (λ _, false)); [by rewrite contributions_none|].
    intros t. apply bool_decide_false. apply not_elem_of_nil.
  - apply NoDup_cons in Hnd as [Hn Hnd]. cbn [mbind list_bind]. rewrite <-(IH Hnd), <-contributions_split.
    + rewrite (contributions_ext db scope (λ t, bool_decide (day_of t ∈ day :: days))
        (λ t, on_day day t || bool_decide (day_of t ∈ days))); [done|]. intros t. unfold on_day.
      destruct (Z.eqb_spec (day_of t) day) as [->|Hne]; simpl.
      * apply bool_decide_true. left.
      * apply bool_decide_ext. rewrite elem_of_cons. tauto.
    + intros t Ht%Z.eqb_eq. apply bool_decide_false. by rewrite Ht.
Qed.
Lemma merge_days top db key days acc l : days_ok top db → aggregates l acc → 0 ≤ cp_watermark acc ≤ top →
  let rows := (days ≫= λ day, contributions db key (on_day day)) ++ l in
  sum_by amount_of rows ≤ I128_MAX → sum_by risk_of rows ≤ I128_MAX → Z.of_nat (length rows) ≤ U64_MAX →
  ∃ c, try_fold (λ aggregate day, c ← read_checkpoint db key day; merge aggregate c) acc days = Ok c ∧
    aggregates rows c ∧ 0 ≤ cp_watermark c ≤ top.
Proof.
  intros Hok. revert acc l. induction days as [|day days IH]; intros acc l Hl Hw rows Ha Hr Hn.
  { by exists acc. }
  subst rows. cbn [mbind list_bind] in *.
  destruct (do_checkpoints _ _ Hok key day) as (c & Hc & Hag & Hcw).
  set (today := contributions db key (on_day day)) in *.
  rewrite <-!app_assoc in *. rewrite !sum_by_app, !length_app in *.
  pose proof (sum_nonneg_amount today). pose proof (sum_nonneg_risk today).
  pose proof (sum_nonneg_amount (days ≫= λ day, contributions db key (on_day day))).
  pose proof (sum_nonneg_risk (days ≫= λ day, contributions db key (on_day day))).
  cbn [try_fold]. rewrite Hc. cbn [mbind result_bind].
  destruct (merge_total l today acc c Hl Hag) as (acc' & Hm & Hag'); [rewrite ?sum_by_app, ?length_app; lia..|].
  rewrite Hm. cbn [mbind result_bind].
  assert (0 ≤ cp_watermark acc' ≤ top) as Hw'.
  { unfold merge in Hm. invert_ok. simpl. lia. }
  destruct (IH acc' (today ++ l) Hag' Hw') as (c' & Hf & Hag'' & Hcw');
    [rewrite ?sum_by_app, ?length_app; lia..|].
  exists c'. split; [done|]. split; [|done]. eapply aggregates_perm; [|done|exact Hag''].
  solve_Permutation.
Qed.
(** A day with a row has a checkpoint, so the days that have one cover every row. *)
Lemma row_has_checkpoint top db key day d : days_ok top db → d ∈ contributions db key (on_day day) →
  is_Some (checkpoints db !! (key, day)).
Proof.
  intros Hok Hd. destruct (do_checkpoints _ _ Hok key day) as (c & Hc & Hag & _).
  unfold read_checkpoint in Hc. destruct (checkpoints db !! _); [by eexists|]. injection Hc as <-.
  apply aggregates_empty in Hag. rewrite Hag in Hd. inversion Hd.
Qed.
Lemma whole_rows top db key a b : days_ok top db →
  contributions db key (in_span (day_of a) (Some (day_of b))) =
  contributions db key (λ t, bool_decide (day_of t ∈ checkpoint_days db key (day_of a) (day_of b))).
Proof.
  intros Hok.
  assert (∀ t d, d ∈ contributions db key (on_day (day_of t)) → in_span (day_of a) (Some (day_of b)) t =
    bool_decide (day_of t ∈ checkpoint_days db key (day_of a) (day_of b))) as Ht.
  { intros t d Hd%(row_has_checkpoint _ _ _ _ _ Hok). rewrite whole_days. apply eq_bool_prop_intro.
    rewrite bool_decide_spec, elem_of_checkpoint_days, <-Is_true_true. tauto. }
  rewrite !contributions_parts. f_equal; apply flat_map_ext; intros id x Hx; unfold attempt_part, gap_part;
    cbn [fst snd]; (destruct (str_eqb _ key) eqn:Ek; [|done]); apply str_eqb_eq in Ek; cbn [andb].
  - rewrite (Ht _ (attempt_contribution x)); [done|]. apply elem_of_contributions. left.
    exists id, x. split_and!; [done..| |done]. apply Z.eqb_refl.
  - rewrite (Ht _ (gap_contribution x)); [done|]. apply elem_of_contributions. right.
    exists id, x. split_and!; [done..| |done]. apply Z.eqb_refl.
Qed.
Lemma whole_days_aggregate top db key a b : days_ok top db →
  let rows := contributions db key (in_span (day_of a) (Some (day_of b))) in
  sum_by amount_of rows ≤ I128_MAX → sum_by risk_of rows ≤ I128_MAX → Z.of_nat (length rows) ≤ U64_MAX →
  ∃ c, try_fold (λ aggregate day, c ← read_checkpoint db key day; merge aggregate c) checkpoint_empty
      (checkpoint_days db key (day_of a) (day_of b)) = Ok c ∧ aggregates rows c ∧ 0 ≤ cp_watermark c ≤ top.
Proof.
  intros Hok rows. set (days := checkpoint_days db key (day_of a) (day_of b)).
  assert (rows ≡ₚ (days ≫= λ day, contributions db key (on_day day)) ++ []) as Hperm.
  { rewrite app_nil_r, <-contributions_days by apply NoDup_checkpoint_days. unfold rows, days. by rewrite (whole_rows top). }
  rewrite !Hperm. intros Ha Hr Hn.
  destruct (merge_days top db key days checkpoint_empty [] Hok aggregates_nil) as (c & Hf & Hag & Hw); [|done..|].
  { simpl. destruct (do_checkpoints _ _ Hok key 0) as (c & _ & _ & ?). lia. }
  exists c. split; [done|]. split; [|done]. by rewrite Hperm.
Qed.

(** ** A window *)
Definition window_span (w : Window) : Z → bool := in_span (metered_start_ms w) (w_ends_at_ms w).
Definition window_rows (db : Database) (key : string) (w : Window) : list Contribution :=
  contributions db key (window_span w).
(** The totals stay in their widths. *)
Definition fits (rows : list Contribution) : Prop :=
  sum_by amount_of rows ≤ I128_MAX ∧ sum_by risk_of rows ≤ I128_MAX ∧ Z.of_nat (length rows) ≤ U64_MAX.
#[global] Instance fits_perm : Proper ((≡ₚ) ==> iff) fits.
Proof. intros l k Hp. unfold fits. by rewrite Hp. Qed.
Lemma fits_app l k : fits (l ++ k) → fits l ∧ fits k.
Proof.
  unfold fits. rewrite !sum_by_app, length_app.
  pose proof (sum_nonneg_amount l). pose proof (sum_nonneg_amount k).
  pose proof (sum_nonneg_risk l). pose proof (sum_nonneg_risk k). lia.
Qed.
Lemma fold_changes top ds acc l : aggregates l acc → 0 ≤ cp_watermark acc ≤ top → top ≤ I64_MAX →
  (∀ d, d ∈ ds → contribution_ok d ∧ mark_ok top (c_watermark d)) → fits (ds ++ l) →
  ∃ c, try_fold (λ aggregate d, d ← with_column d; change aggregate d true) acc ds = Ok c ∧
    aggregates (ds ++ l) c ∧ 0 ≤ cp_watermark c ≤ top.
Proof.
  intros Hl Hw Htop. revert acc l Hl Hw. induction ds as [|d ds IH]; intros acc l Hl Hw Hds Hf; [by exists acc|].
  assert ((d :: ds) ++ l ≡ₚ ds ++ (d :: l)) as Hp by (rewrite <-Permutation_middle; done).
  rewrite Hp in Hf. pose proof (proj2 (fits_app _ _ Hf)) as (Ha & Hr & Hn).
  destruct (Hds d ltac:(left)) as [Hd [Hm ?]]. cbn [try_fold].
  assert (with_column d = Ok d) as -> by (unfold with_column, column_u64; by rewrite checked_u64_in by width_lia).
  cbn [mbind result_bind].
  destruct (change_add_total l acc d Hl Hd Ha Hr) as (acc' & Hc & Hl'); [simpl in Hn; lia|].
  rewrite Hc. apply change_steps in Hc as (_ & _ & _ & _ & Hcw).
  destruct (IH acc' (d :: l) Hl') as (c & Hfold & Hag & ?); [lia|intros; apply Hds; by right|done|].
  exists c. split; [done|]. split; [|done]. by rewrite Hp.
Qed.

Record window_facts (top : Z) (rows : list Contribution) (c : Checkpoint) : Prop := {
  wf_amount : unsigned_decimal (cp_amount c) = Ok (sum_by amount_of rows);
  wf_risk : unsigned_decimal (cp_risk c) = Ok (sum_by risk_of rows);
  wf_states : ∀ state, is_Some (cp_states c !! state) ↔ has_state rows state;
  wf_revisions : ∀ r, is_Some (cp_revisions c !! r) ↔ r ∈ omap c_revision rows;
  wf_watermark : 0 ≤ cp_watermark c ≤ top ∧ ∀ d, d ∈ rows → c_watermark d ≤ cp_watermark c;
}.
Lemma aggregates_facts top rows c : aggregates rows c → 0 ≤ cp_watermark c ≤ top → window_facts top rows c.
Proof.
  intros Hag Hw. split; [apply Hag..| | |]; [by intros; apply aggregates_state| |split; [done|apply Hag]].
  intros r. apply represents_dom, Hag.
Qed.
Lemma window_facts_perm top rows rows' c : rows ≡ₚ rows' → window_facts top rows c → window_facts top rows' c.
Proof.
  intros Hp [H1 H2 H3 H4 [H5 H6]]. split; rewrite <-?Hp; try done.
  - intros state. rewrite H3. unfold has_state. by setoid_rewrite Hp.
  - intros r. by rewrite H4, Hp.
  - split; [done|]. intros d Hd. apply H6. by rewrite Hp.
Qed.
(** The gaps of the partial days are counted apart: they add no amount. *)
Lemma add_gaps top rows c (edge : list GapRow) n mark : window_facts top rows c → edge ≠ [] →
  (∀ g, g ∈ edge → mark_ok top (g_watermark g)) → mark = foldr (λ g m, Z.max (g_watermark g) m) 0 edge →
  window_facts top ((gap_contribution <$> edge) ++ rows)
    (mk_checkpoint (cp_amount c) (cp_risk c) (<["gap" := n]> (cp_states c)) (cp_revisions c) (Z.max (cp_watermark c) mark)).
Proof.
  intros [H1 H2 H3 H4 [H5 H6]] Hne Hm ->.
  assert (∀ l, sum_by amount_of (gap_contribution <$> l) = 0) as Ha by (induction l; [done|]; simpl in *; done).
  assert (∀ l, sum_by risk_of (gap_contribution <$> l) = 0) as Hr by (induction l; [done|]; simpl in *; done).
  assert (∀ l, omap c_revision (gap_contribution <$> l) = []) as Hv by (induction l; [done|]; simpl in *; done).
  assert (0 ≤ foldr (λ g m, Z.max (g_watermark g) m) 0 edge ≤ top ∧
    ∀ g, g ∈ edge → g_watermark g ≤ foldr (λ g m, Z.max (g_watermark g) m) 0 edge) as [Hmax Hle].
  { clear Hne. induction edge as [|g edge IH]; simpl; [split; [lia|intros g Hg; inversion Hg]|].
    destruct (Hm g ltac:(left)). destruct IH as [? IH]; [intros; apply Hm; by right|]. split; [lia|].
    intros g' [->|Hg]%elem_of_cons; [lia|]. specialize (IH g' Hg). lia. }
  split; cbn [cp_amount cp_risk cp_states cp_revisions cp_watermark].
  - by rewrite sum_by_app, Ha.
  - by rewrite sum_by_app, Hr.
  - intros state. destruct (decide (state = "gap")) as [->|Hs].
    + rewrite lookup_insert_eq. split; [intros _|by eexists]. destruct edge as [|g edge]; [done|].
      exists (gap_contribution g). split; [left|done].
    + rewrite lookup_insert_ne by done. rewrite H3. unfold has_state. setoid_rewrite elem_of_app. split.
      * intros (d & Hd & <-). eauto.
      * intros (d & [(g & -> & _)%list_elem_of_fmap|Hd] & <-); [done|eauto].
  - intros r. by rewrite H4, omap_app', Hv.
  - split; [lia|]. intros d [(g & -> & Hg)%list_elem_of_fmap|Hd]%elem_of_app; [specialize (Hle g Hg); simpl; lia|].
    specialize (H6 d Hd). lia.
Qed.
(** The whole and the partial days of a window make up the window. *)
Definition whole_span (w : Window) : Z → bool :=
  in_span (day_of (metered_start_ms w + (DAY_MS - 1))) (Some (day_of (default I64_MAX (w_ends_at_ms w)))).
Definition partial_span (w : Window) (at_ms : Z) : bool := window_span w at_ms && negb (whole_span w at_ms).
Lemma window_split db key w :
  window_rows db key w ≡ₚ contributions db key (whole_span w) ++ contributions db key (partial_span w).
Proof.
  unfold window_rows. rewrite <-contributions_split.
  - rewrite (contributions_ext db key (window_span w) (λ t, whole_span w t || partial_span w t)); [done|].
    intros t. unfold partial_span. destruct (whole_span w t) eqn:E; simpl; [|by rewrite andb_true_r].
    unfold whole_span, window_span, in_span in *. cbn [from_option] in E. apply andb_true_iff in E as [Ha%Z.leb_le Hb%Z.ltb_lt].
    pose proof (day_of_bounds (metered_start_ms w + (DAY_MS - 1))).
    pose proof (day_of_bounds (default I64_MAX (w_ends_at_ms w))).
    apply andb_true_iff. split; [apply Z.leb_le; lia|]. destruct (w_ends_at_ms w); simpl in *; [apply Z.ltb_lt; lia|done].
  - intros t Ht. unfold partial_span. rewrite Ht. by rewrite andb_false_r.
Qed.
Lemma window_aggregate_total top db key w : days_ok top db → top ≤ I64_MAX →
  0 ≤ metered_start_ms w → metered_start_ms w + (DAY_MS - 1) ≤ I64_MAX → fits (window_rows db key w) →
  ∃ c, window_aggregate db key w = Ok c ∧ window_facts top (window_rows db key w) c.
Proof.
  intros Hok Htop Hw0 Hw1. rewrite (window_split db key w). intros Hf.
  pose proof (fits_app _ _ Hf) as [(Hfa & Hfr & Hfn) _].
  destruct (whole_days_aggregate top db key _ _ Hok Hfa Hfr Hfn) as (c & Hfold & Hag & Hcw).
  unfold window_aggregate. rewrite checked_i64_in by (unfold DAY_MS in *; width_lia). cbn [mbind result_bind ok_or]. rewrite Hfold.
  cbn [mbind result_bind]. rewrite (checkpoint_count_rows _ _ Hag) by done. cbn [mbind result_bind].
  fold (whole_span w).
  set (whole := contributions db key (whole_span w)) in *.
  assert (Z.of_nat (length whole) = Z.of_nat (length (filter (λ a, whole_span w (a_started_at_ms a)) (scope_attempts db key)))
    + Z.of_nat (length (filter (λ g, whole_span w (g_started_at_ms g)) (scope_gaps db key)))) as Hcount.
  { unfold whole, contributions. rewrite length_app, !length_fmap. lia. }
  rewrite Hcount, Z.eqb_refl. cbn [negb fail_if mbind result_bind].
  set (attempts_edge := filter (λ a, partial_span w (a_started_at_ms a)) (scope_attempts db key)).
  set (gaps_edge := filter (λ g, partial_span w (g_started_at_ms g)) (scope_gaps db key)).
  assert (contributions db key (partial_span w) = (attempt_contribution <$> attempts_edge) ++ (gap_contribution <$> gaps_edge)) as Hp by done.
  assert (∀ d, d ∈ contributions db key (partial_span w) → contribution_ok d ∧ mark_ok top (c_watermark d)) as Hpok
    by apply (contributions_ok top db key (partial_span w) Hok).
  rewrite Hp in *.
  destruct (fold_changes top (attempt_contribution <$> attempts_edge) c whole Hag Hcw Htop) as (c' & Hfold' & Hag' & Hcw').
  { intros d Hd. apply Hpok, elem_of_app. by left. }
  { assert (whole ++ (attempt_contribution <$> attempts_edge) ++ (gap_contribution <$> gaps_edge) ≡ₚ
      ((attempt_contribution <$> attempts_edge) ++ whole) ++ (gap_contribution <$> gaps_edge)) as Hq by solve_Permutation.
    rewrite Hq in Hf. by apply fits_app in Hf as [? _]. }
  rewrite try_fold_fmap in Hfold'.
  match goal with |- context [try_fold _ c ?l] => change l with attempts_edge end. rewrite Hfold'. cbn [mbind result_bind].
  match goal with |- context [match ?l with [] => _ | _ => _ end] => change l with gaps_edge end.
  pose proof (aggregates_facts top _ _ Hag' Hcw') as Hfacts. destruct gaps_edge as [|g gs] eqn:Eg.
  - exists c'. split; [done|]. eapply window_facts_perm; [|exact Hfacts].
    rewrite (window_split db key w). fold whole. rewrite Hp. simpl. rewrite app_nil_r. solve_Permutation.
  - assert (∀ g', g' ∈ g :: gs → mark_ok top (g_watermark g')) as Hmarks.
    { intros g' Hg. destruct (Hpok (gap_contribution g')) as [_ ?]; [|done].
      apply elem_of_app. right. by apply list_elem_of_fmap_2. }
    assert (0 ≤ foldr (λ g m, Z.max (g_watermark g) m) 0 (g :: gs) ≤ U64_MAX) as Hmax.
    { assert (top ≤ U64_MAX) by width_lia. clear -Hmarks H0. induction (g :: gs) as [|x l IH]; simpl; [width_lia|].
      destruct (Hmarks x ltac:(left)). destruct IH; [intros; apply Hmarks; by right|]. lia. }
    unfold column_u64. rewrite checked_u64_in by done. cbn [mbind result_bind ok_or]. eexists. split; [done|].
    eapply window_facts_perm; [|exact (add_gaps top _ _ (g :: gs) _ _ Hfacts ltac:(done) Hmarks eq_refl)].
    rewrite (window_split db key w). fold whole. rewrite Hp. solve_Permutation.
Qed.
End ledger.
