(* ===== verification/ValueRows.v ===== *)
(** * Changing one row of the ledger

    A row is written together with its day's checkpoint: the invariant of the ledger is kept by the replacement of
    an attempt, by a new attempt, by the removal of a gap and by a rebuild. *)
From S2P Require Import Prelude MapSum RustStr Json ModelIdentity ValuePricing ValueTables.
From S2P Require Import ValueCheckpoints ValueLedger.
From Stdlib Require Import ZArith Lia.

Local Open Scope Z_scope.

Section rows.
Context `{!Digest, !Serde Scope, !Serde Checkpoint, !Serde AdjustmentPayload, !Serde (list string)}.

Lemma contributions_tables db db' scope span : attempts db' = attempts db → gaps db' = gaps db →
  contributions db' scope span = contributions db scope span.
Proof. intros Ha Hg. unfold contributions, scope_attempts, scope_gaps. by rewrite Ha, Hg. Qed.
Lemma read_checkpoint_tables db db' key day : checkpoints db' = checkpoints db →
  read_checkpoint db' key day = read_checkpoint db key day.
Proof. intros Hc. unfold read_checkpoint. by rewrite Hc. Qed.
Lemma days_ok_tables top db db' : attempts db' = attempts db → gaps db' = gaps db →
  checkpoints db' = checkpoints db → days_ok top db → days_ok top db'.
Proof.
  intros Ha Hg Hc [H1 H2 H3]. split; rewrite ?Ha, ?Hg; [done..|]. intros scope day.
  rewrite (read_checkpoint_tables db db'), (contributions_tables db db') by done. apply H3.
Qed.
Lemma days_ok_mono top top' db : top ≤ top' → days_ok top db → days_ok top' db.
Proof.
  intros Hle [H1 H2 H3]. unfold mark_ok in *. split.
  - intros id a Hid. destruct (H1 id a Hid) as (? & ? & ?). split; [done|]. split; [done|]. unfold mark_ok. lia.
  - intros id g Hid. destruct (H2 id g Hid) as (? & ?). split; [done|]. unfold mark_ok. lia.
  - intros scope day. destruct (H3 scope day) as (c & ? & ? & ?). exists c. split; [done|]. split; [done|]. lia.
Qed.

(** The rows after an attempt is written. *)
Lemma contributions_insert db db' id new scope span : attempts db' = <[id := new]> (attempts db) → gaps db' = gaps db →
  contributions db' scope span ++ from_option (λ o, attempt_part scope span (id, o)) [] (attempts db !! id) ≡ₚ
  attempt_part scope span (id, new) ++ contributions db scope span.
Proof.
  intros Ha Hg. rewrite !contributions_parts, Ha, Hg.
  pose proof (flat_map_insert (attempt_part scope span) (attempts db) id new) as Hf.
  rewrite app_assoc, <-Hf. solve_Permutation.
Qed.
Lemma contributions_remove_gap db db' id g scope span : attempts db' = attempts db → gaps db' = delete id (gaps db) →
  gaps db !! id = Some g →
  contributions db scope span ≡ₚ gap_part scope span (id, g) ++ contributions db' scope span.
Proof.
  intros Ha Hg Hid. rewrite !contributions_parts, Ha, Hg, (flat_map_delete _ (gaps db) id), Hid. simpl. solve_Permutation.
Qed.
Lemma attempt_part_day scope day id a :
  attempt_part scope (on_day day) (id, a) =
  if bool_decide ((a_scope a, day_of (a_started_at_ms a)) = (scope, day)) then [attempt_contribution a] else [].
Proof.
  unfold attempt_part, on_day. simpl. destruct (str_eqb (a_scope a) scope) eqn:E.
  - apply str_eqb_eq in E as ->. simpl. destruct (Z.eqb_spec (day_of (a_started_at_ms a)) day) as [->|];
      [by rewrite bool_decide_true|by rewrite bool_decide_false by naive_solver].
  - apply str_eqb_neq in E. by rewrite bool_decide_false by naive_solver.
Qed.
Lemma gap_part_day scope day id g :
  gap_part scope (on_day day) (id, g) =
  if bool_decide ((id.1, day_of (g_started_at_ms g)) = (scope, day)) then [gap_contribution g] else [].
Proof.
  unfold gap_part, on_day. simpl. destruct (str_eqb id.1 scope) eqn:E.
  - apply str_eqb_eq in E as ->. simpl. destruct (Z.eqb_spec (day_of (g_started_at_ms g)) day) as [->|];
      [by rewrite bool_decide_true|by rewrite bool_decide_false by naive_solver].
  - apply str_eqb_neq in E. by rewrite bool_decide_false by naive_solver.
Qed.

(** ** Writing a checkpoint *)
Definition same_contribution (d d' : Contribution) : Prop :=
  c_amount d' = c_amount d ∧ c_risk d' = c_risk d ∧ c_state d' = c_state d ∧ c_revision d' = c_revision d.
Lemma read_written db scope day c : ∀ db', write_checkpoint db scope day c = Ok db' →
  0 ≤ day ∧ db' = set_checkpoints (<[(scope, day) := (to_json c, sha256_hex (to_json c))]> (checkpoints db)) db ∧
  ∀ scope' day', read_checkpoint db' scope' day' =
    if bool_decide ((scope, day) = (scope', day')) then Ok c else read_checkpoint db scope' day'.
Proof.
  intros db' Hw. unfold write_checkpoint in Hw. invert_ok. split; [done|]. split; [done|].
  intros scope' day'. unfold read_checkpoint at 1. cbn [checkpoints set_checkpoints]. case_bool_decide as Hk.
  - injection Hk as -> ->. rewrite lookup_insert_eq, str_eqb_refl. simpl. by rewrite from_to.
  - by rewrite lookup_insert_ne.
Qed.
(** The checkpoint of a day after the contribution of one row is replaced. *)
Lemma update_checkpoint_day top db db1 key at_ms old new l db' : days_ok top db → checkpoints db1 = checkpoints db →
  contributions db key (on_day (day_of at_ms)) ≡ₚ option_list old ++ l →
  ∀ old', match old, old' with Some d, Some d' => same_contribution d d' | None, None => True | _, _ => False end →
  update_checkpoint db1 key at_ms old' new = Ok db' →
  ∃ c, write_checkpoint db1 key (day_of at_ms) c = Ok db' ∧ aggregates (option_list new ++ l) c ∧
    (∀ d, new = Some d → contribution_ok d) ∧
    0 ≤ cp_watermark c ∧
    ∀ top', top ≤ top' → (∀ d, old' = Some d → c_watermark d ≤ top') → (∀ d, new = Some d → c_watermark d ≤ top') →
      cp_watermark c ≤ top'.
Proof.
  intros Hok Hcp Hl old' Hsame Hu. unfold update_checkpoint in Hu. invert_ok.
  destruct (do_checkpoints _ _ Hok key (day_of at_ms)) as (c & Hc & Hag & Hw). rewrite Hl in Hag.
  rewrite (read_checkpoint_tables db db1), Hc in H0 by done. injection H0 as <-.
  assert (∃ c1, changed c old' false = Ok c1 ∧ aggregates l c1 ∧ 0 ≤ cp_watermark c1 ∧
    ∀ top', top ≤ top' → (∀ d, old' = Some d → c_watermark d ≤ top') → cp_watermark c1 ≤ top') as (c1 & Hc1 & Hag1 & Hw1 & Hm1).
  { destruct old as [d|], old' as [d'|]; try done; simpl in *.
    - exists x0. destruct Hsame as (? & ? & ? & ?). split; [done|].
      split; [by eapply change_Ok_drop|]. pose proof (change_steps _ _ _ _ H1) as (_ & _ & _ & _ & ->).
      split; [lia|]. intros top' ? Hd. specialize (Hd d' eq_refl). lia.
    - exists c. split_and!; [done..|lia|]. intros. lia. }
  rewrite Hc1 in H1. injection H1 as <-. destruct new as [d|]; simpl in *.
  - destruct (change_Ok_add _ _ _ _ Hag1 H2) as [Hd Hag2]. pose proof (change_steps _ _ _ _ H2) as (_ & _ & _ & _ & Hw2).
    exists x1. split; [done|]. split; [done|]. split; [by intros ? [= <-]|]. split; [lia|]. intros top' Hle Ho Hn. specialize (Hn d eq_refl). specialize (Hm1 top' Hle Ho). lia.
  - simplify_eq. exists x1. split; [done|]. split; [done|]. split; [done|]. split; [done|]. intros top' Hle Ho _. by apply Hm1.
Qed.

(** The invariant after one checkpoint is rewritten, when the rows of the other days are as before. *)
Lemma written_days_ok top top' db db1 db2 key at_ms c : days_ok top db → top ≤ top' →
  checkpoints db1 = checkpoints db →
  (∀ id a, attempts db1 !! id = Some a →
    0 ≤ a_started_at_ms a ∧ contribution_ok (attempt_contribution a) ∧ mark_ok top' (a_watermark a)) →
  (∀ id g, gaps db1 !! id = Some g → 0 ≤ g_started_at_ms g ∧ mark_ok top' (g_watermark g)) →
  (∀ scope day, (key, day_of at_ms) ≠ (scope, day) →
    contributions db1 scope (on_day day) ≡ₚ contributions db scope (on_day day)) →
  aggregates (contributions db1 key (on_day (day_of at_ms))) c → 0 ≤ cp_watermark c ≤ top' →
  write_checkpoint db1 key (day_of at_ms) c = Ok db2 → days_ok top' db2.
Proof.
  intros Hok Hle Hcp Ha Hg Hother Hag Hw (_ & -> & Hread)%read_written. split; [done..|].
  intros scope day. rewrite Hread.
  rewrite (contributions_tables db1 (set_checkpoints _ db1)) by done. case_bool_decide as Hk.
  - injection Hk as <- <-. by exists c.
  - destruct (do_checkpoints _ _ Hok scope day) as (c' & Hc & Hag' & ?). exists c'.
    rewrite (read_checkpoint_tables db db1) by done. split; [done|]. split; [|lia]. by rewrite Hother.
Qed.
Definition replaced (o : option AttemptRow) (old : option Contribution) (new : AttemptRow) : Prop :=
  match o, old with
  | Some a, Some d => a_scope a = a_scope new ∧ a_started_at_ms a = a_started_at_ms new
      ∧ same_contribution (attempt_contribution a) d ∧ 0 ≤ c_watermark d
  | None, None => True
  | _, _ => False
  end.
(** An attempt written with its day's checkpoint. *)
Lemma put_attempt_ok top top' db db1 db2 id new old : days_ok top db → top ≤ top' →
  attempts db1 = <[id := new]> (attempts db) → gaps db1 = gaps db → checkpoints db1 = checkpoints db →
  0 ≤ a_started_at_ms new → mark_ok top' (a_watermark new) →
  replaced (attempts db !! id) old new → (∀ d, old = Some d → c_watermark d ≤ top') →
  update_checkpoint db1 (a_scope new) (a_started_at_ms new) old (Some (attempt_contribution new)) = Ok db2 →
  days_ok top' db2 ∧ ∃ m, db2 = set_checkpoints m db1.
Proof.
  intros Hok Hle Hat Hgp Hcp Hst Hmark Hrep Hold Hu.
  pose proof (contributions_insert db db1 id new) as Hins.
  set (key := a_scope new) in *. set (day := day_of (a_started_at_ms new)) in *.
  assert (∃ l, contributions db key (on_day day) ≡ₚ option_list (attempt_contribution <$> attempts db !! id) ++ l) as [l Hl].
  { unfold replaced in Hrep. destruct (attempts db !! id) as [a|] eqn:Hid; simpl; [|by eexists].
    destruct old; [|done]. destruct Hrep as (Hs & Ht & _). apply elem_of_Permutation, elem_of_contributions. left.
    exists id, a. split_and!; [done..| |done]. unfold on_day, day. rewrite Ht. apply Z.eqb_refl. }
  assert (∀ scope d, from_option (λ o, attempt_part scope (on_day d) (id, o)) [] (attempts db !! id) =
    if bool_decide ((key, day) = (scope, d)) then option_list (attempt_contribution <$> attempts db !! id) else []) as Hpart.
  { intros scope d. unfold replaced in Hrep. destruct (attempts db !! id) as [a|]; cbn [from_option fmap option_fmap option_map option_list];
      [|by destruct (bool_decide _)]. destruct old; [|done]. destruct Hrep as (Hs & Ht & _). rewrite attempt_part_day, Hs, Ht. done. }
  assert (contributions db1 key (on_day day) ≡ₚ attempt_contribution new :: l) as Hnew.
  { specialize (Hins key (on_day day) Hat Hgp). rewrite Hpart, attempt_part_day, !bool_decide_true, Hl in Hins by done.
    simpl in Hins. apply (Permutation_app_inv_r (option_list (attempt_contribution <$> attempts db !! id))).
    rewrite Hins. solve_Permutation. }
  destruct (update_checkpoint_day top db db1 key (a_started_at_ms new) (attempt_contribution <$> attempts db !! id)
    (Some (attempt_contribution new)) l db2 Hok Hcp Hl old) as (c & Hwc & Hag & Hd & Hw0 & Hwt); [|done|].
  { unfold replaced in Hrep. destruct (attempts db !! id), old; naive_solver. }
  split; [|apply read_written in Hwc as (_ & -> & _); by eexists].
  apply (written_days_ok top top' db db1 db2 key (a_started_at_ms new) c); [done..| | | | | |exact Hwc].
  - intros id' a. rewrite Hat. intros [[<- <-]|[_ Ha]]%lookup_insert_Some.
    + split; [done|]. split; [by apply Hd|done].
    + by apply (do_attempts _ _ (days_ok_mono top top' db Hle Hok) id').
  - intros id' g. rewrite Hgp. apply (do_gaps _ _ (days_ok_mono top top' db Hle Hok)).
  - intros scope d Hne. specialize (Hins scope (on_day d) Hat Hgp). rewrite Hpart, attempt_part_day in Hins.
    fold key day in Hins. rewrite !bool_decide_false, app_nil_r in Hins by done. done.
  - fold day. by rewrite Hnew.
  - split; [done|]. apply Hwt; [done..|]. intros d [= <-]. apply Hmark.
Qed.
(** A gap removed with its day's checkpoint. *)
Lemma drop_gap_ok top db db1 id g : days_ok top db → gaps db !! id = Some g →
  update_checkpoint db id.1 (g_started_at_ms g) (Some (gap_contribution g)) None = Ok db1 →
  days_ok top (set_gaps (delete id (gaps db1)) db1).
Proof.
  intros Hok Hid Hu. set (day := day_of (g_started_at_ms g)) in *.
  set (db' := set_gaps (delete id (gaps db)) db).
  pose proof (λ scope span, contributions_remove_gap db db' id g scope span eq_refl eq_refl Hid) as Hrem.
  assert (contributions db id.1 (on_day day) ≡ₚ gap_contribution g :: contributions db' id.1 (on_day day)) as Hl.
  { by rewrite Hrem, gap_part_day, bool_decide_true. }
  destruct (update_checkpoint_day top db db id.1 (g_started_at_ms g) (Some (gap_contribution g)) None _ db1 Hok eq_refl Hl
    (Some (gap_contribution g))) as (c & Hwc & Hag & _ & Hw0 & Hwt); [done|done|].
  apply (written_days_ok top top db db' _ id.1 (g_started_at_ms g) c); try done.
  - apply Hok.
  - intros id' g' Hg. change (delete id (gaps db) !! id' = Some g') in Hg. apply lookup_delete_Some in Hg as [_ Hg]. by apply (do_gaps _ _ Hok id').
  - intros scope d Hne. rewrite (Hrem scope (on_day d)), gap_part_day, bool_decide_false by done. done.
  - split; [done|]. apply Hwt; [done|intros d [= <-]; by apply (do_gaps _ _ Hok id)|done].
  - apply read_written in Hwc as (Hd & -> & _). unfold write_checkpoint. by rewrite (proj2 (Z.ltb_ge _ _)).
Qed.

(** ** Rebuilding *)
Definition rebuild_step (days : gmap Z Checkpoint) (e : Z * Contribution) : result QuotaError (gmap Z Checkpoint) :=
  d ← with_column e.2;
  c ← change (default checkpoint_empty (days !! day_of e.1)) d true;
  Ok (<[day_of e.1 := c]> days).
Definition dated_rows (db : Database) (scope : string) : list (Z * Contribution) :=
  ((λ a, (a_started_at_ms a, attempt_contribution a)) <$> scope_attempts db scope)
  ++ ((λ g, (g_started_at_ms g, gap_contribution g)) <$> scope_gaps db scope).
Definition rows_on (day : Z) (rows : list (Z * Contribution)) : list Contribution :=
  (filter (λ e, on_day day e.1) rows).*2.
Lemma dated_rows_on db scope day : rows_on day (dated_rows db scope) = contributions db scope (on_day day).
Proof.
  unfold rows_on, dated_rows, contributions. rewrite filter_app, fmap_app. f_equal.
  - induction (scope_attempts db scope) as [|a l IH]; [done|]. rewrite fmap_cons, !filter_cons. cbn [fst].
    destruct (on_day day (a_started_at_ms a)); [rewrite !decide_True by done; by rewrite !fmap_cons, IH|by rewrite !decide_False by naive_solver].
  - induction (scope_gaps db scope) as [|a l IH]; [done|]. rewrite fmap_cons, !filter_cons. cbn [fst].
    destruct (on_day day (g_started_at_ms a)); [rewrite !decide_True by done; by rewrite !fmap_cons, IH|by rewrite !decide_False by naive_solver].
Qed.
Lemma rebuild_fold top rows days days' (f : Z → list Contribution) :
  (∀ day, aggregates (f day) (default checkpoint_empty (days !! day))
     ∧ 0 ≤ cp_watermark (default checkpoint_empty (days !! day)) ≤ top) →
  (∀ e, e ∈ rows → c_watermark e.2 ≤ top) →
  try_fold rebuild_step days rows = Ok days' →
  ∀ day, aggregates (rows_on day rows ++ f day) (default checkpoint_empty (days' !! day))
    ∧ 0 ≤ cp_watermark (default checkpoint_empty (days' !! day)) ≤ top.
Proof.
  revert days f. induction rows as [|[t d] rows IH]; intros days f Hf Hrows Hfold day.
  { injection Hfold as <-. apply Hf. }
  cbn [try_fold] in Hfold. apply bind_Ok in Hfold as (days1 & Hstep & Hfold).
  unfold rebuild_step in Hstep. cbn [fst snd] in Hstep. apply bind_Ok in Hstep as (d' & Hcol & Hstep).
  assert (d' = d) as -> by (unfold with_column in Hcol; by invert_ok). apply bind_Ok in Hstep as (c & Hc & [= <-]).
  destruct (Hf (day_of t)) as [Hag Hw]. destruct (change_Ok_add _ _ _ _ Hag Hc) as [_ Hag'].
  pose proof (change_steps _ _ _ _ Hc) as (_ & _ & _ & _ & Hcw). pose proof (Hrows _ ltac:(left)) as Hd. simpl in Hd.
  destruct (IH (<[day_of t := c]> days) (λ day, if bool_decide (day = day_of t) then d :: f day else f day)) with (day := day)
    as [IHa IHw]; [|by intros; apply Hrows; right|done|].
  - intros day'. case_bool_decide as Hk.
    + subst day'. rewrite lookup_insert_eq. simpl. split; [done|]. lia.
    + rewrite lookup_insert_ne by done. apply Hf.
  - split; [|done]. eapply aggregates_perm; [|done|exact IHa]. unfold rows_on. rewrite filter_cons. cbn [fst].
    case_bool_decide as Hk.
    + rewrite decide_True by (subst day; unfold on_day; by rewrite Z.eqb_refl). simpl. by rewrite Permutation_middle.
    + rewrite decide_False; [done|]. intros Hd'%Is_true_true%Z.eqb_eq. congruence.
Qed.
Lemma write_fold scope es db db' : NoDup es.*1 →
  try_fold (λ db '(day, c), write_checkpoint db scope day c) db es = Ok db' →
  (∃ m, db' = set_checkpoints m db) ∧
  ∀ s day, read_checkpoint db' s day =
    if bool_decide (s = scope) then
      match list_to_map (M := gmap Z Checkpoint) es !! day with Some c => Ok c | None => read_checkpoint db s day end
    else read_checkpoint db s day.
Proof.
  revert db. induction es as [|[d c] es IH]; intros db Hnd Hfold.
  { injection Hfold as <-. split; [exists (checkpoints db); by destruct db|]. intros. by case_bool_decide. }
  rewrite fmap_cons in Hnd. apply NoDup_cons in Hnd as [Hn Hnd]. cbn [try_fold] in Hfold.
  apply bind_Ok in Hfold as (db1 & (_ & Hdb1 & Hread)%read_written & Hfold). destruct (IH db1 Hnd Hfold) as [[m ->] IHr].
  split; [rewrite Hdb1; by exists m|]. intros s day. rewrite IHr, Hread. cbn [list_to_map foldr].
  case_bool_decide as Hs; [|by rewrite bool_decide_false by naive_solver]. subst s.
  destruct (decide (d = day)) as [<-|Hd].
  - rewrite lookup_insert_eq, not_elem_of_list_to_map_1, bool_decide_true by done. done.
  - rewrite lookup_insert_ne, bool_decide_false by naive_solver. done.
Qed.
(** Whatever the checkpoints of the scope were, a rebuild ties them to its rows. *)
Lemma rebuild_ok top db key db' n :
  (∀ id a, attempts db !! id = Some a →
    0 ≤ a_started_at_ms a ∧ contribution_ok (attempt_contribution a) ∧ mark_ok top (a_watermark a)) →
  (∀ id g, gaps db !! id = Some g → 0 ≤ g_started_at_ms g ∧ mark_ok top (g_watermark g)) →
  (∀ scope day, scope ≠ key → ∃ c, read_checkpoint db scope day = Ok c ∧
    aggregates (contributions db scope (on_day day)) c ∧ 0 ≤ cp_watermark c ≤ top) →
  0 ≤ top → rebuild_checkpoints db key = Ok (db', n) → days_ok top db' ∧ ∃ m, db' = set_checkpoints m db.
Proof.
  intros Ha Hg Hother Htop Hre. unfold rebuild_checkpoints in Hre. invert_ok.
  assert (try_fold rebuild_step ∅ (dated_rows db key) = Ok x0) as Hfold.
  { unfold dated_rows. rewrite try_fold_app, try_fold_fmap.
    pose proof (H0 : try_fold (λ s x, rebuild_step s (a_started_at_ms x, attempt_contribution x)) ∅ (scope_attempts db key) = Ok _) as ->.
    cbn [mbind result_bind]. rewrite try_fold_fmap. exact H1. }
  destruct (write_fold key _ _ _ (NoDup_fst_map_to_list x0) H2) as [[m ->] Hread].
  rewrite list_to_map_to_list in Hread.
  assert (∀ e, e ∈ dated_rows db key → c_watermark e.2 ≤ top) as Hmarks.
  { intros e [(a & -> & Hin)%list_elem_of_fmap|(g & -> & Hin)%list_elem_of_fmap]%elem_of_app.
    - apply list_elem_of_filter in Hin as [_ ([id a'] & -> & Hid%elem_of_map_to_list)%list_elem_of_fmap].
      by apply (Ha id).
    - apply list_elem_of_fmap in Hin as ([id g'] & -> & [_ Hid%elem_of_map_to_list]%list_elem_of_filter).
      by apply (Hg id). }
  pose proof (rebuild_fold top _ _ _ (λ _, []) ltac:(intros day; rewrite lookup_empty; simpl; split; [apply aggregates_nil|lia])
    Hmarks Hfold) as Hdays.
  split; [|by eexists]. split; [done..|]. intros scope day. rewrite Hread.
  rewrite (contributions_tables db) by done.
  assert (∀ d, read_checkpoint (set_checkpoints (filter (λ e, e.1.1 ≠ key) (checkpoints db)) db) key d = Ok checkpoint_empty) as Hgone.
  { intros d. unfold read_checkpoint. cbn [checkpoints set_checkpoints].
    rewrite (proj2 (map_lookup_filter_None _ _ _)); [done|]. right. naive_solver. }
  case_bool_decide as Hs.
  - subst scope. destruct (Hdays day) as [Hag Hw]. rewrite dated_rows_on, app_nil_r in Hag.
    exists (default checkpoint_empty (x0 !! day)). split; [|done]. destruct (x0 !! day); [done|]. apply Hgone.
  - destruct (Hother scope day Hs) as (c & Hc & ?). exists c. split; [|done]. rewrite <-Hc. unfold read_checkpoint.
    cbn [checkpoints set_checkpoints]. destruct (checkpoints db !! (scope, day)) as [p|] eqn:E.
    + by rewrite (proj2 (map_lookup_filter_Some _ _ _ _)) by done.
    + by rewrite (proj2 (map_lookup_filter_None _ _ _)) by (by left).
Qed.
End rows.
