(* ===== verification/ValueHistory.v ===== *)
(** * The USD ledger under its operations

    Every operation keeps the invariant of the ledger, whatever it answers: admissions, settlements, the sweeper,
    compaction, adjustments with their reconcile, and the writes to coverage, tariffs and snapshots. *)
From S2P Require Import Prelude MapSum RustStr Json ModelIdentity ValuePricing ValueTables.
From S2P Require Import ValueAdmission ValueSettlement ValueMaintenance ValueCheckpoints ValueLedger ValueRows.
From Stdlib Require Import ZArith Lia Ascii.

Local Open Scope Z_scope.

Lemma parse_i64_pretty n : 0 ≤ n ≤ I64_MAX → parse_i64 (pretty n) = Ok n.
Proof.
  intros Hn. destruct (dec_value_pretty n ltac:(lia)) as (Hne & Hd & _ & Hv). unfold parse_i64.
  assert (∀ c rest, pretty n = String c rest → is_ascii_digit c = true) as Hc.
  { intros c rest E. rewrite E in Hd. by apply andb_true_iff in Hd as [? _]. }
  apply is_empty_false in Hne.
  assert (match pretty n with
    | String "-"%char rest => (true, rest)
    | String "+"%char rest => (false, rest)
    | _ => (false, pretty n)
    end = (false, pretty n)) as ->.
  { destruct (pretty n) as [|c rest] eqn:E; [done|]. specialize (Hc _ _ eq_refl).
    destruct (decide (c = "-"%char)) as [->|H1]; [done|]. destruct (decide (c = "+"%char)) as [->|H2]; [done|].
    destruct c as [[] [] [] [] [] [] [] []]; done. }
  rewrite Hne, Hd. simpl. rewrite Hv. by rewrite checked_i64_in by width_lia.
Qed.

Section history.
Context `{!Digest, !Serde Scope, !Serde Checkpoint, !Serde AdjustmentPayload, !Serde (list string)}.
Context `{!Serde (string * string), !Serde (Scope * string), !Serde AttemptMeta, !Serde MarketTrialAttempt}.
Context `{!Serde PricingSnapshot, !Serde ExecutionModelPrice, !Serde PendingTariff, !Serde RouterBlock}.
Context (observation_json : Observation → string).
Context (outcome_json : string → string → Z → AttemptOutcome → string → string).

(** ** Keys of [meta] *)
Definition marker_prefix (key : string) : Prop := ∃ rest, key = "value_trial_attempt:" +:+ rest.
(** A key that is neither the watermark nor the index of a trial attempt. *)
Definition free_key (key : string) : Prop :=
  key ≠ WATERMARK_KEY ∧ ∀ request attempt, key ≠ trial_index_key request attempt.
Lemma marker_free key : marker_prefix key → free_key key.
Proof. by intros [rest ->]. Qed.
Lemma trial_marker_prefix a t : marker_prefix (trial_marker_key a t).
Proof. unfold trial_marker_key, trial_attempt_prefix. rewrite <-app_assoc_string. by eexists. Qed.
Lemma attempt_meta_free r a : free_key (attempt_meta_key r a).
Proof. done. Qed.
Lemma block_free k w : free_key (block_key k w).
Proof. done. Qed.
Lemma legacy_free k : free_key (legacy_scope_block_key k).
Proof. done. Qed.
Lemma tariff_free s : free_key (active_key s) ∧ free_key (pending_tariff_key s).
Proof. done. Qed.

(** ** The invariant, with the index of trial attempts *)
Record book_ok (top : Z) (db : Database) : Prop := {
  bk_ledger : ledger_ok top db;
  bk_index : ∀ r a key, meta db !! trial_index_key r a = Some key → marker_prefix key;
}.
(** What an operation that leaves the ledger's rows alone may change. *)
Record frame (db db' : Database) : Prop := {
  fr_attempts : attempts db' = attempts db; fr_gaps : gaps db' = gaps db;
  fr_checkpoints : checkpoints db' = checkpoints db; fr_adjustments : adjustments db' = adjustments db;
  fr_top : meta db' !! WATERMARK_KEY = meta db !! WATERMARK_KEY;
  fr_index : ∀ r a key, meta db' !! trial_index_key r a = Some key →
    meta db !! trial_index_key r a = Some key ∨ marker_prefix key;
}.
Lemma frame_ok top db db' : frame db db' → book_ok top db → book_ok top db'.
Proof.
  intros [Ha Hg Hc Hj Ht Hi] [[Hl1 Hl2 Hl3] Hx]. split; [split|].
  - by rewrite Ht.
  - by eapply days_ok_tables.
  - by rewrite Hj.
  - intros r a key [Hk|Hk]%Hi; [by eapply Hx|done].
Qed.
#[global] Instance frame_preorder : PreOrder frame.
Proof.
  split; [by split; auto|]. intros db1 db2 db3 [] []. split; try congruence.
  intros r a key [Hk|Hk]%fr_index1; [by apply fr_index0|by right].
Qed.
Lemma frame_insert db key value : free_key key → frame db (set_meta (<[key := value]> (meta db)) db).
Proof.
  intros [Hw Hi]. split; cbn; [done..|by rewrite lookup_insert_ne|].
  intros r a k Hk. rewrite lookup_insert_ne in Hk by done. by left.
Qed.
Lemma frame_delete db key : free_key key → frame db (set_meta (delete key (meta db)) db).
Proof.
  intros [Hw Hi]. split; cbn; [done..|by rewrite lookup_delete_ne|].
  intros r a k [_ Hk]%lookup_delete_Some. by left.
Qed.
Lemma insert_meta_frame db key value db' : free_key key → insert_meta db key value = Ok db' → frame db db'.
Proof. intros Hk Hi. unfold insert_meta in Hi. invert_ok. by apply frame_insert. Qed.
Lemma mark_trial_frame db a trial db' : mark_trial db a trial = Ok db' → frame db db'.
Proof.
  destruct trial as [t|]; simpl; intros Hm; [|by injection Hm as <-]. invert_ok.
  etrans; [eapply insert_meta_frame; [apply marker_free, trial_marker_prefix|done]|].
  unfold insert_meta in H1. invert_ok. split; cbn; [done..| |].
  - by rewrite lookup_insert_ne.
  - intros r a' k [[_ <-]|[_ Hk]]%lookup_insert_Some; [right; apply trial_marker_prefix|by left].
Qed.
Lemma raise_floor_frame top db id old amount db' : book_ok top db → raise_trial_floor db id old amount = Ok db' → frame db db'.
Proof.
  intros Hok Hr. unfold raise_trial_floor in Hr. apply bind_Ok in Hr as (found & Hf & Hr).
  destruct found as [[key marker]|]; [|by injection Hr as <-]. invert_ok. apply frame_insert, marker_free.
  unfold read_trial_attempt in Hf. destruct (meta db !! trial_index_key id.1 id.2) as [k|] eqn:Ek; [|done].
  invert_ok. by eapply bk_index.
Qed.

(** ** Watermarks *)
Lemma next_watermark_ok top db db' w : book_ok top db → next_watermark db = Ok (db', w) →
  w = top + 1 ∧ w ≤ I64_MAX ∧ db' = set_meta (<[WATERMARK_KEY := pretty w]> (meta db)) db.
Proof.
  intros [[[Ht ?] _ _] _] Hn. unfold next_watermark in Hn. rewrite Ht in Hn. cbn [ok_or mbind result_bind] in Hn.
  rewrite parse_i64_pretty in Hn by done. invert_ok. split_and!; [done|lia|done].
Qed.
(** The rows under a new watermark, and the tables the ledger does not read. *)
Lemma book_next top db db2 : book_ok top db → top + 1 ≤ I64_MAX →
  meta db2 !! WATERMARK_KEY = Some (pretty (top + 1)) → adjustments db2 = adjustments db →
  (∀ r a key, meta db2 !! trial_index_key r a = Some key → meta db !! trial_index_key r a = Some key ∨ marker_prefix key) →
  days_ok (top + 1) db2 → book_ok (top + 1) db2.
Proof.
  intros [[[Ht ?] _ Hj] Hx] Hle Hw Ha Hi Hd. split; [split|].
  - split; [done|lia].
  - done.
  - rewrite Ha. intros id j Hid. destruct (Hj id j Hid) as [Hm ?]. split; [|done]. unfold mark_ok in *. lia.
  - intros r a key [Hk|Hk]%Hi; [by eapply Hx|done].
Qed.
Lemma next_watermark_frame top db db1 w : book_ok top db → next_watermark db = Ok (db1, w) →
  w = top + 1 ∧ top + 1 ≤ I64_MAX ∧ meta db1 !! WATERMARK_KEY = Some (pretty (top + 1)) ∧
  (∀ r a, meta db1 !! trial_index_key r a = meta db !! trial_index_key r a) ∧
  db1 = set_meta (meta db1) db.
Proof.
  intros Hok (-> & ? & ->)%(next_watermark_ok top); [|done]. cbn [meta set_meta].
  split_and!; [done..|apply lookup_insert_eq| |done]. intros r a. by rewrite lookup_insert_ne.
Qed.
Lemma write_attempt_ok db id a db' : write_attempt db id a = Ok db' →
  0 ≤ a_started_at_ms a ∧ 0 < a_watermark a ∧ db' = set_attempts (<[id := a]> (attempts db)) db.
Proof.
  unfold write_attempt. intros Hw. invert_ok. unfold attempt_allowed in H0.
  repeat (apply andb_true_iff in H0 as [H0 ?]). apply Z.leb_le in H0. apply Z.ltb_lt in H1. done.
Qed.

(** ** Admission *)
Lemma update_checkpoint_only db key at_ms old new db' : update_checkpoint db key at_ms old new = Ok db' →
  ∃ m, db' = set_checkpoints m db.
Proof.
  intros Hu. unfold update_checkpoint in Hu. invert_ok. apply read_written in H3 as (_ & -> & _). by eexists.
Qed.
Lemma supersede_gap_ok top db key request db' : days_ok top db → supersede_gap db key request = Ok db' →
  days_ok top db' ∧ ∃ m, db' = set_checkpoints m (set_gaps (delete (key, request) (gaps db)) db).
Proof.
  intros Hok Hs. unfold supersede_gap in Hs. destruct (gaps db !! (key, request)) as [g|] eqn:Eg.
  - invert_ok. split; [by apply (drop_gap_ok top db _ (key, request) g)|].
    apply update_checkpoint_only in H1 as [m ->]. by exists m.
  - injection Hs as <-. split; [done|]. exists (checkpoints db). rewrite delete_id by done. by destruct db.
Qed.
Lemma insert_admitted_ok top db a trial key model risk db' : book_ok top db →
  attempts db !! (ad_request_id a, ad_attempt_id a) = None →
  insert_admitted db a trial key model risk = Ok db' →
  book_ok (top + 1) db' ∧
  attempts db' = <[(ad_request_id a, ad_attempt_id a) := new_attempt a key model risk (top + 1)]> (attempts db) ∧
  gaps db' = delete (key, ad_request_id a) (gaps db) ∧ adjustments db' = adjustments db ∧ coverage db' = coverage db.
Proof.
  intros Hok Hnew Hins. unfold insert_admitted in Hins. apply bind_Ok in Hins as ([db1 w] & Hn & Hins).
  apply (next_watermark_frame top) in Hn as (-> & Htop & Hw & Hi & Hdb1); [|done].
  set (row := new_attempt a key model risk (top + 1)) in *.
  apply bind_Ok in Hins as (db2 & (Hst & Hm & Hdb2)%write_attempt_ok & Hins). cbn zeta in Hins.
  set (db3 := set_meta _ db2) in Hins. apply bind_Ok in Hins as (db4 & Hmark & Hins).
  assert (frame db2 db4) as Hfr.
  { etrans; [apply (frame_insert db2 (attempt_meta_key (ad_request_id a) (ad_attempt_id a))), attempt_meta_free|].
    eapply mark_trial_frame, Hmark. }
  assert (coverage db4 = coverage db2) as Hcov.
  { unfold mark_trial, insert_meta in Hmark. destruct trial; [|by injection Hmark as <-]. by invert_ok. }
  apply bind_Ok in Hins as (? & _ & Hins). apply bind_Ok in Hins as (db5 & Hu & Hs).
  destruct (put_attempt_ok top (top + 1) db db4 db5 (ad_request_id a, ad_attempt_id a) row None (bk_ledger _ _ Hok).(lo_days _ _))
    as [Hok5 [m5 Hdb5]]; [lia| | | |done| | |done|done|].
  - rewrite (fr_attempts _ _ Hfr), Hdb2, Hdb1. done.
  - rewrite (fr_gaps _ _ Hfr), Hdb2, Hdb1. done.
  - rewrite (fr_checkpoints _ _ Hfr), Hdb2, Hdb1. done.
  - unfold mark_ok, row. simpl in *. lia.
  - by rewrite Hnew.
  - apply (supersede_gap_ok (top + 1)) in Hs as [Hok6 [m6 ->]]; [|done]. subst db5.
    split; [|cbn [attempts gaps adjustments coverage set_checkpoints set_gaps];
      rewrite (fr_attempts _ _ Hfr), (fr_gaps _ _ Hfr), (fr_adjustments _ _ Hfr), Hcov, Hdb2, Hdb1; done].
    apply (book_next top db); [done|done|..|done]; cbn.
    + by rewrite (fr_top _ _ Hfr), Hdb2.
    + by rewrite (fr_adjustments _ _ Hfr), Hdb2, Hdb1.
    + intros r a' k. intros [Hk|Hk]%(fr_index _ _ Hfr); [|by right]. left. rewrite <-Hi. by rewrite Hdb2 in Hk.
Qed.

(** ** Settlement *)
Notation settle_in_tx := (settle_in_tx observation_json).
Notation settle_outcome_in_tx := (settle_outcome_in_tx outcome_json).
Notation settle_log_in_tx := (settle_log_in_tx observation_json).

Lemma raise_floor_coverage db id old amount db' : raise_trial_floor db id old amount = Ok db' → coverage db' = coverage db.
Proof. unfold raise_trial_floor. intros Hr. apply bind_Ok in Hr as ([[]|] & _ & Hr); by invert_ok. Qed.
Lemma write_settlement_ok top db id old rev digest text amount state risk db' : book_ok top db →
  attempts db !! id = Some old →
  write_settlement db id old rev digest text amount state risk = Ok db' →
  book_ok (top + 1) db' ∧
  attempts db' = <[id := settled_attempt old rev digest amount state risk (top + 1)]> (attempts db) ∧
  gaps db' = gaps db ∧ adjustments db' = adjustments db ∧ coverage db' = coverage db.
Proof.
  intros Hok Hid Hw. unfold write_settlement in Hw. apply bind_Ok in Hw as (db0 & Hraise & Hw).
  assert (frame db db0 ∧ coverage db0 = coverage db) as [Hfr0 Hcov].
  { destruct (settled_state state); [|by injection Hraise as <-].
    split; [by eapply raise_floor_frame|by eapply raise_floor_coverage]. }
  pose proof (frame_ok top _ _ Hfr0 Hok) as Hok0.
  apply bind_Ok in Hw as ([db1 w] & Hn & Hw). apply (next_watermark_frame top) in Hn as (-> & Htop & Hwm & Hi & Hdb1); [|done].
  apply bind_Ok in Hw as (db2 & Hrev & Hw). cbn zeta in Hw.
  assert (∃ m, db2 = set_revisions m db1) as [m2 ->] by (unfold put_revision in Hrev; invert_ok; by eexists).
  set (new := settled_attempt old rev digest amount state risk (top + 1)) in *.
  apply bind_Ok in Hw as (db3 & (Hst & Hm & ->)%write_attempt_ok & Hw). apply bind_Ok in Hw as (? & _ & Hw).
  apply bind_Ok in Hw as (db4 & Hu & [= <-]).
  set (db3 := set_attempts _ (set_revisions m2 db1)) in *. set (before := mk_contribution _ _ _ _ 0) in *.
  destruct (put_attempt_ok top (top + 1) db db3 db4 id new (Some before) (bk_ledger _ _ Hok).(lo_days _ _)) as [Hok4 [m4 ->]];
    [lia|..|exact Hu|].
  - cbn. rewrite Hdb1. cbn. by rewrite (fr_attempts _ _ Hfr0).
  - cbn. rewrite Hdb1. apply (fr_gaps _ _ Hfr0).
  - cbn. rewrite Hdb1. apply (fr_checkpoints _ _ Hfr0).
  - done.
  - unfold mark_ok. simpl in *. lia.
  - rewrite Hid. simpl. split_and!; try done.
  - intros d [= <-]. simpl in *. lia.
  - set (db4 := set_checkpoints m4 _) in *.
    assert (∃ m, (if bool_decide (is_Some (a_compacted_at_ms old)) && settled_state state
      then drop_revisions_before db4 id rev else db4) = set_revisions m db4) as [m5 ->].
    { destruct (bool_decide _ && settled_state state); [by eexists|by exists (revisions db4)]. }
    unfold db4, db3. split; [|cbn; rewrite Hdb1; cbn;
      by rewrite (fr_attempts _ _ Hfr0), (fr_gaps _ _ Hfr0), (fr_adjustments _ _ Hfr0), Hcov].
    apply (book_next top db); [done|done|done| | |].
    + cbn. rewrite Hdb1. apply (fr_adjustments _ _ Hfr0).
    + cbn. intros r a k Hk. rewrite Hi in Hk. by apply (fr_index _ _ Hfr0).
    + by eapply days_ok_tables; [..|exact Hok4].
Qed.
(** What one settlement leaves of the ledger: the same rows but one. *)
Record settles (top : Z) (db : Database) (id : string * string) (new : AttemptRow) (db' : Database) : Prop := {
  st_book : book_ok (top + 1) db';
  st_attempts : attempts db' = <[id := new]> (attempts db);
  st_gaps : gaps db' = gaps db;
  st_adjustments : adjustments db' = adjustments db;
  st_coverage : coverage db' = coverage db;
}.
Lemma settle_in_tx_cases top db o db' took : book_ok top db → settle_in_tx db o = Ok (db', took) →
  (took = false ∧ db' = db) ∨
  (took = true ∧ ∃ old snapshot tariff risk, attempts db !! (o_request_id o, o_attempt_id o) = Some old ∧
     takes_effect observation_json old o = true ∧
     frozen_tariff db old (o_effective_model o) = Ok (snapshot, tariff) ∧
     let reserved := from_option reserved 0 (read_attempt_meta db (o_request_id o) (o_attempt_id o)) in
     let value := settled_value snapshot tariff o (str_eqb (a_metering_status old) "pending")
       (picos (a_usage_picos old)) reserved in
     risk_left (if str_eqb value.2 "pending" then picos (a_pending_risk_picos old) else 0) (picos (a_usage_picos old))
       value.1 value.2 = Ok risk ∧
     settles top db (o_request_id o, o_attempt_id o)
       (settled_attempt old (o_usage_revision o) (observation_digest observation_json o) value.1 value.2 risk (top + 1)) db').
Proof.
  intros Hok Hs. unfold ValueSettlement.settle_in_tx in Hs.
  apply bind_Ok in Hs as (old & Hold%ok_or_Ok & Hs). apply bind_Ok in Hs as (key & _ & Hs).
  apply bind_Ok in Hs as (? & _ & Hs). apply bind_Ok in Hs as (rev & Hrev & Hs).
  assert (rev = o_usage_revision o) as -> by (by invert_ok).
  destruct (takes_effect observation_json old o) eqn:Et; cbn [negb] in Hs; [|left; by injection Hs as <- <-].
  right. apply bind_Ok in Hs as ([snapshot tariff] & Hft & Hs). cbn zeta in Hs.
  apply bind_Ok in Hs as (amount & Ha%lift_Ok & Hs). apply picos_Ok in Ha as <-.
  destruct (settled_value _ _ _ _ _ _) as [value state] eqn:Ev. apply bind_Ok in Hs as (old_risk & Hr & Hs).
  apply bind_Ok in Hs as (risk & Hrisk & Hs). apply bind_Ok in Hs as (db1 & Hw & [= <- <-]).
  split; [done|]. exists old, snapshot, tariff, risk. do 3 (split; [done|]). cbn zeta. cbn [fst snd] in *. rewrite Ev. cbn [fst snd].
  split.
  - destruct (str_eqb state "pending"); [apply lift_Ok, picos_Ok in Hr as ->|injection Hr as <-]; done.
  - destruct (write_settlement_ok top _ _ _ _ _ _ _ _ _ _ Hok Hold Hw) as (? & ? & ? & ? & ?). by split.
Qed.
Lemma settle_outcome_cases top db r a outcome unobserved db' settled : book_ok top db →
  settle_outcome_in_tx db r a outcome unobserved = Ok (db', settled) →
  (settled = false ∧ db' = db) ∨
  (settled = true ∧ ∃ old digest, attempts db !! (r, a) = Some old ∧ unsettled_state (a_metering_status old) = true ∧
     is_synthetic digest = true ∧
     (unobserved = true → a_usage_revision old = 0 ∧ a_observation_sha256 old = None) ∧
     let value := match outcome with
       | Unknown => (Z.max (from_option reserved 0 (read_attempt_meta db r a)) (picos (a_usage_picos old)), "conservative")
       | _ => (0, "observed")
       end in
     settles top db (r, a) (settled_attempt old (a_usage_revision old) digest value.1 value.2 0 (top + 1)) db').
Proof.
  intros Hok Hs. unfold ValueSettlement.settle_outcome_in_tx in Hs.
  destruct (attempts db !! (r, a)) as [old|] eqn:Hid; [|left; by injection Hs as <- <-].
  destruct (negb (unsettled_state (a_metering_status old)) || _) eqn:Ec; [left; by injection Hs as <- <-|].
  apply orb_false_iff in Ec as [Hun%negb_false_iff Hobs]. right. cbn zeta in Hs.
  apply bind_Ok in Hs as ([amount state] & Hv & Hs). apply bind_Ok in Hs as (db1 & Hw & [= <- <-]).
  split; [done|]. exists old, ("synthetic:" +:+ sha256_hex (outcome_json r a (a_usage_revision old) outcome (pretty amount))).
  split; [done|]. split; [done|]. split; [by unfold is_synthetic; apply starts_with_true; eexists|]. split.
  { intros ->. simpl in Hobs. apply orb_false_iff in Hobs as [H1%negb_false_iff%Z.eqb_eq H2%bool_decide_eq_false].
    split; [done|]. by apply eq_None_not_Some. }
  destruct (write_settlement_ok top _ _ _ _ _ _ _ _ _ _ Hok Hid Hw) as (? & ? & ? & ? & ?).
  assert (match outcome with
       | Unknown => (Z.max (from_option reserved 0 (read_attempt_meta db r a)) (picos (a_usage_picos old)), "conservative")
       | _ => (0, "observed")
       end = (amount, state)) as ->.
  { destruct outcome; [by injection Hv as <- <-..|]. invert_ok. by rewrite (picos_Ok _ _ H5). }
  by split.
Qed.

(** ** Every operation *)
Definition advances (db db' : Database) : Prop := ∀ top, book_ok top db → ∃ top', top ≤ top' ∧ book_ok top' db'.
#[global] Instance advances_preorder : PreOrder advances.
Proof.
  split; [intros db top Hok; exists top; split; [lia|done]|]. intros db1 db2 db3 H12 H23 top Hok.
  destruct (H12 top Hok) as (t2 & ? & Hok2). destruct (H23 t2 Hok2) as (t3 & ? & Hok3). exists t3. split; [lia|done].
Qed.
Lemma frame_advances db db' : frame db db' → advances db db'.
Proof. intros Hf top Hok. exists top. split; [lia|by eapply frame_ok]. Qed.
Lemma settles_advances db id new db' : (∀ top, book_ok top db → settles top db id new db') → advances db db'.
Proof. intros Hs top Hok. exists (top + 1). split; [lia|by apply Hs]. Qed.
Lemma fold_advances {A} (f : Database → A → Database) l db : (∀ db x, advances db (f db x)) → advances db (foldl f db l).
Proof. intros Hf. revert db. induction l as [|x l IH]; intros db; simpl; [done|]. etrans; [apply Hf|apply IH]. Qed.
Lemma try_fold_advances {A S} (get : S → Database) (f : S → A → result QuotaError S) l s s' :
  (∀ s x s', f s x = Ok s' → advances (get s) (get s')) → try_fold f s l = Ok s' → advances (get s) (get s').
Proof.
  intros Hf. revert s. induction l as [|x l IH]; intros s; cbn [try_fold]; [by intros [= <-]|].
  intros (s1 & Hs & Hl)%bind_Ok. etrans; [by eapply Hf|by eapply IH].
Qed.

Lemma settle_in_tx_advances db o db' took : settle_in_tx db o = Ok (db', took) → advances db db'.
Proof.
  intros Hs top Hok. destruct (settle_in_tx_cases top _ _ _ _ Hok Hs) as [[_ ->]|(_ & old & s & m & risk & _ & _ & _ & _ & Hst)].
  - exists top. split; [lia|done].
  - exists (top + 1). split; [lia|apply Hst].
Qed.
Lemma settle_outcome_advances db r a outcome unobserved db' settled :
  settle_outcome_in_tx db r a outcome unobserved = Ok (db', settled) → advances db db'.
Proof.
  intros Hs top Hok. destruct (settle_outcome_cases top _ _ _ _ _ _ _ Hok Hs) as [[_ ->]|(_ & old & d & _ & _ & _ & _ & Hst)].
  - exists top. split; [lia|done].
  - exists (top + 1). split; [lia|apply Hst].
Qed.
Lemma settle_log_advances db l force db' took : settle_log_in_tx db l force = Ok (db', took) → advances db db'.
Proof.
  unfold ValueMaintenance.settle_log_in_tx. destruct (attempts db !! _) as [row|]; [|by intros [= <- <-]].
  intros Hs. apply bind_Ok in Hs as (scope & _ & Hs). apply bind_Ok in Hs as (? & _ & Hs). cbn zeta in Hs.
  destruct (classify_log _ _ _ _ _) as [[outcome tokens] tier]. apply bind_Ok in Hs as (rev & _ & Hs).
  apply bind_Ok in Hs as (rev' & _ & Hs). by eapply settle_in_tx_advances.
Qed.
Lemma block_window_advances db scope w : advances db (block_window db scope w).
Proof.
  unfold block_window. destruct (meta db !! _); [done|]. apply frame_advances, frame_insert, block_free.
Qed.
Lemma isolated_advances db l : advances db (settle_usage_log_isolated observation_json db l).
Proof.
  unfold settle_usage_log_isolated. destruct (ValueMaintenance.settle_log_in_tx _ db l false) as [[db' took]|] eqn:E.
  - by eapply settle_log_advances.
  - apply fold_advances. intros. apply block_window_advances.
Qed.
Lemma resolve_advances db key w before db' n : resolve_window_pending outcome_json db key w before = Ok (db', n) → advances db db'.
Proof.
  intros Hr. apply (try_fold_advances fst _ _ (db, 0) (db', n)) in Hr; [done|].
  intros [d k] id s' Hs. apply bind_Ok in Hs as ([d' settled] & Hs & [= <-]). by eapply settle_outcome_advances.
Qed.
Lemma sweep_from_log_advances logs db id : advances db (sweep_from_log observation_json logs db id).1.
Proof.
  unfold sweep_from_log. destruct (logs id.1) as [l|]; [|done]. destruct (str_eqb _ _); [|done]. cbn [fst].
  destruct (ValueMaintenance.settle_log_in_tx _ db l true) as [[d took]|] eqn:E; [by eapply settle_log_advances|done].
Qed.
Lemma sweep_one_advances logs db id report db' report' :
  sweep_one observation_json outcome_json logs db id report = Ok (db', report') → advances db db'.
Proof.
  unfold sweep_one. destruct (is_unsettled db id); cbn [negb]; [|by intros [= <- _]].
  pose proof (sweep_from_log_advances logs db id) as Hlog. destruct (sweep_from_log _ logs db id) as [d resolved].
  cbn [fst] in Hlog. destruct resolved; [by intros [= <- _]|]. intros ([d' settled] & Hs & [= <- _])%bind_Ok.
  etrans; [exact Hlog|by eapply settle_outcome_advances].
Qed.
Lemma sweep_advances logs db before : advances db (sweep_stale_attempts observation_json outcome_json logs db before).1.
Proof.
  unfold sweep_stale_attempts, sweep_batch. generalize (mk_sweep 0 0 0). generalize (sweep_candidates db before SWEEP_CANDIDATE_LIMIT).
  intros ids. revert db. induction ids as [|id ids IH]; intros db report; [done|]. cbn [foldl].
  destruct (sweep_one _ _ logs db id report) as [[d r]|] eqn:E; [etrans; [by eapply sweep_one_advances|apply IH]|].
  etrans; [|apply IH]. destruct (attempts db !! id); simpl; [apply block_window_advances|done].
Qed.

(** Compaction writes nothing a checkpoint counts. *)
Lemma same_attempt_ok top db id old new : days_ok top db → attempts db !! id = Some old →
  a_scope new = a_scope old → a_started_at_ms new = a_started_at_ms old →
  attempt_contribution new = attempt_contribution old → days_ok top (set_attempts (<[id := new]> (attempts db)) db).
Proof.
  intros Hok Hid Hs Ht Hc. split.
  - cbn [attempts set_attempts]. intros id' a [[<- <-]|[_ Ha]]%lookup_insert_Some; [|by eapply do_attempts].
    destruct (do_attempts _ _ Hok id old Hid) as (? & ? & ?). rewrite Ht, Hc. split; [done|]. split; [done|].
    by injection Hc as _ _ _ _ ->.
  - apply Hok.
  - intros scope day. destruct (do_checkpoints _ _ Hok scope day) as (c & Hrc & Hag & Hw). exists c. split; [done|]. split; [|done].
    set (db' := set_attempts _ db).
    pose proof (contributions_insert db db' id new scope (on_day day) eq_refl eq_refl) as Hp. rewrite Hid in Hp. simpl in Hp.
    rewrite !attempt_part_day, Hs, Ht, Hc, Permutation_app_comm in Hp. apply Permutation_app_inv_l in Hp. by rewrite Hp.
Qed.
Definition compacted (now : Z) (a : AttemptRow) : AttemptRow :=
  mk_attempt_row (a_scope a) (a_policy_epoch a) (a_window_id a) (a_started_at_ms a)
    (a_pricing_revision a) (a_effective_model a) (a_effective_tier a) "null" (a_usage_revision a)
    (a_usage_picos a) (a_pending_risk_picos a) (a_metering_status a) (a_observation_sha256 a) (Some now) (a_watermark a).
Lemma compact_attempt_Ok now db id a db' : compact_attempt now db id a = Ok db' →
  ∃ m, db' = set_meta (delete (attempt_meta_key id.1 id.2) (meta db))
    (set_attempts (<[id := compacted now a]> (attempts db)) (set_revisions m db)).
Proof.
  intros Hc. unfold compact_attempt in Hc. apply bind_Ok in Hc as (c & _ & Hc). apply bind_Ok in Hc as (n & _ & Hc).
  apply bind_Ok in Hc as (? & _ & Hc). cbn zeta in Hc. apply bind_Ok in Hc as (db1 & (_ & _ & ->)%write_attempt_ok & [= <-]).
  by eexists.
Qed.
Lemma compact_attempt_advances now db id a db' : attempts db !! id = Some a → compact_attempt now db id a = Ok db' →
  advances db db'.
Proof.
  intros Hid (m & ->)%compact_attempt_Ok top [[Ht Hd Hj] Hx]. exists top. split; [lia|].
  match goal with |- book_ok top ?d => apply (frame_ok top (set_attempts (<[id := compacted now a]> (attempts db)) (set_revisions m db))) end.
  - split; cbn; [done..|by rewrite lookup_delete_ne|]. intros r a' k [_ Hk]%lookup_delete_Some. by left.
  - split; [split|]; [done| |done|done]. apply (days_ok_tables top (set_attempts (<[id := compacted now a]> (attempts db)) db)); [done..|].
    by apply (same_attempt_ok top db id a).
Qed.
Lemma NoDup_filter_keys {K A} (P : K * A → Prop) `{!∀ e, Decision (P e)} (l : list (K * A)) : NoDup l.*1 → NoDup (filter P l).*1.
Proof.
  induction l as [|e l IH]; [done|]. rewrite fmap_cons, NoDup_cons. intros [Hn Hl].
  rewrite filter_cons. destruct (decide (P e)); [|by apply IH]. rewrite fmap_cons. constructor; [|by apply IH].
  intros (e' & He & [_ Hin]%list_elem_of_filter)%list_elem_of_fmap. apply Hn. rewrite He. by apply list_elem_of_fmap_2.
Qed.
(** Compaction as a sequence of rows, each still as it was found. *)
Lemma compact_rows (R : Database → Database → Prop) `{!PreOrder R} db cutoff now db' n :
  (∀ db id a db', attempts db !! id = Some a → compact_attempt now db id a = Ok db' → R db db') →
  compact_in_tx db cutoff now = Ok (db', n) → R db db'.
Proof.
  intros HR. unfold compact_in_tx. set (rows := oldest 100 _). intros (d & Hf & [= <- <-])%bind_Ok.
  assert (NoDup rows.*1 ∧ ∀ e, e ∈ rows → attempts db !! e.1 = Some e.2) as [Hnd Hin].
  { unfold rows, oldest. set (found := filter _ _).
    assert (NoDup found.*1) as Hnd by apply NoDup_filter_keys, NoDup_fst_map_to_list.
    rewrite <-(merge_sort_Permutation started_le found) in Hnd.
    split; [rewrite fmap_take; rewrite <-(take_drop 100 (merge_sort _ _).*1) in Hnd; by apply NoDup_app in Hnd as [? _]|].
    intros [id a] He%(subseteq_take 100). rewrite merge_sort_Permutation in He.
    apply list_elem_of_filter in He as [_ ?%elem_of_map_to_list]. done. }
  clearbody rows. clear cutoff. revert db Hin Hf. induction rows as [|[id a] rows IH]; intros db Hin Hf; [by injection Hf as <-|].
  cbn [try_fold] in Hf. apply bind_Ok in Hf as (db1 & Hc & Hf). apply NoDup_cons in Hnd as [Hn Hnd].
  etrans; [by eapply HR, Hc; apply (Hin (id, a) ltac:(left))|]. apply IH; [done| |done]. intros [id' a'] He. cbn [fst snd].
  apply compact_attempt_Ok in Hc as [m ->]. cbn. rewrite lookup_insert_ne; [by apply (Hin (id', a')); right|].
  intros <-. apply Hn. by apply (list_elem_of_fmap_2 fst _ (id, a')).
Qed.
Lemma compact_advances db cutoff now db' n : compact_in_tx db cutoff now = Ok (db', n) → advances db db'.
Proof. apply (compact_rows advances). intros. by eapply compact_attempt_advances. Qed.
End history.
