(* ===== verification/ValueJournal.v ===== *)
(** * Every operation of the USD ledger keeps its invariant

    Admission, adjustment with its reconcile, tariffs, snapshots, coverage and acknowledgement, added to the
    settlements of [ValueHistory]; the operations as one type, and the histories they make from an empty ledger. *)
From S2P Require Import Prelude MapSum RustStr Json ModelIdentity ValuePricing ValueTables.
From S2P Require Import ValueAdmission ValueSettlement ValueMaintenance ValueCheckpoints ValueLedger ValueRows ValueHistory.
From Stdlib Require Import ZArith Lia.

Local Open Scope Z_scope.

Lemma Ok_pair {E A B} (a a' : A) (b b' : B) : Ok (a, b) = Ok (E := E) (a', b') → a = a' ∧ b = b'.
Proof. by intros [= -> ->]. Qed.

Section journal.
Context `{!Digest, !Serde Scope, !Serde Checkpoint, !Serde AdjustmentPayload, !Serde (list string)}.
Context `{!Serde (string * string), !Serde (Scope * string), !Serde AttemptMeta, !Serde MarketTrialAttempt}.
Context `{!Serde PricingSnapshot, !Serde ExecutionModelPrice, !Serde PendingTariff, !Serde RouterBlock}.
Context (observation_json : Observation → string).
Context (outcome_json : string → string → Z → AttemptOutcome → string → string).

(** ** Tables the invariant does not read *)
Definition same_rows (db db' : Database) : Prop :=
  attempts db' = attempts db ∧ gaps db' = gaps db ∧ checkpoints db' = checkpoints db ∧
  adjustments db' = adjustments db ∧ meta db' = meta db.
Lemma same_rows_frame db db' : same_rows db db' → frame db db'.
Proof. intros (? & ? & ? & ? & Hm). split; rewrite ?Hm; auto. Qed.

(** ** Tariffs, snapshots, coverage, acknowledgement *)
Lemma activate_frame db scope now db' r : activate_due_in_tx db scope now = Ok (db', r) → frame db db'.
Proof.
  unfold activate_due_in_tx. intros ([p|] & _ & Ha)%bind_Ok; apply bind_Ok in Ha as (d & Hd & [= <- _]); [|by injection Hd as <-].
  destruct (pt_effective_from_ms p <=? now); [|by injection Hd as <-]. apply bind_Ok in Hd as (s & _ & [= <-]).
  etrans; [apply (frame_insert db (active_key scope)), tariff_free|].
  apply (frame_delete (set_meta _ db) (pending_tariff_key scope)), tariff_free.
Qed.
Lemma schedule_frame db scope p now db' : schedule_tariff db scope p now = Ok db' → frame db db'.
Proof.
  unfold schedule_tariff. intros (s & _ & Hs)%bind_Ok. apply bind_Ok in Hs as ([d r] & Ha & [= <-]).
  etrans; [apply (frame_insert db (pending_tariff_key scope)), tariff_free|by eapply activate_frame].
Qed.
Lemma install_frame cache db scope rev s cache' db' : install_in_tx cache db scope rev s = (cache', Ok db') → frame db db'.
Proof.
  unfold install_in_tx. intros Hi. apply same_rows_frame.
  destruct (_ ← scope_key scope; _) as [d|] eqn:E; [|done]. injection Hi as _ <-.
  apply bind_Ok in E as (? & _ & E). apply bind_Ok in E as (? & _ & E). apply bind_Ok in E as (? & _ & E).
  destruct (snapshots db !! _); [apply bind_Ok in E as (? & _ & [= <-])|injection E as <-]; done.
Qed.
Lemma begin_coverage_frame db scope now db' at_ms : begin_coverage db scope now = Ok (db', at_ms) → frame db db'.
Proof.
  unfold begin_coverage. intros (? & _ & Hb)%bind_Ok. apply bind_Ok in Hb as (key & _ & [= Hb]). apply same_rows_frame.
  destruct (coverage db !! key); by injection Hb as <- _.
Qed.
Lemma cover_from_frame db scope from db' : cover_from db scope from = Ok db' → frame db db'.
Proof.
  unfold cover_from. intros (? & _ & Hb)%bind_Ok. apply bind_Ok in Hb as (key & _ & [= <-]). by apply same_rows_frame.
Qed.
Lemma ack_frame db scope w ack db' r : ack_ahead db scope w ack = Ok (db', r) → frame db db'.
Proof.
  unfold ack_ahead. intros (s & _ & Ha)%bind_Ok. destruct (_ <? ack); [|by injection Ha as <- _].
  apply bind_Ok in Ha as (key & _ & [= <- _]). apply (frame_insert db (block_key key (w_id w))), block_free.
Qed.

(** ** Admission *)
Lemma admit_advances db a trial db' r : admit_with_trial_in_tx db a trial = Ok (db', r) → advances db db'.
Proof.
  unfold admit_with_trial_in_tx. intros (key & _ & Ha)%bind_Ok. apply bind_Ok in Ha as (s & _ & Ha). cbn zeta in Ha.
  apply bind_Ok in Ha as (model & _ & Ha). apply bind_Ok in Ha as (? & _ & Ha).
  destruct (attempts db !! _) as [old|] eqn:Eid.
  - by apply bind_Ok in Ha as (? & _ & [= <- _]).
  - apply bind_Ok in Ha as (risk & _ & Ha). apply bind_Ok in Ha as (d & Hi & [= <- _]). intros top Hok. exists (top + 1).
    split; [lia|]. by destruct (insert_admitted_ok top db a trial key model risk d Hok Eid Hi).
Qed.
Lemma admit_market_advances db fence a trial now db' r :
  admit_with_market_trial db fence a trial now = Ok (db', r) → advances db db'.
Proof.
  unfold admit_with_market_trial. intros (? & _ & Ha)%bind_Ok. apply bind_Ok in Ha as ([d rev] & Hrev & Ha).
  unfold admission_revision in Hrev. apply bind_Ok in Hrev as ([d1 active] & Hact & Hrev). cbn zeta in Hrev.
  apply bind_Ok in Hrev as (? & _ & [= -> _]).
  etrans; [by eapply frame_advances, activate_frame|by eapply admit_advances].
Qed.

(** ** Adjustments *)
Lemma book_later top top' db db' : book_ok top db → top ≤ top' ≤ I64_MAX →
  attempts db' = attempts db → gaps db' = gaps db → checkpoints db' = checkpoints db → adjustments db' = adjustments db →
  meta db' = <[WATERMARK_KEY := pretty top']> (meta db) → book_ok top' db'.
Proof.
  intros [[[Ht ?] Hd Hj] Hx] Hle Ha Hg Hc Hjs Hm. split; [split|].
  - rewrite Hm, lookup_insert_eq. split; [done|lia].
  - apply (days_ok_tables top' db); [done..|]. apply (days_ok_mono top); [lia|done].
  - rewrite Hjs. intros id j Hid. destruct (Hj id j Hid) as [Hk ?]. split; [|done]. unfold mark_ok in *. lia.
  - intros r a key. rewrite Hm, lookup_insert_ne by done. apply Hx.
Qed.
Lemma raise_floor_advances db m db' : raise_watermark_floor db m = Ok db' → advances db db'.
Proof.
  intros Hr top Hok. pose proof (lo_top _ _ (bk_ledger _ _ Hok)) as [Ht ?]. unfold raise_watermark_floor in Hr.
  rewrite Ht in Hr. apply bind_Ok in Hr as (f & Hf & Hr). cbn [ok_or mbind result_bind] in Hr.
  rewrite parse_i64_pretty in Hr by done. cbn [mbind result_bind] in Hr. injection Hr as <-. invert_ok.
  destruct (Z.ltb_spec top m); [|exists top; by split]. exists m. split; [lia|].
  apply (book_later top m db); [done|width_lia|done..].
Qed.
Lemma frame_delete_all db keys : Forall free_key keys → frame db (set_meta (foldr delete (meta db) keys) db).
Proof.
  induction 1 as [|k keys Hk _ IH]; [by destruct db|]. etrans; [exact IH|].
  apply (frame_delete (set_meta (foldr delete (meta db) keys) db) k Hk).
Qed.
(** Whatever the checkpoints of the scope hold, what a [set] does first ties them to the rows again. *)
Lemma reconcile_repairs top db m key w before fenced db' r : book_ok top db →
  (∀ scope day, scope ≠ key → m !! (scope, day) = checkpoints db !! (scope, day)) →
  reconcile outcome_json (set_checkpoints m db) key w before fenced = Ok (db', r) →
  ∃ top', top ≤ top' ∧ book_ok top' db'.
Proof.
  intros Hok Hm Hr. pose proof (bk_ledger _ _ Hok) as [[Ht ?] [Hda Hdg Hdc] Hj].
  unfold reconcile in Hr. apply bind_Ok in Hr as ([db1 days] & Hre & Hr).
  destruct (rebuild_ok top (set_checkpoints m db) key db1 days Hda Hdg) as [Hd1 [m1 ->]]; [|lia|done|].
  { intros scope day Hs. destruct (Hdc scope day) as (c & Hc & ?). exists c. split; [|done].
    rewrite <-Hc. unfold read_checkpoint. cbn [checkpoints set_checkpoints]. by rewrite Hm. }
  set (db1 := set_checkpoints m1 _) in *.
  assert (book_ok top db1) as Hok1 by (split; [split; [done|done|exact Hj]|apply Hok]).
  enough (advances db1 db') as Ha by by apply Ha. clearbody db1.
  apply bind_Ok in Hr as ([db2 resolved] & Hres%resolve_advances & Hr). cbn zeta in Hr.
  apply bind_Ok in Hr as (db3 & Hraise & [<- _]%Ok_pair). etrans; [exact Hres|].
  assert (advances db2 db3) as H23.
  { match type of Hraise with (match ?o with _ => _ end) = _ => destruct o end; [by eapply raise_floor_advances|by injection Hraise as <-]. }
  etrans; [exact H23|]. apply frame_advances. apply frame_delete_all.
  constructor; [apply block_free|constructor; [apply legacy_free|constructor; [done|constructor]]].
Qed.
Lemma reconcile_advances db key w before fenced db' r : reconcile outcome_json db key w before fenced = Ok (db', r) → advances db db'.
Proof.
  intros Hr top Hok. apply (reconcile_repairs top db (checkpoints db) key w before fenced db' r Hok); [done|].
  by destruct db.
Qed.
Lemma edit_offset_range e observed offset target : 0 ≤ observed → edit_offset e observed = Ok (offset, target) →
  unsigned_decimal (pretty offset) = Ok offset.
Proof.
  unfold edit_offset. intros Hobs He. apply unsigned_decimal_pretty. destruct (e_action e); [|by invert_ok; width_lia].
  apply bind_Ok in He as (raw & _ & He). apply bind_Ok in He as (t & Ht & He). apply bind_Ok in He as (? & Hc & [= <- _]).
  apply lift_Ok, unsigned_decimal_range in Ht.
  destruct (observed <=? t) eqn:Hle; [|by apply fail_if_Ok in Hc]. apply Z.leb_le in Hle.
  lia.
Qed.
Lemma insert_adjustment_ok top db db1 watermark id j db' : book_ok top db → next_watermark db = Ok (db1, watermark) →
  insert_adjustment db1 id j = Ok db' → j_watermark j = watermark →
  (∃ p, from_json (j_payload_json j) = Some p ∧ unsigned_decimal (p_offset_picos p) = Ok (picos (p_offset_picos p))) →
  book_ok (top + 1) db'.
Proof.
  intros Hok Hn Hi Hw Hp. pose proof (lo_top _ _ (bk_ledger _ _ Hok)) as [_ ?].
  apply (next_watermark_ok top) in Hn as (Hwm & Hmax & ->); [|done].
  unfold insert_adjustment in Hi. apply bind_Ok in Hi as (? & _ & [= <-]).
  assert (book_ok (top + 1) (set_meta (<[WATERMARK_KEY := pretty watermark]> (meta db)) db)) as [[H1 H2 H3] H4].
  { apply (book_later top (top + 1) db); [done|lia|done..|by rewrite Hwm]. }
  split; [split|]; [done|by eapply days_ok_tables; [..|exact H2]| |done]. cbn [adjustments set_adjustments].
  intros id' j' [[<- <-]|[_ Hid]]%lookup_insert_Some; [|by apply (H3 id')]. split; [|done]. unfold mark_ok. lia.
Qed.
Lemma apply_adjustment_advances db d key actor now before fenced db' :
  apply_adjustment outcome_json db d key actor now before fenced = Ok db' → advances db db'.
Proof.
  unfold apply_adjustment. intros (? & _ & Ha)%bind_Ok. destruct (adjustments db !! _) as [old|].
  { apply bind_Ok in Ha as (p & _ & Ha). by apply bind_Ok in Ha as (? & _ & [= <-]). }
  apply bind_Ok in Ha as ([db1 repaired] & Hrep & Ha).
  assert (advances db db1) as H1.
  { destruct (bool_decide _); [|by injection Hrep as <- _]. apply bind_Ok in Hrep as ([db2 r] & Hr & [<- _]%Ok_pair).
    by eapply reconcile_advances. }
  etrans; [exact H1|]. apply bind_Ok in Ha as (current & _ & Ha). apply bind_Ok in Ha as (observed & Hobs%lift_Ok & Ha).
  apply bind_Ok in Ha as ([offset target] & He & Ha). apply bind_Ok in Ha as ([db2 watermark] & Hn & Ha). cbn zeta in Ha.
  apply bind_Ok in Ha as (mark & _ & Hi). intros top Hok. exists (top + 1). split; [lia|].
  eapply insert_adjustment_ok; [done|done|exact Hi|done|]. cbn. eexists. rewrite from_to. split; [done|]. cbn.
  apply unsigned_decimal_range in Hobs.
  pose proof (edit_offset_range _ _ _ _ (proj1 Hobs) He) as Ho. by rewrite (picos_Ok _ _ Ho).
Qed.
Lemma adjustments_advance db edits actor now before fenced db' :
  apply_adjustments_in_tx outcome_json db edits actor now before fenced = Ok db' → advances db db'.
Proof.
  unfold apply_adjustments_in_tx. intros (? & _ & Ha)%bind_Ok. apply bind_Ok in Ha as ([d seen] & Hf & [= <-]).
  eapply (try_fold_advances fst _ edits (db, ∅) (d, seen)); [|exact Hf]. clear.
  intros [d1 seen1] e s' Hs. apply bind_Ok in Hs as (key & _ & Hs). apply bind_Ok in Hs as (? & _ & Hs).
  apply bind_Ok in Hs as (d2 & Hadj & [= <-]). cbn. by eapply apply_adjustment_advances.
Qed.

(** ** Histories *)
(** What a caller may ask of the ledger, with the fences and records it is asked under. *)
Inductive ledger_op : Type :=
  | Install (scope : Scope) (rev : string) (s : PricingSnapshot)
  | Schedule (scope : Scope) (p : PendingTariff) (now : Z)
  | Activate (scope : Scope) (now : Z)
  | BeginCoverage (scope : Scope) (now : Z)
  | CoverFrom (scope : Scope) (from : Z)
  | Admit (fence : gmap string Z) (a : Admission) (trial : option MarketTrialBudget) (now : Z)
  | Settle (o : Observation)
  | SettleOutcome (request attempt : string) (outcome : AttemptOutcome) (unobserved : bool)
  | SettleLog (l : UsageLog)
  | Sweep (logs : string → option UsageLog) (before : Z)
  | Compact (cutoff now : Z)
  | Adjust (fence : gmap string Z) (edits : list Adjustment) (actor : string) (now before : Z)
  | Acknowledge (scope : Scope) (w : Window) (ack : Z).
(** One operation in its transaction: an error leaves the database as it was. *)
Definition committed {A} (db : Database) (get : A → Database) (r : result QuotaError A) : Database :=
  match r with Ok a => get a | Err _ => db end.
Definition perform (db : Database) (op : ledger_op) : Database :=
  match op with
  | Install scope rev s => committed db id (install_in_tx ∅ db scope rev s).2
  | Schedule scope p now => committed db id (schedule_tariff db scope p now)
  | Activate scope now => committed db fst (activate_due_in_tx db scope now)
  | BeginCoverage scope now => committed db fst (begin_coverage db scope now)
  | CoverFrom scope from => committed db id (cover_from db scope from)
  | Admit fence a trial now => committed db fst (admit_with_market_trial db fence a trial now)
  | Settle o => committed db fst (settle_in_tx observation_json db o)
  | SettleOutcome r a outcome unobserved =>
      committed db fst (settle_outcome_in_tx outcome_json db r a outcome unobserved)
  | SettleLog l => settle_usage_log_isolated observation_json db l
  | Sweep logs before => (sweep_stale_attempts observation_json outcome_json logs db before).1
  | Compact cutoff now => committed db fst (compact_in_tx db cutoff now)
  | Adjust fence edits actor now before => committed db fst (apply_adjustments outcome_json db fence edits actor now before)
  | Acknowledge scope w ack => committed db fst (ack_ahead db scope w ack)
  end.
Definition empty_ledger : Database := mk_db {[WATERMARK_KEY := "0"]} ∅ ∅ ∅ ∅ ∅ ∅ ∅.
Definition history (ops : list ledger_op) : Database := foldl perform empty_ledger ops.

Lemma committed_advances {A} db (get : A → Database) r : (∀ a, r = Ok a → advances db (get a)) → advances db (committed db get r).
Proof. intros Hr. destruct r; simpl; [by apply Hr|done]. Qed.
Lemma perform_advances db op : advances db (perform db op).
Proof.
  destruct op; simpl; try (apply committed_advances; intros d Hd).
  - apply frame_advances. destruct (install_in_tx ∅ db scope rev s) as [c r] eqn:E. simpl in Hd. subst r. by eapply install_frame.
  - by eapply frame_advances, schedule_frame.
  - destruct d. by eapply frame_advances, activate_frame.
  - destruct d. by eapply frame_advances, begin_coverage_frame.
  - by eapply frame_advances, cover_from_frame.
  - destruct d. by eapply admit_market_advances.
  - destruct d. by eapply settle_in_tx_advances.
  - destruct d. by eapply settle_outcome_advances.
  - apply isolated_advances.
  - apply sweep_advances.
  - destruct d. by eapply compact_advances.
  - unfold apply_adjustments in Hd. apply bind_Ok in Hd as (keys & _ & Hd). apply bind_Ok in Hd as (db' & Ha & [= <-]).
    by eapply adjustments_advance.
  - destruct d. by eapply frame_advances, ack_frame.
Qed.
Lemma history_ok ops : ∃ top, book_ok top (history ops).
Proof.
  destruct (fold_advances perform ops empty_ledger perform_advances 0) as (top & _ & Hok); [|by exists top].
  split; [split|]; cbn.
  - split; [done|]. width_lia.
  - split; cbn; [intros ? ?; by rewrite lookup_empty..|]. intros scope day. exists checkpoint_empty.
    split; [done|]. split; [|done]. unfold contributions. simpl. apply aggregates_nil.
  - intros ? ?. by rewrite lookup_empty.
  - intros r a key Hk. by apply lookup_singleton_Some in Hk as [Hk _].
Qed.
End journal.
