(* ===== verification/ValueStatus.v ===== *)
(** * What the status of a window says

    The status read from checkpoints and partial days is a function of the rows of the window; and the invariant of
    the checkpoints, over every history of the ledger. *)
From S2P Require Import Prelude MapSum RustStr Json ModelIdentity ValuePricing ValueTables.
From S2P Require Import ValueAdmission ValueSettlement ValueMaintenance ValueCheckpoints ValueLedger ValueRows ValueHistory ValueJournal.
From Stdlib Require Import ZArith Lia.

Local Open Scope Z_scope.

Section status.
Context `{!Digest, !Serde Scope, !Serde Checkpoint, !Serde AdjustmentPayload, !Serde (list string)}.
Context `{!Serde (string * string), !Serde (Scope * string), !Serde AttemptMeta, !Serde MarketTrialAttempt}.
Context `{!Serde PricingSnapshot, !Serde ExecutionModelPrice, !Serde PendingTariff, !Serde RouterBlock}.

(** ** The newest adjustment *)
Definition offset_of (j : AdjustmentRow) : Z := from_option (λ p, picos (p_offset_picos p)) 0 (from_json (j_payload_json j)).
Definition manual_offset (db : Database) (key window_id : string) : Z :=
  from_option offset_of 0 (last_adjustment db key window_id).
Lemma last_adjustment_spec db key window_id :
  match last_adjustment db key window_id with
  | None => ∀ id j, adjustments db !! id = Some j → ¬ (j_scope j = key ∧ j_window_id j = window_id)
  | Some j => (∃ id, adjustments db !! id = Some j) ∧ j_scope j = key ∧ j_window_id j = window_id ∧
      ∀ id j', adjustments db !! id = Some j' → j_scope j' = key → j_window_id j' = window_id → j_watermark j' ≤ j_watermark j
  end.
Proof.
  unfold last_adjustment. set (rows := filter _ _).
  assert (∀ j, j ∈ rows ↔ (∃ id, adjustments db !! id = Some j) ∧ j_scope j = key ∧ j_window_id j = window_id) as Hrows.
  { intros j. unfold rows. rewrite list_elem_of_filter, list_elem_of_fmap. setoid_rewrite elem_of_map_to_list'. split.
    - intros [? ([id j'] & -> & ?)]. simpl in *. eauto.
    - intros [[id ?] ?]. split; [done|]. by exists (id, j). }
  assert (match foldr (λ j newest, match newest with
      | Some n => if j_watermark n <? j_watermark j then Some j else newest
      | None => Some j end) None rows with
    | None => rows = []
    | Some j => j ∈ rows ∧ ∀ j', j' ∈ rows → j_watermark j' ≤ j_watermark j
    end) as Hf.
  { clear. induction rows as [|j rows IH]; [done|]. cbn [foldr]. destruct (foldr _ None rows) as [n|].
    - destruct IH as [Hn Hmax]. destruct (Z.ltb_spec (j_watermark n) (j_watermark j)).
      + split; [left|]. intros j' [->|Hj]%elem_of_cons; [lia|]. specialize (Hmax j' Hj). lia.
      + split; [by right|]. intros j' [->|Hj]%elem_of_cons; [lia|]. by apply Hmax.
    - subst rows. split; [left|]. intros j' [->|Hj]%elem_of_cons; [lia|inversion Hj]. }
  destruct (foldr _ None rows) as [j|].
  - destruct Hf as [(? & ? & ?)%Hrows Hmax]. split_and!; try done. intros id j' Hid Hs Hw. apply Hmax, Hrows. eauto.
  - intros id j Hid [Hs Hw]. assert (j ∈ rows) as Hj by (apply Hrows; eauto). rewrite Hf in Hj. inversion Hj.
Qed.
Lemma adjustment_read top db key window_id : book_ok top db → ∃ offset mark,
  match last_adjustment db key window_id with None => Ok (0, 0) | Some j => adjustment_offset j end = Ok (offset, mark) ∧
  offset = manual_offset db key window_id ∧ 0 ≤ offset ∧ 0 ≤ mark ≤ top.
Proof.
  intros Hok. pose proof (lo_top _ _ (bk_ledger _ _ Hok)) as [_ ?].
  pose proof (last_adjustment_spec db key window_id) as Hl. unfold manual_offset.
  destruct (last_adjustment db key window_id) as [j|]; [|exists 0, 0; split_and!; (done || lia)].
  destruct Hl as ([id Hid] & _). destruct (lo_adjustments _ _ (bk_ledger _ _ Hok) id j Hid) as [[Hm Hm'] (p & Hp & Hoff)].
  exists (picos (p_offset_picos p)), (j_watermark j). cbn [from_option]. unfold adjustment_offset, offset_of. rewrite !Hp. simpl. rewrite Hoff.
  simpl. unfold column_u64. rewrite checked_u64_in by width_lia. simpl. split; [done|]. split; [done|]. split; [apply picos_nonneg|lia].
Qed.

(** ** The status of a window, from its rows *)
(** The pricing revisions of some rows, each once, in order. *)
Definition pricing_revisions (rows : list Contribution) : list string :=
  merge_sort String.le (remove_dups (omap c_revision rows)).
#[global] Instance pricing_revisions_perm : Proper ((≡ₚ) ==> (=)) pricing_revisions.
Proof.
  intros l k Hp. unfold pricing_revisions. apply (Sorted_unique String.le); [apply Sorted_merge_sort; apply _..|].
  rewrite !merge_sort_Permutation. apply NoDup_Permutation; [apply NoDup_remove_dups..|].
  intros r. by rewrite !elem_of_remove_dups, Hp.
Qed.
Lemma pricing_revisions_keys {A} (m : gmap string A) rows : (∀ r, is_Some (m !! r) ↔ r ∈ omap c_revision rows) →
  (btree_entries m).*1 = pricing_revisions rows.
Proof.
  intros Hm. apply (Sorted_unique String.le).
  - apply (Sorted_fmap _ key_le); [done|]. apply Sorted_merge_sort. intros p q. apply String.le_total.
  - apply Sorted_merge_sort. apply _.
  - unfold pricing_revisions. rewrite merge_sort_Permutation. apply NoDup_Permutation; [|apply NoDup_remove_dups|].
    + apply NoDup_btree_fmap. by intros k1 x1 k2 x2 _ _ Heq.
    + intros r. rewrite elem_of_remove_dups, <-Hm, list_elem_of_fmap. split.
      * intros ([k x] & -> & Hx%elem_of_btree_entries). by exists x.
      * intros [x Hx]. exists (r, x). split; [done|by apply elem_of_btree_entries].
Qed.
Record status_reads (rows : list Contribution) (offset : Z) (blocked : bool) (s : QuotaStatus) : Prop := {
  sr_observed : qs_observed_picos s = pretty (sum_by amount_of rows);
  sr_offset : qs_manual_offset_picos s = pretty offset;
  sr_used : qs_used_picos s = pretty (sum_by amount_of rows + offset);
  sr_pending : qs_pending_risk_picos s = pretty (sum_by risk_of rows);
  sr_metering : qs_metering_status s = if blocked then "blocked" else metering_of rows;
  sr_watermark : ∀ d, d ∈ rows → c_watermark d ≤ qs_usage_watermark s;
  sr_revisions : qs_usage_pricing_revisions_digest s = sha256_hex (to_json (pricing_revisions rows));
}.
Record covered_window (db : Database) (scope : Scope) (w : Window) (key : string) : Prop := {
  cw_valid : window_validate w = Ok ();
  cw_key : scope_key scope = Ok key;
  cw_covered : from_option (λ at_ms, at_ms <=? metered_start_ms w) false (coverage db !! key) = true;
  cw_range : metered_start_ms w + (DAY_MS - 1) ≤ I64_MAX;
}.
Lemma metered_start_nonneg w : window_validate w = Ok () → 0 ≤ metered_start_ms w.
Proof.
  unfold window_validate, metered_start_ms. intros (? & Hc & _)%bind_Ok. apply fail_if_Ok in Hc.
  rewrite !orb_false_iff, !Z.ltb_ge in Hc. lia.
Qed.
Lemma picos_canonical raw n : unsigned_decimal raw = Ok n → raw = pretty n.
Proof. apply unsigned_decimal_inv. Qed.
Lemma status_total top db scope w key : book_ok top db → covered_window db scope w key →
  let rows := window_rows db key w in
  fits rows → sum_by amount_of rows + manual_offset db key (w_id w) ≤ I128_MAX →
  ∃ s, status_in_tx db scope w = Ok s ∧ status_reads rows (manual_offset db key (w_id w)) (window_blocked db key (w_id w)) s.
Proof.
  intros Hok [Hv Hk Hc Hr] rows Hf Ho. pose proof (bk_ledger _ _ Hok) as [[Ht ?] Hd Hj].
  destruct (window_aggregate_total top db key w Hd ltac:(lia) (metered_start_nonneg w Hv) Hr Hf) as (c & Hagg & Hfacts).
  destruct (adjustment_read top db key (w_id w) Hok) as (offset & mark & Hadj & -> & ? & ?).
  pose proof (sum_nonneg_amount rows). destruct Hfacts as [Ham Hri Hst Hre [Hw0 Hwm]].
  unfold status_in_tx. rewrite Hv. cbn [mbind result_bind]. rewrite Hk. cbn [mbind result_bind]. rewrite Hc.
  cbn [negb fail_if mbind result_bind]. rewrite Hagg. cbn [mbind result_bind]. rewrite Ham. cbn [lift mbind result_bind].
  rewrite Hadj. cbn [mbind result_bind]. fold rows. rewrite checked_i128_in by width_lia. cbn [ok_or mbind result_bind].
  eexists. split; [done|]. split; cbn; [done..| | | |].
  - by apply picos_canonical.
  - by rewrite (metering_rows rows c).
  - intros d Hin. specialize (Hwm d Hin). lia.
  - by rewrite (pricing_revisions_keys _ rows).
Qed.
(** A status that was read satisfies the conditions of the window. *)
Lemma status_covered db scope w s : status_in_tx db scope w = Ok s → ∃ key, covered_window db scope w key.
Proof.
  unfold status_in_tx. intros ([] & Hv & Hs)%bind_Ok. apply bind_Ok in Hs as (key & Hk & Hs).
  apply bind_Ok in Hs as (? & Hc & Hs). apply bind_Ok in Hs as (c & Ha & _). exists key. split; [done..| |].
  - apply fail_if_Ok in Hc. by apply negb_false_iff in Hc.
  - unfold window_aggregate in Ha. apply bind_Ok in Ha as (l & Hl%ok_or_Ok & _). apply checked_Some in Hl as [_ ?]. lia.
Qed.
Lemma status_Ok_fits top db scope w key s : book_ok top db → status_in_tx db scope w = Ok s → scope_key scope = Ok key →
  fits (window_rows db key w) →
  covered_window db scope w key ∧ sum_by amount_of (window_rows db key w) + manual_offset db key (w_id w) ≤ I128_MAX ∧
  status_reads (window_rows db key w) (manual_offset db key (w_id w)) (window_blocked db key (w_id w)) s.
Proof.
  intros Hok Hs Hkey Hf. destruct (status_covered db scope w s Hs) as [k Hcov].
  assert (k = key) as -> by (pose proof (cw_key _ _ _ _ Hcov); congruence). split; [done|].
  enough (sum_by amount_of (window_rows db key w) + manual_offset db key (w_id w) ≤ I128_MAX) as Ho.
  { split; [done|]. destruct (status_total top db scope w key Hok Hcov Hf Ho) as (s' & Hs' & ?). congruence. }
  destruct (adjustment_read top db key (w_id w) Hok) as (offset & mark & Hadj & <- & _).
  pose proof (lo_top _ _ (bk_ledger _ _ Hok)) as [_ Ht].
  destruct (window_aggregate_total top db key w (lo_days _ _ (bk_ledger _ _ Hok)) (proj2 Ht)) as (c & Hagg & Hfacts);
    [by apply metered_start_nonneg, Hcov|apply Hcov|done|].
  unfold status_in_tx in Hs. rewrite (cw_valid _ _ _ _ Hcov) in Hs. cbn [mbind result_bind] in Hs. rewrite Hkey in Hs.
  cbn [mbind result_bind] in Hs. apply bind_Ok in Hs as (? & _ & Hs). rewrite Hagg in Hs. cbn [mbind result_bind] in Hs.
  rewrite (wf_amount _ _ _ Hfacts) in Hs. cbn [lift mbind result_bind] in Hs. rewrite Hadj in Hs. cbn [mbind result_bind] in Hs.
  apply bind_Ok in Hs as (used & [-> ?]%ok_or_Ok%checked_Some & _). lia.
Qed.
End status.
