(* ===== verification/ValueBounds.v ===== *)
(** * Admission against the limit

    The status over a whole history, what an admission reserves, and when it is refused: an enforced admission
    leaves what is used and what is pending within the limit. *)
From S2P Require Import Prelude MapSum RustStr Json ModelIdentity ValuePricing ValueTables.
From S2P Require Import ValueAdmission ValueSettlement ValueMaintenance ValueCheckpoints ValueLedger ValueRows ValueHistory ValueJournal.
From S2P Require Import ValueStatus.
From Stdlib Require Import ZArith Lia.

Local Open Scope Z_scope.

(** What the totals of a window, the requests in flight and a block decide. *)
Definition refusal (limit used pending in_flight lanes : Z) (blocked : bool) : option ValueQuotaRejectionKind :=
  if blocked then Some Blocked
  else if limit <=? used then Some Exhausted
  else if (limit - used <=? pending) || (lanes <=? in_flight) then Some Busy
  else None.

Section bounds.
Context `{!Digest, !Serde Scope, !Serde Checkpoint, !Serde AdjustmentPayload, !Serde (list string)}.
Context `{!Serde (string * string), !Serde (Scope * string), !Serde AttemptMeta, !Serde MarketTrialAttempt}.
Context `{!Serde PricingSnapshot, !Serde ExecutionModelPrice, !Serde PendingTariff, !Serde RouterBlock}.
Context (observation_json : Observation → string).
Context (outcome_json : string → string → Z → AttemptOutcome → string → string).
Notation history := (history observation_json outcome_json).

(** ** What an admission reads and writes *)
Lemma status_set_meta db m scope w :
  (∀ key, window_blocked (set_meta m db) key (w_id w) = window_blocked db key (w_id w)) →
  status_in_tx (set_meta m db) scope w = status_in_tx db scope w.
Proof.
  intros Hb. unfold status_in_tx. destruct (window_validate w); [|done]. cbn [mbind result_bind].
  destruct (scope_key scope); [|done]. cbn [mbind result_bind]. by rewrite Hb.
Qed.
Lemma activate_meta db scope now db' r : activate_due_in_tx db scope now = Ok (db', r) →
  ∃ m, db' = set_meta m db ∧ ∀ key id, window_blocked (set_meta m db) key id = window_blocked db key id.
Proof.
  unfold activate_due_in_tx. intros (p & _ & Ha)%bind_Ok. apply bind_Ok in Ha as (d & Hd & [= <- _]).
  assert (∃ m, d = set_meta m db ∧ (m = meta db ∨
    ∃ v, m = delete (pending_tariff_key scope) (<[active_key scope := v]> (meta db)))) as (m & -> & Hm).
  { destruct p as [p|]; [destruct (_ <=? now)|].
    - apply bind_Ok in Hd as (? & _ & [= <-]). eexists. split; [done|]. right. by eexists.
    - injection Hd as <-. exists (meta db). split; [by destruct db|by left].
    - injection Hd as <-. exists (meta db). split; [by destruct db|by left]. }
  exists m. split; [done|]. intros key id. unfold window_blocked. cbn [meta set_meta].
  destruct Hm as [->|[v ->]]; [done|]. by rewrite !lookup_delete_ne, !lookup_insert_ne by done.
Qed.
(** The rows after an admission: one more attempt, and perhaps one gap less. *)
Lemma admitted_rows db db' id new key request scope span :
  attempts db' = <[id := new]> (attempts db) → attempts db !! id = None → gaps db' = delete (key, request) (gaps db) →
  ∃ gone, (length gone ≤ 1)%nat ∧ contributions db' scope span ++ (gap_contribution <$> gone) ≡ₚ
    attempt_part scope span (id, new) ++ contributions db scope span.
Proof.
  intros Ha Hid Hg. set (mid := set_attempts (<[id := new]> (attempts db)) db).
  pose proof (contributions_insert db mid id new scope span eq_refl eq_refl) as Hins. rewrite Hid in Hins. simpl in Hins.
  rewrite app_nil_r in Hins.
  enough (∃ gone, (length gone ≤ 1)%nat ∧ contributions db' scope span ++ (gap_contribution <$> gone) ≡ₚ contributions mid scope span)
    as (gone & Hlen & Hgone) by (exists gone; by rewrite Hgone, Hins).
  destruct (gaps db !! (key, request)) as [g|] eqn:Eg.
  - pose proof (contributions_remove_gap mid db' (key, request) g scope span Ha Hg Eg) as Hrem. unfold gap_part in Hrem.
    destruct (str_eqb _ scope && _); [exists [g]|exists []]; (split; [simpl; lia|]); simpl in *; rewrite Hrem; solve_Permutation.
  - exists []. split; [simpl; lia|]. simpl. rewrite app_nil_r. rewrite (contributions_tables mid db') by (done || by rewrite Hg, delete_id). done.
Qed.
Lemma gap_sums gone : sum_by amount_of (gap_contribution <$> gone) = 0 ∧ sum_by risk_of (gap_contribution <$> gone) = 0.
Proof. induction gone as [|g gone [IHa IHr]]; [done|]. by split. Qed.
Lemma limit_picos_range q n : limit_picos q = Ok n → n ≤ I128_MAX.
Proof.
  unfold limit_picos. intros (m & _ & Hl)%bind_Ok. destruct (_ || _); [done|].
  apply ok_or_Ok, checked_Some in Hl as [-> ?]. lia.
Qed.
(** What a granted reservation was checked against. *)
Lemma reserve_Ok db a trial key model r : ad_enforce a = true → reserve_in_tx db a trial key model = Ok r →
  ∃ s limit, status_in_tx db (ad_scope a) (ad_window a) = Ok s ∧ limit_picos (ad_quota a) = Ok limit ∧
    picos (qs_used_picos s) < limit ∧ 0 ≤ r ∧ picos (qs_used_picos s) + picos (qs_pending_risk_picos s) + r ≤ limit ∧
    qs_metering_status s ≠ "blocked" ∧ in_flight db key (ad_window a) < saturate 1 4 (ad_parallel_limit a).
Proof.
  intros He. unfold reserve_in_tx. rewrite He. cbn [negb]. intros (s & Hs & Hr)%bind_Ok.
  apply bind_Ok in Hr as (? & Hb%fail_if_Ok%str_eqb_neq & Hr). apply bind_Ok in Hr as (spent & Hspent%lift_Ok & Hr).
  apply bind_Ok in Hr as (pending & Hpending%lift_Ok & Hr). apply bind_Ok in Hr as (limit & Hl%lift_Ok & Hr).
  apply bind_Ok in Hr as (? & Hlt%fail_if_Ok%Z.leb_gt & Hr). apply bind_Ok in Hr as (available & Hav%ok_or_Ok & Hr).
  apply bind_Some in Hav as (left_over & [-> _]%checked_Some & [-> _]%checked_Some).
  apply bind_Ok in Hr as (? & Hpos%fail_if_Ok%Z.leb_gt & Hr). apply bind_Ok in Hr as (available & Hav & Hr).
  apply bind_Ok in Hr as (? & Hlanes%fail_if_Ok%Z.leb_gt & Hr). injection Hr as <-.
  apply picos_Ok in Hspent, Hpending. exists s, limit. rewrite Hspent, Hpending.
  assert (0 ≤ available ≤ limit - spent - pending) as Hle.
  { destruct trial as [t|]; [|injection Hav as <-; lia]. apply bind_Ok in Hav as (left_over & Ht & [= <-]).
    unfold trial_available_in_tx in Ht. repeat (apply bind_Ok in Ht as (? & ? & Ht)). injection Ht as <-.
    match goal with H : fail_if (_ <=? 0) _ = _ |- _ => apply fail_if_Ok, Z.leb_gt in H end. lia. }
  split_and!; try done; unfold saturate; lia.
Qed.
Lemma admit_Ok db a trial db' r : attempts db !! (ad_request_id a, ad_attempt_id a) = None →
  admit_with_trial_in_tx db a trial = Ok (db', r) → ∃ key model,
  scope_key (ad_scope a) = Ok key ∧ window_span (ad_window a) (ad_started_at_ms a) = true ∧
  reserve_in_tx db a trial key model = Ok r ∧ insert_admitted db a trial key model r = Ok db'.
Proof.
  intros Hid. unfold admit_with_trial_in_tx. intros (key & Hkey & Ha)%bind_Ok. apply bind_Ok in Ha as (s & _ & Ha). cbn zeta in Ha.
  apply bind_Ok in Ha as (model & _ & Ha). apply bind_Ok in Ha as (? & _ & Ha). rewrite Hid in Ha.
  apply bind_Ok in Ha as (risk & Hr & Ha). apply bind_Ok in Ha as (d & Hi & [= <- <-]). exists key, model.
  unfold admission_key in Hkey. apply bind_Ok in Hkey as (? & _ & Hkey). apply bind_Ok in Hkey as (? & _ & Hkey).
  apply bind_Ok in Hkey as (? & Hspan%fail_if_Ok%negb_false_iff & Hkey). apply bind_Ok in Hkey as (k & Hk & Hkey).
  apply bind_Ok in Hkey as (? & _ & [= ->]). by split_and!.
Qed.
(** The status after the rows gained one contribution without an amount. *)
Lemma admitted_status top db db' scope w key s d gone : book_ok top db → book_ok (top + 1) db' →
  status_in_tx db scope w = Ok s → scope_key scope = Ok key → fits (window_rows db' key w) →
  adjustments db' = adjustments db → coverage db' = coverage db →
  window_rows db' key w ++ (gap_contribution <$> gone) ≡ₚ d :: window_rows db key w →
  (length gone ≤ 1)%nat → amount_of d = 0 →
  ∃ s', status_in_tx db' scope w = Ok s' ∧ qs_used_picos s' = qs_used_picos s ∧
    picos (qs_pending_risk_picos s') = picos (qs_pending_risk_picos s) + risk_of d.
Proof.
  intros Hok Hok' Hs Hkey Hf Had Hco Hrows Hlen Hd. destruct (gap_sums gone) as [Hga Hgr].
  pose proof (sum_nonneg_risk (window_rows db key w)). pose proof (sum_nonneg_amount (window_rows db key w)).
  assert (sum_by amount_of (window_rows db' key w) = sum_by amount_of (window_rows db key w) ∧
    sum_by risk_of (window_rows db' key w) = risk_of d + sum_by risk_of (window_rows db key w)) as [Hsa Hsr].
  { split; [pose proof (sum_by_perm amount_of _ _ Hrows) as Hp|pose proof (sum_by_perm risk_of _ _ Hrows) as Hp];
      rewrite sum_by_app in Hp; simpl in Hp; lia. }
  assert (0 ≤ risk_of d) by apply picos_nonneg.
  assert (fits (window_rows db key w)) as Hf0.
  { destruct Hf as (? & ? & ?). apply Permutation_length in Hrows. rewrite length_app, length_fmap in Hrows. simpl in Hrows.
    split_and!; lia. }
  destruct (status_Ok_fits top db scope w key s Hok Hs Hkey Hf0) as ([Hv _ Hc Hr] & Ho & Hreads).
  assert (manual_offset db' key (w_id w) = manual_offset db key (w_id w)) as Hoff
    by (unfold manual_offset, last_adjustment; by rewrite Had).
  destruct (status_total (top + 1) db' scope w key Hok') as (s' & Hs' & Hreads'); [split; [done..|by rewrite Hco|done]|done|by rewrite Hoff, Hsa|].
  exists s'. split; [done|]. rewrite (sr_used _ _ _ _ Hreads), (sr_used _ _ _ _ Hreads'), Hoff, Hsa. split; [done|].
  rewrite (sr_pending _ _ _ _ Hreads), (sr_pending _ _ _ _ Hreads'), !picos_pretty; destruct Hf, Hf0; lia.
Qed.


(** C3: every daily checkpoint of every scope, after any sequence of operations, parses, agrees with its digest and
    holds exactly the sums and counters of the attempts and gaps of its day. *)
Theorem checkpoints_follow_rows ops scope day :
  ∃ c, read_checkpoint (history ops) scope day = Ok c ∧ aggregates (contributions (history ops) scope (on_day day)) c.
Proof.
  destruct (history_ok observation_json outcome_json ops) as [top Hok].
  destruct (do_checkpoints _ _ (lo_days _ _ (bk_ledger _ _ Hok)) scope day) as (c & ? & ? & _). by exists c.
Qed.

(** C1: an enforced admission of a new attempt is granted only below the limit, and once it is written what is used
    and what is pending, the new reservation included, stay within the limit. *)
Theorem admission_within_limit ops fence a trial now db' r key :
  let db := history ops in let w := ad_window a in
  ad_enforce a = true → attempts db !! (ad_request_id a, ad_attempt_id a) = None → scope_key (ad_scope a) = Ok key →
  admit_with_market_trial db fence a trial now = Ok (db', r) → fits (window_rows db' key w) →
  ∃ limit s s', limit_picos (ad_quota a) = Ok limit ∧
    status_in_tx db (ad_scope a) w = Ok s ∧ status_in_tx db' (ad_scope a) w = Ok s' ∧
    picos (qs_used_picos s) < limit ∧ qs_used_picos s' = qs_used_picos s ∧ 0 ≤ r ∧
    picos (qs_pending_risk_picos s') = picos (qs_pending_risk_picos s) + r ∧
    picos (qs_used_picos s') + picos (qs_pending_risk_picos s') ≤ limit ∧
    qs_metering_status s ≠ "blocked" ∧ in_flight db key w < saturate 1 4 (ad_parallel_limit a).
Proof.
  intros db w He Hnew Hkey Hadm Hf. destruct (history_ok observation_json outcome_json ops) as [top Hok]. fold db in Hok.
  unfold admit_with_market_trial in Hadm. apply bind_Ok in Hadm as (? & _ & Hadm).
  apply bind_Ok in Hadm as ([db1 rev] & Hrev & Hadm). unfold admission_revision in Hrev.
  apply bind_Ok in Hrev as ([db2 active] & Hact & Hrev). cbn zeta in Hrev. apply bind_Ok in Hrev as (? & _ & [= -> _]).
  pose proof (frame_ok top _ _ (activate_frame _ _ _ _ _ Hact) Hok) as Hok1.
  apply activate_meta in Hact as (m & -> & Hblocked). set (a' := mk_admission _ _ _ _ _ _ _ _ _ _ _ _ _) in Hadm.
  apply admit_Ok in Hadm as (k & model & Hk & Hspan & Hres & Hins); [|done].
  cbn in Hk, Hspan. rewrite Hkey in Hk. injection Hk as <-.
  apply reserve_Ok in Hres as (s & limit & Hs & Hl & Hlt & Hr0 & Hle & Hb & Hlanes); [|done]. cbn in Hs, Hl, Hlanes.
  rewrite status_set_meta in Hs by (intros; apply Hblocked). fold w in Hs, Hlanes.
  destruct (insert_admitted_ok top _ a' _ _ _ _ _ Hok1 Hnew Hins) as (Hok' & Hat & Hga & Had & Hco).
  destruct (admitted_rows (set_meta m db) db' _ _ key (ad_request_id a) key (window_span w) Hat Hnew Hga) as (gone & Hlen & Hrows).
  fold w in Hspan. unfold attempt_part in Hrows. cbn in Hrows. rewrite str_eqb_refl, Hspan in Hrows. cbn in Hrows.
  change (contributions db' key (window_span w)) with (window_rows db' key w) in Hrows.
  rewrite (contributions_tables db (set_meta m db) key (window_span w) eq_refl eq_refl) in Hrows.
  fold (window_rows db key w) in Hrows.
  destruct (admitted_status top db db' (ad_scope a) w key s _ gone Hok Hok' Hs Hkey Hf Had Hco Hrows Hlen) as (s' & Hs' & Hu & Hp); [done|].
  pose proof (limit_picos_range _ _ Hl). pose proof (picos_nonneg (qs_used_picos s)). pose proof (picos_nonneg (qs_pending_risk_picos s)).
  unfold risk_of in Hp. cbn in Hp. rewrite picos_pretty in Hp by lia.
  exists limit, s, s'. rewrite Hu, Hp. split_and!; (done || lia).
Qed.

(** C5: for an enforced admission outside a market trial the reservation is refused as blocked, exhausted or busy
    exactly as the rows of the window, the attempts in flight and the block of the window decide; otherwise it is
    the priced estimate, cut to what the limit leaves, or all that is left when the estimate has no price. *)
Theorem reservation_decided ops a key model limit :
  let db := history ops in let w := ad_window a in let rows := window_rows db key w in
  let used := sum_by amount_of rows + manual_offset db key (w_id w) in let pending := sum_by risk_of rows in
  ad_enforce a = true → covered_window db (ad_scope a) w key → fits rows → used ≤ I128_MAX →
  limit_picos (ad_quota a) = Ok limit →
  match refusal limit used pending (in_flight db key w) (saturate 1 4 (ad_parallel_limit a)) (window_blocked db key (w_id w)) with
  | Some kind => ∃ at_ms, reserve_in_tx db a None key model = Err (Rejected kind at_ms)
  | None => reserve_in_tx db a None key model = Ok (saturate 0 (limit - used - pending)
      (default (limit - used - pending)
        (usage_picos <$> to_ok (model_price model (ad_effective_tier a) (estimate_tokens (ad_estimate a))))))
  end.
Proof.
  intros db w rows used pending He Hcov Hf Hu Hl. destruct (history_ok observation_json outcome_json ops) as [top Hok]. fold db in Hok.
  destruct (status_total top db (ad_scope a) w key Hok Hcov Hf Hu) as (s & Hs & Hreads).
  assert (unsigned_decimal (qs_used_picos s) = Ok used) as Hused.
  { rewrite (sr_used _ _ _ _ Hreads). apply unsigned_decimal_pretty. split; [|done].
    pose proof (sum_nonneg_amount rows). destruct (adjustment_read top db key (w_id w) Hok) as (? & ? & _ & -> & ? & _). lia. }
  assert (unsigned_decimal (qs_pending_risk_picos s) = Ok pending) as Hpending.
  { rewrite (sr_pending _ _ _ _ Hreads). apply unsigned_decimal_pretty. destruct Hf as (_ & ? & _).
    split; [apply sum_nonneg_risk|done]. }
  pose proof (unsigned_decimal_range _ _ Hused). pose proof (unsigned_decimal_range _ _ Hpending).
  pose proof (limit_picos_range _ _ Hl).
  assert (str_eqb (qs_metering_status s) "blocked" = window_blocked db key (w_id w)) as Hblocked.
  { rewrite (sr_metering _ _ _ _ Hreads). destruct (window_blocked db key (w_id w)); [done|].
    unfold metering_of. do 2 (destruct (decide _); [done|]). done. }
  unfold reserve_in_tx, refusal. rewrite He. cbn [negb]. fold w. rewrite Hs. cbn [mbind result_bind]. rewrite Hblocked.
  destruct (window_blocked db key (w_id w)); [by eexists|]. cbn [fail_if mbind result_bind]. rewrite Hused, Hpending, Hl.
  cbn [lift mbind result_bind]. destruct (Z.leb_spec limit used); [by eexists|]. cbn [fail_if mbind result_bind].
  rewrite checked_i128_in by width_lia. cbn [mbind option_bind]. rewrite checked_i128_in by width_lia.
  cbn [ok_or mbind result_bind]. destruct (Z.leb_spec (limit - used) pending) as [Hle|Hgt]; cbn [orb].
  - rewrite (proj2 (Z.leb_le (limit - used - pending) 0)) by lia. by eexists.
  - rewrite (proj2 (Z.leb_gt (limit - used - pending) 0)) by lia. cbn [fail_if mbind result_bind].
    destruct (_ <=? in_flight db key w); [by eexists|done].
Qed.
End bounds.
