(* ===== verification/ValueSettled.v ===== *)
(** * Settlement, compaction and repair

    A settlement changes one attempt and no other row, keeps the reserved money together while the request runs,
    and is final for the evidence it has seen; a guess gives way to the log; compaction does not change a status;
    an adjustment by the owner repairs the checkpoints and reaches its target. *)
From S2P Require Import Prelude MapSum RustStr Json ModelIdentity ValuePricing ValueTables.
From S2P Require Import ValueAdmission ValueSettlement ValueMaintenance ValueCheckpoints ValueLedger ValueRows ValueHistory ValueJournal.
From S2P Require Import ValueStatus ValueBounds.
From Stdlib Require Import ZArith Lia.

Local Open Scope Z_scope.

Section settled.
Context `{!Digest, !Serde Scope, !Serde Checkpoint, !Serde AdjustmentPayload, !Serde (list string)}.
Context `{!Serde (string * string), !Serde (Scope * string), !Serde AttemptMeta, !Serde MarketTrialAttempt}.
Context `{!Serde PricingSnapshot, !Serde ExecutionModelPrice, !Serde PendingTariff, !Serde RouterBlock}.
Context (observation_json : Observation → string).
Context (outcome_json : string → string → Z → AttemptOutcome → string → string).
Notation history := (history observation_json outcome_json).
Notation settle_in_tx := (settle_in_tx observation_json).
Notation settle_outcome_in_tx := (settle_outcome_in_tx outcome_json).

(** ** One settlement *)
Lemma settled_amounts top db id old rev digest amount state risk db' :
  settles top db id (settled_attempt old rev digest amount state risk (top + 1)) db' →
  0 ≤ amount ∧ picos (pretty amount) = amount ∧ 0 ≤ risk ∧ picos (pretty risk) = risk.
Proof.
  intros [Hok Ha _ _ _]. set (new := settled_attempt _ _ _ _ _ _ _) in *.
  destruct (do_attempts _ _ (lo_days _ _ (bk_ledger _ _ Hok)) id new) as (_ & [Hm Hr] & _); [by rewrite Ha, lookup_insert_eq|].
  unfold amount_of in Hm. unfold risk_of in Hr. cbn in Hm, Hr.
  pose proof (unsigned_decimal_range _ _ Hm). pose proof (unsigned_decimal_range _ _ Hr).
  apply unsigned_decimal_inv, (inj pretty) in Hm, Hr. lia.
Qed.
(** The same observation again. *)
Lemma settled_again db o db' old rest : attempts db !! (o_request_id o, o_attempt_id o) = Some old →
  settle_in_tx db o = Ok (db', true) →
  (∃ amount state risk w, rest = settled_attempt old (o_usage_revision o) (observation_digest observation_json o) amount state risk w) →
  attempts db' !! (o_request_id o, o_attempt_id o) = Some rest → settle_in_tx db' o = Ok (db', false).
Proof.
  intros Hid Hs (amount & state & risk & w & ->) Hid'. unfold ValueSettlement.settle_in_tx in *. rewrite Hid in Hs. rewrite Hid'.
  cbn [ok_or mbind result_bind] in *. apply bind_Ok in Hs as (key & Hkey & Hs). rewrite Hkey. cbn [mbind result_bind].
  apply bind_Ok in Hs as ([] & Hc & Hs). cbn [a_scope a_effective_model a_effective_tier settled_attempt]. rewrite Hc.
  cbn [mbind result_bind]. apply bind_Ok in Hs as (rev & Hrev & _). rewrite Hrev. cbn [mbind result_bind].
  unfold takes_effect. cbn [a_usage_revision a_observation_sha256 settled_attempt].
  by rewrite Z.ltb_irrefl, Z.eqb_refl, str_eqb_refl.
Qed.

(** an observation either leaves the ledger as it was or changes its own attempt alone: scope, window, price and
    start stay, what the attempt held in amount and risk together stays while it is pending (unless the amount
    already exceeds it), nothing is left at risk once it is settled; and the same observation applied again does
    nothing. *)
Theorem settlement_changes_one_attempt ops o db' took :
  let db := history ops in let id := (o_request_id o, o_attempt_id o) in
  settle_in_tx db o = Ok (db', took) →
  settle_in_tx db' o = Ok (db', false) ∧
  (took = false → db' = db) ∧
  (took = true → ∃ old new, attempts db !! id = Some old ∧ attempts db' = <[id := new]> (attempts db) ∧
    gaps db' = gaps db ∧ adjustments db' = adjustments db ∧ coverage db' = coverage db ∧
    a_scope new = a_scope old ∧ a_window_id new = a_window_id old ∧ a_started_at_ms new = a_started_at_ms old ∧
    a_pricing_revision new = a_pricing_revision old ∧ a_usage_revision new = o_usage_revision o ∧
    a_usage_revision old ≤ a_usage_revision new ∧
    let held a := picos (a_usage_picos a) + picos (a_pending_risk_picos a) in
    (a_metering_status new = "pending" → held new = Z.max (held old) (picos (a_usage_picos new))) ∧
    (a_metering_status new ≠ "pending" → picos (a_pending_risk_picos new) = 0)).
Proof.
  intros db id Hs. destruct (history_ok observation_json outcome_json ops) as [top Hok]. fold db in Hok.
  destruct (settle_in_tx_cases observation_json top db o db' took Hok Hs)
    as [[-> ->]|(-> & old & snapshot & tariff & risk & Hid & Heff & _ & Hrisk & Hst)]; [by split_and!|].
  cbn zeta in Hrisk, Hst. set (value := settled_value _ _ _ _ _ _) in *. set (new := settled_attempt _ _ _ _ _ _ _) in Hst.
  pose proof (settled_amounts _ _ _ _ _ _ _ _ _ _ Hst) as (? & Hpa & ? & Hpr). destruct Hst as [_ Ha Hg Hj Hc].
  split; [|split; [done|intros _]].
  - apply (settled_again db o db' old new Hid Hs); [by do 4 eexists|by rewrite Ha, lookup_insert_eq].
  - exists old, new. cbn zeta. split_and!; try done.
    + unfold takes_effect in Heff. cbn. destruct (Z.ltb_spec (o_usage_revision o) (a_usage_revision old)); [done|lia].
    + cbn. intros Hpending. rewrite Hpa, Hpr. unfold risk_left in Hrisk. rewrite Hpending in Hrisk. cbn in Hrisk.
      apply bind_Ok in Hrisk as (r & Hr%ok_or_Ok & [= <-]).
      apply bind_Some in Hr as (v & [-> _]%checked_Some & [-> _]%checked_Some).
      rewrite str_eqb_refl in *. lia.
    + cbn. intros Hn. rewrite Hpr. unfold risk_left in Hrisk. by rewrite (proj2 (str_eqb_neq _ _) Hn) in Hrisk; injection Hrisk.
Qed.

(** a guessed outcome settles an attempt with nothing left at risk, at zero when nothing was sent and otherwise at
    no less than its reservation and what it had used; it is not guessed again, and any observation of the log whose
    revision is not older takes its place. *)
Theorem guess_yields_to_log ops r a outcome unobserved db' :
  let db := history ops in
  settle_outcome_in_tx db r a outcome unobserved = Ok (db', true) →
  ∃ old new, attempts db !! (r, a) = Some old ∧ attempts db' = <[(r, a) := new]> (attempts db) ∧
    picos (a_pending_risk_picos new) = 0 ∧
    picos (a_usage_picos new) = match outcome with
      | Unknown => Z.max (from_option reserved 0 (read_attempt_meta db r a)) (picos (a_usage_picos old))
      | _ => 0 end ∧
    (∀ outcome' unobserved', settle_outcome_in_tx db' r a outcome' unobserved' = Ok (db', false)) ∧
    (∀ o, o_synthetic o = false → a_usage_revision old ≤ o_usage_revision o →
      takes_effect observation_json new o = true).
Proof.
  intros db Hs. destruct (history_ok observation_json outcome_json ops) as [top Hok]. fold db in Hok.
  destruct (settle_outcome_cases outcome_json top db r a outcome unobserved db' true Hok Hs)
    as [[? _]|(_ & old & digest & Hid & _ & Hdig & _ & Hst)]; [done|]. cbn zeta in Hst.
  set (value := match outcome with Unknown => _ | _ => _ end) in Hst. set (new := settled_attempt _ _ _ _ _ _ _) in Hst.
  pose proof (settled_amounts _ _ _ _ _ _ _ _ _ _ Hst) as (? & Hpa & ? & Hpr). destruct Hst as [_ Ha _ _ _].
  exists old, new. split; [done|]. split; [done|]. split; [exact Hpr|]. split; [cbn; rewrite Hpa; by destruct outcome|]. split.
  - intros outcome' unobserved'. unfold ValueSettlement.settle_outcome_in_tx. rewrite Ha, lookup_insert_eq.
    replace (unsettled_state (a_metering_status new)) with false by (by destruct outcome). done.
  - intros o Ho Hrev. unfold takes_effect. cbn. rewrite (proj2 (Z.ltb_ge _ _)) by lia.
    destruct (_ =? _); [|done]. rewrite Ho, Hdig.
    rewrite (proj2 (str_eqb_neq _ _)); [done|]. intros ->. unfold is_synthetic, observation_digest in Hdig. rewrite Ho in Hdig.
    change (starts_with "synthetic:" (sha256_hex (observation_json o)) = true) in Hdig. by rewrite sha256_hex_plain in Hdig.
Qed.

(** ** Compaction *)
(** The same rows, adjustments, coverage and blocks. *)
Record same_books (db db' : Database) : Prop := {
  sb_rows : ∀ scope span, contributions db' scope span ≡ₚ contributions db scope span;
  sb_adjustments : adjustments db' = adjustments db;
  sb_coverage : coverage db' = coverage db;
  sb_blocked : ∀ key id, window_blocked db' key id = window_blocked db key id;
}.
#[global] Instance same_books_preorder : PreOrder same_books.
Proof.
  split; [by split|]. intros db1 db2 db3 [] []. split; try congruence.
  intros scope span. etrans; [apply sb_rows1|apply sb_rows0].
Qed.
Lemma compact_attempt_books now db id a db' : attempts db !! id = Some a → compact_attempt now db id a = Ok db' → same_books db db'.
Proof.
  intros Hid (m & ->)%compact_attempt_Ok. split; [|done..|].
  - intros scope span. set (db' := set_meta _ _).
    pose proof (contributions_insert db db' id (compacted now a) scope span eq_refl eq_refl) as Hins. rewrite Hid in Hins.
    change (attempt_part scope span (id, compacted now a)) with (attempt_part scope span (id, a)) in Hins. simpl in Hins.
    rewrite Permutation_app_comm in Hins. by apply Permutation_app_inv_l in Hins.
  - intros key w. unfold window_blocked. cbn. by rewrite !lookup_delete_ne.
Qed.
Lemma status_same_books top top' db db' scope w key s : book_ok top db → book_ok top' db' → same_books db db' →
  status_in_tx db scope w = Ok s → scope_key scope = Ok key → fits (window_rows db key w) →
  ∃ s', status_in_tx db' scope w = Ok s' ∧ qs_observed_picos s' = qs_observed_picos s ∧
    qs_manual_offset_picos s' = qs_manual_offset_picos s ∧ qs_used_picos s' = qs_used_picos s ∧
    qs_pending_risk_picos s' = qs_pending_risk_picos s ∧ qs_metering_status s' = qs_metering_status s ∧
    qs_usage_pricing_revisions_digest s' = qs_usage_pricing_revisions_digest s.
Proof.
  intros Hok Hok' [Hrows Had Hco Hbl] Hs Hkey Hf.
  destruct (status_Ok_fits top db scope w key s Hok Hs Hkey Hf) as ([Hv _ Hc Hr] & Ho & [R1 R2 R3 R4 R5 _ R7]).
  specialize (Hrows key (window_span w)). fold (window_rows db' key w) (window_rows db key w) in Hrows.
  assert (manual_offset db' key (w_id w) = manual_offset db key (w_id w)) as Hoff
    by (unfold manual_offset, last_adjustment; by rewrite Had).
  destruct (status_total top' db' scope w key Hok') as (s' & Hs' & [R1' R2' R3' R4' R5' _ R7']);
    [split; [done..|by rewrite Hco|done]|by rewrite Hrows|by rewrite Hoff, Hrows|].
  exists s'. rewrite R1, R2, R3, R4, R5, R7, R1', R2', R3', R4', R5', R7', Hoff, Hbl, Hrows. by split_and!.
Qed.

(** compaction, which drops the history and the frozen prices of old settled attempts, changes no status: amounts,
    offset, risk, metering state and the digest of the revisions are the same for every scope and window. *)
Theorem compaction_keeps_status ops cutoff now db' n scope w key s :
  let db := history ops in
  compact_in_tx db cutoff now = Ok (db', n) → status_in_tx db scope w = Ok s → scope_key scope = Ok key →
  fits (window_rows db key w) →
  ∃ s', status_in_tx db' scope w = Ok s' ∧ qs_observed_picos s' = qs_observed_picos s ∧
    qs_manual_offset_picos s' = qs_manual_offset_picos s ∧ qs_used_picos s' = qs_used_picos s ∧
    qs_pending_risk_picos s' = qs_pending_risk_picos s ∧ qs_metering_status s' = qs_metering_status s ∧
    qs_usage_pricing_revisions_digest s' = qs_usage_pricing_revisions_digest s.
Proof.
  intros db Hc Hs Hkey Hf. destruct (history_ok observation_json outcome_json ops) as [top Hok]. fold db in Hok.
  destruct (compact_advances db cutoff now db' n Hc top Hok) as (top' & _ & Hok').
  apply (status_same_books top top' db db' scope w key); [done|done| |done..]. eapply (compact_rows same_books); [|done].
  intros. by eapply compact_attempt_books.
Qed.

(** ** Repair *)
(** Inserting the newest adjustment of a window. *)
Lemma last_inserted db id j : (∀ id' j', adjustments db !! id' = Some j' → j_watermark j' < j_watermark j) →
  adjustments db !! id = None →
  last_adjustment (set_adjustments (<[id := j]> (adjustments db)) db) (j_scope j) (j_window_id j) = Some j.
Proof.
  intros Hmax Hid. set (db' := set_adjustments _ db).
  pose proof (last_adjustment_spec db' (j_scope j) (j_window_id j)) as Hl.
  assert (adjustments db' !! id = Some j) as Hj by (cbn; apply lookup_insert_eq).
  destruct (last_adjustment db' _ _) as [l|]; [|by destruct (Hl id j Hj)].
  destruct Hl as ([id' Hl] & _ & _ & Hle). specialize (Hle id j Hj eq_refl eq_refl).
  cbn in Hl. apply lookup_insert_Some in Hl as [[_ <-]|[_ Hl]]; [done|]. specialize (Hmax _ _ Hl). lia.
Qed.
Lemma edit_offset_set e observed offset target : e_action e = Set_ → edit_offset e observed = Ok (offset, target) →
  ∃ raw n, e_target_picos e = Some raw ∧ unsigned_decimal raw = Ok n ∧ offset = n - observed ∧ observed ≤ n.
Proof.
  intros Ha. unfold edit_offset. rewrite Ha. intros (raw & Hraw%ok_or_Ok & He)%bind_Ok.
  apply bind_Ok in He as (n & Hn%lift_Ok & He). apply bind_Ok in He as (? & Hc & [= <- _]). exists raw, n.
  apply fail_if_Ok, negb_false_iff, andb_true_iff in Hc as [Hc%Z.leb_le _]. by split_and!.
Qed.
Lemma reconcile_unblocks db key w before fenced db' r id : reconcile outcome_json db key w before fenced = Ok (db', r) →
  id = w_id w → window_blocked db' key id = false.
Proof.
  intros Hr ->. unfold reconcile in Hr. apply bind_Ok in Hr as ([db1 days] & _ & Hr). apply bind_Ok in Hr as ([db2 n] & _ & Hr).
  cbn zeta in Hr. apply bind_Ok in Hr as (db3 & _ & [<- _]%Ok_pair). unfold window_blocked. cbn [meta set_meta foldr app].
  rewrite lookup_delete_eq. destruct (decide (block_key key (w_id w) = legacy_scope_block_key key)) as [->|Hne];
    [by rewrite lookup_delete_eq|]. rewrite lookup_delete_ne by done. by rewrite lookup_delete_eq.
Qed.
(** The status after an adjustment was inserted as the newest of its window. *)
Lemma status_adjusted top db db' scope w key s id j : book_ok top db → status_in_tx db scope w = Ok s →
  scope_key scope = Ok key → fits (window_rows db key w) → book_ok (top + 1) db' → adjustments db !! id = None →
  (∃ m, db' = set_adjustments (<[id := j]> (adjustments db)) (set_meta m db)) → j_scope j = key → j_window_id j = w_id w →
  j_watermark j = top + 1 → sum_by amount_of (window_rows db key w) + offset_of j ≤ I128_MAX →
  ∃ s', status_in_tx db' scope w = Ok s' ∧
    status_reads (window_rows db key w) (offset_of j) (window_blocked db' key (w_id w)) s'.
Proof.
  intros Hok Hs Hkey Hf Hok' Hid [m Hdb'] Hsc Hw Hmark Hle.
  destruct (status_Ok_fits top db scope w key s Hok Hs Hkey Hf) as ([Hv _ Hc Hr] & _ & _).
  assert (manual_offset db' key (w_id w) = offset_of j) as Hoff.
  { unfold manual_offset. rewrite Hdb', <-Hsc, <-Hw.
    change (adjustments db) with (adjustments (set_meta m db)). rewrite (last_inserted (set_meta m db) id j); [done| |done].
    intros id' j' Hj. destruct (lo_adjustments _ _ (bk_ledger _ _ Hok) id' j' Hj) as [[_ ?] _]. lia. }
  assert (window_rows db' key w = window_rows db key w) as Hrows by (rewrite Hdb'; by apply contributions_tables).
  destruct (status_total (top + 1) db' scope w key Hok') as (s' & Hs' & Hreads); [|by rewrite Hrows|by rewrite Hrows, Hoff|].
  - split; [done..| |done]. by rewrite Hdb'.
  - exists s'. by rewrite Hrows, Hoff in Hreads.
Qed.

(** C4: an adjustment that sets the usage of a window repairs the ledger first: whatever the checkpoints of the scope had
    become, they hold the sums of their rows again, the window is no longer blocked, and its status shows exactly
    the target as used. *)
Theorem set_repairs_and_reaches_target ops damaged d actor now before fenced db' key :
  let db := history ops in let w := d_window d in
  (∀ scope day, scope ≠ key → damaged !! (scope, day) = checkpoints db !! (scope, day)) →
  scope_key (d_scope d) = Ok key → e_action (d_edit d) = Set_ → adjustments db !! e_operation_id (d_edit d) = None →
  apply_adjustments_in_tx outcome_json (set_checkpoints damaged db) [d] actor now before fenced = Ok db' →
  fits (window_rows db' key w) →
  ∃ raw target s, e_target_picos (d_edit d) = Some raw ∧ unsigned_decimal raw = Ok target ∧
    status_in_tx db' (d_scope d) w = Ok s ∧ qs_used_picos s = pretty target ∧ qs_metering_status s ≠ "blocked" ∧
    ∀ scope day, ∃ c, read_checkpoint db' scope day = Ok c ∧ aggregates (contributions db' scope (on_day day)) c.
Proof.
  intros db w Hdam Hkey Hset Hnew Hadj Hf. destruct (history_ok observation_json outcome_json ops) as [top0 Hok0]. fold db in Hok0.
  unfold apply_adjustments_in_tx in Hadj. apply bind_Ok in Hadj as (? & _ & Hadj). cbn [try_fold] in Hadj.
  rewrite Hkey in Hadj. cbn [mbind result_bind] in Hadj. apply bind_Ok in Hadj as ([d' seen] & Hadj & [= <-]). cbn [fst] in *. rename d' into db'.
  apply bind_Ok in Hadj as ([d1 seen1] & Hadj & [= -> _]). apply bind_Ok in Hadj as (? & _ & Hadj).
  apply bind_Ok in Hadj as (d2 & Hadj & [= -> _]). unfold apply_adjustment in Hadj.
  apply bind_Ok in Hadj as (? & _ & Hadj). cbn [adjustments set_checkpoints] in Hadj. rewrite Hnew in Hadj.
  rewrite Hset, bool_decide_true in Hadj by done. apply bind_Ok in Hadj as ([db1 repaired] & Hrep & Hadj).
  apply bind_Ok in Hrep as ([db2 r] & Hrec & [-> _]%Ok_pair).
  destruct (reconcile_repairs outcome_json top0 db damaged key (d_window d) before _ db1 r Hok0 Hdam Hrec) as (top & _ & Hok).
  pose proof (reconcile_unblocks _ _ _ _ _ _ _ _ Hrec eq_refl) as Hunblocked. clear Hrec.
  apply bind_Ok in Hadj as (current & Hcur & Hadj). apply bind_Ok in Hadj as (observed & Hobs%lift_Ok & Hadj).
  apply bind_Ok in Hadj as ([offset target] & He & Hadj). apply bind_Ok in Hadj as ([db3 watermark] & Hn & Hadj).
  cbn zeta in Hadj. apply bind_Ok in Hadj as (mark & _ & Hins). set (j := mk_adjustment _ _ _ _ _ _ _ _ _) in Hins.
  apply unsigned_decimal_range in Hobs as Hobs'. pose proof (edit_offset_range _ _ _ _ (proj1 Hobs') He) as Hoff.
  assert (offset_of j = offset) as Hj by (unfold offset_of; cbn; rewrite from_to; cbn; by apply picos_Ok).
  assert (book_ok (top + 1) db') as Hok'.
  { eapply (insert_adjustment_ok top db1 db3 watermark _ j); [done..|]. eexists. cbn. rewrite from_to. split; [done|]. cbn.
    by rewrite (picos_Ok _ _ Hoff). }
  apply (next_watermark_ok top) in Hn as (Hwm & _ & ->); [|done].
  unfold insert_adjustment in Hins. apply bind_Ok in Hins as (? & Hfree%fail_if_Ok & [= Hdb']).
  apply orb_false_iff in Hfree as [[Hfree%bool_decide_eq_false _]%orb_false_iff _].
  destruct (edit_offset_set _ _ _ _ Hset He) as (raw & n & Hraw & Hn & -> & Hle).
  assert (window_rows db' key w = window_rows db1 key w) as Hrows by (rewrite <-Hdb'; by apply contributions_tables).
  rewrite Hrows in Hf. destruct (status_Ok_fits top db1 _ _ key current Hok Hcur Hkey Hf) as (_ & _ & Hreads).
  assert (observed = sum_by amount_of (window_rows db1 key w)) as ->.
  { rewrite (sr_observed _ _ _ _ Hreads) in Hobs. by apply unsigned_decimal_inv, (inj pretty) in Hobs. }
  apply unsigned_decimal_range in Hn as Hn'.
  destruct (status_adjusted top db1 db' (d_scope d) w key current (e_operation_id (d_edit d)) j) as (s & Hs & Hsr);
    [done..| |by eexists|done|done|done|rewrite Hj; lia|].
  { by apply eq_None_not_Some. }
  exists raw, n, s. split; [done|]. split; [done|]. split; [done|]. rewrite (sr_used _ _ _ _ Hsr), Hj. split; [f_equal; lia|].
  split; [|intros scope day; destruct (do_checkpoints _ _ (lo_days _ _ (bk_ledger _ _ Hok')) scope day) as (c & ? & ? & _); by exists c].
  rewrite (sr_metering _ _ _ _ Hsr).
  assert (window_blocked db' key (w_id w) = false) as ->.
  { rewrite <-Hdb', <-Hunblocked. unfold window_blocked. cbn. by rewrite !lookup_insert_ne. }
  unfold metering_of. by do 2 (destruct (decide _); [done|]).
Qed.
End settled.
