(* ===== verification/ValueCodec.v ===== *)
(** * Codecs that can be computed

    Prefix codecs for the values the USD ledger keeps as JSON, and a digest: concrete instances of the classes
    [Serde] and [Digest], with which the ledger runs on concrete inputs. They stand for no code: the properties hold
    for every instance. *)
From S2P Require Import Prelude MapSum RustStr Json ModelIdentity ValuePricing ValueTables.
From S2P Require Import ValueAdmission ValueSettlement ValueMaintenance.
From Stdlib Require Import ZArith Lia Ascii.

Local Open Scope Z_scope.

Class Codec (A : Type) := {
  put : A → string → string;
  take_one : string → option (A * string);
  take_put : ∀ a rest, take_one (put a rest) = Some (a, rest);
}.
#[global] Instance serde_of_codec `{Codec A} : Serde A.
Proof.
  refine {| to_json a := put a ""; from_json s := fst <$> take_one s |}.
  abstract (intros a; by rewrite take_put).
Defined.
Definition codec_iso {A B} `{Codec B} (f : A → B) (g : B → A) (gf : ∀ a, g (f a) = a) : Codec A.
Proof.
  refine {| put a rest := put (f a) rest; take_one s := prod_map g id <$> take_one s |}.
  abstract (intros a rest; rewrite take_put; simpl; by rewrite gf).
Defined.

(** ** Base types *)
Fixpoint put_string (s rest : string) : string :=
  match s with
  | EmptyString => String "."%char rest
  | String c s => String "+"%char (String c (put_string s rest))
  end.
Fixpoint take_string (s : string) : option (string * string) :=
  match s with
  | String "."%char rest => Some ("", rest)
  | String "+"%char (String c s) => prod_map (String c) id <$> take_string s
  | _ => None
  end.
#[global] Instance codec_string : Codec string.
Proof.
  refine {| put := put_string; take_one := take_string |}.
  abstract (intros a rest; induction a as [|c a IH]; simpl; [done|]; by rewrite IH).
Defined.
Fixpoint put_positive (p : positive) (rest : string) : string :=
  match p with
  | xI p => String "1"%char (put_positive p rest)
  | xO p => String "0"%char (put_positive p rest)
  | xH => String "."%char rest
  end.
Fixpoint take_positive (s : string) : option (positive * string) :=
  match s with
  | String "1"%char s => prod_map xI id <$> take_positive s
  | String "0"%char s => prod_map xO id <$> take_positive s
  | String "."%char s => Some (xH, s)
  | _ => None
  end.
Lemma take_put_positive p rest : take_positive (put_positive p rest) = Some (p, rest).
Proof. induction p as [p IH|p IH|]; simpl; [by rewrite IH..|done]. Qed.
#[global] Instance codec_Z : Codec Z.
Proof.
  refine {|
  put z rest := match z with
    | 0 => String "0"%char rest
    | Z.pos p => String "+"%char (put_positive p rest)
    | Z.neg p => String "-"%char (put_positive p rest)
    end;
  take_one s := match s with
    | String "0"%char rest => Some (0, rest)
    | String "+"%char s => prod_map Z.pos id <$> take_positive s
    | String "-"%char s => prod_map Z.neg id <$> take_positive s
    | _ => None
    end |}.
  abstract (intros [|p|p] rest; simpl; by rewrite ?take_put_positive).
Defined.
#[global] Instance codec_unit : Codec ().
Proof.
  refine {| put _ rest := rest; take_one s := Some ((), s) |}.
  abstract (by intros []).
Defined.
#[global] Instance codec_bool : Codec bool.
Proof.
  refine {|
  put b rest := String (if b : bool then "t"%char else "f"%char) rest;
  take_one s := match s with String "t"%char s => Some (true, s) | String "f"%char s => Some (false, s) | _ => None end |}.
  abstract (by intros []).
Defined.
#[global] Instance codec_pair `{Codec A, Codec B} : Codec (A * B).
Proof.
  refine {|
  put p rest := put p.1 (put p.2 rest);
  take_one s := '(a, s) ← take_one s; '(b, s) ← take_one s; Some ((a, b), s) |}.
  abstract (intros [a b] rest; simpl; rewrite take_put; simpl; by rewrite take_put).
Defined.
#[global] Instance codec_option `{Codec A} : Codec (option A).
Proof.
  refine {|
  put o rest := match o with Some a => String "s"%char (put a rest) | None => String "n"%char rest end;
  take_one s := match s with
    | String "s"%char s => prod_map Some id <$> take_one s
    | String "n"%char s => Some (None, s)
    | _ => None
    end |}.
  abstract (intros [a|] rest; simpl; [by rewrite take_put|done]).
Defined.
Fixpoint take_many {A} `{Codec A} (n : nat) (s : string) : option (list A * string) :=
  match n with
  | O => Some ([], s)
  | S n => '(a, s) ← take_one s; '(l, s) ← take_many n s; Some (a :: l, s)
  end.
Lemma take_put_many `{Codec A} (l : list A) rest : take_many (length l) (foldr put rest l) = Some (l, rest).
Proof. induction l as [|a l IH]; simpl; [done|]. rewrite take_put. simpl. by rewrite IH. Qed.
#[global] Instance codec_list `{Codec A} : Codec (list A).
Proof.
  refine {|
  put l rest := put (Z.of_nat (length l)) (foldr put rest l);
  take_one s := '(n, s) ← (take_one s : option (Z * string)); take_many (Z.to_nat n) s |}.
  abstract (intros l rest; rewrite take_put; simpl; by rewrite Nat2Z.id, take_put_many).
Defined.
#[global] Instance codec_map `{Codec A} : Codec (gmap string A) :=
  codec_iso (B := list (string * A)) map_to_list list_to_map (λ m, list_to_map_to_list m).

(** ** The values of the ledger *)
#[global] Instance codec_scope : Codec Scope.
Proof.
  refine (codec_iso (B := string * string * string * string * option string)
    (λ s, (sc_router_url s, sc_installation_id s, sc_share_id s, sc_email s, sc_entitlement_id s))
    (λ '(a, b, c, d, e), mk_scope a b c d e) _); by intros [].
Defined.
#[global] Instance codec_checkpoint : Codec Checkpoint.
Proof.
  refine (codec_iso (B := string * string * gmap string Z * gmap string Z * Z)
    (λ c, (cp_amount c, cp_risk c, cp_states c, cp_revisions c, cp_watermark c))
    (λ '(a, b, c, d, e), mk_checkpoint a b c d e) _); by intros [].
Defined.
#[global] Instance codec_edit : Codec ValueUsageEdit.
Proof.
  refine (codec_iso (B := bool * option string * Z * string * Z * string * string)
    (λ e, (bool_decide (e_action e = Set_), e_target_picos e, e_expected_grant_revision e, e_window_id e,
      e_expected_watermark e, e_operation_id e, e_reason e))
    (λ '(a, b, c, d, e, f, g), mk_edit (if a : bool then Set_ else Clear) b c d e f g) _); by intros [[]].
Defined.
#[global] Instance codec_reconcile : Codec Reconcile.
Proof.
  refine (codec_iso (B := Z * Z * Z * bool * option Z)
    (λ r, (rc_resolved_pending_attempts r, rc_rebuilt_checkpoint_days r, rc_cleared_blocks r, rc_restore_fence_cleared r,
      rc_router_watermark r)) (λ '(a, b, c, d, e), mk_reconcile a b c d e) _); by intros [].
Defined.
#[global] Instance codec_payload : Codec AdjustmentPayload.
Proof.
  refine (codec_iso (B := ValueUsageEdit * string * string * string * string * string * Z * option Reconcile)
    (λ p, (p_edit p, p_actor p, p_offset_picos p, p_observed_picos p, p_before_picos p, p_after_picos p,
      p_observed_watermark p, p_reconcile p)) (λ '(a, b, c, d, e, f, g, h), mk_payload a b c d e f g h) _); by intros [].
Defined.
#[global] Instance codec_meta : Codec AttemptMeta.
Proof.
  refine (codec_iso (B := Z * Z * string) (λ m, (am_input_tokens m, am_output_tokens m, am_reserved_picos m))
    (λ '(a, b, c), mk_meta a b c) _); by intros [].
Defined.
#[global] Instance codec_trial_attempt : Codec MarketTrialAttempt.
Proof.
  refine (codec_iso (B := string * string * string * option string)
    (λ m, (ma_request_id m, ma_attempt_id m, ma_entitlement_id m, ma_settled_floor_picos m))
    (λ '(a, b, c, d), mk_trial_attempt a b c d) _); by intros [].
Defined.
#[global] Instance codec_rates : Codec ExecutionRates.
Proof.
  refine (codec_iso (B := option string * option string * option string * option string * option string * Z)
    (λ r, (r_input r, r_output r, r_cache_read r, r_cache_write5m r, r_cache_write1h r,
      match cache_write_policy r with Unavailable => 0 | FiveMinutesOnly => 1 | OneHourOnly => 2 | Both => 3 end))
    (λ '(a, b, c, d, e, f), mk_rates a b c d e
      (if f =? 0 then Unavailable else if f =? 1 then FiveMinutesOnly else if f =? 2 then OneHourOnly else Both)) _);
    by intros [? ? ? ? ? []].
Defined.
#[global] Instance codec_model : Codec ExecutionModelPrice.
Proof.
  refine (codec_iso (B := bool * option Z * bool * gmap string ExecutionRates)
    (λ m, (bool_decide (context_input_basis m = FreshInput), long_context_threshold m, long_context_inclusive m, rates m))
    (λ '(a, b, c, d), mk_model_price (if a : bool then FreshInput else RawInput) b c d) _); by intros [[]].
Defined.
#[global] Instance codec_snapshot : Codec PricingSnapshot.
Proof.
  refine (codec_iso (B := Z * string * string * gmap string ExecutionModelPrice * gmap string string)
    (λ s, (schema_version s, tariff_policy_id s, currency s, models s, exact_aliases s))
    (λ '(a, b, c, d, e), mk_snapshot a b c d e) _); by intros [].
Defined.
#[global] Instance codec_pending : Codec PendingTariff.
Proof.
  refine (codec_iso (B := string * Z) (λ p, (pt_revision p, pt_effective_from_ms p))
    (λ '(a, b), mk_pending_tariff a b) _); by intros [].
Defined.
#[global] Instance codec_block : Codec RouterBlock.
Proof.
  refine (codec_iso (B := string * Z) (λ b, (bl_reason b, bl_router_watermark b)) (λ '(a, b), mk_block a b) _); by intros [].
Defined.
#[global] Instance tagged_digest : Digest.
Proof. refine {| sha256_hex s := String "#"%char s |}. abstract done. Defined.
