(* ===== verification/ValueWitness.v ===== *)
(** * The USD ledger on a concrete day

    A Share with one priced model: coverage begins, one request is admitted and settled, a second is admitted and
    still runs. The properties of the ledger applied to this history, with the codecs of [ValueCodec]. *)
From S2P Require Import Prelude MapSum RustStr Json ModelIdentity ValuePricing ValueTables.
From S2P Require Import ValueAdmission ValueSettlement ValueMaintenance ValueCheckpoints ValueLedger ValueRows ValueHistory ValueJournal.
From S2P Require Import ValueStatus ValueBounds ValueSettled ValueCodec.
From Stdlib Require Import ZArith Lia.

Local Open Scope Z_scope.

Definition sample_scope : Scope := mk_scope "https://router" "inst" "share" "user@example.com" None.
Definition sample_key : string := default "" (to_ok (scope_key sample_scope)).
(** From noon of the first day, over two whole days and part of a fourth. *)
Definition sample_window : Window := mk_window "w1" 43200000 (Some 302400000) 0.
Definition sample_revision : string := default "" (to_ok (snapshot_revision sample_snapshot)).
Definition sample_admission (request : string) (at_ms : Z) : Admission :=
  mk_admission true sample_scope sample_window "epoch" (mk_quota "5000000" TARIFF_POLICY) "" request "1" "gpt-5" "standard"
    at_ms (mk_estimate 1000 200) 2.
Definition sample_tokens : ValueTokens := mk_tokens 1000 100 0 0 0 0.
Definition sample_observation (request : string) (rev : Z) (outcome : ObservedOutcome) : Observation :=
  mk_observation request "1" sample_scope rev "gpt-5" "standard" None None (Some sample_tokens) outcome false.
Definition observation_text (o : Observation) : string :=
  o_request_id o +:+ ":" +:+ o_attempt_id o +:+ ":" +:+ pretty (o_usage_revision o).
Definition outcome_text (request attempt : string) (rev : Z) (outcome : AttemptOutcome) (amount : string) : string :=
  request +:+ ":" +:+ attempt +:+ ":" +:+ pretty rev +:+ ":" +:+ amount.
Definition sample_ops : list ledger_op := [
  Install sample_scope sample_revision sample_snapshot;
  Schedule sample_scope (mk_pending_tariff sample_revision 0) 0;
  BeginCoverage sample_scope 0;
  Admit ∅ (sample_admission "r1" 50000000) None 0;
  Settle (sample_observation "r1" 1 Final);
  Admit ∅ (sample_admission "r2" 90000000) None 0 ].
Notation sample_db := (history observation_text outcome_text sample_ops).
Definition ok_db {A} (r : result QuotaError (Database * A)) : Database :=
  match r with Ok p => p.1 | Err _ => empty_ledger end.
Lemma ok_db_spec {A} `{EqDecision A} (r : result QuotaError (Database * A)) (a : A) :
  match r with Ok p => bool_decide (p.2 = a) | Err _ => false end = true → r = Ok (ok_db r, a).
Proof. destruct r as [[db b]|]; [|done]. simpl. by intros ->%bool_decide_eq_true. Qed.
Lemma to_ok_spec (r : result QuotaError Database) :
  match r with Ok _ => true | Err _ => false end = true → r = Ok (default empty_ledger (to_ok r)).
Proof. by destruct r. Qed.
Definition sample_edit : Adjustment :=
  mk_adjustment_request sample_scope sample_window 0 (mk_edit Set_ (Some "2000000000000") 0 "w1" 0 "op1" "top up").
(** Every checkpoint of the scope is lost. *)
Definition sample_damaged : gmap (string * Z) (string * string) := filter (λ e, e.1.1 ≠ sample_key) (checkpoints sample_db).
Definition sample_adjusted : Database :=
  default empty_ledger (to_ok (apply_adjustments_in_tx outcome_text (set_checkpoints sample_damaged sample_db) [sample_edit] "owner" 0 0 [])).

Lemma sample_covered : covered_window sample_db sample_scope sample_window sample_key.
Proof. split; [vm_compute; reflexivity..|vm_compute; discriminate]. Qed.

Definition sample_admitted : Database :=
  ok_db (admit_with_market_trial sample_db ∅ (sample_admission "r3" 100000000) None 0).
Lemma sample_granted :
  admit_with_market_trial sample_db ∅ (sample_admission "r3" 100000000) None 0 = Ok (sample_admitted, 6000000000).
Proof.
  unfold sample_admitted. apply (ok_db_spec (admit_with_market_trial sample_db ∅ (sample_admission "r3" 100000000) None 0) 6000000000).
  vm_compute. reflexivity.
Qed.
Lemma sample_new : attempts sample_db !! ("r3", "1") = None.
Proof. vm_compute. reflexivity. Qed.
Lemma sample_key_ok : scope_key sample_scope = Ok sample_key.
Proof. vm_compute. reflexivity. Qed.
Lemma sample_fits : fits (window_rows sample_admitted sample_key sample_window).
Proof. repeat split; vm_compute; discriminate. Qed.
Lemma admission_within_limit_witness : ∃ limit s', status_in_tx sample_admitted sample_scope sample_window = Ok s' ∧
  limit_picos (mk_quota "5000000" TARIFF_POLICY) = Ok limit ∧ picos (qs_used_picos s') + picos (qs_pending_risk_picos s') ≤ limit.
Proof.
  pose proof (admission_within_limit observation_text outcome_text sample_ops ∅ (sample_admission "r3" 100000000) None 0
    sample_admitted 6000000000 sample_key eq_refl sample_new sample_key_ok sample_granted sample_fits)
    as (limit & s & s' & Hl & _ & Hs' & _ & _ & _ & _ & Hle & _).
  exists limit, s'. split; [exact Hs'|]. split; [exact Hl|exact Hle].
Defined.
Lemma sample_db_fits : fits (window_rows sample_db sample_key sample_window).
Proof. repeat split; vm_compute; discriminate. Qed.
Lemma sample_used : sum_by amount_of (window_rows sample_db sample_key sample_window)
  + manual_offset sample_db sample_key (w_id sample_window) ≤ I128_MAX.
Proof. vm_compute. discriminate. Qed.
Lemma sample_limit : limit_picos (mk_quota "5000000" TARIFF_POLICY) = Ok 5000000000000.
Proof. vm_compute. reflexivity. Qed.
Lemma sample_not_refused :
  refusal 5000000000000 (sum_by amount_of (window_rows sample_db sample_key sample_window)
      + manual_offset sample_db sample_key (w_id sample_window))
    (sum_by risk_of (window_rows sample_db sample_key sample_window)) (in_flight sample_db sample_key sample_window)
    (saturate 1 4 2) (window_blocked sample_db sample_key (w_id sample_window)) = None.
Proof. vm_compute. reflexivity. Qed.
Lemma reservation_decided_witness :
  ∃ r, reserve_in_tx sample_db (sample_admission "r3" 100000000) None sample_key sample_model = Ok r.
Proof.
  pose proof (reservation_decided observation_text outcome_text sample_ops (sample_admission "r3" 100000000) sample_key
    sample_model 5000000000000 eq_refl sample_covered sample_db_fits sample_used sample_limit) as Hr.
  cbn [ad_window sample_admission ad_parallel_limit] in Hr. rewrite sample_not_refused in Hr. eexists. exact Hr.
Defined.
Definition sample_settled : Database := ok_db (settle_in_tx observation_text sample_db (sample_observation "r2" 1 Final)).
Lemma sample_settles : settle_in_tx observation_text sample_db (sample_observation "r2" 1 Final) = Ok (sample_settled, true).
Proof.
  unfold sample_settled. apply (ok_db_spec (settle_in_tx observation_text sample_db (sample_observation "r2" 1 Final)) true).
  vm_compute. reflexivity.
Qed.
Lemma settlement_changes_one_attempt_witness :
  settle_in_tx observation_text sample_settled (sample_observation "r2" 1 Final) = Ok (sample_settled, false).
Proof.
  exact (proj1 (settlement_changes_one_attempt observation_text outcome_text sample_ops (sample_observation "r2" 1 Final)
    sample_settled true sample_settles)).
Defined.
Definition sample_guessed : Database := ok_db (settle_outcome_in_tx outcome_text sample_db "r2" "1" Unknown false).
Lemma sample_guesses : settle_outcome_in_tx outcome_text sample_db "r2" "1" Unknown false = Ok (sample_guessed, true).
Proof.
  unfold sample_guessed. apply (ok_db_spec (settle_outcome_in_tx outcome_text sample_db "r2" "1" Unknown false) true).
  vm_compute. reflexivity.
Qed.
Lemma guess_yields_to_log_witness : ∃ old new,
  attempts sample_db !! ("r2", "1") = Some old ∧ attempts sample_guessed = <[("r2", "1") := new]> (attempts sample_db) ∧
  ∀ o, o_synthetic o = false → a_usage_revision old ≤ o_usage_revision o → takes_effect observation_text new o = true.
Proof.
  pose proof (guess_yields_to_log observation_text outcome_text sample_ops "r2" "1" Unknown false sample_guessed sample_guesses)
    as (old & new & Hold & Hnew & _ & _ & _ & Hlog).
  exists old, new. split; [exact Hold|]. split; [exact Hnew|exact Hlog].
Defined.
Definition sample_compacted : Database := ok_db (compact_in_tx sample_db 60000000 7).
Lemma sample_compacts : compact_in_tx sample_db 60000000 7 = Ok (sample_compacted, 1).
Proof. unfold sample_compacted. apply (ok_db_spec (compact_in_tx sample_db 60000000 7) 1). vm_compute. reflexivity. Qed.
Lemma sample_status : ∃ s, status_in_tx sample_db sample_scope sample_window = Ok s ∧ qs_used_picos s = "4500000000" ∧
  qs_pending_risk_picos s = "6000000000" ∧ qs_metering_status s = "pending".
Proof. eexists. split; [vm_compute; reflexivity|]. by split_and!. Qed.
Lemma compaction_keeps_status_witness : ∃ s', status_in_tx sample_compacted sample_scope sample_window = Ok s' ∧
  qs_used_picos s' = "4500000000" ∧ qs_pending_risk_picos s' = "6000000000" ∧ qs_metering_status s' = "pending".
Proof.
  destruct sample_status as (s & Hs & Hu & Hp & Hm).
  pose proof (compaction_keeps_status observation_text outcome_text sample_ops 60000000 7 sample_compacted 1 sample_scope
    sample_window sample_key s sample_compacts Hs sample_key_ok sample_db_fits) as (s' & Hs' & _ & _ & Hu' & Hp' & Hm' & _).
  exists s'. split; [exact Hs'|]. rewrite Hu', Hp', Hm'. split; [exact Hu|]. split; [exact Hp|exact Hm].
Defined.
(** The owner sets the usage to two dollars. *)
Lemma filter_other_scopes {A} (m : gmap (string * Z) A) key scope day : scope ≠ key →
  filter (λ e, e.1.1 ≠ key) m !! (scope, day) = m !! (scope, day).
Proof.
  intros Hne. destruct (m !! (scope, day)) as [c|] eqn:E; [by apply map_lookup_filter_Some|].
  apply map_lookup_filter_None. by left.
Qed.
Lemma sample_damage scope day : scope ≠ sample_key → sample_damaged !! (scope, day) = checkpoints sample_db !! (scope, day).
Proof. exact (filter_other_scopes (checkpoints sample_db) sample_key scope day). Qed.
Lemma sample_adjusts :
  apply_adjustments_in_tx outcome_text (set_checkpoints sample_damaged sample_db) [sample_edit] "owner" 0 0 [] = Ok sample_adjusted.
Proof.
  unfold sample_adjusted.
  apply (to_ok_spec (apply_adjustments_in_tx outcome_text (set_checkpoints sample_damaged sample_db) [sample_edit] "owner" 0 0 [])).
  vm_compute. reflexivity.
Qed.
Lemma sample_unused : adjustments sample_db !! "op1" = None.
Proof. vm_compute. reflexivity. Qed.
Lemma sample_adjusted_fits : fits (window_rows sample_adjusted sample_key sample_window).
Proof. repeat split; vm_compute; discriminate. Qed.
Lemma set_repairs_and_reaches_target_witness : ∃ target s, unsigned_decimal "2000000000000" = Ok target ∧
  status_in_tx sample_adjusted sample_scope sample_window = Ok s ∧ qs_used_picos s = pretty target.
Proof.
  pose proof (set_repairs_and_reaches_target observation_text outcome_text sample_ops sample_damaged sample_edit "owner" 0 0 []
    sample_adjusted sample_key sample_damage sample_key_ok eq_refl sample_unused sample_adjusts sample_adjusted_fits)
    as (raw & target & s & Hraw & Ht & Hs & Hu & _).
  exists target, s. injection Hraw as Hraw. rewrite Hraw. split; [exact Ht|]. split; [exact Hs|exact Hu].
Defined.
