(* ===== verification/MeteredText.v ===== *)
(** * Text metering and request facts ([src/domain/usage/value_pricing.rs])

    Which requests the USD-equivalent quota can price: the runtimes whose usage is text
    tokens, the classifier that refuses separately billed content (media, paid tools)
    anywhere in a request body, and the facts the forwarder takes from the body it sends. *)
From S2P Require Import Prelude RustStr Json ValuePricing.
From Stdlib Require Import ZArith Lia Ascii.

Local Open Scope Z_scope.

(** ** Runtimes and model hints *)
(** domain/usage/value_pricing.rs:71-95 [supports_value_text_runtime] *)
Definition supports_value_text_runtime (profile driver : string) (coding_plan : bool) : bool :=
  negb coding_plan &&
  bool_decide ((profile, driver) ∈
    [("claude.anthropic_api_key", "http.anthropic_messages");
     ("codex.openai_api_key", "http.openai_responses");
     ("gemini.google_api_key", "http.gemini_native");
     ("claude.custom_http", "http.anthropic_messages");
     ("claude.custom_http", "http.openai_chat");
     ("claude.custom_http", "http.openai_responses");
     ("claude.custom_http", "http.gemini_native");
     ("codex.custom_http", "http.anthropic_messages");
     ("codex.custom_http", "http.openai_chat");
     ("codex.custom_http", "http.openai_responses");
     ("gemini.custom_http", "http.anthropic_messages");
     ("gemini.custom_http", "http.openai_chat");
     ("gemini.custom_http", "http.openai_responses");
     ("gemini.custom_http", "http.gemini_native");
     ("claude.workbuddy_oauth", "special.workbuddy_oauth");
     ("codex.workbuddy_oauth", "special.workbuddy_oauth");
     ("gemini.workbuddy_oauth", "special.workbuddy_oauth")]).

(** The routing aliases of WorkBuddy that name no billable model. *)
Definition OPAQUE_ALIASES : list string := ["auto"; "default"; "default-model"].
(** domain/usage/value_pricing.rs:100-121 [value_execution_model_hint] *)
Definition value_execution_model_hint (profile model : string) : option string :=
  let checked_hint model :=
    if negb (is_empty model) && (str_len model <=? 250) && str_eqb (trim model) model
       && negb (any_control model)
    then Some model else None in
  if ends_with ".workbuddy_oauth" profile then
    let model := trim model in
    let model :=
      to_ascii_lowercase (trim (default model
        (or_else (strip_prefix "workbuddy/" model) (strip_prefix "codebuddy/" model)))) in
    if one_of OPAQUE_ALIASES model then None else checked_hint model
  else checked_hint model.

(** ** Separately billed content *)
(** domain/usage/value_pricing.rs:126-164 [DENIED_KEYS] *)
Definition DENIED_KEYS : list string :=
  ["inlineData"; "inline_data"; "fileData"; "file_data"; "image_url"; "input_image";
   "input_audio"; "input_file"; "audio"; "video"; "audioConfig"; "audio_config";
   "speechConfig"; "speech_config"; "cachedContent"; "cached_content"; "groundingConfig";
   "grounding_config"; "googleSearch"; "google_search"; "googleSearchRetrieval";
   "google_search_retrieval"; "enterpriseWebSearch"; "enterprise_web_search"; "googleMaps";
   "google_maps"; "retrieval"; "fileSearch"; "file_search"; "codeExecution";
   "code_execution"; "urlContext"; "url_context"; "computerUse"; "computer_use";
   "web_search_options"; "mcp_servers"; "container"].
(** domain/usage/value_pricing.rs:168-189 [OPAQUE_KEYS] *)
Definition OPAQUE_KEYS : list string :=
  ["parameters"; "parametersJsonSchema"; "parameters_json_schema"; "input_schema";
   "inputSchema"; "output_schema"; "outputSchema"; "schema"; "json_schema";
   "responseSchema"; "response_schema"; "responseJsonSchema"; "response_json_schema";
   "metadata"; "arguments"; "args"; "encrypted_content"; "signature"; "thoughtSignature";
   "thought_signature"].
(** domain/usage/value_pricing.rs:193-228 [denied_type] *)
Definition denied_type (kind : string) : bool :=
  one_of ["image"; "image_url"; "input_image"; "output_image"; "image_file"; "input_audio";
          "output_audio"; "audio"; "input_file"; "file"; "document"; "video"; "input_video"]
    kind
  || existsb (λ prefix, starts_with prefix kind)
       ["web_search"; "web_fetch"; "file_search"; "code_interpreter"; "code_execution";
        "computer"; "image_generation"; "mcp"; "bash_"; "text_editor_"; "google_search";
        "url_context"; "server_tool_use"; "container_upload"].
(** The members that list the response's modalities. *)
Definition MODALITY_KEYS : list string := ["responseModalities"; "response_modalities"; "modalities"].
(** domain/usage/value_pricing.rs:238-247 [metered_text_value], a mode other than text *)
Definition names_other_mode (m : list (string * value)) (key : string) : bool :=
  from_option (existsb (λ mode, negb (from_option (λ s, eq_ignore_ascii_case s "text") false
                                        (as_str mode))))
    false (member key m ≫= as_array).
(** domain/usage/value_pricing.rs:252-253 [metered_text_value], a replayed placeholder *)
Definition is_placeholder (v : value) : bool :=
  match v with Null | Bool false => true | _ => false end.
Definition parent_is (keys : list string) (parent : option string) : bool :=
  from_option (one_of keys) false parent.
(** domain/usage/value_pricing.rs:255-259 [metered_text_value], the keys not interpreted *)
Definition opaque_key (kind parent : option string) (key : string) : bool :=
  one_of OPAQUE_KEYS key
  || (str_eqb key "input" && parent_is ["tool_use"; "custom_tool_call"] kind)
  || (str_eqb key "response" && parent_is ["functionResponse"; "function_response"] parent).
(** domain/usage/value_pricing.rs:229-268 [metered_text_value] *)
Fixpoint metered_text_value (v : value) (parent_key : option string) : bool :=
  match v with
  | Object m =>
      let kind := member "type" m ≫= as_str in
      if from_option denied_type false kind then false
      else if existsb (names_other_mode m) MODALITY_KEYS then false
      else forallb (λ '(key, child),
             if one_of DENIED_KEYS key then is_placeholder child
             else if opaque_key kind parent_key key then true
             else metered_text_value child (Some key)) m
  | Array items => forallb (λ item, metered_text_value item parent_key) items
  | _ => true
  end.
(** domain/usage/value_pricing.rs:274-276 [is_metered_text_value] *)
Definition is_metered_text_value (body : value) : bool :=
  is_object body && metered_text_value body None.

(** ** Request facts *)
(** domain/usage/value_pricing.rs:323-328 [ValueRequestFacts] *)
Record ValueRequestFacts := mk_facts {
  metered_text : bool; estimate : RiskEstimate; service_tier : option string;
}.
Section request.
(** [serde_json::from_slice], from the crate. *)
Variable from_slice : string → option value.
(** domain/usage/value_pricing.rs:277-280 [is_metered_text_payload] *)
Definition is_metered_text_payload (bytes : string) : bool :=
  from_option is_metered_text_value false (from_slice bytes).
(** domain/usage/value_pricing.rs:329-340 [value_request_facts] *)
Definition value_request_facts (bytes : string) : ValueRequestFacts :=
  let body := from_slice bytes in
  mk_facts (from_option is_metered_text_value false body)
    (from_request (str_len bytes) body)
    ((body ≫= get "service_tier") ≫= as_str).
End request.

(** ** Refusals *)
(** domain/usage/value_pricing.rs:366-377 [ValueQuotaRejectionKind] *)
Inductive ValueQuotaRejectionKind : Type :=
  | Exhausted | Busy | AuthorizationRevoked | StorageBusy | Blocked.
#[global] Instance ValueQuotaRejectionKind_eq_dec : EqDecision ValueQuotaRejectionKind.
Proof. solve_decision. Defined.
(** domain/usage/value_pricing.rs:379-382 [ValueQuotaRejection] *)
Record ValueQuotaRejection := mk_rejection {
  rejection_kind : ValueQuotaRejectionKind; resets_at_ms : option Z;
}.
(** domain/usage/value_pricing.rs:384-389 [ValueQuotaRejection::new] *)
Definition rejection_new (kind : ValueQuotaRejectionKind) : ValueQuotaRejection :=
  mk_rejection kind None.
(** domain/usage/value_pricing.rs:390-398 [ValueQuotaRejection::code] *)
Definition rejection_code (r : ValueQuotaRejection) : string :=
  match rejection_kind r with
  | Exhausted => "VALUE_QUOTA_EXHAUSTED"
  | Busy => "VALUE_QUOTA_BUSY"
  | AuthorizationRevoked => "VALUE_QUOTA_AUTHORIZATION_REVOKED"
  | StorageBusy => "VALUE_QUOTA_STORAGE_BUSY"
  | Blocked => "VALUE_QUOTA_BLOCKED_NEEDS_RECONCILE"
  end.

(** ** The classifier's specification

    [visible parent v parent' v']: a traversal that does not enter opaque subtrees nor the
    values of denied keys gets from [v], found under the key [parent], to [v'] under
    [parent'].  [billed_here]: a value shows separately billed content by itself. *)
Inductive visible : option string → value → option string → value → Prop :=
  | visible_here parent v : visible parent v parent v
  | visible_item parent items item parent' v' :
      item ∈ items → visible parent item parent' v' → visible parent (Array items) parent' v'
  | visible_member parent m key child parent' v' :
      (key, child) ∈ m →
      key ∉ DENIED_KEYS → opaque_key (member "type" m ≫= as_str) parent key = false →
      visible (Some key) child parent' v' → visible parent (Object m) parent' v'.

Inductive billed_here : value → Prop :=
  | billed_type m kind :
      member "type" m = Some (VString kind) → denied_type kind = true → billed_here (Object m)
  | billed_mode m key modes mode :
      key ∈ MODALITY_KEYS → member key m = Some (Array modes) → mode ∈ modes →
      (∀ s, mode = VString s → eq_ignore_ascii_case s "text" = false) → billed_here (Object m)
  | billed_key m key child :
      (key, child) ∈ m → key ∈ DENIED_KEYS → child ≠ Null → child ≠ Bool false →
      billed_here (Object m).

Lemma existsb_elem {A} (f : A → bool) l : existsb f l = true ↔ ∃ x, x ∈ l ∧ f x = true.
Proof.
  rewrite existsb_exists. by setoid_rewrite <-list_elem_of_In.
Qed.
Lemma forallb_elem {A} (f : A → bool) l : forallb f l = true ↔ ∀ x, x ∈ l → f x = true.
Proof. rewrite forallb_forall. by setoid_rewrite <-list_elem_of_In. Qed.
Lemma forallb_false {A} (f : A → bool) l : forallb f l = false ↔ ∃ x, x ∈ l ∧ f x = false.
Proof.
  induction l as [|y l IH]; simpl.
  - split; [done|]. intros (x & Hx & _). inversion Hx.
  - rewrite andb_false_iff, IH. split.
    + intros [H|(x & Hx & H)]; [exists y|exists x]; (split; [|done]); [left|by right].
    + intros (x & [->|Hx]%elem_of_cons & H); [by left|right; eauto].
Qed.
Lemma one_of_false needles s : one_of needles s = false ↔ s ∉ needles.
Proof. rewrite <-not_true_iff_false, one_of_true. done. Qed.
Lemma placeholder_spec v : is_placeholder v = true ↔ v = Null ∨ v = Bool false.
Proof. destruct v as [|[]| | | |]; simpl; naive_solver. Qed.
Lemma names_other_mode_spec m key :
  names_other_mode m key = true ↔
  ∃ modes mode, member key m = Some (Array modes) ∧ mode ∈ modes
    ∧ ∀ s, mode = VString s → eq_ignore_ascii_case s "text" = false.
Proof.
  unfold names_other_mode. split.
  - destruct (member key m) as [[]|] eqn:E; try done. simpl.
    intros (mode & Hm & Hs)%existsb_elem. exists items, mode. split_and!; [done..|].
    intros s ->. simpl in Hs. by apply negb_true_iff.
  - intros (modes & mode & E & Hm & Hs). rewrite E. simpl. apply existsb_elem.
    exists mode. split; [done|]. destruct mode; try done. simpl. by rewrite Hs.
Qed.

(** The local test of the classifier: what it checks of an object before its members. *)
Lemma billed_here_object m :
  billed_here (Object m) ↔
  from_option denied_type false (member "type" m ≫= as_str) = true
  ∨ existsb (names_other_mode m) MODALITY_KEYS = true
  ∨ ∃ key child, (key, child) ∈ m ∧ one_of DENIED_KEYS key = true ∧ is_placeholder child = false.
Proof.
  split.
  - inversion 1 as [? kind Hk Hd|? key modes mode Hin Hk Hm Hs|? key child Hin Hk H1 H2]; subst.
    + left. by rewrite Hk.
    + right; left. apply existsb_elem. exists key. split; [done|].
      apply names_other_mode_spec. by exists modes, mode.
    + right; right. exists key, child. split_and!; [done|by apply one_of_true|].
      apply not_true_iff_false. rewrite placeholder_spec. naive_solver.
  - intros [Hd|[(key & Hin & (modes & mode & ? & ? & ?)%names_other_mode_spec)%existsb_elem
           |(key & child & Hin & Hk%one_of_true & Hp)]].
    + destruct (member "type" m) as [[]|] eqn:E; try done. by eapply billed_type.
    + by eapply billed_mode.
    + assert (is_placeholder child ≠ true) as Hn by by rewrite Hp.
      rewrite placeholder_spec in Hn. eapply billed_key; naive_solver.
Qed.

(** One level of the traversal: an object is refused for its own content or for that of a
    member it looks into. *)
Lemma metered_object m parent :
  metered_text_value (Object m) parent = false ↔
  billed_here (Object m)
  ∨ ∃ key child, (key, child) ∈ m ∧ key ∉ DENIED_KEYS
      ∧ opaque_key (member "type" m ≫= as_str) parent key = false
      ∧ metered_text_value child (Some key) = false.
Proof.
  rewrite billed_here_object. cbn [metered_text_value].
  destruct (from_option denied_type _ _); [naive_solver|].
  destruct (existsb _ MODALITY_KEYS); [naive_solver|].
  rewrite forallb_false. split.
  - intros ([key child] & Hin & H).
    destruct (one_of DENIED_KEYS key) eqn:Ed; [naive_solver|]. apply one_of_false in Ed.
    destruct (opaque_key _ _ key) eqn:Eo; [done|]. right. by exists key, child.
  - intros [[?|[?|(key & child & Hin & Hk & Hp)]]|(key & child & Hin & Hk & Ho & H)]; [done..| |];
      exists (key, child); (split; [done|]).
    + by rewrite Hk.
    + rewrite (proj2 (one_of_false _ _) Hk). by rewrite Ho.
Qed.
(** The classifier refuses exactly the values from which billed content is visible. *)
Lemma metered_text_value_spec v : ∀ parent,
  metered_text_value v parent = false ↔
  ∃ parent' v', visible parent v parent' v' ∧ billed_here v'.
Proof.
  induction v as [| | | |l IH|m IH] using value_ind'; intros parent.
  1-4: split; [done|intros (p' & v' & Hv & Hb); inversion Hv; subst; inversion Hb].
  - simpl. rewrite forallb_false. rewrite Forall_forall in IH. split.
    + intros (x & Hx & (p' & v' & Hv & Hb)%(IH x Hx)). exists p', v'.
      split; [by eapply visible_item|done].
    + intros (p' & v' & Hv & Hb). inversion Hv as [|? ? item ? ? Hin Hv'|]; subst; [inversion Hb|].
      exists item. split; [done|]. apply (IH item Hin). eauto.
  - rewrite Forall_forall in IH. rewrite metered_object. split.
    + intros [Hb|(key & child & Hin & Hk & Ho & H)]; [eexists _, _; split; [constructor|done]|].
      apply (IH _ Hin) in H as (p' & v' & Hv & Hb). exists p', v'.
      split; [by eapply visible_member|done].
    + intros (p' & v' & Hv & Hb).
      inversion Hv as [| |? ? key child ? ? Hin Hk Ho Hv']; subst; [by left|right].
      exists key, child. split_and!; [done..|]. apply (IH _ Hin). eauto.
Qed.

(** ** Properties *)
(** The text classifier is exact: a request body is metered as text if and only if it is
    an object from which no separately billed content (a media or paid-tool type, a
    non-text response modality, a denied key holding more than a placeholder) is visible,
    where tool arguments, schemas and other caller data are not looked into.  The same
    answer reaches the forwarder in [metered_text], and an unparsable body is never text. *)
Theorem metered_text_exact from_slice bytes :
  metered_text (value_request_facts from_slice bytes) = true ↔
  ∃ m, from_slice bytes = Some (Object m)
    ∧ ∀ parent v, visible None (Object m) parent v → ¬ billed_here v.
Proof.
  unfold value_request_facts. simpl. split.
  - destruct (from_slice bytes) as [body|]; [simpl|done]. unfold is_metered_text_value.
    destruct body as [| | | | |m]; try done. cbn [is_object andb]. intros H. exists m. split; [done|].
    intros parent v Hv Hb. apply not_false_iff_true in H. apply H.
    apply metered_text_value_spec. eauto.
  - intros (m & -> & H). cbn [from_option is_metered_text_value is_object andb].
    apply not_false_iff_true. intros (p' & v' & Hv & Hb)%metered_text_value_spec.
    by eapply H.
Qed.

(** A model hint can be priced and never hides an opaque alias: whatever the hint
    returns is a well-formed pricing key (non-empty, at most 250 bytes, trimmed, no control
    characters); on the WorkBuddy runtimes it is none of the routing aliases and has no
    upper-case ASCII letter; on every other runtime it is the client's identifier
    unchanged, and it is refused only when that identifier is not a well-formed key. *)
Theorem value_execution_model_hint_key profile model :
  match value_execution_model_hint profile model with
  | Some hint =>
      valid_model_key hint = true
      ∧ (if ends_with ".workbuddy_oauth" profile
         then hint ∉ OPAQUE_ALIASES ∧ to_ascii_lowercase hint = hint else hint = model)
  | None => ends_with ".workbuddy_oauth" profile = false → valid_model_key model = false
  end.
Proof.
  unfold value_execution_model_hint. cbv zeta.
  destruct (ends_with _ profile).
  - set (m := to_ascii_lowercase _). destruct (one_of OPAQUE_ALIASES m) eqn:Ea; [done|].
    apply one_of_false in Ea. fold (valid_model_key m).
    destruct (valid_model_key m) eqn:Ev; [|done].
    split_and!; [done..|]. apply to_ascii_lowercase_idemp.
  - fold (valid_model_key model). destruct (valid_model_key model) eqn:Ev; done.
Qed.
