(* ===== verification/Vectors.v ===== *)
(** * Golden vectors

    The repository's own protocol vectors ([tests/fixtures/share-value-*.json] and the
    classifier tests of [value_pricing.rs]) evaluated on the model: the definitions compute
    what the shared fixtures freeze. *)
From S2P Require Import Prelude RustStr Json ModelIdentity ValuePricing MeteredText.
From Stdlib Require Import ZArith Ascii.

Local Open Scope Z_scope.

(** ** [share-value-model-identity-v1.json] *)
Definition identity_snapshot : PricingSnapshot :=
  mk_snapshot 1 TARIFF_POLICY "USD"
    (list_to_map (map (λ k, (k, mk_model_price RawInput (Some (str_len k)) false
       (<[k := mk_rates None None None None None Unavailable]> ∅)))
       ["claude-sonnet-4-5"; "claude-sonnet-4-5-20250929"; "claude-sonnet-4-8"; "gpt-5"; "gpt-5-mini"; "o3"; "conatus-free"; "kimi-k2.5"]))
    (list_to_map [("claude-4-sonnet-alias", "claude-sonnet-4-5")]).
(** The key of the row a name resolves to. *)
Definition resolved_key (name : string) : option string :=
  match snapshot_model identity_snapshot name with
  | Ok m => fst <$> head (map_to_list (rates m))
  | Err _ => None
  end.
Definition identity_vectors : list (string * option string) :=
  [("claude-sonnet-4-5-20250929", Some "claude-sonnet-4-5-20250929");
   ("  Claude-Sonnet-4-5-20250514 ", Some "claude-sonnet-4-5");
   ("anthropic.claude-sonnet-4-5-20250929-v1:0", Some "claude-sonnet-4-5-20250929");
   ("global.anthropic.claude-sonnet-4-5-20250929-v1:0", Some "claude-sonnet-4-5-20250929");
   ("publishers/anthropic/models/claude-sonnet-4-5", Some "claude-sonnet-4-5");
   ("claude-sonnet-4-5-thinking", Some "claude-sonnet-4-5");
   ("claude-sonnet-4-5[1m]", Some "claude-sonnet-4-5");
   ("claude-sonnet-4.8", Some "claude-sonnet-4-8");
   ("qiniu/conatus-free", Some "conatus-free");
   ("moonshotai/kimi-k2.5", Some "kimi-k2.5");
   ("azure.o3", Some "o3");
   ("gpt-5-mini", Some "gpt-5-mini");
   ("claude-4-sonnet-alias", Some "claude-sonnet-4-5");
   ("gpt-5-unknown-variant", None);
   ("", None)].
Example identity_vectors_hold :
  map (λ v, resolved_key v.1) identity_vectors = map snd identity_vectors.
Proof. vm_compute. reflexivity. Qed.

(** ** [share-value-pricing-v1.json] *)
Definition pricing_snapshot : PricingSnapshot :=
  mk_snapshot 1 "api-equivalent-v1" "USD"
    (list_to_map [
      ("free-text", mk_model_price FreshInput None false
        (list_to_map [("standard/base", mk_rates (Some "0") (Some "0") (Some "0") None None Unavailable)]));
      ("text-model", mk_model_price RawInput (Some 200000) false
        (list_to_map [("standard/base", mk_rates (Some "3000000") (Some "15000000") (Some "300000") (Some "3750000") (Some "6000000") Both);
          ("standard/long", mk_rates (Some "6000000") (Some "30000000") (Some "600000") (Some "7500000") (Some "12000000") Both)]))])
    (list_to_map [("text-alias", "text-model")]).
Definition pricing_vectors : list (string * string * ValueTokens * (string * bool)) :=
  [("text-model", "standard", mk_tokens 1000 1000 0 0 0 0, ("18000000000", false));
   ("text-alias", "standard", mk_tokens 1 0 300000 0 0 0, ("180006000000", false));
   ("text-model", "standard", mk_tokens 0 0 0 0 0 10, ("60000000", true));
   ("text-model", "standard", mk_tokens 0 0 0 10 10 0, ("97500000", false));
   ("text-model", "standard", mk_tokens 1 0 0 0 0 0, ("3000000", false));
   ("free-text", "standard", mk_tokens 10 10 0 0 0 0, ("0", false))].
Definition pricing_vector_holds (v : string * string * ValueTokens * (string * bool)) : bool :=
  let '(model, tier, tokens, (picos, conservative)) := v in
  match m ← snapshot_model pricing_snapshot model; model_price m tier tokens with
  | Ok p => str_eqb (pretty (usage_picos p)) picos
            && Bool.eqb (conservative_cache_ttl p) conservative
  | Err _ => false
  end.
Example pricing_snapshot_valid : snapshot_validate (λ _, Some "{}") pricing_snapshot = Ok ().
Proof. vm_compute. reflexivity. Qed.
Example pricing_vectors_hold : forallb pricing_vector_holds pricing_vectors = true.
Proof. vm_compute. reflexivity. Qed.

(** ** The classifier's test bodies *)
Definition text_bodies : list value :=
  [Object [("messages", Array [Object [("role", VString "user"); ("content", VString "hello")]]); ("tools", Array [Object [("type", VString "function"); ("function", Object [("name", VString "lookup"); ("parameters", Object [("type", VString "object"); ("properties", Object [("image", Object [("type", VString "string")])])])])]])];
   Object [("contents", Array [Object [("role", VString "user"); ("parts", Array [Object [("text", VString "hi")]])]; Object [("role", VString "model"); ("parts", Array [Object [("functionCall", Object [("name", VString "f"); ("args", Object [("image", Object [("type", VString "image")])])]); ("thoughtSignature", VString "x")]])]; Object [("role", VString "user"); ("parts", Array [Object [("functionResponse", Object [("name", VString "f"); ("response", Object [("type", VString "file")])])]])]]); ("generationConfig", Object [("maxOutputTokens", Number (NInt 1024)); ("responseModalities", Array [VString "TEXT"])])];
   Object [("messages", Array [Object [("role", VString "assistant"); ("content", Null); ("audio", Null)]; Object [("role", VString "assistant"); ("content", Array [Object [("type", VString "tool_use"); ("input", Object [("image", Object [("type", VString "image")])])]])]])]].
Definition media_bodies : list value :=
  [Object [("tools", Array [Object [("googleSearch", Object [])]])];
   Object [("tools", Array [Object [("type", VString "web_search")]])];
   Object [("messages", Array [Object [("content", Array [Object [("type", VString "image_url"); ("image_url", VString "url")]])]])];
   Object [("generationConfig", Object [("responseModalities", Array [VString "IMAGE"])])];
   Object [("cachedContent", VString "unverified-context")];
   Object [("messages", Array [Object [("role", VString "user"); ("content", Array [Object [("type", VString "tool_result"); ("tool_use_id", VString "1"); ("content", Array [Object [("type", VString "image"); ("source", Object [])]])]])]])];
   Object [("tools", Array [Object [("type", VString "code_interpreter"); ("container", Object [("type", VString "auto")])]])]].
Example text_bodies_metered : forallb is_metered_text_value text_bodies = true.
Proof. vm_compute. reflexivity. Qed.
Example media_bodies_refused : existsb is_metered_text_value media_bodies = false.
Proof. vm_compute. reflexivity. Qed.
Example workbuddy_hints :
  map (value_execution_model_hint "claude.workbuddy_oauth")
    ["auto"; "default-model"; "workbuddy/auto"; "codebuddy/default"; "workbuddy/GLM-5.2"]
  = [None; None; None; None; Some "glm-5.2"].
Proof. vm_compute. reflexivity. Qed.
