(* ===== verification/QuotaCycle.v ===== *)
(** * Account quota cycles ([src/domain/sharing/quota_cycle.rs])

    The ledger of an installation's quota periods: one source per verified account identity,
    its current cycle, the events that opened or corrected cycles and the reset-credit
    operations.  Every operation takes the ledger and returns its result with the ledger it
    leaves, also on an error, because the code mutates in place before some of its checks.
    [opaque_id()] draws 16 random bytes; each operation takes the identifiers it may draw as
    arguments. *)
From S2P Require Import Prelude RustStr Json.
From Stdlib Require Import ZArith Lia Ascii.

Local Open Scope Z_scope.

(** ** Data *)
(** domain/sharing/quota_cycle.rs:9-9 [QUOTA_CYCLE_SCHEMA] *)
Definition QUOTA_CYCLE_SCHEMA : Z := 1.

(** domain/sharing/quota_cycle.rs:19-24 [QuotaSourceFence] *)
Record QuotaSourceFence := mk_fence {
  account_incarnation : Z; identity_generation : Z;
  credential_generation : Z; quota_credential_generation : Z;
}.
#[global] Instance QuotaSourceFence_eq_dec : EqDecision QuotaSourceFence.
Proof. solve_decision. Defined.

(** domain/sharing/quota_cycle.rs:28-34 [QuotaTimeBasis] *)
Inductive QuotaTimeBasis : Type :=
  | UpstreamWindow | DerivedFromWindow | KnownNaturalBoundary
  | PublicAnnouncement | RedeemConfirmation.
#[global] Instance QuotaTimeBasis_eq_dec : EqDecision QuotaTimeBasis.
Proof. solve_decision. Defined.

(** domain/sharing/quota_cycle.rs:38-45 [QuotaWindowObservation] *)
Record QuotaWindowObservation := mk_observation {
  obs_bucket_id : string;
  obs_starts_at_ms : option Z;
  obs_ends_at_ms : Z;
  obs_duration_ms : option Z;
  obs_observed_at_ms : Z;
  obs_basis : QuotaTimeBasis;
}.

(** domain/sharing/quota_cycle.rs:85-98 [AccountQuotaCycle] *)
Record AccountQuotaCycle := mk_cycle {
  cyc_stream_incarnation : string;
  cyc_source_ref : string;
  cyc_source_epoch : Z;
  cyc_bucket_id : string;
  cyc_cycle_id : string;
  cyc_sequence : Z;
  cyc_revision : Z;
  cyc_starts_at_ms : Z;
  cyc_ends_at_ms : option Z;
  cyc_basis : QuotaTimeBasis;
  cyc_observed_at_ms : Z;
  cyc_event_id : string;
}.

(** domain/sharing/quota_cycle.rs:127-138 [QuotaCycleSource] *)
Record QuotaCycleSource := mk_source {
  src_source_ref : string;
  src_source_epoch : Z;
  src_provider_type : string;
  src_bucket_id : string;
  src_fence : QuotaSourceFence;
  src_cycle : option AccountQuotaCycle;
  src_next_boundary_ms : option Z;
  src_last_observed_at_ms : Z;
}.

(** domain/sharing/quota_cycle.rs:142-146 [QuotaEventStatus] *)
Inductive QuotaEventStatus : Type := Committed | Historical | NeedsReconcile.
#[global] Instance QuotaEventStatus_eq_dec : EqDecision QuotaEventStatus.
Proof. solve_decision. Defined.

(** domain/sharing/quota_cycle.rs:150-159 [QuotaResetEvent] *)
Record QuotaResetEvent := mk_event {
  ev_event_id : string;
  ev_source_ref : string;
  ev_bucket_id : string;
  ev_effective_at_ms : Z;
  ev_discovered_at_ms : Z;
  ev_basis : QuotaTimeBasis;
  ev_status : QuotaEventStatus;
  ev_cycle_id : string;
}.

(** domain/sharing/quota_cycle.rs:163-169 [QuotaResetCorrection] *)
Record QuotaResetCorrection := mk_correction {
  cor_event_key : string;
  cor_previous_effective_at_ms : Z;
  cor_effective_at_ms : Z;
  cor_discovered_at_ms : Z;
  cor_applied : bool;
}.

(** domain/sharing/quota_cycle.rs:173-179 [ResetCreditStatus] *)
Inductive ResetCreditStatus : Type :=
  | IntentDurable | Dispatched | Unknown | Confirmed | Rejected.
#[global] Instance ResetCreditStatus_eq_dec : EqDecision ResetCreditStatus.
Proof. solve_decision. Defined.

(** domain/sharing/quota_cycle.rs:183-194 [ResetCreditOperation] *)
Record ResetCreditOperation := mk_operation {
  op_operation_id : string;
  op_request_id : string;
  op_source_ref : string;
  op_fence : QuotaSourceFence;
  op_status : ResetCreditStatus;
  op_created_at_ms : Z;
  op_confirmed_at_ms : option Z;
  op_result : option string;
  op_credit_fingerprint : string;
}.

(** domain/sharing/quota_cycle.rs:198-214 [PublicResetCursor] *)
Record PublicResetCursor := mk_cursor {
  cur_etag : option string;
  cur_next_cursor : option string;
  cur_from_at_ms : option Z;
  cur_checked_at_ms : option Z;
  cur_retry_at_ms : option Z;
  cur_cache_query : option string;
  cur_cache_evidence : option string;
  cur_high_watermark_ms : option Z;
  cur_failures : Z;
  cur_last_error : option string;
}.
Definition cursor_default : PublicResetCursor :=
  mk_cursor None None None None None None None None 0 None.

(** domain/sharing/quota_cycle.rs:218-239 [QuotaCycleLedger] *)
Record QuotaCycleLedger := mk_ledger {
  led_schema_version : Z;
  led_stream_incarnation : string;
  led_sources : gmap string QuotaCycleSource;
  led_events : gmap string QuotaResetEvent;
  led_operations : gmap string ResetCreditOperation;
  led_public_cursor : PublicResetCursor;
  led_public_events : gmap string Z;
  led_public_status_cursor : PublicResetCursor;
  led_public_status_latest : option string;
  led_corrections : list QuotaResetCorrection;
  led_redeem_recovery_required : bool;
  led_revision : Z;
}.
(** domain/sharing/quota_cycle.rs:242-257 [QuotaCycleLedger::default] *)
Definition ledger_default (opaque_id : string) : QuotaCycleLedger :=
  mk_ledger QUOTA_CYCLE_SCHEMA opaque_id ∅ ∅ ∅ cursor_default ∅ cursor_default None [] false 0.

(** Assignments to the fields the operations change. *)
Definition with_sources f l := mk_ledger (led_schema_version l) (led_stream_incarnation l)
  (f (led_sources l)) (led_events l) (led_operations l) (led_public_cursor l)
  (led_public_events l) (led_public_status_cursor l) (led_public_status_latest l)
  (led_corrections l) (led_redeem_recovery_required l) (led_revision l).
Definition with_events f l := mk_ledger (led_schema_version l) (led_stream_incarnation l)
  (led_sources l) (f (led_events l)) (led_operations l) (led_public_cursor l)
  (led_public_events l) (led_public_status_cursor l) (led_public_status_latest l)
  (led_corrections l) (led_redeem_recovery_required l) (led_revision l).
Definition with_operations f l := mk_ledger (led_schema_version l) (led_stream_incarnation l)
  (led_sources l) (led_events l) (f (led_operations l)) (led_public_cursor l)
  (led_public_events l) (led_public_status_cursor l) (led_public_status_latest l)
  (led_corrections l) (led_redeem_recovery_required l) (led_revision l).
Definition with_corrections f l := mk_ledger (led_schema_version l) (led_stream_incarnation l)
  (led_sources l) (led_events l) (led_operations l) (led_public_cursor l)
  (led_public_events l) (led_public_status_cursor l) (led_public_status_latest l)
  (f (led_corrections l)) (led_redeem_recovery_required l) (led_revision l).
Definition with_revision f l := mk_ledger (led_schema_version l) (led_stream_incarnation l)
  (led_sources l) (led_events l) (led_operations l) (led_public_cursor l)
  (led_public_events l) (led_public_status_cursor l) (led_public_status_latest l)
  (led_corrections l) (led_redeem_recovery_required l) (f (led_revision l)).
Definition bump_revision : QuotaCycleLedger → QuotaCycleLedger :=
  with_revision (λ r, sat_u64 (r + 1)).
Definition with_cycle c s := mk_source (src_source_ref s) (src_source_epoch s)
  (src_provider_type s) (src_bucket_id s) (src_fence s) c (src_next_boundary_ms s)
  (src_last_observed_at_ms s).
Definition with_fence f s := mk_source (src_source_ref s) (src_source_epoch s)
  (src_provider_type s) (src_bucket_id s) f (src_cycle s) (src_next_boundary_ms s)
  (src_last_observed_at_ms s).
Definition with_boundary b s := mk_source (src_source_ref s) (src_source_epoch s)
  (src_provider_type s) (src_bucket_id s) (src_fence s) (src_cycle s) b
  (src_last_observed_at_ms s).
Definition with_last_observed t s := mk_source (src_source_ref s) (src_source_epoch s)
  (src_provider_type s) (src_bucket_id s) (src_fence s) (src_cycle s) (src_next_boundary_ms s) t.
Definition put_source (identity : string) (s : QuotaCycleSource) : QuotaCycleLedger → QuotaCycleLedger :=
  with_sources (λ m, <[identity := s]> m).

(** [format!("{source_ref}:{event_id}")]. *)
Definition event_key (source_ref event_id : string) : string := source_ref +:+ ":" +:+ event_id.

(** ** Observations and cycles *)
(** domain/sharing/quota_cycle.rs:48-60 [QuotaWindowObservation::validate_end] *)
Definition validate_end (o : QuotaWindowObservation) : result string () :=
  if is_empty (obs_bucket_id o) || (obs_observed_at_ms o <? 0)
     || (obs_ends_at_ms o <=? obs_observed_at_ms o)
     || from_option (λ delay, 400 * 24 * 60 * 60 * 1000 <? delay) true
          (checked_i64 (obs_ends_at_ms o - obs_observed_at_ms o))
  then Err "quota_boundary_invalid" else Ok ().
(** domain/sharing/quota_cycle.rs:61-80 [QuotaWindowObservation::start] *)
Definition observation_start (o : QuotaWindowObservation) : result string Z :=
  _ ← validate_end o;
  start ← ok_or "quota_boundary_unavailable"
    (or_else (obs_starts_at_ms o)
      (duration ← obs_duration_ms o;
       if 0 <? duration then checked_i64 (obs_ends_at_ms o - duration) else None));
  if is_empty (obs_bucket_id o) || (start <? 0) || (obs_observed_at_ms o <? start)
     || (obs_ends_at_ms o <=? start) || (obs_ends_at_ms o <=? obs_observed_at_ms o)
  then Err "quota_boundary_invalid" else Ok start.
(** domain/sharing/quota_cycle.rs:112-114 [AccountQuotaCycle::contains] *)
Definition cycle_contains (c : AccountQuotaCycle) (started_at_ms : Z) : bool :=
  (cyc_starts_at_ms c <=? started_at_ms)
  && from_option (λ e, started_at_ms <? e) true (cyc_ends_at_ms c).
(** domain/sharing/quota_cycle.rs:116-122 [AccountQuotaCycle::same_cycle] *)
Definition same_cycle (a b : AccountQuotaCycle) : bool :=
  str_eqb (cyc_stream_incarnation a) (cyc_stream_incarnation b)
  && str_eqb (cyc_source_ref a) (cyc_source_ref b)
  && (cyc_source_epoch a =? cyc_source_epoch b)
  && str_eqb (cyc_bucket_id a) (cyc_bucket_id b)
  && str_eqb (cyc_cycle_id a) (cyc_cycle_id b).

(** domain/sharing/quota_cycle.rs:470-474 [source]: the first source, in key order, with
    the reference; the operations write to the same one. *)
Definition find_source (l : QuotaCycleLedger) (source_ref : string)
  : option (string * QuotaCycleSource) :=
  snd <$> list_find (λ e, src_source_ref e.2 = source_ref) (btree_entries (led_sources l)).
Definition source (l : QuotaCycleLedger) (source_ref : string) : option QuotaCycleSource :=
  snd <$> find_source l source_ref.

(** ** Integrity of a ledger *)
(** domain/sharing/quota_cycle.rs:270-280 [validate], the fields of one source *)
Definition check_source '((identity, s) : string * QuotaCycleSource) : result string () :=
  fail_if (is_empty identity || is_empty (src_source_ref s) || is_empty (src_provider_type s)
    || is_empty (src_bucket_id s) || (src_source_epoch s =? 0) || (src_last_observed_at_ms s <? 0)
    || from_option (λ t, t <? 0) false (src_next_boundary_ms s)) "quota_source_invalid".
(** domain/sharing/quota_cycle.rs:281-307 [validate], the cycle of one source *)
Definition check_cycle (l : QuotaCycleLedger) (s : QuotaCycleSource) : result string () :=
  match src_cycle s with
  | None => Ok ()
  | Some c =>
      _ ← fail_if (negb (str_eqb (cyc_stream_incarnation c) (led_stream_incarnation l))
            || negb (str_eqb (cyc_source_ref c) (src_source_ref s))
            || negb (cyc_source_epoch c =? src_source_epoch s)
            || negb (str_eqb (cyc_bucket_id c) (src_bucket_id s))
            || is_empty (cyc_cycle_id c) || (cyc_sequence c =? 0) || (cyc_revision c =? 0)
            || (cyc_starts_at_ms c <? 0) || (cyc_observed_at_ms c <? cyc_starts_at_ms c)
            || from_option (λ e, e <=? cyc_starts_at_ms c) false (cyc_ends_at_ms c))
            "quota_cycle_invalid";
      ev ← ok_or "quota_cycle_event_missing"
             (led_events l !! event_key (src_source_ref s) (cyc_event_id c));
      fail_if (negb (str_eqb (ev_cycle_id ev) (cyc_cycle_id c))
               || negb (ev_effective_at_ms ev =? cyc_starts_at_ms c)
               || bool_decide (ev_status ev = Historical)) "quota_cycle_event_mismatch"
  end.
(** domain/sharing/quota_cycle.rs:268-308 [validate], the sources *)
Definition source_step (l : QuotaCycleLedger) (refs : gset string)
    (e : string * QuotaCycleSource) : result string (gset string) :=
  refs' ← distinct_step check_source (λ e, src_source_ref e.2) "quota_source_invalid" refs e;
  _ ← check_cycle l e.2;
  Ok refs'.
(** domain/sharing/quota_cycle.rs:310-323 [validate], one event *)
Definition check_event (l : QuotaCycleLedger) '((key, ev) : string * QuotaResetEvent)
  : result string () :=
  s ← ok_or "quota_event_source_missing" (source l (ev_source_ref ev));
  fail_if (is_empty (ev_event_id ev) || (256 <? str_len (ev_event_id ev))
    || negb (str_eqb key (event_key (ev_source_ref ev) (ev_event_id ev)))
    || negb (str_eqb (ev_bucket_id ev) (src_bucket_id s))
    || (ev_effective_at_ms ev <? 0) || (ev_discovered_at_ms ev <? ev_effective_at_ms ev)
    || (bool_decide (ev_status ev = Committed) && is_empty (ev_cycle_id ev))
    || (bool_decide (ev_status ev = Historical) && negb (is_empty (ev_cycle_id ev))))
    "quota_event_invalid".
(** What makes a correction the same as an earlier one. *)
Definition correction_identity (c : QuotaResetCorrection) : string * Z * Z * bool :=
  (cor_event_key c, cor_previous_effective_at_ms c, cor_effective_at_ms c, cor_applied c).
(** domain/sharing/quota_cycle.rs:328-340 [validate], one correction by itself *)
Definition check_correction (l : QuotaCycleLedger) (c : QuotaResetCorrection) : result string () :=
  fail_if (bool_decide (led_events l !! cor_event_key c = None)
    || (cor_previous_effective_at_ms c <? 0) || (cor_effective_at_ms c <? 0)
    || (cor_discovered_at_ms c <? cor_effective_at_ms c)
    || (cor_previous_effective_at_ms c =? cor_effective_at_ms c)) "quota_correction_invalid".
(** domain/sharing/quota_cycle.rs:342-348 [validate], the chain of applied corrections *)
Definition chain_step (applied : gmap string Z) (c : QuotaResetCorrection)
  : result string (gmap string Z) :=
  if cor_applied c then
    _ ← fail_if (from_option (λ previous, negb (previous =? cor_previous_effective_at_ms c)) false
           (applied !! cor_event_key c)) "quota_correction_chain_invalid";
    Ok (<[cor_event_key c := cor_effective_at_ms c]> applied)
  else Ok applied.
(** domain/sharing/quota_cycle.rs:325-349 [validate], the corrections in order: each is
    checked, found distinct from the earlier ones, then chained. *)
Definition correction_step (l : QuotaCycleLedger)
    (acc : gset (string * Z * Z * bool) * gmap string Z) (c : QuotaResetCorrection)
  : result string (gset (string * Z * Z * bool) * gmap string Z) :=
  seen ← distinct_step (check_correction l) correction_identity "quota_correction_invalid" acc.1 c;
  applied ← chain_step acc.2 c;
  Ok (seen, applied).
(** domain/sharing/quota_cycle.rs:358-375 [validate], one operation *)
Definition check_operation (l : QuotaCycleLedger) '((key, op) : string * ResetCreditOperation)
  : result string () :=
  fail_if (is_empty (op_operation_id op) || negb (str_eqb key (op_operation_id op))
    || is_empty (op_request_id op) || bool_decide (source l (op_source_ref op) = None)
    || (op_created_at_ms op <? 0)
    || from_option (λ t, t <? op_created_at_ms op) false (op_confirmed_at_ms op)
    || negb (Bool.eqb (bool_decide (op_status op = Confirmed))
               (bool_decide (is_Some (op_confirmed_at_ms op))))
    || (bool_decide (op_status op = Confirmed ∨ op_status op = Rejected)
        && bool_decide (op_result op = None))) "quota_reset_operation_invalid".
(** domain/sharing/quota_cycle.rs:376-389 [validate], the receipt of a confirmed operation *)
Definition check_receipt (l : QuotaCycleLedger) (op : ResetCreditOperation) : result string () :=
  if bool_decide (op_status op = Confirmed) then
    ev ← ok_or "quota_reset_receipt_event_missing"
           (led_events l !! event_key (op_source_ref op) ("redeem:" +:+ op_request_id op));
    fail_if (negb (bool_decide (ev_basis ev = RedeemConfirmation))
             || bool_decide (ev_status ev = Historical)) "quota_reset_receipt_event_invalid"
  else Ok ().
(** domain/sharing/quota_cycle.rs:356-390 [validate], the operations *)
Definition operation_step (l : QuotaCycleLedger) (seen : gset string)
    (e : string * ResetCreditOperation) : result string (gset string) :=
  seen' ← distinct_step (check_operation l) (λ e, op_request_id e.2)
            "quota_reset_operation_invalid" seen e;
  _ ← check_receipt l e.2;
  Ok seen'.
Definition token_bytes : string → bool :=
  all_bytes (λ b, is_ascii_alphanumeric b || bool_decide (b = "_"%char) || bool_decide (b = "-"%char)).
(** domain/sharing/quota_cycle.rs:391-416 [validate], a cursor *)
Definition validate_cursor (c : PublicResetCursor) : result string () :=
  fail_if (existsb (from_option (λ t, t <? 0) false)
      [cur_from_at_ms c; cur_checked_at_ms c; cur_retry_at_ms c; cur_high_watermark_ms c]
    || from_option (λ etag, (1024 <? str_len etag) || contains_char "013"%char etag
                            || contains_char "010"%char etag) false (cur_etag c)
    || from_option (λ v, is_empty v || (1024 <? str_len v) || negb (token_bytes v)) false
         (cur_next_cursor c)
    || (bool_decide (is_Some (cur_next_cursor c)) && bool_decide (cur_from_at_ms c = None)))
    "quota_public_cursor_invalid".
(** domain/sharing/quota_cycle.rs:261-428 [validate] *)
Definition validate (l : QuotaCycleLedger) : result string () :=
  _ ← fail_if (negb (led_schema_version l =? QUOTA_CYCLE_SCHEMA)) "unsupported_quota_cycle_schema";
  _ ← fail_if (is_empty (led_stream_incarnation l)) "quota_stream_invalid";
  _ ← try_fold (source_step l) ∅ (btree_entries (led_sources l));
  _ ← for_each (check_event l) (btree_entries (led_events l));
  acc ← try_fold (correction_step l) (∅, ∅) (led_corrections l);
  _ ← fail_if (existsb (λ '(key, time),
         from_option (λ ev, negb (ev_effective_at_ms ev =? time)) true (led_events l !! key))
         (btree_entries acc.2)) "quota_correction_chain_invalid";
  _ ← try_fold (operation_step l) ∅ (btree_entries (led_operations l));
  _ ← for_each validate_cursor [led_public_cursor l; led_public_status_cursor l];
  for_each (λ '(id, time),
     fail_if (is_empty id || (64 <? str_len id) || (time <? 0) || negb (token_bytes id))
       "quota_public_event_invalid") (btree_entries (led_public_events l)).

(** ** Operations *)
(** What an operation leaves: its result and the ledger. *)
Definition outcome (A : Type) : Type := result string A * QuotaCycleLedger.

(** domain/sharing/quota_cycle.rs:432-468 [register_source] *)
Definition register_source (opaque_id : string) (l : QuotaCycleLedger)
    (identity provider_type bucket_id : string) (fence : QuotaSourceFence) : outcome string :=
  match validate l with
  | Err e => (Err e, l)
  | Ok _ =>
      if is_empty identity || is_empty bucket_id then (Err "identity_unverified", l) else
      let existed := bool_decide (is_Some (led_sources l !! identity)) in
      let s := default (mk_source opaque_id 1 provider_type bucket_id fence None None 0)
                 (led_sources l !! identity) in
      let l := put_source identity s l in
      if negb (str_eqb (src_provider_type s) provider_type)
         || negb (str_eqb (src_bucket_id s) bucket_id)
      then (Err "quota_source_scope_mismatch", l)
      else if negb existed || negb (bool_decide (src_fence s = fence)) then
        let l := put_source identity (with_fence fence s) l in
        match checked_u64 (led_revision l + 1) with
        | None => (Err "quota_revision_overflow", l)
        | Some r => (Ok (src_source_ref s), with_revision (λ _, r) l)
        end
      else (Ok (src_source_ref s), l)
  end.

(** domain/sharing/quota_cycle.rs:509-543 [observe], the first cycle of a source with the
    event that opens it ([apply_reset] 616-646 and [advance_source_due] 781-818 build the
    same values). *)
Definition open_first_cycle (l : QuotaCycleLedger) (identity : string) (s : QuotaCycleSource)
    (opaque_id : string) (starts_at_ms : Z) (ends_at_ms : option Z) (basis : QuotaTimeBasis)
    (observed_at_ms : Z) (event_id : string) : QuotaCycleLedger :=
  let cycle := mk_cycle (led_stream_incarnation l) (src_source_ref s) (src_source_epoch s)
    (src_bucket_id s) opaque_id 1 1 starts_at_ms ends_at_ms basis observed_at_ms event_id in
  let ev := mk_event event_id (src_source_ref s) (src_bucket_id s) starts_at_ms observed_at_ms
    basis Committed opaque_id in
  bump_revision (with_events (λ m, <[event_key (src_source_ref s) event_id := ev]> m)
    (put_source identity (with_cycle (Some cycle) s) l)).

Definition max_of (l : list Z) : option Z :=
  foldr (λ x acc, Some (from_option (Z.max x) x acc)) None l.
(** domain/sharing/quota_cycle.rs:649-659 [apply_reset], the latest committed start before
    the current cycle's. *)
Definition earlier_boundary (l : QuotaCycleLedger) (source_ref : string) (c : AccountQuotaCycle)
  : option Z :=
  max_of (ev_effective_at_ms <$> filter (λ ev, ev_source_ref ev = source_ref
      ∧ ev_status ev = Committed ∧ ev_cycle_id ev ≠ cyc_cycle_id c
      ∧ ev_effective_at_ms ev < cyc_starts_at_ms c) (btree_values (led_events l))).
(** domain/sharing/quota_cycle.rs:664-667 [apply_reset], whether a recorded event may be
    moved to another time. *)
Definition may_apply_correction (l : QuotaCycleLedger) (source_ref event_id : string)
    (c : AccountQuotaCycle) (previous : QuotaResetEvent) (effective_at_ms : Z) : bool :=
  negb (negb (str_eqb (ev_cycle_id previous) (cyc_cycle_id c))
        || negb (str_eqb (cyc_event_id c) event_id)
        || (default I64_MAX (cyc_ends_at_ms c) <=? effective_at_ms)
        || from_option (λ boundary, effective_at_ms <=? boundary) false
             (earlier_boundary l source_ref c)).
(** domain/sharing/quota_cycle.rs:660-697 [apply_reset], an event already recorded *)
Definition correct_event (l : QuotaCycleLedger) (identity : string) (s : QuotaCycleSource)
    (c : AccountQuotaCycle) (source_ref event_id : string) (previous : QuotaResetEvent)
    (effective_at_ms discovered_at_ms : Z) (basis : QuotaTimeBasis) : outcome bool :=
  let key := event_key source_ref event_id in
  if ev_effective_at_ms previous =? effective_at_ms then (Ok false, l) else
  let applied := may_apply_correction l source_ref event_id c previous effective_at_ms in
  let correction := mk_correction key (ev_effective_at_ms previous) effective_at_ms
    discovered_at_ms applied in
  if existsb (λ prior, bool_decide (correction_identity prior = correction_identity correction))
       (led_corrections l) then (Ok false, l) else
  let l := with_corrections (λ cs, cs ++ [correction]) l in
  if negb applied then
    let ev := mk_event (ev_event_id previous) (ev_source_ref previous) (ev_bucket_id previous)
      (ev_effective_at_ms previous) (ev_discovered_at_ms previous) (ev_basis previous)
      NeedsReconcile (ev_cycle_id previous) in
    (Ok false, bump_revision (with_events (λ m, <[key := ev]> m) l))
  else
    let ev := mk_event (ev_event_id previous) (ev_source_ref previous) (ev_bucket_id previous)
      effective_at_ms discovered_at_ms (ev_basis previous) (ev_status previous)
      (ev_cycle_id previous) in
    let c := mk_cycle (cyc_stream_incarnation c) (cyc_source_ref c) (cyc_source_epoch c)
      (cyc_bucket_id c) (cyc_cycle_id c) (cyc_sequence c) (sat_u64 (cyc_revision c + 1))
      effective_at_ms (cyc_ends_at_ms c) basis
      (Z.max (cyc_observed_at_ms c) discovered_at_ms) (cyc_event_id c) in
    (Ok true, bump_revision (put_source identity (with_cycle (Some c) s)
                (with_events (λ m, <[key := ev]> m) l))).
(** domain/sharing/quota_cycle.rs:698-735 [apply_reset], a new event: historical, the
    current start, or the start of the next cycle. *)
Definition record_event (opaque_id : string) (l : QuotaCycleLedger) (identity : string)
    (s : QuotaCycleSource) (c : AccountQuotaCycle) (source_ref event_id : string)
    (effective_at_ms discovered_at_ms : Z) (basis : QuotaTimeBasis) : outcome bool :=
  let insert_event status cycle_id :=
    with_events (λ m, <[event_key source_ref event_id :=
      mk_event event_id source_ref (src_bucket_id s) effective_at_ms discovered_at_ms basis
        status cycle_id]> m) in
  if cyc_starts_at_ms c <? effective_at_ms then
    match checked_u64 (cyc_sequence c + 1) with
    | None =>
        let c := mk_cycle (cyc_stream_incarnation c) (cyc_source_ref c) (cyc_source_epoch c)
          (cyc_bucket_id c) opaque_id (cyc_sequence c) (cyc_revision c) (cyc_starts_at_ms c)
          (cyc_ends_at_ms c) (cyc_basis c) (cyc_observed_at_ms c) (cyc_event_id c) in
        (Err "quota_sequence_overflow", put_source identity (with_cycle (Some c) s) l)
    | Some sequence =>
        let c := mk_cycle (cyc_stream_incarnation c) (cyc_source_ref c) (cyc_source_epoch c)
          (cyc_bucket_id c) opaque_id sequence 1 effective_at_ms
          (e ← cyc_ends_at_ms c; if effective_at_ms <? e then Some e else None) basis
          discovered_at_ms event_id in
        (Ok true, bump_revision (insert_event Committed opaque_id
                    (put_source identity (with_cycle (Some c) s) l)))
    end
  else if effective_at_ms <? cyc_starts_at_ms c then
    (Ok false, bump_revision (insert_event Historical "" l))
  else (Ok false, bump_revision (insert_event Committed (cyc_cycle_id c) l)).
(** domain/sharing/quota_cycle.rs:591-736 [apply_reset] *)
Definition apply_reset (opaque_id : string) (l : QuotaCycleLedger) (source_ref : string)
    (fence : QuotaSourceFence) (event_id : string) (effective_at_ms discovered_at_ms : Z)
    (basis : QuotaTimeBasis) : outcome bool :=
  if is_empty event_id || (256 <? str_len event_id) || (effective_at_ms <? 0)
     || (discovered_at_ms <? effective_at_ms)
  then (Err "quota_event_invalid", l) else
  match find_source l source_ref with
  | None => (Err "quota_source_missing", l)
  | Some (identity, s) =>
      if negb (bool_decide (src_fence s = fence)) then (Err "quota_source_fence_changed", l) else
      match src_cycle s with
      | None =>
          (Ok true, open_first_cycle l identity s opaque_id effective_at_ms
             (e ← src_next_boundary_ms s; if effective_at_ms <? e then Some e else None)
             basis discovered_at_ms event_id)
      | Some c =>
          match led_events l !! event_key source_ref event_id with
          | Some previous =>
              correct_event l identity s c source_ref event_id previous effective_at_ms
                discovered_at_ms basis
          | None =>
              record_event opaque_id l identity s c source_ref event_id effective_at_ms
                discovered_at_ms basis
          end
      end
  end.

Definition natural_id (boundary : Z) : string := "natural:" +:+ pretty boundary.
Definition upstream_id (start : Z) : string := "upstream:" +:+ pretty start.
Definition initial_id (ends : Z) : string := "initial:" +:+ pretty ends.

Definition boundary_changed (o : QuotaWindowObservation) (s : QuotaCycleSource) : bool :=
  negb (bool_decide (src_next_boundary_ms s = Some (obs_ends_at_ms o))).
Definition freshness_changed (o : QuotaWindowObservation) (s : QuotaCycleSource) : bool :=
  negb (src_last_observed_at_ms s =? obs_observed_at_ms o).
Definition touched (o : QuotaWindowObservation) (s : QuotaCycleSource) : QuotaCycleSource :=
  with_last_observed (obs_observed_at_ms o) (with_boundary (Some (obs_ends_at_ms o)) s).
(** domain/sharing/quota_cycle.rs:502-508 [observe], the source takes the observation *)
Definition touch (o : QuotaWindowObservation) (l : QuotaCycleLedger) (identity : string)
    (s : QuotaCycleSource) : QuotaCycleLedger :=
  let l := put_source identity (touched o s) l in
  if boundary_changed o s || freshness_changed o s then bump_revision l else l.
(** domain/sharing/quota_cycle.rs:550-552 [observe], the cycle's end has elapsed *)
Definition elapsed_end (o : QuotaWindowObservation) (c : AccountQuotaCycle) : option Z :=
  e ← cyc_ends_at_ms c; if e <=? obs_observed_at_ms o then Some e else None.
(** domain/sharing/quota_cycle.rs:564-568 [observe], the upstream window starts later *)
Definition later_start (o : QuotaWindowObservation) (c : AccountQuotaCycle) : option Z :=
  start ← obs_starts_at_ms o; if cyc_starts_at_ms c <? start then Some start else None.
(** domain/sharing/quota_cycle.rs:581-588 [observe], the current cycle is confirmed *)
Definition confirm_cycle (o : QuotaWindowObservation) (l : QuotaCycleLedger) (identity : string)
    (s : QuotaCycleSource) (c : AccountQuotaCycle) : bool * QuotaCycleLedger :=
  let changed := negb (bool_decide (cyc_ends_at_ms c = Some (obs_ends_at_ms o))) in
  let c' := mk_cycle (cyc_stream_incarnation c) (cyc_source_ref c) (cyc_source_epoch c)
    (cyc_bucket_id c) (cyc_cycle_id c) (cyc_sequence c)
    (if changed then sat_u64 (cyc_revision c + 1) else cyc_revision c)
    (cyc_starts_at_ms c) (Some (obs_ends_at_ms o)) (cyc_basis c)
    (obs_observed_at_ms o) (cyc_event_id c) in
  (changed, put_source identity (with_cycle (Some c') s)
              (if changed then bump_revision l else l)).
(** domain/sharing/quota_cycle.rs:482-487 [observe], the start the observation implies *)
Definition inferred_start (o : QuotaWindowObservation) : result string (option Z) :=
  _ ← validate_end o;
  match observation_start o with
  | Ok start => Ok (Some start)
  | Err e => if str_eqb e "quota_boundary_unavailable" then Ok None else Err e
  end.
(** domain/sharing/quota_cycle.rs:476-589 [observe]: it calls itself after each reset it
    applies; [None] when the recursion is deeper than [fuel]. *)
Fixpoint observe (fuel : nat) (ids : nat → string) (l : QuotaCycleLedger) (source_ref : string)
    (fence : QuotaSourceFence) (o : QuotaWindowObservation) : option (outcome bool) :=
  match fuel with
  | O => None
  | S fuel =>
      match inferred_start o with
      | Err e => Some (Err e, l)
      | Ok inferred =>
      match find_source l source_ref with
      | None => Some (Err "quota_source_missing", l)
      | Some (identity, s) =>
      if negb (bool_decide (src_fence s = fence)) then Some (Err "quota_source_fence_changed", l)
      else if negb (str_eqb (src_bucket_id s) (obs_bucket_id o))
      then Some (Err "quota_bucket_mismatch", l)
      else if obs_observed_at_ms o <? src_last_observed_at_ms s then Some (Ok false, l)
      else
        let l := touch o l identity s in
        match src_cycle s with
        | None =>
            match inferred with
            | None => Some (Ok (boundary_changed o s || freshness_changed o s), l)
            | Some start =>
                Some (Ok true, open_first_cycle l identity (touched o s) (ids O) start
                  (Some (obs_ends_at_ms o)) (obs_basis o) (obs_observed_at_ms o)
                  (initial_id (obs_ends_at_ms o)))
            end
        | Some c =>
            let reset_then_observe event_id effective_at_ms basis :=
              match apply_reset (ids O) l source_ref fence event_id effective_at_ms
                      (obs_observed_at_ms o) basis with
              | (Err e, l) => Some (Err e, l)
              | (Ok _, l) =>
                  match observe fuel (λ n, ids (S n)) l source_ref fence o with
                  | None => None
                  | Some (r, l) => Some ((λ _, true) <$> r, l)
                  end
              end in
            if obs_observed_at_ms o <? cyc_observed_at_ms c then Some (Ok false, l) else
            match elapsed_end o c with
            | Some boundary =>
                reset_then_observe (natural_id boundary) boundary KnownNaturalBoundary
            | None =>
                match later_start o c with
                | Some start => reset_then_observe (upstream_id start) start (obs_basis o)
                | None =>
                    let '(changed, l) := confirm_cycle o l identity (touched o s) c in
                    Some (Ok (changed || freshness_changed o s), l)
                end
            end
        end
      end end
  end.

(** domain/sharing/quota_cycle.rs:739-750 [advance_due], the sources whose cycle has ended *)
Definition due_sources (l : QuotaCycleLedger) (now_ms : Z) : list (string * QuotaSourceFence * Z) :=
  omap (λ s, c ← src_cycle s; e ← cyc_ends_at_ms c;
             if e <=? now_ms then Some (src_source_ref s, src_fence s, e) else None)
    (btree_values (led_sources l)).
(** domain/sharing/quota_cycle.rs:751-763 [advance_due], one application per due source *)
Fixpoint apply_due (ids : nat → string) (l : QuotaCycleLedger) (now_ms : Z)
    (due : list (string * QuotaSourceFence * Z)) (changed : bool) : outcome bool :=
  match due with
  | [] => (Ok changed, l)
  | (r, fence, e) :: due' =>
      match apply_reset (ids O) l r fence (natural_id e) e now_ms KnownNaturalBoundary with
      | (Err e, l) => (Err e, l)
      | (Ok b, l) => apply_due (λ n, ids (S n)) l now_ms due' (changed || b)
      end
  end.
(** domain/sharing/quota_cycle.rs:738-763 [advance_due] *)
Definition advance_due (ids : nat → string) (l : QuotaCycleLedger) (now_ms : Z) : outcome bool :=
  apply_due ids l now_ms (due_sources l now_ms) false.

(** domain/sharing/quota_cycle.rs:765-836 [advance_source_due] *)
Definition advance_source_due (opaque_id : string) (l : QuotaCycleLedger) (source_ref : string)
    (now_ms : Z) : outcome bool :=
  match find_source l source_ref with
  | None => (Err "quota_source_missing", l)
  | Some (identity, s) =>
      match (e ← or_else (src_cycle s ≫= cyc_ends_at_ms) (src_next_boundary_ms s);
             if e <=? now_ms then Some e else None) with
      | None => (Ok false, l)
      | Some e =>
          match src_cycle s with
          | None =>
              (Ok true, open_first_cycle l identity (with_boundary None s) opaque_id e None
                 KnownNaturalBoundary now_ms (natural_id e))
          | Some _ =>
              match apply_reset opaque_id l source_ref (src_fence s) (natural_id e) e now_ms
                      KnownNaturalBoundary with
              | (Ok true, l) =>
                  (Ok true, from_option (λ '(identity, s), put_source identity (with_boundary None s) l)
                              l (find_source l source_ref))
              | out => out
              end
          end
      end
  end.

(** domain/sharing/quota_cycle.rs:838-862 [begin_redeem] *)
Definition begin_redeem (l : QuotaCycleLedger) (op : ResetCreditOperation)
  : outcome ResetCreditOperation :=
  match source l (op_source_ref op) with
  | None => (Err "quota_source_missing", l)
  | Some s =>
      if negb (bool_decide (src_fence s = op_fence op)) then (Err "quota_source_fence_changed", l)
      else
        let previous := led_operations l !! op_operation_id op in
        if from_option (λ p, negb (str_eqb (op_source_ref p) (op_source_ref op))
                             || negb (str_eqb (op_request_id p) (op_request_id op))) false previous
        then (Err "reset_operation_conflict", l)
        else match previous with
             | Some p => (Ok p, l)
             | None =>
                 (Ok op, with_operations (λ m, <[op_operation_id op := op]> m) (bump_revision l))
             end
  end.
