(* ===== verification/QuotaCycleValid.v ===== *)
(** * Account quota cycles: valid ledgers and the invariant

    What [validate] accepts, stated over the ledger's maps, the stronger invariant [Inv] of
    the ledgers the operations produce, and the one lemma through which every operation's
    update of a source (and of at most one of its events) preserves it. *)
From S2P Require Import Prelude RustStr Json QuotaCycle.
From Stdlib Require Import ZArith Lia Ascii.

Local Open Scope Z_scope.

(** ** What a valid ledger is *)
Record cycle_ok (l : QuotaCycleLedger) (s : QuotaCycleSource) (c : AccountQuotaCycle) : Prop := {
  co_stream : cyc_stream_incarnation c = led_stream_incarnation l;
  co_ref : cyc_source_ref c = src_source_ref s;
  co_epoch : cyc_source_epoch c = src_source_epoch s;
  co_bucket : cyc_bucket_id c = src_bucket_id s;
  co_id : cyc_cycle_id c ≠ "";
  co_sequence : cyc_sequence c ≠ 0;
  co_revision : cyc_revision c ≠ 0;
  co_starts : 0 ≤ cyc_starts_at_ms c ≤ cyc_observed_at_ms c;
  co_ends : ∀ e, cyc_ends_at_ms c = Some e → cyc_starts_at_ms c < e;
  co_event : ∃ ev, led_events l !! event_key (src_source_ref s) (cyc_event_id c) = Some ev
    ∧ ev_cycle_id ev = cyc_cycle_id c ∧ ev_effective_at_ms ev = cyc_starts_at_ms c
    ∧ ev_status ev ≠ Historical;
}.
Record source_ok (identity : string) (s : QuotaCycleSource) : Prop := {
  so_identity : identity ≠ "";
  so_ref : src_source_ref s ≠ "";
  so_provider : src_provider_type s ≠ "";
  so_bucket : src_bucket_id s ≠ "";
  so_epoch : src_source_epoch s ≠ 0;
  so_observed : 0 ≤ src_last_observed_at_ms s;
  so_boundary : ∀ t, src_next_boundary_ms s = Some t → 0 ≤ t;
}.
Record event_ok (s : QuotaCycleSource) (key : string) (ev : QuotaResetEvent) : Prop := {
  eo_id : ev_event_id ev ≠ "" ∧ str_len (ev_event_id ev) ≤ 256;
  eo_key : key = event_key (ev_source_ref ev) (ev_event_id ev);
  eo_bucket : ev_bucket_id ev = src_bucket_id s;
  eo_times : 0 ≤ ev_effective_at_ms ev ≤ ev_discovered_at_ms ev;
  eo_committed : ev_status ev = Committed → ev_cycle_id ev ≠ "";
  eo_historical : ev_status ev = Historical → ev_cycle_id ev = "";
}.

Lemma check_source_Ok identity s : check_source (identity, s) = Ok () ↔ source_ok identity s.
Proof.
  unfold check_source. rewrite fail_if_Ok, !orb_false_iff, !is_empty_false. split.
  - intros [[[[[[? ?] ?] ?] ?%Z.eqb_neq] ?%Z.ltb_ge] Hb]. split; try done.
    intros t Ht. rewrite Ht in Hb. simpl in Hb. by apply Z.ltb_ge.
  - intros []. split_and!; try done; [by apply Z.eqb_neq|by apply Z.ltb_ge|].
    destruct (src_next_boundary_ms s) as [t|]; [|done]. simpl. apply Z.ltb_ge. auto.
Qed.
Lemma str_eqb_negb a b : negb (str_eqb a b) = false ↔ a = b.
Proof. rewrite negb_false_iff. apply str_eqb_eq. Qed.
Lemma check_cycle_Ok l s :
  check_cycle l s = Ok () ↔ ∀ c, src_cycle s = Some c → cycle_ok l s c.
Proof.
  unfold check_cycle. destruct (src_cycle s) as [c|]; [|naive_solver]. rewrite bind_Ok. split.
  - intros ([] & H & (ev & Hev & Hs)%bind_Ok) ? [= <-].
    apply ok_or_Ok in Hev. apply fail_if_Ok in H, Hs.
    rewrite !orb_false_iff, !is_empty_false, !str_eqb_negb, !negb_false_iff, !Z.eqb_eq,
      !Z.eqb_neq, !Z.ltb_ge in H.
    destruct H as [[[[[[[[[? ?] ?] ?] ?] ?] ?] ?] ?] He].
    rewrite !orb_false_iff, str_eqb_negb, negb_false_iff, Z.eqb_eq, bool_decide_eq_false in Hs.
    destruct Hs as [[Hid Heff] Hst]. split; try done; [|by exists ev].
    intros e Ee. rewrite Ee in He. simpl in He. by apply Z.leb_gt.
  - intros Hc. destruct (Hc c eq_refl) as [? ? ? ? ? ? ? [? ?] He (ev & Hev & ? & ? & ?)].
    exists (). split.
    + apply fail_if_Ok. rewrite !orb_false_iff, !is_empty_false, !str_eqb_negb, !negb_false_iff,
        !Z.eqb_eq, !Z.eqb_neq, !Z.ltb_ge.
      split_and!; try done. destruct (cyc_ends_at_ms c) as [e|]; [|done]. simpl.
      apply Z.leb_gt. auto.
    + apply bind_Ok. exists ev. split; [by apply ok_or_Ok|]. apply fail_if_Ok.
      by rewrite !orb_false_iff, str_eqb_negb, negb_false_iff, Z.eqb_eq, bool_decide_eq_false.
Qed.
Lemma check_event_Ok l key ev :
  check_event l (key, ev) = Ok () ↔
  ∃ s, source l (ev_source_ref ev) = Some s ∧ event_ok s key ev.
Proof.
  assert (∀ s, fail_if (is_empty (ev_event_id ev) || (256 <? str_len (ev_event_id ev))
    || negb (str_eqb key (event_key (ev_source_ref ev) (ev_event_id ev)))
    || negb (str_eqb (ev_bucket_id ev) (src_bucket_id s))
    || (ev_effective_at_ms ev <? 0) || (ev_discovered_at_ms ev <? ev_effective_at_ms ev)
    || (bool_decide (ev_status ev = Committed) && is_empty (ev_cycle_id ev))
    || (bool_decide (ev_status ev = Historical) && negb (is_empty (ev_cycle_id ev))))
    "quota_event_invalid" = Ok () ↔ event_ok s key ev) as Hiff.
  { intros s. rewrite fail_if_Ok.
    rewrite !orb_false_iff, !andb_false_iff, !is_empty_false, !str_eqb_negb, !Z.ltb_ge.
    rewrite !bool_decide_eq_false, negb_false_iff, is_empty_true. split.
    - intros [[[[[[[? ?] ?] ?] ?] ?] Hc] Hh]. split; try done; naive_solver.
    - intros [[? ?] ? ? [? ?] Hc Hh]. split_and!; try done.
      + destruct (decide (ev_status ev = Committed)); naive_solver.
      + destruct (decide (ev_status ev = Historical)); naive_solver. }
  unfold check_event. rewrite bind_Ok. split.
  - intros (s & Hs%ok_or_Ok & H). exists s. split; [done|]. by apply Hiff.
  - intros (s & Hs & H). exists s. split; [by apply ok_or_Ok|]. by apply Hiff.
Qed.

Definition public_events_check (l : QuotaCycleLedger) : result string () :=
  for_each (λ '(id, time),
    fail_if (is_empty id || (64 <? str_len id) || (time <? 0) || negb (token_bytes id))
      "quota_public_event_invalid") (btree_entries (led_public_events l)).
Record Valid (l : QuotaCycleLedger) : Prop := {
  v_schema : led_schema_version l = QUOTA_CYCLE_SCHEMA;
  v_stream : led_stream_incarnation l ≠ "";
  v_sources k s : led_sources l !! k = Some s →
    source_ok k s ∧ ∀ c, src_cycle s = Some c → cycle_ok l s c;
  v_refs k1 s1 k2 s2 : led_sources l !! k1 = Some s1 → led_sources l !! k2 = Some s2 →
    src_source_ref s1 = src_source_ref s2 → k1 = k2;
  v_events key ev : led_events l !! key = Some ev →
    ∃ s, source l (ev_source_ref ev) = Some s ∧ event_ok s key ev;
  v_corrections c : c ∈ led_corrections l → check_correction l c = Ok ();
  v_distinct : NoDup (correction_identity <$> led_corrections l);
  v_chain : ∃ applied, try_fold chain_step ∅ (led_corrections l) = Ok applied
    ∧ ∀ key t, applied !! key = Some t →
        ∃ ev, led_events l !! key = Some ev ∧ ev_effective_at_ms ev = t;
  v_operations k op : led_operations l !! k = Some op →
    check_operation l (k, op) = Ok () ∧ check_receipt l op = Ok ();
  v_requests k1 op1 k2 op2 : led_operations l !! k1 = Some op1 → led_operations l !! k2 = Some op2 →
    op_request_id op1 = op_request_id op2 → k1 = k2;
  v_cursors : for_each validate_cursor [led_public_cursor l; led_public_status_cursor l] = Ok ();
  v_public : public_events_check l = Ok ();
}.

Lemma source_steps_Ok l :
  (∃ refs, try_fold (source_step l) ∅ (btree_entries (led_sources l)) = Ok refs) ↔
  (∀ k s, led_sources l !! k = Some s → source_ok k s ∧ ∀ c, src_cycle s = Some c → cycle_ok l s c)
  ∧ ∀ k1 s1 k2 s2, led_sources l !! k1 = Some s1 → led_sources l !! k2 = Some s2 →
      src_source_ref s1 = src_source_ref s2 → k1 = k2.
Proof.
  unfold source_step. setoid_rewrite (try_fold_guard
    (distinct_step check_source (λ e, src_source_ref e.2) "quota_source_invalid")
    (λ e, check_cycle l e.2)).
  pose proof (try_fold_distinct check_source (λ e, src_source_ref e.2) "quota_source_invalid"
    (btree_entries (led_sources l)) ∅) as Hd. rewrite NoDup_btree_fmap in Hd. split.
  - intros (refs & Hf & Hc). destruct (proj1 Hd ltac:(eauto)) as [Hs Hr]. split.
    + intros k s Hk%elem_of_btree_entries. split; [by apply check_source_Ok, Hs|].
      apply check_cycle_Ok. by apply (Hc (k, s)).
    + intros k1 s1 k2 s2. apply Hr.
  - intros [Hs Hr]. destruct (proj2 Hd) as [refs Hf].
    + split; [|intros k1 s1 k2 s2; apply Hr]. intros [k s] Hk%elem_of_btree_entries.
      split; [by apply check_source_Ok, Hs|set_solver].
    + exists refs. split; [done|]. intros [k s] Hk%elem_of_btree_entries.
      apply check_cycle_Ok. by apply (Hs k).
Qed.
Lemma operation_steps_Ok l :
  (∃ ids, try_fold (operation_step l) ∅ (btree_entries (led_operations l)) = Ok ids) ↔
  (∀ k op, led_operations l !! k = Some op →
     check_operation l (k, op) = Ok () ∧ check_receipt l op = Ok ())
  ∧ ∀ k1 op1 k2 op2, led_operations l !! k1 = Some op1 → led_operations l !! k2 = Some op2 →
      op_request_id op1 = op_request_id op2 → k1 = k2.
Proof.
  unfold operation_step. setoid_rewrite (try_fold_guard
    (distinct_step (check_operation l) (λ e, op_request_id e.2) "quota_reset_operation_invalid")
    (λ e, check_receipt l e.2)).
  pose proof (try_fold_distinct (check_operation l) (λ e, op_request_id e.2)
    "quota_reset_operation_invalid" (btree_entries (led_operations l)) ∅) as Hd.
  rewrite NoDup_btree_fmap in Hd. split.
  - intros (ids & Hf & Hc). destruct (proj1 Hd ltac:(eauto)) as [Hs Hr]. split.
    + intros k op Hk%elem_of_btree_entries. split; [by apply Hs|by apply (Hc (k, op))].
    + intros k1 op1 k2 op2. apply Hr.
  - intros [Hs Hr]. destruct (proj2 Hd) as [ids Hf].
    + split; [|intros k1 op1 k2 op2; apply Hr]. intros [k op] Hk%elem_of_btree_entries.
      split; [by apply Hs|set_solver].
    + exists ids. split; [done|]. intros [k op] Hk%elem_of_btree_entries. by apply (Hs k).
Qed.
Lemma correction_steps_Ok l seen applied :
  try_fold (correction_step l) (∅, ∅) (led_corrections l) = Ok (seen, applied) ↔
  try_fold (distinct_step (check_correction l) correction_identity "quota_correction_invalid")
    ∅ (led_corrections l) = Ok seen
  ∧ try_fold chain_step ∅ (led_corrections l) = Ok applied.
Proof. apply try_fold_pair. Qed.

Lemma validate_Ok l : validate l = Ok () ↔ Valid l.
Proof.
  unfold validate. split.
  - intros H. apply bind_Ok in H as ([] & Hsch%fail_if_Ok & H).
    apply bind_Ok in H as ([] & Hstr%fail_if_Ok & H).
    apply bind_Ok in H as (refs & Hsrc & H). apply bind_Ok in H as ([] & Hev & H).
    apply bind_Ok in H as ([seen applied] & Hcor & H).
    apply bind_Ok in H as ([] & Hch%fail_if_Ok & H). apply bind_Ok in H as (ids & Hop & H).
    apply bind_Ok in H as ([] & Hcur & Hpub).
    destruct (proj1 (source_steps_Ok l) ltac:(eauto)) as [? ?].
    destruct (proj1 (operation_steps_Ok l) ltac:(eauto)) as [? ?].
    apply correction_steps_Ok in Hcor as [Hd Hchain].
    destruct (proj1 (try_fold_distinct _ _ _ _ _) (ex_intro _ _ Hd)) as [Hck Hnd].
    split; try done.
    + by apply negb_false_iff, Z.eqb_eq in Hsch.
    + by apply is_empty_false.
    + intros key ev Hk. apply check_event_Ok.
      by apply (proj1 (for_each_btree (check_event l) _) Hev).
    + intros c Hc. by apply Hck.
    + exists applied. split; [done|]. intros key t Hk.
      apply not_true_iff_false in Hch. destruct (led_events l !! key) as [ev|] eqn:Ee.
      * exists ev. split; [done|]. destruct (Z.eqb_spec (ev_effective_at_ms ev) t) as [|Hne]; [done|].
        exfalso. apply Hch, existsb_exists. exists (key, t).
        split; [by apply list_elem_of_In, elem_of_btree_entries|].
        rewrite Ee. simpl. by rewrite (proj2 (Z.eqb_neq _ _)).
      * exfalso. apply Hch, existsb_exists. exists (key, t).
        split; [by apply list_elem_of_In, elem_of_btree_entries|]. by rewrite Ee.
  - intros [Hsch Hstr Hsrc Hrefs Hev Hck Hnd (applied & Hchain & Happ) Hop Hreq Hcur Hpub].
    rewrite Hsch. apply is_empty_false in Hstr. rewrite Hstr. simpl fail_if. cbn [mbind result_bind].
    destruct (proj2 (source_steps_Ok l) ltac:(eauto)) as [refs ->]. cbn [mbind result_bind].
    rewrite (proj2 (for_each_btree (check_event l) _)) by (intros; by apply check_event_Ok, Hev).
    cbn [mbind result_bind].
    destruct (proj2 (try_fold_distinct (check_correction l) correction_identity
      "quota_correction_invalid" (led_corrections l) ∅)) as [seen Hseen].
    { split; [|done]. intros c Hc. split; [by apply Hck|set_solver]. }
    rewrite (proj2 (correction_steps_Ok l seen applied)) by done. cbn [mbind result_bind snd].
    match goal with |- context [existsb ?f ?es] => destruct (existsb f es) eqn:Ex end.
    + exfalso. apply existsb_exists in Ex as ([key t] & Hin%list_elem_of_In%elem_of_btree_entries & Hb).
      destruct (Happ _ _ Hin) as (ev & Ee & Heff). rewrite Ee in Hb. simpl in Hb.
      by rewrite Heff, Z.eqb_refl in Hb.
    + simpl fail_if. cbn [mbind result_bind].
      destruct (proj2 (operation_steps_Ok l) ltac:(eauto)) as [ids ->]. cbn [mbind result_bind].
      rewrite Hcur. exact Hpub.
Qed.

(** ** The invariant of the operations

    Beyond validity: references carry no separator (they are hex), a source without a cycle
    has no events, and the events the ledger names itself are settled: the boundary a
    natural event was recorded for lies in the observed past and is not the cycle's end
    again, and an upstream start never lies after the cycle's own start. *)
Record event_settled (c : AccountQuotaCycle) (ev : QuotaResetEvent) : Prop := {
  es_natural b : ev_event_id ev = natural_id b →
    ev_effective_at_ms ev = b ∧ b ≤ cyc_observed_at_ms c ∧ cyc_ends_at_ms c ≠ Some b;
  es_upstream t : ev_event_id ev = upstream_id t →
    ev_effective_at_ms ev = t ∧ ev_status ev = Committed
    ∧ (ev_cycle_id ev = cyc_cycle_id c → cyc_event_id c = ev_event_id ev)
    ∧ (ev_cycle_id ev ≠ cyc_cycle_id c → t < cyc_starts_at_ms c);
}.
Record Inv (l : QuotaCycleLedger) : Prop := {
  inv_valid : Valid l;
  inv_colon k s : led_sources l !! k = Some s → contains_char ":" (src_source_ref s) = false;
  inv_unopened k s key ev : led_sources l !! k = Some s → src_cycle s = None →
    led_events l !! key = Some ev → ev_source_ref ev ≠ src_source_ref s;
  inv_settled k s c key ev : led_sources l !! k = Some s → src_cycle s = Some c →
    led_events l !! key = Some ev → ev_source_ref ev = src_source_ref s → event_settled c ev;
  inv_counters k s c : led_sources l !! k = Some s → src_cycle s = Some c →
    0 ≤ cyc_sequence c ∧ 0 ≤ cyc_revision c;
}.

Lemma find_source_Some l r k s :
  find_source l r = Some (k, s) → led_sources l !! k = Some s ∧ src_source_ref s = r.
Proof.
  unfold find_source. destruct (list_find _ _) as [[i [k' s']]|] eqn:E; [|done].
  intros [= -> ->]. apply list_find_Some in E as (Hi & Hr & _). split; [|done].
  by apply elem_of_btree_entries, list_elem_of_lookup_2 with i.
Qed.
Lemma find_source_Valid l k s :
  Valid l → led_sources l !! k = Some s → find_source l (src_source_ref s) = Some (k, s).
Proof.
  intros Hv Hk. unfold find_source.
  destruct (list_find _ _) as [[i [k' s']]|] eqn:E.
  - apply list_find_Some in E as (Hi & Hr & _).
    apply list_elem_of_lookup_2, elem_of_btree_entries in Hi.
    pose proof (v_refs l Hv _ _ _ _ Hi Hk Hr) as ->. simpl. by simplify_eq.
  - apply list_find_None in E. rewrite Forall_forall in E. exfalso.
    by apply (E (k, s)); [apply elem_of_btree_entries|].
Qed.
Lemma source_Some l r s :
  Valid l → source l r = Some s ↔ ∃ k, led_sources l !! k = Some s ∧ src_source_ref s = r.
Proof.
  intros Hv. unfold source. split.
  - destruct (find_source l r) as [[k s']|] eqn:E; [|done]. intros [= ->].
    exists k. by apply find_source_Some.
  - intros (k & Hk & <-). by rewrite (find_source_Valid l k s).
Qed.

Lemma event_key_inj r1 i1 r2 i2 :
  contains_char ":" r1 = false → contains_char ":" r2 = false →
  event_key r1 i1 = event_key r2 i2 → r1 = r2 ∧ i1 = i2.
Proof.
  unfold event_key. revert r2. induction r1 as [|a r1 IH]; intros [|b r2] H1 H2 Heq; simpl in *.
  - change (String ":" i1 = String ":" i2) in Heq. by injection Heq as ->.
  - change (String ":" i1 = String b (r2 +:+ ":" +:+ i2)) in Heq. by injection Heq as <- _.
  - change (String a (r1 +:+ ":" +:+ i1) = String ":" i2) in Heq. by injection Heq as -> _.
  - change (String a (r1 +:+ ":" +:+ i1) = String b (r2 +:+ ":" +:+ i2)) in Heq.
    injection Heq as -> Heq. apply orb_false_iff in H1 as [_ H1], H2 as [_ H2].
    destruct (IH r2 H1 H2 Heq) as [-> ->]. done.
Qed.
Lemma event_key_inj_id r i1 i2 : event_key r i1 = event_key r i2 → i1 = i2.
Proof.
  unfold event_key. induction r as [|a r IH]; intros Heq.
  - change (String ":" i1 = String ":" i2) in Heq. by injection Heq.
  - change (String a (r +:+ ":" +:+ i1) = String a (r +:+ ":" +:+ i2)) in Heq.
    injection Heq as Heq. auto.
Qed.

Record corrections_ok (l : QuotaCycleLedger) : Prop := {
  cs_check c : c ∈ led_corrections l → check_correction l c = Ok ();
  cs_distinct : NoDup (correction_identity <$> led_corrections l);
  cs_chain : ∃ applied, try_fold chain_step ∅ (led_corrections l) = Ok applied
    ∧ ∀ key t, applied !! key = Some t →
        ∃ ev, led_events l !! key = Some ev ∧ ev_effective_at_ms ev = t;
}.
Lemma corrections_ok_Valid l : Valid l → corrections_ok l.
Proof. intros []. by split. Qed.
Lemma corrections_ok_kept l l' :
  corrections_ok l → led_corrections l' = led_corrections l →
  (∀ key ev, led_events l !! key = Some ev →
     ∃ ev', led_events l' !! key = Some ev' ∧ ev_effective_at_ms ev' = ev_effective_at_ms ev) →
  corrections_ok l'.
Proof.
  intros [Hck Hnd (applied & Hc & Ha)] Heq Hev. split; rewrite Heq.
  - intros c Hin. pose proof (Hck c Hin) as H. unfold check_correction in *.
    apply fail_if_Ok in H. apply fail_if_Ok. rewrite !orb_false_iff in H |- *.
    destruct H as [[[[Hex ?] ?] ?] ?]. split_and!; try done.
    apply bool_decide_eq_false in Hex. apply bool_decide_eq_false.
    destruct (led_events l !! cor_event_key c) as [ev|] eqn:E; [|done].
    destruct (Hev _ _ E) as (ev' & -> & _). done.
  - done.
  - exists applied. split; [done|]. intros key t Hk.
    destruct (Ha _ _ Hk) as (ev & He & Ht). destruct (Hev _ _ He) as (ev' & He' & Ht').
    exists ev'. split; [done|]. congruence.
Qed.

(** What the operations do to a ledger: one source keeps its identity and gets new
    contents, at most one event of that source is written, corrections are set apart. *)
Record updates (l l' : QuotaCycleLedger) (k : string) (s s' : QuotaCycleSource) (key : string)
  : Prop := {
  up_schema : led_schema_version l' = led_schema_version l;
  up_stream : led_stream_incarnation l' = led_stream_incarnation l;
  up_operations : led_operations l' = led_operations l;
  up_cursor : led_public_cursor l' = led_public_cursor l;
  up_status_cursor : led_public_status_cursor l' = led_public_status_cursor l;
  up_public : led_public_events l' = led_public_events l;
  up_sources : led_sources l' = <[k := s']> (led_sources l);
  up_ref : src_source_ref s' = src_source_ref s;
  up_bucket : src_bucket_id s' = src_bucket_id s;
  up_source_ok : source_ok k s';
  up_key : ∃ id, key = event_key (src_source_ref s) id;
  up_events key' : key' ≠ key → led_events l' !! key' = led_events l !! key';
  up_old ev : led_events l !! key = Some ev → ∃ ev', led_events l' !! key = Some ev'
    ∧ ev_basis ev' = ev_basis ev ∧ (ev_status ev ≠ Historical → ev_status ev' ≠ Historical);
  up_new ev' : led_events l' !! key = Some ev' → led_events l !! key = Some ev'
    ∨ (event_ok s key ev' ∧ ev_source_ref ev' = src_source_ref s);
}.

Section update.
Context (l l' : QuotaCycleLedger) (k : string) (s s' : QuotaCycleSource) (key : string).
Context (Hinv : Inv l) (Hk : led_sources l !! k = Some s) (Hup : updates l l' k s s' key).
Let Hv : Valid l := inv_valid l Hinv.

Lemma update_lookup k2 s2 : led_sources l' !! k2 = Some s2 →
  (k2 = k ∧ s2 = s') ∨ (k2 ≠ k ∧ led_sources l !! k2 = Some s2
                        ∧ src_source_ref s2 ≠ src_source_ref s).
Proof.
  rewrite (up_sources _ _ _ _ _ _ Hup). intros [[-> ->]|[Hne H2]]%lookup_insert_Some; [by left|].
  right. split_and!; [done..|]. intros Heq. apply Hne. symmetry.
  by apply (v_refs l Hv _ _ _ _ H2 Hk).
Qed.
Lemma update_refs k1 s1 k2 s2 : led_sources l' !! k1 = Some s1 → led_sources l' !! k2 = Some s2 →
  src_source_ref s1 = src_source_ref s2 → k1 = k2.
Proof.
  intros [[-> ->]|(? & H1 & ?)]%update_lookup [[-> ->]|(? & H2 & ?)]%update_lookup Heq; [done|..].
  - rewrite (up_ref _ _ _ _ _ _ Hup) in Heq. congruence.
  - rewrite (up_ref _ _ _ _ _ _ Hup) in Heq. congruence.
  - by apply (v_refs l Hv _ _ _ _ H1 H2).
Qed.
(** Another source's event is not the one written. *)
Lemma update_foreign k2 s2 id : led_sources l !! k2 = Some s2 →
  src_source_ref s2 ≠ src_source_ref s →
  led_events l' !! event_key (src_source_ref s2) id = led_events l !! event_key (src_source_ref s2) id.
Proof.
  intros H2 Hne. apply (up_events _ _ _ _ _ _ Hup). intros Heq.
  destruct (up_key _ _ _ _ _ _ Hup) as [id' Hid]. rewrite Hid in Heq.
  apply event_key_inj in Heq as [? _]; [done|..]; by eapply inv_colon.
Qed.
Lemma update_event_source key' ev : led_events l' !! key' = Some ev →
  led_events l !! key' = Some ev
  ∨ (key' = key ∧ event_ok s key ev ∧ ev_source_ref ev = src_source_ref s).
Proof.
  intros H. destruct (decide (key' = key)) as [->|Hne].
  - destruct (up_new _ _ _ _ _ _ Hup ev H) as [|[]]; [by left|by right].
  - rewrite (up_events _ _ _ _ _ _ Hup) in H by done. by left.
Qed.
Lemma update_source r s0 : source l r = Some s0 →
  led_sources l' !! k = Some s' ∧
  ∃ k2 s2, led_sources l' !! k2 = Some s2 ∧ src_source_ref s2 = r ∧ src_bucket_id s2 = src_bucket_id s0.
Proof.
  intros (k0 & H0 & Hr)%(source_Some _ _ _ Hv).
  rewrite (up_sources _ _ _ _ _ _ Hup), lookup_insert_eq. split; [done|].
  destruct (decide (k0 = k)) as [->|Hne].
  - exists k, s'. rewrite lookup_insert_eq. simplify_eq.
    split; [done|]. by rewrite (up_ref _ _ _ _ _ _ Hup), (up_bucket _ _ _ _ _ _ Hup).
  - exists k0, s0. by rewrite lookup_insert_ne.
Qed.
Lemma update_receipt op : (∃ s0, source l (op_source_ref op) = Some s0) →
  check_receipt l op = Ok () → check_receipt l' op = Ok ().
Proof.
  unfold check_receipt. case_bool_decide; [|done]. intros [s0 Hs0] (ev & Hev & Hst)%bind_Ok.
  apply ok_or_Ok in Hev. apply fail_if_Ok, orb_false_iff in Hst as [Hb Hst].
  apply bool_decide_eq_false in Hst. apply bind_Ok.
  set (key' := event_key _ _) in *.
  assert (∃ ev', led_events l' !! key' = Some ev' ∧ ev_basis ev' = ev_basis ev
    ∧ (ev_status ev ≠ Historical → ev_status ev' ≠ Historical)) as (ev' & He' & Hb' & Hs').
  { destruct (decide (key' = key)) as [Heq|Hne].
    - rewrite Heq in *. by apply (up_old _ _ _ _ _ _ Hup).
    - exists ev. by rewrite (up_events _ _ _ _ _ _ Hup). }
  exists ev'. split; [by apply ok_or_Ok|]. apply fail_if_Ok, orb_false_iff.
  rewrite Hb'. split; [done|]. apply bool_decide_eq_false. auto.
Qed.
End update.

Section update_inv.
Context (l l' : QuotaCycleLedger) (k : string) (s s' : QuotaCycleSource) (key : string).
Context (Hinv : Inv l) (Hk : led_sources l !! k = Some s) (Hup : updates l l' k s s' key).
Context (Hcor : corrections_ok l') (Hcycle : ∀ c, src_cycle s' = Some c → cycle_ok l' s' c).

Lemma update_sources_ok k2 s2 : led_sources l' !! k2 = Some s2 →
  source_ok k2 s2 ∧ ∀ c, src_cycle s2 = Some c → cycle_ok l' s2 c.
Proof.
  intros [[-> ->]|(Hne & H2 & Hr)]%(update_lookup l l' k s s' key Hinv Hk Hup).
  - split; [apply (up_source_ok _ _ _ _ _ _ Hup)|done].
  - destruct (v_sources l (inv_valid l Hinv) _ _ H2) as [? Hc]. split; [done|].
    intros c Ec. destruct (Hc c Ec) as [? ? ? ? ? ? ? ? ? (ev & Hev & Hrest)].
    split; try done; [by rewrite (up_stream _ _ _ _ _ _ Hup)|].
    exists ev. split; [|done]. by rewrite (update_foreign l l' k s s' key Hinv Hk Hup k2).
Qed.
Lemma update_Valid : Valid l'.
Proof.
  pose proof (inv_valid l Hinv) as Hv.
  assert (∀ k1 s1 k2 s2, led_sources l' !! k1 = Some s1 → led_sources l' !! k2 = Some s2 →
    src_source_ref s1 = src_source_ref s2 → k1 = k2) as Hrefs
    by apply (update_refs l l' k s s' key Hinv Hk Hup).
  assert (∀ r s2 k2, led_sources l' !! k2 = Some s2 → src_source_ref s2 = r →
    source l' r = Some s2) as Hsrc.
  { intros r s2 k2 H2 <-. unfold source. unfold find_source.
    destruct (list_find _ _) as [[i [k3 s3]]|] eqn:E.
    - apply list_find_Some in E as (Hi & Hr & _).
      apply list_elem_of_lookup_2, elem_of_btree_entries in Hi.
      pose proof (Hrefs _ _ _ _ Hi H2 Hr) as ->. simpl. by simplify_eq.
    - apply list_find_None in E. rewrite Forall_forall in E. exfalso.
      by apply (E (k2, s2)); [apply elem_of_btree_entries|]. }
  destruct Hcor as [Hck Hnd Hch]. split; try done.
  - rewrite (up_schema _ _ _ _ _ _ Hup). apply (v_schema l Hv).
  - rewrite (up_stream _ _ _ _ _ _ Hup). apply (v_stream l Hv).
  - apply update_sources_ok.
  - intros key' ev [Hev|(-> & Hok & Hr)]%(update_event_source l l' k s s' key Hup).
    + destruct (v_events l Hv _ _ Hev) as (s0 & Hs0 & [? ? Hb ? ? ?]).
      destruct (update_source l l' k s s' key Hinv Hk Hup _ _ Hs0) as (_ & k2 & s2 & H2 & Hr2 & Hb2).
      exists s2. split; [by eapply Hsrc|]. split; try done. congruence.
    + exists s'. split.
      * apply (Hsrc _ _ k); [by rewrite (up_sources _ _ _ _ _ _ Hup), lookup_insert_eq|].
        by rewrite Hr, (up_ref _ _ _ _ _ _ Hup).
      * destruct Hok as [? ? Hb ? ? ?]. split; try done. rewrite (up_bucket _ _ _ _ _ _ Hup). done.
  - intros k2 op. rewrite (up_operations _ _ _ _ _ _ Hup). intros H2.
    destruct (v_operations l Hv _ _ H2) as [Ho Hr].
    assert (∃ s0, source l (op_source_ref op) = Some s0) as [s0 Hs0].
    { unfold check_operation in Ho. apply fail_if_Ok in Ho. rewrite !orb_false_iff in Ho.
      destruct Ho as [[[[[_ Ho] _] _] _] _]. apply bool_decide_eq_false in Ho.
      by apply not_eq_None_Some. }
    split; [|eapply update_receipt; eauto].
    destruct (update_source l l' k s s' key Hinv Hk Hup _ _ Hs0) as (_ & k3 & s3 & H3 & Hr3 & _).
    unfold check_operation in *. apply fail_if_Ok in Ho. apply fail_if_Ok.
    rewrite (bool_decide_eq_false_2 (source l' _ = None)) by (by rewrite (Hsrc _ _ _ H3 Hr3)).
    by rewrite (bool_decide_eq_false_2 (source l _ = None)) in Ho by (by rewrite Hs0).
  - intros k1 op1 k2 op2. rewrite (up_operations _ _ _ _ _ _ Hup). apply (v_requests l Hv).
  - rewrite (up_cursor _ _ _ _ _ _ Hup), (up_status_cursor _ _ _ _ _ _ Hup). apply (v_cursors l Hv).
  - unfold public_events_check. rewrite (up_public _ _ _ _ _ _ Hup). apply (v_public l Hv).
Qed.

Context (Hnone : src_cycle s' = None → ∀ key' ev, led_events l' !! key' = Some ev →
  ev_source_ref ev ≠ src_source_ref s).
Context (Hsettled : ∀ c key' ev, src_cycle s' = Some c → led_events l' !! key' = Some ev →
  ev_source_ref ev = src_source_ref s → event_settled c ev).
Context (Hcounters : ∀ c, src_cycle s' = Some c → 0 ≤ cyc_sequence c ∧ 0 ≤ cyc_revision c).
Lemma update_Inv : Inv l'.
Proof.
  split; [apply update_Valid|..].
  - intros k2 s2 [[-> ->]|(_ & H2 & _)]%(update_lookup l l' k s s' key Hinv Hk Hup).
    + rewrite (up_ref _ _ _ _ _ _ Hup). by eapply inv_colon.
    + by eapply inv_colon.
  - intros k2 s2 key' ev [[-> ->]|(_ & H2 & Hr)]%(update_lookup l l' k s s' key Hinv Hk Hup) Hn.
    + rewrite (up_ref _ _ _ _ _ _ Hup). by apply Hnone.
    + intros [Hev|(-> & _ & Hr')]%(update_event_source l l' k s s' key Hup); [|congruence].
      by eapply inv_unopened.
  - intros k2 s2 c key' ev [[-> ->]|(_ & H2 & Hr)]%(update_lookup l l' k s s' key Hinv Hk Hup) Hc.
    + rewrite (up_ref _ _ _ _ _ _ Hup). by apply Hsettled.
    + intros [Hev|(-> & _ & Hr')]%(update_event_source l l' k s s' key Hup) Hs; [|congruence].
      by eapply inv_settled.
  - intros k2 s2 c [[-> ->]|(_ & H2 & _)]%(update_lookup l l' k s s' key Hinv Hk Hup) Hc; [auto|].
    by eapply inv_counters.
Qed.
End update_inv.

(** The fields no operation on a source writes. *)
Record same_frame (l l' : QuotaCycleLedger) : Prop := {
  sf_schema : led_schema_version l' = led_schema_version l;
  sf_stream : led_stream_incarnation l' = led_stream_incarnation l;
  sf_operations : led_operations l' = led_operations l;
  sf_cursor : led_public_cursor l' = led_public_cursor l;
  sf_status_cursor : led_public_status_cursor l' = led_public_status_cursor l;
  sf_public : led_public_events l' = led_public_events l;
}.
Lemma updates_event l l' k s s' id ev :
  let key := event_key (src_source_ref s) id in
  same_frame l l' → led_sources l' = <[k := s']> (led_sources l) →
  led_events l' = <[key := ev]> (led_events l) →
  src_source_ref s' = src_source_ref s → src_bucket_id s' = src_bucket_id s → source_ok k s' →
  event_ok s key ev → ev_source_ref ev = src_source_ref s →
  (∀ old, led_events l !! key = Some old →
     ev_basis ev = ev_basis old ∧ (ev_status old ≠ Historical → ev_status ev ≠ Historical)) →
  updates l l' k s s' key.
Proof.
  intros key [] Hs He ? ? ? ? ? Hold. split; try done.
  - by exists id.
  - intros key' ?. rewrite He. by rewrite lookup_insert_ne.
  - intros old Ho. exists ev. rewrite He, lookup_insert_eq. by destruct (Hold _ Ho).
  - intros ev'. rewrite He, lookup_insert_eq. intros [= <-]. by right.
Qed.
Lemma updates_no_event l l' k s s' :
  same_frame l l' → led_sources l' = <[k := s']> (led_sources l) → led_events l' = led_events l →
  src_source_ref s' = src_source_ref s → src_bucket_id s' = src_bucket_id s → source_ok k s' →
  updates l l' k s s' (event_key (src_source_ref s) "").
Proof.
  intros [] Hs He ? ? ?. split; try done.
  - by exists "".
  - intros key' ?. by rewrite He.
  - intros old Ho. exists old. by rewrite He.
  - intros ev'. rewrite He. by left.
Qed.

(** An event of a source is stored under the source's key for its identifier. *)
Lemma event_at_key l k s id ev : Inv l → led_sources l !! k = Some s →
  led_events l !! event_key (src_source_ref s) id = Some ev →
  ev_source_ref ev = src_source_ref s ∧ ev_event_id ev = id
  ∧ event_ok s (event_key (src_source_ref s) id) ev.
Proof.
  intros Hi Hk He. destruct (v_events l (inv_valid l Hi) _ _ He) as (s0 & Hs0 & Hok).
  apply source_Some in Hs0 as (k0 & H0 & Hr0); [|by apply inv_valid].
  pose proof (eo_key _ _ _ Hok) as Hkey.
  apply event_key_inj in Hkey as [Hr ->]; [|by eapply inv_colon|rewrite <-Hr0; by eapply inv_colon].
  assert (k0 = k) as -> by (eapply (v_refs l (inv_valid l Hi)); eauto; congruence).
  by simplify_eq.
Qed.
(** A recorded upstream start is not after the current cycle's start. *)
Lemma upstream_le l k s c key ev t : Inv l → led_sources l !! k = Some s → src_cycle s = Some c →
  led_events l !! key = Some ev → ev_source_ref ev = src_source_ref s →
  ev_event_id ev = upstream_id t → t ≤ cyc_starts_at_ms c.
Proof.
  intros Hi Hk Hc He Hr Hid.
  destruct (es_upstream _ _ (inv_settled l Hi _ _ _ _ _ Hk Hc He Hr) t Hid) as (Heff & _ & Hsame & Hdiff).
  destruct (decide (ev_cycle_id ev = cyc_cycle_id c)) as [Heq|Hne]; [|specialize (Hdiff Hne); lia].
  destruct (v_sources l (inv_valid l Hi) _ _ Hk) as [_ Hok].
  destruct (co_event _ _ _ (Hok c Hc)) as (ev' & He' & _ & Heff' & _).
  destruct (v_events l (inv_valid l Hi) _ _ He) as (s0 & _ & Hok').
  rewrite (eo_key _ _ _ Hok'), Hr, <-Hsame in He by done. simplify_eq. lia.
Qed.
