(* ===== verification/QuotaCycleProofs.v ===== *)
(** * Account quota cycles: the operations

    Every operation preserves the invariant; the recursion of [observe] stops; the reachable
    ledgers under a monotone clock, and the properties of the component. *)
From S2P Require Import Prelude RustStr Json QuotaCycle QuotaCycleValid.
From Stdlib Require Import ZArith Lia Ascii.

Local Open Scope Z_scope.

(** ** The operations preserve the invariant *)
(** Only the contents of a source change, not its cycle's identity. *)
Lemma put_source_Inv l l' k s s' :
  Inv l → led_sources l !! k = Some s →
  same_frame l l' → led_sources l' = <[k := s']> (led_sources l) → led_events l' = led_events l →
  led_corrections l' = led_corrections l →
  src_source_ref s' = src_source_ref s → src_bucket_id s' = src_bucket_id s → source_ok k s' →
  (src_cycle s' = None → src_cycle s = None) →
  (∀ c', src_cycle s' = Some c' → ∃ c, src_cycle s = Some c ∧ cycle_ok l' s' c'
     ∧ (∀ ev, event_settled c ev → event_settled c' ev)
     ∧ 0 ≤ cyc_sequence c' ∧ 0 ≤ cyc_revision c') →
  Inv l'.
Proof.
  intros Hi Hk Hf Hs He Hc Hr Hb Hok Hn Hcy.
  eapply (update_Inv l l' k s s'); [done|done|by apply updates_no_event|..].
  - eapply corrections_ok_kept; [by apply corrections_ok_Valid, inv_valid|done|].
    intros key ev. rewrite He. eauto.
  - intros c' Hc'. by destruct (Hcy c' Hc') as (c & _ & ? & _).
  - intros Hn' key ev. rewrite He. intros Hev. by eapply inv_unopened; eauto.
  - intros c' key ev Hc'. rewrite He. intros Hev Hr'.
    destruct (Hcy c' Hc') as (c & Hc0 & _ & Hset & _). apply Hset. by eapply inv_settled.
  - intros c' Hc'. by destruct (Hcy c' Hc') as (c & _ & _ & _ & ?).
Qed.

(** The identifiers the ledger derives from a time. *)
Lemma natural_id_inj a b : natural_id a = natural_id b → a = b.
Proof. unfold natural_id. intros H. injection H as H. by apply pretty_Z_inj in H. Qed.
Lemma upstream_id_inj a b : upstream_id a = upstream_id b → a = b.
Proof. unfold upstream_id. intros H. injection H as H. by apply pretty_Z_inj in H. Qed.
(** An event identifier derived from a time names that time. *)
Record named_at (event_id : string) (t : Z) : Prop := {
  na_natural b : event_id = natural_id b → t = b;
  na_upstream b : event_id = upstream_id b → t = b;
}.
Definition id_ok (event_id : string) : Prop := event_id ≠ "" ∧ str_len event_id ≤ 256.

Section open_first_cycle.
Context (l : QuotaCycleLedger) (k : string) (s0 s : QuotaCycleSource).
Context (id event_id : string) (starts observed : Z) (ends : option Z) (basis : QuotaTimeBasis).
Context (Hinv : Inv l) (Hk : led_sources l !! k = Some s0) (Hnone : src_cycle s0 = None).
Context (Href : src_source_ref s = src_source_ref s0) (Hbucket : src_bucket_id s = src_bucket_id s0).
Context (Hok : source_ok k s) (Hid : id ≠ "") (Htimes : 0 ≤ starts ≤ observed).
Context (Hends : ∀ e, ends = Some e → starts < e) (Hevid : id_ok event_id).
Context (Hnat : ∀ b, event_id = natural_id b → starts = b) (Hup : ∀ t, event_id ≠ upstream_id t).

Lemma unopened_event key : led_events l !! event_key (src_source_ref s0) key = None.
Proof.
  destruct (led_events l !! _) as [ev|] eqn:E; [|done].
  destruct (event_at_key _ _ _ _ _ Hinv Hk E) as (Hr & _). by destruct (inv_unopened l Hinv _ _ _ _ Hk Hnone E).
Qed.
Lemma open_first_cycle_Inv : Inv (open_first_cycle l k s id starts ends basis observed event_id).
Proof.
  set (l' := open_first_cycle _ _ _ _ _ _ _ _ _).
  set (ev := mk_event event_id (src_source_ref s) (src_bucket_id s) starts observed basis Committed id).
  set (c := mk_cycle (led_stream_incarnation l) (src_source_ref s) (src_source_epoch s)
    (src_bucket_id s) id 1 1 starts ends basis observed event_id).
  assert (led_events l' = <[event_key (src_source_ref s0) event_id := ev]> (led_events l)) as Hev
    by by rewrite <-Href.
  eapply (update_Inv l l' k s0 (with_cycle (Some c) s)); [done|done| | |..].
  - apply (updates_event _ _ _ _ _ event_id ev); try done.
    + by destruct Hok.
    + destruct Hevid. split; try done. by rewrite <-Href.
    + by rewrite unopened_event.
  - eapply corrections_ok_kept; [by apply corrections_ok_Valid, inv_valid|done|].
    intros key old Ho. rewrite Hev. exists old. split; [|done].
    rewrite lookup_insert_ne; [done|]. intros <-. by rewrite unopened_event in Ho.
  - intros ? [= <-].
    assert (led_events l' !! event_key (src_source_ref s) event_id = Some ev) as Hl
      by (by rewrite Hev, Href, lookup_insert_eq).
    split; simpl; try done. exists ev. split; [exact Hl|done].
  - done.
  - intros ? key ev' [= <-]. rewrite Hev. intros [[<- <-]|[_ Ho]]%lookup_insert_Some Hr.
    + split; simpl; [|intros t Ht; by destruct (Hup t)].
      intros b Hb. pose proof (Hnat b Hb) as <-. split_and!; [done|lia|].
      intros ->. specialize (Hends _ eq_refl). lia.
    + by destruct (inv_unopened l Hinv _ _ _ _ Hk Hnone Ho).
  - intros ? [= <-]. simpl. lia.
Qed.
End open_first_cycle.

(** What a caller of [apply_reset] provides: a usable event named for its time, and a
    discovery time not before the current cycle was last observed. *)
Record reset_args (s : QuotaCycleSource) (event_id : string) (effective discovered : Z) : Prop := {
  ra_id : id_ok event_id;
  ra_times : 0 ≤ effective ≤ discovered;
  ra_named : named_at event_id effective;
  ra_upstream t : event_id = upstream_id t → ∃ c, src_cycle s = Some c ∧ cyc_starts_at_ms c < t;
  ra_clock c : src_cycle s = Some c → cyc_observed_at_ms c ≤ discovered;
}.
(** A drawn identifier: not empty, without separator, used nowhere in the ledger. *)
Record fresh (l : QuotaCycleLedger) (id : string) : Prop := {
  fr_nonempty : id ≠ "";
  fr_colon : contains_char ":" id = false;
  fr_cycles key ev : led_events l !! key = Some ev → ev_cycle_id ev ≠ id;
  fr_sources k s : led_sources l !! k = Some s → src_source_ref s ≠ id;
}.

Lemma settled_now s c event_id eff disc ev c' :
  reset_args s event_id eff disc → ev_event_id ev = event_id → ev_effective_at_ms ev = eff →
  eff ≤ cyc_observed_at_ms c' → cyc_ends_at_ms c' ≠ Some eff →
  (∀ t, event_id = upstream_id t → ev_status ev = Committed
     ∧ (ev_cycle_id ev = cyc_cycle_id c' ∧ cyc_event_id c' = event_id)) →
  src_cycle s = Some c → event_settled c' ev.
Proof.
  intros Ha Hid Heff Hobs Hends Hup Hc. destruct (ra_named _ _ _ _ Ha) as [Hn Hu]. split.
  - intros b Hb. rewrite Hid in Hb. pose proof (Hn b Hb) as <-. by rewrite Heff.
  - intros t Ht. rewrite Hid in Ht. pose proof (Hu t Ht) as <-.
    destruct (Hup eff Ht) as (? & Hcy & Hce). rewrite Hid, Hce. by split_and!.
Qed.

Section record_event.
Context (l : QuotaCycleLedger) (k : string) (s : QuotaCycleSource) (c : AccountQuotaCycle).
Context (id event_id : string) (eff disc : Z) (basis : QuotaTimeBasis).
Context (Hinv : Inv l) (Hk : led_sources l !! k = Some s) (Hc : src_cycle s = Some c).
Context (Hargs : reset_args s event_id eff disc) (Hid : fresh l id).
Context (Habs : led_events l !! event_key (src_source_ref s) event_id = None).

Lemma current_cycle_ok : source_ok k s ∧ cycle_ok l s c.
Proof. destruct (v_sources l (inv_valid l Hinv) _ _ Hk) as [Hs Hcy]. split; [done|auto]. Qed.

(** The parts shared by the three kinds of new event. *)
Lemma insert_event_Inv l' s' status cycle_id :
  let ev := mk_event event_id (src_source_ref s) (src_bucket_id s) eff disc basis status cycle_id in
  same_frame l l' → led_corrections l' = led_corrections l →
  led_sources l' = <[k := s']> (led_sources l) →
  led_events l' = <[event_key (src_source_ref s) event_id := ev]> (led_events l) →
  src_source_ref s' = src_source_ref s → src_bucket_id s' = src_bucket_id s → source_ok k s' →
  (status = Committed → cycle_id ≠ "") → (status = Historical → cycle_id = "") →
  (∃ c', src_cycle s' = Some c' ∧ cycle_ok l' s' c' ∧ event_settled c' ev
     ∧ (∀ key old, led_events l !! key = Some old → ev_source_ref old = src_source_ref s →
        event_settled c old → event_settled c' old)
     ∧ 0 ≤ cyc_sequence c' ∧ 0 ≤ cyc_revision c') →
  Inv l'.
Proof.
  intros ev Hf Hcs Hs He Hr Hb Hok Hst Hh (c' & Hc' & Hcok & Hev & Hold & Hn).
  destruct (ra_id _ _ _ _ Hargs) as [??]. pose proof (ra_times _ _ _ _ Hargs).
  eapply (update_Inv l l' k s s'); [done|done|eapply updates_event; [done..|]| |..].
  - by rewrite Habs.
  - eapply corrections_ok_kept; [by apply corrections_ok_Valid, inv_valid|done|].
    intros key old Ho. rewrite He. exists old. split; [|done].
    rewrite lookup_insert_ne; [done|]. intros <-. by rewrite Habs in Ho.
  - intros ? ?. by simplify_eq.
  - by rewrite Hc'.
  - intros ? key old ?. simplify_eq. rewrite He. intros [[<- <-]|[_ Ho]]%lookup_insert_Some Hrr; [done|].
    apply (Hold key old); [done..|]. by eapply inv_settled.
  - intros ? ?. by simplify_eq.
Qed.
Lemma record_event_Inv b l' :
  record_event id l k s c (src_source_ref s) event_id eff disc basis = (Ok b, l') → Inv l'.
Proof.
  destruct current_cycle_ok as [Hs Hcy]. pose proof (co_starts _ _ _ Hcy) as Hst.
  pose proof (inv_counters l Hinv _ _ _ Hk Hc) as [Hseq Hrev].
  pose proof (ra_times _ _ _ _ Hargs) as Ht. pose proof (ra_clock _ _ _ _ Hargs c Hc) as Hclock.
  assert (led_sources l = <[k := s]> (led_sources l)) as Hsame by by rewrite insert_id.
  unfold record_event. destruct (Z.ltb_spec (cyc_starts_at_ms c) eff) as [Hlt|Hge].
  - destruct (checked_u64 _) as [seq|] eqn:Eseq; [|done].
    apply checked_Some in Eseq as [-> ?]. intros [= <- <-].
    eapply insert_event_Inv; [done|done|reflexivity|reflexivity|done|done|by destruct Hs| | |].
    + intros _. apply (fr_nonempty _ _ Hid).
    + done.
    + eexists. split; [reflexivity|]. split_and!; simpl; [| | |lia|lia].
      * destruct Hcy. split; simpl; try done; [apply (fr_nonempty _ _ Hid)|lia| |].
        -- intros e. destruct (cyc_ends_at_ms c) as [e0|]; [simpl|done].
           destruct (Z.ltb_spec eff e0); [by intros [= <-]|done].
        -- eexists. rewrite lookup_insert_eq. by split_and!.
      * apply (settled_now s c event_id eff disc); try done; simpl; [lia|].
        destruct (cyc_ends_at_ms c) as [e0|]; [simpl|done].
        destruct (Z.ltb_spec eff e0); [intros [= ->]; lia|done].
      * intros key old Ho Hr Hset. pose proof (fr_cycles _ _ Hid _ _ Ho) as Hne. split; simpl.
        -- intros b Hb. destruct (es_natural _ _ Hset b Hb) as (? & ? & He).
           split_and!; [done|lia|]. destruct (cyc_ends_at_ms c) as [e0|]; [simpl|done].
           destruct (_ <? _); [congruence|done].
        -- intros t Hti. destruct (es_upstream _ _ Hset t Hti) as (? & ? & _ & _).
           pose proof (upstream_le _ _ _ _ _ _ _ Hinv Hk Hc Ho Hr Hti).
           split_and!; [done|done|done|lia].
  - assert (∀ t, event_id ≠ upstream_id t) as Hnu.
    { intros t Hti. destruct (ra_upstream _ _ _ _ Hargs t Hti) as (? & ? & ?).
      destruct (ra_named _ _ _ _ Hargs) as [_ Hu]. specialize (Hu t Hti). simplify_eq. lia. }
    assert (cyc_ends_at_ms c ≠ Some eff) as Hne.
    { intros He. pose proof (co_ends _ _ _ Hcy _ He). lia. }
    assert (∀ l', led_stream_incarnation l' = led_stream_incarnation l →
      (∃ ev, led_events l' = <[event_key (src_source_ref s) event_id := ev]> (led_events l)) →
      cycle_ok l' s c) as Hcy'.
    { intros l0 Hstr [ev Hev]. destruct Hcy as [? ? ? ? ? ? ? ? ? (ev0 & He0 & Hrest)].
      split; try done; [by rewrite Hstr|]. exists ev0. split; [|done]. rewrite Hev, lookup_insert_ne; [done|].
      intros Hkey. rewrite Hkey in Habs. by rewrite He0 in Habs. }
    destruct (Z.ltb_spec eff (cyc_starts_at_ms c)) as [Hlt|Hge']; intros [= <- <-];
      (eapply insert_event_Inv; [done|done|exact Hsame|reflexivity|done|done|done| | |]);
      try done; try (intros _; apply (co_id _ _ _ Hcy));
      (exists c; split_and!; [done|apply Hcy'; [done|by eexists]| |done|done|done]);
      (eapply settled_now; try done; [simpl; lia|]);
      intros t Hti; by destruct (Hnu t).
Qed.
End record_event.

Lemma max_of_ge l x b : x ∈ l → max_of l = Some b → x ≤ b.
Proof.
  revert b. induction l as [|y l IH]; intros b Hx; [inversion Hx|]. simpl.
  intros [= <-]. apply elem_of_cons in Hx as [->|Hx].
  - destruct (max_of l); simpl; lia.
  - destruct (max_of l) as [m|] eqn:E; simpl; [specialize (IH m Hx eq_refl); lia|].
    exfalso. destruct l; [inversion Hx|done].
Qed.
(** A correction keeps the cycle's start after every committed start of an earlier cycle. *)
Lemma earlier_boundary_lt l r c key ev eff :
  led_events l !! key = Some ev → ev_source_ref ev = r → ev_status ev = Committed →
  ev_cycle_id ev ≠ cyc_cycle_id c → ev_effective_at_ms ev < cyc_starts_at_ms c →
  from_option (λ b, eff <=? b) false (earlier_boundary l r c) = false →
  ev_effective_at_ms ev < eff.
Proof.
  intros He Hr Hs Hid Hlt. unfold earlier_boundary.
  set (times := ev_effective_at_ms <$> _).
  assert (ev_effective_at_ms ev ∈ times) as Hin.
  { apply list_elem_of_fmap. exists ev. split; [done|]. apply list_elem_of_filter.
    split; [done|]. apply elem_of_btree_values. by exists key. }
  destruct (max_of times) as [b|] eqn:E; simpl.
  - intros Hle%Z.leb_gt. pose proof (max_of_ge _ _ _ Hin E). lia.
  - intros _. exfalso. destruct times; [inversion Hin|done].
Qed.
Lemma corrections_ok_append l l' cor previous :
  corrections_ok l → led_events l !! cor_event_key cor = Some previous →
  cor_previous_effective_at_ms cor = ev_effective_at_ms previous →
  0 ≤ ev_effective_at_ms previous → 0 ≤ cor_effective_at_ms cor ≤ cor_discovered_at_ms cor →
  ev_effective_at_ms previous ≠ cor_effective_at_ms cor →
  correction_identity cor ∉ correction_identity <$> led_corrections l →
  led_corrections l' = led_corrections l ++ [cor] →
  (∃ ev, led_events l' = <[cor_event_key cor := ev]> (led_events l) ∧ ev_effective_at_ms ev =
     if cor_applied cor then cor_effective_at_ms cor else ev_effective_at_ms previous) →
  corrections_ok l'.
Proof.
  intros [Hck Hnd (applied & Hch & Happ)] Hprev Hpe H0 Ht Hne Hnew Hcs (ev & Hev & Heff).
  assert (∀ k0, is_Some (led_events l !! k0) → led_events l' !! k0 ≠ None) as Hsome.
  { intros k0 [ev0 He0]. rewrite Hev. destruct (decide (cor_event_key cor = k0)) as [->|].
    - by rewrite lookup_insert_eq.
    - by rewrite lookup_insert_ne, He0. }
  split.
  - intros c0. rewrite Hcs, elem_of_app, list_elem_of_singleton. intros [Hin| ->].
    + specialize (Hck c0 Hin). unfold check_correction in *. apply fail_if_Ok.
      apply fail_if_Ok in Hck. rewrite !orb_false_iff in Hck |- *.
      destruct Hck as [[[[Hx ?] ?] ?] ?]. split_and!; try done.
      apply bool_decide_eq_false. apply Hsome. by apply bool_decide_eq_false, not_eq_None_Some in Hx.
    + unfold check_correction. apply fail_if_Ok. rewrite !orb_false_iff, Hpe.
      rewrite !Z.ltb_ge, Z.eqb_neq, bool_decide_eq_false. split_and!; try lia. apply Hsome. by eexists.
  - rewrite Hcs, fmap_app. apply NoDup_app. split_and!; [done| |apply NoDup_singleton].
    intros x Hx Hl. apply list_elem_of_singleton in Hl as ->. done.
  - rewrite Hcs, try_fold_app, Hch. cbn [mbind result_bind try_fold]. unfold chain_step.
    destruct (cor_applied cor); cbn [mbind result_bind].
    + destruct (applied !! cor_event_key cor) as [t|] eqn:Et; simpl.
      * destruct (Happ _ _ Et) as (ev0 & He0 & <-). rewrite Hprev in He0. simplify_eq.
        rewrite Hpe, Z.eqb_refl. simpl. eexists. split; [done|]. intros k0 t0.
        intros [[<- <-]|[? H]]%lookup_insert_Some; rewrite Hev; [rewrite lookup_insert_eq; eauto|].
        rewrite lookup_insert_ne by done. by apply Happ.
      * eexists. split; [done|]. intros k0 t0.
        intros [[<- <-]|[? H]]%lookup_insert_Some; rewrite Hev; [rewrite lookup_insert_eq; eauto|].
        rewrite lookup_insert_ne by done. by apply Happ.
    + exists applied. split; [done|]. intros k0 t0 H. destruct (Happ _ _ H) as (ev0 & He0 & <-).
      rewrite Hev. destruct (decide (cor_event_key cor = k0)) as [<-|].
      * rewrite lookup_insert_eq. exists ev. simplify_eq. done.
      * rewrite lookup_insert_ne by done. eauto.
Qed.

Section correct_event.
Context (l : QuotaCycleLedger) (k : string) (s : QuotaCycleSource) (c : AccountQuotaCycle).
Context (event_id : string) (previous : QuotaResetEvent) (eff disc : Z) (basis : QuotaTimeBasis).
Context (Hinv : Inv l) (Hk : led_sources l !! k = Some s) (Hc : src_cycle s = Some c).
Context (Hargs : reset_args s event_id eff disc).
Context (Hprev : led_events l !! event_key (src_source_ref s) event_id = Some previous).

(** An event the ledger names is recorded with its own time, so only the events of other
    names are ever corrected. *)
Lemma corrected_external : ev_effective_at_ms previous ≠ eff →
  (∀ b, event_id ≠ natural_id b) ∧ (∀ t, event_id ≠ upstream_id t).
Proof.
  intros Hne. destruct (event_at_key _ _ _ _ _ Hinv Hk Hprev) as (Hr & Hid & _).
  pose proof (inv_settled l Hinv _ _ _ _ _ Hk Hc Hprev Hr) as [Hn Hu].
  destruct (ra_named _ _ _ _ Hargs) as [Hn' Hu'].
  split; intros b Hb; apply Hne; rewrite Hb in Hid.
  - destruct (Hn b Hid) as (-> & _). by rewrite (Hn' b Hb).
  - destruct (Hu b Hid) as (-> & _). by rewrite (Hu' b Hb).
Qed.
(** The parts shared by an applied correction and one kept for reconciliation. *)
Lemma correct_Inv l' s' ev' cor :
  ev_effective_at_ms previous ≠ eff →
  ev_event_id ev' = ev_event_id previous → ev_source_ref ev' = ev_source_ref previous →
  ev_bucket_id ev' = ev_bucket_id previous → ev_basis ev' = ev_basis previous →
  0 ≤ ev_effective_at_ms ev' ≤ ev_discovered_at_ms ev' →
  (ev_status ev' = ev_status previous ∨ ev_status ev' = NeedsReconcile) →
  ev_cycle_id ev' = ev_cycle_id previous →
  cor_event_key cor = event_key (src_source_ref s) event_id →
  cor_previous_effective_at_ms cor = ev_effective_at_ms previous →
  cor_effective_at_ms cor = eff → cor_discovered_at_ms cor = disc →
  ev_effective_at_ms ev' = (if cor_applied cor then eff else ev_effective_at_ms previous) →
  correction_identity cor ∉ correction_identity <$> led_corrections l →
  same_frame l l' → led_corrections l' = led_corrections l ++ [cor] →
  led_sources l' = <[k := s']> (led_sources l) →
  led_events l' = <[event_key (src_source_ref s) event_id := ev']> (led_events l) →
  src_source_ref s' = src_source_ref s → src_bucket_id s' = src_bucket_id s → source_ok k s' →
  (∃ c', src_cycle s' = Some c' ∧ cycle_ok l' s' c'
     ∧ (∀ key old, led_events l !! key = Some old → ev_source_ref old = src_source_ref s →
        ev_event_id old ≠ event_id → event_settled c old → event_settled c' old)
     ∧ 0 ≤ cyc_sequence c' ∧ 0 ≤ cyc_revision c') →
  Inv l'.
Proof.
  intros Hne Hi Hr Hb Hba Ht Hst Hcid Hck Hcp Hce Hcd Heff Hnew Hf Hcs Hs He Hr' Hb' Hok
    (c' & Hc' & Hcok & Hold & Hn).
  destruct (event_at_key _ _ _ _ _ Hinv Hk Hprev) as (Hpr & Hpi & Hpok).
  destruct (corrected_external Hne) as [Hxn Hxu]. pose proof (ra_times _ _ _ _ Hargs).
  pose proof (eo_times _ _ _ Hpok). destruct Hpok as [? Hpk ? ? Hpc Hph].
  eapply (update_Inv l l' k s s'); [done|done|eapply (updates_event _ _ _ _ _ event_id ev'); try done| |..].
  - split; try congruence.
    + destruct Hst as [Hst|Hst]; rewrite Hst, Hcid; [done|done].
    + destruct Hst as [Hst|Hst]; rewrite Hst, Hcid; [done|done].
  - congruence.
  - intros old Ho. assert (old = previous) as -> by congruence. split; [done|].
    destruct Hst as [Hst|Hst]; rewrite Hst; done.
  - eapply (corrections_ok_append l l' cor previous); try done;
      [by apply corrections_ok_Valid, inv_valid|by rewrite Hck|lia|by rewrite Hce, Hcd|by rewrite Hce|].
    rewrite Hck, Hce. by exists ev'.
  - intros ? ?. by simplify_eq.
  - by rewrite Hc'.
  - intros ? key old ?. simplify_eq. rewrite He.
    intros [[<- <-]|[Hkey Ho]]%lookup_insert_Some Hrr.
    + split; [intros b Hb0; destruct (Hxn b)|intros t Ht0; destruct (Hxu t)]; congruence.
    + apply (Hold key old); [done..| |by eapply inv_settled]. intros Hoi. apply Hkey.
      destruct (v_events l (inv_valid l Hinv) _ _ Ho) as (s0 & _ & Hok0).
      by rewrite (eo_key _ _ _ Hok0), Hrr, Hoi.
  - intros ? ?. by simplify_eq.
Qed.
End correct_event.

Lemma correct_event_Inv l k s c event_id previous eff disc basis b l' :
  Inv l → led_sources l !! k = Some s → src_cycle s = Some c →
  reset_args s event_id eff disc →
  led_events l !! event_key (src_source_ref s) event_id = Some previous →
  correct_event l k s c (src_source_ref s) event_id previous eff disc basis = (Ok b, l') → Inv l'.
Proof.
  intros Hinv Hk Hc Hargs Hprev. unfold correct_event.
  destruct (Z.eqb_spec (ev_effective_at_ms previous) eff) as [|Hne]; [by intros [= _ <-]|].
  set (cor := mk_correction _ _ _ _ _).
  destruct (existsb _ _) eqn:Edup; [by intros [= _ <-]|].
  assert (correction_identity cor ∉ correction_identity <$> led_corrections l) as Hnew.
  { intros (c0 & Hid & Hin)%list_elem_of_fmap. apply not_true_iff_false in Edup. apply Edup.
    apply existsb_exists. exists c0. split; [by apply list_elem_of_In|].
    by apply bool_decide_eq_true. }
  destruct (v_sources l (inv_valid l Hinv) _ _ Hk) as [Hs Hcy]. specialize (Hcy c Hc).
  pose proof (inv_counters l Hinv _ _ _ Hk Hc) as [Hseq Hrev].
  destruct (event_at_key _ _ _ _ _ Hinv Hk Hprev) as (Hpr & Hpi & Hpok).
  destruct (may_apply_correction _ _ _ _ _ _) eqn:Eapp; cbn [negb]; intros [= <- <-].
  - unfold may_apply_correction in Eapp. rewrite negb_true_iff, !orb_false_iff in Eapp.
    destruct Eapp as [[[Hid%str_eqb_negb Hev%str_eqb_negb] Hend%Z.leb_gt] Hearlier].
    match goal with |- Inv (bump_revision (put_source k ?s' (with_events (λ m, <[_ := ?ev']> m) _))) =>
      apply (correct_Inv l k s c event_id previous eff disc Hinv Hk Hc Hargs Hprev _ s' ev' cor)
    end; try done; try (by destruct Hs); [apply (ra_times _ _ _ _ Hargs)|by left|].
    eexists. split; [reflexivity|]. split_and!; simpl; [| |lia|width_lia].
    + destruct Hcy as [? ? ? ? ? ? ? [? ?] He (ev0 & He0 & ? & ? & ?)].
      pose proof (ra_times _ _ _ _ Hargs).
      split; simpl; try done; [width_lia|lia| |].
      * intros e Ee. rewrite Ee in Hend. done.
      * rewrite Hev. rewrite lookup_insert_eq. eexists. split; [done|]. simpl.
        rewrite Hev in He0. by simplify_eq.
    + intros key old Ho Hr Hoid Hset. split; simpl.
      * intros b Hb. destruct (es_natural _ _ Hset b Hb) as (? & ? & ?). split_and!; [done|lia|done].
      * intros t Ht. destruct (es_upstream _ _ Hset t Ht) as (Heff & Hst & Hsame & Hdiff).
        split_and!; [done..|]. intros Hne'. rewrite <-Heff.
        eapply earlier_boundary_lt; try done. rewrite Heff. auto.
  - match goal with |- Inv (bump_revision (with_events (λ m, <[_ := ?ev']> m) _)) =>
      apply (correct_Inv l k s c event_id previous eff disc Hinv Hk Hc Hargs Hprev _ s ev' cor)
    end; try done; [apply (eo_times _ _ _ Hpok)|by right|by simpl; rewrite insert_id|].
    exists c. split; [done|]. split_and!; [|done..].
    destruct Hcy as [? ? ? ? ? ? ? ? ? (ev0 & He0 & Hrest)].
    split; try done. simpl. destruct (decide (cyc_event_id c = event_id)) as [Heq|Hne'].
    + rewrite Heq, lookup_insert_eq. eexists. split; [done|]. simpl. rewrite Heq in He0.
      simplify_eq. by destruct Hrest as (? & ? & ?).
    + exists ev0. split; [|done]. rewrite lookup_insert_ne; [done|].
      intros Hkey. by apply event_key_inj_id in Hkey.
Qed.

(** What a caller of [apply_reset] is responsible for; the rest it checks itself. *)
Record caller_args (s : QuotaCycleSource) (event_id : string) (effective discovered : Z) : Prop := {
  ca_named : named_at event_id effective;
  ca_upstream t : event_id = upstream_id t → ∃ c, src_cycle s = Some c ∧ cyc_starts_at_ms c < t;
  ca_clock c : src_cycle s = Some c → cyc_observed_at_ms c ≤ discovered;
}.
Lemma apply_reset_checks event_id eff disc :
  is_empty event_id || (256 <? str_len event_id) || (eff <? 0) || (disc <? eff) = false →
  id_ok event_id ∧ 0 ≤ eff ≤ disc.
Proof.
  rewrite !orb_false_iff, is_empty_false, !Z.ltb_ge. intros [[[? ?] ?] ?]. by split; [split|].
Qed.
Lemma apply_reset_Inv id l r fence event_id eff disc basis b l' :
  Inv l → fresh l id → (∀ s, source l r = Some s → caller_args s event_id eff disc) →
  apply_reset id l r fence event_id eff disc basis = (Ok b, l') → Inv l'.
Proof.
  intros Hinv Hid Hargs. unfold apply_reset.
  destruct (_ || _ || _ || _) eqn:Echk; [done|]. apply apply_reset_checks in Echk as [Hok Ht].
  destruct (find_source l r) as [[k s]|] eqn:Ef; [|done].
  assert (source l r = Some s) as Hsrc by (unfold source; by rewrite Ef).
  destruct (Hargs s Hsrc) as [Hn Hu Hcl]. apply find_source_Some in Ef as [Hk Hr].
  case_bool_decide; cbn [negb]; [|done]. destruct (src_cycle s) as [c|] eqn:Ec.
  - assert (reset_args s event_id eff disc) as Ha by (split; try done; by rewrite Ec).
    rewrite <-Hr. destruct (led_events l !! _) as [previous|] eqn:Ep.
    + by apply correct_event_Inv.
    + by apply (record_event_Inv l k s c id event_id).
  - intros [= _ <-]. destruct (v_sources l (inv_valid l Hinv) _ _ Hk) as [Hs _].
    eapply open_first_cycle_Inv; try done; [apply (fr_nonempty _ _ Hid)| |apply Hn|].
    + intros e. destruct (src_next_boundary_ms s) as [e0|]; [simpl|done].
      destruct (Z.ltb_spec eff e0); [by intros [= <-]|done].
    + intros t Hti. destruct (Hu t Hti) as (? & ? & _). congruence.
Qed.

Lemma fresh_step l l' id :
  (∀ key ev, led_events l' !! key = Some ev →
     led_events l !! key = Some ev ∨ ev_cycle_id ev ≠ id) →
  (∀ k s, led_sources l' !! k = Some s →
     ∃ k0 s0, led_sources l !! k0 = Some s0 ∧ src_source_ref s = src_source_ref s0) →
  fresh l id → fresh l' id.
Proof.
  intros He Hs [? ? Hc Hr]. split; [done..| |].
  - intros key ev Hev. destruct (He _ _ Hev) as [H|H]; [by eapply Hc|done].
  - intros k s Hk. destruct (Hs _ _ Hk) as (k0 & s0 & H0 & ->). by eapply Hr.
Qed.
Lemma fresh_insert l l' k s s' key ev id :
  led_sources l !! k = Some s → fresh l id →
  led_sources l' = <[k := s']> (led_sources l) → led_events l' = <[key := ev]> (led_events l) →
  src_source_ref s' = src_source_ref s → ev_cycle_id ev ≠ id → fresh l' id.
Proof.
  intros Hk Hf Hs He Hr Hid. revert Hf. apply fresh_step.
  - intros key' ev'. rewrite He. intros [[_ <-]|[_ ?]]%lookup_insert_Some; [by right|by left].
  - intros k' s0. rewrite Hs. intros [[<- <-]|[_ ?]]%lookup_insert_Some; eauto.
Qed.
(** An application consumes only the identifier it is given. *)
Lemma apply_reset_fresh id id' l r fence event_id eff disc basis b l' :
  Inv l → fresh l id' → id ≠ id' →
  apply_reset id l r fence event_id eff disc basis = (Ok b, l') → fresh l' id'.
Proof.
  intros Hinv Hf Hne. unfold apply_reset. destruct (_ || _ || _ || _); [done|].
  destruct (find_source l r) as [[k s]|] eqn:Ef; [|done].
  apply find_source_Some in Ef as [Hk Hr]. case_bool_decide; cbn [negb]; [|done].
  assert (led_sources l = <[k := s]> (led_sources l)) as Hsame by by rewrite insert_id.
  destruct (src_cycle s) as [c|] eqn:Ec.
  - destruct (v_sources l (inv_valid l Hinv) _ _ Hk) as [_ Hcy].
    destruct (co_event _ _ _ (Hcy c Ec)) as (ev0 & He0 & Hcid & _).
    pose proof (fr_cycles _ _ Hf _ _ He0) as Hcne. rewrite Hcid in Hcne.
    destruct (led_events l !! event_key r event_id) as [previous|] eqn:Ep.
    + pose proof (fr_cycles _ _ Hf _ _ Ep) as Hpne. unfold correct_event.
      destruct (ev_effective_at_ms previous =? eff); [by intros [= _ <-]|]. destruct (existsb _ _); [by intros [= _ <-]|].
      destruct (may_apply_correction _ _ _ _ _ _); cbn [negb]; intros [= <- <-];
        (eapply fresh_insert;
          [exact Hk|exact Hf|first [reflexivity|exact Hsame]|reflexivity|done|try done]).
    + unfold record_event. destruct (cyc_starts_at_ms c <? eff); [destruct (checked_u64 _); [|done]
        |destruct (eff <? cyc_starts_at_ms c)];
        intros [= <- <-]; (eapply fresh_insert;
          [exact Hk|exact Hf|first [reflexivity|exact Hsame]|reflexivity|done|try done]).
      apply not_eq_sym, (fr_nonempty _ _ Hf).
  - intros [= _ <-]. by eapply fresh_insert; [exact Hk|exact Hf|reflexivity..|].
Qed.

(** A new event after the current start opens the next cycle there. *)
Lemma apply_reset_advances id l k s c fence event_id eff disc basis b l' :
  Inv l → led_sources l !! k = Some s → src_cycle s = Some c →
  led_events l !! event_key (src_source_ref s) event_id = None → cyc_starts_at_ms c < eff →
  apply_reset id l (src_source_ref s) fence event_id eff disc basis = (Ok b, l') →
  b = true ∧ src_fence s = fence ∧ ∃ c', led_sources l' = <[k := with_cycle (Some c') s]> (led_sources l)
    ∧ cyc_starts_at_ms c' = eff ∧ cyc_observed_at_ms c' = disc
    ∧ cyc_sequence c' = cyc_sequence c + 1
    ∧ cyc_ends_at_ms c' = (e ← cyc_ends_at_ms c; if eff <? e then Some e else None).
Proof.
  intros Hinv Hk Hc Habs Hlt. unfold apply_reset. destruct (_ || _ || _ || _); [done|].
  rewrite (find_source_Valid l k s) by (done || by apply inv_valid).
  case_bool_decide; cbn [negb]; [|done]. rewrite Hc, Habs. unfold record_event.
  rewrite (proj2 (Z.ltb_lt _ _)) by done.
  destruct (checked_u64 _) as [seq|] eqn:Eseq; [|done]. apply checked_Some in Eseq as [-> _].
  intros [= <- <-]. split_and!; [done|done|]. eexists. split; [reflexivity|]. done.
Qed.

(** ** Observations *)
Lemma inferred_start_Ok o st : inferred_start o = Ok st →
  0 ≤ obs_observed_at_ms o < obs_ends_at_ms o ∧ obs_bucket_id o ≠ ""
  ∧ ∀ t, st = Some t → 0 ≤ t ≤ obs_observed_at_ms o ∧ t < obs_ends_at_ms o.
Proof.
  unfold inferred_start. intros H. apply bind_Ok in H as ([] & Hv & H).
  assert (0 ≤ obs_observed_at_ms o < obs_ends_at_ms o ∧ obs_bucket_id o ≠ "") as [? ?].
  { unfold validate_end in Hv. destruct (_ || _ || _ || _) eqn:E; [done|].
    rewrite !orb_false_iff, is_empty_false, Z.ltb_ge, Z.leb_gt in E.
    destruct E as [[[? ?] ?] _]. split; [lia|done]. }
  split_and!; [lia..|done|]. intros t ->.
  destruct (observation_start o) as [t'|e] eqn:E; [|by destruct (str_eqb _ _)].
  injection H as ->. unfold observation_start in E. apply bind_Ok in E as ([] & _ & E).
  apply bind_Ok in E as (t0 & _ & E). destruct (_ || _ || _ || _ || _) eqn:Ec; [done|].
  injection E as ->. rewrite !orb_false_iff, !Z.ltb_ge, !Z.leb_gt in Ec.
  destruct Ec as [[[[? ?] ?] ?] ?]. lia.
Qed.
Lemma cycle_ok_transfer l l' s s' c :
  led_stream_incarnation l' = led_stream_incarnation l → led_events l' = led_events l →
  src_source_ref s' = src_source_ref s → src_source_epoch s' = src_source_epoch s →
  src_bucket_id s' = src_bucket_id s → cycle_ok l s c → cycle_ok l' s' c.
Proof.
  intros Hs He Hr Hep Hb []. split; try done; try congruence. by rewrite He, Hr.
Qed.

Section touch.
Context (o : QuotaWindowObservation) (l : QuotaCycleLedger) (k : string) (s : QuotaCycleSource).
Context (Hinv : Inv l) (Hk : led_sources l !! k = Some s).
Context (Hobs : 0 ≤ obs_observed_at_ms o < obs_ends_at_ms o).
Lemma touch_sources : led_sources (touch o l k s) = <[k := touched o s]> (led_sources l).
Proof. unfold touch. by destruct (_ || _). Qed.
Lemma touch_events : led_events (touch o l k s) = led_events l.
Proof. unfold touch. by destruct (_ || _). Qed.
Lemma touch_frame : same_frame l (touch o l k s)
  ∧ led_corrections (touch o l k s) = led_corrections l.
Proof. unfold touch. by destruct (_ || _). Qed.
Lemma touch_source_ok : source_ok k (touched o s).
Proof.
  destruct (v_sources l (inv_valid l Hinv) _ _ Hk) as [[] _]. split; simpl; try done; [lia|].
  intros t [= <-]. lia.
Qed.
Lemma touch_Inv : Inv (touch o l k s).
Proof.
  destruct touch_frame as [Hf Hc].
  eapply (put_source_Inv l _ k s (touched o s));
    [done..|apply touch_sources|apply touch_events|done|done|done|apply touch_source_ok|done|].
  intros c Ec. exists c. split; [done|]. split_and!; [|done|by eapply inv_counters..].
  destruct (v_sources l (inv_valid l Hinv) _ _ Hk) as [_ Hcy].
  apply (cycle_ok_transfer l _ s); [apply Hf|apply touch_events|done..|by apply Hcy].
Qed.
Lemma touch_lookup : led_sources (touch o l k s) !! k = Some (touched o s).
Proof. by rewrite touch_sources, lookup_insert_eq. Qed.
Lemma touch_fresh id : fresh l id → fresh (touch o l k s) id.
Proof.
  apply fresh_step.
  - intros key ev. rewrite touch_events. by left.
  - intros k' s'. rewrite touch_sources. intros [[<- <-]|[_ ?]]%lookup_insert_Some; eauto.
Qed.

(** The reset an observation triggers, from the touched ledger. *)
Lemma observed_args c event_id eff : src_cycle s = Some c →
  cyc_observed_at_ms c ≤ obs_observed_at_ms o →
  event_id = natural_id eff ∨ (event_id = upstream_id eff ∧ cyc_starts_at_ms c < eff) →
  ∀ s', source (touch o l k s) (src_source_ref s) = Some s' →
    caller_args s' event_id eff (obs_observed_at_ms o).
Proof.
  intros Hc Hle Hid s' (k' & Hk' & Hr)%source_Some; [|by apply inv_valid, touch_Inv].
  assert (k' = k) as -> by (apply (v_refs _ (inv_valid _ touch_Inv) _ _ _ _ Hk' touch_lookup Hr)).
  rewrite touch_lookup in Hk'. injection Hk' as <-. simpl. split.
  - split; intros t Ht; destruct Hid as [->|[-> _]];
      [by apply natural_id_inj|done|done|by apply upstream_id_inj].
  - intros t Ht. destruct Hid as [->|[-> ?]]; [done|]. apply upstream_id_inj in Ht as <-. eauto.
  - intros ? ?. simpl in *. simplify_eq. done.
Qed.
End touch.

Lemma confirm_Inv o l k s c :
  Inv l → led_sources l !! k = Some s → src_cycle s = Some c →
  cyc_observed_at_ms c ≤ obs_observed_at_ms o < obs_ends_at_ms o →
  Inv (confirm_cycle o l k s c).2.
Proof.
  intros Hinv Hk Hc Ho. unfold confirm_cycle. cbn [snd].
  destruct (v_sources l (inv_valid l Hinv) _ _ Hk) as [Hs Hcy]. specialize (Hcy c Hc).
  pose proof (inv_counters l Hinv _ _ _ Hk Hc) as [Hseq Hrev].
  destruct (negb _); (eapply put_source_Inv; [exact Hinv|exact Hk|done|reflexivity|done|done|done|done| |done|]);
    try (by destruct Hs); intros c' [= <-]; exists c; (split; [done|]);
    (split; [|split; [|simpl; width_lia]]).
  1,3: destruct Hcy; split; simpl; try done; try width_lia; intros e [= <-]; lia.
  all: intros ev [Hn Hu]; split; simpl; [|done]; intros b Hb; destruct (Hn b Hb) as (? & ? & ?);
    split_and!; [done|lia|intros [= Hbe]; lia].
Qed.

(** The drawn identifiers of a call that may apply several resets. *)
Record fresh_ids (l : QuotaCycleLedger) (ids : nat → string) : Prop := {
  fi_fresh n : fresh l (ids n);
  fi_distinct n m : ids n = ids m → n = m;
}.
Lemma fresh_ids_tail l l' ids :
  (∀ n, fresh l' (ids (S n))) → fresh_ids l ids → fresh_ids l' (λ n, ids (S n)).
Proof. intros Hf [_ Hd]. split; [done|]. intros n m H%Hd. by injection H. Qed.

Lemma observe_Inv fuel ids l r fence o b l' :
  Inv l → fresh_ids l ids → obs_ends_at_ms o ≤ I64_MAX →
  observe fuel ids l r fence o = Some (Ok b, l') → Inv l'.
Proof.
  revert ids l b. induction fuel as [|fuel IH]; intros ids l b Hinv Hids Hmax; [done|].
  cbn [observe]. destruct (inferred_start o) as [inferred|e] eqn:Ei; [|done].
  apply inferred_start_Ok in Ei as (Hobs & _ & Hst).
  destruct (find_source l r) as [[k s]|] eqn:Ef; [|done].
  apply find_source_Some in Ef as [Hk Hr].
  destruct (negb _); [done|]. destruct (negb _); [done|].
  destruct (_ <? src_last_observed_at_ms s); [by intros [= _ <-]|].
  pose proof (touch_Inv o l k s Hinv Hk Hobs) as Hinv1.
  pose proof (touch_lookup o l k s) as Hk1. set (l1 := touch o l k s) in *.
  destruct (src_cycle s) as [c|] eqn:Ec.
  - destruct (Z.ltb_spec (obs_observed_at_ms o) (cyc_observed_at_ms c)) as [|Hge]; [by intros [= _ <-]|].
    assert (∀ event_id eff basis, event_id = natural_id eff ∨ (event_id = upstream_id eff ∧ cyc_starts_at_ms c < eff) →
      match apply_reset (ids O) l1 r fence event_id eff (obs_observed_at_ms o) basis with
      | (Err e, l) => Some (Err e, l)
      | (Ok _, l) => match observe fuel (λ n, ids (S n)) l r fence o with
                     | None => None | Some (r, l) => Some ((λ _, true) <$> r, l) end
      end = Some (Ok b, l') → Inv l') as Hreset.
    { intros event_id eff basis Hid. destruct (apply_reset _ _ _ _ _ _ _ _) as [[b2|e2] l2] eqn:Ea; [|done].
      assert (∀ n, fresh l1 (ids n)) as Hf1 by (intros n; by apply touch_fresh, Hids).
      assert (Inv l2) as Hinv2.
      { eapply apply_reset_Inv; [exact Hinv1|apply Hf1| |exact Ea]. rewrite <-Hr.
        by apply (observed_args o l k s Hinv Hk Hobs c). }
      destruct (observe fuel _ l2 r fence o) as [[[b3|] l3]|] eqn:Eo; [|done|done].
      intros [= _ <-]. eapply IH; [exact Hinv2| |done|exact Eo].
      apply (fresh_ids_tail l1); [|by split; [|apply Hids]].
      intros n. eapply apply_reset_fresh; [exact Hinv1|apply Hf1| |exact Ea].
      intros H%(fi_distinct _ _ Hids). done. }
    destruct (elapsed_end o c) as [e|] eqn:Ee; [by apply Hreset; left|].
    destruct (later_start o c) as [t|] eqn:Et.
    + apply Hreset. right. split; [done|]. unfold later_start in Et.
      destruct (obs_starts_at_ms o) as [t0|]; [simpl in Et|done].
      destruct (Z.ltb_spec (cyc_starts_at_ms c) t0); [by injection Et as <-|done].
    + destruct (confirm_cycle o l1 k (touched o s) c) as [ch l2] eqn:Econf. intros [= _ <-].
      change l2 with (ch, l2).2. rewrite <-Econf. apply confirm_Inv; [done|done|done|lia].
  - destruct inferred as [t|]; [|by intros [= _ <-]]. intros [= _ <-].
    destruct (Hst t eq_refl) as [? ?].
    eapply open_first_cycle_Inv; [exact Hinv1|exact Hk1|done|done|done| | |done| | |done|done].
    + by apply (touch_source_ok o l k s).
    + exact (fr_nonempty l (ids O) (fi_fresh _ _ Hids O)).
    + intros e [= <-]. lia.
    + split; [done|]. unfold initial_id. pose proof (pretty_len (obs_ends_at_ms o) ltac:(width_lia)).
      unfold str_len in *. rewrite length_app_string. simpl. lia.
Qed.

(** ** The recursion of [observe] stops *)
Lemma elapsed_end_Some o c e : elapsed_end o c = Some e ↔
  cyc_ends_at_ms c = Some e ∧ e ≤ obs_observed_at_ms o.
Proof.
  unfold elapsed_end. destruct (cyc_ends_at_ms c) as [e0|]; simpl; [|naive_solver].
  destruct (Z.leb_spec e0 (obs_observed_at_ms o)); naive_solver lia.
Qed.
Lemma later_start_Some o c t : later_start o c = Some t ↔
  obs_starts_at_ms o = Some t ∧ cyc_starts_at_ms c < t.
Proof.
  unfold later_start. destruct (obs_starts_at_ms o) as [t0|]; simpl; [|naive_solver].
  destruct (Z.ltb_spec (cyc_starts_at_ms c) t0); naive_solver lia.
Qed.

(** A call that needs more fuel has opened a new cycle and observes again; the cycle it
    opened has no elapsed end, and its start is the observed one if none had elapsed. *)
Lemma observe_deeper fuel ids l r fence o :
  Inv l → fresh_ids l ids → observe (S fuel) ids l r fence o = None →
  ∃ k s c l2 c2,
    find_source l r = Some (k, s) ∧ src_cycle s = Some c
    ∧ Inv l2 ∧ fresh_ids l2 (λ n, ids (S n))
    ∧ led_sources l2 = <[k := with_cycle (Some c2) (touched o s)]> (led_sources (touch o l k s))
    ∧ elapsed_end o c2 = None
    ∧ (elapsed_end o c ≠ None ∨ later_start o c ≠ None ∧ later_start o c2 = None)
    ∧ observe fuel (λ n, ids (S n)) l2 r fence o = None.
Proof.
  intros Hinv Hids. cbn [observe]. destruct (inferred_start o) as [inferred|e] eqn:Ei; [|done].
  apply inferred_start_Ok in Ei as (Hobs & _ & Hst).
  destruct (find_source l r) as [[k s]|] eqn:Ef; [|done].
  apply find_source_Some in Ef as Hf. destruct Hf as [Hk Hr].
  destruct (negb _); [done|]. destruct (negb _); [done|]. destruct (_ <? src_last_observed_at_ms s); [done|].
  pose proof (touch_Inv o l k s Hinv Hk Hobs) as Hinv1.
  pose proof (touch_lookup o l k s) as Hk1.
  destruct (src_cycle s) as [c|] eqn:Ec; [|by destruct inferred].
  destruct (Z.ltb_spec (obs_observed_at_ms o) (cyc_observed_at_ms c)) as [|Hge]; [done|].
  set (l1 := touch o l k s) in *.
  assert (∀ n, fresh l1 (ids n)) as Hf1 by (intros n; by apply touch_fresh, Hids).
  assert (∀ event_id eff basis, cyc_starts_at_ms c < eff →
    event_id = natural_id eff ∨ event_id = upstream_id eff →
    led_events l1 !! event_key r event_id = None →
    match apply_reset (ids O) l1 r fence event_id eff (obs_observed_at_ms o) basis with
    | (Err e, l) => Some (Err e, l)
    | (Ok _, l) => match observe fuel (λ n, ids (S n)) l r fence o with
                   | None => None | Some (r, l) => Some ((λ _, true) <$> r, l) end
    end = None → ∃ l2 c2, Inv l2 ∧ fresh_ids l2 (λ n, ids (S n))
      ∧ led_sources l2 = <[k := with_cycle (Some c2) (touched o s)]> (led_sources l1)
      ∧ cyc_starts_at_ms c2 = eff
      ∧ cyc_ends_at_ms c2 = (e ← cyc_ends_at_ms c; if eff <? e then Some e else None)
      ∧ observe fuel (λ n, ids (S n)) l2 r fence o = None) as Hreset.
  { intros event_id eff basis Hlt Hid Habs.
    destruct (apply_reset _ _ _ _ _ _ _ _) as [[b2|e2] l2] eqn:Ea; [|done].
    assert (Inv l2) as Hinv2.
    { eapply apply_reset_Inv; [exact Hinv1|apply Hf1| |exact Ea]. rewrite <-Hr.
      apply (observed_args o l k s Hinv Hk Hobs c); try done. by destruct Hid; [left|right]. }
    pose proof Ea as Ha. rewrite <-Hr in Ha, Habs.
    eapply (apply_reset_advances _ l1 k (touched o s) c) in Ha as (_ & _ & c2 & Hs2 & Hst2 & _ & _ & He2);
      [|done..].
    destruct (observe fuel _ l2 r fence o) as [[[b3|] l3]|] eqn:Eo; [done|done|]. intros _.
    exists l2, c2. split_and!; try done. apply (fresh_ids_tail l1); [|by split; [|apply Hids]].
    intros n. eapply apply_reset_fresh; [exact Hinv1|apply Hf1| |exact Ea].
    intros H%(fi_distinct _ _ Hids). done. }
  destruct (v_sources l1 (inv_valid l1 Hinv1) _ _ Hk1) as [_ Hcy]. specialize (Hcy c Ec).
  destruct (elapsed_end o c) as [e|] eqn:Ee.
  - assert (elapsed_end o c ≠ None) as Hel by congruence.
    apply elapsed_end_Some in Ee as [Ee Hle]. intros Hnone.
    apply Hreset in Hnone as (l2 & c2 & ? & ? & ? & Hst2 & He2 & ?); [|by eapply co_ends|by left|].
    + exists k, s, c, l2, c2. split_and!; try done; [|by left].
      destruct (elapsed_end o c2) as [e2|] eqn:E2; [|done]. exfalso.
      apply elapsed_end_Some in E2 as [E2 _]. rewrite He2, Ee in E2. simpl in E2.
      by rewrite Z.ltb_irrefl in E2.
    + destruct (led_events l1 !! _) as [ev|] eqn:Eev; [|done]. exfalso. rewrite <-Hr in Eev.
      destruct (event_at_key l1 k (touched o s) _ _ Hinv1 Hk1 Eev) as (Hr' & Hid & _).
      destruct (es_natural _ _ (inv_settled l1 Hinv1 _ _ _ _ _ Hk1 Ec Eev Hr') e Hid) as (_ & _ & Hne).
      done.
  - destruct (later_start o c) as [t|] eqn:Et; [|by destruct (confirm_cycle _ _ _ _ _)].
    assert (later_start o c ≠ None) as Hla by congruence.
    apply later_start_Some in Et as [Et Hlt]. intros Hnone.
    apply Hreset in Hnone as (l2 & c2 & ? & ? & ? & Hst2 & He2 & ?); [|done|by right|].
    + exists k, s, c, l2, c2. split_and!; try done.
      * destruct (elapsed_end o c2) as [e2|] eqn:E2; [|done]. exfalso.
        apply elapsed_end_Some in E2 as [E2 ?]. rewrite He2 in E2.
        destruct (cyc_ends_at_ms c) as [e|] eqn:Ece; [simpl in E2|done].
        destruct (Z.ltb_spec t e); [|done]. injection E2 as ->.
        assert (elapsed_end o c = Some e2) by (by apply elapsed_end_Some). congruence.
      * right. split; [done|]. destruct (later_start o c2) as [t2|] eqn:E2; [|done]. exfalso.
        apply later_start_Some in E2 as [E2 ?]. simplify_eq. lia.
    + destruct (led_events l1 !! _) as [ev|] eqn:Eev; [|done]. exfalso. rewrite <-Hr in Eev.
      destruct (event_at_key l1 k (touched o s) _ _ Hinv1 Hk1 Eev) as (Hr' & Hid & _).
      pose proof (upstream_le _ _ _ _ _ _ _ Hinv1 Hk1 Ec Eev Hr' Hid). lia.
Qed.

Lemma find_source_after l l2 k s s2 r : Inv l → Inv l2 → find_source l r = Some (k, s) →
  src_source_ref s2 = src_source_ref s → led_sources l2 !! k = Some s2 →
  find_source l2 r = Some (k, s2).
Proof.
  intros Hi Hi2 [Hk <-]%find_source_Some Hr H2. rewrite <-Hr. apply find_source_Valid; [|done].
  by apply inv_valid.
Qed.
Lemma observe_three ids l r fence o :
  Inv l → fresh_ids l ids → observe 3 ids l r fence o ≠ None.
Proof.
  intros Hinv Hids H1.
  apply observe_deeper in H1 as (k & s & c & l2 & c2 & Hf1 & Hc1 & Hi2 & Hd2 & Hs2 & He2 & Hd & H2);
    [|done..].
  apply observe_deeper in H2 as (k' & s' & c' & l3 & c3 & Hf2 & Hc2 & Hi3 & Hd3 & Hs3 & He3 & Hd' & H3);
    [|done..].
  assert (find_source l2 r = Some (k, with_cycle (Some c2) (touched o s))) as Hf2'.
  { eapply find_source_after; [exact Hinv|done|exact Hf1|done|]. by rewrite Hs2, lookup_insert_eq. }
  rewrite Hf2 in Hf2'. injection Hf2' as -> ->. simpl in Hc2. injection Hc2 as <-.
  destruct Hd' as [?|[Hl Hl3]]; [done|].
  apply observe_deeper in H3 as (k' & s' & c' & l4 & c4 & Hf3 & Hc3 & _ & _ & _ & _ & Hd'' & _); [|done..].
  assert (find_source l3 r = Some (k, with_cycle (Some c3) (touched o (with_cycle (Some c2) (touched o s))))) as Hf3'.
  { eapply find_source_after; [exact Hi2|done|exact Hf2|done|]. by rewrite Hs3, lookup_insert_eq. }
  rewrite Hf3 in Hf3'. injection Hf3' as -> ->. simpl in Hc3. injection Hc3 as <-. by destruct Hd'' as [?|[? _]].
Qed.

(** ** The clock of the ledger: no cycle was observed after [now] *)
Definition clock_ok (l : QuotaCycleLedger) (now : Z) : Prop :=
  ∀ k s c, led_sources l !! k = Some s → src_cycle s = Some c → cyc_observed_at_ms c ≤ now.
Lemma clock_put l l' now k s' :
  clock_ok l now → led_sources l' = <[k := s']> (led_sources l) →
  (∀ c, src_cycle s' = Some c → cyc_observed_at_ms c ≤ now) → clock_ok l' now.
Proof.
  intros Hcl Hs Hc k2 s2 c2. rewrite Hs.
  intros [[<- <-]|[_ H2]]%lookup_insert_Some Hc2; [auto|by eapply Hcl].
Qed.
Lemma clock_same l l' now : clock_ok l now → led_sources l' = led_sources l → clock_ok l' now.
Proof. intros Hcl Hs k s c. rewrite Hs. apply Hcl. Qed.
Lemma clock_mono l now now' : clock_ok l now → now ≤ now' → clock_ok l now'.
Proof. intros Hcl Hle k s c Hk Hc. specialize (Hcl _ _ _ Hk Hc). lia. Qed.

Lemma apply_reset_clock id l r fence event_id eff disc basis b l' now :
  clock_ok l now → disc ≤ now →
  apply_reset id l r fence event_id eff disc basis = (Ok b, l') → clock_ok l' now.
Proof.
  intros Hcl Hle. unfold apply_reset. destruct (_ || _ || _ || _); [done|].
  destruct (find_source l r) as [[k s]|] eqn:Ef; [|done].
  apply find_source_Some in Ef as [Hk Hr]. case_bool_decide; cbn [negb]; [|done].
  destruct (src_cycle s) as [c|] eqn:Ec.
  - pose proof (Hcl _ _ _ Hk Ec) as Hc.
    destruct (led_events l !! event_key r event_id) as [previous|].
    + unfold correct_event. destruct (_ =? eff); [by intros [= _ <-]|].
      destruct (existsb _ _); [by intros [= _ <-]|].
      destruct (may_apply_correction _ _ _ _ _ _); cbn [negb]; intros [= _ <-]; [|by eapply clock_same].
      eapply clock_put; [exact Hcl|reflexivity|]. intros ? [= <-]. simpl. lia.
    + unfold record_event. destruct (cyc_starts_at_ms c <? eff);
        [destruct (checked_u64 _); [|done]|destruct (eff <? _)]; intros [= _ <-];
        [|by eapply clock_same..].
      eapply clock_put; [exact Hcl|reflexivity|]. by intros ? [= <-].
  - intros [= _ <-]. eapply clock_put; [exact Hcl|reflexivity|]. by intros ? [= <-].
Qed.
Lemma touch_clock o l k s now : clock_ok l now → led_sources l !! k = Some s →
  clock_ok (touch o l k s) now.
Proof.
  intros Hcl Hk. eapply clock_put; [exact Hcl|apply touch_sources|].
  intros c Hc. by eapply Hcl.
Qed.
Lemma observe_clock fuel ids l r fence o b l' now :
  clock_ok l now → obs_observed_at_ms o ≤ now →
  observe fuel ids l r fence o = Some (Ok b, l') → clock_ok l' now.
Proof.
  revert ids l b. induction fuel as [|fuel IH]; intros ids l b Hcl Hle; [done|].
  cbn [observe]. destruct (inferred_start o) as [inferred|]; [|done].
  destruct (find_source l r) as [[k s]|] eqn:Ef; [|done].
  apply find_source_Some in Ef as [Hk _]. destruct (negb _); [done|]. destruct (negb _); [done|].
  destruct (_ <? src_last_observed_at_ms s); [by intros [= _ <-]|].
  pose proof (touch_clock o l k s now Hcl Hk) as Hcl1. set (l1 := touch o l k s) in *.
  assert (∀ event_id eff basis,
    match apply_reset (ids O) l1 r fence event_id eff (obs_observed_at_ms o) basis with
    | (Err e, l) => Some (Err e, l)
    | (Ok _, l) => match observe fuel (λ n, ids (S n)) l r fence o with
                   | None => None | Some (r, l) => Some ((λ _, true) <$> r, l) end
    end = Some (Ok b, l') → clock_ok l' now) as Hreset.
  { intros event_id eff basis. destruct (apply_reset _ _ _ _ _ _ _ _) as [[b2|] l2] eqn:Ea; [|done].
    apply (apply_reset_clock _ _ _ _ _ _ _ _ _ _ now) in Ea; [|done..].
    destruct (observe fuel _ l2 r fence o) as [[[b3|] l3]|] eqn:Eo; [|done|done].
    intros [= _ <-]. by eapply IH. }
  destruct (src_cycle s) as [c|] eqn:Ec.
  - destruct (_ <? cyc_observed_at_ms c); [by intros [= _ <-]|].
    destruct (elapsed_end o c); [apply Hreset|]. destruct (later_start o c); [apply Hreset|].
    unfold confirm_cycle. intros [= _ <-]. destruct (negb _);
      (eapply clock_put; [exact Hcl1|reflexivity|]); by intros ? [= <-].
  - destruct inferred; intros [= _ <-]; [|done].
    eapply clock_put; [exact Hcl1|reflexivity|]. by intros ? [= <-].
Qed.

(** ** Advancing, registering, redeeming *)
Lemma natural_args l k s e now : clock_ok l now → led_sources l !! k = Some s →
  caller_args s (natural_id e) e now.
Proof.
  intros Hcl Hk. split; [split; [by intros b ?%natural_id_inj|done]|done|].
  intros c Hc. by eapply Hcl.
Qed.
Lemma apply_due_Inv due : ∀ ids l now b0 b l',
  Inv l → clock_ok l now → fresh_ids l ids →
  apply_due ids l now due b0 = (Ok b, l') → Inv l' ∧ clock_ok l' now.
Proof.
  induction due as [|[[r fence] e] due IH]; intros ids l now b0 b l' Hinv Hcl Hids; cbn [apply_due].
  - by intros [= _ <-].
  - destruct (apply_reset _ _ _ _ _ _ _ _) as [[b2|] l2] eqn:Ea; [|done]. apply IH.
    + eapply apply_reset_Inv; [exact Hinv|apply Hids| |exact Ea].
      intros s (k & Hk & _)%source_Some; [by eapply natural_args|by apply inv_valid].
    + by eapply apply_reset_clock; [..|exact Ea].
    + apply (fresh_ids_tail l); [|done]. intros n.
      eapply apply_reset_fresh; [exact Hinv|apply Hids| |exact Ea]. intros H%(fi_distinct _ _ Hids). done.
Qed.

Lemma with_boundary_Inv l k s : Inv l → led_sources l !! k = Some s →
  Inv (put_source k (with_boundary None s) l).
Proof.
  intros Hinv Hk. destruct (v_sources l (inv_valid l Hinv) _ _ Hk) as [Hs Hcy].
  eapply put_source_Inv; [exact Hinv|exact Hk|done|reflexivity|done|done|done|done|..].
  - by destruct Hs.
  - done.
  - intros c Hc. exists c. split; [done|]. split_and!; [|done|by eapply inv_counters..].
    apply (cycle_ok_transfer l _ s); try done. by apply Hcy.
Qed.
Lemma advance_source_due_Inv id l r now b l' :
  Inv l → clock_ok l now → fresh l id → now ≤ I64_MAX →
  advance_source_due id l r now = (Ok b, l') → Inv l' ∧ clock_ok l' now.
Proof.
  intros Hinv Hcl Hid Hmax. unfold advance_source_due.
  destruct (find_source l r) as [[k s]|] eqn:Ef; [|done].
  apply find_source_Some in Ef as [Hk Hr].
  destruct (or_else _ _ ≫= _) as [e|] eqn:Ee; [|by intros [= _ <-]].
  destruct (v_sources l (inv_valid l Hinv) _ _ Hk) as [Hs _].
  destruct (src_cycle s) as [c|] eqn:Ec.
  - destruct (apply_reset _ _ _ _ _ _ _ _) as [[[]|] l2] eqn:Ea; [| |done].
    1,2: assert (Inv l2) as Hinv2 by (eapply apply_reset_Inv; [exact Hinv|exact Hid| |exact Ea];
           intros s0 (k0 & Hk0 & _)%source_Some; [by eapply natural_args|by apply inv_valid]).
    1,2: assert (clock_ok l2 now) as Hcl2 by (by eapply apply_reset_clock; [..|exact Ea]).
    + intros [= _ <-]. destruct (find_source l2 r) as [[k2 s2]|] eqn:E2; [simpl|done].
      apply find_source_Some in E2 as [Hk2 _]. split; [by apply with_boundary_Inv|].
      eapply clock_put; [exact Hcl2|reflexivity|]. intros c2 Hc2. by eapply Hcl2.
    + by intros [= _ <-].
  - intros [= _ <-]. simpl in Ee. destruct (src_next_boundary_ms s) as [e0|] eqn:Eb; [simpl in Ee|done].
    destruct (Z.leb_spec e0 now) as [Hle|]; [|done]. injection Ee as ->.
    pose proof (so_boundary _ _ Hs _ Eb). split.
    + eapply open_first_cycle_Inv; [exact Hinv|exact Hk|done|done|done| | |lia|done| | |done].
      * by destruct Hs.
      * apply (fr_nonempty _ _ Hid).
      * split; [done|]. unfold natural_id. pose proof (pretty_len e ltac:(width_lia)).
        unfold str_len in *. rewrite length_app_string. simpl. lia.
      * by intros ? ?%natural_id_inj.
    + eapply clock_put; [exact Hcl|reflexivity|]. by intros ? [= <-].
Qed.

Lemma insert_source_Inv l l' k s :
  Inv l → led_sources l !! k = None → (∀ k0 s0, led_sources l !! k0 = Some s0 →
    src_source_ref s0 ≠ src_source_ref s) → contains_char ":" (src_source_ref s) = false →
  src_cycle s = None → source_ok k s → same_frame l l' →
  led_sources l' = <[k := s]> (led_sources l) → led_events l' = led_events l →
  led_corrections l' = led_corrections l → Inv l'.
Proof.
  intros Hinv Hk Hnew Hcol Hn Hok [Hsch Hstr Hop Hcu Hcu2 Hpub] Hs He Hcs.
  pose proof (inv_valid l Hinv) as Hv.
  assert (∀ k0 s0, led_sources l' !! k0 = Some s0 →
    (k0 = k ∧ s0 = s) ∨ led_sources l !! k0 = Some s0) as Hlook.
  { intros k0 s0. rewrite Hs. intros [[<- <-]|[_ ?]]%lookup_insert_Some; auto. }
  assert (∀ r s0, source l r = Some s0 → source l' r = Some s0) as Hsrc.
  { intros r s0 (k0 & H0 & Hr)%(source_Some _ _ _ Hv). unfold source, find_source.
    destruct (list_find _ _) as [[i [k2 s2]]|] eqn:E; simpl.
    - apply list_find_Some in E as (Hi & Hr2 & _). simpl in Hr2.
      apply list_elem_of_lookup_2, elem_of_btree_entries in Hi.
      destruct (Hlook _ _ Hi) as [[-> ->]|H2]; [destruct (Hnew _ _ H0); congruence|].
      assert (k2 = k0) as -> by (eapply (v_refs l Hv); [done..|congruence]). by simplify_eq.
    - apply list_find_None in E. rewrite Forall_forall in E. exfalso.
      apply (E (k0, s0)); [|done]. apply elem_of_btree_entries. rewrite Hs.
      rewrite lookup_insert_ne; [done|]. intros ->. congruence. }
  split.
  - destruct (corrections_ok_kept l l') as [? ? ?]; [by apply corrections_ok_Valid|done|
      rewrite He; eauto|]. split; try done; try congruence.
    + rewrite Hsch. apply (v_schema l Hv).
    + rewrite Hstr. apply (v_stream l Hv).
    + intros k0 s0 [[-> ->]|H0]%Hlook; [split; [done|by rewrite Hn]|].
      destruct (v_sources l Hv _ _ H0) as [? Hc]. split; [done|]. intros c Ec.
      eapply cycle_ok_transfer; [done|done|done..|by apply Hc].
    + intros k1 s1 k2 s2 [[-> ->]|H1]%Hlook [[-> ->]|H2]%Hlook Heq; [done| | |].
      * by destruct (Hnew _ _ H2).
      * by destruct (Hnew _ _ H1).
      * by apply (v_refs l Hv _ _ _ _ H1 H2).
    + intros key ev. rewrite He. intros Hev. destruct (v_events l Hv _ _ Hev) as (s0 & H0 & ?). eauto.
    + intros k0 op. rewrite Hop. intros H0. destruct (v_operations l Hv _ _ H0) as [Ho Hr]. split.
      * unfold check_operation in *. apply fail_if_Ok in Ho. apply fail_if_Ok.
        destruct (source l (op_source_ref op)) as [s0|] eqn:E0.
        -- by rewrite (Hsrc _ _ E0).
        -- rewrite !orb_false_iff in Ho. destruct Ho as [[[[[_ Ho] _] _] _] _].
           by rewrite bool_decide_eq_true_2 in Ho.
      * unfold check_receipt in *. by rewrite He.
    + rewrite Hop. apply (v_requests l Hv).
    + rewrite Hcu, Hcu2. apply (v_cursors l Hv).
    + unfold public_events_check. rewrite Hpub. apply (v_public l Hv).
  - intros k0 s0 [[-> ->]|H0]%Hlook; [done|by eapply inv_colon].
  - intros k0 s0 key ev [[-> ->]|H0]%Hlook Hn0; rewrite He; intros Hev.
    + destruct (v_events l Hv _ _ Hev) as (s1 & (k1 & H1 & <-)%(source_Some _ _ _ Hv) & _). by eapply Hnew.
    + by eapply inv_unopened.
  - intros k0 s0 c key ev [[-> ->]|H0]%Hlook Hc; [congruence|]. rewrite He. by eapply inv_settled.
  - intros k0 s0 c [[-> ->]|H0]%Hlook Hc; [congruence|]. by eapply inv_counters.
Qed.

Lemma register_source_Inv id l identity provider bucket fence r l' now :
  Inv l → clock_ok l now → fresh l id → provider ≠ "" →
  register_source id l identity provider bucket fence = (Ok r, l') → Inv l' ∧ clock_ok l' now.
Proof.
  intros Hinv Hcl Hid Hp. unfold register_source. destruct (validate l); [|done].
  destruct (_ || _) eqn:Ee; [done|]. apply orb_false_iff in Ee as [?%is_empty_false ?%is_empty_false].
  destruct (led_sources l !! identity) as [s|] eqn:Es; simpl.
  - destruct (v_sources l (inv_valid l Hinv) _ _ Es) as [Hs Hcy].
    assert (∀ f l2, same_frame l l2 → led_events l2 = led_events l →
      led_corrections l2 = led_corrections l →
      led_sources l2 = <[identity := with_fence f s]> (<[identity := s]> (led_sources l)) →
      Inv l2 ∧ clock_ok l2 now) as Hfence.
    { intros f l2 Hf He Hc2 Hs2. rewrite insert_insert_eq in Hs2. split.
      - eapply put_source_Inv; [exact Hinv|exact Es|done|exact Hs2|done|done|done|done|by destruct Hs|done|].
        intros c Hc. exists c. split; [done|]. split_and!; [|done|by eapply inv_counters..].
        apply (cycle_ok_transfer l _ s); [apply Hf|done..|by apply Hcy].
      - eapply clock_put; [exact Hcl|exact Hs2|]. intros c Hc. by eapply Hcl. }
    destruct (_ || _); [done|]. destruct (negb (bool_decide (src_fence s = fence))).
    + destruct (checked_u64 _); [|done]. intros [= _ <-]. by apply (Hfence fence).
    + intros [= _ <-]. apply (Hfence (src_fence s)); try done. simpl.
      rewrite insert_insert_eq. by destruct s.
  - destruct (_ || _); [done|]. destruct (checked_u64 _); [|done]. intros [= _ <-].
    assert (led_sources (put_source identity (mk_source id 1 provider bucket fence None None 0) l)
      = <[identity := mk_source id 1 provider bucket fence None None 0]> (led_sources l)) as Hs by done.
    split.
    + eapply insert_source_Inv; [exact Hinv|exact Es| | | | | | | |]; [..|simpl; by rewrite insert_insert_eq|done|done];
        try done; simpl.
      * intros k0 s0 Hs0. by eapply fr_sources.
      * apply (fr_colon _ _ Hid).
      * split; simpl; try done. apply (fr_nonempty _ _ Hid).
    + eapply clock_put; [exact Hcl|simpl; by rewrite insert_insert_eq|done].
Qed.

Record new_operation (l : QuotaCycleLedger) (op : ResetCreditOperation) : Prop := {
  no_ids : op_operation_id op ≠ "" ∧ op_request_id op ≠ "";
  no_created : 0 ≤ op_created_at_ms op;
  no_status : op_status op = IntentDurable ∧ op_confirmed_at_ms op = None;
  no_request k op' : led_operations l !! k = Some op' → op_request_id op' ≠ op_request_id op;
}.
Lemma begin_redeem_Inv l op r l' now :
  Inv l → clock_ok l now → new_operation l op → begin_redeem l op = (Ok r, l') →
  Inv l' ∧ clock_ok l' now.
Proof.
  intros Hinv Hcl [[Hid Hreq] Hcr [Hst Hco] Hnew]. unfold begin_redeem.
  destruct (source l (op_source_ref op)) as [s|] eqn:Es; [|done].
  destruct (negb _); [done|]. destruct (from_option _ _ _); [done|].
  destruct (led_operations l !! op_operation_id op) as [p|] eqn:Ep; [by intros [= _ <-]|].
  intros [= _ <-]. split; [|by eapply clock_same]. pose proof (inv_valid l Hinv) as Hv.
  split; try apply Hinv. split; try apply Hv; simpl.
  - intros k s0 Hk. destruct (v_sources l Hv k s0 Hk) as [? Hcy]. split; [done|].
    intros c Hc. apply (cycle_ok_transfer l _ s0); try done. by apply Hcy.
  - intros k op' [[<- <-]|[_ Hk]]%lookup_insert_Some; [|by apply (v_operations l Hv)]. split.
    + unfold check_operation. apply fail_if_Ok. rewrite !orb_false_iff, !is_empty_false.
      rewrite str_eqb_negb, Hst, Hco, Z.ltb_ge.
      change (source (with_operations _ (bump_revision l)) (op_source_ref op))
        with (source l (op_source_ref op)). rewrite Es. by split_and!.
    + unfold check_receipt. by rewrite Hst.
  - intros k1 op1 k2 op2 [[<- <-]|[_ H1]]%lookup_insert_Some [[<- <-]|[_ H2]]%lookup_insert_Some Heq;
      [done| | |by apply (v_requests l Hv _ _ _ _ H1 H2)].
    + by destruct (Hnew _ _ H2).
    + by destruct (Hnew _ _ H1).
Qed.

(** ** Reachable ledgers

    One step per operation, at the time [now] the caller reads; the callers commit a ledger
    only when the operation succeeded.  Resets from outside (announcements, redeemed
    credits) carry identifiers of their own. *)
Inductive step (now : Z) (l : QuotaCycleLedger) : QuotaCycleLedger → Prop :=
  | step_register id identity provider bucket fence r l' :
      fresh l id → provider ≠ "" →
      register_source id l identity provider bucket fence = (Ok r, l') → step now l l'
  | step_observe fuel ids r fence o b l' :
      fresh_ids l ids → obs_ends_at_ms o ≤ I64_MAX → obs_observed_at_ms o ≤ now →
      observe fuel ids l r fence o = Some (Ok b, l') → step now l l'
  | step_event id r fence event_id eff basis b l' :
      fresh l id → starts_with "natural:" event_id = false → starts_with "upstream:" event_id = false →
      apply_reset id l r fence event_id eff now basis = (Ok b, l') → step now l l'
  | step_advance ids b l' :
      fresh_ids l ids → advance_due ids l now = (Ok b, l') → step now l l'
  | step_advance_source id r b l' :
      fresh l id → now ≤ I64_MAX → advance_source_due id l r now = (Ok b, l') → step now l l'
  | step_redeem op r l' :
      new_operation l op → begin_redeem l op = (Ok r, l') → step now l l'.
Inductive reachable : Z → QuotaCycleLedger → Prop :=
  | reach_init now id : id ≠ "" → reachable now (ledger_default id)
  | reach_step now now' l l' : reachable now l → now ≤ now' → step now' l l' → reachable now' l'.

Lemma ledger_default_Inv id now : id ≠ "" → Inv (ledger_default id) ∧ clock_ok (ledger_default id) now.
Proof.
  intros Hid. split; [|by intros k s c]. split; [|done..]. split; try done; [intros c Hc; inversion Hc|apply NoDup_nil_2|].
  exists ∅. split; [done|]. intros key t. by rewrite lookup_empty.
Qed.
Lemma external_named event_id t : starts_with "natural:" event_id = false →
  starts_with "upstream:" event_id = false → named_at event_id t.
Proof.
  intros Hn Hu. split; intros b ->.
  - assert (starts_with "natural:" (natural_id b) = true); [|congruence].
    apply starts_with_true. by eexists.
  - assert (starts_with "upstream:" (upstream_id b) = true); [|congruence].
    apply starts_with_true. by eexists.
Qed.
Lemma step_Inv now l l' : Inv l → clock_ok l now → step now l l' → Inv l' ∧ clock_ok l' now.
Proof.
  intros Hinv Hcl [id identity provider bucket fence r ? ? ? H|fuel ids r fence o b ? ? ? ? H
    |id r fence event_id eff basis b ? Hf Hn Hu H|ids b ? ? H|id r b ? ? ? H|op r ? ? H].
  - by eapply register_source_Inv.
  - split; [by eapply observe_Inv|by eapply observe_clock].
  - split; [|by eapply apply_reset_clock; [..|exact H]].
    eapply apply_reset_Inv; [exact Hinv|exact Hf| |exact H].
    intros s (k & Hk & _)%source_Some; [|by apply inv_valid].
    split; [by apply external_named| |intros c Hc; by eapply Hcl].
    intros t ->. assert (starts_with "upstream:" (upstream_id t) = true); [|congruence].
    apply starts_with_true. by eexists.
  - by eapply apply_due_Inv.
  - by eapply advance_source_due_Inv.
  - by eapply begin_redeem_Inv.
Qed.
Lemma reachable_Inv now l : reachable now l → Inv l ∧ clock_ok l now.
Proof.
  induction 1 as [now id Hid|now now' l l' _ [Hinv Hcl] Hle Hs]; [by apply ledger_default_Inv|].
  eapply step_Inv; [done| |done]. by eapply clock_mono.
Qed.


(** Observing a quota window terminates: on every reachable ledger the recursion of
    [observe] needs at most three activations (an elapsed end, then a later upstream start,
    then the confirmation), for any source, fence and observation. *)
Theorem observe_returns now l ids r fence o (Hr : reachable now l) (Hids : fresh_ids l ids) :
  ∃ res l', observe 3 ids l r fence o = Some (res, l').
Proof.
  destruct (reachable_Inv now l Hr) as [Hinv _].
  pose proof (observe_three ids l r fence o Hinv Hids) as H.
  destruct (observe 3 ids l r fence o) as [[res l']|]; [by exists res, l'|done].
Qed.

(** A reset not seen before, effective after the current cycle's start, opens exactly
    the next cycle: it succeeds, the new cycle has the drawn identifier and the next
    sequence number, contains the reset's time and nothing earlier, and no other source
    changes. *)
Theorem reset_opens_next_cycle now l id r s c event_id eff disc basis
    (Hr : reachable now l) (Hs : source l r = Some s) (Hc : src_cycle s = Some c)
    (Hid : event_id ≠ "" ∧ str_len event_id ≤ 256)
    (Hnew : led_events l !! event_key r event_id = None)
    (Ht : cyc_starts_at_ms c < eff ≤ disc) (Hseq : cyc_sequence c < U64_MAX) :
  ∃ l' s' c', apply_reset id l r (src_fence s) event_id eff disc basis = (Ok true, l')
    ∧ (∀ k s0, led_sources l !! k = Some s0 → src_source_ref s0 ≠ r → led_sources l' !! k = Some s0)
    ∧ (∃ k, led_sources l' !! k = Some s' ∧ led_sources l !! k = Some s) ∧ src_source_ref s' = r
    ∧ src_cycle s' = Some c' ∧ cyc_cycle_id c' = id ∧ cyc_sequence c' = cyc_sequence c + 1
    ∧ cycle_contains c' eff = true ∧ (∀ t, t < eff → cycle_contains c' t = false).
Proof.
  destruct (reachable_Inv now l Hr) as [Hinv _].
  pose proof (inv_valid l Hinv) as Hv. apply source_Some in Hs as (k & Hk & <-); [|done].
  destruct (v_sources l Hv _ _ Hk) as [_ Hcy]. specialize (Hcy c Hc).
  pose proof (inv_counters l Hinv _ _ _ Hk Hc) as [Hseq0 _]. pose proof (co_starts _ _ _ Hcy).
  unfold apply_reset. destruct Hid as [Hne%is_empty_false Hlen].
  rewrite Hne, (proj2 (Z.ltb_ge 256 _)), (proj2 (Z.ltb_ge eff 0)), (proj2 (Z.ltb_ge disc eff)) by lia.
  cbn [orb]. rewrite (find_source_Valid l k s) by done.
  rewrite bool_decide_eq_true_2 by done. cbn [negb]. rewrite Hc, Hnew. unfold record_event.
  rewrite (proj2 (Z.ltb_lt _ _)) by lia. rewrite checked_u64_in by lia.
  eexists _, _, _. split; [reflexivity|]. simpl. split_and!.
  - intros k0 s0 H0 Hne0. rewrite lookup_insert_ne; [done|]. intros <-. simplify_eq.
  - exists k. by rewrite lookup_insert_eq.
  - done.
  - reflexivity.
  - done.
  - done.
  - unfold cycle_contains. simpl. rewrite Z.leb_refl. destruct (cyc_ends_at_ms c) as [e|]; [simpl|done].
    destruct (eff <? e) eqn:E; [simpl; by rewrite E|done].
  - intros t Hlt. unfold cycle_contains. simpl. by rewrite (proj2 (Z.leb_gt _ _)).
Qed.

(** The answer of [apply_reset] says what it did: [true] exactly when the source's
    current cycle now starts at the reset; with [false] no source changed and every
    recorded event keeps its time; and an error, the exhausted sequence apart, leaves the
    ledger as it was. *)
Theorem apply_reset_answer id l r fence event_id eff disc basis :
  match apply_reset id l r fence event_id eff disc basis with
  | (Ok true, l') => ∃ k s c, find_source l r = Some (k, s) ∧ src_fence s = fence
      ∧ led_sources l' = <[k := with_cycle (Some c) s]> (led_sources l) ∧ cyc_starts_at_ms c = eff
  | (Ok false, l') => led_sources l' = led_sources l
      ∧ ∀ key ev, led_events l !! key = Some ev → ∃ ev', led_events l' !! key = Some ev'
          ∧ ev_effective_at_ms ev' = ev_effective_at_ms ev
  | (Err e, l') => e = "quota_sequence_overflow" ∨ l' = l
  end.
Proof.
  unfold apply_reset. destruct (_ || _ || _ || _); [by right|].
  destruct (find_source l r) as [[k s]|] eqn:Ef; [|by right].
  case_bool_decide; cbn [negb]; [|by right].
  destruct (src_cycle s) as [c|] eqn:Ec; [|by eexists _, _, _; split_and!].
  destruct (led_events l !! event_key r event_id) as [previous|] eqn:Ep.
  - unfold correct_event. destruct (_ =? eff); [split; [done|by eauto]|].
    destruct (existsb _ _); [split; [done|by eauto]|].
    destruct (may_apply_correction _ _ _ _ _ _); cbn [negb]; [by eexists _, _, _; split_and!|].
    split; [done|]. intros key ev He. simpl.
    destruct (decide (event_key r event_id = key)) as [<-|Hne].
    + rewrite lookup_insert_eq. eexists. split; [done|]. simpl. congruence.
    + rewrite lookup_insert_ne by done. eauto.
  - unfold record_event. destruct (cyc_starts_at_ms c <? eff).
    + destruct (checked_u64 _); [by eexists _, _, _; split_and!|by left].
    + destruct (eff <? _); (split; [done|]); intros key ev He; simpl;
        (rewrite lookup_insert_ne; [by eauto|]); intros <-; congruence.
Qed.

(** ** A concrete history *)
Definition sample_fence : QuotaSourceFence := mk_fence 1 1 1 1.
Definition sample_registered : QuotaCycleLedger :=
  (register_source "a1" (ledger_default "5f") "acct" "codex_oauth" "weekly" sample_fence).2.
Definition sample_window : QuotaWindowObservation :=
  mk_observation "weekly" (Some 1000) 605800 None 2000 UpstreamWindow.
Definition sample_ids (n : nat) : string := Nat.iter n (String "c") "c".
Definition sample_observed : QuotaCycleLedger :=
  from_option snd (ledger_default "") (observe 3 sample_ids sample_registered "a1" sample_fence sample_window).

Lemma sample_ids_colon n : contains_char ":" (sample_ids n) = false.
Proof. induction n as [|n IH]; [done|]. simpl. exact IH. Qed.
Lemma sample_ids_length n : String.length (sample_ids n) = S n.
Proof. induction n as [|n IH]; [done|]. simpl. by rewrite <-IH. Qed.
Lemma sample_ids_fresh l :
  (∀ key ev, led_events l !! key = Some ev → contains_char "c" (ev_cycle_id ev) = false) →
  (∀ k s, led_sources l !! k = Some s → contains_char "c" (src_source_ref s) = false) →
  fresh_ids l sample_ids.
Proof.
  intros He Hs. assert (∀ n, contains_char "c" (sample_ids n) = true) as Hc by (by intros []).
  split; [intros n; split|].
  - by destruct n.
  - apply sample_ids_colon.
  - intros key ev H Heq. specialize (He _ _ H). rewrite Heq, Hc in He. done.
  - intros k s H Heq. specialize (Hs _ _ H). rewrite Heq, Hc in Hs. done.
  - intros n m H%(f_equal String.length). rewrite !sample_ids_length in H. lia.
Qed.
Lemma sample_registered_fresh : fresh_ids sample_registered sample_ids.
Proof.
  apply sample_ids_fresh.
  - intros key ev H. by vm_compute in H.
  - intros k s. change (led_sources sample_registered)
      with (<["acct" := mk_source "a1" 1 "codex_oauth" "weekly" sample_fence None None 0]>
              (<["acct" := mk_source "a1" 1 "codex_oauth" "weekly" sample_fence None None 0]> (∅ : gmap string QuotaCycleSource))).
    rewrite insert_insert_eq. by intros [[_ <-]|[_ ?]]%lookup_insert_Some.
Qed.
Lemma sample_registered_reachable : reachable 1500 sample_registered.
Proof.
  eapply (reach_step 1500 1500); [by apply (reach_init 1500 "5f")|lia|].
  eapply (step_register _ _ "a1" "acct" "codex_oauth" "weekly" sample_fence "a1");
    [|done|vm_compute; reflexivity].
  split; [done|done|by intros key ev|by intros k s].
Qed.
Lemma sample_observed_reachable : reachable 2000 sample_observed.
Proof.
  eapply (reach_step 1500); [apply sample_registered_reachable|lia|].
  apply (step_observe _ _ 3 sample_ids "a1" sample_fence sample_window true);
    [apply sample_registered_fresh|simpl; width_lia|simpl; lia|vm_compute; reflexivity].
Qed.
Lemma observe_returns_witness : ∃ res l',
  observe 3 sample_ids sample_registered "a1" sample_fence sample_window = Some (res, l').
Proof.
  apply (observe_returns 1500); [apply sample_registered_reachable|apply sample_registered_fresh].
Defined.
Definition sample_cycle : AccountQuotaCycle :=
  mk_cycle "5f" "a1" 1 "weekly" "c" 1 1 1000 (Some 605800) UpstreamWindow 2000 "initial:605800".
Definition sample_source : QuotaCycleSource :=
  mk_source "a1" 1 "codex_oauth" "weekly" sample_fence (Some sample_cycle) (Some 605800) 2000.
Lemma reset_opens_next_cycle_witness : ∃ l' s' c',
  apply_reset "9e" sample_observed "a1" sample_fence "public:42" 5000 6000 PublicAnnouncement
    = (Ok true, l')
  ∧ src_source_ref s' = "a1" ∧ src_cycle s' = Some c' ∧ cyc_cycle_id c' = "9e"
  ∧ cyc_sequence c' = 2 ∧ cycle_contains c' 5000 = true.
Proof.
  destruct (reset_opens_next_cycle 2000 sample_observed "9e" "a1" sample_source sample_cycle
    "public:42" 5000 6000 PublicAnnouncement) as (l' & s' & c' & H1 & _ & _ & H2 & H3 & H4 & H5 & H6 & _).
  - apply sample_observed_reachable.
  - vm_compute. reflexivity.
  - reflexivity.
  - split; [done|vm_compute; discriminate].
  - vm_compute. reflexivity.
  - simpl. lia.
  - vm_compute. reflexivity.
  - exists l', s', c'. split_and!; done.
Defined.

(** The one guard of [validate] that [register_source] does not have: a source without a provider type is accepted, and
    the ledger no longer passes its own check. *)
Lemma register_accepts_empty_provider_type :
  let '(r, l) := register_source "a1" (ledger_default "5f") "acct" "" "weekly" sample_fence in
  r = Ok "a1" ∧ validate l = Err "quota_source_invalid".
Proof. by vm_compute. Qed.
