(* ===== verification/QuotaLedger.v ===== *)
(** * Exact quota usage ([src/domain/usage/quota_ledger.rs])

    The ledger of metering revisions per quota scope (source, epoch, bucket, Share, user)
    and the queries that turn it into a user's consumption in a cycle, with the table of
    revisions that persists it ([repository/server_sqlite/quota.rs]).  [record] mutates the
    ledger in place before its last check, so it returns the ledger on errors too. *)
From S2P Require Import Prelude RustStr QuotaCycle.
From Stdlib Require Import ZArith Lia.

Local Open Scope Z_scope.

(** ** Data *)
(** domain/usage/quota_ledger.rs:14-14 [QUOTA_USAGE_WARN_REVISIONS] *)
Definition QUOTA_USAGE_WARN_REVISIONS : Z := 250000.
(** domain/usage/quota_ledger.rs:15-15 [QUOTA_USAGE_ADMISSION_LIMIT] *)
Definition QUOTA_USAGE_ADMISSION_LIMIT : Z := 1000000.

(** domain/usage/quota_ledger.rs:19-24 [QuotaAttribution] *)
Record QuotaAttribution := mk_attribution {
  at_source_ref : string; at_source_epoch : Z; at_bucket_id : string; at_started_at_ms : Z;
}.
#[global] Instance QuotaAttribution_eq_dec : EqDecision QuotaAttribution.
Proof. solve_decision. Defined.

(** domain/usage/quota_ledger.rs:28-40 [QuotaUsageEntry] *)
Record QuotaUsageEntry := mk_entry {
  en_request_id : string;
  en_parent_request_id : option string;
  en_share_id : string;
  en_user_email : string;
  en_attribution : QuotaAttribution;
  en_usage_revision : Z;
  en_watermark : Z;
  en_tokens : Z;
  en_count_request : bool;
  en_pending : bool;
}.
#[global] Instance QuotaUsageEntry_eq_dec : EqDecision QuotaUsageEntry.
Proof. solve_decision. Defined.

(** domain/usage/quota_ledger.rs:44-60 [QuotaUsageLedger] *)
Record QuotaUsageLedger := mk_usage_ledger {
  ul_schema_version : Z;
  ul_watermark : Z;
  ul_coverage_from_ms : gmap string Z;
  ul_entries : gmap string (gmap string (list QuotaUsageEntry));
  ul_record_scopes : gmap string string;
  ul_recovery_required : gmap string QuotaAttribution;
  ul_integrity_error : option string;
}.
(** domain/usage/quota_ledger.rs:62-74 [QuotaUsageLedger::default] *)
Definition usage_ledger_default : QuotaUsageLedger := mk_usage_ledger 1 0 ∅ ∅ ∅ ∅ None.

(** domain/usage/store.rs:32-37 [UsageRecordKind] *)
Inductive UsageRecordKind : Type := UserInference | InternalSupplemental | HealthProbe.
#[global] Instance UsageRecordKind_eq_dec : EqDecision UsageRecordKind.
Proof. solve_decision. Defined.
(** domain/usage/store.rs:626-634 [UsageState] *)
Inductive UsageState : Type :=
  | Pending | Observed | Missing | ParseError | Interrupted | NotApplicable.
#[global] Instance UsageState_eq_dec : EqDecision UsageState.
Proof. solve_decision. Defined.
(** domain/usage/store.rs:244-411 [UsageLog], the fields the quota and trial ledgers read *)
Record UsageLog := mk_log {
  log_request_id : string;
  log_quota_attribution : option QuotaAttribution;
  log_record_kind : UsageRecordKind;
  log_parent_request_id : option string;
  log_failure_kind : option string;
  log_started_at_ms : Z;
  log_input_tokens : option Z;
  log_output_tokens : option Z;
  log_cache_read_tokens : option Z;
  log_cache_creation_tokens : option Z;
  log_total_tokens : option Z;
  log_share_id : option string;
  log_user_email : option string;
  log_usage_state : UsageState;
  log_usage_revision : Z;
  log_status_code : Z;
}.

(** Assignments to the fields the operations change. *)
Definition with_watermark w l := mk_usage_ledger (ul_schema_version l) w (ul_coverage_from_ms l)
  (ul_entries l) (ul_record_scopes l) (ul_recovery_required l) (ul_integrity_error l).
Definition with_entries f l := mk_usage_ledger (ul_schema_version l) (ul_watermark l)
  (ul_coverage_from_ms l) (f (ul_entries l)) (ul_record_scopes l) (ul_recovery_required l)
  (ul_integrity_error l).
Definition with_scopes f l := mk_usage_ledger (ul_schema_version l) (ul_watermark l)
  (ul_coverage_from_ms l) (ul_entries l) (f (ul_record_scopes l)) (ul_recovery_required l)
  (ul_integrity_error l).
Definition with_recovery f l := mk_usage_ledger (ul_schema_version l) (ul_watermark l)
  (ul_coverage_from_ms l) (ul_entries l) (ul_record_scopes l) (f (ul_recovery_required l))
  (ul_integrity_error l).
Definition with_coverage f l := mk_usage_ledger (ul_schema_version l) (ul_watermark l)
  (f (ul_coverage_from_ms l)) (ul_entries l) (ul_record_scopes l) (ul_recovery_required l)
  (ul_integrity_error l).

(** ** Tokens of a log *)
(** domain/usage/store.rs:417-423 [processed_tokens] *)
Definition processed_tokens (log : UsageLog) : Z :=
  sat_u64 (sat_u64 (sat_u64 (default 0 (log_input_tokens log) + default 0 (log_output_tokens log))
                    + default 0 (log_cache_read_tokens log))
           + default 0 (log_cache_creation_tokens log)).
(** domain/usage/store.rs:425-432 [quota_tokens] *)
Definition quota_tokens (log : UsageLog) : Z :=
  let processed := processed_tokens log in
  if 0 <? processed then processed else default 0 (log_total_tokens log).

(** ** The ledger *)
(** domain/usage/quota_ledger.rs:83-85 [capacity_warning] *)
Definition capacity_warning (l : QuotaUsageLedger) : bool := QUOTA_USAGE_WARN_REVISIONS <=? ul_watermark l.
(** domain/usage/quota_ledger.rs:86-88 [capacity_limited] *)
Definition capacity_limited (l : QuotaUsageLedger) : bool := QUOTA_USAGE_ADMISSION_LIMIT <=? ul_watermark l.
(** domain/usage/quota_ledger.rs:89-107 [validate_metadata] *)
Definition validate_metadata (l : QuotaUsageLedger) : result string () :=
  _ ← fail_if (negb (ul_schema_version l =? 1)) "unsupported_quota_usage_schema";
  fail_if (existsb (λ '(source, start), is_empty source || (start <? 0))
             (btree_entries (ul_coverage_from_ms l))
           || existsb (λ a, is_empty (at_source_ref a) || (at_source_epoch a =? 0)
                            || is_empty (at_bucket_id a) || (at_started_at_ms a <? 0))
                (btree_values (ul_recovery_required l))) "quota_usage_integrity_error".
(** The rows of [entries] in the order of the nested loops: scope, record, revisions. *)
Definition records (l : QuotaUsageLedger) : list (string * string * list QuotaUsageEntry) :=
  btree_entries (ul_entries l) ≫= λ '(scope, recs),
    map (λ '(id, versions), (scope, id, versions)) (btree_entries recs).
(** domain/usage/quota_ledger.rs:108-126 [recover_pending] *)
Definition recover_pending (l : QuotaUsageLedger) : bool * QuotaUsageLedger :=
  foldl (λ '(changed, l) e,
      (changed || bool_decide (ul_recovery_required l !! en_request_id e = None),
       with_recovery (λ m, <[en_request_id e := en_attribution e]> m) l))
    (false, l)
    (omap (λ '(_, _, versions), e ← last versions; if en_pending e then Some e else None) (records l)).

Section ledger.
(** [serde_json::to_string] on the scope tuple, from the crate. *)
Variable to_string : string * Z * string * string * string → string.

(** domain/usage/quota_ledger.rs:76-80 [scope_key] *)
Definition scope_key (source : string) (epoch : Z) (bucket share user : string) : string :=
  to_string (source, epoch, bucket, share, to_ascii_lowercase user).
Definition entry_scope (e : QuotaUsageEntry) : string :=
  scope_key (at_source_ref (en_attribution e)) (at_source_epoch (en_attribution e))
    (at_bucket_id (en_attribution e)) (en_share_id e) (en_user_email e).

(** domain/usage/quota_ledger.rs:141-158 [validate], one revision by itself *)
Definition check_entry (l : QuotaUsageLedger) (scope id : string) (e : QuotaUsageEntry)
  : result string () :=
  fail_if (negb (str_eqb (en_request_id e) id) || (en_watermark e =? 0)
    || (ul_watermark l <? en_watermark e) || (at_source_epoch (en_attribution e) =? 0)
    || (at_started_at_ms (en_attribution e) <? 0) || is_empty (at_source_ref (en_attribution e))
    || is_empty (at_bucket_id (en_attribution e)) || negb (str_eqb (entry_scope e) scope))
    "quota_usage_integrity_error".
(** domain/usage/quota_ledger.rs:159-168 [validate], a revision after the previous one *)
Definition check_link (previous : option QuotaUsageEntry) (e : QuotaUsageEntry) : result string () :=
  fail_if (from_option (λ prior, (en_usage_revision e <=? en_usage_revision prior)
      || (en_watermark e <=? en_watermark prior)
      || negb (bool_decide (en_attribution prior = en_attribution e))
      || negb (bool_decide (en_parent_request_id prior = en_parent_request_id e))
      || negb (Bool.eqb (en_count_request prior) (en_count_request e))) false previous)
    "quota_revision_conflict".
(** Each revision with the one before it. *)
Definition with_previous (versions : list QuotaUsageEntry)
  : list (option QuotaUsageEntry * QuotaUsageEntry) :=
  zip (None :: (Some <$> versions)) versions.
Definition entry_step (l : QuotaUsageLedger) (scope id : string) (watermarks : gset Z)
    (pe : option QuotaUsageEntry * QuotaUsageEntry) : result string (gset Z) :=
  seen ← distinct_step (λ pe, check_entry l scope id pe.2) (λ pe, en_watermark pe.2)
           "quota_usage_integrity_error" watermarks pe;
  _ ← check_link pe.1 pe.2;
  Ok seen.
(** domain/usage/quota_ledger.rs:133-170 [validate], one record with its revisions *)
Definition record_step (l : QuotaUsageLedger) (acc : gmap string string * gset Z)
    (r : string * string * list QuotaUsageEntry)
  : result string (gmap string string * gset Z) :=
  let '(scope, id, versions) := r in
  _ ← fail_if (bool_decide (versions = [])) "quota_usage_integrity_error";
  _ ← fail_if (bool_decide (is_Some (acc.1 !! id))) "quota_attribution_changed";
  seen ← try_fold (entry_step l scope id) acc.2 (with_previous versions);
  Ok (<[id := scope]> acc.1, seen).
(** domain/usage/quota_ledger.rs:127-184 [validate] *)
Definition usage_validate (l : QuotaUsageLedger) : result string () :=
  _ ← validate_metadata l;
  acc ← try_fold (record_step l) (∅, ∅) (records l);
  fail_if (negb (Z.of_nat (size acc.2) =? ul_watermark l)
           || negb (Nat.eqb (size acc.1) (size (ul_record_scopes l)))
           || existsb (λ '(id, scope), negb (bool_decide (ul_record_scopes l !! id = Some scope)))
                (btree_entries acc.1)) "quota_usage_missing_revisions".

(** [entries.entry(key).or_default().entry(id).or_default()] *)
Definition versions_of (l : QuotaUsageLedger) (key id : string) : list QuotaUsageEntry :=
  default [] (ul_entries l !! key ≫= λ recs, recs !! id).
Definition put_versions (key id : string) (versions : list QuotaUsageEntry)
  : QuotaUsageLedger → QuotaUsageLedger :=
  with_entries (λ m, <[key := <[id := versions]> (default ∅ (m !! key))]> m).
(** domain/usage/quota_ledger.rs:186-210 [insert_persisted] *)
Definition insert_persisted (l : QuotaUsageLedger) (e : QuotaUsageEntry)
  : result string QuotaUsageLedger :=
  let key := entry_scope e in
  if from_option (λ previous, negb (str_eqb previous key)) false
       (ul_record_scopes l !! en_request_id e)
  then Err "quota_attribution_changed"
  else
    let l := with_scopes (λ m, <[en_request_id e := key]> m) l in
    Ok (put_versions key (en_request_id e) (versions_of l key (en_request_id e) ++ [e]) l).
(** domain/usage/quota_ledger.rs:212-222 [metadata] *)
Definition metadata (l : QuotaUsageLedger) : QuotaUsageLedger :=
  mk_usage_ledger (ul_schema_version l) (ul_watermark l) (ul_coverage_from_ms l) ∅ ∅
    (ul_recovery_required l) (ul_integrity_error l).
(** domain/usage/quota_ledger.rs:224-230 [begin_collection] *)
Definition begin_collection (l : QuotaUsageLedger) (source : string) (at_ms : Z)
  : bool * QuotaUsageLedger :=
  match ul_coverage_from_ms l !! source with
  | Some _ => (false, l)
  | None => (true, with_coverage (λ m, <[source := at_ms]> m) l)
  end.
(** domain/usage/quota_ledger.rs:232-245 [complete_for] *)
Definition complete_for (l : QuotaUsageLedger) (cycle : AccountQuotaCycle) : bool :=
  (ul_schema_version l =? 1)
  && bool_decide (ul_integrity_error l = None)
  && from_option (λ start, start <=? cyc_starts_at_ms cycle) false
       (ul_coverage_from_ms l !! cyc_source_ref cycle)
  && negb (existsb (λ a, str_eqb (at_source_ref a) (cyc_source_ref cycle)
        && (at_source_epoch a =? cyc_source_epoch cycle)
        && str_eqb (at_bucket_id a) (cyc_bucket_id cycle)
        && cycle_contains cycle (at_started_at_ms a)) (btree_values (ul_recovery_required l))).
(** domain/usage/quota_ledger.rs:251-256 [validate_log], the scope the record already has *)
Definition previous_scope (l : QuotaUsageLedger) (id : string) : option string :=
  match ul_record_scopes l !! id with
  | Some scope => Some scope
  | None => fst <$> List.find (λ '(_, recs), bool_decide (is_Some (recs !! id)))
                      (btree_entries (ul_entries l))
  end.
Definition log_scope (log : UsageLog) (a : QuotaAttribution) : string :=
  scope_key (at_source_ref a) (at_source_epoch a) (at_bucket_id a)
    (default "" (log_share_id log)) (default "" (log_user_email log)).
(** domain/usage/quota_ledger.rs:247-305 [validate_log] *)
Definition validate_log (l : QuotaUsageLedger) (log : UsageLog) : result string () :=
  _ ← fail_if (negb (ul_schema_version l =? 1)) "unsupported_quota_usage_schema";
  let previous_scope := previous_scope l (log_request_id log) in
  match log_quota_attribution log with
  | None => fail_if (bool_decide (is_Some previous_scope)) "quota_attribution_changed"
  | Some a =>
      _ ← fail_if ((at_started_at_ms a <? 0) || (at_source_epoch a =? 0)
            || is_empty (at_source_ref a) || is_empty (at_bucket_id a)
            || bool_decide (log_share_id log = None) || bool_decide (log_user_email log = None)
            || negb (bool_decide (checked_i64 (log_started_at_ms log) = Some (at_started_at_ms a))))
            "quota_attribution_invalid";
      let key := log_scope log a in
      _ ← fail_if (from_option (λ previous, negb (str_eqb previous key)) false previous_scope)
            "quota_attribution_changed";
      match last (versions_of l key (log_request_id log)) with
      | None => Ok ()
      | Some previous =>
          _ ← fail_if (negb (bool_decide (en_attribution previous = a))
                || negb (bool_decide (en_parent_request_id previous = log_parent_request_id log)))
                "quota_attribution_changed";
          _ ← fail_if (negb (Bool.eqb (en_count_request previous)
                               (bool_decide (log_record_kind log = UserInference))))
                "quota_attribution_changed";
          fail_if ((en_usage_revision previous =? log_usage_revision log)
                   && negb (en_tokens previous =? quota_tokens log)) "quota_revision_conflict"
      end
  end.
(** domain/usage/quota_ledger.rs:349-360 [record], the revision it appends *)
Definition log_entry (log : UsageLog) (a : QuotaAttribution) (share user : string) (watermark : Z)
  : QuotaUsageEntry :=
  mk_entry (log_request_id log) (log_parent_request_id log) share (to_ascii_lowercase user) a
    (log_usage_revision log) watermark (quota_tokens log)
    (bool_decide (log_record_kind log = UserInference)) (bool_decide (log_usage_state log = Pending)).
(** domain/usage/quota_ledger.rs:307-362 [record] *)
Definition record (l : QuotaUsageLedger) (log : UsageLog) : result string bool * QuotaUsageLedger :=
  match validate_log l log with
  | Err e => (Err e, l)
  | Ok _ =>
      match log_quota_attribution log with
      | None => (Ok false, l)
      | Some a =>
          if bool_decide (log_record_kind log = HealthProbe) then (Ok false, l) else
          match log_share_id log, log_user_email log with
          | Some share, Some user =>
              let id := log_request_id log in
              let key := scope_key (at_source_ref a) (at_source_epoch a) (at_bucket_id a) share user in
              let l := with_scopes (λ m, <[id := key]> m) l in
              let versions := versions_of l key id in
              let l := put_versions key id versions l in
              if from_option (λ previous, log_usage_revision log <=? en_usage_revision previous)
                   false (last versions)
              then (Ok false, l)
              else
                let l :=
                  if bool_decide (log_failure_kind log = Some "server_restarted")
                  then with_recovery (λ m, <[id := a]> m) l
                  else if bool_decide (log_usage_state log = Observed)
                  then with_recovery (λ m, delete id m) l else l in
                match checked_u64 (ul_watermark l + 1) with
                | None => (Err "quota_usage_watermark_overflow", l)
                | Some w =>
                    (Ok true, put_versions key id (versions ++ [log_entry log a share user w])
                                (with_watermark w l))
                end
          | _, _ => (Ok false, l)
          end
      end
  end.
(** domain/usage/quota_ledger.rs:385-388 [query], a record's revision at a watermark *)
Definition entry_at (watermark : Z) (versions : list QuotaUsageEntry) : option QuotaUsageEntry :=
  List.find (λ e, en_watermark e <=? watermark) (reverse versions).
(** domain/usage/quota_ledger.rs:385-398 [query], what a record adds *)
Definition query_step (cycle : AccountQuotaCycle) (watermark : Z) (acc : Z * Z)
    (versions : list QuotaUsageEntry) : result string (Z * Z) :=
  match entry_at watermark versions with
  | Some e =>
      if cycle_contains cycle (at_started_at_ms (en_attribution e)) then
        tokens ← ok_or "quota_token_overflow" (checked_u64 (acc.1 + en_tokens e));
        requests ← ok_or "quota_request_overflow"
          (checked_u64 (acc.2 + (if en_count_request e then 1 else 0)));
        Ok (tokens, requests)
      else Ok acc
  | None => Ok acc
  end.
(** domain/usage/quota_ledger.rs:364-402 [query] *)
Definition query (l : QuotaUsageLedger) (cycle : AccountQuotaCycle) (share user : string)
    (watermark : Z) : result string (Z * Z) :=
  if negb (complete_for l cycle) then Err "history_incomplete" else
  let key := scope_key (cyc_source_ref cycle) (cyc_source_epoch cycle) (cyc_bucket_id cycle)
               share user in
  try_fold (query_step cycle watermark) (0, 0) (btree_values (default ∅ (ul_entries l !! key))).
(** domain/usage/quota_ledger.rs:404-409 [effective_with_baseline] *)
Definition effective_with_baseline (observed target observed_at_edit : Z) : Z :=
  saturate 0 U64_MAX (target + observed - observed_at_edit).
End ledger.
