(* ===== verification/QuotaLedgerValid.v ===== *)
(** * Exact quota usage: valid ledgers

    What [usage_validate] accepts, stated over the ledger's maps: every record sits in the
    scope its revisions name, its revisions are linked, and the watermarks are distinct and
    as many as the ledger's watermark. *)
From S2P Require Import Prelude RustStr QuotaCycle QuotaLedger.
From Stdlib Require Import ZArith Lia.

Local Open Scope Z_scope.

Definition all_entries (recs : list (string * string * list QuotaUsageEntry)) : list QuotaUsageEntry :=
  recs ≫= snd.
(** Two consecutive revisions of a record. *)
Record linked (a b : QuotaUsageEntry) : Prop := {
  li_revision : en_usage_revision a < en_usage_revision b;
  li_watermark : en_watermark a < en_watermark b;
  li_attribution : en_attribution a = en_attribution b;
  li_parent : en_parent_request_id a = en_parent_request_id b;
  li_count : en_count_request a = en_count_request b;
}.
Definition chained (vs : list QuotaUsageEntry) : Prop :=
  ∀ i a b, vs !! i = Some a → vs !! S i = Some b → linked a b.

Lemma check_link_Ok a b : check_link (Some a) b = Ok () ↔ linked a b.
Proof.
  unfold check_link. rewrite fail_if_Ok. cbn [from_option].
  rewrite !orb_false_iff, !Z.leb_gt, !negb_false_iff, !bool_decide_eq_true, Bool.eqb_true_iff.
  split; [intros [[[[? ?] ?] ?] ?]; by split|by intros []].
Qed.
Lemma with_previous_snd vs : (with_previous vs).*2 = vs.
Proof. unfold with_previous. apply snd_zip. simpl. rewrite length_fmap. lia. Qed.
Lemma links_Ok vs : (∀ pe, pe ∈ with_previous vs → check_link pe.1 pe.2 = Ok ()) ↔ chained vs.
Proof.
  assert (∀ i p e, with_previous vs !! i = Some (p, e) ↔
    vs !! i = Some e ∧ p = match i with O => None | S j => vs !! j end) as Hl.
  { intros i p e. unfold with_previous. rewrite lookup_zip_Some. destruct i as [|i]; simpl.
    - naive_solver.
    - rewrite list_lookup_fmap. split; [|intros [H ->]].
      + intros [H ?]. split; [done|]. destruct (vs !! i); naive_solver.
      + split; [|done]. destruct (vs !! i) eqn:E; [done|].
        apply lookup_ge_None in E. apply lookup_lt_Some in H. lia. }
  split.
  - intros H i a b Ha Hb. apply check_link_Ok. apply (H (Some a, b)).
    apply list_elem_of_lookup. exists (S i). by apply Hl.
  - intros H [p e] [i [He ->]%Hl]%list_elem_of_lookup. destruct i as [|i]; [done|].
    destruct (vs !! i) as [a|] eqn:Ea; [|done]. by apply check_link_Ok, (H i).
Qed.

Section valid.
Context (to_string : string * Z * string * string * string → string).
Notation check_entry := (check_entry to_string).
Notation entry_scope := (entry_scope to_string).
Notation record_step := (record_step to_string).

Record record_ok (l : QuotaUsageLedger) (scope id : string) (vs : list QuotaUsageEntry) : Prop := {
  ro_nonempty : vs ≠ [];
  ro_entries e : e ∈ vs → check_entry l scope id e = Ok ();
  ro_chained : chained vs;
}.
Record UValid (l : QuotaUsageLedger) : Prop := {
  uv_metadata : validate_metadata l = Ok ();
  uv_records scope recs id vs : ul_entries l !! scope = Some recs → recs !! id = Some vs →
    record_ok l scope id vs ∧ ul_record_scopes l !! id = Some scope;
  uv_scopes id scope : ul_record_scopes l !! id = Some scope →
    ∃ recs vs, ul_entries l !! scope = Some recs ∧ recs !! id = Some vs;
  uv_distinct : NoDup (en_watermark <$> all_entries (records l));
  uv_count : Z.of_nat (length (all_entries (records l))) = ul_watermark l;
}.

Lemma elem_of_records l scope id vs :
  (scope, id, vs) ∈ records l ↔ ∃ recs, ul_entries l !! scope = Some recs ∧ recs !! id = Some vs.
Proof.
  unfold records. rewrite list_elem_of_bind. split.
  - intros ([sc recs] & Hin & Hs%elem_of_btree_entries).
    apply list_elem_of_In, in_map_iff in Hin as ([i v] & [= -> -> ->] & Hi%list_elem_of_In%elem_of_btree_entries).
    by exists recs.
  - intros (recs & Hs & Hi). exists (scope, recs). split; [|by apply elem_of_btree_entries].
    apply list_elem_of_In, in_map_iff. exists (id, vs). split; [done|].
    by apply list_elem_of_In, elem_of_btree_entries.
Qed.

Lemma entry_steps_Ok l scope id vs seen seen' :
  try_fold (entry_step to_string l scope id) seen (with_previous vs) = Ok seen' ↔
  (∀ e, e ∈ vs → check_entry l scope id e = Ok () ∧ en_watermark e ∉ seen)
  ∧ chained vs ∧ NoDup (en_watermark <$> vs) ∧ seen' = list_to_set (en_watermark <$> vs) ∪ seen.
Proof.
  assert ((λ pe : option QuotaUsageEntry * QuotaUsageEntry, en_watermark pe.2) <$> with_previous vs
    = en_watermark <$> vs) as Hk by (by rewrite <-(with_previous_snd vs) at 2; rewrite <-list_fmap_compose).
  unfold entry_step. rewrite (try_fold_guard (distinct_step (λ pe, check_entry l scope id pe.2)
    (λ pe, en_watermark pe.2) "quota_usage_integrity_error") (λ pe, check_link pe.1 pe.2)), links_Ok.
  pose proof (try_fold_distinct (λ pe : option QuotaUsageEntry * QuotaUsageEntry, check_entry l scope id pe.2)
    (λ pe, en_watermark pe.2) "quota_usage_integrity_error" (with_previous vs) seen) as Hd.
  rewrite Hk in Hd. split.
  - intros [Hf Hc]. destruct (proj1 Hd ltac:(eauto)) as [He Hnd].
    apply try_fold_distinct_set in Hf as ->. rewrite Hk. split_and!; try done.
    intros e Hin. rewrite <-(with_previous_snd vs) in Hin.
    apply list_elem_of_fmap in Hin as (pe & -> & Hin). by apply He.
  - intros (He & Hc & Hnd & ->). split; [|done]. destruct (proj2 Hd) as [seen' Hf].
    + split; [|done]. intros pe Hin. apply He. rewrite <-(with_previous_snd vs).
      by apply list_elem_of_fmap_2.
    + rewrite Hf. f_equal. apply try_fold_distinct_set in Hf as ->. by rewrite Hk.
Qed.

Lemma record_steps_Ok l recs : ∀ ids0 seen0 ids seen,
  try_fold (record_step l) (ids0, seen0) recs = Ok (ids, seen) ↔
  (∀ scope id vs, (scope, id, vs) ∈ recs → record_ok l scope id vs ∧ ids0 !! id = None)
  ∧ NoDup (recs.*1.*2)
  ∧ (∀ e, e ∈ all_entries recs → en_watermark e ∉ seen0)
  ∧ NoDup (en_watermark <$> all_entries recs)
  ∧ ids = foldl (λ m r, <[r.1.2 := r.1.1]> m) ids0 recs
  ∧ seen = list_to_set (en_watermark <$> all_entries recs) ∪ seen0.
Proof.
  induction recs as [|[[scope id] vs] recs IH]; intros ids0 seen0 ids seen; cbn [try_fold].
  - split.
    + intros [= <- <-]. split_and!; [intros ??? H; inversion H|constructor|intros ? H; inversion H|
        constructor|done|set_solver].
    + intros (_ & _ & _ & _ & -> & ->). simpl. f_equal. f_equal. set_solver.
  - change (all_entries ((scope, id, vs) :: recs)) with (vs ++ all_entries recs).
    rewrite fmap_app, NoDup_app, list_to_set_app_L, !fmap_cons, NoDup_cons. cbn [fst snd foldl].
    unfold record_step at 1. cbn beta iota. rewrite bind_Ok. split.
    + intros ([ids1 seen1] & H & Hrest%IH).
      apply bind_Ok in H as ([] & Hne%fail_if_Ok%bool_decide_eq_false & H).
      apply bind_Ok in H as ([] & Hid%fail_if_Ok%bool_decide_eq_false & H). cbn [fst snd] in *.
      apply bind_Ok in H as (seen2 & (He & Hc & Hnd & ->)%entry_steps_Ok & [= <- <-]).
      apply eq_None_not_Some in Hid. destruct Hrest as (Hr & Hnd1 & Hs & Hnd2 & -> & ->).
      assert (∀ sc i v, (sc, i, v) ∈ recs → i ≠ id ∧ ids0 !! i = None) as Hids.
      { intros sc i v Hin. destruct (Hr _ _ _ Hin) as [_ Hl].
        destruct (decide (id = i)) as [->|]; [by rewrite lookup_insert_eq in Hl|].
        by rewrite lookup_insert_ne in Hl. }
      split_and!; try done.
      * intros sc i v [[= -> -> ->]|Hin]%elem_of_cons; [by split; [split; [|apply He|]|]|].
        split; [by destruct (Hr _ _ _ Hin)|by destruct (Hids _ _ _ Hin)].
      * intros (sci & -> & ([[sc i] v] & -> & Hin)%list_elem_of_fmap)%list_elem_of_fmap.
        by destruct (Hids _ _ _ Hin).
      * intros e [Hin|Hin]%elem_of_app; [by apply He|]. specialize (Hs e Hin). set_solver.
      * intros w (e & -> & Hin)%list_elem_of_fmap (e' & Hw & Hin')%list_elem_of_fmap.
        apply (Hs e' Hin'). rewrite <-Hw. apply elem_of_union_l, elem_of_list_to_set.
        by apply list_elem_of_fmap_2.
      * set_solver.
    + intros (Hr & [Hnid Hnd1] & Hs & (Hnd & Hdis & Hnd2) & -> & ->).
      destruct (Hr scope id vs ltac:(left)) as [[Hne He Hc] Hid].
      exists (<[id := scope]> ids0, list_to_set (en_watermark <$> vs) ∪ seen0). split.
      * unfold record_step. cbn [fst snd]. rewrite (bool_decide_eq_false_2 (vs = [])) by done.
        rewrite (bool_decide_eq_false_2 (is_Some _)) by (rewrite Hid; by intros [? ?]).
        cbn [fail_if mbind result_bind fst snd].
        rewrite (proj2 (entry_steps_Ok l scope id vs seen0 (list_to_set (en_watermark <$> vs) ∪ seen0)));
          [done|]. split_and!; try done.
        intros e Hin. split; [by apply He|]. apply Hs, elem_of_app. by left.
      * apply IH. split_and!; try done.
        -- intros sc i v Hin. destruct (Hr sc i v ltac:(by right)) as [Hro Hi]. split; [done|].
           rewrite lookup_insert_ne; [done|]. intros <-. apply Hnid.
           apply list_elem_of_fmap. exists (sc, id). split; [done|].
           apply list_elem_of_fmap. by exists (sc, id, v).
        -- intros e Hin [Hw%elem_of_list_to_set|Hw]%elem_of_union.
           ++ apply (Hdis _ Hw). by apply list_elem_of_fmap_2.
           ++ apply (Hs e); [|done]. apply elem_of_app. by right.
        -- set_solver.
Qed.

Definition identities (recs : list (string * string * list QuotaUsageEntry)) : gmap string string :=
  foldl (λ m r, <[r.1.2 := r.1.1]> m) ∅ recs.
Lemma identities_lookup_go (recs : list (string * string * list QuotaUsageEntry))
    (m0 : gmap string string) id scope : NoDup (recs.*1.*2) →
  foldl (λ m r, <[r.1.2 := r.1.1]> m) m0 recs !! id = Some scope ↔
  (∃ vs, (scope, id, vs) ∈ recs) ∨ (m0 !! id = Some scope ∧ id ∉ recs.*1.*2).
Proof.
  revert m0. induction recs as [|[[sc i] v] recs IH]; intros m0; simpl.
  - intros _. split; [by right; split; [|apply not_elem_of_nil]|].
    intros [[vs H]|[? _]]; [inversion H|done].
  - intros [Hn Hnd]%NoDup_cons. rewrite IH by done. rewrite lookup_insert_Some.
    setoid_rewrite elem_of_cons. split.
    + intros [[vs ?]|[[[-> ->]|[Hne Hm]] Hni]]; [by eauto|by eauto|]. right. naive_solver.
    + intros [[vs [[= -> -> ->]|?]]|[Hm Hni]]; [|by eauto|].
      * right. split; [by left|done].
      * right. split; [|naive_solver]. right. split; [|done]. intros ->. apply Hni. by left.
Qed.
Lemma identities_lookup recs id scope : NoDup (recs.*1.*2) →
  identities recs !! id = Some scope ↔ ∃ vs, (scope, id, vs) ∈ recs.
Proof.
  intros Hnd. unfold identities. rewrite identities_lookup_go by done. rewrite lookup_empty.
  naive_solver.
Qed.
Lemma NoDup_records l : NoDup (records l).
Proof.
  unfold records. apply NoDup_bind; [| |apply NoDup_btree_entries].
  - intros [s1 r1] [s2 r2] [[s i] v] H1 H2 Hy1 Hy2.
    apply list_elem_of_In, in_map_iff in Hy1 as ([??] & [= -> -> ->] & _).
    apply list_elem_of_In, in_map_iff in Hy2 as ([??] & [= -> -> ->] & _).
    apply elem_of_btree_entries in H1, H2. by simplify_eq.
  - intros [sc recs] _. change (NoDup ((λ '(id, vs), (sc, id, vs)) <$> btree_entries recs)).
    apply NoDup_fmap_2; [|apply NoDup_btree_entries]. intros [??] [??] ?. by simplify_eq.
Qed.

Lemma usage_validate_Ok l : usage_validate to_string l = Ok () ↔ UValid l.
Proof.
  unfold usage_validate. split.
  - intros H. apply bind_Ok in H as ([] & Hmeta & H). apply bind_Ok in H as ([ids seen] & Hf & H).
    apply fail_if_Ok in H. rewrite !orb_false_iff, !negb_false_iff in H.
    destruct H as [[Hw%Z.eqb_eq Hsz%Nat.eqb_eq] Hex]. cbn [fst snd] in *.
    apply record_steps_Ok in Hf as (Hr & Hnd & _ & Hndw & -> & ->). fold (identities (records l)) in *.
    rewrite union_empty_r_L, size_list_to_set, length_fmap in Hw by done.
    assert (identities (records l) = ul_record_scopes l) as Heq.
    { apply map_subseteq_size_eq; [|lia]. apply map_subseteq_spec. intros id scope Hi.
      destruct (decide (ul_record_scopes l !! id = Some scope)) as [|Hne]; [done|]. exfalso.
      apply not_true_iff_false in Hex. apply Hex, existsb_exists. exists (id, scope).
      split; [by apply list_elem_of_In, elem_of_btree_entries|]. by rewrite bool_decide_eq_false_2. }
    split; try done.
    + intros scope recs id vs Hs Hi. assert ((scope, id, vs) ∈ records l) as Hin by (apply elem_of_records; eauto).
      split; [by apply Hr|]. rewrite <-Heq. apply identities_lookup; [done|]. eauto.
    + intros id scope. rewrite <-Heq, identities_lookup by done.
      intros (vs & (recs & ? & ?)%elem_of_records). eauto.
  - intros [Hmeta Hrec Hsc Hnd Hcount]. rewrite Hmeta. cbn [mbind result_bind].
    assert (∀ scope id vs, (scope, id, vs) ∈ records l →
      record_ok l scope id vs ∧ ul_record_scopes l !! id = Some scope) as Hr.
    { intros scope id vs (recs & ? & ?)%elem_of_records. by eapply Hrec. }
    assert (NoDup (records l).*1.*2) as Hndi.
    { rewrite <-list_fmap_compose. apply NoDup_fmap_2_strong; [|apply NoDup_records].
      intros [[s1 i1] v1] [[s2 i2] v2] H1 H2 Hi. simpl in Hi. subst i2.
      pose proof (Hr _ _ _ H1) as [_ E1]. pose proof (Hr _ _ _ H2) as [_ E2]. simplify_eq.
      apply elem_of_records in H1 as (r1 & ? & ?), H2 as (r2 & ? & ?). by simplify_eq. }
    rewrite (proj2 (record_steps_Ok l (records l) ∅ ∅ (identities (records l))
      (list_to_set (en_watermark <$> all_entries (records l)) ∪ ∅))).
    2:{ split_and!; try done. intros scope id vs Hin. split; [by apply Hr|done]. }
    cbn [mbind result_bind fst snd]. rewrite union_empty_r_L, size_list_to_set, length_fmap by done.
    assert (identities (records l) = ul_record_scopes l) as ->.
    { apply map_eq. intros id. apply option_eq. intros scope. rewrite identities_lookup by done. split.
      - intros [vs Hin]. by apply Hr in Hin as [_ ?].
      - intros (recs & vs & ? & ?)%Hsc. exists vs. apply elem_of_records. eauto. }
    apply fail_if_Ok. rewrite !orb_false_iff, !negb_false_iff, Z.eqb_eq, Nat.eqb_eq. split_and!; [done|done|].
    apply not_true_iff_false. intros ([id scope] & Hin & Hb)%existsb_exists.
    apply list_elem_of_In, elem_of_btree_entries in Hin. by rewrite bool_decide_eq_true_2 in Hb.
Qed.
End valid.
