(* ===== verification/QuotaLedgerProofs.v ===== *)
(** * Exact quota usage: the operations

    [record] keeps a ledger valid and only ever appends, queries at a past watermark are
    stable, a later revision replaces an earlier one, and the persisted table rebuilds the
    ledger. *)
From S2P Require Import Prelude RustStr QuotaCycle QuotaLedger QuotaLedgerValid.
From Stdlib Require Import ZArith Lia.

Local Open Scope Z_scope.

Section ops.
Context (to_string : string * Z * string * string * string → string).
Notation record := (record to_string).
Notation UValid := (UValid to_string).
Notation record_ok := (record_ok to_string).

(** ** All revisions of a ledger *)
Definition scope_entries (e : string * gmap string (list QuotaUsageEntry)) : list QuotaUsageEntry :=
  flat_map_entries snd e.2.
Lemma all_entries_perm l :
  all_entries (records l) ≡ₚ flat_map_entries scope_entries (ul_entries l).
Proof.
  unfold all_entries, records, flat_map_entries. rewrite <-btree_entries_perm.
  induction (btree_entries (ul_entries l)) as [|[sc recs] es IH]; [done|].
  cbn [mbind list_bind]. rewrite bind_app. apply Permutation_app; [|exact IH].
  unfold scope_entries, flat_map_entries. cbn [snd].
  assert (∀ xs : list (string * list QuotaUsageEntry),
    (map (λ '(id, versions), (sc, id, versions)) xs ≫= snd) = xs ≫= snd) as Hm.
  { induction xs as [|[i v] xs IHxs]; [done|]. cbn. by f_equal. }
  by rewrite Hm, btree_entries_perm.
Qed.
Lemma all_entries_put l key id vs :
  all_entries (records (put_versions key id vs l)) ++ versions_of l key id ≡ₚ
  vs ++ all_entries (records l).
Proof.
  rewrite !all_entries_perm. unfold put_versions, versions_of. cbn [ul_entries with_entries].
  set (R := default ∅ (ul_entries l !! key)). set (R' := <[id := vs]> R).
  assert (default [] (ul_entries l !! key ≫= λ recs, recs !! id) = from_option (λ y, y) [] (R !! id)) as Hold.
  { unfold R. by destruct (ul_entries l !! key) as [recs|]; simpl; [destruct (recs !! id)|]. }
  rewrite Hold. clear Hold.
  pose proof (flat_map_insert scope_entries (ul_entries l) key R') as H1.
  pose proof (flat_map_insert snd R id vs) as H2. fold R' in H2. cbn [snd] in H2.
  assert (from_option (λ y, scope_entries (key, y)) [] (ul_entries l !! key) = flat_map_entries snd R) as HR.
  { unfold R. by destruct (ul_entries l !! key). }
  rewrite HR in H1. unfold scope_entries at 2 in H1. cbn [snd] in H1.
  apply (Permutation_app_inv_l (flat_map_entries snd R)).
  rewrite (Permutation_app_comm (flat_map_entries snd R)), <-app_assoc.
  rewrite (Permutation_app_comm _ (flat_map_entries snd R)), app_assoc, H1, <-app_assoc.
  rewrite (Permutation_app_comm (flat_map_entries scope_entries _)), app_assoc.
  rewrite H2, <-app_assoc. by rewrite Permutation_app_swap_app.
Qed.

(** ** What [record] leaves *)
Record attribution_ok (a : QuotaAttribution) : Prop := {
  ao_started : 0 ≤ at_started_at_ms a;
  ao_epoch : at_source_epoch a ≠ 0;
  ao_source : at_source_ref a ≠ "";
  ao_bucket : at_bucket_id a ≠ "";
}.
Lemma validate_metadata_Ok l : validate_metadata l = Ok () ↔
  ul_schema_version l = 1
  ∧ (∀ source start, ul_coverage_from_ms l !! source = Some start → source ≠ "" ∧ 0 ≤ start)
  ∧ (∀ id a, ul_recovery_required l !! id = Some a → attribution_ok a).
Proof.
  unfold validate_metadata. rewrite bind_Ok. split.
  - intros ([] & Hs%fail_if_Ok%negb_false_iff%Z.eqb_eq & [Hc Hr]%fail_if_Ok%orb_false_iff).
    split_and!; [done|..].
    + intros source start Hk. apply not_true_iff_false in Hc.
      destruct (is_empty source || (start <? 0)) eqn:E.
      * exfalso. apply Hc, existsb_exists. exists (source, start).
        split; [by apply list_elem_of_In, elem_of_btree_entries|done].
      * apply orb_false_iff in E as [?%is_empty_false ?%Z.ltb_ge]. done.
    + intros id a Hk. apply not_true_iff_false in Hr.
      destruct (is_empty (at_source_ref a) || (at_source_epoch a =? 0) || is_empty (at_bucket_id a)
                || (at_started_at_ms a <? 0)) eqn:E.
      * exfalso. apply Hr, existsb_exists. exists a.
        split; [apply list_elem_of_In, elem_of_btree_values; eauto|done].
      * rewrite !orb_false_iff, !is_empty_false, Z.eqb_neq, Z.ltb_ge in E.
        destruct E as [[[? ?] ?] ?]. by split.
  - intros (Hs & Hc & Hr). exists (). rewrite Hs. split; [done|]. apply fail_if_Ok, orb_false_iff. split.
    + apply not_true_iff_false. intros ([source start] & Hin & Hb)%existsb_exists.
      apply list_elem_of_In, elem_of_btree_entries in Hin. destruct (Hc _ _ Hin) as [Hn%is_empty_false ?].
      rewrite Hn in Hb. by apply Z.ltb_lt in Hb; lia.
    + apply not_true_iff_false. intros (a & Hin & Hb)%existsb_exists.
      apply list_elem_of_In, elem_of_btree_values in Hin as [id Hk]. destruct (Hr _ _ Hk) as [? ? ? ?].
      rewrite !orb_true_iff, !is_empty_true, Z.eqb_eq, Z.ltb_lt in Hb. naive_solver lia.
Qed.
Lemma check_entry_Ok l scope id e : check_entry to_string l scope id e = Ok () ↔
  en_request_id e = id ∧ en_watermark e ≠ 0 ∧ en_watermark e ≤ ul_watermark l
  ∧ attribution_ok (en_attribution e) ∧ entry_scope to_string e = scope.
Proof.
  unfold check_entry. rewrite fail_if_Ok, !orb_false_iff, !negb_false_iff, !is_empty_false.
  rewrite !Z.eqb_neq, !Z.ltb_ge, !str_eqb_eq. split.
  - intros [[[[[[[? ?] ?] ?] ?] ?] ?] ?]. by split_and!.
  - intros (? & ? & ? & [] & ?). by split_and!.
Qed.

Record recorded (l l' : QuotaUsageLedger) (log : UsageLog) (key : string)
    (vs : list QuotaUsageEntry) (e : QuotaUsageEntry) : Prop := {
  rc_schema : ul_schema_version l' = ul_schema_version l;
  rc_coverage : ul_coverage_from_ms l' = ul_coverage_from_ms l;
  rc_integrity : ul_integrity_error l' = ul_integrity_error l;
  rc_watermark : ul_watermark l' = ul_watermark l + 1 ∧ ul_watermark l' ≤ U64_MAX;
  rc_scopes : ul_record_scopes l' = <[log_request_id log := key]> (ul_record_scopes l);
  rc_entries : ul_entries l' = ul_entries (put_versions key (log_request_id log) (vs ++ [e]) l);
  rc_recovery id a : ul_recovery_required l' !! id = Some a →
    ul_recovery_required l !! id = Some a ∨ a = en_attribution e;
  rc_versions : vs = versions_of l key (log_request_id log);
  rc_entry : ∃ a share user, log_quota_attribution log = Some a ∧ log_share_id log = Some share
    ∧ log_user_email log = Some user ∧ e = log_entry log a share user (ul_watermark l')
    ∧ attribution_ok a;
  rc_key : key = entry_scope to_string e;
  rc_linked p : last vs = Some p → en_usage_revision p < log_usage_revision log
    ∧ en_attribution p = en_attribution e ∧ en_parent_request_id p = en_parent_request_id e
    ∧ en_count_request p = en_count_request e;
  rc_scope_free scope : ul_record_scopes l !! log_request_id log = Some scope → scope = key;
}.
Lemma entry_scope_log log a share user w :
  entry_scope to_string (log_entry log a share user w) =
  scope_key to_string (at_source_ref a) (at_source_epoch a) (at_bucket_id a) share user.
Proof. unfold entry_scope, scope_key. cbn. by rewrite to_ascii_lowercase_idemp. Qed.

Lemma validate_log_attributed l log a : validate_log to_string l log = Ok () →
  log_quota_attribution log = Some a →
  ∃ share user, log_share_id log = Some share ∧ log_user_email log = Some user
    ∧ attribution_ok a ∧ checked_i64 (log_started_at_ms log) = Some (at_started_at_ms a)
    ∧ (∀ scope, ul_record_scopes l !! log_request_id log = Some scope →
        scope = scope_key to_string (at_source_ref a) (at_source_epoch a) (at_bucket_id a) share user)
    ∧ (∀ p, last (versions_of l (scope_key to_string (at_source_ref a) (at_source_epoch a)
              (at_bucket_id a) share user) (log_request_id log)) = Some p →
        en_attribution p = a ∧ en_parent_request_id p = log_parent_request_id log
        ∧ en_count_request p = bool_decide (log_record_kind log = UserInference)
        ∧ (en_usage_revision p = log_usage_revision log → en_tokens p = quota_tokens log)).
Proof.
  unfold validate_log. intros H Ha. apply bind_Ok in H as ([] & _ & H). rewrite Ha in H.
  apply bind_Ok in H as ([] & Hc%fail_if_Ok & H). apply bind_Ok in H as ([] & Hp%fail_if_Ok & H).
  rewrite !orb_false_iff, !is_empty_false, !bool_decide_eq_false, negb_false_iff,
    bool_decide_eq_true, Z.ltb_ge, Z.eqb_neq in Hc.
  destruct Hc as [[[[[[? ?] ?] ?] Hsh] Hus] Hst].
  unfold log_scope in *.
  destruct (log_share_id log) as [share|]; [|done]. destruct (log_user_email log) as [user|]; [|done].
  cbn [from_option Datatypes.id] in *. exists share, user. split_and!; [done..|by split|done| |].
  - intros scope Hs. unfold previous_scope in Hp. rewrite Hs in Hp. cbn [from_option] in Hp.
    by apply negb_false_iff, str_eqb_eq in Hp.
  - intros p Hl. rewrite Hl in H. apply bind_Ok in H as ([] & Ha1%fail_if_Ok & H).
    apply bind_Ok in H as ([] & Ha2%fail_if_Ok & Ha3%fail_if_Ok).
    rewrite orb_false_iff, !negb_false_iff, !bool_decide_eq_true in Ha1. destruct Ha1.
    rewrite negb_false_iff, Bool.eqb_true_iff in Ha2. split_and!; [done..|].
    intros Hr. rewrite Hr, Z.eqb_refl in Ha3. cbn [andb] in Ha3. by apply negb_false_iff, Z.eqb_eq in Ha3.
Qed.

Lemma record_true l log l' : record l log = (Ok true, l') →
  ∃ key vs e, recorded l l' log key vs e.
Proof.
  unfold QuotaLedger.record. destruct (validate_log to_string l log) as [[]|] eqn:Hval; [|done].
  destruct (log_quota_attribution log) as [a|] eqn:Ha; [|done].
  destruct (validate_log_attributed l log a Hval Ha) as (share & user & Hsh & Hus & Hao & Hst & Hsc & Hlast).
  destruct (bool_decide (log_record_kind log = HealthProbe)); [done|]. rewrite Hsh, Hus.
  set (key := scope_key to_string (at_source_ref a) _ _ share user) in *.
  set (vs := versions_of l key (log_request_id log)) in *.
  change (versions_of (with_scopes _ l) key (log_request_id log)) with vs.
  destruct (from_option _ false (last vs)) eqn:Hrev; [done|].
  set (l2 := if bool_decide (log_failure_kind log = _) then _ else _).
  assert (∃ f, l2 = with_recovery f (put_versions key (log_request_id log) vs
             (with_scopes (λ m, <[log_request_id log := key]> m) l))
    ∧ ∀ id x, f (ul_recovery_required l) !! id = Some x → ul_recovery_required l !! id = Some x ∨ x = a)
    as (f & -> & Hf).
  { unfold l2. destruct (bool_decide (log_failure_kind log = _)); [|destruct (bool_decide (_ = Observed))].
    - exists (λ m, <[log_request_id log := a]> m). split; [done|].
      intros id x [[_ <-]|[_ ?]]%lookup_insert_Some; auto.
    - exists (λ m, delete (log_request_id log) m). split; [done|].
      intros id x [_ ?]%lookup_delete_Some. auto.
    - exists (λ m, m). split; [by destruct l|auto]. }
  destruct (checked_u64 _) as [w|] eqn:Ew; [|done].
  apply checked_Some in Ew as [-> Hw]. intros [= <-].
  exists key, vs, (log_entry log a share user (ul_watermark l + 1)). split; simpl; try done.
  - simpl in Hw. lia.
  - rewrite lookup_insert_eq. cbn [from_option Datatypes.id]. by rewrite !insert_insert_eq.
  - eexists _, _, _. by split_and!.
  - by rewrite entry_scope_log.
  - intros p Hp. rewrite Hp in Hrev. cbn [from_option] in Hrev. apply Z.leb_gt in Hrev.
    by destruct (Hlast p Hp) as (? & ? & ? & _).
Qed.

Section recorded.
Context (l l' : QuotaUsageLedger) (log : UsageLog) (key : string) (vs : list QuotaUsageEntry)
  (e : QuotaUsageEntry).
Context (Hv : UValid l) (Hr : recorded l l' log key vs e).

Lemma recorded_entry : en_request_id e = log_request_id log ∧ en_watermark e = ul_watermark l + 1
  ∧ en_usage_revision e = log_usage_revision log ∧ en_tokens e = quota_tokens log
  ∧ attribution_ok (en_attribution e).
Proof. destruct (rc_entry _ _ _ _ _ _ Hr) as (a & share & user & _ & _ & _ & -> & ?). by rewrite (proj1 (rc_watermark _ _ _ _ _ _ Hr)). Qed.
Lemma recorded_lookup scope recs id ws : ul_entries l' !! scope = Some recs → recs !! id = Some ws →
  (scope = key ∧ id = log_request_id log ∧ ws = vs ++ [e])
  ∨ ((scope, id) ≠ (key, log_request_id log)
     ∧ ∃ recs0, ul_entries l !! scope = Some recs0 ∧ recs0 !! id = Some ws).
Proof.
  rewrite (rc_entries _ _ _ _ _ _ Hr). simpl. intros [[<- <-]|[Hne Hs]]%lookup_insert_Some.
  - intros [[<- <-]|[Hne Hi]]%lookup_insert_Some; [by left|]. right. split; [congruence|].
    destruct (ul_entries l !! key) as [recs0|]; [by exists recs0|done].
  - intros Hi. right. split; [congruence|]. by exists recs.
Qed.
Lemma recorded_lookup_inv scope recs0 id ws : ul_entries l !! scope = Some recs0 → recs0 !! id = Some ws →
  ∃ recs, ul_entries l' !! scope = Some recs ∧
    recs !! id = Some (if decide ((scope, id) = (key, log_request_id log)) then vs ++ [e] else ws).
Proof.
  intros Hs Hi. rewrite (rc_entries _ _ _ _ _ _ Hr). simpl.
  destruct (decide (scope = key)) as [->|Hne].
  - rewrite lookup_insert_eq. eexists. split; [done|]. rewrite Hs. cbn [from_option Datatypes.id].
    destruct (decide (id = log_request_id log)) as [->|Hni].
    + by rewrite lookup_insert_eq, decide_True.
    + rewrite lookup_insert_ne by done. by rewrite decide_False by congruence.
  - rewrite lookup_insert_ne by done. exists recs0. by rewrite decide_False by congruence.
Qed.
Lemma recorded_perm : all_entries (records l') ≡ₚ e :: all_entries (records l).
Proof.
  pose proof (all_entries_put l key (log_request_id log) (vs ++ [e])) as Hp.
  rewrite <-(rc_versions _ _ _ _ _ _ Hr) in Hp.
  assert (records l' = records (put_versions key (log_request_id log) (vs ++ [e]) l)) as ->.
  { unfold records. by rewrite (rc_entries _ _ _ _ _ _ Hr). }
  apply (Permutation_app_inv_r vs). rewrite Hp, <-app_assoc. simpl.
  rewrite (Permutation_app_comm vs). simpl. by rewrite Permutation_app_comm.
Qed.
Lemma recorded_chained : chained (vs ++ [e]).
Proof.
  assert (chained vs ∧ ∀ p, last vs = Some p → en_watermark p ≤ ul_watermark l) as [Hc Hw].
  { rewrite (rc_versions _ _ _ _ _ _ Hr). unfold versions_of.
    destruct (ul_entries l !! key) as [recs|] eqn:Es; simpl; [|by split; [intros ? ? ? ?|]].
    destruct (recs !! log_request_id log) as [ws|] eqn:Ei; simpl; [|by split; [intros ? ? ? ?|]].
    destruct (uv_records _ _ Hv _ _ _ _ Es Ei) as [[_ He Hc] _]. split; [done|].
    intros p Hp%last_Some_elem_of%He%check_entry_Ok. by destruct Hp as (_ & _ & ? & _). }
  intros i a b Ha Hb. destruct (decide (S i < length vs)%nat) as [Hlt|Hge].
  - rewrite lookup_app_l in Ha, Hb by lia. by apply (Hc i).
  - rewrite lookup_app_r in Hb by lia. destruct (S i - length vs)%nat eqn:Ei; [|done].
    simpl in Hb. injection Hb as <-. rewrite lookup_app_l in Ha by lia.
    assert (last vs = Some a) as Hl by (rewrite last_lookup; by replace (pred (length vs)) with i by lia).
    destruct (rc_linked _ _ _ _ _ _ Hr a Hl) as (Hrv & Hat & Hpa & Hco).
    destruct recorded_entry as (_ & Hwm & Hre & _). specialize (Hw a Hl).
    split; [by rewrite Hre|lia|done|done|done].
Qed.
Lemma recorded_UValid : UValid l'.
Proof.
  destruct recorded_entry as (Hid & Hwm & Hrev & _ & Hao).
  destruct (rc_watermark _ _ _ _ _ _ Hr) as [Hw _].
  pose proof (uv_count _ _ Hv) as Hcount.
  assert (∀ scope id ws, record_ok l scope id ws → record_ok l' scope id ws) as Hmono.
  { intros scope id ws [? He ?]. split; [done| |done]. intros x Hx. specialize (He x Hx).
    apply check_entry_Ok in He as (? & ? & ? & ? & ?). apply check_entry_Ok. split_and!; try done. lia. }
  split.
  - pose proof (uv_metadata _ _ Hv) as (Hs & Hc & Hrec)%validate_metadata_Ok.
    apply validate_metadata_Ok. rewrite (rc_schema _ _ _ _ _ _ Hr), (rc_coverage _ _ _ _ _ _ Hr).
    split_and!; [done..|]. intros id a [Ha|Ha]%(rc_recovery _ _ _ _ _ _ Hr); [by eapply Hrec|by rewrite Ha].
  - intros scope recs id ws Hs Hi. rewrite (rc_scopes _ _ _ _ _ _ Hr).
    destruct (recorded_lookup _ _ _ _ Hs Hi) as [(-> & -> & ->)|(Hne & recs0 & Hs0 & Hi0)].
    + rewrite lookup_insert_eq. split; [|done]. split; [by destruct vs| |apply recorded_chained].
      intros x [Hx|Hx]%elem_of_app.
      * rewrite (rc_versions _ _ _ _ _ _ Hr) in Hx. unfold versions_of in Hx.
        destruct (ul_entries l !! key) as [recs0|] eqn:Es; [|inversion Hx]. simpl in Hx.
        destruct (recs0 !! log_request_id log) as [ws|] eqn:Ei; [|inversion Hx].
        by apply (Hmono key _ ws); [by eapply uv_records|].
      * apply list_elem_of_singleton in Hx as ->. apply check_entry_Ok.
        split_and!; [done|lia|lia|done|by rewrite <-(rc_key _ _ _ _ _ _ Hr)].
    + destruct (uv_records _ _ Hv _ _ _ _ Hs0 Hi0) as [Hok Hsc]. split; [by apply Hmono|].
      destruct (decide (id = log_request_id log)) as [->|].
      * apply (rc_scope_free _ _ _ _ _ _ Hr) in Hsc as ->. done.
      * by rewrite lookup_insert_ne.
  - intros id scope. rewrite (rc_scopes _ _ _ _ _ _ Hr). intros [[<- <-]|[Hne Hsc]]%lookup_insert_Some.
    + rewrite (rc_entries _ _ _ _ _ _ Hr). simpl. rewrite lookup_insert_eq.
      eexists _, _. split; [done|]. by rewrite lookup_insert_eq.
    + destruct (uv_scopes _ _ Hv _ _ Hsc) as (recs & ws & Hs & Hi).
      destruct (recorded_lookup_inv _ _ _ _ Hs Hi) as (recs' & Hs' & Hi'). eauto.
  - rewrite recorded_perm, fmap_cons, NoDup_cons. split; [|apply (uv_distinct _ _ Hv)].
    intros (x & Hx & Hin)%list_elem_of_fmap.
    unfold all_entries in Hin. apply list_elem_of_bind in Hin as ([[sc i] ws] & Hxw & Hin).
    apply elem_of_records in Hin as (recs & Hs & Hi).
    destruct (uv_records _ _ Hv _ _ _ _ Hs Hi) as [[_ He _] _]. specialize (He x Hxw).
    apply check_entry_Ok in He as (_ & _ & ? & _). lia.
  - rewrite recorded_perm, Hw. simpl length. lia.
Qed.
End recorded.

(** A revision already known leaves a valid ledger unchanged. *)
Lemma record_false l log l' : UValid l → record l log = (Ok false, l') → l' = l.
Proof.
  intros Hv. unfold QuotaLedger.record. destruct (validate_log to_string l log) as [[]|]; [|done].
  destruct (log_quota_attribution log) as [a|]; [|by intros [= <-]].
  destruct (bool_decide (log_record_kind log = HealthProbe)); [by intros [= <-]|].
  destruct (log_share_id log) as [share|]; [|by intros [= <-]].
  destruct (log_user_email log) as [user|]; [|by intros [= <-]].
  set (key := scope_key to_string (at_source_ref a) _ _ share user) in *.
  change (versions_of (with_scopes _ l) key (log_request_id log)) with (versions_of l key (log_request_id log)).
  destruct (from_option _ false (last (versions_of l key (log_request_id log)))) eqn:Hrev.
  - intros [= <-]. unfold versions_of in *. destruct (ul_entries l !! key) as [recs|] eqn:Es; simpl in Hrev; [|done].
    simpl. destruct (recs !! log_request_id log) as [vs|] eqn:Ei; [|done]. simpl in *.
    destruct (uv_records _ _ Hv _ _ _ _ Es Ei) as [_ Hsc].
    unfold put_versions, with_entries, with_scopes. simpl. rewrite Es. simpl.
    rewrite (insert_id recs _ _ Ei), (insert_id _ _ _ Es), (insert_id _ _ _ Hsc). by destruct l.
  - destruct (bool_decide (log_failure_kind log = _)); [|destruct (bool_decide (_ = Observed))];
      (destruct (checked_u64 _); done).
Qed.

(** ** Queries as sums *)
(** The revision of a record a query counts. *)
Definition counted (cycle : AccountQuotaCycle) (w : Z) (vs : list QuotaUsageEntry)
  : option QuotaUsageEntry :=
  e ← entry_at w vs; if cycle_contains cycle (at_started_at_ms (en_attribution e)) then Some e else None.
Definition counted_entries (cycle : AccountQuotaCycle) (w : Z)
    (recs : gmap string (list QuotaUsageEntry)) : list QuotaUsageEntry :=
  flat_map_entries (λ r, option_list (counted cycle w r.2)) recs.
Definition sum_tokens (es : list QuotaUsageEntry) : Z := foldr (λ e n, en_tokens e + n) 0 es.
Definition sum_requests (es : list QuotaUsageEntry) : Z :=
  foldr (λ e n, (if en_count_request e then 1 else 0) + n) 0 es.
#[export] Instance sum_tokens_perm : Proper ((≡ₚ) ==> (=)) sum_tokens.
Proof. intros l k. induction 1; simpl; lia. Qed.
#[export] Instance sum_requests_perm : Proper ((≡ₚ) ==> (=)) sum_requests.
Proof. intros l k. induction 1; simpl; lia. Qed.
Lemma sum_tokens_app l k : sum_tokens (l ++ k) = sum_tokens l + sum_tokens k.
Proof. induction l; simpl; lia. Qed.
Lemma sum_requests_app l k : sum_requests (l ++ k) = sum_requests l + sum_requests k.
Proof. induction l; simpl; lia. Qed.
Lemma sum_option o : sum_tokens (option_list o) = from_option en_tokens 0 o
  ∧ sum_requests (option_list o) = from_option (λ e, if en_count_request e then 1 else 0) 0 o.
Proof. destruct o; simpl; lia. Qed.

Definition query_scope (cycle : AccountQuotaCycle) (share user : string) : string :=
  scope_key to_string (cyc_source_ref cycle) (cyc_source_epoch cycle) (cyc_bucket_id cycle) share user.
Lemma query_fold cycle w vss : ∀ acc v,
  try_fold (query_step cycle w) acc vss = Ok v →
  v = (acc.1 + sum_tokens (vss ≫= λ vs, option_list (counted cycle w vs)),
       acc.2 + sum_requests (vss ≫= λ vs, option_list (counted cycle w vs))).
Proof.
  induction vss as [|vs vss IH]; intros [t r] v; cbn [try_fold].
  - intros [= <-]. simpl. f_equal; lia.
  - intros ([t1 r1] & Hs & ->%IH)%bind_Ok. cbn [mbind list_bind fst snd].
    rewrite sum_tokens_app, sum_requests_app. unfold query_step, counted in *.
    destruct (entry_at w vs) as [e|]; simpl; [|by injection Hs as <- <-].
    destruct (cycle_contains cycle _); simpl; [|by injection Hs as <- <-].
    apply bind_Ok in Hs as (t2 & Ht%ok_or_Ok%checked_Some & Hs).
    apply bind_Ok in Hs as (r2 & Hr%ok_or_Ok%checked_Some & [= <- <-]). simpl in *.
    f_equal; lia.
Qed.
Lemma query_Ok l cycle share user w v : query to_string l cycle share user w = Ok v →
  let es := counted_entries cycle w (default ∅ (ul_entries l !! query_scope cycle share user)) in
  v = (sum_tokens es, sum_requests es).
Proof.
  unfold query. destruct (negb _); [done|]. intros ->%query_fold. simpl. fold (query_scope cycle share user).
  assert (∀ recs : gmap string (list QuotaUsageEntry),
    (btree_values recs ≫= λ vs, option_list (counted cycle w vs)) ≡ₚ counted_entries cycle w recs) as Hp.
  { intros recs. unfold counted_entries, flat_map_entries, btree_values.
    rewrite <-btree_entries_perm. induction (btree_entries recs) as [|[i v] es IH]; [done|].
    cbn. by rewrite IH. }
  by rewrite Hp.
Qed.

Lemma entry_at_snoc_later w vs e : w < en_watermark e → entry_at w (vs ++ [e]) = entry_at w vs.
Proof.
  intros Hlt. unfold entry_at. rewrite reverse_snoc. simpl. by rewrite (proj2 (Z.leb_gt _ _)).
Qed.
Lemma entry_at_last w vs : (∀ e, last vs = Some e → en_watermark e ≤ w) → entry_at w vs = last vs.
Proof.
  unfold entry_at. destruct vs as [|e vs _] using rev_ind; [done|].
  rewrite last_snoc. intros He. rewrite reverse_snoc. simpl.
  by rewrite (proj2 (Z.leb_le _ _)) by auto.
Qed.

Section recorded_query.
Context (l l' : QuotaUsageLedger) (log : UsageLog) (key : string) (vs : list QuotaUsageEntry)
  (e : QuotaUsageEntry).
Context (Hv : UValid l) (Hr : recorded l l' log key vs e).
Context (cycle : AccountQuotaCycle).

Lemma recorded_other scope : scope ≠ key → ul_entries l' !! scope = ul_entries l !! scope.
Proof. intros Hne. rewrite (rc_entries _ _ _ _ _ _ Hr). simpl. by rewrite lookup_insert_ne. Qed.
(** The counted revisions of the scope written to, with the record's own set apart. *)
Lemma recorded_counted w :
  counted_entries cycle w (default ∅ (ul_entries l' !! key)) ++ option_list (counted cycle w vs) ≡ₚ
  option_list (counted cycle w (vs ++ [e])) ++ counted_entries cycle w (default ∅ (ul_entries l !! key)).
Proof.
  rewrite (rc_entries _ _ _ _ _ _ Hr). simpl. rewrite lookup_insert_eq. simpl.
  set (R := default ∅ (ul_entries l !! key)).
  pose proof (flat_map_insert (λ r, option_list (counted cycle w r.2)) R (log_request_id log) (vs ++ [e])) as Hp.
  cbn [snd] in Hp. unfold counted_entries. rewrite <-Hp. apply Permutation_app_head.
  rewrite (rc_versions _ _ _ _ _ _ Hr). unfold versions_of, R.
  destruct (ul_entries l !! key) as [recs|]; simpl; [|done]. by destruct (recs !! log_request_id log).
Qed.
Lemma versions_watermark p : last vs = Some p → en_watermark p ≤ ul_watermark l ∧ en_attribution p = en_attribution e.
Proof.
  intros Hp. split; [|by destruct (rc_linked _ _ _ _ _ _ Hr p Hp) as (_ & ? & _)].
  rewrite (rc_versions _ _ _ _ _ _ Hr) in Hp. unfold versions_of in Hp.
  destruct (ul_entries l !! key) as [recs|] eqn:Es; [|done]. simpl in Hp.
  destruct (recs !! log_request_id log) as [ws|] eqn:Ei; [|done]. simpl in Hp.
  destruct (uv_records _ _ Hv _ _ _ _ Es Ei) as [[_ He _] _].
  apply last_Some_elem_of, He, check_entry_Ok in Hp. by destruct Hp as (_ & _ & ? & _).
Qed.
End recorded_query.

(** In a valid ledger the revision at the current watermark is the last one. *)
Lemma counted_current l cycle scope recs id vs w : UValid l → ul_watermark l ≤ w →
  ul_entries l !! scope = Some recs → recs !! id = Some vs →
  counted cycle w vs = (e ← last vs; if cycle_contains cycle (at_started_at_ms (en_attribution e)) then Some e else None).
Proof.
  intros Hv Hw Hs Hi. unfold counted. rewrite entry_at_last; [done|].
  intros e He. destruct (uv_records _ _ Hv _ _ _ _ Hs Hi) as [[_ Hc _] _].
  apply last_Some_elem_of, Hc, check_entry_Ok in He. destruct He as (_ & _ & ? & _). lia.
Qed.
Lemma counted_entries_current l cycle scope w w' : UValid l → ul_watermark l ≤ w → ul_watermark l ≤ w' →
  counted_entries cycle w (default ∅ (ul_entries l !! scope)) =
  counted_entries cycle w' (default ∅ (ul_entries l !! scope)).
Proof.
  intros Hv Hw Hw'. destruct (ul_entries l !! scope) as [recs|] eqn:Es; [|done]. simpl.
  apply flat_map_ext. intros id vs Hi. cbn [snd].
  by rewrite !(counted_current l cycle scope recs id vs).
Qed.
End ops.

(** ** Properties *)
(** recording a usage log keeps the ledger valid, whatever the log: when [record]
    succeeds the ledger still passes [validate] (distinct watermarks covering one commit
    each, linked revisions, every record in the scope it names), it answers [false] only
    when it changed nothing, and [true] exactly when it appended one revision at the next
    watermark. *)
Theorem record_keeps_ledger_valid to_string l log b l'
    (Hv : usage_validate to_string l = Ok ()) (Hr : record to_string l log = (Ok b, l')) :
  usage_validate to_string l' = Ok ()
  ∧ (if b then ul_watermark l' = ul_watermark l + 1
               ∧ ∃ e, all_entries (records l') ≡ₚ e :: all_entries (records l)
                      ∧ en_watermark e = ul_watermark l'
     else l' = l).
Proof.
  apply usage_validate_Ok in Hv. destruct b.
  - apply record_true in Hr as (key & vs & e & Hr). split; [by eapply usage_validate_Ok, recorded_UValid|].
    destruct (rc_watermark _ _ _ _ _ _ _ Hr) as [Hw _]. split; [done|]. exists e.
    split; [by eapply recorded_perm|]. destruct (recorded_entry _ _ _ _ _ _ _ Hr) as (_ & He & _). congruence.
  - apply record_false in Hr as ->; [|done]. split; [by apply usage_validate_Ok|done].
Qed.

(** A past watermark is a stable snapshot: recording another log never changes what a
    query answers at a watermark the ledger had already reached, so the consumption a
    manual baseline was set against can always be rebuilt. *)
Theorem past_queries_stable to_string l log b l' cycle share user w v v'
    (Hv : usage_validate to_string l = Ok ()) (Hr : record to_string l log = (Ok b, l'))
    (Hw : w ≤ ul_watermark l) (Hq : query to_string l cycle share user w = Ok v)
    (Hq' : query to_string l' cycle share user w = Ok v') : v' = v.
Proof.
  apply usage_validate_Ok in Hv. destruct b; [|apply record_false in Hr; congruence].
  apply record_true in Hr as (key & vs & e & Hr).
  destruct (recorded_entry _ _ _ _ _ _ _ Hr) as (_ & He & _).
  apply query_Ok in Hq, Hq'. rewrite Hq, Hq'. clear Hq Hq'.
  set (scope := query_scope to_string cycle share user).
  destruct (decide (scope = key)) as [->|Hne]; [|by rewrite (recorded_other _ _ _ _ _ _ _ Hr)].
  pose proof (recorded_counted _ _ _ _ _ _ _ Hr cycle w) as Hp.
  assert (counted cycle w (vs ++ [e]) = counted cycle w vs) as Heq
    by (unfold counted; by rewrite entry_at_snoc_later by lia).
  rewrite Heq, Permutation_app_comm in Hp. apply Permutation_app_inv_l in Hp. by rewrite Hp.
Qed.

(** Revisions are cumulative values, not charges: after a successful recording, the
    user's consumption in the log's scope (when the cycle contains the request's start)
    changes by the new revision's tokens minus those of the revision it replaces, and the
    request is counted once, on its first revision; every other scope's consumption and
    every cycle that does not contain the start are unchanged. *)
Theorem recording_replaces_revision to_string l log a l' cycle share user t n t' n'
    (Hv : usage_validate to_string l = Ok ()) (Hr : record to_string l log = (Ok true, l'))
    (Ha : log_quota_attribution log = Some a)
    (Hq : query to_string l cycle share user (ul_watermark l) = Ok (t, n))
    (Hq' : query to_string l' cycle share user (ul_watermark l') = Ok (t', n')) :
  let key := log_scope to_string log a in
  let previous := last (versions_of l key (log_request_id log)) in
  if decide (query_scope to_string cycle share user = key
             ∧ cycle_contains cycle (at_started_at_ms a) = true)
  then t' = t - from_option en_tokens 0 previous + quota_tokens log
       ∧ n' = n + (if decide (previous = None ∧ log_record_kind log = UserInference) then 1 else 0)
  else t' = t ∧ n' = n.
Proof.
  intros key previous. apply usage_validate_Ok in Hv.
  apply record_true in Hr as (key' & vs & e & Hr).
  destruct (recorded_entry _ _ _ _ _ _ _ Hr) as (_ & Hwm & _ & Htok & _).
  destruct (rc_watermark _ _ _ _ _ _ _ Hr) as [Hw _].
  destruct (rc_entry _ _ _ _ _ _ _ Hr) as (a' & sh & us & Ha' & Hsh & Hus & He & _).
  assert (key' = key) as ->.
  { rewrite (rc_key _ _ _ _ _ _ _ Hr), He, entry_scope_log. unfold key, log_scope.
    rewrite Hsh, Hus. by simplify_eq. }
  simplify_eq. apply query_Ok in Hq, Hq'. injection Hq as -> ->. injection Hq' as -> ->.
  set (scope := query_scope to_string cycle share user).
  rewrite (counted_entries_current to_string l cycle scope _ (ul_watermark l')) by (done || lia).
  destruct (decide (scope = key)) as [->|Hne].
  2:{ rewrite decide_False by naive_solver. by rewrite (recorded_other _ _ _ _ _ _ _ Hr). }
  pose proof (recorded_counted _ _ _ _ _ _ _ Hr cycle (ul_watermark l')) as Hp.
  set (e := log_entry log a sh us (ul_watermark l')) in *.
  assert (counted cycle (ul_watermark l') (vs ++ [e])
    = if cycle_contains cycle (at_started_at_ms a) then Some e else None) as Hnew.
  { unfold counted. rewrite entry_at_last; rewrite last_snoc; [done|]. intros ? [= <-]. simpl. lia. }
  assert (counted cycle (ul_watermark l') vs
    = if cycle_contains cycle (at_started_at_ms a) then previous else None) as Hold.
  { unfold counted, previous. rewrite <-(rc_versions _ _ _ _ _ _ _ Hr).
    rewrite entry_at_last.
    - destruct (last vs) as [p|] eqn:Ep; simpl; [|by destruct (cycle_contains _ _)].
      by destruct (versions_watermark _ _ _ _ _ _ _ Hv Hr p Ep) as [_ ->].
    - intros p Ep. destruct (versions_watermark _ _ _ _ _ _ _ Hv Hr p Ep). lia. }
  rewrite Hnew, Hold in Hp.
  pose proof (sum_tokens_perm _ _ Hp) as Ht. pose proof (sum_requests_perm _ _ Hp) as Hn.
  rewrite !sum_tokens_app, !(proj1 (sum_option _)) in Ht.
  rewrite !sum_requests_app, !(proj2 (sum_option _)) in Hn.
  destruct (cycle_contains cycle (at_started_at_ms a)) eqn:Ec.
  - rewrite decide_True by done.
    assert (∀ p, previous = Some p → en_count_request p = en_count_request e) as Hcount.
    { intros p Hp'. unfold previous in Hp'. rewrite <-(rc_versions _ _ _ _ _ _ _ Hr) in Hp'.
      by destruct (rc_linked _ _ _ _ _ _ _ Hr p Hp') as (_ & _ & _ & ?). }
    destruct previous as [p|]; cbn [from_option] in Ht, Hn |- *.
    + rewrite (Hcount p eq_refl) in Hn. rewrite decide_False by naive_solver.
      change (en_tokens e) with (quota_tokens log) in Ht. split; [lia|].
      destruct (bool_decide (log_record_kind log = UserInference)); lia.
    + change (en_count_request e) with (bool_decide (log_record_kind log = UserInference)) in Hn.
      change (en_tokens e) with (quota_tokens log) in Ht.
      split; [lia|]. destruct (decide (log_record_kind log = UserInference)) as [Hk|Hk].
      * rewrite decide_True by done. rewrite bool_decide_eq_true_2 in Hn by done. lia.
      * rewrite decide_False by naive_solver. rewrite bool_decide_eq_false_2 in Hn by done. lia.
  - rewrite decide_False by naive_solver. simpl in Ht, Hn. split; lia.
Qed.

(** ** A concrete history *)
Definition sample_scope (k : string * Z * string * string * string) : string :=
  let '(source, epoch, bucket, share, user) := k in
  source +:+ "|" +:+ pretty epoch +:+ "|" +:+ bucket +:+ "|" +:+ share +:+ "|" +:+ user.
Definition sample_log (revision tokens : Z) : UsageLog :=
  mk_log "r1" (Some (mk_attribution "opaque" 1 "weekly" 5000)) UserInference None None 5000
    None None None None (Some tokens) (Some "share") (Some "U@example.com") Observed revision 200.
Definition sample_usage : QuotaUsageLedger :=
  (record sample_scope (begin_collection usage_ledger_default "opaque" 0).2 (sample_log 1 100)).2.
Definition sample_usage_cycle : AccountQuotaCycle :=
  mk_cycle "stream" "opaque" 1 "weekly" "c" 1 1 4123 None UpstreamWindow 4123 "e".
Lemma record_keeps_ledger_valid_witness :
  usage_validate sample_scope (record sample_scope sample_usage (sample_log 2 150)).2 = Ok ().
Proof.
  apply (record_keeps_ledger_valid sample_scope sample_usage (sample_log 2 150) true);
    vm_compute; reflexivity.
Defined.
Lemma past_queries_stable_witness : ∃ v,
  query sample_scope (record sample_scope sample_usage (sample_log 2 150)).2 sample_usage_cycle
    "share" "u@example.com" 1 = Ok v ∧ v = (100, 1).
Proof.
  eexists. split; [vm_compute; reflexivity|].
  apply (past_queries_stable sample_scope sample_usage (sample_log 2 150) true
    (record sample_scope sample_usage (sample_log 2 150)).2 sample_usage_cycle "share"
    "u@example.com" 1 (100, 1)); vm_compute; try reflexivity. discriminate.
Defined.
Lemma recording_replaces_revision_witness :
  let l' := (record sample_scope sample_usage (sample_log 2 150)).2 in
  query sample_scope l' sample_usage_cycle "share" "u@example.com" (ul_watermark l') = Ok (150, 1)
  ∧ 150 = 100 - 100 + 150.
Proof.
  split; [vm_compute; reflexivity|].
  destruct (recording_replaces_revision sample_scope sample_usage (sample_log 2 150)
    (mk_attribution "opaque" 1 "weekly" 5000) (record sample_scope sample_usage (sample_log 2 150)).2
    sample_usage_cycle "share" "u@example.com" 100 1 150 1) as [H _];
    [vm_compute; reflexivity..|]. exact H.
Defined.
