(* ===== verification/QuotaTable.v ===== *)
(** * The persisted quota usage ([src/repository/server_sqlite/quota.rs])

    The table of immutable revisions and the metadata row, as the transactions read and
    write them: [load] rebuilds a ledger from the rows in watermark order, [upsert_log]
    records one log against the stored metadata and the record's latest row only.  The
    payload digests and SQL columns of a row are those [insert] wrote, so a row is its
    entry. *)
From S2P Require Import Prelude RustStr QuotaCycle QuotaLedger QuotaLedgerValid QuotaLedgerProofs.
From Stdlib Require Import ZArith Lia.

Local Open Scope Z_scope.

(** The [meta] row, which holds no entries, and [quota_usage_entries]. *)
Record QuotaTable := mk_table { qt_metadata : QuotaUsageLedger; qt_rows : list QuotaUsageEntry }.

(** repository/server_sqlite.rs:2146-2148 [to_sql_u64] *)
Definition to_sql_u64 (value : Z) : result string Z :=
  ok_or "value exceeds SQLite signed integer range" (checked_i64 value).
Definition by_watermark (a b : QuotaUsageEntry) : Prop := en_watermark a ≤ en_watermark b.
#[global] Instance by_watermark_dec : RelDecision by_watermark.
Proof. intros a b. unfold by_watermark. apply _. Defined.
#[global] Instance by_watermark_total : Total by_watermark.
Proof. intros a b. unfold by_watermark. lia. Qed.
#[global] Instance by_watermark_trans : Transitive by_watermark.
Proof. intros a b c. unfold by_watermark. lia. Qed.
Definition by_revision_desc (a b : QuotaUsageEntry) : Prop := en_usage_revision b ≤ en_usage_revision a.
#[global] Instance by_revision_desc_dec : RelDecision by_revision_desc.
Proof. intros a b. unfold by_revision_desc. apply _. Defined.
#[global] Instance by_revision_desc_total : Total by_revision_desc.
Proof. intros a b. unfold by_revision_desc. lia. Qed.
#[global] Instance by_revision_desc_trans : Transitive by_revision_desc.
Proof. intros a b c. unfold by_revision_desc. lia. Qed.

(** repository/server_sqlite/quota.rs:8-36 [metadata], the stored row being present *)
Definition read_metadata (t : QuotaTable) : result string QuotaUsageLedger :=
  let l := qt_metadata t in
  _ ← validate_metadata l;
  _ ← fail_if (negb (bool_decide (ul_entries l = ∅))) "quota metadata contains unexpected rows";
  Ok l.

Section table.
(** [serde_json::to_string] on scopes and the payload digest of an entry, from crates. *)
Variable to_string : string * Z * string * string * string → string.
Variable digest : QuotaUsageEntry → string.

(** repository/server_sqlite/quota.rs:59-108 [load], the rows in watermark order *)
Definition load_rows (metadata : QuotaUsageLedger) (rows : list QuotaUsageEntry)
  : result string QuotaUsageLedger :=
  try_fold (insert_persisted to_string) metadata (merge_sort by_watermark rows).
(** repository/server_sqlite/quota.rs:52-123 [load] *)
Definition load (t : QuotaTable) : result string QuotaUsageLedger :=
  l ← read_metadata t;
  l ← load_rows l (qt_rows t);
  _ ← usage_validate to_string l;
  _ ← fail_if (negb (foldr Z.max 0 (en_watermark <$> all_entries (records l)) =? ul_watermark l))
        "quota usage watermark has missing revisions";
  Ok l.
(** repository/server_sqlite/quota.rs:125-147 [insert], with the constraints of the table *)
Definition insert_row (rows : list QuotaUsageEntry) (e : QuotaUsageEntry)
  : result string (list QuotaUsageEntry) :=
  revision ← to_sql_u64 (en_usage_revision e);
  match List.find (λ r, str_eqb (en_request_id r) (en_request_id e)
                        && (en_usage_revision r =? revision)) rows with
  | Some r => _ ← fail_if (negb (str_eqb (digest r) (digest e))) "quota usage immutable revision conflict";
              Ok rows
  | None =>
      _ ← to_sql_u64 (en_watermark e);
      _ ← to_sql_u64 (at_source_epoch (en_attribution e));
      _ ← fail_if ((en_usage_revision e <? 0) || (en_watermark e <=? 0)
            || (at_started_at_ms (en_attribution e) <? 0)
            || existsb (λ r, en_watermark r =? en_watermark e) rows) "constraint failed";
      Ok (rows ++ [e])
  end.
(** repository/server_sqlite/quota.rs:151-153 [upsert_log], the record's latest row *)
Definition latest_row (rows : list QuotaUsageEntry) (id : string) : option QuotaUsageEntry :=
  head (merge_sort by_revision_desc (filter (λ r, en_request_id r = id) rows)).
(** repository/server_sqlite/quota.rs:149-175 [upsert_log] *)
Definition upsert_log (t : QuotaTable) (log : UsageLog) : result string QuotaTable :=
  l ← read_metadata t;
  l ← match latest_row (qt_rows t) (log_request_id log) with
      | Some e => insert_persisted to_string l e
      | None => Ok l
      end;
  match record to_string l log with
  | (Err e, _) => Err e
  | (Ok false, _) => Ok t
  | (Ok true, l) =>
      e ← ok_or "new quota usage revision missing"
            (List.find (λ e, en_watermark e =? ul_watermark l)
               (omap (λ r, last r.2) (records l)));
      rows ← insert_row (qt_rows t) e;
      Ok (mk_table (metadata l) rows)
  end.
End table.

(** A table holds a ledger: its metadata and its revisions, in any order. *)
Record stored (l : QuotaUsageLedger) (t : QuotaTable) : Prop := {
  st_metadata : qt_metadata t = metadata l;
  st_rows : qt_rows t ≡ₚ all_entries (records l);
}.
(** No scope is kept without a record: true of every ledger built by the operations. *)
Definition no_empty_scope (l : QuotaUsageLedger) : Prop :=
  ∀ scope recs, ul_entries l !! scope = Some recs → recs ≠ ∅.

Lemma no_empty_scope_check l :
  forallb (λ e, negb (length (map_to_list e.2) =? 0)%nat) (map_to_list (ul_entries l)) = true →
  no_empty_scope l.
Proof.
  rewrite forallb_forall. intros Hf scope recs Hs%elem_of_map_to_list%list_elem_of_In ->.
  apply Hf in Hs. simpl in Hs. by rewrite map_to_list_empty in Hs.
Qed.

Lemma StronglySorted_filter {A} (R : relation A) (P : A → Prop) `{∀ x, Decision (P x)} l :
  StronglySorted R l → StronglySorted R (filter P l).
Proof.
  induction 1 as [|x l Hs IH Hx]; [constructor|]. rewrite filter_cons.
  destruct (decide (P x)); [|done]. constructor; [done|].
  rewrite Forall_forall in Hx |- *. intros y [_ Hy]%list_elem_of_filter. auto.
Qed.

Section rebuild.
Context (to_string : string * Z * string * string * string → string).
Notation entry_scope := (entry_scope to_string).
Notation UValid := (UValid to_string).

Definition belongs (key id : string) (e : QuotaUsageEntry) : Prop :=
  entry_scope e = key ∧ en_request_id e = id.
#[local] Instance belongs_dec key id e : Decision (belongs key id e).
Proof. unfold belongs. apply _. Defined.

(** What inserting the rows [rows] one by one onto [l0] builds. *)
Record rebuilt (l0 : QuotaUsageLedger) (rows : list QuotaUsageEntry) (l : QuotaUsageLedger) : Prop := {
  rb_metadata : metadata l = l0;
  rb_versions key id : (ul_entries l !! key ≫= λ recs, recs !! id) =
    match filter (belongs key id) rows with [] => None | vs => Some vs end;
  rb_nonempty : no_empty_scope l;
  rb_scopes id : ul_record_scopes l !! id =
    entry_scope <$> head (filter (λ e, en_request_id e = id) rows);
}.
Definition one_scope (rows : list QuotaUsageEntry) : Prop :=
  ∀ a b, a ∈ rows → b ∈ rows → en_request_id a = en_request_id b → entry_scope a = entry_scope b.

Lemma rebuilt_versions l0 rows l key id : rebuilt l0 rows l →
  versions_of l key id = filter (belongs key id) rows.
Proof.
  intros Hr. unfold versions_of. rewrite (rb_versions _ _ _ Hr). by destruct (filter _ rows).
Qed.
Lemma rebuild_step l0 rows l e : rebuilt l0 rows l → one_scope (rows ++ [e]) →
  ∃ l', insert_persisted to_string l e = Ok l' ∧ rebuilt l0 (rows ++ [e]) l'.
Proof.
  intros Hr Hone. unfold insert_persisted. set (key := entry_scope e). set (id := en_request_id e).
  destruct (from_option _ false (ul_record_scopes l !! id)) eqn:Ep.
  { exfalso. rewrite (rb_scopes _ _ _ Hr) in Ep.
    destruct (head _) as [a|] eqn:Ea; simpl in Ep; [|done].
    apply negb_true_iff, str_eqb_neq in Ep. apply Ep.
    apply head_Some_elem_of, list_elem_of_filter in Ea as [Hid Ha].
    apply Hone; [apply elem_of_app; by left|apply elem_of_app; right; left|done]. }
  eexists. split; [reflexivity|].
  change (versions_of (with_scopes _ l) key id) with (versions_of l key id).
  rewrite (rebuilt_versions _ _ _ _ _ Hr). destruct Hr as [Hm Hv Hn Hs]. split.
  - exact Hm.
  - intros key' id'. simpl. rewrite filter_app, filter_cons, filter_nil.
    destruct (decide (key' = key)) as [->|Hk].
    + rewrite lookup_insert_eq. simpl. destruct (decide (id' = id)) as [->|Hi].
      * rewrite lookup_insert_eq, decide_True by done. by destruct (filter _ rows).
      * rewrite lookup_insert_ne by done. rewrite decide_False by (intros [_ Hx]; by apply Hi).
        rewrite app_nil_r, <-Hv. by destruct (ul_entries l !! key).
    + rewrite lookup_insert_ne by done. rewrite decide_False by (intros [Hx _]; by apply Hk).
      by rewrite app_nil_r, <-Hv.
  - intros scope recs. simpl. intros [[<- <-]|[_ Hk]]%lookup_insert_Some; [|by eapply Hn].
    apply insert_non_empty.
  - intros id'. simpl. rewrite filter_app, filter_cons, filter_nil, lookup_insert.
    destruct (decide (id = id')) as [<-|Hi].
    + rewrite decide_True by done. destruct (filter _ rows) as [|a fs] eqn:Ef; [done|]. simpl.
      f_equal. symmetry. apply Hone; [|apply elem_of_app; right; left|].
      * apply elem_of_app. left. apply (list_elem_of_filter (λ e, en_request_id e = id)). rewrite Ef. left.
      * assert (a ∈ filter (λ e, en_request_id e = id) rows) as [? _]%list_elem_of_filter by (rewrite Ef; left). done.
    + rewrite decide_False by done. by rewrite app_nil_r, Hs.
Qed.
Lemma rebuild_all l0 rows : one_scope rows → ul_entries l0 = ∅ → ul_record_scopes l0 = ∅ →
  ∃ l, try_fold (insert_persisted to_string) l0 rows = Ok l ∧ rebuilt l0 rows l.
Proof.
  intros Hone He Hs. induction rows as [|e rows IH] using rev_ind.
  - exists l0. split; [done|]. split.
    + unfold metadata. rewrite <-He at 1. rewrite <-Hs at 1. by destruct l0.
    + intros key id. by rewrite He, lookup_empty.
    + intros scope recs. by rewrite He, lookup_empty.
    + intros id. by rewrite Hs, lookup_empty.
  - destruct IH as (l & Hf & Hr).
    { intros a b Ha Hb. apply Hone; apply elem_of_app; by left. }
    destruct (rebuild_step l0 rows l e Hr Hone) as (l' & Hi & Hr').
    exists l'. split; [|done]. rewrite try_fold_app, Hf. simpl. by rewrite Hi.
Qed.

(** ** The revisions of a valid ledger, by record *)
Lemma elem_of_versions l key id e : UValid l →
  e ∈ versions_of l key id ↔ e ∈ all_entries (records l) ∧ belongs key id e.
Proof.
  intros Hv. unfold versions_of, all_entries. rewrite list_elem_of_bind. split.
  - destruct (ul_entries l !! key) as [recs|] eqn:Es; simpl; [|intros H; inversion H].
    destruct (recs !! id) as [ws|] eqn:Ei; simpl; [|intros H; inversion H]. intros He.
    destruct (uv_records _ _ Hv _ _ _ _ Es Ei) as [[_ Hc _] _].
    pose proof (proj1 (check_entry_Ok _ _ _ _ _) (Hc _ He)) as Hce. destruct Hce as (? & _ & _ & _ & ?).
    split; [|by split]. exists (key, id, ws). split; [done|]. apply elem_of_records. eauto.
  - intros [([[sc i] ws] & He & (recs & Es & Ei)%elem_of_records) [<- <-]].
    destruct (uv_records _ _ Hv _ _ _ _ Es Ei) as [[_ Hc _] _].
    pose proof (proj1 (check_entry_Ok _ _ _ _ _) (Hc _ He)) as Hce. destruct Hce as (-> & _ & _ & _ & ->).
    rewrite Es. simpl. by rewrite Ei.
Qed.
Lemma chained_sorted vs : chained vs → StronglySorted by_watermark vs.
Proof.
  intros Hc. apply Sorted_StronglySorted; [apply _|].
  induction vs as [|a vs IH]; [constructor|]. constructor.
  - apply IH. intros i x y Hx Hy. by apply (Hc (S i)).
  - destruct vs as [|b vs]; constructor. unfold by_watermark.
    destruct (Hc 0%nat a b eq_refl eq_refl). lia.
Qed.
Lemma versions_chained l key id : UValid l → chained (versions_of l key id).
Proof.
  intros Hv. unfold versions_of. destruct (ul_entries l !! key) as [recs|] eqn:Es; simpl; [|by intros ????].
  destruct (recs !! id) as [ws|] eqn:Ei; simpl; [|by intros ????].
  by destruct (uv_records _ _ Hv _ _ _ _ Es Ei) as [[_ _ ?] _].
Qed.
Lemma NoDup_all l : UValid l → NoDup (all_entries (records l)).
Proof. intros Hv. eapply NoDup_fmap_1, (uv_distinct _ _ Hv). Qed.
(** The rows in watermark order, restricted to a record, are its revisions. *)
Lemma sorted_versions l rows key id : UValid l → rows ≡ₚ all_entries (records l) →
  filter (belongs key id) (merge_sort by_watermark rows) = versions_of l key id.
Proof.
  intros Hv Hrows. assert (merge_sort by_watermark rows ≡ₚ all_entries (records l)) as Hp
    by by rewrite merge_sort_Permutation.
  apply (StronglySorted_unique_strong by_watermark).
  - intros a b Ha Hb Hab Hba. apply list_elem_of_filter in Ha as [_ Ha]. rewrite Hp in Ha.
    apply elem_of_versions in Hb as [Hb _]; [|done].
    assert (en_watermark a = en_watermark b) as Hw by (unfold by_watermark in *; lia).
    apply list_elem_of_lookup in Ha as [i Hi], Hb as [j Hj].
    assert (i = j) as ->; [|congruence].
    eapply (NoDup_lookup _ _ _ _ (uv_distinct _ _ Hv)); rewrite list_lookup_fmap; [by rewrite Hi|].
    by rewrite Hj, Hw.
  - apply StronglySorted_filter, StronglySorted_merge_sort; apply _.
  - by apply chained_sorted, versions_chained.
  - apply NoDup_Permutation.
    + apply NoDup_filter. rewrite Hp. by apply NoDup_all.
    + pose proof (all_entries_put l key id []) as Hput. simpl in Hput.
      pose proof (NoDup_all l Hv) as Hnd. rewrite <-Hput in Hnd. by apply NoDup_app in Hnd as (_ & _ & ?).
    + intros e. rewrite list_elem_of_filter, Hp, elem_of_versions by done. tauto.
Qed.

Lemma nested_map_eq {A} (m1 m2 : gmap string (gmap string A)) :
  (∀ k i, (m1 !! k ≫= λ r, r !! i) = (m2 !! k ≫= λ r, r !! i)) →
  (∀ k r, m1 !! k = Some r → r ≠ ∅) → (∀ k r, m2 !! k = Some r → r ≠ ∅) → m1 = m2.
Proof.
  intros Heq H1 H2. apply map_eq. intros k.
  destruct (m1 !! k) as [r1|] eqn:E1, (m2 !! k) as [r2|] eqn:E2; [|exfalso|exfalso|done].
  - f_equal. apply map_eq. intros i. specialize (Heq k i). by rewrite E1, E2 in Heq.
  - apply (H1 _ _ E1), map_eq. intros i. specialize (Heq k i). by rewrite E1, E2, lookup_empty in *.
  - apply (H2 _ _ E2), map_eq. intros i. specialize (Heq k i). by rewrite E1, E2, lookup_empty in *.
Qed.
Lemma rows_one_scope l rows : UValid l → rows ≡ₚ all_entries (records l) → one_scope rows.
Proof.
  intros Hv Hp a b. rewrite Hp. intros Ha Hb Hid.
  assert (∀ e, e ∈ all_entries (records l) → ul_record_scopes l !! en_request_id e = Some (entry_scope e)) as Hsc.
  { intros e He. unfold all_entries in He. apply list_elem_of_bind in He as ([[sc i] ws] & Hin & (recs & Es & Ei)%elem_of_records).
    destruct (uv_records _ _ Hv _ _ _ _ Es Ei) as [[_ Hc _] Hs].
    apply Hc, check_entry_Ok in Hin. by destruct Hin as (-> & _ & _ & _ & ->). }
  apply Hsc in Ha, Hb. rewrite Hid, Hb in Ha. by injection Ha.
Qed.
Lemma rebuilt_same l rows l2 : UValid l → no_empty_scope l → rows ≡ₚ all_entries (records l) →
  rebuilt (metadata l) (merge_sort by_watermark rows) l2 → l2 = l.
Proof.
  intros Hv Hne Hp [Hm Hver Hne2 Hsc]. set (sorted := merge_sort by_watermark rows) in *.
  assert (sorted ≡ₚ all_entries (records l)) as Hs by (unfold sorted; by rewrite merge_sort_Permutation).
  assert (ul_entries l2 = ul_entries l) as He.
  { apply nested_map_eq; [|exact Hne2|exact Hne]. intros key id. rewrite Hver.
    unfold sorted. rewrite (sorted_versions l rows key id) by done. unfold versions_of.
    destruct (ul_entries l !! key) as [recs|] eqn:Es; simpl; [|done].
    destruct (recs !! id) as [ws|] eqn:Ei; simpl; [|done].
    destruct (uv_records _ _ Hv _ _ _ _ Es Ei) as [[Hn _ _] _]. by destruct ws. }
  assert (ul_record_scopes l2 = ul_record_scopes l) as Hr.
  { apply map_eq. intros id. rewrite Hsc.
    assert (∀ e, e ∈ sorted → en_request_id e = id → ul_record_scopes l !! id = Some (entry_scope e)) as Hin.
    { intros e He0 Hid. rewrite Hs in He0. unfold all_entries in He0.
      apply list_elem_of_bind in He0 as ([[sc i] ws] & Hx & (recs & Es & Ei)%elem_of_records).
      destruct (uv_records _ _ Hv _ _ _ _ Es Ei) as [[_ Hc _] Hsc'].
      apply Hc, check_entry_Ok in Hx as (Hi & _ & _ & _ & ->). by rewrite <-Hid, Hi. }
    destruct (filter (λ e, en_request_id e = id) sorted) as [|a fs] eqn:Ef; simpl.
    - destruct (ul_record_scopes l !! id) as [sc|] eqn:Es; [|done]. exfalso.
      destruct (uv_scopes _ _ Hv _ _ Es) as (recs & ws & Esc & Ei).
      destruct (uv_records _ _ Hv _ _ _ _ Esc Ei) as [[Hn Hc _] _]. destruct ws as [|e ws]; [done|].
      assert (e ∈ filter (λ e, en_request_id e = id) sorted) as Hf; [|rewrite Ef in Hf; inversion Hf].
      apply list_elem_of_filter. split; [by apply check_entry_Ok with to_string l sc, Hc; left|].
      rewrite Hs. apply list_elem_of_bind. exists (sc, id, e :: ws). split; [left|]. apply elem_of_records. eauto.
    - symmetry. assert (a ∈ filter (λ e, en_request_id e = id) sorted) as [Hid Ha]%list_elem_of_filter
        by (rewrite Ef; left). by apply Hin. }
  unfold metadata in Hm. destruct l, l2. simpl in *. injection Hm as -> -> -> -> ->. by subst.
Qed.
Lemma max_watermark l : UValid l → (∀ e, e ∈ all_entries (records l) → 0 ≤ en_watermark e) →
  foldr Z.max 0 (en_watermark <$> all_entries (records l)) = ul_watermark l.
Proof.
  intros Hv Hty. set (ws := en_watermark <$> all_entries (records l)).
  assert (∀ w, w ∈ ws → 1 ≤ w ≤ ul_watermark l) as Hrange.
  { intros w (e & -> & He)%list_elem_of_fmap. specialize (Hty e He). unfold all_entries in He.
    apply list_elem_of_bind in He as ([[sc i] vs] & Hx & (recs & Es & Ei)%elem_of_records).
    destruct (uv_records _ _ Hv _ _ _ _ Es Ei) as [[_ Hc _] _].
    apply Hc, check_entry_Ok in Hx as (_ & ? & ? & _). lia. }
  assert (∀ k, (∀ w, w ∈ k → 1 ≤ w ≤ ul_watermark l) → 0 ≤ foldr Z.max 0 k ≤ Z.max 0 (ul_watermark l)
    ∧ ∀ w, w ∈ k → w ≤ foldr Z.max 0 k) as Hmax.
  { induction k as [|w k IH]; simpl; intros Hk; [split; [lia|intros w Hw; inversion Hw]|].
    destruct IH as [? IH]; [intros; apply Hk; by right|]. pose proof (Hk w ltac:(left)).
    split; [lia|]. intros w' [->|Hw]%elem_of_cons; [lia|]. specialize (IH w' Hw). lia. }
  destruct (Hmax ws Hrange) as [Hb Hle]. set (m := foldr Z.max 0 ws) in *.
  pose proof (uv_count _ _ Hv) as Hcount.
  assert (length ws ≤ length (seqZ 1 m))%nat as Hlen.
  { apply submseteq_length, NoDup_submseteq; [apply (uv_distinct _ _ Hv)|].
    intros w Hw. apply elem_of_seqZ. pose proof (Hrange w Hw). specialize (Hle w Hw). lia. }
  rewrite length_seqZ in Hlen. unfold ws in Hlen. rewrite length_fmap in Hlen. lia.
Qed.
End rebuild.

(** ** One log against the latest row *)
Section upsert.
Context (to_string : string * Z * string * string * string → string).
Notation UValid := (UValid to_string).
Notation record := (record to_string).

(** What [record] reads of a ledger for the record [id]. *)
Record agree (l s : QuotaUsageLedger) (id : string) : Prop := {
  ag_metadata : metadata s = metadata l;
  ag_scope : previous_scope s id = previous_scope l id;
  ag_last key : last (versions_of s key id) = last (versions_of l key id);
}.
Lemma validate_log_agree l s log : agree l s (log_request_id log) →
  validate_log to_string s log = validate_log to_string l log.
Proof.
  intros [Hm Hs Hl]. unfold validate_log. rewrite Hs.
  assert (ul_schema_version s = ul_schema_version l) as -> by (by injection Hm).
  destruct (log_quota_attribution log); [|done]. by rewrite Hl.
Qed.
Lemma record_agree l s log : agree l s (log_request_id log) →
  match record l log, record s log with
  | (Err e, _), (Err e', _) => e' = e
  | (Ok b, l'), (Ok b', s') => b' = b ∧ metadata s' = metadata l'
  | _, _ => False
  end.
Proof.
  intros Ha. unfold QuotaLedger.record. rewrite (validate_log_agree _ _ _ Ha). destruct Ha as [Hm Hs Hl].
  destruct (validate_log to_string l log) as [[]|]; [|done].
  destruct (log_quota_attribution log) as [a|]; [|done].
  destruct (bool_decide (log_record_kind log = HealthProbe)); [done|].
  destruct (log_share_id log) as [share|]; [|done]. destruct (log_user_email log) as [user|]; [|done].
  set (key := scope_key to_string _ _ _ share user).
  change (versions_of (with_scopes _ l) key (log_request_id log)) with (versions_of l key (log_request_id log)).
  change (versions_of (with_scopes _ s) key (log_request_id log)) with (versions_of s key (log_request_id log)).
  rewrite Hl. injection Hm as E1 E2 E3 E4 E5.
  destruct (from_option _ false (last (versions_of l key (log_request_id log)))).
  { split; [done|]. unfold metadata. simpl. congruence. }
  destruct (bool_decide (log_failure_kind log = _)); [|destruct (bool_decide (log_usage_state log = Observed))];
    simpl; rewrite E2; (destruct (checked_u64 _); [|done]); (split; [done|]);
    unfold metadata; simpl; congruence.
Qed.

(** The sparse ledger [upsert_log] works on: the metadata and at most one revision. *)
Definition sparse (l : QuotaUsageLedger) (o : option QuotaUsageEntry) : QuotaUsageLedger :=
  match o with
  | None => metadata l
  | Some p => put_versions (entry_scope to_string p) (en_request_id p) [p]
      (with_scopes (λ m, <[en_request_id p := entry_scope to_string p]> m) (metadata l))
  end.
Lemma insert_sparse l p : insert_persisted to_string (metadata l) p = Ok (sparse l (Some p)).
Proof. unfold insert_persisted. simpl. by rewrite lookup_empty. Qed.

Lemma chained_last vs p x : chained (vs ++ [p]) → x ∈ vs → en_usage_revision x < en_usage_revision p.
Proof.
  intros Hc Hx. assert (StronglySorted (λ a b, en_usage_revision a < en_usage_revision b) (vs ++ [p])) as Hs.
  { apply Sorted_StronglySorted; [intros a b c ? ?; lia|]. revert Hc. clear Hx.
    induction (vs ++ [p]) as [|a l IH]; intros Hc; [constructor|]. constructor.
    - apply IH. intros i y z Hy Hz. by apply (Hc (S i)).
    - destruct l as [|b l]; constructor. apply (Hc 0%nat a b eq_refl eq_refl). }
  eapply StronglySorted_app_1_elem_of in Hs; [exact Hs|done|left].
Qed.
Lemma record_scope_of l e : UValid l → e ∈ all_entries (records l) →
  ul_record_scopes l !! en_request_id e = Some (entry_scope to_string e).
Proof.
  intros Hv He. unfold all_entries in He.
  apply list_elem_of_bind in He as ([[sc i] ws] & Hx & (recs & Es & Ei)%elem_of_records).
  destruct (uv_records _ _ Hv _ _ _ _ Es Ei) as [[_ Hc _] Hs].
  apply Hc, check_entry_Ok in Hx. by destruct Hx as (-> & _ & _ & _ & ->).
Qed.
(** The versions of a record under every scope, by the scope it is pinned to. *)
Lemma versions_elsewhere l key id : UValid l → ul_record_scopes l !! id ≠ Some key → versions_of l key id = [].
Proof.
  intros Hv Hne. unfold versions_of. destruct (ul_entries l !! key) as [recs|] eqn:Es; simpl; [|done].
  destruct (recs !! id) as [ws|] eqn:Ei; simpl; [|done].
  by destruct (uv_records _ _ Hv _ _ _ _ Es Ei) as [_ ?].
Qed.
Lemma latest_row_last l rows id : UValid l → rows ≡ₚ all_entries (records l) →
  latest_row rows id = match ul_record_scopes l !! id with
                       | Some key => last (versions_of l key id) | None => None end.
Proof.
  intros Hv Hp. unfold latest_row.
  assert (∀ e, e ∈ merge_sort by_revision_desc (filter (λ r, en_request_id r = id) rows) ↔
    ∃ key, ul_record_scopes l !! id = Some key ∧ e ∈ versions_of l key id) as Hin.
  { intros e. rewrite (merge_sort_Permutation _ _), list_elem_of_filter, Hp. split.
    - intros [<- He]. exists (entry_scope to_string e). split; [by apply record_scope_of|].
      by apply (elem_of_versions to_string).
    - intros (key & Hs & He). apply (elem_of_versions to_string) in He as [He [_ ?]]; done. }
  pose proof (StronglySorted_merge_sort by_revision_desc (filter (λ r, en_request_id r = id) rows)) as Hsort.
  destruct (merge_sort _ _) as [|h hs]; simpl.
  - destruct (ul_record_scopes l !! id) as [key|] eqn:Es; [|done].
    destruct (versions_of l key id) as [|e vs] eqn:Ev; [done|].
    assert (e ∈ []) as H; [|inversion H]. apply Hin. exists key. rewrite Ev. split; [done|left].
  - destruct (proj1 (Hin h) ltac:(left)) as (key & Es & Hh). rewrite Es.
    destruct (versions_of l key id) as [|p vs _] eqn:Ev using rev_ind; [inversion Hh|].
    rewrite last_snoc. f_equal. apply elem_of_app in Hh as [Hh|Hh]; [exfalso|by apply list_elem_of_singleton].
    pose proof (versions_chained to_string l key id Hv) as Hc. rewrite Ev in Hc.
    pose proof (chained_last _ _ _ Hc Hh) as Hlt.
    assert (p ∈ h :: hs) as Hpin.
    { apply Hin. exists key. rewrite Ev. split; [done|]. apply elem_of_app. right. left. }
    apply elem_of_cons in Hpin as [->|Hpin]; [lia|].
    inversion Hsort as [|? ? _ Hall]; subst. rewrite Forall_forall in Hall. specialize (Hall _ Hpin).
    unfold by_revision_desc in Hall. lia.
Qed.
Lemma sparse_agree l id : UValid l →
  agree l (sparse l (match ul_record_scopes l !! id with
                     | Some key => last (versions_of l key id) | None => None end)) id.
Proof.
  intros Hv. destruct (ul_record_scopes l !! id) as [key0|] eqn:Es.
  - destruct (uv_scopes _ _ Hv _ _ Es) as (recs & ws & Esc & Ei).
    destruct (uv_records _ _ Hv _ _ _ _ Esc Ei) as [[Hn _ _] _].
    assert (versions_of l key0 id = ws) as Hvs by (unfold versions_of; rewrite Esc; simpl; by rewrite Ei).
    destruct (last ws) as [p|] eqn:El; [|by apply last_None in El]. rewrite Hvs, El.
    assert (p ∈ versions_of l key0 id) as Hp by (rewrite Hvs; by apply last_Some_elem_of).
    apply (elem_of_versions to_string) in Hp as [_ [Hsc Hid]]; [|done]. simpl. rewrite Hsc, Hid. split.
    + done.
    + unfold previous_scope. simpl. by rewrite lookup_insert_eq, Es.
    + intros key. unfold versions_of at 1. simpl. destruct (decide (key = key0)) as [->|Hne].
      * rewrite lookup_insert_eq. simpl. rewrite lookup_insert_eq. simpl. by rewrite Hvs, El.
      * rewrite lookup_insert_ne by done. simpl. rewrite lookup_empty, (versions_elsewhere l key id Hv); [done|].
        rewrite Es. by intros [= ->].
  - split.
    + done.
    + unfold previous_scope. simpl. rewrite Es.
      destruct (List.find _ (btree_entries (ul_entries l))) as [[sc recs]|] eqn:Ef; [|done].
      exfalso. apply List.find_some in Ef as [Hin Hb]. apply list_elem_of_In, elem_of_btree_entries in Hin.
      apply bool_decide_eq_true in Hb as [ws Ei].
      destruct (uv_records _ _ Hv _ _ _ _ Hin Ei) as [_ ?]. congruence.
    + intros key. simpl. by rewrite (versions_elsewhere l key id Hv) by (by rewrite Es).
Qed.
Lemma read_stored l t : UValid l → stored l t → read_metadata t = Ok (metadata l).
Proof.
  intros Hv [Hm _]. unfold read_metadata. rewrite Hm.
  assert (validate_metadata (metadata l) = validate_metadata l) as -> by done.
  by rewrite (uv_metadata _ _ Hv).
Qed.
Definition latest (l : QuotaUsageLedger) (id : string) : option QuotaUsageEntry :=
  ul_record_scopes l !! id ≫= λ key, last (versions_of l key id).
Lemma latest_elem l id p : UValid l → latest l id = Some p → p ∈ all_entries (records l).
Proof.
  unfold latest. intros Hv Hp. destruct (ul_record_scopes l !! id) as [key|]; [|done]. simpl in Hp.
  apply last_Some_elem_of in Hp. by apply (elem_of_versions to_string) in Hp as [? _].
Qed.
Lemma entry_bound l e : UValid l → e ∈ all_entries (records l) → en_watermark e ≤ ul_watermark l.
Proof.
  intros Hv He. unfold all_entries in He.
  apply list_elem_of_bind in He as ([[sc i] ws] & Hx & (recs & Es & Ei)%elem_of_records).
  destruct (uv_records _ _ Hv _ _ _ _ Es Ei) as [[_ Hc _] _].
  by apply Hc, check_entry_Ok in Hx as (_ & _ & ? & _).
Qed.
Lemma find_unique {A} (f : A → bool) (x : A) xs : x ∈ xs → f x = true →
  (∀ y, y ∈ xs → f y = true → y = x) → List.find f xs = Some x.
Proof.
  intros Hx Hf Hu. destruct (List.find f xs) as [y|] eqn:E.
  - apply List.find_some in E as [Hy%list_elem_of_In Hfy]. by rewrite (Hu y Hy Hfy).
  - apply list_elem_of_In in Hx. by rewrite (List.find_none _ _ E x Hx) in Hf.
Qed.
(** The revision [upsert_log] picks is the one [record] appended. *)
Lemma recorded_found l o s' log key vs e : UValid l →
  (∀ p, o = Some p → p ∈ all_entries (records l)) →
  recorded to_string (sparse l o) s' log key vs e →
  List.find (λ e, en_watermark e =? ul_watermark s') (omap (λ r, last r.2) (records s')) = Some e.
Proof.
  intros Hv Ho Hr. destruct (recorded_entry _ _ _ _ _ _ _ Hr) as (_ & Hw & _).
  destruct (rc_watermark _ _ _ _ _ _ _ Hr) as [Hw' _].
  assert (ul_watermark (sparse l o) = ul_watermark l) as Hs by by destruct o.
  apply find_unique.
  - apply list_elem_of_omap. exists (key, log_request_id log, vs ++ [e]). split; [|by rewrite <-last_snoc with (x:=e) (l:=vs)].
    apply elem_of_records. rewrite (rc_entries _ _ _ _ _ _ _ Hr). simpl. rewrite lookup_insert_eq.
    eexists. split; [done|]. by rewrite lookup_insert_eq.
  - apply Z.eqb_eq. lia.
  - intros y ([[sc i] ws] & (recs & Es & Ei)%elem_of_records & Hl)%list_elem_of_omap Hy%Z.eqb_eq. simpl in Hl.
    destruct (recorded_lookup _ _ _ _ _ _ _ Hr _ _ _ _ Es Ei) as [(-> & -> & ->)|(_ & recs0 & Es0 & Ei0)].
    { rewrite last_snoc in Hl. by injection Hl. }
    exfalso. assert (∃ p, o = Some p ∧ ws = [p]) as (p & -> & ->).
    { destruct o as [p|]; simpl in Es0; [|by rewrite lookup_empty in Es0]. exists p. split; [done|].
      apply lookup_insert_Some in Es0 as [[<- <-]|[_ Hx]]; [|by rewrite lookup_empty in Hx].
      rewrite lookup_empty in Ei0. cbn [from_option Datatypes.id] in Ei0.
      apply lookup_insert_Some in Ei0 as [[_ <-]|[_ Hx]]; [done|by rewrite lookup_empty in Hx]. }
    simpl in Hl. injection Hl as <-. pose proof (entry_bound l p Hv (Ho p eq_refl)). lia.
Qed.
(** The columns of a new row fit SQLite's signed integers. *)
Record sql_range (l : QuotaUsageLedger) (log : UsageLog) : Prop := {
  sr_revision : 0 ≤ log_usage_revision log ≤ I64_MAX;
  sr_watermark : 0 ≤ ul_watermark l < I64_MAX;
  sr_epoch a : log_quota_attribution log = Some a → 0 ≤ at_source_epoch a ≤ I64_MAX;
}.
Lemma insert_row_new (digest : QuotaUsageEntry → string) l l' log key vs e rows : UValid l → recorded to_string l l' log key vs e →
  rows ≡ₚ all_entries (records l) → sql_range l log → insert_row digest rows e = Ok (rows ++ [e]).
Proof.
  intros Hv Hr Hp [Hrev Hwm Hep]. unfold insert_row, to_sql_u64.
  destruct (recorded_entry _ _ _ _ _ _ _ Hr) as (Hid & Hw & Hre & _ & Hao).
  destruct (rc_entry _ _ _ _ _ _ _ Hr) as (a & share & user & Ha & _ & _ & -> & _).
  pose proof (ao_started _ Hao) as Hst. simpl in *. specialize (Hep a Ha). rewrite (checked_i64_in (log_usage_revision log)) by (unfold I64_MIN in *; lia).
  cbn [ok_or mbind result_bind]. destruct (List.find _ rows) as [r|] eqn:Ef.
  - exfalso. apply List.find_some in Ef as [Hin%list_elem_of_In Hb]. rewrite Hp in Hin.
    apply andb_true_iff in Hb as [Hrid%str_eqb_eq Hrr%Z.eqb_eq].
    pose proof (record_scope_of l r Hv Hin) as Hsc. rewrite Hrid in Hsc.
    pose proof (rc_scope_free _ _ _ _ _ _ _ Hr _ Hsc) as Hk.
    assert (r ∈ vs) as Hrv.
    { rewrite (rc_versions _ _ _ _ _ _ _ Hr). apply (elem_of_versions to_string); [done|]. by split. }
    pose proof (recorded_chained _ _ _ _ _ _ _ Hv Hr) as Hc.
    pose proof (chained_last _ _ _ Hc Hrv). simpl in *. lia.
  - rewrite !checked_i64_in by (unfold I64_MIN in *; lia). cbn [ok_or mbind result_bind].
    assert (existsb (λ r, en_watermark r =? ul_watermark l') rows = false) as ->.
    { apply not_true_iff_false. rewrite existsb_exists. intros (r & Hin%list_elem_of_In & Hb%Z.eqb_eq).
      rewrite Hp in Hin. pose proof (entry_bound l r Hv Hin). lia. }
    rewrite !orb_false_r.
    destruct (Z.ltb_spec (log_usage_revision log) 0), (Z.leb_spec (ul_watermark l') 0),
      (Z.ltb_spec (at_started_at_ms a) 0); simpl; done || lia.
Qed.
End upsert.

(** ** Properties *)
(** The table rebuilds the ledger: loading the metadata and the revision rows of a
    valid ledger, in whatever order the rows are stored, succeeds and gives back exactly
    that ledger, with every record in its scope, its revisions in order and the identities
    they pin. *)
Theorem load_restores_ledger to_string l t
    (Hv : usage_validate to_string l = Ok ()) (Hne : no_empty_scope l) (Hst : stored l t)
    (Hty : ∀ e, e ∈ all_entries (records l) → 0 ≤ en_watermark e) :
  load to_string t = Ok l.
Proof.
  pose proof (proj1 (usage_validate_Ok to_string l) Hv) as Hvalid. pose proof Hst as [_ Hp].
  unfold load, load_rows. rewrite (read_stored to_string l t) by done. cbn [mbind result_bind].
  assert (merge_sort by_watermark (qt_rows t) ≡ₚ all_entries (records l)) as Hs
    by by rewrite merge_sort_Permutation.
  destruct (rebuild_all to_string (metadata l) (merge_sort by_watermark (qt_rows t))) as (l2 & -> & Hr);
    [by eapply rows_one_scope|done|done|].
  apply (rebuilt_same to_string l) in Hr as ->; [|done..]. cbn [mbind result_bind].
  rewrite Hv. cbn [mbind result_bind]. rewrite (max_watermark to_string l) by done.
  by rewrite Z.eqb_refl.
Qed.

(** C40: a transaction that records one log against the metadata row and the record's
    latest revision only does what [record] does on the whole ledger: it refuses with the
    same error, leaves the table alone when the ledger does not change, and otherwise
    stores exactly the ledger [record] returns. *)
Theorem upsert_simulates_record to_string digest l t log
    (Hv : usage_validate to_string l = Ok ()) (Hst : stored l t) (Hsql : sql_range l log) :
  match record to_string l log with
  | (Err e, _) => upsert_log to_string digest t log = Err e
  | (Ok false, _) => upsert_log to_string digest t log = Ok t
  | (Ok true, l') => ∃ t', upsert_log to_string digest t log = Ok t' ∧ stored l' t'
  end.
Proof.
  pose proof (proj1 (usage_validate_Ok to_string l) Hv) as Hvalid. pose proof Hst as [_ Hp].
  unfold upsert_log. rewrite (read_stored to_string l t) by done. cbn [mbind result_bind].
  assert (latest_row (qt_rows t) (log_request_id log) = latest l (log_request_id log)) as ->.
  { rewrite (latest_row_last to_string l) by done. unfold latest. by destruct (_ !! _). }
  assert (match latest l (log_request_id log) with
          | Some e => insert_persisted to_string (metadata l) e | None => Ok (metadata l) end
          = Ok (sparse to_string l (latest l (log_request_id log)))) as ->.
  { destruct (latest _ _); [apply insert_sparse|done]. }
  cbn [mbind result_bind].
  assert (agree l (sparse to_string l (latest l (log_request_id log))) (log_request_id log)) as Ha.
  { pose proof (sparse_agree to_string l (log_request_id log) Hvalid) as H. unfold latest.
    by destruct (ul_record_scopes l !! _). }
  pose proof (record_agree to_string l _ log Ha) as Hag.
  destruct (record to_string l log) as [[b|er] l'] eqn:Er;
    destruct (record to_string (sparse _ _ _) log) as [[b'|er'] s'] eqn:Es; try done; [|by subst].
  destruct Hag as [-> Hm]. destruct b; [|done].
  apply record_true in Er as (key & vs & e & Hr). apply record_true in Es as (key' & vs' & e' & Hr').
  rewrite (recorded_found to_string l _ s' log key' vs' e') by (done || by intros p Hl; eapply (latest_elem to_string)).
  cbn [ok_or mbind result_bind].
  assert (e' = e) as ->.
  { destruct (rc_entry _ _ _ _ _ _ _ Hr) as (a & sh & us & E1 & E2 & E3 & -> & _).
    destruct (rc_entry _ _ _ _ _ _ _ Hr') as (a' & sh' & us' & E1' & E2' & E3' & -> & _).
    injection Hm as _ -> _ _ _. congruence. }
  rewrite (insert_row_new to_string digest l l' log key vs e) by done. cbn [mbind result_bind].
  eexists. split; [reflexivity|]. split; simpl; [done|].
  rewrite (recorded_perm _ _ _ _ _ _ _ Hr), Hp. by rewrite Permutation_app_comm.
Qed.

(** ** A concrete table *)
Definition sample_table : QuotaTable :=
  mk_table (metadata sample_usage) (all_entries (records sample_usage)).
Lemma load_restores_ledger_witness : load sample_scope sample_table = Ok sample_usage.
Proof.
  apply load_restores_ledger.
  - by vm_compute.
  - apply no_empty_scope_check. by vm_compute.
  - by split.
  - intros e He. vm_compute in He. apply list_elem_of_singleton in He as ->. by vm_compute.
Defined.
Lemma upsert_simulates_record_witness : ∃ t',
  upsert_log sample_scope en_request_id sample_table (sample_log 2 150) = Ok t'
  ∧ stored (record sample_scope sample_usage (sample_log 2 150)).2 t'.
Proof.
  assert (usage_validate sample_scope sample_usage = Ok ()) as Hv by by vm_compute.
  assert (sql_range sample_usage (sample_log 2 150)) as Hsql.
  { split.
    - cbn [sample_log log_usage_revision]; unfold I64_MAX; lia.
    - replace (ul_watermark sample_usage) with 1 by by vm_compute. unfold I64_MAX; lia.
    - intros a [= <-]. cbn [at_source_epoch]. unfold I64_MAX; lia. }
  pose proof (upsert_simulates_record sample_scope en_request_id sample_usage sample_table
    (sample_log 2 150) Hv ltac:(by split) Hsql) as H.
  assert ((record sample_scope sample_usage (sample_log 2 150)).1 = Ok true) as Hb by by vm_compute.
  destruct (record sample_scope sample_usage (sample_log 2 150)) as [r l'].
  cbn [fst] in Hb. subst r. exact H.
Defined.
