(* ===== verification/TokenPeriod.v ===== *)
(** * Token periods ([src/domain/sharing/token_period.rs])

    The quota window of a user policy at an instant, and the check of a policy's anchor.
    The calendar is the [chrono] crate, which the program only calls: [Chrono] lists what
    it calls, [ChronoLaws] the documented behaviour the results rest on, and
    [GregorianChrono] is a computable calendar that satisfies them. *)
From S2P Require Import Prelude RustStr Json ModelIdentity ValuePricing.
From Stdlib Require Import ZArith Lia.

Local Open Scope Z_scope.

(** ** What the program calls of [chrono] *)
Inductive Weekday : Type := Mon | Tue | Wed | Thu | Fri | Sat | Sun.
Class Chrono : Type := {
  (** [Utc.timestamp_millis_opt(ms).single().is_some()] *)
  timestamp_valid : Z → bool;
  (** [.date_naive()] of an instant; a date is written as its day number *)
  date_naive : Z → Z;
  weekday : Z → Weekday;
  year : Z → Z;
  month : Z → Z;
  (** [date - Duration::days(n)], which panics out of range *)
  sub_days : Z → Z → option Z;
  from_ymd_opt : Z → Z → Z → option Z;
  (** [.and_hms_opt(0, 0, 0).and_utc().timestamp_millis()] *)
  midnight_ms : Z → Z;
}.

(** domain/sharing/token_period.rs:5-5 [MINUTE_MS] *)
Definition MINUTE_MS : Z := 60000.
(** domain/sharing/token_period.rs:6-6 [DAY_MS] *)
Definition DAY_MS : Z := 24 * 60 * MINUTE_MS.

(** domain/sharing/router_contract.rs:296-307 [ShareTokenPeriod] *)
Inductive ShareTokenPeriod : Type :=
  Lifetime | Day | Week | SevenDays | CalendarMonth | ThirtyDays | AccountReset.
#[global] Instance ShareTokenPeriod_eq_dec : EqDecision ShareTokenPeriod.
Proof. solve_decision. Defined.
(** domain/sharing/router_contract.rs:309-318 [supported_share_token_periods] *)
Definition supported_share_token_periods : list ShareTokenPeriod :=
  [Lifetime; Day; Week; SevenDays; CalendarMonth; ThirtyDays].

(** domain/sharing/router_contract.rs:320-340 [ShareUserPolicy]; the apps by their names *)
Record ShareUserPolicy := mk_policy {
  parallel_limit : option Z;
  token_limit : option Z;
  value_quota : option ValueQuota;
  token_period : ShareTokenPeriod;
  token_period_anchor_at_ms : option Z;
  expires_at : option Z;
  allowed_apps : list string;
}.
(** domain/sharing/token_period.rs:8-12 [TokenPeriodWindow] *)
Record TokenPeriodWindow := mk_window { starts_at_ms : option Z; ends_at_ms : option Z }.

(** domain/sharing/token_period.rs:15-17 [ShareTokenPeriod::requires_anchor] *)
Definition requires_anchor (p : ShareTokenPeriod) : bool :=
  match p with SevenDays | ThirtyDays => true | _ => false end.
(** domain/sharing/token_period.rs:19-25 [ShareTokenPeriod::duration_ms] *)
Definition duration_ms (p : ShareTokenPeriod) : option Z :=
  match p with
  | SevenDays => Some (7 * DAY_MS)
  | ThirtyDays => Some (30 * DAY_MS)
  | _ => None
  end.

(** [ValueError]'s message, which the crate [thiserror] derives. *)
Definition policy_error (display : ValueError → string) (e : ValueError) : string := display e.
(** domain/sharing/token_period.rs:28-55 [validate_user_policy] *)
Definition validate_user_policy (display : ValueError → string) (policy : ShareUserPolicy)
    (now_ms : Z) : result string () :=
  _ ← match value_quota policy with
      | Some quota =>
          _ ← fail_if (bool_decide (is_Some (token_limit policy)))
                "tokenLimit and valueQuota are mutually exclusive";
          match limit_picos quota with Ok _ => Ok () | Err e => Err (display e) end
      | None => Ok ()
      end;
  match requires_anchor (token_period policy), token_period_anchor_at_ms policy with
  | true, None => Err "tokenPeriodAnchorAtMs is required for fixed token periods"
  | false, Some _ => Err "tokenPeriodAnchorAtMs is only allowed for sevenDays or thirtyDays"
  | true, Some anchor =>
      if anchor <? 0 then Err "tokenPeriodAnchorAtMs must be a non-negative UTC timestamp"
      else if negb (Z.rem anchor MINUTE_MS =? 0)
      then Err "tokenPeriodAnchorAtMs must use minute precision"
      else if now_ms <? anchor then Err "tokenPeriodAnchorAtMs cannot be in the future"
      else Ok ()
  | false, None => Ok ()
  end.

(** The two ways the function stops: [return Err] and a panic ([expect], date overflow). *)
Inductive fault : Type := Refused (message : string) | Panicked (message : string).
Definition expect {A} (message : string) (o : option A) : result fault A :=
  ok_or (Panicked message) o.
Definition refuse {A} (message : string) (o : option A) : result fault A :=
  ok_or (Refused message) o.
Definition calendar_start (start_ms end_ms : Z) : TokenPeriodWindow :=
  mk_window (Some start_ms) (Some end_ms).

Section windows.
Context `{Chrono}.

(** domain/sharing/token_period.rs:84-92 [token_period_window] *)
Definition days_since_monday (w : Weekday) : Z :=
  match w with Mon => 0 | Tue => 1 | Wed => 2 | Thu => 3 | Fri => 4 | Sat => 5 | Sun => 6 end.
(** domain/sharing/token_period.rs:107-111 [token_period_window], the month after *)
Definition next_month (year month : Z) : Z * Z :=
  if month =? 12 then (year + 1, 1) else (year, month + 1).
(** domain/sharing/token_period.rs:120-143 [token_period_window], the fixed periods *)
Definition fixed_window (policy : ShareUserPolicy) (now_ms : Z)
  : result fault TokenPeriodWindow :=
  anchor ← refuse "tokenPeriodAnchorAtMs is required" (token_period_anchor_at_ms policy);
  duration ← expect "fixed period has duration" (duration_ms (token_period policy));
  let index := (now_ms - anchor) / duration in
  offset ← refuse "fixed token period window multiplication overflow" (checked_i128 (index * duration));
  start ← refuse "fixed token period window start overflow" (checked_i128 (anchor + offset));
  finish ← refuse "fixed token period window end overflow" (checked_i128 (start + duration));
  start ← refuse "fixed token period window start is out of range" (checked_i64 start);
  finish ← refuse "fixed token period window end is out of range" (checked_i64 finish);
  Ok (calendar_start start finish).
(** domain/sharing/token_period.rs:57-145 [token_period_window] *)
Definition token_period_window (policy : ShareUserPolicy) (now_ms : Z)
  : result fault TokenPeriodWindow :=
  _ ← fail_if (negb (timestamp_valid now_ms))
        (Refused "current time is outside the supported UTC range");
  let date := date_naive now_ms in
  match token_period policy with
  | AccountReset => Err (Refused "accountReset requires verified account quota context")
  | Lifetime => Ok (mk_window None None)
  | Day => let start := midnight_ms date in Ok (calendar_start start (start + DAY_MS))
  | Week =>
      monday ← expect "date out of range" (sub_days date (days_since_monday (weekday date)));
      let start := midnight_ms monday in
      Ok (calendar_start start (start + 7 * DAY_MS))
  | CalendarMonth =>
      first ← expect "UTC month boundary is valid" (from_ymd_opt (year date) (month date) 1);
      let '(next_year, next) := next_month (year date) (month date) in
      after ← expect "next UTC month boundary is valid" (from_ymd_opt next_year next 1);
      Ok (calendar_start (midnight_ms first) (midnight_ms after))
  | SevenDays | ThirtyDays => fixed_window policy now_ms
  end.
End windows.

(** ** The documented behaviour of the calendar *)
(** Instants from 1970 up to the year 10000. *)
Definition instant (ms : Z) : Prop := 0 ≤ ms < 253402300800000.
Definition weekday_of (day : Z) : Weekday :=
  match (day + 3) mod 7 with
  | 0 => Mon | 1 => Tue | 2 => Wed | 3 => Thu | 4 => Fri | 5 => Sat | _ => Sun
  end.
Class ChronoLaws `{Chrono} : Prop := {
  timestamp_valid_instant ms : instant ms → timestamp_valid ms = true;
  date_naive_floor ms : instant ms → date_naive ms = ms / DAY_MS;
  epoch_month : year 0 = 1970 ∧ month 0 = 1 ∧ from_ymd_opt 1970 1 1 = Some 0;
  midnight_ms_day day : midnight_ms day = day * DAY_MS;
  (** the first of January 1970 was a Thursday *)
  weekday_cycle ms : instant ms → weekday (ms / DAY_MS) = weekday_of (ms / DAY_MS);
  sub_days_week ms n : instant ms → 0 ≤ n < 7 → sub_days (ms / DAY_MS) n = Some (ms / DAY_MS - n);
  (** the days of a month are those from its first to the next month's *)
  months ms : instant ms → ∃ first after,
    from_ymd_opt (year (ms / DAY_MS)) (month (ms / DAY_MS)) 1 = Some first
    ∧ (let '(y, m) := next_month (year (ms / DAY_MS)) (month (ms / DAY_MS)) in
       from_ymd_opt y m 1 = Some after)
    ∧ first ≤ ms / DAY_MS < after
    ∧ ∀ ms', instant ms' → first ≤ ms' / DAY_MS < after →
        year (ms' / DAY_MS) = year (ms / DAY_MS) ∧ month (ms' / DAY_MS) = month (ms / DAY_MS);
}.

Section window_lemmas.
Context `{ChronoLaws}.
Implicit Types (policy : ShareUserPolicy) (now : Z).

Lemma day_bounds now : now / DAY_MS * DAY_MS ≤ now < now / DAY_MS * DAY_MS + DAY_MS.
Proof.
  pose proof (Z.div_mod now DAY_MS ltac:(done)). pose proof (Z.mod_pos_bound now DAY_MS eq_refl). lia.
Qed.
Lemma same_day now k : k * DAY_MS ≤ now < (k + 1) * DAY_MS ↔ now / DAY_MS = k.
Proof. pose proof (day_bounds now). unfold DAY_MS, MINUTE_MS in *. split; intros; nia. Qed.
(** The fixed windows, once the conversions are known to fit. *)
Lemma fixed_window_Ok policy now w : fixed_window policy now = Ok w ↔
  ∃ anchor duration, token_period_anchor_at_ms policy = Some anchor
    ∧ duration_ms (token_period policy) = Some duration
    ∧ let start := anchor + (now - anchor) / duration * duration in
      I128_MIN ≤ (now - anchor) / duration * duration ≤ I128_MAX
      ∧ is_i64 start ∧ is_i64 (start + duration) ∧ w = calendar_start start (start + duration).
Proof.
  unfold fixed_window, refuse, expect. split.
  - intros Hw. simplify_result. repeat match goal with
    | H : context [checked] |- _ => idtac | H : checked_i128 _ = Some _ |- _ => apply checked_Some in H as [-> ?]
    | H : checked_i64 _ = Some _ |- _ => apply checked_Some in H as [-> ?] end.
    eexists _, _. split_and!; [done..|lia|lia|done|done|done].
  - intros (anchor & duration & -> & -> & ? & ? & ? & ->). cbn [ok_or mbind result_bind].
    rewrite !checked_i128_in by (unfold I128_MIN, I128_MAX, is_i64, I64_MIN, I64_MAX in *; lia).
    cbn [ok_or mbind result_bind]. rewrite !checked_i128_in by (unfold I128_MIN, I128_MAX, is_i64, I64_MIN, I64_MAX in *; lia).
    cbn [ok_or mbind result_bind]. rewrite !checked_i128_in by (unfold I128_MIN, I128_MAX, is_i64, I64_MIN, I64_MAX in *; lia).
    cbn [ok_or mbind result_bind]. by rewrite !checked_i64_in by done.
Qed.
Lemma duration_pos p d : duration_ms p = Some d → 0 < d.
Proof. destruct p; simpl; intros [= <-]; done. Qed.
(** The period boundary of [x] from [anchor]: [start] is the boundary at or before it. *)
Lemma boundary anchor duration x y : 0 < duration →
  anchor + (y - anchor) / duration * duration = anchor + (x - anchor) / duration * duration ↔
  anchor + (x - anchor) / duration * duration ≤ y
    < anchor + (x - anchor) / duration * duration + duration.
Proof.
  intros Hd. pose proof (Z.div_mod (y - anchor) duration ltac:(lia)).
  pose proof (Z.mod_pos_bound (y - anchor) duration Hd). split; [nia|].
  intros Hy. assert ((y - anchor) / duration = (x - anchor) / duration) as ->; [|done].
  symmetry. apply (Z.div_unique _ _ _ (y - anchor - duration * ((x - anchor) / duration))); lia.
Qed.
Lemma week_start now : instant now →
  sub_days (now / DAY_MS) (days_since_monday (weekday (now / DAY_MS))) =
    Some (now / DAY_MS - (now / DAY_MS + 3) mod 7).
Proof.
  intros Hi. rewrite weekday_cycle by done. pose proof (Z.mod_pos_bound (now / DAY_MS + 3) 7 eq_refl) as Hm.
  assert (days_since_monday (weekday_of (now / DAY_MS)) = (now / DAY_MS + 3) mod 7) as ->.
  { unfold weekday_of.
    assert ((now / DAY_MS + 3) mod 7 ∈ [0; 1; 2; 3; 4; 5; 6]) as Hin.
    { rewrite !elem_of_cons. lia. }
    repeat (apply elem_of_cons in Hin as [->|Hin]; [done|]). inversion Hin. }
  by apply sub_days_week.
Qed.
Definition periodic (anchor duration now : Z) : TokenPeriodWindow :=
  let start := anchor + (now - anchor) / duration * duration in
  calendar_start start (start + duration).
Lemma periodic_same anchor duration now now' : 0 < duration →
  periodic anchor duration now' = periodic anchor duration now ↔
  anchor + (now - anchor) / duration * duration ≤ now'
    < anchor + (now - anchor) / duration * duration + duration.
Proof. intros Hd. rewrite <-boundary by done. unfold periodic. split; [by intros [= ?]|by intros ->]. Qed.
Lemma periodic_day now : calendar_start (now / DAY_MS * DAY_MS) (now / DAY_MS * DAY_MS + DAY_MS)
  = periodic 0 DAY_MS now.
Proof. unfold periodic. by rewrite Z.sub_0_r, Z.add_0_l. Qed.
Lemma periodic_week now : let start := (now / DAY_MS - (now / DAY_MS + 3) mod 7) * DAY_MS in
  calendar_start start (start + 7 * DAY_MS) = periodic (-3 * DAY_MS) (7 * DAY_MS) now.
Proof.
  unfold periodic. simpl. set (d := now / DAY_MS).
  assert ((now - -3 * DAY_MS) / (7 * DAY_MS) = (d + 3) / 7) as ->.
  { replace (7 * DAY_MS) with (DAY_MS * 7) by lia. rewrite <-Z.div_div by done. f_equal.
    replace (now - -3 * DAY_MS) with (now + 3 * DAY_MS) by lia. by rewrite Z.div_add. }
  pose proof (Z.div_mod (d + 3) 7 ltac:(done)).
  assert ((d - (d + 3) mod 7) * DAY_MS = -3 * DAY_MS + (d + 3) / 7 * (7 * DAY_MS)) as E by nia.
  unfold calendar_start. by rewrite E.
Qed.
Lemma fixed_periodic policy now w : instant now → fixed_window policy now = Ok w →
  ∃ anchor duration, 0 < duration ∧ w = periodic anchor duration now
  ∧ ∀ now', instant now' → fixed_window policy now' = Ok w ↔
      periodic anchor duration now' = periodic anchor duration now.
Proof.
  intros Hi Hw. apply fixed_window_Ok in Hw as (anchor & duration & Ha & Hd & Hx & Hs & He & ->).
  exists anchor, duration. split; [by eapply duration_pos|]. split; [done|].
  intros now' Hi'. rewrite fixed_window_Ok. split.
  - intros (a & d & Ha' & Hd' & _ & _ & _ & [= Hst _]). unfold periodic. simpl in *.
    replace a with anchor in * by congruence. replace d with duration in * by congruence. by rewrite Hst.
  - intros [= Heq _]. exists anchor, duration. simpl. rewrite Heq. split_and!; try done; lia.
Qed.
(** The window of an instant, period by period. *)
Lemma window_Ok policy now w : instant now → token_period_window policy now = Ok w ↔
  match token_period policy with
  | AccountReset => False
  | Lifetime => w = mk_window None None
  | Day => w = calendar_start (now / DAY_MS * DAY_MS) (now / DAY_MS * DAY_MS + DAY_MS)
  | Week =>
      let start := (now / DAY_MS - (now / DAY_MS + 3) mod 7) * DAY_MS in
      w = calendar_start start (start + 7 * DAY_MS)
  | CalendarMonth => ∃ first after,
      from_ymd_opt (year (now / DAY_MS)) (month (now / DAY_MS)) 1 = Some first
      ∧ (let '(y, m) := next_month (year (now / DAY_MS)) (month (now / DAY_MS)) in
         from_ymd_opt y m 1 = Some after)
      ∧ w = calendar_start (first * DAY_MS) (after * DAY_MS)
  | SevenDays | ThirtyDays => fixed_window policy now = Ok w
  end.
Proof.
  intros Hi. unfold token_period_window. rewrite (timestamp_valid_instant now Hi). cbn [negb fail_if mbind result_bind].
  rewrite (date_naive_floor now Hi). destruct (token_period policy); try done.
  - split; [by intros [= <-]|by intros ->].
  - rewrite midnight_ms_day. split; [by intros [= <-]|by intros ->].
  - rewrite week_start by done. cbn [expect ok_or mbind result_bind]. rewrite midnight_ms_day.
    split; [by intros [= <-]|by intros ->].
  - unfold expect. destruct (from_ymd_opt (year _) _ 1) as [first|]; simpl; [|naive_solver].
    destruct (next_month _ _) as [y m].
    destruct (from_ymd_opt y m 1) as [after|]; simpl; [|naive_solver].
    rewrite !midnight_ms_day. naive_solver.
Qed.
#[global] Instance window_eq_dec : EqDecision TokenPeriodWindow.
Proof. solve_decision. Defined.
(** What the theorem below says of a window [w]. *)
Definition partitions policy now w : Prop :=
  match starts_at_ms w, ends_at_ms w with
  | Some starts, Some ends => starts ≤ now < ends
      ∧ ∀ now', instant now' → token_period_window policy now' = Ok w ↔ starts ≤ now' < ends
  | None, None => token_period policy = Lifetime
  | _, _ => False
  end.
Lemma periodic_answer policy anchor duration now w : 0 < duration → w = periodic anchor duration now →
  (∀ now', instant now' → token_period_window policy now' = Ok w ↔
    periodic anchor duration now' = periodic anchor duration now) → partitions policy now w.
Proof.
  intros Hd -> Hall. unfold partitions. simpl. split; [by apply periodic_same|].
  intros now' Hi'. by rewrite Hall, periodic_same.
Qed.
Lemma fixed_answer display policy now now' : validate_user_policy display policy now = Ok () →
  is_i64 now → instant now' → requires_anchor (token_period policy) = true →
  ∃ w, fixed_window policy now' = Ok w ∧ ∀ starts, starts_at_ms w = Some starts →
    match duration_ms (token_period policy) with
    | Some duration => ∃ anchor n, token_period_anchor_at_ms policy = Some anchor
        ∧ anchor ≤ now ∧ starts = anchor + n * duration ∧ ends_at_ms w = Some (starts + duration)
    | None => False
    end.
Proof.
  unfold validate_user_policy. intros Hv Hn Hi Hr. apply bind_Ok in Hv as ([] & _ & Hv). rewrite Hr in Hv.
  destruct (token_period_anchor_at_ms policy) as [anchor|] eqn:Ea; [|done].
  destruct (Z.ltb_spec anchor 0), (Z.rem anchor MINUTE_MS =? 0), (Z.ltb_spec now anchor); try done.
  assert (∃ d, duration_ms (token_period policy) = Some d ∧ 0 < d ≤ 30 * DAY_MS) as (d & Hd & Hpos)
    by (destruct (token_period policy); try done; eexists; (split; [done|]); unfold DAY_MS, MINUTE_MS; lia).
  pose proof (Z.div_mod (now' - anchor) d ltac:(lia)). pose proof (Z.mod_pos_bound (now' - anchor) d ltac:(lia)).
  eexists. split.
  - apply fixed_window_Ok. exists anchor, d. unfold instant, is_i64, I128_MIN, I128_MAX, I64_MIN, I64_MAX, DAY_MS, MINUTE_MS in *.
    split_and!; done || lia.
  - intros starts [= <-]. rewrite Hd. exists anchor, ((now' - anchor) / d). by split_and!.
Qed.
Lemma month_answer policy now w : instant now → token_period policy = CalendarMonth →
  (∃ first after, from_ymd_opt (year (now / DAY_MS)) (month (now / DAY_MS)) 1 = Some first
      ∧ (let '(y, m) := next_month (year (now / DAY_MS)) (month (now / DAY_MS)) in
         from_ymd_opt y m 1 = Some after)
      ∧ w = calendar_start (first * DAY_MS) (after * DAY_MS)) → partitions policy now w.
Proof.
  intros Hi Ep (first & after & Hf & Ha & ->). unfold partitions. simpl.
  destruct (months now Hi) as (f & a & Hf' & Ha' & Hr & Hsame).
  destruct (next_month _ _) as [y m] eqn:En. rewrite Hf in Hf'. rewrite Ha in Ha'.
  injection Hf' as <-. injection Ha' as <-.
  split; [pose proof (day_bounds now); nia|]. intros now' Hi'. rewrite window_Ok, Ep by done. split.
  - intros (f2 & a2 & Hf2 & Ha2 & [= Ef Ea]). destruct (months now' Hi') as (f3 & a3 & Hf3 & Ha3 & Hr3 & _).
    destruct (next_month (year (now' / DAY_MS)) _) as [y' m']. rewrite Hf2 in Hf3. rewrite Ha2 in Ha3.
    injection Hf3 as <-. injection Ha3 as <-. pose proof (day_bounds now'). unfold DAY_MS, MINUTE_MS in *. nia.
  - intros Hn. assert (first ≤ now' / DAY_MS < after) as Hd by (pose proof (day_bounds now'); unfold DAY_MS, MINUTE_MS in *; nia).
    destruct (Hsame now' Hi' Hd) as [-> ->]. exists first, after. by rewrite En.
Qed.
Lemma window_partitions policy now w : instant now → token_period_window policy now = Ok w →
  partitions policy now w.
Proof.
  intros Hi Hw. apply window_Ok in Hw; [|done].
  destruct (token_period policy) eqn:Ep; [by subst w| | | | | |done].
  - rewrite periodic_day in Hw. apply (periodic_answer policy 0 DAY_MS); [done|done|].
    intros now' Hi'. rewrite window_Ok, Ep, periodic_day by done. subst w. split; by intros ->.
  - cbv zeta in Hw. rewrite periodic_week in Hw. apply (periodic_answer policy (-3 * DAY_MS) (7 * DAY_MS)); [done|done|].
    intros now' Hi'. rewrite window_Ok, Ep by done. cbv zeta. rewrite periodic_week. subst w. split; by intros ->.
  - apply fixed_periodic in Hw as (anchor & duration & Hd & -> & Hall); [|done].
    apply (periodic_answer policy anchor duration); [done|done|].
    intros now' Hi'. rewrite window_Ok, Ep by done. by apply Hall.
  - by apply month_answer.
  - apply fixed_periodic in Hw as (anchor & duration & Hd & -> & Hall); [|done].
    apply (periodic_answer policy anchor duration); [done|done|].
    intros now' Hi'. rewrite window_Ok, Ep by done. by apply Hall.
Qed.
(** ** Starts of windows *)
Definition window_start policy at_ms : Z :=
  match token_period_window policy at_ms with
  | Ok w => default 0 (starts_at_ms w) | Err _ => 0 end.
(** An instant of a window: between its bounds, where it has bounds. *)
Definition inside (w : TokenPeriodWindow) (at_ms : Z) : bool :=
  match starts_at_ms w, ends_at_ms w with
  | Some starts, Some ends => (starts <=? at_ms) && (at_ms <? ends)
  | _, _ => true
  end.
Lemma lifetime_window policy x w : instant x → token_period policy = Lifetime →
  token_period_window policy x = Ok w → w = mk_window None None.
Proof. intros Hi Hp Hw. apply window_Ok in Hw; [|done]. by rewrite Hp in Hw. Qed.
Lemma window_bounds policy x w : instant x → token_period policy ≠ Lifetime →
  token_period_window policy x = Ok w →
  ∃ starts ends, w = calendar_start starts ends ∧ starts ≤ x < ends ∧ window_start policy x = starts
    ∧ ∀ y, instant y → token_period_window policy y = Ok w ↔ starts ≤ y < ends.
Proof.
  intros Hi Hp Hw. pose proof (window_partitions _ _ _ Hi Hw) as P. unfold partitions in P.
  unfold window_start. rewrite Hw.
  destruct w as [[s|] [e|]]; simpl in *; try done. exists s, e. destruct P. split; [done|].
  split; [done|]. by split.
Qed.
Lemma window_start_mono policy x y wx wy : instant x → instant y → x ≤ y →
  token_period_window policy x = Ok wx → token_period_window policy y = Ok wy →
  window_start policy x ≤ window_start policy y.
Proof.
  intros Hx Hy Hxy Ex Ey. destruct (decide (token_period policy = Lifetime)) as [Hp|Hp].
  { unfold window_start. rewrite Ex, Ey. rewrite (lifetime_window _ _ _ Hx Hp Ex), (lifetime_window _ _ _ Hy Hp Ey). simpl. lia. }
  destruct (window_bounds _ _ _ Hx Hp Ex) as (sx & ex & -> & Bx & -> & _).
  destruct (window_bounds _ _ _ Hy Hp Ey) as (sy & ey & -> & By & -> & Py).
  destruct (decide (sy ≤ x)) as [Hle|]; [|lia].
  assert (token_period_window policy x = Ok (calendar_start sy ey)) as E by (apply Py; [done|lia]).
  rewrite Ex in E. injection E as -> _. done.
Qed.
(** The instants of a window are those whose own window starts with it. *)
Lemma inside_start policy now w x wx : instant now → instant x →
  token_period_window policy now = Ok w → token_period_window policy x = Ok wx →
  inside w x = (window_start policy x =? window_start policy now).
Proof.
  intros Hn Hx Ew Ex. destruct (decide (token_period policy = Lifetime)) as [Hp|Hp].
  { unfold window_start, inside. rewrite Ex, Ew. by rewrite (lifetime_window _ _ _ Hx Hp Ex), (lifetime_window _ _ _ Hn Hp Ew). }
  destruct (window_bounds _ _ _ Hn Hp Ew) as (s & e & -> & B & -> & P).
  destruct (window_bounds _ _ _ Hx Hp Ex) as (sx & ex & -> & Bx & -> & Px). unfold inside. simpl.
  apply eq_true_iff_eq. rewrite andb_true_iff, Z.leb_le, Z.ltb_lt, Z.eqb_eq. split.
  - intros Hin%P; [|done]. rewrite Ex in Hin. by injection Hin.
  - intros ->. split; [lia|]. destruct (decide (x < e)) as [|Hge]; [done|exfalso].
    assert (token_period_window policy now = Ok (calendar_start s ex)) as E' by (apply Px; [done|lia]).
    rewrite Ew in E'. injection E' as ->. lia.
Qed.
End window_lemmas.

(** ** Properties *)
(** the windows of a policy partition time: the window of an instant contains that
    instant, exactly the instants in a window share it, and only a lifetime quota has a
    window without bounds. *)
Theorem token_windows_partition `{ChronoLaws} policy now w
    (Hi : instant now) (Hw : token_period_window policy now = Ok w) :
  match starts_at_ms w, ends_at_ms w with
  | Some starts, Some ends => starts ≤ now < ends
      ∧ ∀ now', instant now' → token_period_window policy now' = Ok w ↔ starts ≤ now' < ends
  | None, None => token_period policy = Lifetime
  | _, _ => False
  end.
Proof. by apply window_partitions. Qed.

