(* ===== verification/Gregorian.v ===== *)
(** * A computable Gregorian calendar

    Satisfies the laws [TokenPeriod] asks of the calendar: months are walked from January
    1970 with the Gregorian leap rule.  Used to evaluate concrete windows. *)
From S2P Require Import Prelude RustStr Json ModelIdentity ValuePricing TokenPeriod.
From Stdlib Require Import ZArith Lia.

Local Open Scope Z_scope.

Definition leap (y : Z) : bool :=
  (y mod 4 =? 0) && (negb (y mod 100 =? 0) || (y mod 400 =? 0)).
(** Month [k] after January 1970. *)
Definition year_of (k : nat) : Z := 1970 + Z.of_nat k / 12.
Definition month_of (k : nat) : Z := Z.of_nat k mod 12 + 1.
Definition month_days (k : nat) : Z :=
  match month_of k with
  | 2 => if leap (year_of k) then 29 else 28
  | 4 | 6 | 9 | 11 => 30
  | _ => 31
  end.
Fixpoint month_start (k : nat) : Z :=
  match k with O => 0 | S k => month_start k + month_days k end.
(** The month of a day, walking up from month [k], which starts at [start]. *)
Fixpoint find_month (fuel : nat) (k : nat) (start day : Z) : nat :=
  match fuel with
  | O => k
  | S fuel =>
      if day <? start + month_days k then k
      else find_month fuel (S k) (start + month_days k) day
  end.
Definition month_index (day : Z) : nat := find_month (Z.to_nat (day / 28 + 1)) 0 0 day.
#[global] Instance GregorianChrono : Chrono := {
  timestamp_valid ms := (-8334601228800000 <=? ms) && (ms <=? 8210266876799999);
  date_naive ms := ms / DAY_MS;
  weekday := weekday_of;
  year day := year_of (month_index day);
  month day := month_of (month_index day);
  sub_days day n := Some (day - n);
  from_ymd_opt y m d :=
    if (1970 <=? y) && (1 <=? m) && (m <=? 12) && (d =? 1)
    then Some (month_start (Z.to_nat (12 * (y - 1970) + (m - 1)))) else None;
  midnight_ms day := day * DAY_MS;
}.

Lemma month_days_bounds k : 28 ≤ month_days k ≤ 31.
Proof. unfold month_days. destruct (leap _); repeat case_match; lia. Qed.
Lemma find_month_spec fuel k day : month_start k ≤ day < month_start k + 28 * Z.of_nat fuel →
  let k' := find_month fuel k (month_start k) day in month_start k' ≤ day < month_start (S k').
Proof.
  revert k. induction fuel as [|fuel IH]; intros k Hd; [lia|]. cbn [find_month].
  destruct (Z.ltb_spec day (month_start k + month_days k)); [simpl; lia|].
  apply (IH (S k)). simpl. pose proof (month_days_bounds k). lia.
Qed.
Lemma month_index_spec day : 0 ≤ day →
  month_start (month_index day) ≤ day < month_start (S (month_index day)).
Proof.
  intros Hd. apply (find_month_spec _ 0). change (month_start 0) with 0.
  pose proof (Z.div_mod day 28 ltac:(done)). pose proof (Z.mod_pos_bound day 28 eq_refl).
  rewrite Z2Nat.id; nia.
Qed.
Lemma month_start_mono j k : (j ≤ k)%nat → month_start j ≤ month_start k.
Proof. induction 1 as [|k _ IH]; [lia|]. simpl. pose proof (month_days_bounds k). lia. Qed.
Lemma month_index_unique day k : month_start k ≤ day < month_start (S k) → month_index day = k.
Proof.
  intros Hk. assert (0 ≤ day) as Hd by (pose proof (month_start_mono 0 k); simpl in *; lia).
  pose proof (month_index_spec day Hd) as Hm.
  destruct (lt_eq_lt_dec (month_index day) k) as [[Hlt|?]|Hlt]; [exfalso|done|exfalso].
  - pose proof (month_start_mono (S (month_index day)) k Hlt). lia.
  - pose proof (month_start_mono (S k) (month_index day) Hlt). lia.
Qed.
Lemma from_ymd_month k : from_ymd_opt (year_of k) (month_of k) 1 = Some (month_start k).
Proof.
  unfold from_ymd_opt. cbn [GregorianChrono]. unfold year_of, month_of.
  pose proof (Z.div_mod (Z.of_nat k) 12 ltac:(done)). pose proof (Z.mod_pos_bound (Z.of_nat k) 12 eq_refl).
  assert (0 ≤ Z.of_nat k / 12) by (apply Z.div_pos; lia).
  rewrite !(proj2 (Z.leb_le _ _)) by lia. simpl. do 3 f_equal. lia.
Qed.
Lemma next_month_of k : next_month (year_of k) (month_of k) = (year_of (S k), month_of (S k)).
Proof.
  unfold next_month, year_of, month_of.
  pose proof (Z.div_mod (Z.of_nat k) 12 ltac:(done)). pose proof (Z.mod_pos_bound (Z.of_nat k) 12 eq_refl).
  set (q := Z.of_nat k / 12) in *. set (r := Z.of_nat k mod 12) in *.
  destruct (Z.eqb_spec (r + 1) 12).
  - rewrite <-(Z.div_unique (Z.of_nat (S k)) 12 (q + 1) 0), <-(Z.mod_unique (Z.of_nat (S k)) 12 (q + 1) 0) by lia.
    f_equal; lia.
  - rewrite <-(Z.div_unique (Z.of_nat (S k)) 12 q (r + 1)), <-(Z.mod_unique (Z.of_nat (S k)) 12 q (r + 1)) by lia.
    f_equal; lia.
Qed.
#[global] Instance GregorianChronoLaws : ChronoLaws.
Proof.
  split; try done.
  - intros ms Hi. unfold instant in Hi. simpl. rewrite !(proj2 (Z.leb_le _ _)) by lia. done.
  - intros ms Hi. assert (0 ≤ ms / DAY_MS) as Hd by (apply Z.div_pos; [apply Hi|done]).
    set (day := ms / DAY_MS) in *. pose proof (month_index_spec day Hd).
    exists (month_start (month_index day)), (month_start (S (month_index day))).
    change (year day) with (year_of (month_index day)). change (month day) with (month_of (month_index day)).
    rewrite next_month_of. split_and!; [apply from_ymd_month|apply from_ymd_month|lia|lia|].
    intros ms' _ Hd'. change (year (ms' / DAY_MS)) with (year_of (month_index (ms' / DAY_MS))).
    change (month (ms' / DAY_MS)) with (month_of (month_index (ms' / DAY_MS))).
    by rewrite (month_index_unique (ms' / DAY_MS) (month_index day)).
Qed.

(** ** Concrete windows *)
(** 2026-07-23T11:30Z in the calendar week and month of that day. *)
Example month_window : token_period_window (mk_policy None None None CalendarMonth None None []) 1784806200000
  = Ok (calendar_start 1782864000000 1785542400000).
Proof. vm_compute. reflexivity. Qed.
Example week_window : token_period_window (mk_policy None None None Week None None []) 1784806200000
  = Ok (calendar_start 1784505600000 1785110400000).
Proof. vm_compute. reflexivity. Qed.
Definition sample_policy : ShareUserPolicy := mk_policy None (Some 100) None SevenDays (Some 60000) None [].
Lemma token_windows_partition_witness :
  token_period_window sample_policy 604860000 = Ok (calendar_start 604860000 1209660000)
  ∧ (token_period_window sample_policy 1209659999 = Ok (calendar_start 604860000 1209660000)
     ↔ 604860000 ≤ 1209659999 < 1209660000).
Proof.
  split; [vm_compute; reflexivity|].
  destruct (token_windows_partition sample_policy 604860000 (calendar_start 604860000 1209660000)
    ltac:(by split) eq_refl) as [_ H]. apply H. by split.
Defined.
