(* ===== verification/UserUsage.v ===== *)
(** * Counted usage of a user grant ([src/domain/sharing/shares.rs], [ShareUserUsage])

    The counters of one user on one share: lifetime, day, week, month and the anchored
    period of the policy, how a request or a late settlement is added to them, and what a
    policy reads back. *)
From S2P Require Import Prelude RustStr Json ModelIdentity ValuePricing TokenPeriod Gregorian.
From Stdlib Require Import ZArith Lia.

Local Open Scope Z_scope.

(** domain/sharing/router_contract.rs:342-351 [ShareUserUsageBucket] *)
Record ShareUserUsageBucket := mk_bucket {
  bk_started_at_ms : Z;
  bk_tokens_used : Z;
  bk_requests_count : Z;
}.
(** domain/sharing/router_contract.rs:453-463 [ShareAnchoredUsageBucket] *)
Record ShareAnchoredUsageBucket := mk_anchored {
  an_period : ShareTokenPeriod;
  an_anchor_at_ms : Z;
  an_bucket : ShareUserUsageBucket;
}.
(** domain/sharing/router_contract.rs:353-366 [ShareUserUsage] *)
Record ShareUserUsage := mk_usage {
  us_lifetime : ShareUserUsageBucket;
  us_day : ShareUserUsageBucket;
  us_week : ShareUserUsageBucket;
  us_calendar_month : ShareUserUsageBucket;
  us_anchored : option ShareAnchoredUsageBucket;
}.
Definition bucket_default : ShareUserUsageBucket := mk_bucket 0 0 0.
Definition user_usage_default : ShareUserUsage :=
  mk_usage bucket_default bucket_default bucket_default bucket_default None.

(** domain/sharing/shares.rs:297-303 [current_bucket_tokens] *)
Definition current_bucket_tokens (b : ShareUserUsageBucket) (expected_start_ms : Z) : Z :=
  if bk_started_at_ms b =? expected_start_ms then bk_tokens_used b else 0.
(** domain/sharing/shares.rs:305-321 [record_bucket] *)
Definition record_bucket (b : ShareUserUsageBucket) (start_ms tokens : Z) (count_request : bool)
  : ShareUserUsageBucket :=
  let b := if bk_started_at_ms b =? start_ms then b else mk_bucket start_ms 0 0 in
  mk_bucket (bk_started_at_ms b) (sat_u64 (bk_tokens_used b + tokens))
    (if count_request then sat_u64 (bk_requests_count b + 1) else bk_requests_count b).

Section usage.
Context `{Chrono}.
(** The clock, which the program reads only for an instant the calendar refuses. *)
Variable utc_now : Z.

(** domain/sharing/shares.rs:518-522 [utc_datetime] *)
Definition utc_datetime (now_ms : Z) : Z := if timestamp_valid now_ms then now_ms else utc_now.
(** domain/sharing/shares.rs:524-531 [utc_day_start_ms] *)
Definition utc_day_start_ms (now_ms : Z) : result fault Z :=
  Ok (midnight_ms (date_naive (utc_datetime now_ms))).
(** domain/sharing/shares.rs:533-549 [utc_week_start_ms] *)
Definition utc_week_start_ms (now_ms : Z) : result fault Z :=
  let date := date_naive (utc_datetime now_ms) in
  monday ← expect "date out of range" (sub_days date (days_since_monday (weekday date)));
  Ok (midnight_ms monday).
(** domain/sharing/shares.rs:551-559 [utc_calendar_month_start_ms] *)
Definition utc_calendar_month_start_ms (now_ms : Z) : result fault Z :=
  let date := date_naive (utc_datetime now_ms) in
  first ← expect "UTC month boundary is valid" (from_ymd_opt (year date) (month date) 1);
  Ok (midnight_ms first).

(** domain/sharing/shares.rs:37-49 [tokens_for] *)
Definition tokens_for (u : ShareUserUsage) (period : ShareTokenPeriod) (now_ms : Z) : result fault Z :=
  match period with
  | Lifetime => Ok (bk_tokens_used (us_lifetime u))
  | Day => start ← utc_day_start_ms now_ms; Ok (current_bucket_tokens (us_day u) start)
  | Week => start ← utc_week_start_ms now_ms; Ok (current_bucket_tokens (us_week u) start)
  | CalendarMonth =>
      start ← utc_calendar_month_start_ms now_ms; Ok (current_bucket_tokens (us_calendar_month u) start)
  | SevenDays | ThirtyDays | AccountReset => Ok 0
  end.
(** Rust's [if let Ok(w) = r { .. } else { .. }], a panic passing through. *)
Definition if_ok {A B} (r : result fault A) (f : A → result fault B) (other : result fault B)
  : result fault B :=
  match r with Ok a => f a | Err (Refused _) => other | Err (Panicked m) => Err (Panicked m) end.
(** domain/sharing/shares.rs:51-73 [tokens_for_policy] *)
Definition tokens_for_policy (u : ShareUserUsage) (policy : ShareUserPolicy) (now_ms : Z)
  : result fault Z :=
  if negb (requires_anchor (token_period policy)) then tokens_for u (token_period policy) now_ms else
  if_ok (token_period_window policy now_ms) (λ window,
    match token_period_anchor_at_ms policy, starts_at_ms window, us_anchored u with
    | Some anchor, Some start, Some b =>
        Ok (if bool_decide (an_period b = token_period policy) && (an_anchor_at_ms b =? anchor)
               && (bk_started_at_ms (an_bucket b) =? start)
            then bk_tokens_used (an_bucket b) else 0)
    | _, _, _ => Ok 0
    end) (Ok 0).

(** domain/sharing/shares.rs:141-161 [record_inner] *)
Definition record_inner (u : ShareUserUsage) (tokens now_ms : Z) (count_request : bool)
  : result fault ShareUserUsage :=
  day ← utc_day_start_ms now_ms;
  week ← utc_week_start_ms now_ms;
  month ← utc_calendar_month_start_ms now_ms;
  Ok (mk_usage (record_bucket (us_lifetime u) 0 tokens count_request)
    (record_bucket (us_day u) day tokens count_request)
    (record_bucket (us_week u) week tokens count_request)
    (record_bucket (us_calendar_month u) month tokens count_request) (us_anchored u)).
Definition with_anchored (b : option ShareAnchoredUsageBucket) (u : ShareUserUsage) : ShareUserUsage :=
  mk_usage (us_lifetime u) (us_day u) (us_week u) (us_calendar_month u) b.
(** domain/sharing/shares.rs:248-268 [record_for_policy_inner], the anchored bucket *)
Definition anchored_record (o : option ShareAnchoredUsageBucket) (period : ShareTokenPeriod)
    (anchor start tokens : Z) (count_request : bool) : ShareAnchoredUsageBucket :=
  let fresh := mk_anchored period anchor (mk_bucket start 0 0) in
  let b := match o with
           | Some b => if negb (bool_decide (an_period b = period)) || negb (an_anchor_at_ms b =? anchor)
                          || negb (bk_started_at_ms (an_bucket b) =? start) then fresh else b
           | None => fresh
           end in
  mk_anchored (an_period b) (an_anchor_at_ms b)
    (mk_bucket (bk_started_at_ms (an_bucket b)) (sat_u64 (bk_tokens_used (an_bucket b) + tokens))
       (if count_request then sat_u64 (bk_requests_count (an_bucket b) + 1)
        else bk_requests_count (an_bucket b))).
(** domain/sharing/shares.rs:229-268 [record_for_policy_inner] *)
Definition record_for_policy_inner (u : ShareUserUsage) (policy : ShareUserPolicy)
    (tokens now_ms : Z) (count_request : bool) : result fault ShareUserUsage :=
  u ← record_inner u tokens now_ms count_request;
  if negb (requires_anchor (token_period policy)) then Ok u else
  if_ok (token_period_window policy now_ms) (λ window,
    match token_period_anchor_at_ms policy, starts_at_ms window with
    | Some anchor, Some start =>
        Ok (with_anchored (Some (anchored_record (us_anchored u) (token_period policy) anchor start
              tokens count_request)) u)
    | _, _ => Ok u
    end) (Ok u).
(** domain/sharing/shares.rs:163-165 [record_for_policy] *)
Definition record_for_policy u policy tokens now_ms := record_for_policy_inner u policy tokens now_ms true.
(** domain/sharing/shares.rs:220-227 [record_supplemental_for_policy] *)
Definition record_supplemental_for_policy u policy tokens now_ms :=
  record_for_policy_inner u policy tokens now_ms false.

(** domain/sharing/shares.rs:177-184 [record_market_delta], a bucket no newer than the delta *)
Definition record_not_older (b : ShareUserUsageBucket) (start tokens : Z) (count : bool)
  : ShareUserUsageBucket :=
  if bk_started_at_ms b <=? start then record_bucket b start tokens count else b.
(** domain/sharing/shares.rs:185-217 [record_market_delta], the anchored bucket *)
Definition anchored_delta (o : option ShareAnchoredUsageBucket) (period : ShareTokenPeriod)
    (anchor start tokens : Z) (count : bool) : ShareAnchoredUsageBucket :=
  let fresh := mk_anchored period anchor (mk_bucket start 0 0) in
  let b := default fresh o in
  let b := if negb (bool_decide (an_period b = period)) || negb (an_anchor_at_ms b =? anchor)
              || (bk_started_at_ms (an_bucket b) <? start) then fresh else b in
  if bk_started_at_ms (an_bucket b) =? start
  then mk_anchored (an_period b) (an_anchor_at_ms b)
         (mk_bucket (bk_started_at_ms (an_bucket b)) (sat_u64 (bk_tokens_used (an_bucket b) + tokens))
            (sat_u64 (bk_requests_count (an_bucket b) + if count then 1 else 0)))
  else b.
(** domain/sharing/shares.rs:167-218 [record_market_delta] *)
Definition record_market_delta (u : ShareUserUsage) (policy : ShareUserPolicy) (tokens at_ms : Z)
    (count : bool) : result fault ShareUserUsage :=
  day ← utc_day_start_ms at_ms;
  week ← utc_week_start_ms at_ms;
  month ← utc_calendar_month_start_ms at_ms;
  let u := mk_usage (record_bucket (us_lifetime u) 0 tokens count)
    (record_not_older (us_day u) day tokens count)
    (record_not_older (us_week u) week tokens count)
    (record_not_older (us_calendar_month u) month tokens count) (us_anchored u) in
  if negb (requires_anchor (token_period policy)) then Ok u else
  if_ok (token_period_window policy at_ms) (λ window,
    match token_period_anchor_at_ms policy, starts_at_ms window with
    | Some anchor, Some start =>
        Ok (with_anchored (Some (anchored_delta (us_anchored u) (token_period policy) anchor start
              tokens count)) u)
    | _, _ => Ok u
    end) (Ok u).

(** domain/sharing/shares.rs:270-294 [rebuild_anchored] *)
Definition rebuild_anchored (u : ShareUserUsage) (policy : ShareUserPolicy)
    (now_ms tokens_used requests_count : Z) : result fault ShareUserUsage :=
  if negb (requires_anchor (token_period policy)) then Ok (with_anchored None u) else
  window ← token_period_window policy now_ms;
  anchor ← refuse "tokenPeriodAnchorAtMs is required" (token_period_anchor_at_ms policy);
  start ← refuse "fixed token period has no start" (starts_at_ms window);
  Ok (with_anchored (Some (mk_anchored (token_period policy) anchor
        (mk_bucket start tokens_used requests_count))) u).
(** domain/sharing/shares.rs:75-135 [rebuild_current_policy_bucket] *)
Definition rebuild_current_policy_bucket (u : ShareUserUsage) (policy : ShareUserPolicy)
    (now_ms tokens_used requests_count : Z) : result fault ShareUserUsage :=
  let bucket start := mk_bucket start tokens_used requests_count in
  match token_period policy with
  | AccountReset => Ok (with_anchored None u)
  | Lifetime => Ok (mk_usage (bucket 0) (us_day u) (us_week u) (us_calendar_month u) None)
  | Day =>
      start ← utc_day_start_ms now_ms;
      Ok (mk_usage (us_lifetime u) (bucket start) (us_week u) (us_calendar_month u) None)
  | Week =>
      start ← utc_week_start_ms now_ms;
      Ok (mk_usage (us_lifetime u) (us_day u) (bucket start) (us_calendar_month u) None)
  | CalendarMonth =>
      start ← utc_calendar_month_start_ms now_ms;
      Ok (mk_usage (us_lifetime u) (us_day u) (us_week u) (bucket start) None)
  | SevenDays | ThirtyDays =>
      window ← token_period_window policy now_ms;
      anchor ← refuse "fixed token period has no anchor" (token_period_anchor_at_ms policy);
      start ← refuse "fixed token period has no start" (starts_at_ms window);
      Ok (with_anchored (Some (mk_anchored (token_period policy) anchor (bucket start))) u)
  end.
End usage.

(** ** Counters *)
(** The tokens of the items that start at [start]; an item is its window's start and its
    tokens. *)
Definition sum_at (start : Z) (items : list (Z * Z)) : Z :=
  foldr (λ i n, (if i.1 =? start then i.2 else 0) + n) 0 items.
(** A counter holds the tokens of its latest window, which is no later than [bound]. *)
Record counter_ok (bound : Z) (b : ShareUserUsageBucket) (items : list (Z * Z)) : Prop := {
  co_bound : bk_started_at_ms b ≤ bound;
  co_latest i : i ∈ items → i.1 ≤ bk_started_at_ms b;
  co_tokens : bk_tokens_used b = sat_u64 (sum_at (bk_started_at_ms b) items);
  co_natural i : i ∈ items → 0 ≤ i.2;
}.
Lemma sum_at_app s l k : sum_at s (l ++ k) = sum_at s l + sum_at s k.
Proof. induction l as [|i l IH]; simpl; [done|]. rewrite IH. lia. Qed.
Lemma sum_at_none s l : (∀ i, i ∈ l → i.1 ≠ s) → sum_at s l = 0.
Proof.
  induction l as [|i l IH]; simpl; intros Hl; [done|].
  destruct (Z.eqb_spec i.1 s) as [E|_]; [by destruct (Hl i ltac:(left))|].
  rewrite IH; [done|]. intros j Hj. apply Hl. by right.
Qed.
Lemma sum_at_nonneg s l : (∀ i, i ∈ l → 0 ≤ i.2) → 0 ≤ sum_at s l.
Proof.
  induction l as [|i l IH]; simpl; intros Hl; [done|].
  pose proof (Hl i ltac:(left)). assert (0 ≤ sum_at s l) by (apply IH; intros j Hj; apply Hl; by right).
  destruct (i.1 =? s); lia.
Qed.
Lemma sat_u64_add x y : 0 ≤ x → 0 ≤ y → sat_u64 (sat_u64 x + y) = sat_u64 (x + y).
Proof. intros. width_lia. Qed.
Lemma counter_default bound : 0 ≤ bound → counter_ok bound bucket_default [].
Proof. intros Hb. split; simpl; try done; intros i Hi; inversion Hi. Qed.
Lemma counter_later bound bound' b items : counter_ok bound b items → bound ≤ bound' → counter_ok bound' b items.
Proof. intros [] ?. split; try done. lia. Qed.
(** Adding tokens in place, and starting a new window. *)
Lemma counter_add bound b items t n : counter_ok bound b items → 0 ≤ t →
  counter_ok bound (mk_bucket (bk_started_at_ms b) (sat_u64 (bk_tokens_used b + t)) n)
    (items ++ [(bk_started_at_ms b, t)]).
Proof.
  intros [Hb Hl Ht Hn] Hpos. split; simpl.
  - done.
  - intros i [Hi| ->%list_elem_of_singleton]%elem_of_app; [by apply Hl|done].
  - rewrite Ht, sum_at_app. simpl. rewrite Z.eqb_refl, Z.add_0_r.
    by apply sat_u64_add; [apply sum_at_nonneg|].
  - intros i [Hi| ->%list_elem_of_singleton]%elem_of_app; [by apply Hn|done].
Qed.
Lemma counter_new bound b items s t n : counter_ok bound b items → 0 ≤ t → bk_started_at_ms b < s → s ≤ bound →
  counter_ok bound (mk_bucket s (sat_u64 (0 + t)) n) (items ++ [(s, t)]).
Proof.
  intros [Hb Hl Ht Hn] Hpos Hlt Hs. split; simpl.
  - done.
  - intros i [Hi%Hl| ->%list_elem_of_singleton]%elem_of_app; simpl; lia.
  - rewrite sum_at_app, sum_at_none; simpl; [by rewrite Z.eqb_refl, Z.add_0_r|].
    intros i Hi%Hl. lia.
  - intros i [Hi| ->%list_elem_of_singleton]%elem_of_app; [by apply Hn|done].
Qed.
(** An item of an older window leaves the counter alone. *)
Lemma counter_skip bound b items s t : counter_ok bound b items → 0 ≤ t → s < bk_started_at_ms b →
  counter_ok bound b (items ++ [(s, t)]).
Proof.
  intros [Hb Hl Ht Hn] Hpos Hlt. split.
  - done.
  - intros i [Hi| ->%list_elem_of_singleton]%elem_of_app; [by apply Hl|simpl; lia].
  - rewrite Ht, sum_at_app. simpl. destruct (Z.eqb_spec s (bk_started_at_ms b)); [lia|]. f_equal. lia.
  - intros i [Hi| ->%list_elem_of_singleton]%elem_of_app; [by apply Hn|done].
Qed.
Lemma record_bucket_ok bound b items s t c : counter_ok bound b items → 0 ≤ t →
  bk_started_at_ms b ≤ s → s ≤ bound → counter_ok bound (record_bucket b s t c) (items ++ [(s, t)]).
Proof.
  intros Hc Ht Hle Hs. unfold record_bucket. destruct (Z.eqb_spec (bk_started_at_ms b) s) as [<-|Hne]; simpl.
  - by apply counter_add.
  - apply (counter_new _ b); try done. lia.
Qed.
Lemma record_not_older_ok bound b items s t c : counter_ok bound b items → 0 ≤ t → s ≤ bound →
  counter_ok bound (record_not_older b s t c) (items ++ [(s, t)]).
Proof.
  intros Hc Ht Hs. unfold record_not_older. destruct (Z.leb_spec (bk_started_at_ms b) s).
  - by apply record_bucket_ok.
  - by apply counter_skip.
Qed.
Lemma record_bucket_start b s t c : bk_started_at_ms (record_bucket b s t c) = s.
Proof. unfold record_bucket. by destruct (Z.eqb_spec (bk_started_at_ms b) s). Qed.
(** What the current window reads is the sum over its items. *)
Lemma counter_read bound b items : counter_ok bound b items →
  current_bucket_tokens b bound = sat_u64 (sum_at bound items).
Proof.
  intros [Hb Hl Ht _]. unfold current_bucket_tokens. destruct (Z.eqb_spec (bk_started_at_ms b) bound) as [<-|Hne]; [done|].
  rewrite sum_at_none; [done|]. intros i Hi%Hl. lia.
Qed.

(** ** The anchored counter *)
Definition anchored_ok (policy : ShareUserPolicy) (anchor bound : Z)
    (o : option ShareAnchoredUsageBucket) (items : list (Z * Z)) : Prop :=
  match o with
  | None => items = []
  | Some a => an_period a = token_period policy ∧ an_anchor_at_ms a = anchor
      ∧ counter_ok bound (an_bucket a) items
  end.
Lemma anchored_delta_ok policy anchor bound o items s t c : anchored_ok policy anchor bound o items →
  0 ≤ t → s ≤ bound →
  anchored_ok policy anchor bound (Some (anchored_delta o (token_period policy) anchor s t c)) (items ++ [(s, t)]).
Proof.
  intros Ho Ht Hs. destruct o as [[p a b]|]; simpl in Ho; unfold anchored_delta; simpl.
  - destruct Ho as (-> & -> & Hc). rewrite bool_decide_eq_true_2, Z.eqb_refl by done. simpl.
    destruct (Z.ltb_spec (bk_started_at_ms b) s); simpl.
    + rewrite Z.eqb_refl. simpl. split_and!; [done..|]. by apply (counter_new _ b).
    + destruct (Z.eqb_spec (bk_started_at_ms b) s) as [<-|Hne]; simpl; (split_and!; [done..|]).
      * by apply counter_add.
      * apply counter_skip; [done..|]. lia.
  - subst items. rewrite bool_decide_eq_true_2, Z.eqb_refl, Z.ltb_irrefl by done. simpl. rewrite Z.eqb_refl. simpl.
    split_and!; [done..|]. split; simpl.
    + done.
    + by intros i ->%list_elem_of_singleton.
    + by rewrite Z.eqb_refl, Z.add_0_r.
    + by intros i ->%list_elem_of_singleton.
Qed.
Lemma anchored_record_ok policy anchor o items s t c : anchored_ok policy anchor s o items → 0 ≤ t →
  anchored_ok policy anchor s (Some (anchored_record o (token_period policy) anchor s t c)) (items ++ [(s, t)]).
Proof.
  intros Ho Ht. destruct o as [[p a b]|]; simpl in Ho; unfold anchored_record; simpl.
  - destruct Ho as (-> & -> & Hc). rewrite bool_decide_eq_true_2, Z.eqb_refl by done. simpl.
    pose proof (co_bound _ _ _ Hc). destruct (Z.eqb_spec (bk_started_at_ms b) s) as [<-|Hne]; simpl; (split_and!; [done..|]).
    + by apply counter_add.
    + apply (counter_new _ b); done || lia.
  - subst items. split_and!; [done..|]. split; simpl.
    + done.
    + by intros i ->%list_elem_of_singleton.
    + by rewrite Z.eqb_refl, Z.add_0_r.
    + by intros i ->%list_elem_of_singleton.
Qed.

(** ** The calendar counters *)
Definition calendar (p : ShareTokenPeriod) : ShareUserPolicy := mk_policy None None None p None None [].
(** After the first week of 1970, whose Monday lies before the epoch. *)
Definition modern (at_ms : Z) : Prop := instant at_ms ∧ 4 * DAY_MS ≤ at_ms.

Section calendar_lemmas.
Context `{ChronoLaws}.
Variable utc_now : Z.
Implicit Types (policy : ShareUserPolicy).

Lemma calendar_window policy at_ms : requires_anchor (token_period policy) = false →
  token_period_window policy at_ms = token_period_window (calendar (token_period policy)) at_ms.
Proof. unfold token_period_window. simpl. by destruct (token_period policy). Qed.
Lemma calendar_exists policy at_ms : instant at_ms → requires_anchor (token_period policy) = false →
  token_period policy ≠ AccountReset → ∃ w, token_period_window policy at_ms = Ok w.
Proof.
  intros Hi Hr Hp. setoid_rewrite window_Ok; [|done]. destruct (token_period policy); try done; [by eexists..|].
  destruct (months at_ms Hi) as (f & a & Hf & Ha & _). eexists. eauto.
Qed.
Lemma utc_datetime_instant at_ms : instant at_ms → date_naive (utc_datetime utc_now at_ms) = at_ms / DAY_MS.
Proof. intros Hi. unfold utc_datetime. rewrite timestamp_valid_instant by done. by apply date_naive_floor. Qed.
Lemma utc_day_start at_ms : instant at_ms →
  utc_day_start_ms utc_now at_ms = Ok (window_start (calendar Day) at_ms).
Proof.
  intros Hi. unfold utc_day_start_ms, window_start. rewrite utc_datetime_instant by done.
  rewrite (proj2 (window_Ok (calendar Day) at_ms _ Hi) eq_refl). simpl. by rewrite midnight_ms_day.
Qed.
Lemma utc_week_start at_ms : instant at_ms →
  utc_week_start_ms utc_now at_ms = Ok (window_start (calendar Week) at_ms).
Proof.
  intros Hi. unfold utc_week_start_ms, window_start. rewrite utc_datetime_instant by done.
  rewrite (proj2 (window_Ok (calendar Week) at_ms _ Hi) eq_refl). simpl.
  rewrite week_start by done. simpl. by rewrite midnight_ms_day.
Qed.
Lemma utc_month_start at_ms : instant at_ms →
  utc_calendar_month_start_ms utc_now at_ms = Ok (window_start (calendar CalendarMonth) at_ms).
Proof.
  intros Hi. destruct (calendar_exists (calendar CalendarMonth) at_ms Hi eq_refl) as [w Hw]; [done|].
  unfold utc_calendar_month_start_ms, window_start. rewrite Hw, utc_datetime_instant by done.
  apply window_Ok in Hw as (f & a & Hf & _ & ->); [|done]. unfold expect. rewrite Hf. simpl.
  by rewrite midnight_ms_day.
Qed.
Lemma calendar_start_mono p x y : requires_anchor p = false → p ≠ AccountReset → instant x → instant y → x ≤ y →
  window_start (calendar p) x ≤ window_start (calendar p) y.
Proof.
  intros Hr Hp Hx Hy Hxy. destruct (calendar_exists (calendar p) x Hx Hr Hp) as [wx Hwx].
  destruct (calendar_exists (calendar p) y Hy Hr Hp) as [wy Hwy]. by eapply window_start_mono.
Qed.
Lemma epoch_start p : requires_anchor p = false → p ≠ AccountReset → p ≠ Week → window_start (calendar p) 0 = 0.
Proof.
  intros Hr Hp Hw. assert (instant 0) as Hi by done. destruct (calendar_exists (calendar p) 0 Hi Hr Hp) as [w Hw0].
  unfold window_start. rewrite Hw0. apply window_Ok in Hw0; [|done]. simpl in Hw0.
  destruct p; try done; [by subst..|]. change (0 / DAY_MS) with 0 in Hw0. destruct epoch_month as (Hy & Hm & Hf).
  rewrite Hy, Hm, Hf in Hw0. by destruct Hw0 as (f & a & [= <-] & _ & ->).
Qed.
Lemma modern_start p at_ms : requires_anchor p = false → p ≠ AccountReset → modern at_ms →
  0 ≤ window_start (calendar p) at_ms.
Proof.
  intros Hr Hp [Hi Hm]. destruct (decide (p = Week)) as [->|Hw].
  - assert (instant (4 * DAY_MS)) as H4 by (unfold instant, DAY_MS, MINUTE_MS; lia).
    pose proof (calendar_start_mono Week _ _ Hr Hp H4 Hi Hm) as Hle. unfold window_start at 1 in Hle.
    rewrite (proj2 (window_Ok (calendar Week) (4 * DAY_MS) _ H4) eq_refl) in Hle. etrans; [|exact Hle]. by vm_compute.
  - rewrite <-(epoch_start p Hr Hp Hw). apply calendar_start_mono; [done..|apply Hi].
Qed.

(** ** What a usage record holds *)
Definition starts_of (policy : ShareUserPolicy) (items : list (Z * Z)) : list (Z * Z) :=
  (λ i, (window_start policy i.1, i.2)) <$> items.
(** The usage left by adding [items], each an instant and its tokens, none after [now]. *)
Record usage_ok (policy : ShareUserPolicy) (now : Z) (u : ShareUserUsage) (items : list (Z * Z)) : Prop := {
  uo_lifetime : counter_ok 0 (us_lifetime u) ((λ i, (0, i.2)) <$> items);
  uo_lifetime_start : bk_started_at_ms (us_lifetime u) = 0;
  uo_day : counter_ok (window_start (calendar Day) now) (us_day u) (starts_of (calendar Day) items);
  uo_week : counter_ok (window_start (calendar Week) now) (us_week u) (starts_of (calendar Week) items);
  uo_month : counter_ok (window_start (calendar CalendarMonth) now) (us_calendar_month u)
    (starts_of (calendar CalendarMonth) items);
  uo_anchored anchor : requires_anchor (token_period policy) = true →
    token_period_anchor_at_ms policy = Some anchor →
    anchored_ok policy anchor (window_start policy now) (us_anchored u) (starts_of policy items);
}.
(** A policy whose fixed period has an anchor that gives every instant a window. *)
Definition usable (policy : ShareUserPolicy) : Prop :=
  token_period policy ≠ AccountReset ∧ (requires_anchor (token_period policy) = true →
    (∃ anchor, token_period_anchor_at_ms policy = Some anchor)
    ∧ ∀ at_ms, instant at_ms → ∃ w, token_period_window policy at_ms = Ok w
        ∧ starts_at_ms w = Some (window_start policy at_ms)).
Lemma validated_usable display policy now : validate_user_policy display policy now = Ok () → is_i64 now →
  token_period policy ≠ AccountReset → usable policy.
Proof.
  intros Hv Hn Hp. split; [done|]. intros Hr. split.
  - unfold validate_user_policy in Hv. apply bind_Ok in Hv as (? & _ & Hv). rewrite Hr in Hv.
    destruct (token_period_anchor_at_ms policy); [by eexists|done].
  - intros at_ms Hi. destruct (fixed_answer display policy now at_ms Hv Hn Hi Hr) as (w & Hw & _).
    assert (token_period_window policy at_ms = Ok w) as Hw'
      by (apply window_Ok; [done|]; by destruct (token_period policy)).
    exists w. split; [done|]. unfold window_start. rewrite Hw'.
    apply fixed_window_Ok in Hw as (? & ? & _ & _ & _ & _ & _ & ->). done.
Qed.
Lemma usable_window policy at_ms : usable policy → instant at_ms → ∃ w, token_period_window policy at_ms = Ok w.
Proof.
  intros [Hp Hu] Hi. destruct (requires_anchor (token_period policy)) eqn:Hr.
  - destruct (Hu eq_refl) as [_ Hw]. destruct (Hw at_ms Hi) as (w & ? & _). by exists w.
  - by apply calendar_exists.
Qed.
Lemma usage_ok_default policy now : modern now → usage_ok policy now user_usage_default [].
Proof. intros Hm. split; try (apply counter_default; try done; by apply modern_start); done. Qed.

(** ** Recording *)
Lemma usage_ok_later policy now now' u items : usable policy → modern now → instant now' → now ≤ now' →
  usage_ok policy now u items → usage_ok policy now' u items.
Proof.
  intros Hu [Hi _] Hi' Hle [Hl Hl0 Hd Hw Hm Ha].
  split; try (by eapply counter_later; [done|apply calendar_start_mono]); [done|done|].
  intros anchor Hr Han. specialize (Ha anchor Hr Han).
  destruct (usable_window _ now Hu Hi) as [w Ew]. destruct (usable_window _ now' Hu Hi') as [w' Ew'].
  pose proof (window_start_mono _ _ _ _ _ Hi Hi' Hle Ew Ew').
  destruct (us_anchored u) as [a|]; [|done]. destruct Ha as (? & ? & Hc). split_and!; [done..|].
  by eapply counter_later.
Qed.
Lemma starts_of_snoc policy items at_ms t :
  starts_of policy (items ++ [(at_ms, t)]) = starts_of policy items ++ [(window_start policy at_ms, t)].
Proof. unfold starts_of. by rewrite fmap_app. Qed.
(** A settlement may arrive after newer ones. *)
Lemma market_delta_ok policy now u items at_ms t c : usable policy → modern now → instant at_ms → at_ms ≤ now →
  0 ≤ t → usage_ok policy now u items →
  ∃ u', record_market_delta utc_now u policy t at_ms c = Ok u' ∧ usage_ok policy now u' (items ++ [(at_ms, t)]).
Proof.
  intros Hu [Hin _] Hi Hle Ht [Hl Hl0 Hd Hw Hm Ha]. unfold record_market_delta.
  rewrite utc_day_start, utc_week_start, utc_month_start by done. cbn [mbind result_bind].
  set (u1 := mk_usage _ _ _ _ _).
  assert (∀ o, (∀ anchor, requires_anchor (token_period policy) = true → token_period_anchor_at_ms policy = Some anchor →
      anchored_ok policy anchor (window_start policy now) o (starts_of policy (items ++ [(at_ms, t)]))) →
    usage_ok policy now (with_anchored o u1) (items ++ [(at_ms, t)])) as Hok.
  { intros o Ho. split; simpl; [| | | | |done]; rewrite ?starts_of_snoc, ?fmap_app.
    - apply record_bucket_ok; [done|done|apply Hl|done].
    - exact (record_bucket_start (us_lifetime u) 0 t c).
    - apply record_not_older_ok; [done|done|by apply calendar_start_mono].
    - apply record_not_older_ok; [done|done|by apply calendar_start_mono].
    - apply record_not_older_ok; [done|done|by apply calendar_start_mono]. }
  destruct (requires_anchor (token_period policy)) eqn:Hr; cbn [negb].
  - destruct (proj2 Hu Hr) as [[anchor Han] Hwin]. destruct (Hwin at_ms Hi) as (w & Ew & Es).
    destruct (Hwin now Hin) as (w' & Ew' & _). rewrite Ew, Han. simpl. rewrite Es. eexists. split; [done|].
    apply Hok. intros anchor' _ Han'. assert (anchor' = anchor) as -> by congruence. rewrite starts_of_snoc. apply anchored_delta_ok; [by apply Ha|done|].
    by eapply window_start_mono.
  - exists u1. split; [done|]. replace u1 with (with_anchored (us_anchored u) u1) by done. by apply Hok.
Qed.
(** A request is recorded no earlier than those before it. *)
Lemma record_for_policy_ok policy last at_ms u items t c : usable policy → modern last → instant at_ms → last ≤ at_ms →
  0 ≤ t → usage_ok policy last u items →
  ∃ u', record_for_policy_inner utc_now u policy t at_ms c = Ok u' ∧ usage_ok policy at_ms u' (items ++ [(at_ms, t)]).
Proof.
  intros Hu Hml Hi Hle Ht Hok0. assert (modern at_ms) as Hm0 by (destruct Hml; split; [done|lia]).
  pose proof Hok0 as [_ _ Hd0 Hw0 Hmo0 Ha0].
  apply (usage_ok_later policy last at_ms) in Hok0 as [Hl Hl0 Hd Hw Hm Ha]; [|done..].
  unfold record_for_policy_inner, record_inner.
  rewrite utc_day_start, utc_week_start, utc_month_start by done. cbn [mbind result_bind].
  set (u1 := mk_usage _ _ _ _ _).
  assert (∀ o, (∀ anchor, requires_anchor (token_period policy) = true → token_period_anchor_at_ms policy = Some anchor →
      anchored_ok policy anchor (window_start policy at_ms) o (starts_of policy (items ++ [(at_ms, t)]))) →
    usage_ok policy at_ms (with_anchored o u1) (items ++ [(at_ms, t)])) as Hok.
  { intros o Ho. split; simpl; [| | | | |done]; rewrite ?starts_of_snoc, ?fmap_app.
    - apply record_bucket_ok; [done|done|apply Hl|done].
    - exact (record_bucket_start (us_lifetime u) 0 t c).
    - apply record_bucket_ok; [done|done|apply Hd|done].
    - apply record_bucket_ok; [done|done|apply Hw|done].
    - apply record_bucket_ok; [done|done|apply Hm|done]. }
  destruct (requires_anchor (token_period policy)) eqn:Hr; cbn [negb].
  - destruct (proj2 Hu Hr) as [[anchor Han] Hwin]. destruct (Hwin at_ms Hi) as (w & Ew & Es).
    rewrite Ew, Han. simpl. rewrite Es. eexists. split; [done|].
    apply Hok. intros anchor' _ Han'. assert (anchor' = anchor) as -> by congruence. rewrite starts_of_snoc. apply anchored_record_ok; [by apply Ha|done].
  - exists u1. split; [done|]. replace u1 with (with_anchored (us_anchored u) u1) by done. by apply Hok.
Qed.

(** ** Reading back *)
(** The tokens of the items inside a window. *)
Definition used_in (w : TokenPeriodWindow) (items : list (Z * Z)) : Z :=
  foldr (λ i n, (if inside w i.1 then i.2 else 0) + n) 0 items.
Lemma used_in_starts policy now w items : usable policy → instant now →
  token_period_window policy now = Ok w → (∀ i, i ∈ items → instant i.1) →
  sum_at (window_start policy now) (starts_of policy items) = used_in w items.
Proof.
  intros Hu Hi Hw Hall. induction items as [|i items IH]; simpl; [done|].
  rewrite IH by (intros j Hj; apply Hall; by right).
  assert (instant i.1) as Hii by (apply Hall; left). destruct (usable_window _ i.1 Hu Hii) as [wi Hwi].
  by rewrite (inside_start _ _ _ _ _ Hi Hii Hw Hwi).
Qed.
Lemma usage_read policy now u items w : usable policy → instant now → token_period_window policy now = Ok w →
  (∀ i, i ∈ items → instant i.1) → usage_ok policy now u items →
  tokens_for_policy utc_now u policy now = Ok (sat_u64 (used_in w items)).
Proof.
  intros Hu Hi Hw Hall [Hl Hl0 Hd Hwk Hm Ha]. rewrite <-(used_in_starts policy now w items) by done.
  unfold tokens_for_policy. destruct (requires_anchor (token_period policy)) eqn:Hr; cbn [negb].
  - destruct (proj2 Hu Hr) as [[anchor Han] Hwin]. destruct (Hwin now Hi) as (w' & Ew & Es).
    rewrite Ew, Han. simpl. rewrite Es. specialize (Ha anchor eq_refl Han).
    destruct (us_anchored u) as [a|]; simpl in *; [|by rewrite Ha].
    destruct Ha as (-> & -> & Hc). rewrite bool_decide_eq_true_2, Z.eqb_refl by done. simpl.
    f_equal. by apply (counter_read _ _ _ Hc).
  - assert (∀ at_ms, window_start policy at_ms = window_start (calendar (token_period policy)) at_ms) as Hst.
    { intros x. unfold window_start. by rewrite calendar_window. }
    assert (starts_of policy items = starts_of (calendar (token_period policy)) items) as ->.
    { unfold starts_of. apply list_fmap_ext. intros ? [? ?] _. by rewrite Hst. }
    rewrite Hst. destruct Hu as [Hp _]. unfold tokens_for. destruct (token_period policy) eqn:Ep; try done.
    + assert (∀ x, window_start (calendar Lifetime) x = 0) as Hz.
      { intros x. unfold window_start, token_period_window. by destruct (timestamp_valid x). }
      rewrite Hz. f_equal. rewrite (co_tokens _ _ _ Hl), Hl0. do 2 f_equal.
      unfold starts_of. apply list_fmap_ext. intros ? [? ?] _. by rewrite Hz.
    + rewrite utc_day_start by done. simpl. f_equal. by apply counter_read.
    + rewrite utc_week_start by done. simpl. f_equal. by apply counter_read.
    + rewrite utc_month_start by done. simpl. f_equal. by apply counter_read.
Qed.

(** A delta: when its request started, its tokens, and whether it counts a request. *)
Definition record_deltas (u : ShareUserUsage) policy (deltas : list (Z * Z * bool)) : result fault ShareUserUsage :=
  try_fold (λ u d, record_market_delta utc_now u policy d.1.2 d.1.1 d.2) u deltas.
Definition record_requests (u : ShareUserUsage) policy (requests : list (Z * Z * bool)) : result fault ShareUserUsage :=
  try_fold (λ u d, record_for_policy_inner utc_now u policy d.1.2 d.1.1 d.2) u requests.
Lemma record_deltas_ok policy now deltas : usable policy → modern now →
  (∀ d, d ∈ deltas → instant d.1.1 ∧ d.1.1 ≤ now ∧ 0 ≤ d.1.2) → ∀ u items, usage_ok policy now u items →
  ∃ u', record_deltas u policy deltas = Ok u' ∧ usage_ok policy now u' (items ++ deltas.*1).
Proof.
  intros Hu Hm. induction deltas as [|[[at_ms t] c] deltas IH]; intros Hall u items Hok; unfold record_deltas in *; cbn [try_fold fmap list_fmap fst snd].
  - exists u. by rewrite app_nil_r.
  - destruct (Hall (at_ms, t, c) ltac:(left)) as (Hi & Hle & Ht). simpl in *.
    destruct (market_delta_ok policy now u items at_ms t c) as (u1 & -> & Hok1); try done.  cbn [mbind result_bind].
    destruct (IH ltac:(intros; apply Hall; by right) u1 _ Hok1) as (u2 & -> & Hok2).
    exists u2. split; [done|]. by rewrite <-app_assoc in Hok2.
Qed.
Lemma record_requests_ok policy now requests : usable policy → instant now →
  StronglySorted (λ a b, a.1.1 ≤ b.1.1) requests → (∀ d, d ∈ requests → instant d.1.1 ∧ d.1.1 ≤ now ∧ 0 ≤ d.1.2) →
  ∀ last u items, modern last → last ≤ now → (∀ d, d ∈ requests → last ≤ d.1.1) → usage_ok policy last u items →
  ∃ u', record_requests u policy requests = Ok u' ∧ usage_ok policy now u' (items ++ requests.*1).
Proof.
  intros Hu Hn. induction requests as [|[[at_ms t] c] requests IH]; intros Hs Hall last u items Hm Hln Hlast Hok; unfold record_requests in *; cbn [try_fold fmap list_fmap fst snd].
  - exists u. rewrite app_nil_r. split; [done|]. by eapply usage_ok_later.
  - destruct (Hall (at_ms, t, c) ltac:(left)) as (Hi & Hle & Ht). pose proof (Hlast (at_ms, t, c) ltac:(left)).
    simpl in *. apply StronglySorted_inv in Hs as [Hs Hhd]. rewrite Forall_forall in Hhd.
    destruct (record_for_policy_ok policy last at_ms u items t c) as (u1 & -> & Hok1); try done. simpl.
    assert (modern at_ms) as Hm1 by (destruct Hm; split; [done|lia]). cbn [mbind result_bind].
    destruct (IH Hs ltac:(intros; apply Hall; by right) at_ms u1 _ Hm1 Hle Hhd Hok1) as (u2 & -> & Hok2).
    exists u2. split; [done|]. by rewrite <-app_assoc in Hok2.
Qed.
End calendar_lemmas.

Lemma requests_read `{ChronoLaws} utc_now display policy checked_at now w requests
    (Hv : validate_user_policy display policy checked_at = Ok ()) (Hc : is_i64 checked_at)
    (Hp : token_period policy ≠ AccountReset) (Hm : modern now)
    (Hw : token_period_window policy now = Ok w)
    (Hs : StronglySorted (λ a b, a.1.1 ≤ b.1.1) requests)
    (Hd : ∀ d, d ∈ requests → modern d.1.1 ∧ d.1.1 ≤ now ∧ 0 ≤ d.1.2) :
  ∃ u, record_requests utc_now user_usage_default policy requests = Ok u
    ∧ tokens_for_policy utc_now u policy now = Ok (sat_u64 (used_in w requests.*1)).
Proof.
  pose proof (validated_usable _ _ _ Hv Hc Hp) as Hu.
  pose proof Hm as [Hi _]. destruct requests as [|d requests].
  { exists user_usage_default. split; [done|]. apply (usage_read _ _ _ _ []); [done..| |by apply usage_ok_default].
    intros i Hx. inversion Hx. }
  destruct (Hd d ltac:(left)) as (Hmd & Hle & _).
  assert (∀ x, x ∈ d :: requests → d.1.1 ≤ x.1.1) as Hfirst.
  { intros x [->|Hx]%elem_of_cons; [done|]. apply StronglySorted_inv in Hs as [_ Hhd].
    rewrite Forall_forall in Hhd. by apply Hhd. }
  destruct (record_requests_ok utc_now policy now (d :: requests) Hu Hi Hs) with (last := d.1.1)
    (u := user_usage_default) (items := @nil (Z * Z)) as (u & Hr & Hok); try done.
  - intros x Hx. destruct (Hd x Hx) as ([? _] & ? & ?). done.
  - by apply usage_ok_default.
  - exists u. split; [done|]. apply usage_read; [done..| |done].
    intros i (x & -> & Hx)%list_elem_of_fmap. destruct (Hd x Hx) as ([? _] & _). done.
Qed.

(** ** Properties *)
(** settlements may arrive in any order: after any sequence of settled deltas, each of
    a request started no later than now, the policy reads exactly the tokens of the
    requests started in its current window, and nothing panics. *)
Theorem settlements_any_order `{ChronoLaws} utc_now display policy checked_at now w deltas
    (Hv : validate_user_policy display policy checked_at = Ok ()) (Hc : is_i64 checked_at)
    (Hp : token_period policy ≠ AccountReset) (Hm : modern now)
    (Hw : token_period_window policy now = Ok w)
    (Hd : ∀ d, d ∈ deltas → instant d.1.1 ∧ d.1.1 ≤ now ∧ 0 ≤ d.1.2) :
  ∃ u, record_deltas utc_now user_usage_default policy deltas = Ok u
    ∧ tokens_for_policy utc_now u policy now = Ok (sat_u64 (used_in w deltas.*1)).
Proof.
  pose proof (validated_usable _ _ _ Hv Hc Hp) as Hu.
  destruct (record_deltas_ok utc_now policy now deltas Hu Hm Hd _ [] (usage_ok_default policy now Hm))
    as (u & Hr & Hok).
  exists u. split; [done|]. apply usage_read; [done|apply Hm|done| |done].
  intros i (d & -> & Hi)%list_elem_of_fmap. by apply Hd.
Qed.

(** rebuilding the counters from the receipts in the order of their starts reads the
    same: the tokens of the requests started in the current window. *)
Theorem rebuilt_usage_reads_window `{ChronoLaws} utc_now display policy checked_at now w requests
    (Hv : validate_user_policy display policy checked_at = Ok ()) (Hc : is_i64 checked_at)
    (Hp : token_period policy ≠ AccountReset) (Hm : modern now)
    (Hw : token_period_window policy now = Ok w)
    (Hs : StronglySorted (λ a b, a.1.1 ≤ b.1.1) requests)
    (Hd : ∀ d, d ∈ requests → modern d.1.1 ∧ d.1.1 ≤ now ∧ 0 ≤ d.1.2) :
  ∃ u, record_requests utc_now user_usage_default policy requests = Ok u
    ∧ tokens_for_policy utc_now u policy now = Ok (sat_u64 (used_in w requests.*1)).
Proof. by eapply requests_read. Qed.

(** ** Concrete requests *)
Definition sample_week : TokenPeriodWindow := calendar_start 604860000 1209660000.
Definition sample_deltas : list (Z * Z * bool) :=
  [(700000000, 30, true); (500000000, 7, true); (650000000, 12, false)].
Lemma sample_instants requests : forallb (λ d, (4 * DAY_MS <=? d.1.1) && (d.1.1 <=? 700000000) && (0 <=? d.1.2)) requests = true →
  ∀ d : Z * Z * bool, d ∈ requests → modern d.1.1 ∧ d.1.1 ≤ 700000000 ∧ 0 ≤ d.1.2.
Proof.
  rewrite forallb_forall. intros Hf d Hd%list_elem_of_In%Hf.
  rewrite !andb_true_iff, !Z.leb_le in Hd. unfold modern, instant, DAY_MS, MINUTE_MS in *. lia.
Qed.
Lemma settlements_any_order_witness : ∃ u,
  record_deltas 0 user_usage_default sample_policy sample_deltas = Ok u
  ∧ tokens_for_policy 0 u sample_policy 700000000 = Ok 42.
Proof.
  assert (modern 700000000) as Hm by (unfold modern, instant, DAY_MS, MINUTE_MS; lia).
  assert (is_i64 604860000) as Hi by (unfold is_i64, I64_MIN, I64_MAX; lia).
  destruct (settlements_any_order 0 (λ _, "") sample_policy 604860000 700000000 sample_week sample_deltas
    eq_refl Hi ltac:(discriminate) Hm eq_refl) as (u & Hr & Ht).
  - intros d Hd. destruct (sample_instants sample_deltas eq_refl d Hd) as ([? _] & ? & ?). done.
  - exists u. split; [exact Hr|]. rewrite Ht. reflexivity.
Defined.
Definition sample_requests : list (Z * Z * bool) :=
  [(500000000, 7, true); (650000000, 12, false); (700000000, 30, true)].
Lemma rebuilt_usage_reads_window_witness : ∃ u,
  record_requests 0 user_usage_default sample_policy sample_requests = Ok u
  ∧ tokens_for_policy 0 u sample_policy 700000000 = Ok 42.
Proof.
  assert (modern 700000000) as Hm by (unfold modern, instant, DAY_MS, MINUTE_MS; lia).
  assert (is_i64 604860000) as Hi by (unfold is_i64, I64_MIN, I64_MAX; lia).
  destruct (rebuilt_usage_reads_window 0 (λ _, "") sample_policy 604860000 700000000 sample_week sample_requests
    eq_refl Hi ltac:(discriminate) Hm eq_refl) as (u & Hr & Ht).
  - unfold sample_requests. repeat constructor; simpl; lia.
  - by apply sample_instants.
  - exists u. split; [exact Hr|]. rewrite Ht. reflexivity.
Defined.
