(* ===== verification/UserGrant.v ===== *)
(** * User grants and their effective usage ([src/domain/sharing/shares.rs])

    The grant of one user on one share, the manual baseline ([ShareUserUsageRebase]), the
    derived quota view, and the token count a limit is checked against. *)
From S2P Require Import Prelude RustStr Json ModelIdentity ValuePricing QuotaCycle QuotaLedger TokenPeriod.
From S2P Require Import Gregorian UserUsage.
From Stdlib Require Import ZArith Lia.

Local Open Scope Z_scope.

(** domain/sharing/router_contract.rs:371-400 [ShareUserUsageRebase], the fields enforcement reads *)
Record ShareUserUsageRebase := mk_rebase {
  rb_period : ShareTokenPeriod;
  rb_anchor_at_ms : option Z;
  rb_window_starts_at_ms : option Z;
  rb_window_ends_at_ms : option Z;
  rb_target_tokens : Z;
  rb_observed_tokens_at_rebase : Z;
}.
(** domain/sharing/router_contract.rs:528-553 [ShareUserQuotaView] *)
Record ShareUserQuotaView := mk_view {
  qv_period : ShareTokenPeriod;
  qv_anchor_at_ms : option Z;
  qv_window_starts_at_ms : option Z;
  qv_window_ends_at_ms : option Z;
  qv_effective_tokens_used : Z;
  qv_observed_tokens_used : Z;
  qv_manual_offset_tokens : Z;
  qv_observed_requests_count : Z;
  qv_rebase_applies : bool;
  qv_usage_watermark : Z;
}.
(** domain/sharing/quota_cycle.rs:102-109 [AccountQuotaBaseline], the fields enforcement reads *)
Record AccountQuotaBaseline := mk_baseline {
  bl_source_ref : string;
  bl_cycle_id : string;
  bl_target_tokens : Z;
  bl_usage_watermark : Z;
}.
(** domain/usage/value_pricing.rs:406-413 [ValueMeteringBinding] *)
Record ValueMeteringBinding := mk_metering {
  vm_quota_policy_epoch : string;
  vm_value_metered_from_ms : Z;
  vm_effective_from_ms : Z;
  vm_pricing_revision : string;
}.
(** domain/sharing/router_contract.rs:512-520 [PendingValueQuota] *)
Record PendingValueQuota := mk_pending_quota {
  pv_policy : ShareUserPolicy;
  pv_effective_from_ms : Z;
  pv_retain_access : bool;
}.
(** domain/sharing/quota_cycle_source.rs:17-24 [AccountResetCapability] *)
Record AccountResetCapability := mk_capability {
  ar_support : string;
  ar_sync_status : string;
  ar_reason : option string;
  ar_minimum_contract_version : Z;
}.
(** domain/sharing/router_contract.rs:559-566 [ShareGrantManager] *)
Inductive ShareGrantManager : Type := Owner | Manual | RouterShareMarket.
#[global] Instance ShareGrantManager_eq_dec : EqDecision ShareGrantManager.
Proof. solve_decision. Defined.
(** domain/sharing/router_contract.rs:465-510 [ShareUserGrant] *)
Record ShareUserGrant := mk_grant {
  gr_email : string;
  gr_role : string;
  gr_active : bool;
  gr_policy : ShareUserPolicy;
  gr_value_metering : option ValueMeteringBinding;
  gr_pending_value_quota : option PendingValueQuota;
  gr_usage : ShareUserUsage;
  gr_usage_rebase : option ShareUserUsageRebase;
  gr_usage_quota : option ShareUserQuotaView;
  gr_account_quota_cycle : option AccountQuotaCycle;
  gr_account_reset_capability : option AccountResetCapability;
  gr_account_usage_baseline : option AccountQuotaBaseline;
  gr_created_at_ms : Z;
  gr_updated_at_ms : Z;
  gr_revoked_at_ms : option Z;
  gr_revision : Z;
  gr_manager : ShareGrantManager;
  gr_entitlement_id : option string;
}.
(** domain/sharing/shares.rs:323-329 [ShareUserQuotaWindow] *)
Record ShareUserQuotaWindow := mk_quota_window {
  qw_period : ShareTokenPeriod;
  qw_anchor_at_ms : option Z;
  qw_starts_at_ms : option Z;
  qw_ends_at_ms : option Z;
}.
(** domain/sharing/shares.rs:331-338 [ShareUserQuotaSnapshot] *)
Record ShareUserQuotaSnapshot := mk_snapshot {
  sn_window : ShareUserQuotaWindow;
  sn_observed_tokens : Z;
  sn_observed_requests : Z;
  sn_baseline_observed_tokens : option Z;
  sn_usage_watermark : Z;
}.

(** domain/sharing/shares.rs:340-359 [quota_window_for_policy] *)
Definition quota_window_for_policy `{Chrono} (policy : ShareUserPolicy) (now_ms : Z)
  : result fault ShareUserQuotaWindow :=
  if bool_decide (token_period policy = Lifetime)
  then Ok (mk_quota_window (token_period policy) None None None) else
  window ← token_period_window policy now_ms;
  Ok (mk_quota_window (token_period policy) (token_period_anchor_at_ms policy)
        (starts_at_ms window) (ends_at_ms window)).
(** domain/sharing/shares.rs:421-429 [rebase_matches_window] *)
Definition rebase_matches_window (rebase : ShareUserUsageRebase) (window : ShareUserQuotaWindow) : bool :=
  bool_decide (rb_period rebase = qw_period window)
  && bool_decide (rb_anchor_at_ms rebase = qw_anchor_at_ms window)
  && bool_decide (rb_window_starts_at_ms rebase = qw_starts_at_ms window)
  && bool_decide (rb_window_ends_at_ms rebase = qw_ends_at_ms window).
(** domain/sharing/shares.rs:431-457 [effective_user_tokens] *)
Definition effective_user_tokens (grant : ShareUserGrant) (snapshot : ShareUserQuotaSnapshot) : Z :=
  if bool_decide (token_period (gr_policy grant) = AccountReset) then
    match sn_baseline_observed_tokens snapshot, gr_account_usage_baseline grant with
    | Some observed_at_edit, Some baseline =>
        effective_with_baseline (sn_observed_tokens snapshot) (bl_target_tokens baseline) observed_at_edit
    | _, _ => sn_observed_tokens snapshot
    end
  else
    match gr_usage_rebase grant with
    | Some rebase =>
        if rebase_matches_window rebase (sn_window snapshot)
        then sat_u64 (rb_target_tokens rebase
               + sat_u64 (sn_observed_tokens snapshot - rb_observed_tokens_at_rebase rebase))
        else sn_observed_tokens snapshot
    | None => sn_observed_tokens snapshot
    end.
(** domain/sharing/shares.rs:459-486 [effective_grant_tokens_for_policy] *)
Definition effective_grant_tokens_for_policy `{Chrono} (utc_now : Z) (grant : ShareUserGrant) (now_ms : Z)
  : result fault Z :=
  if bool_decide (token_period (gr_policy grant) = AccountReset)
  then Ok (from_option qv_effective_tokens_used U64_MAX (gr_usage_quota grant)) else
  bucket ← tokens_for_policy utc_now (gr_usage grant) (gr_policy grant) now_ms;
  let by_view :=
    match gr_usage_quota grant with
    | Some quota => if qv_rebase_applies quota then Z.max (qv_effective_tokens_used quota) bucket else bucket
    | None => bucket
    end in
  Ok (match gr_usage_rebase grant with
      | Some rebase =>
          if bool_decide (rb_period rebase = token_period (gr_policy grant))
             && bool_decide (rb_anchor_at_ms rebase = token_period_anchor_at_ms (gr_policy grant))
          then Z.max (Z.max (rb_target_tokens rebase) bucket)
                 (from_option qv_effective_tokens_used 0 (gr_usage_quota grant))
          else by_view
      | None => by_view
      end).
(** domain/sharing/shares.rs:488-516 [quota_view] *)
Definition quota_view (grant : ShareUserGrant) (snapshot : ShareUserQuotaSnapshot)
    (effective_tokens : Z) (rebase_applies : bool) : ShareUserQuotaView :=
  let window := sn_window snapshot in
  mk_view (qw_period window) (qw_anchor_at_ms window) (qw_starts_at_ms window) (qw_ends_at_ms window)
    effective_tokens (sn_observed_tokens snapshot)
    (sat_i64 (default I64_MAX (checked_i64 effective_tokens)
              - default I64_MAX (checked_i64 (sn_observed_tokens snapshot))))
    (sn_observed_requests snapshot)
    (if bool_decide (token_period (gr_policy grant) = AccountReset)
     then bool_decide (is_Some (sn_baseline_observed_tokens snapshot))
     else rebase_applies && bool_decide (is_Some (gr_usage_rebase grant)))
    (sn_usage_watermark snapshot).
