(* ===== verification/MarketTrials.v ===== *)
(** * One-time market trials ([src/domain/sharing/market_trials.rs])

    The receipts of market requests, the trial counters of the entitlements they fold
    into, and every operation on them.  The operations work on a candidate copy of the
    share that the caller drops when they return an error ([transact]), so an [Err] carries
    no share. *)
From S2P Require Import Prelude RustStr Json ModelIdentity ValuePricing QuotaCycle QuotaLedger TokenPeriod.
From S2P Require Import Gregorian UserUsage UserGrant.
From Stdlib Require Import ZArith Lia.

Local Open Scope Z_scope.

(** domain/sharing/market_trials.rs:15-15 [RECEIPT_RETENTION_MS] *)
Definition RECEIPT_RETENTION_MS : Z := 35 * 86400000.
(** domain/sharing/market_trials.rs:16-16 [MAX_MARKET_REQUESTS] *)
Definition MAX_MARKET_REQUESTS : Z := 1000000.

(** domain/sharing/router_contract.rs:249-254 [ShareMarketPhase] *)
Inductive ShareMarketPhase : Type := Trial | Paid.
#[global] Instance ShareMarketPhase_eq_dec : EqDecision ShareMarketPhase.
Proof. solve_decision. Defined.
(** domain/sharing/router_contract.rs:256-287 [ShareMarketEntitlement] *)
Record ShareMarketEntitlement := mk_entitlement {
  trial_scope_id : string;
  trial_token_allowance : option Z;
  ent_email : string;
  ent_phase : ShareMarketPhase;
  ent_active : bool;
  trial_token_limit : option Z;
  trial_tokens_used : Z;
  usage_revision : Z;
  usage_uncertain : bool;
  applied_at_ms : Z;
  paid_started_at_ms : option Z;
  trial_value_allowance_usd_micros : option string;
  trial_value_limit_usd_micros : option string;
  trial_value_used_picos : string;
}.
(** domain/sharing/market_trials.rs:18-25 [CompactedUsage] *)
Record CompactedUsage := mk_compacted {
  trial_tokens : Z;
  trial_requests : Z;
  paid_tokens : Z;
  paid_requests : Z;
}.
Definition compacted_default : CompactedUsage := mk_compacted 0 0 0 0.
(** domain/sharing/market_trials.rs:168-186 [MarketRequestReceipt] *)
Record MarketRequestReceipt := mk_receipt {
  rc_entitlement_id : string;
  rc_email : string;
  rc_phase : ShareMarketPhase;
  rc_started_at_ms : Z;
  rc_tokens : Z;
  rc_revision : Z;
  rc_count_request : bool;
  rc_parent_request_id : option string;
  rc_value_picos : string;
}.
(** domain/sharing/shares.rs:692-773 [Share], the fields of market access *)
Record Share := mk_share {
  sh_id : string;
  sh_owner_email : option string;
  user_grants : gmap string ShareUserGrant;
  market_entitlements : gmap string ShareMarketEntitlement;
  market_requests : gmap string MarketRequestReceipt;
  market_compacted_usage : gmap string CompactedUsage;
  market_receipts_before_ms : Z;
  pending_market_termination_acks : gmap string string;
}.
(** Assignments to the fields the operations change. *)
Definition with_grants f s := mk_share (sh_id s) (sh_owner_email s) (f (user_grants s))
  (market_entitlements s) (market_requests s) (market_compacted_usage s) (market_receipts_before_ms s)
  (pending_market_termination_acks s).
Definition with_entitlements f s := mk_share (sh_id s) (sh_owner_email s) (user_grants s)
  (f (market_entitlements s)) (market_requests s) (market_compacted_usage s) (market_receipts_before_ms s)
  (pending_market_termination_acks s).
Definition with_requests f s := mk_share (sh_id s) (sh_owner_email s) (user_grants s)
  (market_entitlements s) (f (market_requests s)) (market_compacted_usage s) (market_receipts_before_ms s)
  (pending_market_termination_acks s).
Definition with_counted (tokens revision : Z) (uncertain : bool) (e : ShareMarketEntitlement) :=
  mk_entitlement (trial_scope_id e) (trial_token_allowance e) (ent_email e) (ent_phase e) (ent_active e)
    (trial_token_limit e) tokens revision uncertain (applied_at_ms e) (paid_started_at_ms e)
    (trial_value_allowance_usd_micros e) (trial_value_limit_usd_micros e) (trial_value_used_picos e).
Definition with_uncertain (uncertain : bool) (e : ShareMarketEntitlement) :=
  with_counted (trial_tokens_used e) (usage_revision e) uncertain e.
Definition with_value_used (revision : Z) (picos : string) (e : ShareMarketEntitlement) :=
  mk_entitlement (trial_scope_id e) (trial_token_allowance e) (ent_email e) (ent_phase e) (ent_active e)
    (trial_token_limit e) (trial_tokens_used e) revision (usage_uncertain e) (applied_at_ms e)
    (paid_started_at_ms e) (trial_value_allowance_usd_micros e) (trial_value_limit_usd_micros e) picos.
Definition with_reading (tokens revision : Z) (r : MarketRequestReceipt) :=
  mk_receipt (rc_entitlement_id r) (rc_email r) (rc_phase r) (rc_started_at_ms r) tokens revision
    (rc_count_request r) (rc_parent_request_id r) (rc_value_picos r).
Definition with_value (picos : string) (r : MarketRequestReceipt) :=
  mk_receipt (rc_entitlement_id r) (rc_email r) (rc_phase r) (rc_started_at_ms r) (rc_tokens r) (rc_revision r)
    (rc_count_request r) (rc_parent_request_id r) picos.
Definition with_usage (usage : ShareUserUsage) (g : ShareUserGrant) :=
  mk_grant (gr_email g) (gr_role g) (gr_active g) (gr_policy g) (gr_value_metering g) (gr_pending_value_quota g) usage
    None None (gr_account_quota_cycle g) (gr_account_reset_capability g) (gr_account_usage_baseline g) (gr_created_at_ms g) (gr_updated_at_ms g) (gr_revoked_at_ms g) (gr_revision g) (gr_manager g)
    (gr_entitlement_id g).

(** ** Exhaustion *)
(** The entitlements of a share, in the order of their identities. *)
Definition entitlements (s : Share) : list ShareMarketEntitlement := btree_values (market_entitlements s).
(** domain/sharing/market_trials.rs:27-34 [uncertain] *)
Definition uncertain (s : Share) (id : string) : bool :=
  match market_entitlements s !! id with
  | Some state =>
      existsb (λ other, str_eqb (trial_scope_id other) (trial_scope_id state) && usage_uncertain other)
        (entitlements s)
  | None => false
  end.
(** domain/sharing/market_trials.rs:60-62 [usd_trial] *)
Definition usd_trial (e : ShareMarketEntitlement) : bool :=
  bool_decide (is_Some (trial_value_limit_usd_micros e))
  || bool_decide (is_Some (trial_value_allowance_usd_micros e)).
(** domain/sharing/market_trials.rs:64-66 [micros_to_picos] *)
Definition micros_to_picos (micros : string) : option Z :=
  n ← to_ok (unsigned_decimal micros); checked_i128 (n * PICOS_PER_MICRO).
Definition same_scope (s : Share) (state : ShareMarketEntitlement) : list ShareMarketEntitlement :=
  List.filter (λ e, str_eqb (trial_scope_id e) (trial_scope_id state)) (entitlements s).
(** domain/sharing/market_trials.rs:87-100 [value_exhausted], [None] when an amount is unreadable *)
Definition value_sum_step (sum : option Z) (e : ShareMarketEntitlement) : option Z :=
  sum ← sum; used ← to_ok (unsigned_decimal (trial_value_used_picos e)); checked_i128 (sum + used).
(** domain/sharing/market_trials.rs:71-102 [value_exhausted] *)
Definition value_exhausted (s : Share) (state : ShareMarketEntitlement) : bool :=
  let over_limit :=
    match trial_value_limit_usd_micros state with
    | Some limit =>
        match micros_to_picos limit, to_ok (unsigned_decimal (trial_value_used_picos state)) with
        | Some limit, Some used => negb (used <? limit)
        | _, _ => true
        end
    | None => false
    end in
  over_limit ||
  match trial_value_allowance_usd_micros state with
  | None => false
  | Some allowance =>
      match micros_to_picos allowance with
      | None => true
      | Some allowance =>
          match fold_left value_sum_step (same_scope s state) (Some 0) with
          | Some sum => allowance <=? sum
          | None => true
          end
      end
  end.
(** domain/sharing/market_trials.rs:36-58 [exhausted] *)
Definition exhausted (s : Share) (id : string) : bool :=
  match market_entitlements s !! id with
  | Some state =>
      if negb (bool_decide (ent_phase state = Trial)) then false else
      from_option (λ limit, limit <=? trial_tokens_used state) false (trial_token_limit state)
      || from_option (λ limit,
           limit <=? fold_left (λ sum e, sat_u64 (sum + trial_tokens_used e)) (same_scope s state) 0)
           false (trial_token_allowance state)
      || value_exhausted s state
  | None => false
  end.

(** ** Settled value *)
(** domain/sharing/market_trials.rs:116-124 [value_receipt] *)
Definition value_receipt (s : Share) (request_id : string) : option MarketRequestReceipt :=
  match market_requests s !! request_id with
  | Some receipt =>
      if bool_decide (rc_phase receipt = Trial)
         && from_option usd_trial false (market_entitlements s !! rc_entitlement_id receipt)
      then Some receipt else None
  | None => None
  end.
(** domain/sharing/market_trials.rs:107-113 [value_receipts] *)
Definition value_receipts (s : Share) : list string :=
  List.filter (λ id, bool_decide (is_Some (value_receipt s id))) (btree_entries (market_requests s)).*1.
Definition refused {A} (message : string) : result fault A := Err (Refused message).
(** domain/sharing/market_trials.rs:134-166 [record_value] *)
Definition record_value (display : ValueError → string) (s : Share) (request_id : string) (picos : Z)
  : result fault (bool * Share) :=
  match market_requests s !! request_id with
  | None => Ok (false, s)
  | Some receipt =>
      if negb (bool_decide (rc_phase receipt = Trial)) then Ok (false, s) else
      entitlement ← refuse "market entitlement missing" (market_entitlements s !! rc_entitlement_id receipt);
      if negb (usd_trial entitlement) then Ok (false, s) else
      _ ← fail_if (picos <? 0) (Refused "market USD usage cannot be negative");
      seen ← match unsigned_decimal (rc_value_picos receipt) with
             | Ok n => Ok n | Err e => refused (display e) end;
      if picos <=? seen then Ok (false, s) else
      used ← match unsigned_decimal (trial_value_used_picos entitlement) with
             | Ok n => Ok n | Err e => refused (display e) end;
      used ← refuse "market USD usage overflow" (checked_i128 (used + (picos - seen)));
      revision ← refuse "market usage revision overflow" (checked_u64 (usage_revision entitlement + 1));
      Ok (true,
        with_entitlements (λ m, <[rc_entitlement_id receipt := with_value_used revision (pretty used) entitlement]> m)
          (with_requests (λ m, <[request_id := with_value (pretty picos) receipt]> m) s))
  end.

(** ** Admission *)
(** domain/sharing/market_trials.rs:457-464 [compact], one receipt *)
Definition fold_receipt (totals : CompactedUsage) (r : MarketRequestReceipt) : CompactedUsage :=
  let counted := if rc_count_request r then 1 else 0 in
  match rc_phase r with
  | Trial => mk_compacted (sat_u64 (trial_tokens totals + rc_tokens r)) (sat_u64 (trial_requests totals + counted))
               (paid_tokens totals) (paid_requests totals)
  | Paid => mk_compacted (trial_tokens totals) (trial_requests totals)
               (sat_u64 (paid_tokens totals + rc_tokens r)) (sat_u64 (paid_requests totals + counted))
  end.
(** domain/sharing/market_trials.rs:449-465 [compact], the loop's body *)
Definition compact_step (cutoff : Z)
    (acc : gmap string MarketRequestReceipt * gmap string CompactedUsage) (r : string * MarketRequestReceipt)
  : gmap string MarketRequestReceipt * gmap string CompactedUsage :=
  let '(retained, totals) := acc in
  if (cutoff <=? rc_started_at_ms r.2) || (rc_revision r.2 =? 0)
  then (<[r.1 := r.2]> retained, totals)
  else (retained, <[rc_entitlement_id r.2 :=
                      fold_receipt (default compacted_default (totals !! rc_entitlement_id r.2)) r.2]> totals).
(** domain/sharing/market_trials.rs:442-468 [compact] *)
Definition compact (s : Share) (at_ms : Z) : Share :=
  let cutoff := Z.max (sat_i64 (at_ms - RECEIPT_RETENTION_MS)) 0 in
  if cutoff <? sat_i64 (market_receipts_before_ms s + 86400000) then s else
  let '(retained, totals) :=
    fold_left (compact_step cutoff) (btree_entries (market_requests s)) (∅, market_compacted_usage s) in
  mk_share (sh_id s) (sh_owner_email s) (user_grants s) (market_entitlements s) retained totals cutoff
    (pending_market_termination_acks s).
(** domain/sharing/market_trials.rs:192-253 [admit] *)
Definition admit_request (s : Share) (email request_id : string) (started_at_ms : Z) : result fault (bool * Share) :=
  _ ← fail_if (is_empty request_id || (128 <? Z.of_nat (String.length request_id)) || (started_at_ms <=? 0))
        (Refused "invalid market request identity");
  let email := to_ascii_lowercase (trim email) in
  match user_grants s !! email ≫= λ grant, if gr_active grant then gr_entitlement_id grant else None with
  | None => Ok (false, s)
  | Some id =>
      match market_entitlements s !! id with
      | None => Ok (false, s)
      | Some entitlement =>
          if negb (ent_active entitlement) then Ok (false, s) else
          _ ← fail_if (uncertain s id)
                (Refused "MARKET_USAGE_UNAVAILABLE: unresolved metering requires cleanup");
          match market_requests s !! request_id with
          | Some saved =>
              _ ← fail_if (negb (str_eqb (rc_entitlement_id saved) id && str_eqb (rc_email saved) email
                                 && bool_decide (rc_phase saved = ent_phase entitlement)))
                    (Refused "market request identity or phase changed");
              Ok (true, s)
          | None =>
              let s := compact s started_at_ms in
              _ ← fail_if (started_at_ms <? market_receipts_before_ms s)
                    (Refused "market request precedes retained revision window");
              _ ← fail_if (MAX_MARKET_REQUESTS <=? Z.of_nat (size (market_requests s)))
                    (Refused "MARKET_USAGE_CAPACITY: unresolved or recent receipts must be retained");
              _ ← fail_if (exhausted s id)
                    (Refused "MARKET_TRIAL_EXHAUSTED: trial conversion is pending");
              Ok (true, with_requests (λ m, <[request_id :=
                    mk_receipt id email (ent_phase entitlement) started_at_ms 0 0 true None "0"]> m) s)
          end
      end
  end.

(** ** Final receipts *)
(** domain/sharing/market_trials.rs:262-281 [record], the receipt of a supplemental log *)
Definition adopt_supplemental (s : Share) (log : UsageLog) : Share :=
  match market_requests s !! log_request_id log with
  | Some _ => s
  | None =>
      if bool_decide (log_record_kind log = InternalSupplemental) then
        match log_parent_request_id log ≫= λ id, market_requests s !! id with
        | Some parent =>
            with_requests (λ m, <[log_request_id log :=
              mk_receipt (rc_entitlement_id parent) (rc_email parent) (rc_phase parent)
                (rc_started_at_ms parent) 0 0 false (log_parent_request_id log) "0"]> m) s
        | None => s
        end
      else s
  end.
(** domain/sharing/market_trials.rs:285-295 [record], the identity of a log *)
Definition same_identity (s : Share) (receipt : MarketRequestReceipt) (log : UsageLog) : bool :=
  (rc_count_request receipt || bool_decide (rc_parent_request_id receipt = log_parent_request_id log))
  && Bool.eqb (rc_count_request receipt) (bool_decide (log_record_kind log = UserInference))
  && bool_decide (log_share_id log = Some (sh_id s))
  && from_option (λ e, eq_ignore_ascii_case e (rc_email receipt)) false (log_user_email log).
(** domain/sharing/market_trials.rs:323-330 [record], unknown trial consumption *)
Definition unknown_consumption (receipt : MarketRequestReceipt) (log : UsageLog) : bool :=
  bool_decide (rc_phase receipt = Trial)
  && (bool_decide (log_usage_state log = Interrupted) || bool_decide (log_usage_state log = ParseError)
      || bool_decide (log_usage_state log = Missing)
         && (200 <=? log_status_code log) && (log_status_code log <? 300)).
Section operations.
Context `{Chrono}.
Variable utc_now : Z.

(** domain/sharing/market_trials.rs:346-355 [record], the grant that still holds the entitlement *)
Definition charge_grant (grants : gmap string ShareUserGrant) (entitlement : ShareMarketEntitlement)
    (receipt : MarketRequestReceipt) (delta : Z) (count_request : bool)
  : result fault (gmap string ShareUserGrant) :=
  match grants !! rc_email receipt with
  | Some grant =>
      if bool_decide (gr_entitlement_id grant = Some (rc_entitlement_id receipt))
         && bool_decide (ent_phase entitlement = rc_phase receipt)
      then usage ← record_market_delta utc_now (gr_usage grant) (gr_policy grant) delta
                     (rc_started_at_ms receipt) count_request;
           Ok (<[rc_email receipt := with_usage usage grant]> grants)
      else Ok grants
  | None => Ok grants
  end.
(** domain/sharing/market_trials.rs:258-357 [record] *)
Definition record (s : Share) (log : UsageLog) : result fault (bool * Share) :=
  let s := adopt_supplemental s log in
  let id := log_request_id log in
  match market_requests s !! id with
  | None => Ok (false, s)
  | Some receipt =>
      _ ← fail_if (negb (same_identity s receipt log)) (Refused "market usage identity changed");
      if bool_decide (log_usage_state log = Pending) then Ok (false, s) else
      let tokens := quota_tokens log in
      let revision := Z.max (log_usage_revision log) 1 in
      if revision <? rc_revision receipt then Ok (false, s) else
      if revision =? rc_revision receipt then
        _ ← fail_if (negb (tokens =? rc_tokens receipt)) (Refused "market usage revision changed payload");
        Ok (false, s)
      else
      _ ← fail_if (tokens <? rc_tokens receipt) (Refused "market usage cannot erase confirmed Tokens");
      let count_request := (rc_revision receipt =? 0) && rc_count_request receipt in
      let delta := tokens - rc_tokens receipt in
      let s := with_requests (λ m, <[id := with_reading tokens revision receipt]> m) s in
      entitlement ← refuse "market entitlement missing" (market_entitlements s !! rc_entitlement_id receipt);
      let entitlement :=
        with_uncertain (usage_uncertain entitlement || unknown_consumption receipt log) entitlement in
      entitlement ←
        (if bool_decide (rc_phase receipt = Trial) then
           used ← refuse "market Tokens overflow" (checked_u64 (trial_tokens_used entitlement + delta));
           revision ← refuse "market usage revision overflow" (checked_u64 (usage_revision entitlement + 1));
           Ok (with_counted used revision (usage_uncertain entitlement) entitlement)
         else Ok entitlement);
      let s := with_entitlements (λ m, <[rc_entitlement_id receipt := entitlement]> m) s in
      grants ← charge_grant (user_grants s) entitlement receipt delta count_request;
      Ok (true, with_grants (λ _, grants) s)
  end.

(** ** Projection and recovery *)
(** [receipts.sort_by_key(started_at_ms)], which is stable. *)
Definition by_start (a b : MarketRequestReceipt) : Prop := rc_started_at_ms a ≤ rc_started_at_ms b.
#[global] Instance by_start_dec : RelDecision by_start.
Proof. intros a b. unfold by_start. apply _. Defined.
(** domain/sharing/market_trials.rs:375-384 [project], the compacted totals *)
Definition compacted_usage (s : Share) (id : string) (phase : ShareMarketPhase) : ShareUserUsage :=
  match market_compacted_usage s !! id with
  | Some compacted =>
      let '(tokens, requests) := match phase with
        | Trial => (trial_tokens compacted, trial_requests compacted)
        | Paid => (paid_tokens compacted, paid_requests compacted) end in
      mk_usage (mk_bucket 0 tokens requests) bucket_default bucket_default bucket_default None
  | None => user_usage_default
  end.
Definition counts_for (id : string) (phase : ShareMarketPhase) (r : MarketRequestReceipt) : bool :=
  str_eqb (rc_entitlement_id r) id && bool_decide (rc_phase r = phase) && (0 <? rc_revision r).
(** domain/sharing/market_trials.rs:362-400 [project], one grant *)
Definition project_grant (s : Share) (grant : ShareUserGrant) : result fault ShareUserGrant :=
  match gr_entitlement_id grant with
  | None => Ok grant
  | Some id =>
      match market_entitlements s !! id with
      | None => Ok grant
      | Some entitlement =>
          let receipts := merge_sort by_start
            (List.filter (counts_for id (ent_phase entitlement)) (btree_values (market_requests s))) in
          usage ← try_fold (λ u r, record_for_policy_inner utc_now u (gr_policy grant) (rc_tokens r)
                                     (rc_started_at_ms r) (rc_count_request r))
                    (compacted_usage s id (ent_phase entitlement)) receipts;
          Ok (with_usage usage grant)
      end
  end.
(** domain/sharing/market_trials.rs:361-401 [project] *)
Definition project (s : Share) : result fault Share :=
  grants ← try_fold (λ grants e, grant ← project_grant s e.2; Ok (<[e.1 := grant]> grants))
             (user_grants s) (btree_entries (user_grants s));
  Ok (with_grants (λ _, grants) s).

(** domain/sharing/market_trials.rs:417-432 [recover], one pending receipt *)
Definition recover_step (logs : list UsageLog) (acc : bool * Share) (id : string)
  : result fault (bool * Share) :=
  let '(changed, s) := acc in
  '(changed, s) ←
    match List.find (λ l, str_eqb (log_request_id l) id && negb (bool_decide (log_usage_state l = Pending))) logs with
    | Some log => '(b, s) ← record s log; Ok (changed || b, s)
    | None => Ok (changed, s)
    end;
  receipt ← expect "no entry found for key" (market_requests s !! id);
  if (rc_revision receipt =? 0) && bool_decide (rc_phase receipt = Trial) then
    state ← refuse "market entitlement missing during recovery" (market_entitlements s !! rc_entitlement_id receipt);
    Ok (changed || negb (usage_uncertain state),
        with_entitlements (λ m, <[rc_entitlement_id receipt := with_uncertain true state]> m) s)
  else Ok (changed, s).
(** domain/sharing/market_trials.rs:405-440 [recover] *)
Definition recover (s : Share) (logs : list UsageLog) (restored : bool) : result fault (bool * Share) :=
  let pending := (List.filter (λ e, rc_revision e.2 =? 0) (btree_entries (market_requests s))).*1 in
  '(changed, s) ← try_fold (recover_step logs) (false, s) pending;
  if restored then
    Ok (changed || existsb (λ e, ent_active e && negb (usage_uncertain e)) (entitlements s),
        with_entitlements (fmap (λ e, if ent_active e then with_uncertain true e else e)) s)
  else Ok (changed, s).
End operations.

(** ** Transitions *)
(** domain/sharing/market_trials.rs:470-494 [validate_transition] *)
Definition validate_transition (s : Share) (id email : string) (phase : ShareMarketPhase)
    (token_limit : option Z) : result fault () :=
  _ ← fail_if (bool_decide (token_limit = Some 0)
               || bool_decide (phase = Paid) && bool_decide (is_Some token_limit))
        (Refused "trial Token cap must be positive or unlimited, and belongs only to the trial phase");
  match market_entitlements s !! id with
  | Some existing =>
      fail_if (negb (eq_ignore_ascii_case (ent_email existing) email)
               || bool_decide (ent_phase existing = Paid) && bool_decide (phase = Trial)
               || bool_decide (phase = Trial) && negb (bool_decide (trial_token_limit existing = token_limit)))
        (Refused "market entitlement phase or budget cannot be reset")
  | None => Ok ()
  end.
(** domain/sharing/market_trials.rs:499-521 [validate_value_transition] *)
Definition validate_value_transition (s : Share) (id : string) (phase : ShareMarketPhase)
    (value_limit : option string) : result fault () :=
  _ ← fail_if (bool_decide (phase = Paid) && bool_decide (is_Some value_limit))
        (Refused "a USD trial budget belongs only to the trial phase");
  fail_if (bool_decide (phase = Trial)
           && from_option (λ existing, negb (bool_decide (trial_value_limit_usd_micros existing = value_limit)))
                false (market_entitlements s !! id))
    (Refused "market entitlement phase or budget cannot be reset").
(** state.rs:19136-19153 [try_mutate_shares_with_value_initializations], the candidate copy *)
Definition transact {A} (s : Share) (mutate : Share → result fault (A * Share)) : result fault A * Share :=
  match mutate s with Ok (a, s') => (Ok a, s') | Err e => (Err e, s) end.
