(* ===== verification/MarketGrants.v ===== *)
(** * Managed grants of the market ([src/domain/sharing/shares.rs])

    The operations the Router sends for one entitlement: their static checks, and their
    application to a share, which creates, converts and revokes entitlements and grants. *)
From S2P Require Import Prelude RustStr Json ModelIdentity ValuePricing QuotaCycle QuotaLedger TokenPeriod.
From S2P Require Import Gregorian UserUsage UserGrant MarketTrials.
From Stdlib Require Import ZArith Lia Ascii.

Local Open Scope Z_scope.

(** domain/sharing/shares.rs:30-30 [MAX_MANAGED_GRANT_DURATION_SECONDS] *)
Definition MAX_MANAGED_GRANT_DURATION_SECONDS : Z := 365 * 24 * 60 * 60.
(** domain/sharing/router_contract.rs:203-208 [ShareManagedGrantAction] *)
Inductive ShareManagedGrantAction : Type := Upsert | Revoke.
#[global] Instance ShareManagedGrantAction_eq_dec : EqDecision ShareManagedGrantAction.
Proof. solve_decision. Defined.
(** domain/sharing/market_termination_contract.rs:4-12 [TerminationFence] *)
Record TerminationFence := mk_fence {
  termination_id : string;
  cutoff_at_ms : Z;
  period_start_ms : Z;
  period_end_ms : Z;
  fence_policy : ShareUserPolicy;
}.
(** domain/sharing/router_contract.rs:210-247 [ShareManagedGrantOperation] *)
Record ShareManagedGrantOperation := mk_operation {
  op_termination : option TerminationFence;
  op_operation_id : string;
  op_entitlement_id : string;
  op_share_sequence : Z;
  op_expected_config_revision : Z;
  op_action : ShareManagedGrantAction;
  op_email : string;
  op_policy : option ShareUserPolicy;
  op_duration_seconds : option Z;
  op_market_phase : option ShareMarketPhase;
  op_trial_scope_id : option string;
  op_trial_token_allowance : option Z;
  op_trial_token_limit : option Z;
  op_trial_value_allowance_usd_micros : option string;
  op_trial_value_limit_usd_micros : option string;
}.

(** ** Static checks *)
(** domain/sharing/shares.rs:4166-4193 [normalize_verified_email] *)
Definition normalize_verified_email (email : string) : result fault string :=
  let email := to_ascii_lowercase (trim email) in
  let invalid := Refused "ownerEmail format is invalid" in
  _ ← fail_if (is_empty email || (254 <? Z.of_nat (String.length email)) || any_whitespace email
               || negb (count_char "@"%char email =? 1)%nat) invalid;
  '(local, domain) ← ok_or invalid (split_once "@" email);
  _ ← fail_if (is_empty local || is_empty domain || negb (contains_char "."%char domain)
               || starts_with "." domain || ends_with "." domain) invalid;
  Ok email.
Definition some {A} (o : option A) : bool := bool_decide (is_Some o).
(** domain/sharing/shares.rs:4337-4341 [validate_managed_value_trial], the parsing of an amount *)
Definition parse_micros (raw : string) : option Z :=
  n ← to_ok (unsigned_decimal raw); if (1 <=? n) && (n <=? MAX_LIMIT_MICROS) then Some n else None.
(** domain/sharing/shares.rs:4315-4350 [validate_managed_value_trial] *)
Definition validate_managed_value_trial (op : ShareManagedGrantOperation) : result fault () :=
  match op_trial_value_allowance_usd_micros op, op_trial_value_limit_usd_micros op with
  | None, None => Ok ()
  | Some allowance, Some limit =>
      _ ← fail_if (some (op_trial_token_allowance op) || some (op_trial_token_limit op))
            (Refused "a market trial budget uses one unit: Token or USD-equivalent, not both");
      _ ← fail_if (negb (some (op_market_phase op))) (Refused "USD trial budget requires a market phase");
      _ ← fail_if (negb (some (op_policy op ≫= value_quota)))
            (Refused "USD trial budget requires a USD-equivalent seat quota (valueQuota)");
      match parse_micros allowance, parse_micros limit with
      | Some allowance, Some limit =>
          fail_if (negb (limit <=? allowance)) (Refused "invalid one-time market USD trial budget")
      | _, _ => Err (Refused "invalid one-time market USD trial budget")
      end
  | _, _ => Err (Refused "USD trial allowance and limit must be provided together")
  end.
(** domain/sharing/shares.rs:4241-4309 [validate_managed_grant_operation] *)
Definition validate_managed_grant_operation (op : ShareManagedGrantOperation) : result fault () :=
  _ ← fail_if (from_option (λ t,
        negb (bool_decide (op_action op = Revoke)) || is_empty (termination_id t)
        || (128 <? Z.of_nat (String.length (termination_id t))) || (period_start_ms t <? 0)
        || (cutoff_at_ms t <? period_start_ms t) || (period_end_ms t <? cutoff_at_ms t)) false (op_termination op))
        (Refused "invalid Market termination fence");
  _ ← fail_if (is_empty (trim (op_operation_id op)) || (128 <? Z.of_nat (String.length (op_operation_id op))))
        (Refused "managed grant operationId must contain 1-128 characters");
  _ ← fail_if (is_empty (trim (op_entitlement_id op)) || (128 <? Z.of_nat (String.length (op_entitlement_id op))))
        (Refused "managed grant entitlementId must contain 1-128 characters");
  _ ← fail_if (op_share_sequence op <? 1) (Refused "managed grant shareSequence must be positive");
  match op_action op with
  | Upsert =>
      policy ← refuse "managed grant upsert requires policy" (op_policy op);
      _ ← match op_duration_seconds op with
          | Some duration =>
              _ ← fail_if (negb ((1 <=? duration) && (duration <=? MAX_MANAGED_GRANT_DURATION_SECONDS)))
                    (Refused "managed grant durationSeconds must be between 1 and 31536000");
              fail_if (some (expires_at policy) || some (token_period_anchor_at_ms policy))
                (Refused "relative managed grants must not provide an absolute expiry or token-period anchor")
          | None => Ok ()
          end;
      validate_managed_value_trial op
  | Revoke =>
      fail_if (some (op_policy op) || some (op_duration_seconds op) || some (op_market_phase op)
               || some (op_trial_token_limit op) || some (op_trial_scope_id op)
               || some (op_trial_token_allowance op) || some (op_trial_value_allowance_usd_micros op)
               || some (op_trial_value_limit_usd_micros op))
        (Refused "managed grant revoke must not include policy or durationSeconds")
  end.

(** ** Application *)
(** domain/sharing/shares.rs:4372-4446 [apply_managed_grant_operation], the market phase of an upsert *)
Definition check_phase (s : Share) (op : ShareManagedGrantOperation) (email : string) : result fault () :=
  let id := op_entitlement_id op in
  _ ← fail_if (negb (some (op_market_phase op)) && some (market_entitlements s !! id))
        (Refused "market phase cannot be removed from a versioned entitlement");
  _ ← fail_if (negb (some (op_market_phase op)) && some (op_trial_token_limit op))
        (Refused "trial Token cap requires a market phase");
  match op_market_phase op with
  | None => Ok ()
  | Some phase =>
      _ ← validate_transition s id email phase (op_trial_token_limit op);
      _ ← validate_value_transition s id phase (op_trial_value_limit_usd_micros op);
      scope ← refuse "market phase requires a trial scope identity"
        (match op_trial_scope_id op with
         | Some scope => if is_empty scope || (128 <? Z.of_nat (String.length scope)) then None else Some scope
         | None => None end);
      _ ← fail_if (negb (Bool.eqb (some (op_trial_token_limit op)) (some (op_trial_token_allowance op)))
            || match op_trial_token_limit op, op_trial_token_allowance op with
               | Some budget, Some allowance => (allowance <? budget) || (9007199254740991 <? allowance)
               | _, _ => false end) (Refused "invalid one-time market trial budget");
      _ ← fail_if (from_option (λ e, negb (str_eqb (trial_scope_id e) scope)
            || bool_decide (phase = Trial)
               && (negb (bool_decide (trial_token_allowance e = op_trial_token_allowance op))
                   || negb (bool_decide (trial_value_allowance_usd_micros e
                                         = op_trial_value_allowance_usd_micros op)))) false
            (market_entitlements s !! id)) (Refused "market trial scope or allowance cannot be changed");
      fail_if (existsb (λ e, str_eqb (trial_scope_id e) scope && negb (eq_ignore_ascii_case (ent_email e) email))
                 (entitlements s)) (Refused "market trial scope is assigned to another user")
  end.
(** domain/sharing/shares.rs:4447-4485 [apply_managed_grant_operation], the policy the grant gets *)
Definition granted_policy (display : ValueError → string) (op : ShareManagedGrantOperation)
    (policy : ShareUserPolicy) (now : Z) : result fault ShareUserPolicy :=
  _ ← fail_if (bool_decide (parallel_limit policy = Some 0) || bool_decide (token_limit policy = Some 0))
        (Refused "user limits must be positive or unlimited");
  expires ← match op_duration_seconds op with
    | Some seconds =>
        duration ← refuse "managed grant durationSeconds is too large"
          (seconds ← checked_i64 seconds; checked_i64 (seconds * 1000));
        at_ms ← refuse "managed grant absolute expiry is outside the supported range" (checked_i64 (now + duration));
        Ok (Some at_ms)
    | None => Ok (expires_at policy)
    end;
  let anchor :=
    match token_period_anchor_at_ms policy with
    | None => if requires_anchor (token_period policy) then Some (now / 60000 * 60000) else None
    | anchor => anchor
    end in
  let policy := mk_policy (parallel_limit policy) (token_limit policy) (value_quota policy) (token_period policy)
                  anchor expires (allowed_apps policy) in
  _ ← match validate_user_policy display policy now with Ok _ => Ok () | Err e => refused e end;
  _ ← fail_if (bool_decide (token_period policy = AccountReset))
        (Refused "market contracts cannot use accountReset");
  Ok policy.
(** domain/sharing/shares.rs:4486-4504 [apply_managed_grant_operation], who may receive the grant *)
Definition check_grants (s : Share) (op : ShareManagedGrantOperation) (email : string) : result fault () :=
  let holds g := bool_decide (gr_entitlement_id g = Some (op_entitlement_id op)) in
  _ ← fail_if (existsb (λ g, gr_active g && holds g && negb (eq_ignore_ascii_case (gr_email g) email))
                 (btree_values (user_grants s)))
        (Refused "market entitlement is already assigned to another user");
  fail_if (from_option (λ g, gr_active g
             && negb (bool_decide (gr_manager g = RouterShareMarket) && holds g)) false (user_grants s !! email))
    (Refused "user already has Share access outside this market entitlement").
(** domain/sharing/shares.rs:4507-4540 [apply_managed_grant_operation], the entitlement of an upsert *)
Definition upserted_entitlement (existing : option ShareMarketEntitlement) (op : ShareManagedGrantOperation)
    (email : string) (phase : ShareMarketPhase) (now : Z) : ShareMarketEntitlement :=
  let e := default (mk_entitlement (default "" (op_trial_scope_id op)) (op_trial_token_allowance op) email phase
      true (op_trial_token_limit op) 0 0 false now None (op_trial_value_allowance_usd_micros op)
      (op_trial_value_limit_usd_micros op) "0") existing in
  mk_entitlement (trial_scope_id e) (trial_token_allowance e) (ent_email e) phase true (trial_token_limit e)
    (trial_tokens_used e) (usage_revision e) (usage_uncertain e)
    (if bool_decide (ent_phase e = phase) then applied_at_ms e else now)
    (if bool_decide (phase = Paid) && negb (some (paid_started_at_ms e)) then Some now else paid_started_at_ms e)
    (trial_value_allowance_usd_micros e) (trial_value_limit_usd_micros e) (trial_value_used_picos e).
(** domain/sharing/shares.rs:4541-4576 [apply_managed_grant_operation], the grant of an upsert *)
Definition upserted_grant (previous : option ShareUserGrant) (op : ShareManagedGrantOperation) (email : string)
    (policy : ShareUserPolicy) (applied_at : Z) : ShareUserGrant :=
  mk_grant email "shareto" true policy None None (from_option gr_usage user_usage_default previous)
    (previous ≫= gr_usage_rebase) None None None None
    (from_option (λ g, if 0 <? gr_created_at_ms g then gr_created_at_ms g else applied_at) applied_at previous)
    applied_at None (Z.max (from_option (λ g, sat_u64 (gr_revision g + 1)) 1 previous) 1)
    RouterShareMarket (Some (op_entitlement_id op)).
(** domain/sharing/shares.rs:4602-4606 [apply_managed_grant_operation], the revoked grant *)
Definition revoked_grant (now : Z) (g : ShareUserGrant) : ShareUserGrant :=
  mk_grant (gr_email g) (gr_role g) false (gr_policy g) (gr_value_metering g) (gr_pending_value_quota g) (gr_usage g)
    (gr_usage_rebase g) (gr_usage_quota g) (gr_account_quota_cycle g) (gr_account_reset_capability g)
    (gr_account_usage_baseline g) (gr_created_at_ms g) now (Some now) (Z.max (sat_u64 (gr_revision g + 1)) 1)
    (gr_manager g) (gr_entitlement_id g).
Definition set_active (active : bool) (e : ShareMarketEntitlement) : ShareMarketEntitlement :=
  mk_entitlement (trial_scope_id e) (trial_token_allowance e) (ent_email e) (ent_phase e) active
    (trial_token_limit e) (trial_tokens_used e) (usage_revision e) (usage_uncertain e) (applied_at_ms e)
    (paid_started_at_ms e) (trial_value_allowance_usd_micros e) (trial_value_limit_usd_micros e)
    (trial_value_used_picos e).
Definition with_acks f s := mk_share (sh_id s) (sh_owner_email s) (user_grants s) (market_entitlements s)
  (market_requests s) (market_compacted_usage s) (market_receipts_before_ms s)
  (f (pending_market_termination_acks s)).

Section apply.
Context `{Chrono}.
Variables (utc_now : Z) (display : ValueError → string).

(** domain/sharing/shares.rs:4368-4578 [apply_managed_grant_operation], the upsert *)
Definition apply_upsert (s : Share) (op : ShareManagedGrantOperation) (email : string) (now_ms : Z)
  : result fault Share :=
  policy ← refuse "managed grant upsert requires policy" (op_policy op);
  _ ← check_phase s op email;
  let now := default I64_MAX (checked_i64 now_ms) in
  policy ← granted_policy display op policy now;
  _ ← check_grants s op email;
  let previous := user_grants s !! email in
  let s :=
    match op_market_phase op with
    | Some phase => with_entitlements (λ m,
        <[op_entitlement_id op := upserted_entitlement (m !! op_entitlement_id op) op email phase now]> m) s
    | None => s
    end in
  project utc_now (with_grants (λ m, <[email := upserted_grant previous op email policy now_ms]> m) s).
(** domain/sharing/shares.rs:4579-4609 [apply_managed_grant_operation], the revocation *)
Definition apply_revoke (s : Share) (op : ShareManagedGrantOperation) (email : string) (now_ms : Z)
  : result fault Share :=
  let s := match op_termination op with
           | Some fence => with_acks (λ m, <[op_operation_id op := termination_id fence]> m) s
           | None => s end in
  let s := with_entitlements (alter (set_active false) (op_entitlement_id op)) s in
  match List.find (λ g, bool_decide (gr_manager g.2 = RouterShareMarket)
                        && bool_decide (gr_entitlement_id g.2 = Some (op_entitlement_id op)))
          (btree_entries (user_grants s)) with
  | None => Ok s
  | Some (key, grant) =>
      _ ← fail_if (negb (eq_ignore_ascii_case (gr_email grant) email))
            (Refused "managed grant revoke email does not match the entitlement owner");
      Ok (with_grants (alter (revoked_grant now_ms) key) s)
  end.
(** domain/sharing/shares.rs:4352-4610 [apply_managed_grant_operation] *)
Definition apply_managed_grant_operation (s : Share) (op : ShareManagedGrantOperation) (now_ms : Z)
  : result fault Share :=
  email ← normalize_verified_email (op_email op);
  _ ← fail_if (from_option (λ owner, eq_ignore_ascii_case owner email) false (sh_owner_email s))
        (Refused "share owner cannot receive a market entitlement");
  match op_action op with
  | Upsert => apply_upsert s op email now_ms
  | Revoke => apply_revoke s op email now_ms
  end.
End apply.
