(* ===== verification/TrialSound.v ===== *)
(** * Conservation of trial tokens

    Every trial counter is the sum of its receipts and of what compaction folded away, and
    each operation of [MarketTrials] and [MarketGrants] keeps it so. *)
From S2P Require Import Prelude MapSum RustStr Json ModelIdentity ValuePricing QuotaCycle QuotaLedger.
From S2P Require Import TokenPeriod Gregorian UserUsage UserGrant MarketTrials MarketGrants.
From Stdlib Require Import ZArith Lia.

Local Open Scope Z_scope.

(** The trial tokens of a receipt that count for the entitlement [id]. *)
Definition trial_part (id : string) (r : MarketRequestReceipt) : Z :=
  if str_eqb (rc_entitlement_id r) id && bool_decide (rc_phase r = Trial) then rc_tokens r else 0.
Definition folded (totals : gmap string CompactedUsage) (id : string) : Z :=
  from_option trial_tokens 0 (totals !! id).
Record Sound (s : Share) : Prop := {
  so_total id e : market_entitlements s !! id = Some e →
    trial_tokens_used e = map_sum (trial_part id) (market_requests s) + folded (market_compacted_usage s) id;
  so_bound id e : market_entitlements s !! id = Some e → trial_tokens_used e ≤ U64_MAX;
  so_receipt rid r : market_requests s !! rid = Some r →
    0 ≤ rc_tokens r ∧ is_Some (market_entitlements s !! rc_entitlement_id r);
  so_compacted id c : market_compacted_usage s !! id = Some c →
    0 ≤ trial_tokens c ∧ is_Some (market_entitlements s !! id);
}.

Lemma trial_part_nonneg id r : 0 ≤ rc_tokens r → 0 ≤ trial_part id r.
Proof. unfold trial_part. by destruct (_ && _). Qed.
Lemma sound_parts s id k r : Sound s → market_requests s !! k = Some r → 0 ≤ trial_part id r.
Proof. intros Hs Hr. by apply trial_part_nonneg, (so_receipt _ Hs k). Qed.
Lemma folded_nonneg s id : Sound s → 0 ≤ folded (market_compacted_usage s) id.
Proof.
  intros Hs. unfold folded. destruct (_ !! id) as [c|] eqn:E; simpl; [|done]. by apply (so_compacted _ Hs id).
Qed.
Lemma sound_used_nonneg s id e : Sound s → market_entitlements s !! id = Some e → 0 ≤ trial_tokens_used e.
Proof.
  intros Hs He. rewrite (so_total _ Hs _ _ He). pose proof (folded_nonneg s id Hs).
  assert (0 ≤ map_sum (trial_part id) (market_requests s)); [|lia].
  apply map_sum_nonneg. intros k r Hr. by eapply sound_parts.
Qed.
(** An unknown entitlement has no receipts. *)
Lemma sound_unknown s id : Sound s → market_entitlements s !! id = None →
  map_sum (trial_part id) (market_requests s) + folded (market_compacted_usage s) id = 0.
Proof.
  intros Hs He. assert (map_sum (trial_part id) (market_requests s) = map_sum (λ _, 0) (market_requests s)) as ->.
  { apply map_sum_ext. intros k r Hr. unfold trial_part. destruct (str_eqb (rc_entitlement_id r) id) eqn:E; [|done].
    apply str_eqb_eq in E. destruct (so_receipt _ Hs _ _ Hr) as [_ [? Hk]]. congruence. }
  assert (folded (market_compacted_usage s) id = 0) as ->.
  { unfold folded. destruct (market_compacted_usage s !! id) as [c|] eqn:E; [exfalso|done].
    destruct (so_compacted _ Hs _ _ E) as [_ [? ?]]. congruence. }
  rewrite Z.add_0_r. unfold map_sum, sum_by. by induction (map_to_list _).*2 as [|x l IH].
Qed.

(** ** Changes that keep the totals *)
(** Entitlements keep their counters, and a new one starts at zero. *)
Lemma Sound_entitlements s s' : Sound s →
  market_requests s' = market_requests s → market_compacted_usage s' = market_compacted_usage s →
  (∀ id, is_Some (market_entitlements s !! id) → is_Some (market_entitlements s' !! id)) →
  (∀ id e', market_entitlements s' !! id = Some e' →
    (∃ e, market_entitlements s !! id = Some e ∧ trial_tokens_used e' = trial_tokens_used e)
    ∨ (market_entitlements s !! id = None ∧ trial_tokens_used e' = 0)) → Sound s'.
Proof.
  intros Hs Hr Hc Hdom He. split.
  - intros id e' H. rewrite Hr, Hc. destruct (He _ _ H) as [(e & E & ->)|[E ->]]; [by apply (so_total _ Hs)|].
    by rewrite sound_unknown.
  - intros id e' H. destruct (He _ _ H) as [(e & E & ->)|[E ->]]; [by apply (so_bound _ Hs id)|unfold U64_MAX; lia].
  - intros rid r H. rewrite Hr in H. destruct (so_receipt _ Hs _ _ H) as [? ?]. split; [done|]. by apply Hdom.
  - intros id c H. rewrite Hc in H. destruct (so_compacted _ Hs _ _ H) as [? ?]. split; [done|]. by apply Hdom.
Qed.
Lemma Sound_grants s f : Sound s → Sound (with_grants f s).
Proof. intros Hs. apply (Sound_entitlements s); try done. intros id e' He. left. by exists e'. Qed.
(** A receipt that counts as the one it replaces. *)
Lemma Sound_receipt s rid r : Sound s → 0 ≤ rc_tokens r → is_Some (market_entitlements s !! rc_entitlement_id r) →
  (∀ id, trial_part id r = from_option (trial_part id) 0 (market_requests s !! rid)) →
  Sound (with_requests (λ m, <[rid := r]> m) s).
Proof.
  intros Hs Hpos He Hpart. split; simpl.
  - intros id e H. rewrite map_sum_insert, Hpart, (so_total _ Hs _ _ H). lia.
  - apply (so_bound _ Hs).
  - intros k r' [[<- <-]|[_ Hr]]%lookup_insert_Some; [done|]. by apply (so_receipt _ Hs k).
  - apply (so_compacted _ Hs).
Qed.

(** ** Compaction *)
Section compact.
Context (known : string → Prop).
Definition parts_left (id : string) (retained : gmap string MarketRequestReceipt)
    (totals : gmap string CompactedUsage) (rest : list (string * MarketRequestReceipt)) : Z :=
  map_sum (trial_part id) retained + folded totals id + sum_by (trial_part id) rest.*2.
Lemma parts_left_cons id retained totals k r rest :
  parts_left id retained totals ((k, r) :: rest) = trial_part id r + parts_left id retained totals rest.
Proof.
  unfold parts_left. change (sum_by (trial_part id) ((k, r) :: rest).*2)
    with (trial_part id r + sum_by (trial_part id) rest.*2). lia.
Qed.
Record foldable (retained : gmap string MarketRequestReceipt) (totals : gmap string CompactedUsage)
    (rest : list (string * MarketRequestReceipt)) : Prop := {
  fo_nodup : NoDup rest.*1;
  fo_fresh k r : (k, r) ∈ rest → retained !! k = None;
  fo_rest k r : (k, r) ∈ rest → 0 ≤ rc_tokens r ∧ known (rc_entitlement_id r);
  fo_retained k r : retained !! k = Some r → 0 ≤ rc_tokens r ∧ known (rc_entitlement_id r);
  fo_totals id c : totals !! id = Some c → 0 ≤ trial_tokens c ∧ known id;
  fo_bound id : known id → parts_left id retained totals rest ≤ U64_MAX;
}.
Lemma foldable_step cutoff retained totals x rest : foldable retained totals (x :: rest) →
  let '(retained', totals') := compact_step cutoff (retained, totals) x in
  foldable retained' totals' rest ∧
  ∀ id, known id → parts_left id retained' totals' rest = parts_left id retained totals (x :: rest).
Proof.
  destruct x as [k r]. intros [Hnd Hfresh Hrest Hret Htot Hb]. apply NoDup_cons in Hnd as [Hk Hnd].
  assert (∀ j q, (j, q) ∈ rest → j ≠ k) as Hne.
  { intros j q Hj ->. apply Hk. apply list_elem_of_fmap. by exists (k, q). }
  pose proof (Hfresh k r ltac:(left)) as Hkr. destruct (Hrest k r ltac:(left)) as [Hpos Hknown].
  assert (∀ id, 0 ≤ trial_part id r) as Hpart by (intros; by apply trial_part_nonneg).
  unfold compact_step. cbn [fst snd]. destruct ((cutoff <=? rc_started_at_ms r) || (rc_revision r =? 0)).
  - assert (∀ id, parts_left id (<[k:=r]> retained) totals rest = parts_left id retained totals ((k, r) :: rest)) as Hsame.
    { intros id. rewrite parts_left_cons. unfold parts_left. rewrite map_sum_fresh by done. lia. }
    split; [|intros; apply Hsame]. split; [done| | | |done|].
    + intros j q Hj. rewrite lookup_insert_ne by (intros ->; by eapply Hne).
      apply (Hfresh j q). by right.
    + intros j q Hj. apply (Hrest j q). by right.
    + intros j q [[<- <-]|[_ Hj]]%lookup_insert_Some; [done|by apply (Hret j)].
    + intros id Hid. rewrite Hsame. by apply Hb.
  - set (old := default compacted_default (totals !! rc_entitlement_id r)).
    assert (0 ≤ trial_tokens old ∧ trial_tokens old = folded totals (rc_entitlement_id r)) as [Hold Hof].
    { unfold old, folded. destruct (totals !! rc_entitlement_id r) as [c|] eqn:E; simpl; [|done].
      by destruct (Htot _ _ E). }
    assert (0 ≤ map_sum (trial_part (rc_entitlement_id r)) retained) as Hsum.
    { apply map_sum_nonneg. intros j q Hj. by apply trial_part_nonneg, (Hret j). }
    assert (0 ≤ sum_by (trial_part (rc_entitlement_id r)) rest.*2) as Hsum'.
    { apply sum_by_nonneg. intros q ([j q'] & -> & Hj)%list_elem_of_fmap. apply trial_part_nonneg, (Hrest j). by right. }
    assert (trial_tokens (fold_receipt old r) = trial_tokens old + trial_part (rc_entitlement_id r) r) as Hnew.
    { pose proof (Hb _ Hknown) as Hbound. rewrite parts_left_cons in Hbound. unfold parts_left in Hbound.
      unfold fold_receipt, trial_part in *. rewrite (proj2 (str_eqb_eq _ _) eq_refl) in *.
      destruct (rc_phase r); simpl in *; [|lia]. apply saturate_in. lia. }
    assert (∀ id, known id → parts_left id retained
      (<[rc_entitlement_id r := fold_receipt old r]> totals) rest = parts_left id retained totals ((k, r) :: rest)) as Hsame.
    { intros id _. rewrite parts_left_cons. unfold parts_left.
      assert (folded (<[rc_entitlement_id r := fold_receipt old r]> totals) id
        = trial_part id r + folded totals id) as ->; [|lia]. unfold folded at 1. rewrite lookup_insert.
      destruct (decide (rc_entitlement_id r = id)) as [<-|Hni]; cbn [from_option]; [rewrite Hnew, Hof; lia|].
      assert (trial_part id r = 0) as ->; [|done].
      unfold trial_part. by rewrite (proj2 (str_eqb_neq _ _) Hni). }
    split; [|done]. split; [done| | |done| |].
    + intros j q Hj. apply (Hfresh j q). by right.
    + intros j q Hj. apply (Hrest j q). by right.
    + intros id c [[<- <-]|[_ Hj]]%lookup_insert_Some; [|by apply Htot].
      split; [|done]. rewrite Hnew. specialize (Hpart (rc_entitlement_id r)). lia.
    + intros id Hid. rewrite Hsame by done. by apply Hb.
Qed.
Lemma foldable_all cutoff rest : ∀ retained totals, foldable retained totals rest →
  let '(retained', totals') := fold_left (compact_step cutoff) rest (retained, totals) in
  foldable retained' totals' [] ∧
  ∀ id, known id → parts_left id retained' totals' [] = parts_left id retained totals rest.
Proof.
  induction rest as [|x rest IH]; intros retained totals Hf; [done|]. cbn [fold_left].
  pose proof (foldable_step cutoff _ _ _ _ Hf) as Hstep.
  destruct (compact_step cutoff (retained, totals) x) as [ret1 tot1]. destruct Hstep as [Hf1 He1].
  specialize (IH ret1 tot1 Hf1). destruct (fold_left _ _ _) as [ret2 tot2]. destruct IH as [Hf2 He2].
  split; [done|]. intros id Hid. by rewrite He2, He1.
Qed.
End compact.

Lemma compact_frame s at_ms : market_entitlements (compact s at_ms) = market_entitlements s
  ∧ user_grants (compact s at_ms) = user_grants s ∧ sh_id (compact s at_ms) = sh_id s
  ∧ sh_owner_email (compact s at_ms) = sh_owner_email s.
Proof. unfold compact. destruct (_ <? _); [done|]. by destruct (fold_left _ _ _). Qed.
(** Compaction only drops receipts. *)
Lemma compact_fold_subset cutoff rest : ∀ retained totals k r,
  (fold_left (compact_step cutoff) rest (retained, totals)).1 !! k = Some r →
  retained !! k = Some r ∨ (k, r) ∈ rest.
Proof.
  induction rest as [|[j q] rest IH]; intros retained totals k r; [by left|]. cbn [fold_left].
  unfold compact_step at 2. cbn [fst snd]. destruct (_ || _); intros [Hk|Hk]%IH; [| |by left|].
  - apply lookup_insert_Some in Hk as [[<- <-]|[_ ?]]; [right; left|by left].
  - right. by right.
  - right. by right.
Qed.
Lemma compact_subset s at_ms k r : market_requests (compact s at_ms) !! k = Some r → market_requests s !! k = Some r.
Proof.
  unfold compact. destruct (_ <? _); [done|]. set (cutoff := Z.max _ _). intros Hk.
  destruct (compact_fold_subset cutoff (btree_entries (market_requests s)) ∅ (market_compacted_usage s) k r) as [Hx|Hx].
  - by destruct (fold_left _ _ _).
  - by rewrite lookup_empty in Hx.
  - by apply elem_of_btree_entries.
Qed.
Lemma Sound_compact s at_ms : Sound s → Sound (compact s at_ms).
Proof.
  intros Hs. unfold compact. destruct (_ <? _); [done|]. set (cutoff := Z.max _ _).
  pose proof (foldable_all (λ id, is_Some (market_entitlements s !! id)) cutoff
    (btree_entries (market_requests s)) ∅ (market_compacted_usage s)) as Hall.
  assert (∀ id, sum_by (trial_part id) (btree_entries (market_requests s)).*2
    = map_sum (trial_part id) (market_requests s)) as Hb by (intros; apply map_sum_btree).
  destruct (fold_left _ _ _) as [retained totals]. destruct Hall as [Hf Heq].
  - split.
    + rewrite btree_entries_perm. apply NoDup_fst_map_to_list.
    + intros k r _. apply lookup_empty.
    + intros k r Hk%elem_of_btree_entries. by apply (so_receipt _ Hs k).
    + intros k r Hk. by rewrite lookup_empty in Hk.
    + apply (so_compacted _ Hs).
    + intros id [e He]. unfold parts_left. rewrite map_sum_empty, Hb, <-(so_bound _ Hs _ _ He), (so_total _ Hs _ _ He). lia.
  - split; simpl.
    + intros id e He. specialize (Heq id ltac:(by eexists)). unfold parts_left in Heq.
      rewrite map_sum_empty, Hb in Heq. simpl in Heq. rewrite (so_total _ Hs _ _ He). lia.
    + apply (so_bound _ Hs).
    + apply (fo_retained _ _ _ _ Hf).
    + apply (fo_totals _ _ _ _ Hf).
Qed.
