(* ===== verification/TrialProofs.v ===== *)
(** * Trials: what every sequence of operations keeps

    The operations as one transition function over the share, the conservation of trial
    tokens along it, and the order in which budgets only close. *)
From S2P Require Import Prelude MapSum RustStr Json ModelIdentity ValuePricing QuotaCycle QuotaLedger.
From S2P Require Import TokenPeriod Gregorian UserUsage UserGrant MarketTrials MarketGrants TrialSound.
From Stdlib Require Import ZArith Lia.

Local Open Scope Z_scope.

(** One transaction on the share: a call of [market_trials] or a managed grant. *)
Inductive trial_op : Type :=
  | OpAdmit (email request_id : string) (started_at_ms : Z)
  | OpRecord (log : UsageLog)
  | OpRecordValue (request_id : string) (picos : Z)
  | OpRecover (logs : list UsageLog) (restored : bool)
  | OpProject
  | OpGrant (op : ShareManagedGrantOperation) (now_ms : Z).
Section run.
Context `{Chrono}.
Variables (utc_now : Z) (display : ValueError → string).

Definition attempt (o : trial_op) (s : Share) : result fault (() * Share) :=
  match o with
  | OpAdmit email id at_ms => '(_, s) ← admit_request s email id at_ms; Ok ((), s)
  | OpRecord log => '(_, s) ← record utc_now s log; Ok ((), s)
  | OpRecordValue id picos => '(_, s) ← record_value display s id picos; Ok ((), s)
  | OpRecover logs restored => '(_, s) ← recover utc_now s logs restored; Ok ((), s)
  | OpProject => s ← project utc_now s; Ok ((), s)
  | OpGrant op now_ms => s ← apply_managed_grant_operation utc_now display s op now_ms; Ok ((), s)
  end.
Definition run_op (s : Share) (o : trial_op) : Share := (transact s (attempt o)).2.
Definition run (s : Share) (ops : list trial_op) : Share := fold_left run_op ops s.

(** A property of single successful operations holds along every run. *)
Lemma run_rel (R : Share → Share → Prop) (I : Share → Prop) : (∀ s, R s s) → (∀ a b c, R a b → R b c → R a c) →
  (∀ o s s', I s → attempt o s = Ok ((), s') → I s' ∧ R s s') → ∀ ops s, I s → I (run s ops) ∧ R s (run s ops).
Proof.
  intros Hrefl Htrans Hstep ops. induction ops as [|o ops IH]; intros s Hi; [by split|]. cbn [run fold_left].
  assert (I (run_op s o) ∧ R s (run_op s o)) as [Hi1 Hr1].
  { unfold run_op, transact. destruct (attempt o s) as [[[] s']|] eqn:E; [|by split]. by eapply Hstep. }
  destruct (IH _ Hi1) as [Hi2 Hr2]. split; [done|]. by eapply Htrans.
Qed.
End run.

(** ** Budgets only close *)
(** What may happen to an entitlement: its scope and budgets are fixed, its counters grow,
    an unresolved metering stays unresolved and a paid entitlement stays paid. *)
Record entitlement_le (e e' : ShareMarketEntitlement) : Prop := {
  el_scope : trial_scope_id e' = trial_scope_id e;
  el_allowance : trial_token_allowance e' = trial_token_allowance e;
  el_limit : trial_token_limit e' = trial_token_limit e;
  el_value_allowance : trial_value_allowance_usd_micros e' = trial_value_allowance_usd_micros e;
  el_value_limit : trial_value_limit_usd_micros e' = trial_value_limit_usd_micros e;
  el_used : trial_tokens_used e ≤ trial_tokens_used e';
  el_value : trial_value_used_picos e' = trial_value_used_picos e ∨
    ∃ n n', unsigned_decimal (trial_value_used_picos e) = Ok n
      ∧ unsigned_decimal (trial_value_used_picos e') = Ok n' ∧ n ≤ n';
  el_uncertain : usage_uncertain e = true → usage_uncertain e' = true;
  el_paid : ent_phase e = Paid → ent_phase e' = Paid;
}.
Definition advances (s s' : Share) : Prop :=
  ∀ id e, market_entitlements s !! id = Some e →
    ∃ e', market_entitlements s' !! id = Some e' ∧ entitlement_le e e'.
#[export] Instance entitlement_le_refl : Reflexive entitlement_le.
Proof. intros e. split; try done. by left. Qed.
#[export] Instance entitlement_le_trans : Transitive entitlement_le.
Proof.
  intros a b c [A1 A2 A3 A4 A5 A6 A7 A8 A9] [B1 B2 B3 B4 B5 B6 B7 B8 B9].
  split; [congruence..|lia| |auto|auto].
  destruct A7 as [A7|(n & n' & Hn & Hn' & Hle)], B7 as [B7|(m & m' & Hm & Hm' & Hle')].
  - left. congruence.
  - right. exists m, m'. by rewrite <-A7.
  - right. exists n, n'. by rewrite B7.
  - right. exists n, m'. split_and!; [done..|]. rewrite Hn' in Hm. injection Hm as ->. lia.
Qed.
#[export] Instance advances_refl : Reflexive advances.
Proof. intros s id e He. by exists e. Qed.
#[export] Instance advances_trans : Transitive advances.
Proof.
  intros a b c Hab Hbc id e He. destruct (Hab _ _ He) as (e1 & He1 & Hle).
  destruct (Hbc _ _ He1) as (e2 & He2 & Hle2). exists e2. split; [done|]. by etrans.
Qed.
(** A single entitlement changes. *)
Lemma advances_insert s s' id e e' : market_entitlements s !! id = Some e →
  market_entitlements s' = <[id := e']> (market_entitlements s) → entitlement_le e e' → advances s s'.
Proof.
  intros He Hs Hle j x Hj. rewrite Hs. destruct (decide (id = j)) as [<-|Hn].
  - rewrite lookup_insert_eq. exists e'. split; [done|]. congruence.
  - rewrite lookup_insert_ne by done. by exists x.
Qed.
Lemma advances_same s s' : market_entitlements s' = market_entitlements s → advances s s'.
Proof. intros Hs id e He. rewrite Hs. by exists e. Qed.
#[export] Hint Resolve advances_same : core.

(** ** Each operation *)
Definition keeps (s s' : Share) : Prop := Sound s' ∧ advances s s'.
Lemma keeps_trans a b c : keeps a b → (Sound b → keeps b c) → keeps a c.
Proof. intros [Hb Hab] Hbc. destruct (Hbc Hb) as [Hc H]. split; [done|]. by etrans. Qed.

Lemma admit_keeps s email id at_ms b s' : Sound s → admit_request s email id at_ms = Ok (b, s') → keeps s s'.
Proof.
  intros Hs. unfold admit_request. intros H. apply bind_Ok in H as ([] & _ & H).
  destruct (_ ≫= _) as [ent|]; [|by injection H as <- <-].
  destruct (market_entitlements s !! ent) as [e|] eqn:He; [|by injection H as <- <-].
  destruct (negb (ent_active e)); [by injection H as <- <-|]. apply bind_Ok in H as ([] & _ & H).
  destruct (market_requests s !! id) eqn:Er.
  { apply bind_Ok in H as ([] & _ & [= <- <-]). by split. }
  apply bind_Ok in H as ([] & _ & H). apply bind_Ok in H as ([] & _ & H). apply bind_Ok in H as ([] & _ & [= <- <-]).
  destruct (compact_frame s at_ms) as [Hce _]. split; [|by apply advances_same].
  pose proof (Sound_compact s at_ms Hs) as Hc.
  apply Sound_receipt; simpl; [done|done|by rewrite Hce; eexists|].
  intros j. destruct (market_requests (compact s at_ms) !! id) as [r|] eqn:Er2.
  { apply compact_subset in Er2. congruence. }
  unfold trial_part. simpl. by destruct (_ && _).
Qed.
Lemma adopt_keeps s log : Sound s → keeps s (adopt_supplemental s log).
Proof.
  intros Hs. unfold adopt_supplemental. destruct (market_requests s !! log_request_id log) eqn:Er; [by split|].
  destruct (bool_decide _); [|by split].
  destruct (log_parent_request_id log ≫= λ id, market_requests s !! id) as [r|] eqn:Ep; [|by split].
  assert (∃ rid, market_requests s !! rid = Some r) as [rid Hr].
  { destruct (log_parent_request_id log) as [rid|]; [|done]. by exists rid. }
  split; [|by apply advances_same]. apply Sound_receipt; simpl; [done|done|by apply (so_receipt _ Hs rid)|].
  intros j. rewrite Er. unfold trial_part. simpl. by destruct (_ && _).
Qed.
Lemma record_value_keeps display s id picos b s' : Sound s → record_value display s id picos = Ok (b, s') → keeps s s'.
Proof.
  intros Hs. unfold record_value. destruct (market_requests s !! id) as [r|] eqn:Er; [|by intros [= <- <-]].
  destruct (negb _); [by intros [= <- <-]|]. intros H. apply bind_Ok in H as (e & He & H).
  apply ok_or_Ok in He. destruct (negb (usd_trial e)); [by injection H as <- <-|].
  apply bind_Ok in H as ([] & _ & H). apply bind_Ok in H as (seen & _ & H).
  destruct (Z.leb_spec picos seen); [by injection H as <- <-|].
  apply bind_Ok in H as (used & Hu & H). apply bind_Ok in H as (used' & Hu' & H).
  apply bind_Ok in H as (rev & _ & [= <- <-]). apply ok_or_Ok, checked_Some in Hu' as [-> Hr'].
  destruct (unsigned_decimal (trial_value_used_picos e)) as [n|] eqn:En; [|done]. injection Hu as ->.
  pose proof (unsigned_decimal_range _ _ En).
  split.
  - apply (Sound_entitlements (with_requests (λ m, <[id := with_value (pretty picos) r]> m) s)); simpl; try done.
    + apply Sound_receipt; [done|by destruct (so_receipt _ Hs id r Er)|by eexists|].
      intros j. rewrite Er. done.
    + intros j Hj. rewrite lookup_insert. by destruct (decide _).
    + intros j e' [[<- <-]|[_ Hj]]%lookup_insert_Some; left; [by exists e|by exists e'].
  - eapply advances_insert; [exact He|done|]. split; try done. right.
    exists used, (used + (picos - seen)). split_and!; [done| |lia].
    apply unsigned_decimal_pretty. unfold I128_MIN in *. lia.
Qed.
(** A receipt grows and its entitlement with it. *)
Lemma Sound_charge s rid r r' e e' delta : Sound s → market_requests s !! rid = Some r →
  market_entitlements s !! rc_entitlement_id r = Some e →
  rc_entitlement_id r' = rc_entitlement_id r → rc_phase r' = rc_phase r → rc_tokens r' = rc_tokens r + delta → 0 ≤ delta →
  trial_tokens_used e' = trial_tokens_used e + (if bool_decide (rc_phase r = Trial) then delta else 0) →
  trial_tokens_used e' ≤ U64_MAX →
  Sound (with_entitlements (λ m, <[rc_entitlement_id r := e']> m) (with_requests (λ m, <[rid := r']> m) s)).
Proof.
  intros Hs Hr He Hid Hph Htok Hd Hused Hmax. destruct (so_receipt _ Hs _ _ Hr) as [Hpos _]. split; simpl.
  - intros id x Hx. rewrite map_sum_insert, Hr. cbn [from_option].
    apply lookup_insert_Some in Hx as [[<- <-]|[Hne Hx]].
    + rewrite Hused, (so_total _ Hs _ _ He). unfold trial_part at 2 3.
      rewrite Hid, Hph, Htok, (proj2 (str_eqb_eq _ _) eq_refl). simpl. case_bool_decide; lia.
    + rewrite (so_total _ Hs _ _ Hx). unfold trial_part at 2 3.
      rewrite Hid, (proj2 (str_eqb_neq _ _) Hne). simpl. lia.
  - intros id x [[<- <-]|[_ Hx]]%lookup_insert_Some; [done|by apply (so_bound _ Hs id)].
  - intros k x [[<- <-]|[_ Hx]]%lookup_insert_Some.
    + rewrite Hid, lookup_insert_eq. split; [lia|by eexists].
    + destruct (so_receipt _ Hs _ _ Hx) as [? ?]. split; [done|]. rewrite lookup_insert. by destruct (decide _).
  - intros id c Hc. destruct (so_compacted _ Hs _ _ Hc) as [? ?]. split; [done|].
    rewrite lookup_insert. by destruct (decide _).
Qed.

(** What a recorded receipt changed. *)
Record settled (utc_now : Z) `{Chrono} (s s' : Share) (log : UsageLog) (r : MarketRequestReceipt)
    (e e' : ShareMarketEntitlement) : Prop := {
  sd_receipt : market_requests (adopt_supplemental s log) !! log_request_id log = Some r;
  sd_identity : same_identity (adopt_supplemental s log) r log = true;
  sd_state : log_usage_state log ≠ Pending;
  sd_revision : rc_revision r < Z.max (log_usage_revision log) 1;
  sd_tokens : rc_tokens r ≤ quota_tokens log;
  sd_entitlement : market_entitlements s !! rc_entitlement_id r = Some e;
  sd_used : trial_tokens_used e' =
    trial_tokens_used e + (if bool_decide (rc_phase r = Trial) then quota_tokens log - rc_tokens r else 0);
  sd_bound : rc_phase r = Trial → trial_tokens_used e' ≤ U64_MAX;
  sd_uncertain : usage_uncertain e' = usage_uncertain e || unknown_consumption r log;
  sd_requests : market_requests s' = <[log_request_id log :=
    with_reading (quota_tokens log) (Z.max (log_usage_revision log) 1) r]> (market_requests (adopt_supplemental s log));
  sd_entitlements : market_entitlements s' = <[rc_entitlement_id r := e']> (market_entitlements s);
  sd_compacted : market_compacted_usage s' = market_compacted_usage s;
  sd_id : sh_id s' = sh_id s;
  sd_le : rc_tokens r ≤ quota_tokens log → entitlement_le e e';
}.
Lemma adopt_frame s log : market_entitlements (adopt_supplemental s log) = market_entitlements s
  ∧ market_compacted_usage (adopt_supplemental s log) = market_compacted_usage s
  ∧ user_grants (adopt_supplemental s log) = user_grants s ∧ sh_id (adopt_supplemental s log) = sh_id s.
Proof.
  unfold adopt_supplemental. destruct (_ !! _); [done|]. destruct (bool_decide _); [|done]. by destruct (_ ≫= _).
Qed.
Section operations.
Context `{Chrono}.
Variables (utc_now : Z) (display : ValueError → string).

Lemma record_answer s log b s' : record utc_now s log = Ok (b, s') →
  if b then ∃ r e e', settled utc_now s s' log r e e' else s' = adopt_supplemental s log.
Proof.
  unfold record. destruct (adopt_frame s log) as (Fe & Fc & _ & Fi).
  destruct (market_requests (adopt_supplemental s log) !! log_request_id log) as [r|] eqn:Er; [|by intros [= <- <-]].
  intros Hrec. apply bind_Ok in Hrec as ([] & Hid%fail_if_Ok%negb_false_iff & Hrec).
  destruct (bool_decide (log_usage_state log = Pending)) eqn:Ep; [by injection Hrec as <- <-|].
  apply bool_decide_eq_false in Ep.
  destruct (Z.ltb_spec (Z.max (log_usage_revision log) 1) (rc_revision r)); [by injection Hrec as <- <-|].
  destruct (Z.eqb_spec (Z.max (log_usage_revision log) 1) (rc_revision r)).
  { by apply bind_Ok in Hrec as ([] & _ & [= <- <-]). }
  apply bind_Ok in Hrec as ([] & Ht%fail_if_Ok%Z.ltb_ge & Hrec).
  apply bind_Ok in Hrec as (e & He%ok_or_Ok & Hrec). simpl in He. rewrite Fe in He.
  apply bind_Ok in Hrec as (e' & He' & Hrec). apply bind_Ok in Hrec as (grants & _ & [= <- <-]).
  exists r, e, e'.
  assert (trial_tokens_used e' = trial_tokens_used e
      + (if bool_decide (rc_phase r = Trial) then quota_tokens log - rc_tokens r else 0)
    ∧ (rc_phase r = Trial → trial_tokens_used e' ≤ U64_MAX)
    ∧ usage_uncertain e' = usage_uncertain e || unknown_consumption r log
    ∧ (rc_tokens r ≤ quota_tokens log → entitlement_le e e')) as (Hused & Hmax & Hunc & Hle).
  { destruct (bool_decide (rc_phase r = Trial)) eqn:Eph.
    - apply bind_Ok in He' as (used & Hu%ok_or_Ok & He'). apply bind_Ok in He' as (rev & _ & [= <-]).
      apply checked_Some in Hu as [-> Hu]. simpl in *. split_and!; [lia|intros; lia|done|].
      intros Hle. split; simpl; try done; [lia|by left|by intros ->].
    - injection He' as <-. apply bool_decide_eq_false in Eph. simpl. split_and!; [lia|intros; congruence|done|].
      intros Hle. split; simpl; try done; [by left|by intros ->]. }
  split; simpl; try done; [lia|by rewrite Fe].
Qed.
Lemma record_keeps s log b s' : Sound s → record utc_now s log = Ok (b, s') → keeps s s'.
Proof.
  intros Hs Hrec%record_answer. pose proof (adopt_keeps s log Hs) as Ha. destruct b; [|by subst].
  destruct Hrec as (r & e & e' & Hd). destruct (adopt_frame s log) as (Fe & Fc & _).
  assert (rc_tokens r ≤ quota_tokens log) as Hle by apply Hd.
  split; [|eapply advances_insert; [apply Hd|apply Hd|by apply Hd]].
  pose proof (Sound_charge (adopt_supplemental s log) (log_request_id log) r
    (with_reading (quota_tokens log) (Z.max (log_usage_revision log) 1) r) e e' (quota_tokens log - rc_tokens r)
    (proj1 Ha) (sd_receipt _ _ _ _ _ _ _ Hd)) as Hc.
  rewrite Fe in Hc. specialize (Hc (sd_entitlement _ _ _ _ _ _ _ Hd) eq_refl eq_refl ltac:(simpl; lia) ltac:(lia)
    (sd_used _ _ _ _ _ _ _ Hd)).
  assert (trial_tokens_used e' ≤ U64_MAX) as Hmax.
  { destruct (decide (rc_phase r = Trial)) as [Hp|Hp]; [by apply Hd|].
    rewrite (sd_used _ _ _ _ _ _ _ Hd), bool_decide_eq_false_2, Z.add_0_r by done.
    apply (so_bound _ Hs (rc_entitlement_id r)), Hd. }
  specialize (Hc Hmax). destruct Hc as [H1 H2 H3 H4]. simpl in *. rewrite Fc in *.
  split; rewrite ?(sd_requests _ _ _ _ _ _ _ Hd), ?(sd_entitlements _ _ _ _ _ _ _ Hd), ?(sd_compacted _ _ _ _ _ _ _ Hd);
    rewrite ?Fe in *; done.
Qed.
Lemma set_uncertain_keeps s id e : Sound s → market_entitlements s !! id = Some e →
  keeps s (with_entitlements (λ m, <[id := with_uncertain true e]> m) s).
Proof.
  intros Hs He. split.
  - apply (Sound_entitlements s); try done; simpl.
    + intros j Hj. rewrite lookup_insert. by destruct (decide _).
    + intros j e' [[<- <-]|[_ Hj]]%lookup_insert_Some; left; [by exists e|by exists e'].
  - eapply advances_insert; [exact He|done|]. split; try done. by left.
Qed.
Lemma recover_step_keeps s logs changed id b s' : Sound s →
  recover_step utc_now logs (changed, s) id = Ok (b, s') → keeps s s'.
Proof.
  intros Hs Hr. unfold recover_step in Hr. apply bind_Ok in Hr as ([c s1] & Hrec & Hr).
  assert (keeps s s1) as H1.
  { destruct (List.find _ _) as [log|]; [|by injection Hrec as _ <-].
    apply bind_Ok in Hrec as ([d s2] & Hrec & [= _ <-]). by eapply record_keeps. }
  apply (keeps_trans s s1); [done|]. intros Hs1. apply bind_Ok in Hr as (r & _ & Hr).
  destruct (_ && _); [|by injection Hr as _ <-].
  apply bind_Ok in Hr as (e & He%ok_or_Ok & [= _ <-]). by apply set_uncertain_keeps.
Qed.
Lemma recover_keeps s logs restored b s' : Sound s → recover utc_now s logs restored = Ok (b, s') → keeps s s'.
Proof.
  intros Hs Hr. unfold recover in Hr. apply bind_Ok in Hr as ([c s1] & Hf & Hr).
  assert (keeps s s1) as H1.
  { revert Hf. generalize false as d. generalize ((List.filter (λ e, rc_revision e.2 =? 0)
      (btree_entries (market_requests s))).*1) as ids. intros ids. revert s Hs.
    induction ids as [|id ids IH]; intros s Hs d Hf; cbn [try_fold] in Hf; [by injection Hf as _ <-|].
    apply bind_Ok in Hf as ([d2 s2] & Hstep & Hf). apply recover_step_keeps in Hstep; [|done].
    apply (keeps_trans s s2); [done|]. intros Hs2. by eapply IH. }
  destruct restored; [|by injection Hr as _ <-]. injection Hr as _ <-.
  apply (keeps_trans s s1); [done|]. intros Hs1. split.
  - apply (Sound_entitlements s1); try done; simpl.
    + intros j [e He]. rewrite lookup_fmap, He. by eexists.
    + intros j e'. rewrite lookup_fmap. intros (e & He & ->)%fmap_Some. left. exists e. split; [done|].
      by destruct (ent_active e).
  - intros j e He. simpl. rewrite lookup_fmap, He. eexists. split; [done|].
    destruct (ent_active e); [|done]. split; try done. by left.
Qed.
Lemma project_keeps s s' : Sound s → project utc_now s = Ok s' → keeps s s'.
Proof.
  intros Hs Hp. unfold project in Hp. apply bind_Ok in Hp as (grants & _ & [= <-]).
  split; [by apply Sound_grants|by apply advances_same].
Qed.

(** A managed grant creates an entitlement with empty counters, or converts one that
    keeps its scope, budgets and counters. *)
Lemma upserted_le e op email phase now : (ent_phase e = Paid → phase = Paid) →
  entitlement_le e (upserted_entitlement (Some e) op email phase now).
Proof. intros Hp. split; simpl; try done. by left. Qed.
Lemma check_phase_paid s op email phase e : check_phase s op email = Ok () → op_market_phase op = Some phase →
  market_entitlements s !! op_entitlement_id op = Some e → ent_phase e = Paid → phase = Paid.
Proof.
  unfold check_phase. intros Hc Hp He Hpaid. apply bind_Ok in Hc as ([] & _ & Hc). apply bind_Ok in Hc as ([] & _ & Hc).
  rewrite Hp in Hc. apply bind_Ok in Hc as ([] & Hv & _). unfold validate_transition in Hv.
  apply bind_Ok in Hv as ([] & _ & Hv). rewrite He in Hv. apply fail_if_Ok in Hv.
  rewrite Hpaid, bool_decide_eq_true_2 in Hv by done. destruct phase; [|done].
  by rewrite !orb_false_iff in Hv; destruct Hv as [[_ ?] _].
Qed.
Lemma upsert_keeps s op email now s' : Sound s → apply_upsert utc_now display s op email now = Ok s' → keeps s s'.
Proof.
  intros Hs Ha. unfold apply_upsert in Ha. apply bind_Ok in Ha as (policy & _ & Ha).
  apply bind_Ok in Ha as ([] & Hc & Ha). apply bind_Ok in Ha as (policy' & _ & Ha).
  apply bind_Ok in Ha as ([] & _ & Ha). revert Ha. set (s1 := with_grants _ _). intros Hp.
  assert (keeps s s1) as H1; [|apply (keeps_trans s s1); [done|]; intros Hs1; by apply project_keeps].
  unfold s1. set (s2 := match op_market_phase op with Some _ => _ | None => s end).
  assert (keeps s s2) as [Hs2 Ha2]; [|split; [by apply Sound_grants|]; etrans; [exact Ha2|by apply advances_same]].
  unfold s2. destruct (op_market_phase op) as [phase|] eqn:Ep; [|by split].
  pose proof (check_phase_paid s op email phase) as Hpaid.
  split.
  - apply (Sound_entitlements s); try done; simpl.
    + intros j Hj. rewrite lookup_insert. by destruct (decide _).
    + intros j e' [[<- <-]|[_ Hj]]%lookup_insert_Some; [|left; by exists e'].
      destruct (market_entitlements s !! op_entitlement_id op) as [e|] eqn:He; [left; by exists e|by right].
  - destruct (market_entitlements s !! op_entitlement_id op) as [e|] eqn:He.
    + eapply advances_insert; [exact He|simpl; by rewrite He|]. apply upserted_le. by apply (Hpaid e).
    + intros j e Hj. simpl. exists e. rewrite lookup_insert_ne; [done|]. intros <-. congruence.
Qed.
Lemma revoke_keeps s op email now s' : Sound s → apply_revoke s op email now = Ok s' → keeps s s'.
Proof.
  intros Hs Ha. unfold apply_revoke in Ha. revert Ha. set (s1 := match op_termination op with Some _ => _ | None => s end).
  assert (market_entitlements s1 = market_entitlements s ∧ market_requests s1 = market_requests s
    ∧ market_compacted_usage s1 = market_compacted_usage s) as (E1 & E2 & E3) by (unfold s1; by destruct (op_termination op)).
  set (s2 := with_entitlements _ s1). intros Ha.
  assert (keeps s s2) as [Hs2 Ha2].
  { split.
    - apply (Sound_entitlements s); try done; simpl; rewrite E1.
      + intros j [e He]. destruct (decide (op_entitlement_id op = j)) as [<-|Hn].
        * rewrite lookup_alter_eq, He. by eexists.
        * rewrite lookup_alter_ne by done. by exists e.
      + intros j e'. destruct (decide (op_entitlement_id op = j)) as [<-|Hn].
        * rewrite lookup_alter_eq. intros (e & He & ->)%fmap_Some. left. by exists e.
        * rewrite lookup_alter_ne by done. left. by exists e'.
    - intros j e He. simpl. rewrite E1. destruct (decide (op_entitlement_id op = j)) as [<-|Hn].
      + rewrite lookup_alter_eq, He. eexists. split; [done|]. split; try done. by left.
      + rewrite lookup_alter_ne by done. by exists e. }
  destruct (List.find _ _) as [[key g]|]; [|by injection Ha as <-].
  apply bind_Ok in Ha as ([] & _ & [= <-]). split; [by apply Sound_grants|]. etrans; [exact Ha2|by apply advances_same].
Qed.
Lemma attempt_keeps o s s' : Sound s → attempt utc_now display o s = Ok ((), s') → keeps s s'.
Proof.
  intros Hs. destruct o; simpl; intros Ha.
  - apply bind_Ok in Ha as ([b s1] & Ha & [= <-]). by eapply admit_keeps.
  - apply bind_Ok in Ha as ([b s1] & Ha & [= <-]). by eapply record_keeps.
  - apply bind_Ok in Ha as ([b s1] & Ha & [= <-]). by eapply record_value_keeps.
  - apply bind_Ok in Ha as ([b s1] & Ha & [= <-]). by eapply recover_keeps.
  - apply bind_Ok in Ha as (s1 & Ha & [= <-]). by eapply project_keeps.
  - apply bind_Ok in Ha as (s1 & Ha & [= <-]). unfold apply_managed_grant_operation in Ha.
    apply bind_Ok in Ha as (email & _ & Ha). apply bind_Ok in Ha as ([] & _ & Ha).
    destruct (op_action op); [by eapply upsert_keeps|by eapply revoke_keeps].
Qed.
Lemma run_keeps ops s : Sound s → Sound (run utc_now display s ops) ∧ advances s (run utc_now display s ops).
Proof.
  intros Hs. apply (run_rel utc_now display advances Sound); [done|intros ???; apply transitivity| |done].
  intros o a b. apply attempt_keeps.
Qed.
End operations.
