(* ===== verification/TrialClosed.v ===== *)
(** * Trials stay closed

    An exhausted trial budget and an unresolved metering stay so whatever operations
    follow, and no new request is admitted on them; the settled value of a receipt is the
    highest reported; a replayed or older final receipt changes nothing. *)
From S2P Require Import Prelude MapSum RustStr Json ModelIdentity ValuePricing QuotaCycle QuotaLedger.
From S2P Require Import TokenPeriod Gregorian UserUsage UserGrant MarketTrials MarketGrants TrialSound TrialProofs.
From Stdlib Require Import ZArith Lia.

Local Open Scope Z_scope.

(** ** Sums over a scope *)
Definition value_of (e : ShareMarketEntitlement) : Z := default 0 (to_ok (unsigned_decimal (trial_value_used_picos e))).
Definition readable (e : ShareMarketEntitlement) : bool :=
  bool_decide (is_Some (to_ok (unsigned_decimal (trial_value_used_picos e)))).
Lemma value_of_nonneg e : 0 ≤ value_of e.
Proof.
  unfold value_of. destruct (unsigned_decimal _) as [n|] eqn:E; simpl; [|done].
  apply unsigned_decimal_range in E. lia.
Qed.
Lemma token_fold l : ∀ acc, 0 ≤ acc → (∀ e, e ∈ l → 0 ≤ trial_tokens_used e) →
  fold_left (λ sum e, sat_u64 (sum + trial_tokens_used e)) l (sat_u64 acc) = sat_u64 (acc + sum_by trial_tokens_used l).
Proof.
  induction l as [|e l IH]; intros acc Ha Hl; cbn [fold_left sum_by foldr]; [by rewrite Z.add_0_r|].
  pose proof (Hl e ltac:(left)). rewrite sat_u64_add by done. rewrite IH.
  - f_equal. unfold sum_by. lia.
  - lia.
  - intros x Hx. apply Hl. by right.
Qed.
Lemma token_total l : (∀ e, e ∈ l → 0 ≤ trial_tokens_used e) →
  fold_left (λ sum e, sat_u64 (sum + trial_tokens_used e)) l 0 = sat_u64 (sum_by trial_tokens_used l).
Proof. intros Hl. exact (token_fold l 0 ltac:(lia) Hl). Qed.
Lemma value_fold_none l : fold_left value_sum_step l None = None.
Proof. by induction l. Qed.
Lemma value_fold l : ∀ acc, 0 ≤ acc ≤ I128_MAX → fold_left value_sum_step l (Some acc) =
  if forallb readable l && (acc + sum_by value_of l <=? I128_MAX) then Some (acc + sum_by value_of l) else None.
Proof.
  induction l as [|e l IH]; intros acc Ha; cbn [fold_left forallb sum_by foldr].
  { rewrite Z.add_0_r, (proj2 (Z.leb_le _ _)) by lia. done. }
  pose proof (value_of_nonneg e) as Hpos. assert (0 ≤ sum_by value_of l) as Hsum.
  { apply sum_by_nonneg. intros. apply value_of_nonneg. }
  change (foldr (λ x n, value_of x + n) 0 l) with (sum_by value_of l).
  assert (value_sum_step (Some acc) e = if readable e then checked_i128 (acc + value_of e) else None) as ->.
  { unfold value_sum_step, readable, value_of. by destruct (unsigned_decimal (trial_value_used_picos e)). }
  destruct (readable e); cbn [andb]; [|apply value_fold_none]. revert Hpos. generalize (value_of e) as n. intros n Hpos.
  destruct (Z.leb_spec (acc + n) I128_MAX).
  - rewrite checked_i128_in by (unfold I128_MIN; lia). rewrite IH by lia. by rewrite <-Z.add_assoc.
  - assert (checked_i128 (acc + n) = None) as -> by (apply checked_None; lia). rewrite value_fold_none.
    destruct (Z.leb_spec (acc + (n + sum_by value_of l)) I128_MAX); [lia|]. by rewrite andb_false_r.
Qed.
Lemma same_scope_sum s e f : sum_by f (same_scope s e) =
  map_sum (λ x, if str_eqb (trial_scope_id x) (trial_scope_id e) then f x else 0) (market_entitlements s).
Proof. unfold same_scope, entitlements. by rewrite sum_by_filter, map_sum_btree. Qed.
Lemma elem_of_same_scope s e x : x ∈ same_scope s e ↔
  trial_scope_id x = trial_scope_id e ∧ ∃ id, market_entitlements s !! id = Some x.
Proof.
  unfold same_scope, entitlements, btree_values. rewrite list_elem_of_In, filter_In, str_eqb_eq, <-list_elem_of_In.
  rewrite list_elem_of_fmap. split.
  - intros [([k y] & -> & Hy%elem_of_btree_entries) Hs]. split; [done|]. by exists k.
  - intros [Hs [k Hk]]. split; [|done]. exists (k, x). split; [done|]. by apply elem_of_btree_entries.
Qed.

(** ** Exhaustion is kept *)
Section advance.
Context (s s' : Share) (Hs : Sound s) (Hs' : Sound s') (Hadv : advances s s').

Lemma scope_sum_mono e e' f : trial_scope_id e' = trial_scope_id e →
  (∀ x x', entitlement_le x x' → f x ≤ f x') → (∀ id x, market_entitlements s' !! id = Some x → 0 ≤ f x) →
  sum_by f (same_scope s e) ≤ sum_by f (same_scope s' e').
Proof.
  intros Hsc Hf Hpos. rewrite !same_scope_sum, Hsc. apply map_sum_mono.
  - intros id x Hx. destruct (Hadv _ _ Hx) as (x' & Hx' & Hle). exists x'. split; [done|].
    rewrite (el_scope _ _ Hle). destruct (str_eqb _ _); [by apply Hf|done].
  - intros id x Hx. destruct (str_eqb _ _); [by eapply Hpos|done].
Qed.
Lemma value_of_le x x' : entitlement_le x x' → readable x = true → value_of x ≤ value_of x'.
Proof.
  intros Hle _. unfold value_of. destruct (el_value _ _ Hle) as [->|(n & n' & -> & -> & ?)]; simpl; lia.
Qed.
Lemma readable_le x x' : entitlement_le x x' → readable x' = true → readable x = true.
Proof.
  intros Hle. unfold readable. destruct (el_value _ _ Hle) as [->|(n & n' & -> & -> & ?)]; [done|].
  by rewrite !bool_decide_eq_true_2 by (by eexists).
Qed.
(** What closes a scope on its settled value: an unreadable amount, or the allowance. *)
Lemma value_closed_mono e e' allowance : trial_scope_id e' = trial_scope_id e →
  match fold_left value_sum_step (same_scope s e) (Some 0) with Some sum => allowance <=? sum | None => true end = true →
  match fold_left value_sum_step (same_scope s' e') (Some 0) with Some sum => allowance <=? sum | None => true end = true.
Proof.
  intros Hsc. rewrite !value_fold by (unfold I128_MAX; lia). rewrite !Z.add_0_l.
  assert (sum_by value_of (same_scope s e) ≤ sum_by value_of (same_scope s' e')) as Hsum.
  { apply scope_sum_mono; [done| |intros; apply value_of_nonneg].
    intros x x' Hle. unfold value_of. destruct (el_value _ _ Hle) as [->|(n & n' & -> & -> & ?)]; simpl; lia. }
  destruct (forallb readable (same_scope s' e')) eqn:Hr'; [|done]. cbn [andb].
  destruct (forallb readable (same_scope s e)) eqn:Hr; cbn [andb].
  - destruct (Z.leb_spec (sum_by value_of (same_scope s e)) I128_MAX),
      (Z.leb_spec (sum_by value_of (same_scope s' e')) I128_MAX); rewrite ?Z.leb_le; done || lia.
  - exfalso. rewrite <-not_true_iff_false in Hr. apply Hr. apply forallb_forall. intros x Hx%list_elem_of_In.
    apply elem_of_same_scope in Hx as [Hxs [id Hx]]. destruct (Hadv _ _ Hx) as (x' & Hx' & Hle).
    apply (readable_le _ _ Hle). rewrite forallb_forall in Hr'. apply Hr', list_elem_of_In, elem_of_same_scope.
    split; [by rewrite (el_scope _ _ Hle), Hxs|by exists id].
Qed.
Lemma value_exhausted_mono e e' : entitlement_le e e' → value_exhausted s e = true → value_exhausted s' e' = true.
Proof.
  intros Hle. unfold value_exhausted. rewrite (el_value_limit _ _ Hle), (el_value_allowance _ _ Hle).
  rewrite !orb_true_iff. intros [Hl|Ha]; [left|right].
  - destruct (trial_value_limit_usd_micros e) as [limit|]; [|done].
    destruct (micros_to_picos limit) as [l|]; [|done].
    destruct (el_value _ _ Hle) as [->|(n & n' & Hn & Hn' & ?)]; [done|]. rewrite Hn in Hl. rewrite Hn'. simpl in *.
    apply negb_true_iff, Z.ltb_ge in Hl. apply negb_true_iff, Z.ltb_ge. lia.
  - destruct (trial_value_allowance_usd_micros e) as [allowance|]; [|done].
    destruct (micros_to_picos allowance) as [a|]; [|done]. by apply (value_closed_mono e _ _ (el_scope _ _ Hle)).
Qed.
Lemma exhausted_mono id : exhausted s id = true → ∃ e', market_entitlements s' !! id = Some e'
  ∧ (ent_phase e' = Paid ∨ exhausted s' id = true).
Proof.
  unfold exhausted. destruct (market_entitlements s !! id) as [e|] eqn:He; [|done].
  destruct (Hadv _ _ He) as (e' & He' & Hle). rewrite He'. intros Hx. exists e'. split; [done|].
  destruct (bool_decide (ent_phase e = Trial)); simpl in Hx; [|done].
  destruct (ent_phase e') eqn:Hph; [right|by left]. simpl.
  rewrite (el_limit _ _ Hle), (el_allowance _ _ Hle). rewrite !orb_true_iff in Hx |- *.
  destruct Hx as [[Hx|Hx]|Hx]; [left; left|left; right|right; by eapply value_exhausted_mono].
  - destruct (trial_token_limit e) as [l|]; simpl in *; [|done]. apply Z.leb_le in Hx. apply Z.leb_le.
    pose proof (el_used _ _ Hle). lia.
  - destruct (trial_token_allowance e) as [l|]; simpl in *; [|done]. revert Hx.
    assert (∀ t y, Sound t → ∀ x, x ∈ same_scope t y → 0 ≤ trial_tokens_used x) as Hpos.
    { intros t y Ht x [_ [k Hk]]%elem_of_same_scope. by eapply sound_used_nonneg. }
    rewrite (token_total _ (Hpos s e Hs)), (token_total _ (Hpos s' e' Hs')).
    assert (sum_by trial_tokens_used (same_scope s e) ≤ sum_by trial_tokens_used (same_scope s' e')) as Hsum.
    { apply scope_sum_mono; [apply (el_scope _ _ Hle)|intros x x' Hx; apply (el_used _ _ Hx)|].
      intros k x Hx. by eapply sound_used_nonneg. }
    rewrite !Z.leb_le. width_lia.
Qed.
Lemma uncertain_mono id : uncertain s id = true → uncertain s' id = true.
Proof.
  unfold uncertain. destruct (market_entitlements s !! id) as [e|] eqn:He; [|done].
  destruct (Hadv _ _ He) as (e' & He' & Hle). rewrite He'. rewrite !existsb_exists.
  intros (x & Hx & Hu). apply list_elem_of_In in Hx. unfold entitlements, btree_values in Hx.
  apply list_elem_of_fmap in Hx as ([k y] & -> & Hy%elem_of_btree_entries). simpl in *.
  destruct (Hadv _ _ Hy) as (y' & Hy' & Hley). exists y'. split.
  - apply list_elem_of_In, list_elem_of_fmap. exists (k, y'). split; [done|]. by apply elem_of_btree_entries.
  - rewrite (el_scope _ _ Hley), (el_scope _ _ Hle). apply andb_true_iff in Hu as [-> Hu].
    by rewrite (el_uncertain _ _ Hley Hu).
Qed.
End advance.

(** A receipt after an admission is an old one, or of an entitlement that is open. *)
Lemma admitted s email request at_ms b s2 : admit_request s email request at_ms = Ok (b, s2) →
  ∀ r, market_requests s2 !! request = Some r →
    market_requests s !! request = Some r
    ∨ (market_requests s !! request = None ∧ exhausted s (rc_entitlement_id r) = false).
Proof.
  unfold admit_request. intros H. apply bind_Ok in H as ([] & _ & H).
  destruct (_ ≫= _) as [ent|]; [|injection H as <- <-; intros; by left].
  destruct (market_entitlements s !! ent) as [e|] eqn:He; [|injection H as <- <-; intros; by left].
  destruct (negb (ent_active e)); [injection H as <- <-; intros; by left|]. apply bind_Ok in H as ([] & _ & H).
  destruct (market_requests s !! request) eqn:Er.
  { apply bind_Ok in H as ([] & _ & [= <- <-]). intros r' Hr'; left; congruence. }
  apply bind_Ok in H as ([] & _ & H). apply bind_Ok in H as ([] & _ & H).
  apply bind_Ok in H as ([] & Hx%fail_if_Ok & [= <- <-]). intros r Hr. right. split; [done|].
  simpl in Hr. rewrite lookup_insert_eq in Hr. injection Hr as <-. simpl.
  destruct (compact_frame s at_ms) as [Hc _]. revert Hx.
  unfold exhausted, value_exhausted, same_scope, entitlements. by rewrite Hc.
Qed.

(** ** Properties *)
(** C11: trial tokens are conserved: along any sequence of admissions, final receipts,
    settled values, recoveries, projections and managed grants, each entitlement's counter
    is exactly the tokens of its trial receipts plus those compaction folded away. *)
Theorem trial_tokens_conserved `{Chrono} utc_now display s ops id e'
    (Hs : Sound s) (He : market_entitlements (run utc_now display s ops) !! id = Some e') :
  let s' := run utc_now display s ops in
  trial_tokens_used e' = map_sum (trial_part id) (market_requests s') + folded (market_compacted_usage s') id
  ∧ 0 ≤ trial_tokens_used e' ≤ U64_MAX.
Proof.
  destruct (run_keeps utc_now display ops s Hs) as [Hs' _]. split; [by apply (so_total _ Hs')|].
  split; [by eapply sound_used_nonneg|by apply (so_bound _ Hs' id)].
Qed.

(** C12: a spent trial never reopens: once an entitlement's budget is exhausted, after any
    sequence of operations it is either converted to paid or still exhausted, and then no
    new request is admitted on it. *)
Theorem exhausted_trial_stays_closed `{Chrono} utc_now display s ops id
    (Hs : Sound s) (Hx : exhausted s id = true) :
  let s' := run utc_now display s ops in
  ∃ e', market_entitlements s' !! id = Some e' ∧
    (ent_phase e' = Paid ∨
     (exhausted s' id = true ∧ ∀ email request at_ms b s2, admit_request s' email request at_ms = Ok (b, s2) →
        ∀ r, market_requests s2 !! request = Some r → rc_entitlement_id r = id →
          market_requests s' !! request = Some r)).
Proof.
  destruct (run_keeps utc_now display ops s Hs) as [Hs' Hadv]. intros s'.
  destruct (exhausted_mono s s' Hs Hs' Hadv id Hx) as (e' & He' & [Hp|Hx']); exists e'; (split; [done|]); [by left|right].
  split; [done|]. intros email request at_ms b s2 Ha r Hr Hid.
  destruct (admitted _ _ _ _ _ _ Ha r Hr) as [?|(Hnew & Hfree)]; [done|]. rewrite Hid in Hfree. congruence.
Qed.

(** unresolved metering is sticky: once the usage of an entitlement's scope is
    uncertain, no operation of the market lifts it, and every admission on the entitlement
    is refused. *)
Theorem uncertain_trial_stays_blocked `{Chrono} utc_now display s ops id
    (Hs : Sound s) (Hu : uncertain s id = true) :
  let s' := run utc_now display s ops in
  uncertain s' id = true ∧ ∀ email request at_ms grant e,
    user_grants s' !! to_ascii_lowercase (trim email) = Some grant → gr_active grant = true →
    gr_entitlement_id grant = Some id → market_entitlements s' !! id = Some e → ent_active e = true →
    ∃ err, admit_request s' email request at_ms = Err err.
Proof.
  destruct (run_keeps utc_now display ops s Hs) as [Hs' Hadv]. intros s'.
  assert (uncertain s' id = true) as Hu' by by apply (uncertain_mono s s' Hadv). split; [done|].
  intros email request at_ms grant e Hg Ha Hid He Hea. unfold admit_request.
  destruct (is_empty request || _ || _); [by eexists|]. cbn [fail_if mbind result_bind]. rewrite Hg.
  cbn [mbind option_bind].
  rewrite Ha, Hid, He, Hea, Hu'. by eexists.
Qed.

(** A final receipt is settled once: after a log was recorded, the same log again, and
    any log of the same request with an older revision, changes nothing. *)
Theorem settled_receipt_is_final `{Chrono} utc_now s log s' log'
    (Hr : record utc_now s log = Ok (true, s'))
    (Hid : log_request_id log' = log_request_id log) (Hkind : log_record_kind log' = log_record_kind log)
    (Hparent : log_parent_request_id log' = log_parent_request_id log)
    (Hshare : log_share_id log' = log_share_id log) (Huser : log_user_email log' = log_user_email log)
    (Hrev : Z.max (log_usage_revision log') 1 < Z.max (log_usage_revision log) 1
      ∨ (log_usage_revision log' = log_usage_revision log ∧ quota_tokens log' = quota_tokens log)) :
  record utc_now s' log' = Ok (false, s').
Proof.
  apply record_answer in Hr as (r & e & e' & Hd).
  assert (market_requests s' !! log_request_id log =
    Some (with_reading (quota_tokens log) (Z.max (log_usage_revision log) 1) r)) as Hrec
    by (rewrite (sd_requests _ _ _ _ _ _ _ Hd); apply lookup_insert_eq).
  unfold record, adopt_supplemental. rewrite Hid, Hrec. cbv beta iota zeta. rewrite Hrec.
  assert (same_identity s' (with_reading (quota_tokens log) (Z.max (log_usage_revision log) 1) r) log' = true) as ->.
  { pose proof (sd_identity _ _ _ _ _ _ _ Hd) as Hi. unfold same_identity in *. simpl.
    rewrite Hparent, Hkind, Hshare, Huser. destruct (adopt_frame s log) as (_ & _ & _ & Hsid).
    by rewrite Hsid, <-(sd_id _ _ _ _ _ _ _ Hd) in Hi. }
  cbn [negb fail_if mbind result_bind]. destruct (bool_decide (log_usage_state log' = Pending)); [done|].
  simpl. destruct Hrev as [Hlt|[-> Ht]].
  - by rewrite (proj2 (Z.ltb_lt _ _) Hlt).
  - by rewrite Z.ltb_irrefl, Z.eqb_refl, Ht, Z.eqb_refl.
Qed.

(** The settled value of a trial request is the highest total reported: a report folds
    in exactly what exceeds it, so replays and lower re-settlements change nothing, and
    nothing else in the share changes. *)
Theorem settled_value_is_maximum display s request_id picos r e seen used
    (Hr : market_requests s !! request_id = Some r) (Hph : rc_phase r = Trial)
    (He : market_entitlements s !! rc_entitlement_id r = Some e) (Hu : usd_trial e = true)
    (Hp : 0 ≤ picos) (Hs : unsigned_decimal (rc_value_picos r) = Ok seen)
    (Hv : unsigned_decimal (trial_value_used_picos e) = Ok used)
    (Hmax : used + (Z.max picos seen - seen) ≤ I128_MAX) (Hrev : 0 ≤ usage_revision e < U64_MAX) :
  ∃ r' e', record_value display s request_id picos = Ok (seen <? picos,
      with_entitlements (λ m, <[rc_entitlement_id r := e']> m) (with_requests (λ m, <[request_id := r']> m) s))
    ∧ r' = with_value (pretty (Z.max picos seen)) r
    ∧ unsigned_decimal (trial_value_used_picos e') = Ok (used + (Z.max picos seen - seen))
    ∧ usage_revision e' = usage_revision e + (if seen <? picos then 1 else 0).
Proof.
  pose proof (unsigned_decimal_range _ _ Hv). pose proof (unsigned_decimal_range _ _ Hs).
  unfold record_value. rewrite Hr, (bool_decide_eq_true_2 _ Hph). cbn [negb]. rewrite He. cbn [refuse ok_or mbind result_bind].
  rewrite Hu. cbn [negb]. destruct (Z.ltb_spec picos 0); [lia|]. cbn [fail_if mbind result_bind]. rewrite Hs.
  cbn [mbind result_bind]. destruct (Z.leb_spec picos seen), (Z.ltb_spec seen picos); try lia.
  - exists r, e. rewrite Z.max_r by lia. split_and!; [|by rewrite <-(unsigned_decimal_inv _ _ Hs); destruct r|rewrite Hv; f_equal; lia|lia].
    do 2 f_equal. destruct s; unfold with_entitlements, with_requests; simpl in *. by rewrite !insert_id.
  - rewrite Hv. cbn [mbind result_bind]. rewrite Z.max_l in * by lia.
    rewrite checked_i128_in by (unfold I128_MIN; lia). cbn [refuse ok_or mbind result_bind].
    rewrite checked_u64_in by lia. cbn [refuse ok_or mbind result_bind]. eexists _, _. split; [done|]. simpl.
    split_and!; [done| |done]. apply unsigned_decimal_pretty. lia.
Qed.

(** ** A concrete trial *)
Definition sample_entitlement : ShareMarketEntitlement :=
  mk_entitlement "scope" (Some 100) "u@example.com" Trial true (Some 100) 0 0 false 0 None
    (Some "5") (Some "5") "0".
Definition sample_grant : ShareUserGrant :=
  mk_grant "u@example.com" "shareto" true (calendar Day) None None user_usage_default None None None None None 0 0 None 1
    RouterShareMarket (Some "ent").
Definition sample_share : Share :=
  mk_share "share" None {["u@example.com" := sample_grant]} {["ent" := sample_entitlement]} ∅ ∅ 0 ∅.
Definition sample_final (revision tokens : Z) : UsageLog :=
  mk_log "r1" None UserInference None None 600000000 None None None None (Some tokens) (Some "share")
    (Some "U@example.com") Observed revision 200.
Definition sample_ops : list trial_op :=
  [OpAdmit "U@example.com" "r1" 600000000; OpRecord (sample_final 1 150); OpRecordValue "r1" 7].
Definition sample_display (e : ValueError) : string := "error".
Lemma sound_fresh s : market_requests s = ∅ → market_compacted_usage s = ∅ →
  (∀ id e, market_entitlements s !! id = Some e → trial_tokens_used e = 0) → Sound s.
Proof.
  intros Hr Hc He. split.
  - intros id e Hid. by rewrite Hr, Hc, map_sum_empty, (He id e).
  - intros id e Hid. rewrite (He id e Hid). unfold U64_MAX. lia.
  - intros rid r H. by rewrite Hr, lookup_empty in H.
  - intros id c H. by rewrite Hc, lookup_empty in H.
Qed.
Lemma sample_sound : Sound sample_share.
Proof. apply sound_fresh; [done|done|]. simpl. by intros id e [_ <-]%lookup_singleton_Some. Qed.
Definition spent_share : Share := run 0 sample_display sample_share sample_ops.
Lemma spent_sound : Sound spent_share.
Proof. apply run_keeps, sample_sound. Qed.
Lemma trial_tokens_conserved_witness : ∃ e, market_entitlements spent_share !! "ent" = Some e
  ∧ trial_tokens_used e = 150 ∧ map_sum (trial_part "ent") (market_requests spent_share) = 150.
Proof.
  destruct (market_entitlements spent_share !! "ent") as [e|] eqn:He.
  - exists e. split; [done|]. destruct (trial_tokens_conserved 0 sample_display sample_share sample_ops "ent" e
      sample_sound He) as [Ht _]. change (run 0 sample_display sample_share sample_ops) with spent_share in Ht.
    assert (map_sum (trial_part "ent") (market_requests spent_share) = 150) as E by (vm_compute; reflexivity).
    split; [|done]. rewrite Ht, E. vm_compute. reflexivity.
  - exfalso. assert (from_option (λ _, true) false (market_entitlements spent_share !! "ent") = true) as Hx
      by (vm_compute; reflexivity). by rewrite He in Hx.
Defined.
Lemma exhausted_trial_stays_closed_witness : exhausted spent_share "ent" = true ∧
  ∃ e', market_entitlements (run 0 sample_display spent_share [OpAdmit "u@example.com" "r2" 600000001]) !! "ent" = Some e'.
Proof.
  assert (exhausted spent_share "ent" = true) as Hx by (vm_compute; reflexivity). split; [done|].
  destruct (exhausted_trial_stays_closed 0 sample_display spent_share [OpAdmit "u@example.com" "r2" 600000001] "ent"
    spent_sound Hx) as (e' & He' & _). by exists e'.
Defined.
Definition blocked_share : Share := run 0 sample_display sample_share
  [OpAdmit "U@example.com" "r1" 600000000; OpRecover [] false].
Lemma uncertain_trial_stays_blocked_witness :
  uncertain (run 0 sample_display blocked_share [OpRecord (sample_final 1 20)]) "ent" = true.
Proof.
  apply (uncertain_trial_stays_blocked 0 sample_display blocked_share [OpRecord (sample_final 1 20)] "ent").
  - apply run_keeps, sample_sound.
  - vm_compute. reflexivity.
Defined.
Definition admitted_share : Share := run 0 sample_display sample_share [OpAdmit "U@example.com" "r1" 600000000].
Definition recorded_share : Share := run 0 sample_display admitted_share [OpRecord (sample_final 2 150)].
Lemma settled_receipt_is_final_witness :
  record 0 recorded_share (sample_final 2 150) = Ok (false, recorded_share).
Proof.
  assert ((fst <$> record 0 admitted_share (sample_final 2 150)) = Ok true) as Hb by (vm_compute; reflexivity).
  destruct (record 0 admitted_share (sample_final 2 150)) as [[b s']|] eqn:E; [|discriminate Hb].
  injection Hb as ->.
  assert (recorded_share = s') as ->.
  { unfold recorded_share, run, run_op, transact. cbn [fold_left attempt]. by rewrite E. }
  apply (settled_receipt_is_final 0 admitted_share (sample_final 2 150) s' (sample_final 2 150) E); try reflexivity.
  right. split; reflexivity.
Defined.
Definition sample_receipt : MarketRequestReceipt :=
  mk_receipt "ent" "u@example.com" Trial 600000000 0 0 true None "0".
Definition valued_share : Share := with_requests (λ m, <["r1" := sample_receipt]> m) sample_share.
Lemma settled_value_is_maximum_witness : ∃ s',
  record_value sample_display valued_share "r1" 7 = Ok (true, s').
Proof.
  destruct (settled_value_is_maximum sample_display valued_share "r1" 7 sample_receipt sample_entitlement 0 0)
    as (r' & e' & H & _); try reflexivity; try (vm_compute; reflexivity);
    try (unfold I128_MAX, U64_MAX; simpl; lia); try done.
  eexists. exact H.
Defined.

(** ** Trials and counters together: [project] rebuilds the counters of a grant from the receipts of its entitlement *)
Lemma used_in_sum w l : used_in w l = sum_by (λ i, if inside w i.1 then i.2 else 0) l.
Proof. done. Qed.
Definition receipt_item (r : MarketRequestReceipt) : Z * Z * bool :=
  (rc_started_at_ms r, rc_tokens r, rc_count_request r).

#[local] Instance by_start_total : Total by_start.
Proof. intros a b. unfold by_start. lia. Qed.
#[local] Instance by_start_trans : Transitive by_start.
Proof. intros a b c. unfold by_start. lia. Qed.
Lemma StronglySorted_fmap {A B} (R : relation B) (f : A → B) l :
  StronglySorted (λ x y, R (f x) (f y)) l → StronglySorted R (f <$> l).
Proof.
  induction l as [|x l IH]; intros Hs; [constructor|]. apply StronglySorted_inv in Hs as [Hs Hx].
  cbn. constructor; [by apply IH|]. rewrite Forall_fmap. exact Hx.
Qed.

(** after a projection, a grant on a market entitlement reads the tokens of exactly the
    settled receipts of that entitlement and phase which started in the current window of
    its policy, whatever the order they were stored in. *)
Theorem projected_grant_reads_receipts `{ChronoLaws} utc_now display s grant id e checked_at now w
    (Hid : gr_entitlement_id grant = Some id) (He : market_entitlements s !! id = Some e)
    (Hc : market_compacted_usage s !! id = None)
    (Hv : validate_user_policy display (gr_policy grant) checked_at = Ok ()) (Hi : is_i64 checked_at)
    (Hp : token_period (gr_policy grant) ≠ AccountReset) (Hm : modern now)
    (Hw : token_period_window (gr_policy grant) now = Ok w)
    (Hall : ∀ rid r, market_requests s !! rid = Some r → counts_for id (ent_phase e) r = true →
      modern (rc_started_at_ms r) ∧ rc_started_at_ms r ≤ now ∧ 0 ≤ rc_tokens r) :
  ∃ grant', project_grant utc_now s grant = Ok grant' ∧
    tokens_for_policy utc_now (gr_usage grant') (gr_policy grant) now =
    Ok (sat_u64 (map_sum (λ r, if counts_for id (ent_phase e) r && inside w (rc_started_at_ms r)
                                then rc_tokens r else 0) (market_requests s))).
Proof.
  set (receipts := List.filter (counts_for id (ent_phase e)) (btree_values (market_requests s))).
  set (sorted := merge_sort by_start receipts).
  assert (sorted ≡ₚ receipts) as Hperm by by unfold sorted; rewrite merge_sort_Permutation.
  assert (∀ d, d ∈ receipt_item <$> sorted → modern d.1.1 ∧ d.1.1 ≤ now ∧ 0 ≤ d.1.2) as Hd.
  { intros d (r & -> & Hr)%list_elem_of_fmap. rewrite Hperm in Hr. unfold receipts in Hr.
    apply list_elem_of_In, filter_In in Hr as [Hr%list_elem_of_In Hf]. unfold btree_values in Hr.
    apply list_elem_of_fmap in Hr as ([k x] & -> & Hx%elem_of_btree_entries). by apply (Hall k). }
  assert (StronglySorted (λ a b : Z * Z * bool, a.1.1 ≤ b.1.1) (receipt_item <$> sorted)) as Hsorted
    by (apply StronglySorted_fmap, (StronglySorted_merge_sort by_start)).
  destruct (requests_read utc_now display (gr_policy grant) checked_at now w (receipt_item <$> sorted)
    Hv Hi Hp Hm Hw Hsorted Hd) as (u & Hu & Hread).
  exists (with_usage u grant). split.
  - unfold project_grant. rewrite Hid, He. unfold compacted_usage. rewrite Hc. fold receipts. fold sorted.
    unfold record_requests in Hu. rewrite try_fold_fmap in Hu. cbn [receipt_item fst snd] in Hu. by rewrite Hu.
  - cbn [with_usage gr_usage]. rewrite Hread, used_in_sum. do 2 f_equal. rewrite <-list_fmap_compose, sum_by_fmap, Hperm.
    unfold receipts. rewrite sum_by_filter, map_sum_btree. apply map_sum_ext. intros k r _.
    destruct (counts_for _ _ r); [|done]. done.
Qed.

Definition settled_share : Share := with_requests (λ m, <["r1" :=
  mk_receipt "ent" "u@example.com" Trial 600000000 30 1 true None "0"]> m) sample_share.
Definition sample_day : TokenPeriodWindow := calendar_start 518400000 604800000.
Lemma projected_grant_reads_receipts_witness : ∃ grant',
  project_grant 0 settled_share sample_grant = Ok grant'
  ∧ tokens_for_policy 0 (gr_usage grant') (calendar Day) 600000500 = Ok 30.
Proof.
  assert (modern 600000500) as Hm by (unfold modern, instant, DAY_MS, MINUTE_MS; lia).
  assert (is_i64 0) as Hi by (unfold is_i64, I64_MIN, I64_MAX; lia).
  destruct (projected_grant_reads_receipts 0 sample_display settled_share sample_grant "ent" sample_entitlement
    0 600000500 sample_day eq_refl eq_refl eq_refl eq_refl Hi ltac:(discriminate) Hm eq_refl) as (g & Hg & Ht).
  - simpl. intros rid r Hr _. apply lookup_insert_Some in Hr as [[_ <-]|[_ Hr]]; [|by rewrite lookup_empty in Hr].
    unfold modern, instant, DAY_MS, MINUTE_MS. simpl. lia.
  - exists g. split; [exact Hg|]. change (gr_policy sample_grant) with (calendar Day) in Ht. rewrite Ht. reflexivity.
Defined.
