(* ===== verification/Termination.v ===== *)
(** * The end of a market entitlement ([src/repository/server_sqlite/market_termination.rs])

    The archive of market requests the money of an entitlement is settled from, what makes its usage final, and the receipt
    of a termination: what was used before the billing period and in each window of it; and the outbox of its
    acknowledgement. The tables are maps; a column that
    holds the JSON or the decimal text of a value holds the value here. A function that runs in a transaction returns the
    new tables, or an error that rolls it back. *)
From S2P Require Import Prelude MapSum RustStr Json ModelIdentity ValuePricing ValueTables ValueAdmission.
From S2P Require Import QuotaCycle QuotaLedger TokenPeriod Gregorian UserUsage UserGrant MarketTrials MarketGrants.
From Stdlib Require Import ZArith Lia Ascii.

Local Open Scope Z_scope.

(** ** Data *)
(** domain/sharing/market_termination_contract.rs:14-21 [UsageWindow] *)
Record UsageWindow := mk_usage_window { uw_starts_at_ms : Z; uw_ends_at_ms : Z; uw_used : string }.
(** domain/sharing/market_termination_contract.rs:23-40 [TerminationReceipt] *)
Record TerminationReceipt := mk_termination {
  tr_termination_id : string;
  tr_entitlement_id : string;
  tr_share_id : string;
  tr_email : string;
  tr_operation_id : string;
  tr_cutoff_at_ms : Z;
  tr_period_start_ms : Z;
  tr_period_end_ms : Z;
  tr_revoked_at_ms : Z;
  tr_archive_since_ms : Z;
  tr_quota_used_before_period : string;
  tr_windows : list UsageWindow;
}.
(** The column [final_state]. *)
Inductive FinalState : Type := FPending | FUncertain | FFinal.
#[global] Instance FinalState_eq_dec : EqDecision FinalState.
Proof. solve_decision. Defined.
(** repository/server_sqlite/market_termination_schema.sql:2-15 [market_settlement_requests], a row of the table *)
Record SettlementRow := mk_settlement {
  st_share_id : string; st_entitlement_id : string; st_email : string; st_phase : ShareMarketPhase; st_started_at_ms : Z;
  st_revision : Z; st_tokens : Z; st_value_picos : string; st_final_state : FinalState; st_no_value_execution : bool;
  st_payload : MarketRequestReceipt;
}.
#[global] Instance settlement_eta : Eta SettlementRow := λ r,
  mk_settlement (st_share_id r) (st_entitlement_id r) (st_email r) (st_phase r) (st_started_at_ms r) (st_revision r) (st_tokens r)
    (st_value_picos r) (st_final_state r) (st_no_value_execution r) (st_payload r).
(** The tables the functions read: [usage_records] with its column [usage_revision], and [meta] and the attempts of the
    value ledger. *)
Record Tables := mk_tables {
  tb_requests : gmap string SettlementRow;
  tb_receipts : gmap string TerminationReceipt;
  tb_shares : gmap string Share;
  tb_usage : gmap string (Z * UsageLog);
  tb_value : Database;
}.
#[global] Instance tables_eta : Eta Tables := λ t, mk_tables (tb_requests t) (tb_receipts t) (tb_shares t) (tb_usage t) (tb_value t).
(** What [anyhow] carries: the text of an [ensure!], an error of the value ledger, or how the window of a period failed. *)
Inductive TerminationError : Type := Said (text : string) | ValueFault (e : QuotaError) | PeriodFault (f : fault).
Notation term_result A := (result TerminationError A).
(** A [u64] as a parameter of a statement. *)
Definition sql_u64 (z : Z) : term_result Z := ok_or (Said "out of range integral type conversion attempted") (checked_i64 z).

(** ** The archive *)
(** repository/server_sqlite/market_termination.rs:36-44 [archive_in] *)
Definition same_request (share_id : string) (r : MarketRequestReceipt) (row : SettlementRow) : bool :=
  str_eqb (st_share_id row) share_id && str_eqb (st_entitlement_id row) (rc_entitlement_id r) && str_eqb (st_email row) (rc_email r)
  && bool_decide (st_phase row = rc_phase r) && (st_started_at_ms row =? rc_started_at_ms r).
(** repository/server_sqlite/market_termination.rs:34-62 [archive_in]: one request, with the statement of lines 20 to 32 *)
Definition archive_request (share_id : string) (rows : gmap string SettlementRow) (e : string * MarketRequestReceipt)
    : term_result (gmap string SettlementRow) :=
  let '(id, r) := e in
  let fresh := mk_settlement share_id (rc_entitlement_id r) (rc_email r) (rc_phase r) (rc_started_at_ms r) (rc_revision r)
                 (rc_tokens r) (rc_value_picos r) FPending false r in
  match rows !! id with
  | None => _ ← sql_u64 (rc_revision r); Ok (<[id := fresh]> rows)
  | Some row =>
      _ ← fail_if (negb (same_request share_id r row)) (Said "Market archive request identity conflict");
      _ ← fail_if ((st_revision row =? rc_revision r) && negb (st_tokens row =? rc_tokens r))
            (Said "Market archive revision payload conflict");
      _ ← sql_u64 (rc_revision r);
      Ok (if rc_revision r <? st_revision row then rows
          else if st_revision row <? rc_revision r then <[id := fresh]> rows
          else <[id := row <| st_value_picos := rc_value_picos r |> <| st_payload := r |>]> rows)
  end.
(** repository/server_sqlite/market_termination.rs:19-65 [archive_in] *)
Definition archive_in (shares : list Share) (t : Tables) : term_result Tables :=
  rows ← try_fold (λ rows share, try_fold (archive_request (sh_id share)) rows (btree_entries (market_requests share)))
           (tb_requests t) shares;
  Ok (t <| tb_requests := rows |>).

(** ** Final usage *)
(** repository/server_sqlite/market_termination.rs:69-74 [finalize_log_in] *)
Definition usage_final_state (log : UsageLog) : FinalState :=
  match log_usage_state log with
  | Pending => FPending
  | Interrupted | ParseError => FUncertain
  | Missing => if (200 <=? log_status_code log) && (log_status_code log <? 300) then FUncertain else FFinal
  | _ => FFinal
  end.
Definition log_revision (log : UsageLog) : Z := Z.max (log_usage_revision log) 1.
(** repository/server_sqlite/market_termination.rs:67-106 [finalize_log_in] *)
Definition finalize_log_in (rows : gmap string SettlementRow) (log : UsageLog) : term_result (gmap string SettlementRow) :=
  let state := usage_final_state log in
  let id := log_request_id log in
  _ ← match rows !! id with
      | None => Ok ()
      | Some row =>
          _ ← fail_if (negb (bool_decide (log_share_id log = Some (st_share_id row))
                             && from_option (λ e, eq_ignore_ascii_case e (st_email row)) false (log_user_email log)))
                (Said "Market final usage identity conflict");
          fail_if ((st_revision row =? log_revision log) && negb (bool_decide (state = FPending))
                   && negb (st_tokens row =? quota_tokens log)) (Said "Market final usage quantity conflict")
      end;
  revision ← sql_u64 (log_revision log);
  Ok (match rows !! id with
      | Some row =>
          if st_revision row =? revision
          then <[id := row <| st_final_state := state |>
                           <| st_no_value_execution := (400 <=? log_status_code log) && (quota_tokens log =? 0) |>]> rows
          else rows
      | None => rows
      end).

(** ** The receipt *)
Section receipt.
Context `{!Digest, !Serde Scope, !Serde Checkpoint, !Serde AdjustmentPayload, !Serde (list string)}.
Context `{!Serde (string * string), !Serde (Scope * string), !Serde AttemptMeta, !Serde MarketTrialAttempt}.
Context `{!Serde PricingSnapshot, !Serde ExecutionModelPrice, !Serde PendingTariff}.
Context `{!Chrono}.

(** repository/server_sqlite/value_quota.rs:2265-2311 [settled_request_picos_in], for the one request a receipt asks for *)
Definition settled_request_picos_in (db : Database) (request_id share_id email entitlement_id : string) : result QuotaError (option Z) :=
  try_fold (λ total '(attempt_id, a),
      scope ← ok_or (Message "scope does not parse") (from_json (a_scope a) : option Scope);
      _ ← fail_if (negb (str_eqb (sc_share_id scope) share_id && eq_ignore_ascii_case (sc_email scope) email
                         && bool_decide (sc_entitlement_id scope = Some entitlement_id))) (Message "VALUE_QUOTA_USAGE_SCOPE_CONFLICT");
      marker ← read_trial_attempt db request_id attempt_id;
      floor ← match marker with
              | Some (_, m) => lift (unsigned_decimal (default "0" (ma_settled_floor_picos m)))
              | None => Ok 0
              end;
      amount ← lift (unsigned_decimal (a_usage_picos a));
      sum ← ok_or (Message "value quota arithmetic overflow") (checked_i128 (default 0 total + Z.max amount floor));
      Ok (Some sum)) None
    ((λ e, (e.1.2, e.2)) <$> filter (λ e, e.1.1 = request_id ∧ one_of ["observed"; "conservative"] (a_metering_status e.2) = true)
                               (map_to_list (attempts db))).
(** repository/server_sqlite/market_termination.rs:255-260 [receipt_in] *)
Definition unresolved (db : Database) (request_id : string) : bool :=
  existsb (λ e, str_eqb e.1.1 request_id && negb (one_of ["observed"; "conservative"] (a_metering_status e.2))) (map_to_list (attempts db)).
(** repository/server_sqlite/market_termination.rs:246-275 [receipt_in]: what a request used, in the unit of the policy *)
Definition request_amount (db : Database) (op : ShareManagedGrantOperation) (fence : TerminationFence) (share_id id : string)
    (row : SettlementRow) : term_result Z :=
  amount ← (match value_quota (fence_policy fence) with
    | Some _ =>
        total ← (match settled_request_picos_in db id share_id (st_email row) (op_entitlement_id op) with
                 | Ok total => Ok total | Err e => Err (ValueFault e) end);
        _ ← fail_if (unresolved db id) (Said "MARKET_TERMINATION_PENDING: USD attempts remain unresolved");
        match total with
        | Some v => Ok v
        | None => if st_no_value_execution row then Ok 0
                  else Err (Said "MARKET_TERMINATION_PENDING: missing execution-price evidence")
        end
    | None => Ok (st_tokens row)
    end);
  _ ← fail_if (amount <? 0) (Said "negative Market usage");
  Ok amount.
(** The state of the loop over the requests: the rows it updates, the usage before the period, and that of each window. *)
Record tally := mk_tally { tl_rows : gmap string SettlementRow; tl_before : Z; tl_windows : gmap (Z * Z) Z }.
(** repository/server_sqlite/market_termination.rs:293-298 [receipt_in] *)
Definition window_key (fence : TerminationFence) (started : Z) : term_result (Z * Z) :=
  match token_period_window (fence_policy fence) started with
  | Ok w => Ok (default (period_start_ms fence) (TokenPeriod.starts_at_ms w), default (period_end_ms fence) (TokenPeriod.ends_at_ms w))
  | Err e => Err (PeriodFault e)
  end.
(** repository/server_sqlite/market_termination.rs:232-301 [receipt_in]: one request *)
Definition tally_request (db : Database) (op : ShareManagedGrantOperation) (fence : TerminationFence) (share_id : string)
    (s : tally) (e : string * SettlementRow) : term_result tally :=
  let '(id, row) := e in
  _ ← fail_if (negb (eq_ignore_ascii_case (st_email row) (op_email op))) (Said "Market usage identity mismatch");
  _ ← fail_if (negb (bool_decide (st_final_state row = FFinal))) (Said "MARKET_TERMINATION_PENDING: final usage is pending or uncertain");
  if negb (bool_decide (st_phase row = Paid)) || (cutoff_at_ms fence <=? st_started_at_ms row) then Ok s else
  amount ← request_amount db op fence share_id id row;
  let rows := if bool_decide (is_Some (value_quota (fence_policy fence)))
              then <[id := row <| st_value_picos := pretty amount |>]> (tl_rows s) else tl_rows s in
  if st_started_at_ms row <? period_start_ms fence then
    before ← ok_or (Said "opening quota overflow") (checked_i128 (tl_before s + amount));
    Ok (mk_tally rows before (tl_windows s))
  else if period_end_ms fence <=? st_started_at_ms row then Ok (mk_tally rows (tl_before s) (tl_windows s)) else
  key ← window_key fence (st_started_at_ms row);
  used ← ok_or (Said "Market usage overflow") (checked_i128 (default 0 (tl_windows s !! key) + amount));
  Ok (mk_tally rows (tl_before s) (<[key := used]> (tl_windows s))).
(** The rows of an entitlement: [WHERE share_id=?1 AND entitlement_id=?2]. *)
Definition of_entitlement (share_id entitlement_id : string) (e : string * SettlementRow) : Prop :=
  st_share_id e.2 = share_id ∧ st_entitlement_id e.2 = entitlement_id.
#[global] Instance of_entitlement_dec share_id entitlement_id e : Decision (of_entitlement share_id entitlement_id e) := _.
Definition by_start (a b : string * SettlementRow) : Prop :=
  st_started_at_ms a.2 < st_started_at_ms b.2 ∨ (st_started_at_ms a.2 = st_started_at_ms b.2 ∧ String.le a.1 b.1).
#[global] Instance by_start_dec : RelDecision by_start.
Proof. intros a b. unfold by_start. apply _. Defined.
(** repository/server_sqlite/market_termination.rs:212-229 [receipt_in]: [ORDER BY started_at_ms,request_id] *)
Definition entitlement_rows (share_id entitlement_id : string) (rows : gmap string SettlementRow) : list (string * SettlementRow) :=
  merge_sort by_start (filter (of_entitlement share_id entitlement_id) (map_to_list rows)).
(** The logs of the requests of an entitlement that are not final, of their own revision. *)
Definition recoverable (share_id entitlement_id : string) (t : Tables) : list UsageLog :=
  omap (λ e, if bool_decide (of_entitlement share_id entitlement_id e) && negb (bool_decide (st_final_state e.2 = FFinal))
             then '(revision, log) ← tb_usage t !! e.1; if revision =? st_revision e.2 then Some log else None
             else None) (map_to_list (tb_requests t)).
(** repository/server_sqlite/market_termination.rs:195-211 [receipt_in]; without ORDER BY the statement may return any 256
    of them, and those of the model come in the order of the map *)
Definition recover_final (share_id entitlement_id : string) (t : Tables) : term_result Tables :=
  rows ← try_fold finalize_log_in (tb_requests t) (take 256 (recoverable share_id entitlement_id t));
  Ok (t <| tb_requests := rows |>).
Definition key_order (a b : (Z * Z) * Z) : Prop := a.1.1 < b.1.1 ∨ (a.1.1 = b.1.1 ∧ a.1.2 ≤ b.1.2).
#[global] Instance key_order_dec : RelDecision key_order.
Proof. intros a b. unfold key_order. apply _. Defined.
(** repository/server_sqlite/market_termination.rs:314-321 [receipt_in] *)
Definition usage_windows (m : gmap (Z * Z) Z) : list UsageWindow :=
  (λ e, mk_usage_window e.1.1 e.1.2 (pretty e.2)) <$> merge_sort key_order (map_to_list m).
(** repository/server_sqlite/market_termination.rs:150-159 [receipt_in]: a saved receipt belongs to this termination *)
Definition receipt_matches (r : TerminationReceipt) (fence : TerminationFence) (share_id : string) (op : ShareManagedGrantOperation) : bool :=
  str_eqb (tr_termination_id r) (termination_id fence) && str_eqb (tr_entitlement_id r) (op_entitlement_id op)
  && str_eqb (tr_share_id r) share_id && eq_ignore_ascii_case (tr_email r) (op_email op)
  && (tr_cutoff_at_ms r =? cutoff_at_ms fence) && (tr_period_start_ms r =? period_start_ms fence)
  && (tr_period_end_ms r =? period_end_ms fence).
(** repository/server_sqlite/market_termination.rs:181-191 [receipt_in]: nothing of the entitlement is active *)
Definition entitlement_over (share : Share) (entitlement_id : string) : bool :=
  negb (from_option ent_active false (market_entitlements share !! entitlement_id))
  && negb (existsb (λ g, gr_active g && bool_decide (gr_entitlement_id g = Some entitlement_id)) (btree_values (user_grants share))).
(** [CAST(value AS INTEGER)] of the text the archive was created with. *)
Definition archive_since (t : Tables) : term_result Z :=
  raw ← ok_or (Said "Query returned no rows") (meta (tb_value t) !! "market_settlement_since_ms");
  match parse_i64 raw with Ok v => Ok v | Err e => Err (ValueFault e) end.
(** repository/server_sqlite/market_termination.rs:162-328 [receipt_in]: the receipt of an operation that has none *)
Definition new_receipt (share_id : string) (op : ShareManagedGrantOperation) (fence : TerminationFence) (now : Z) (t : Tables)
    : term_result (Tables * TerminationReceipt) :=
  since ← archive_since t;
  _ ← fail_if (negb ((since <=? period_start_ms fence) && (period_start_ms fence <=? cutoff_at_ms fence)
                     && (cutoff_at_ms fence <=? period_end_ms fence))) (Said "Market settlement archive does not cover period");
  share ← ok_or (Said "MARKET_TERMINATION_PENDING: original Share unavailable") (tb_shares t !! share_id);
  _ ← fail_if (negb (entitlement_over share (op_entitlement_id op))) (Said "MARKET_TERMINATION_PENDING: original entitlement remains active");
  t ← recover_final share_id (op_entitlement_id op) t;
  s ← try_fold (tally_request (tb_value t) op fence share_id) (mk_tally (tb_requests t) 0 ∅)
        (entitlement_rows share_id (op_entitlement_id op) (tb_requests t));
  let receipt := mk_termination (termination_id fence) (op_entitlement_id op) share_id (op_email op) (op_operation_id op)
    (cutoff_at_ms fence) (period_start_ms fence) (period_end_ms fence) now since (pretty (tl_before s)) (usage_windows (tl_windows s)) in
  Ok (t <| tb_requests := tl_rows s |> <| tb_receipts ::= <[op_operation_id op := receipt]> |>, receipt).
(** repository/server_sqlite/market_termination.rs:123-328 [receipt_in] *)
Definition receipt_in (share_id : string) (op : ShareManagedGrantOperation) (now : Z) (t : Tables) : term_result (Tables * TerminationReceipt) :=
  fence ← ok_or (Said "missing Market termination fence") (op_termination op);
  _ ← fail_if (now <? cutoff_at_ms fence) (Said "MARKET_TERMINATION_PENDING: waiting for the cutoff clock");
  _ ← fail_if (negb (bool_decide (op_action op = Revoke))) (Said "Market receipt requires Revoke");
  match tb_receipts t !! op_operation_id op with
  | Some receipt =>
      _ ← fail_if (negb (receipt_matches receipt fence share_id op)) (Said "Market receipt identity conflict");
      Ok (t, receipt)
  | None => new_receipt share_id op fence now t
  end.
End receipt.

(** ** The outbox of acknowledgements ([market_termination/ack.rs]) *)
(** repository/server_sqlite/market_termination_schema.sql:29-38 [market_settlement_ack_outbox], a row of the table; the payload
    as its text *)
Record AckRow := mk_ack {
  ak_router_api_base : string; ak_installation_id : string; ak_share_id : string; ak_termination_id : string;
  ak_payload_json : string; ak_queued_at_ms : Z; ak_last_attempt_at_ms : Z;
}.
#[global] Instance ack_eta : Eta AckRow := λ a,
  mk_ack (ak_router_api_base a) (ak_installation_id a) (ak_share_id a) (ak_termination_id a) (ak_payload_json a) (ak_queued_at_ms a)
    (ak_last_attempt_at_ms a).
#[global] Instance UsageWindow_eq_dec : EqDecision UsageWindow.
Proof. solve_decision. Defined.
#[global] Instance TerminationReceipt_eq_dec : EqDecision TerminationReceipt.
Proof. solve_decision. Defined.
Notation ack_outbox := (gmap string AckRow).
Section outbox.
(** The decoder of a receipt, and the printer and parser of documents. *)
Context (receipt_from_value : value → option TerminationReceipt) (to_string : value → string) (from_str : string → option value).

(** repository/server_sqlite/market_termination/ack.rs:21-29 [enqueue_in] *)
Definition prepared (payload : value) (receipt : TerminationReceipt) (router installation share : string) : bool :=
  from_option (str_eqb "applied") false (get "status" payload ≫= as_str)
  && from_option (λ id, negb (is_empty id)) false (get "editId" payload ≫= as_str)
  && from_option (λ r, 0 <? r) false (get "revision" payload ≫= as_i64)
  && str_eqb (tr_share_id receipt) share && negb (is_empty router) && negb (is_empty installation).
(** repository/server_sqlite/market_termination/ack.rs:11-67 [enqueue_in] *)
Definition enqueue_in (router installation share : string) (payload : value) (now : Z) (t : Tables) (outbox : ack_outbox)
    : term_result ack_outbox :=
  receipt ← ok_or (Said "receipt does not parse") (receipt_from_value (default Null (get "terminationReceipt" payload)));
  _ ← fail_if (negb (prepared payload receipt router installation share)) (Said "invalid prepared Market ACK");
  original ← ok_or (Said "Query returned no rows") (tb_receipts t !! tr_operation_id receipt);
  _ ← fail_if (negb (bool_decide (original = receipt))) (Said "prepared Market ACK does not match final usage receipt");
  let row := mk_ack (trim_end_char "/" router) installation share (tr_termination_id receipt) (to_string payload) now now in
  let stored := default row (outbox !! tr_operation_id receipt) in
  _ ← fail_if (negb (str_eqb (ak_router_api_base stored) (ak_router_api_base row) && str_eqb (ak_installation_id stored) installation
                     && str_eqb (ak_share_id stored) share && str_eqb (ak_termination_id stored) (ak_termination_id row)
                     && str_eqb (ak_payload_json stored) (ak_payload_json row))) (Said "prepared Market ACK identity conflict");
  Ok (<[tr_operation_id receipt := stored]> outbox).
Definition by_attempt (a b : string * AckRow) : Prop :=
  ak_last_attempt_at_ms a.2 < ak_last_attempt_at_ms b.2 ∨ (ak_last_attempt_at_ms a.2 = ak_last_attempt_at_ms b.2 ∧ String.le a.1 b.1).
#[global] Instance by_attempt_dec : RelDecision by_attempt.
Proof. intros a b. unfold by_attempt. apply _. Defined.
(** repository/server_sqlite/market_termination/ack.rs:91-113 [pending_in]: operation, termination and payload of the 25 tried
    the longest ago *)
Definition pending_in (outbox : ack_outbox) (router installation : string) : term_result (list (string * string * value)) :=
  let rows := take 25 (merge_sort by_attempt
    (filter (λ e, ak_router_api_base e.2 = trim_end_char "/" router ∧ ak_installation_id e.2 = installation) (map_to_list outbox))) in
  try_fold (λ l '(id, a),
    payload ← ok_or (Said "payload does not parse") (from_str (ak_payload_json a)); Ok (l ++ [(id, ak_termination_id a, payload)])) [] rows.
(** repository/server_sqlite/market_termination/ack.rs:127-135 [touch_ack] *)
Definition touch_ack (operation : string) (now : Z) (outbox : ack_outbox) : ack_outbox :=
  alter (λ a, a <| ak_last_attempt_at_ms := now |>) operation outbox.
(** repository/server_sqlite/market_termination/ack.rs:137-145 [delete_ack] *)
Definition delete_ack (operation : string) (outbox : ack_outbox) : ack_outbox := delete operation outbox.
End outbox.
