(* ===== verification/TerminationProofs.v ===== *)
(** * What a termination settles

    A receipt accounts for every paid request of its entitlement that started before the cutoff, exactly once and only when
    its usage is final; once made it never changes; and an entitlement with more than 256 requests that wait to be
    recovered gets none. *)
From S2P Require Import Prelude MapSum RustStr Json ModelIdentity ValuePricing ValueTables ValueAdmission.
From S2P Require Import QuotaCycle QuotaLedger TokenPeriod Gregorian UserUsage UserGrant MarketTrials MarketGrants Termination ValueCodec.
From Stdlib Require Import ZArith Lia Ascii.

Local Open Scope Z_scope.

Section termination.
Context `{!Digest, !Serde Scope, !Serde Checkpoint, !Serde AdjustmentPayload, !Serde (list string)}.
Context `{!Serde (string * string), !Serde (Scope * string), !Serde AttemptMeta, !Serde MarketTrialAttempt}.
Context `{!Serde PricingSnapshot, !Serde ExecutionModelPrice, !Serde PendingTariff}.
Context `{!Chrono}.
Implicit Types (t : Tables) (row : SettlementRow) (rows : gmap string SettlementRow) (e : string * SettlementRow).

(** ** What is billed *)
Section bill.
Context (db : Database) (op : ShareManagedGrantOperation) (fence : TerminationFence) (share_id : string).
Notation amount := (request_amount db op fence share_id).
Definition amount_of e : Z := default 0 (to_ok (amount e.1 e.2)).
(** Paid work that started before the cutoff. *)
Definition billable row : bool := bool_decide (st_phase row = Paid) && (st_started_at_ms row <? cutoff_at_ms fence).
(** What the billable requests of the entitlement used that started at a time with [P]. *)
Definition part (P : Z → bool) e : Z := if billable e.2 && P (st_started_at_ms e.2) then amount_of e else 0.
Definition billed (P : Z → bool) (rows : gmap string SettlementRow) : Z :=
  sum_by (part P) (filter (of_entitlement share_id (op_entitlement_id op)) (map_to_list rows)).
Definition before_period (started : Z) : bool := started <? period_start_ms fence.
Definition in_period (started : Z) : bool := (period_start_ms fence <=? started) && (started <? period_end_ms fence).
Definition in_window (key : Z * Z) (started : Z) : bool :=
  in_period started && bool_decide (to_ok (window_key fence started) = Some key).

(** ** The loop *)
(** A row without the value the loop writes back. *)
Definition unpriced row : SettlementRow := row <| st_value_picos := "" |>.
Definition window_used (m : gmap (Z * Z) Z) (key : Z * Z) : Z := default 0 (m !! key).
Record tally_ok (done : list (string * SettlementRow)) (rows : gmap string SettlementRow) (s : tally) : Prop := {
  to_final : ∀ e, e ∈ done → st_final_state e.2 = FFinal;
  to_amount : ∀ e, e ∈ done → billable e.2 = true → amount e.1 e.2 = Ok (amount_of e) ∧ 0 ≤ amount_of e;
  to_before : tl_before s = sum_by (part before_period) done;
  to_windows : ∀ key, window_used (tl_windows s) key = sum_by (part (in_window key)) done;
  to_total : map_sum id (tl_windows s) = sum_by (part in_period) done;
  to_nonneg : ∀ key used, tl_windows s !! key = Some used → 0 ≤ used;
  to_rows : unpriced <$> tl_rows s = unpriced <$> rows;
}.
Lemma part_nonneg P done : (∀ e, e ∈ done → billable e.2 = true → amount e.1 e.2 = Ok (amount_of e) ∧ 0 ≤ amount_of e) →
  0 ≤ sum_by (part P) done.
Proof.
  intros Ha. apply sum_by_nonneg. intros e He. unfold part. destruct (billable e.2) eqn:Hb; [|done]. cbn [andb].
  destruct (P _); [|done]. by apply Ha.
Qed.
Lemma request_amount_nonneg id row v : amount id row = Ok v → 0 ≤ v.
Proof.
  unfold request_amount. intros (a & _ & Hneg)%bind_Ok. apply bind_Ok in Hneg as ([] & Hneg%fail_if_Ok%Z.ltb_ge & [= ->]). done.
Qed.
Lemma sum_cons (P : Z → bool) e done : sum_by (part P) (e :: done) = part P e + sum_by (part P) done.
Proof. done. Qed.
Lemma sum_snoc (P : Z → bool) done e : sum_by (part P) (done ++ [e]) = sum_by (part P) done + part P e.
Proof. rewrite sum_by_app. cbn. lia. Qed.
Lemma priced_rows (rows rows' : gmap string SettlementRow) id row v : unpriced <$> rows' = unpriced <$> rows → rows !! id = Some row →
  unpriced <$> <[id := row <| st_value_picos := v |>]> rows' = unpriced <$> rows.
Proof.
  intros Heq Hid. rewrite fmap_insert, Heq. apply insert_id. rewrite lookup_fmap, Hid. done.
Qed.
Lemma tally_step done rows s e s' : tally_ok done rows s → rows !! e.1 = Some e.2 → tally_request db op fence share_id s e = Ok s' →
  tally_ok (done ++ [e]) rows s'.
Proof.
  intros [Hfinal Hamount Hbefore Hwindows Htotal Hnonneg Hrows] Hid Hs. destruct e as [id row]. cbn [fst snd] in *. unfold tally_request in Hs.
  apply bind_Ok in Hs as ([] & _ & Hs). apply bind_Ok in Hs as ([] & Hf%fail_if_Ok%negb_false_iff%bool_decide_eq_true & Hs).
  assert (∀ e, e ∈ done ++ [(id, row)] → st_final_state e.2 = FFinal) as Hfinal'.
  { intros e [He|[->|[]%elem_of_nil]%elem_of_cons]%elem_of_app; [by apply Hfinal|done]. }
  destruct (negb (bool_decide (st_phase row = Paid)) || _) eqn:Hskip.
  - injection Hs as <-. assert (billable row = false) as Hb.
    { unfold billable. destruct (bool_decide _); [|done]. cbn in *. apply Z.leb_le in Hskip. apply Z.ltb_ge. lia. }
    assert (∀ P, part P (id, row) = 0) as Hzero by (intros P; unfold part; cbn [snd]; by rewrite Hb).
    split; try done; try (intros; rewrite sum_snoc, Hzero, Z.add_0_r; done).
    intros e [He|[->|[]%elem_of_nil]%elem_of_cons]%elem_of_app; [by apply Hamount|cbn [snd]; congruence].
  - apply orb_false_iff in Hskip as [Hpaid%negb_false_iff Hcut]. apply Z.leb_gt in Hcut. assert (billable row = true) as Hb.
    { unfold billable. rewrite Hpaid. by apply Z.ltb_lt. }
    apply bind_Ok in Hs as (v & Hv & Hs). pose proof (request_amount_nonneg _ _ _ Hv) as Hv0.
    assert (amount_of (id, row) = v) as Ham by (unfold amount_of; cbn [fst snd]; by rewrite Hv).
    assert (∀ e, e ∈ done ++ [(id, row)] → billable e.2 = true → amount e.1 e.2 = Ok (amount_of e) ∧ 0 ≤ amount_of e) as Hamount'.
    { intros e [He|[->|[]%elem_of_nil]%elem_of_cons]%elem_of_app; [by apply Hamount|]. rewrite Ham. done. }
    assert (∀ P, part P (id, row) = if P (st_started_at_ms row) then v else 0) as Hpart by (intros P; unfold part; cbn [snd]; by rewrite Hb, Ham).
    set (rows' := if bool_decide _ then _ else _) in Hs. assert (unpriced <$> rows' = unpriced <$> rows) as Hrows'.
    { unfold rows'. destruct (bool_decide (is_Some _)); [by apply priced_rows|done]. }
    clearbody rows'. destruct (st_started_at_ms row <? period_start_ms fence) eqn:Hstart.
    + apply bind_Ok in Hs as (before & Hbef%ok_or_Ok & [= <-]). apply checked_Some in Hbef as [-> _].
      assert (in_period (st_started_at_ms row) = false) as Hin by (unfold in_period; apply Z.ltb_lt in Hstart; lia).
      split; try done; cbn [tl_before tl_windows]; intros; rewrite sum_snoc, Hpart.
      * unfold before_period at 2. rewrite Hstart. lia.
      * unfold in_window at 2. rewrite Hin. cbn [andb]. rewrite Hwindows. lia.
      * rewrite Hin, Htotal. lia.
    + assert (before_period (st_started_at_ms row) = false) as Hnb by done.
      destruct (period_end_ms fence <=? st_started_at_ms row) eqn:Hend.
      * injection Hs as <-. assert (in_period (st_started_at_ms row) = false) as Hin by (unfold in_period; apply Z.leb_le in Hend; lia).
        split; try done; cbn [tl_before tl_windows]; intros; rewrite sum_snoc, Hpart.
        -- rewrite Hnb. lia.
        -- unfold in_window at 2. rewrite Hin. cbn [andb]. rewrite Hwindows. lia.
        -- rewrite Hin, Htotal. lia.
      * apply bind_Ok in Hs as (key & Hkey & Hs). apply bind_Ok in Hs as (used & Hused%ok_or_Ok & [= <-]).
        apply checked_Some in Hused as [-> _]. fold (window_used (tl_windows s) key).
        assert (in_period (st_started_at_ms row) = true) as Hin.
        { unfold in_period. apply Z.ltb_ge in Hstart. apply Z.leb_gt in Hend. lia. }
        assert (0 ≤ window_used (tl_windows s) key) as Hused0.
        { rewrite Hwindows. by apply part_nonneg. }
        split; try done; cbn [tl_before tl_windows].
        -- rewrite sum_snoc, Hpart, Hnb. lia.
        -- intros key'. rewrite sum_snoc, Hpart. unfold in_window at 2. rewrite Hin, Hkey. cbn [andb to_ok]. unfold window_used at 1.
           destruct (decide (key = key')) as [<-|Hne].
           ++ rewrite lookup_insert_eq, bool_decide_eq_true_2 by done. cbn [default]. by rewrite Hwindows.
           ++ rewrite lookup_insert_ne by done. rewrite bool_decide_eq_false_2 by congruence. rewrite <-Hwindows. unfold window_used. lia.
        -- rewrite sum_snoc, Hpart, Hin, <-Htotal, map_sum_insert. unfold window_used, Datatypes.id. destruct (tl_windows s !! key); cbn; lia.
        -- intros key' used' [[<- <-]|[_ Hl]]%lookup_insert_Some; [lia|by eapply Hnonneg].
Qed.
Lemma tally_run l done rows s s' : tally_ok done rows s → (∀ e, e ∈ l → rows !! e.1 = Some e.2) →
  try_fold (tally_request db op fence share_id) s l = Ok s' → tally_ok (done ++ l) rows s'.
Proof.
  revert done s. induction l as [|e l IH]; intros done s Hok Hl; cbn [try_fold].
  - intros [= <-]. by rewrite app_nil_r.
  - intros (s1 & Hs1 & Hs)%bind_Ok. rewrite cons_middle, app_assoc. eapply IH; [|intros e' He'; apply Hl; by right|exact Hs].
    eapply tally_step; [done|apply Hl; by left|done].
Qed.
Lemma tally_start rows : tally_ok [] rows (mk_tally rows 0 ∅).
Proof. split; try done; by intros ? ?%elem_of_nil. Qed.

(** ** What the receipt says *)
Lemma entitlement_rows_perm rows : entitlement_rows share_id (op_entitlement_id op) rows ≡ₚ
  filter (of_entitlement share_id (op_entitlement_id op)) (map_to_list rows).
Proof. apply merge_sort_Permutation. Qed.
(** Sums over rows do not see the values written back. *)
Lemma part_unpriced P id row : part P (id, unpriced row) = part P (id, row).
Proof. done. Qed.
Lemma billed_unpriced P rows rows' : unpriced <$> rows' = unpriced <$> rows → billed P rows' = billed P rows.
Proof.
  assert (∀ m, billed P m = billed P (unpriced <$> m)) as Hm; [|intros Heq; by rewrite Hm, Heq, <-Hm].
  intros m. unfold billed. rewrite map_to_list_fmap. generalize (map_to_list m) as l. induction l as [|[id row] l IH]; [done|].
  rewrite fmap_cons, !filter_cons. case_decide as Hd; case_decide as Hd'; [|by destruct Hd'|by destruct Hd|done].
  rewrite !sum_cons, IH. done.
Qed.
Lemma billed_split rows : billed (λ started, before_period started || in_period started) rows = billed before_period rows + billed in_period rows.
Proof.
  unfold billed. generalize (filter (of_entitlement share_id (op_entitlement_id op)) (map_to_list rows)) as l.
  induction l as [|e l IH]; [done|]. rewrite !sum_cons, IH. enough (part (λ started, before_period started || in_period started) e
    = part before_period e + part in_period e) by lia.
  unfold part, before_period, in_period. destruct (billable e.2); [|done]. cbn [andb].
  destruct (Z.ltb_spec (st_started_at_ms e.2) (period_start_ms fence)), (Z.leb_spec (period_start_ms fence) (st_started_at_ms e.2)); try lia; cbn; lia.
Qed.
(** The windows of a receipt are the entries of the map. *)
Lemma usage_windows_total m : (∀ key used, m !! key = Some used → 0 ≤ used) →
  sum_by (λ w, dec_value (uw_used w)) (usage_windows m) = map_sum Datatypes.id m.
Proof.
  intros Hm. unfold usage_windows, map_sum. rewrite !sum_by_fmap, merge_sort_Permutation.
  apply sum_by_ext. intros [key used] Hin%elem_of_map_to_list. apply dec_value_pretty. by eapply Hm.
Qed.
Lemma usage_windows_entry m w : w ∈ usage_windows m → ∃ used, m !! (uw_starts_at_ms w, uw_ends_at_ms w) = Some used ∧ uw_used w = pretty used.
Proof.
  unfold usage_windows. intros ([[a b] used] & -> & Hin)%list_elem_of_fmap. rewrite merge_sort_Permutation in Hin.
  apply elem_of_map_to_list in Hin. by exists used.
Qed.
(** The loop over every row of the entitlement, and what it leaves. *)
Lemma elem_of_entitlement_rows rows e :
  e ∈ entitlement_rows share_id (op_entitlement_id op) rows ↔ of_entitlement share_id (op_entitlement_id op) e ∧ rows !! e.1 = Some e.2.
Proof. rewrite entitlement_rows_perm, list_elem_of_filter. destruct e as [id row]. by rewrite elem_of_map_to_list. Qed.
Lemma tally_entitlement rows s :
  try_fold (tally_request db op fence share_id) (mk_tally rows 0 ∅) (entitlement_rows share_id (op_entitlement_id op) rows) = Ok s →
  tally_ok (entitlement_rows share_id (op_entitlement_id op) rows) rows s.
Proof. intros Hs. refine (tally_run _ [] _ _ _ (tally_start rows) _ Hs). by intros e [_ He]%elem_of_entitlement_rows. Qed.
Lemma tally_all rows s : try_fold (tally_request db op fence share_id) (mk_tally rows 0 ∅) (entitlement_rows share_id (op_entitlement_id op) rows) = Ok s →
  (∀ id row, tl_rows s !! id = Some row → of_entitlement share_id (op_entitlement_id op) (id, row) →
     st_final_state row = FFinal ∧ (billable row = true → amount id row = Ok (amount_of (id, row)))) ∧
  0 ≤ tl_before s ∧ tl_before s = billed before_period (tl_rows s) ∧
  (∀ key, window_used (tl_windows s) key = billed (in_window key) (tl_rows s)) ∧
  map_sum Datatypes.id (tl_windows s) = billed in_period (tl_rows s) ∧
  (∀ key used, tl_windows s !! key = Some used → 0 ≤ used).
Proof.
  intros Hs. destruct (tally_entitlement rows s Hs) as [Hf Ha Hb Hw Ht Hn Hr].
  assert (∀ P, sum_by (part P) (entitlement_rows share_id (op_entitlement_id op) rows) = billed P (tl_rows s)) as Hbilled.
  { intros P. rewrite entitlement_rows_perm. symmetry. by apply billed_unpriced. }
  split_and!; [|rewrite Hb; by apply part_nonneg|by rewrite Hb|intros key; by rewrite Hw|by rewrite Ht|done].
  intros id row Hid Hent. assert (unpriced <$> rows !! id = Some (unpriced row)) as Hrow by (by rewrite <-lookup_fmap, <-Hr, lookup_fmap, Hid).
  apply fmap_Some in Hrow as (row0 & Hrow0 & Heq).
  assert (∀ B (f : SettlementRow → B), (∀ r, f (unpriced r) = f r) → f row = f row0) as Hsame by (intros B f Hinv; by rewrite <-(Hinv row), Heq, Hinv).
  assert ((id, row0) ∈ entitlement_rows share_id (op_entitlement_id op) rows) as Hmem.
  { apply elem_of_entitlement_rows. split; [|done]. destruct Hent as [H1 H2]. unfold of_entitlement. cbn [snd] in *.
    by rewrite <-(Hsame _ st_share_id), <-(Hsame _ st_entitlement_id). }
  split; [rewrite (Hsame _ st_final_state) by done; exact (Hf _ Hmem)|]. intros Hbill. rewrite (Hsame _ billable) in Hbill by done.
  unfold amount_of. cbn [fst snd]. rewrite (Hsame _ (amount id)) by done. exact (proj1 (Ha _ Hmem Hbill)).
Qed.
End bill.

(** C13: a termination settles what was paid for: a new receipt is made only when the usage of every request of the
    entitlement is final and the amount of each that is billable is known; what it says was used before the period is the
    sum of those that started before it, each window holds the sum of those that started in it and in the period, and
    together they are all billable requests that started before the end of the period, each counted once. *)
Theorem receipt_accounts_for_paid_usage share_id op fence now t t' r :
  op_termination op = Some fence → tb_receipts t !! op_operation_id op = None → receipt_in share_id op now t = Ok (t', r) →
  (∀ id row, tb_requests t' !! id = Some row → st_share_id row = share_id → st_entitlement_id row = op_entitlement_id op →
     st_final_state row = FFinal ∧
     (billable fence row = true → request_amount (tb_value t) op fence share_id id row = Ok (amount_of (tb_value t) op fence share_id (id, row)))) ∧
  dec_value (tr_quota_used_before_period r) = billed (tb_value t) op fence share_id (before_period fence) (tb_requests t') ∧
  (∀ w, w ∈ tr_windows r → dec_value (uw_used w)
     = billed (tb_value t) op fence share_id (in_window fence (uw_starts_at_ms w, uw_ends_at_ms w)) (tb_requests t')) ∧
  dec_value (tr_quota_used_before_period r) + sum_by (λ w, dec_value (uw_used w)) (tr_windows r)
    = billed (tb_value t) op fence share_id (λ started, before_period fence started || in_period fence started) (tb_requests t').
Proof.
  intros Hfence Hnone Hr. unfold receipt_in in Hr. rewrite Hfence in Hr. apply bind_Ok in Hr as (fence' & [= <-] & Hr).
  apply bind_Ok in Hr as ([] & _ & Hr). apply bind_Ok in Hr as ([] & _ & Hr). rewrite Hnone in Hr. unfold new_receipt in Hr.
  apply bind_Ok in Hr as (since & _ & Hr). apply bind_Ok in Hr as ([] & _ & Hr). apply bind_Ok in Hr as (share & _ & Hr).
  apply bind_Ok in Hr as ([] & _ & Hr). apply bind_Ok in Hr as (t1 & Hrec & Hr). apply bind_Ok in Hr as (s & Hs & [= <- <-]).
  assert (tb_value t1 = tb_value t) as Hv by (unfold recover_final in Hrec; apply bind_Ok in Hrec as (rows & _ & [= <-]); done).
  rewrite Hv in Hs. destruct (tally_all _ _ _ _ _ _ Hs) as (Hfinal & Hnn & Hbef & Hwin & Htot & Hpos).
  cbn [tb_requests update tr_quota_used_before_period tr_windows].
  assert (dec_value (pretty (tl_before s)) = tl_before s) as Hdec by (by apply dec_value_pretty).
  split_and!.
  - intros id row Hid Hsh Hent. exact (Hfinal id row Hid (conj Hsh Hent)).
  - by rewrite Hdec.
  - intros w (used & Hl & ->)%usage_windows_entry. rewrite <-Hwin. unfold window_used. rewrite Hl. apply dec_value_pretty. by eapply Hpos.
  - rewrite Hdec, usage_windows_total, billed_split by done. by rewrite Hbef, Htot.
Qed.

(** ** Requests that wait to be recovered *)
Definition waits (share_id entitlement_id : string) row : Z :=
  if str_eqb (st_share_id row) share_id && str_eqb (st_entitlement_id row) entitlement_id && negb (bool_decide (st_final_state row = FFinal))
  then 1 else 0.
Definition waiting (share_id entitlement_id : string) rows : Z := map_sum (waits share_id entitlement_id) rows.
Lemma waits_range share_id entitlement_id row : 0 ≤ waits share_id entitlement_id row ≤ 1.
Proof. unfold waits. destruct (_ && _); lia. Qed.
(** A log makes at most one request final. *)
Lemma finalize_one share_id entitlement_id rows log rows' : finalize_log_in rows log = Ok rows' →
  waiting share_id entitlement_id rows ≤ waiting share_id entitlement_id rows' + 1.
Proof.
  unfold finalize_log_in. intros ([] & _ & Hrows)%bind_Ok. apply bind_Ok in Hrows as (revision & _ & [= <-]).
  destruct (rows !! log_request_id log) as [row|] eqn:Hrow; [|lia]. destruct (_ =? _); [|lia]. unfold waiting.
  rewrite map_sum_insert, Hrow. cbn [from_option]. 
  match goal with |- context [waits share_id entitlement_id ?r - _] => pose proof (waits_range share_id entitlement_id r) end.
  pose proof (waits_range share_id entitlement_id row). lia.
Qed.
Lemma finalize_many share_id entitlement_id logs rows rows' : try_fold finalize_log_in rows logs = Ok rows' →
  waiting share_id entitlement_id rows ≤ waiting share_id entitlement_id rows' + Z.of_nat (length logs).
Proof.
  revert rows. induction logs as [|log logs IH]; intros rows; cbn [try_fold]; [intros [= ->]; cbn; lia|].
  intros (rows1 & H1 & H2)%bind_Ok. pose proof (finalize_one share_id entitlement_id _ _ _ H1). specialize (IH _ H2). cbn [length]. lia.
Qed.
Lemma waiting_row share_id entitlement_id rows : 0 < waiting share_id entitlement_id rows →
  ∃ id row, rows !! id = Some row ∧ of_entitlement share_id entitlement_id (id, row) ∧ st_final_state row ≠ FFinal.
Proof.
  intros Hpos. destruct (decide (Exists (λ e, of_entitlement share_id entitlement_id e ∧ st_final_state e.2 ≠ FFinal) (map_to_list rows))) as [He|He].
  - apply Exists_exists in He as ([id row] & Hin%elem_of_map_to_list & Hent & Hf). by exists id, row.
  - exfalso. unfold waiting in Hpos. rewrite map_sum_zero in Hpos; [lia|]. intros id row Hid. unfold waits.
    destruct (str_eqb (st_share_id row) share_id) eqn:H1; [|done]. destruct (str_eqb (st_entitlement_id row) entitlement_id) eqn:H2; [|done].
    cbn [andb]. case_bool_decide as Hf; [done|]. destruct He. apply Exists_exists. exists (id, row). split; [by apply elem_of_map_to_list|].
    apply str_eqb_eq in H1, H2. by split.
Qed.

(** C14: an entitlement with more than 256 requests that are not final gets no receipt, at any time and whatever its usage
    log holds: one call recovers at most 256 of them and then fails on one of the rest, and the failure rolls back what it
    recovered, so the next call finds as many. *)
Theorem waiting_requests_block_the_receipt share_id op fence now t : op_termination op = Some fence →
  tb_receipts t !! op_operation_id op = None → 256 < waiting share_id (op_entitlement_id op) (tb_requests t) →
  ∃ error, receipt_in share_id op now t = Err error.
Proof.
  intros Hfence Hnone Hmany. destruct (receipt_in share_id op now t) as [[t' r]|error] eqn:Hr; [exfalso|by exists error].
  unfold receipt_in in Hr. rewrite Hfence in Hr. apply bind_Ok in Hr as (fence' & [= <-] & Hr).
  apply bind_Ok in Hr as ([] & _ & Hr). apply bind_Ok in Hr as ([] & _ & Hr). rewrite Hnone in Hr. unfold new_receipt in Hr.
  apply bind_Ok in Hr as (since & _ & Hr). apply bind_Ok in Hr as ([] & _ & Hr). apply bind_Ok in Hr as (share & _ & Hr).
  apply bind_Ok in Hr as ([] & _ & Hr). apply bind_Ok in Hr as (t1 & Hrec & Hr). apply bind_Ok in Hr as (s & Hs & _).
  unfold recover_final in Hrec. apply bind_Ok in Hrec as (rows & Hrows & [= <-]). cbn [tb_requests update tb_value] in Hs.
  pose proof (finalize_many share_id (op_entitlement_id op) _ _ _ Hrows) as Hleft.
  destruct (waiting_row share_id (op_entitlement_id op) rows) as (id & row & Hid & Hent & Hf).
  { rewrite length_take in Hleft. lia. }
  apply Hf. apply (to_final _ _ _ _ _ _ _ (tally_entitlement _ _ _ _ _ _ Hs) (id, row)). by apply elem_of_entitlement_rows.
Qed.

(** ** What happens to the tables *)
(** Shares are written, a log of usage is, a receipt is asked for, and the rest of the program changes the other tables. *)
Inductive term_op : Type :=
  | TArchive (shares : list Share)
  | TFinalize (log : UsageLog)
  | TReceipt (share_id : string) (op : ShareManagedGrantOperation) (now : Z)
  | TOther (shares : gmap string Share) (usage : gmap string (Z * UsageLog)) (value : Database).
Definition term_step t (o : term_op) : Tables :=
  match o with
  | TArchive shares => default t (to_ok (archive_in shares t))
  | TFinalize log => from_option (λ rows, t <| tb_requests := rows |>) t (to_ok (finalize_log_in (tb_requests t) log))
  | TReceipt share_id op now => from_option fst t (to_ok (receipt_in share_id op now t))
  | TOther shares usage value => t <| tb_shares := shares |> <| tb_usage := usage |> <| tb_value := value |>
  end.
Definition term_run : Tables → list term_op → Tables := foldl term_step.
Lemma receipt_stored share_id op now t t' r : receipt_in share_id op now t = Ok (t', r) → tb_receipts t' !! op_operation_id op = Some r ∧
  (∀ id r0, tb_receipts t !! id = Some r0 → tb_receipts t' !! id = Some r0).
Proof.
  unfold receipt_in. intros (fence & _ & Hr)%bind_Ok. apply bind_Ok in Hr as ([] & _ & Hr). apply bind_Ok in Hr as ([] & _ & Hr).
  destruct (tb_receipts t !! op_operation_id op) as [r1|] eqn:Hl.
  - by apply bind_Ok in Hr as ([] & _ & [= <- <-]).
  - unfold new_receipt in Hr. apply bind_Ok in Hr as (since & _ & Hr). apply bind_Ok in Hr as ([] & _ & Hr).
    apply bind_Ok in Hr as (share & _ & Hr). apply bind_Ok in Hr as ([] & _ & Hr). apply bind_Ok in Hr as (t1 & Hrec & Hr).
    apply bind_Ok in Hr as (s & _ & [= <- <-]). unfold recover_final in Hrec. apply bind_Ok in Hrec as (rows & _ & [= <-]).
    cbn [tb_receipts update]. split; [apply lookup_insert_eq|]. intros id r0 Hid. rewrite lookup_insert_ne; [done|]. congruence.
Qed.
Lemma step_keeps_receipt t o id r : tb_receipts t !! id = Some r → tb_receipts (term_step t o) !! id = Some r.
Proof.
  intros Hid. destruct o as [shares|log|share_id op now|shares usage value]; cbn [term_step].
  - destruct (archive_in shares t) as [t'|] eqn:Ha; [|done]. unfold archive_in in Ha. by apply bind_Ok in Ha as (rows & _ & [= <-]).
  - by destruct (finalize_log_in (tb_requests t) log).
  - destruct (receipt_in share_id op now t) as [[t' r']|] eqn:Hr; [|done]. exact (proj2 (receipt_stored _ _ _ _ _ _ Hr) id r Hid).
  - done.
Qed.
Lemma run_keeps_receipt l t id r : tb_receipts t !! id = Some r → tb_receipts (term_run t l) !! id = Some r.
Proof. revert t. induction l as [|o l IH]; intros t Hid; [done|]. apply IH. by apply step_keeps_receipt. Qed.

(** C15: a receipt is final: once an operation has its receipt, asking for it again, for whatever share and at whatever time
    and after any writes of shares, logs, other receipts and other tables, returns that very receipt and changes nothing,
    or is refused. *)
Theorem receipt_is_final share_id op now t t1 r l share_id' op' now' t2 r' : receipt_in share_id op now t = Ok (t1, r) →
  op_operation_id op' = op_operation_id op → receipt_in share_id' op' now' (term_run t1 l) = Ok (t2, r') →
  r' = r ∧ t2 = term_run t1 l.
Proof.
  intros [Hstored _]%receipt_stored Hop Hr. apply (run_keeps_receipt l) in Hstored. unfold receipt_in in Hr. rewrite Hop, Hstored in Hr.
  apply bind_Ok in Hr as (fence & _ & Hr). apply bind_Ok in Hr as ([] & _ & Hr). apply bind_Ok in Hr as ([] & _ & Hr).
  by apply bind_Ok in Hr as ([] & _ & [= <- <-]).
Qed.
End termination.

(** ** Acknowledgements *)
(** What the trigger of the table protects. *)
Definition ack_fixed (a : AckRow) : string * string * string * string * string * Z :=
  (ak_router_api_base a, ak_installation_id a, ak_share_id a, ak_termination_id a, ak_payload_json a, ak_queued_at_ms a).
(** Until it is deleted an acknowledgement keeps everything but the time it was last tried, whatever is queued or tried. *)
Theorem prepared_ack_is_kept from_value print router installation share payload now t (outbox outbox' : ack_outbox) id a :
  outbox !! id = Some a →
  enqueue_in from_value print router installation share payload now t outbox = Ok outbox' ∨ (∃ operation, outbox' = touch_ack operation now outbox) →
  ∃ a', outbox' !! id = Some a' ∧ ack_fixed a' = ack_fixed a.
Proof.
  intros Ha [Hq|[operation ->]].
  - unfold enqueue_in in Hq. apply bind_Ok in Hq as (receipt & _ & Hq). apply bind_Ok in Hq as ([] & _ & Hq).
    apply bind_Ok in Hq as (original & _ & Hq). apply bind_Ok in Hq as ([] & _ & Hq). apply bind_Ok in Hq as ([] & _ & [= <-]).
    exists a. split; [|done]. destruct (decide (tr_operation_id receipt = id)) as [<-|Hne]; [by rewrite lookup_insert_eq, Ha|by rewrite lookup_insert_ne].
  - unfold touch_ack. destruct (decide (operation = id)) as [->|Hne].
    + rewrite lookup_alter_eq, Ha. eexists. split; [reflexivity|done].
    + rewrite lookup_alter_ne by done. by exists a.
Qed.
(** Only the acknowledgement of the saved receipt is queued. *)
Theorem queued_ack_matches_receipt from_value print router installation share payload now t (outbox outbox' : ack_outbox) :
  enqueue_in from_value print router installation share payload now t outbox = Ok outbox' →
  ∃ receipt a, from_value (default Null (get "terminationReceipt" payload)) = Some receipt ∧
    tb_receipts t !! tr_operation_id receipt = Some receipt ∧ outbox' !! tr_operation_id receipt = Some a ∧
    ak_payload_json a = print payload ∧ ak_share_id a = tr_share_id receipt.
Proof.
  unfold enqueue_in. intros (receipt & Hfrom%ok_or_Ok & Hq)%bind_Ok. apply bind_Ok in Hq as ([] & Hprep%fail_if_Ok%negb_false_iff & Hq).
  apply bind_Ok in Hq as (original & Horig%ok_or_Ok & Hq).
  apply bind_Ok in Hq as ([] & Heq%fail_if_Ok%negb_false_iff%bool_decide_eq_true & Hq). subst original.
  apply bind_Ok in Hq as ([] & Hsame%fail_if_Ok%negb_false_iff & [= <-]). eexists receipt, _.
  split_and!; [done|done|apply lookup_insert_eq| |].
  - apply andb_prop in Hsame as [_ Hpay%str_eqb_eq]. exact Hpay.
  - unfold prepared in Hprep. do 2 apply andb_prop in Hprep as [Hprep _]. apply andb_prop in Hprep as [_ Hshare%str_eqb_eq].
    do 2 apply andb_prop in Hsame as [Hsame _]. apply andb_prop in Hsame as [_ Hstored%str_eqb_eq]. by rewrite Hshare.
Qed.

(** ** Witnesses *)
(** Five requests of one entitlement, archived from its share and recovered from their logs: one paid before the period, two
    in it, one of the trial and one after the cutoff. *)
Definition demo_policy : ShareUserPolicy := mk_policy None (Some 1000) None Day None None [].
Definition demo_fence : TerminationFence :=
  mk_fence "termination" (5 * TokenPeriod.DAY_MS) (2 * TokenPeriod.DAY_MS) (10 * TokenPeriod.DAY_MS) demo_policy.
Definition demo_op : ShareManagedGrantOperation :=
  mk_operation (Some demo_fence) "operation" "ent" 0 0 Revoke "u@example.com" None None None None None None None None.
Definition demo_request (phase : ShareMarketPhase) (started tokens : Z) : MarketRequestReceipt :=
  MarketTrials.mk_receipt "ent" "u@example.com" phase started tokens 1 true None "0".
Definition demo_requests : gmap string MarketRequestReceipt := {[
  "r0" := demo_request Paid (1 * TokenPeriod.DAY_MS) 5; "r1" := demo_request Paid (2 * TokenPeriod.DAY_MS + 10) 7;
  "r2" := demo_request Paid (3 * TokenPeriod.DAY_MS + 5) 11; "r3" := demo_request Trial (2 * TokenPeriod.DAY_MS) 13;
  "r4" := demo_request Paid (6 * TokenPeriod.DAY_MS) 17 ]}.
Definition demo_share : Share := MarketTrials.mk_share "share" None ∅ ∅ demo_requests ∅ 0 ∅.
Definition demo_log (id : string) (r : MarketRequestReceipt) : Z * UsageLog :=
  (1, mk_log id None UserInference None None (rc_started_at_ms r) (Some (rc_tokens r)) None None None None (Some "share")
        (Some "U@example.com") Observed 1 200).
Definition demo_tables : Tables :=
  let empty := mk_tables ∅ ∅ {["share" := demo_share]} (map_imap (λ id r, Some (demo_log id r)) demo_requests)
    (mk_db {["market_settlement_since_ms" := "0"]} ∅ ∅ ∅ ∅ ∅ ∅ ∅) in
  default empty (to_ok (archive_in [demo_share] empty)).
Definition demo_receipt : TerminationReceipt :=
  mk_termination "termination" "ent" "share" "u@example.com" "operation" (5 * TokenPeriod.DAY_MS) (2 * TokenPeriod.DAY_MS)
    (10 * TokenPeriod.DAY_MS) (6 * TokenPeriod.DAY_MS) 0 "5"
    [mk_usage_window (2 * TokenPeriod.DAY_MS) (3 * TokenPeriod.DAY_MS) "7"; mk_usage_window (3 * TokenPeriod.DAY_MS) (4 * TokenPeriod.DAY_MS) "11"].
Definition demo_after : Tables := from_option fst demo_tables (to_ok (receipt_in "share" demo_op (6 * TokenPeriod.DAY_MS) demo_tables)).
Lemma demo_settled : receipt_in "share" demo_op (6 * TokenPeriod.DAY_MS) demo_tables = Ok (demo_after, demo_receipt).
Proof. vm_compute. reflexivity. Qed.
Example receipt_accounts_for_paid_usage_witness : 5 + (7 + (11 + 0)) =
  billed (tb_value demo_tables) demo_op demo_fence "share" (λ started, before_period demo_fence started || in_period demo_fence started)
    (tb_requests demo_after).
Proof.
  destruct (receipt_accounts_for_paid_usage "share" demo_op demo_fence (6 * TokenPeriod.DAY_MS) demo_tables demo_after demo_receipt
    eq_refl eq_refl demo_settled) as (_ & _ & _ & Htotal). exact Htotal.
Defined.
Lemma demo_again : receipt_in "share" demo_op (9 * TokenPeriod.DAY_MS) (term_run demo_after [TArchive []]) = Ok (demo_after, demo_receipt).
Proof. vm_compute. reflexivity. Qed.
Example receipt_is_final_witness : demo_receipt = demo_receipt ∧ demo_after = term_run demo_after [TArchive []].
Proof.
  exact (receipt_is_final "share" demo_op (6 * TokenPeriod.DAY_MS) demo_tables demo_after demo_receipt [TArchive []] "share" demo_op
    (9 * TokenPeriod.DAY_MS) demo_after demo_receipt demo_settled eq_refl demo_again).
Defined.
(** Two hundred and fifty-seven requests that were archived after their logs had been written. *)
Definition crowded_tables : Tables :=
  let requests := list_to_map ((λ n, (pretty (Z.of_nat n), demo_request Paid (2 * TokenPeriod.DAY_MS) 1)) <$> seq 0 257) : gmap string MarketRequestReceipt in
  let share := MarketTrials.mk_share "share" None ∅ ∅ requests ∅ 0 ∅ in
  let empty := mk_tables ∅ ∅ {["share" := share]} (map_imap (λ id r, Some (demo_log id r)) requests)
    (mk_db {["market_settlement_since_ms" := "0"]} ∅ ∅ ∅ ∅ ∅ ∅ ∅) in
  default empty (to_ok (archive_in [share] empty)).
Lemma crowded_waits : 256 < waiting "share" "ent" (tb_requests crowded_tables).
Proof. vm_compute. reflexivity. Qed.
Lemma crowded_new : tb_receipts crowded_tables !! op_operation_id demo_op = None.
Proof. vm_compute. reflexivity. Qed.
Example waiting_requests_block_the_receipt_witness : ∃ error, receipt_in "share" demo_op (6 * TokenPeriod.DAY_MS) crowded_tables = Err error.
Proof. exact (waiting_requests_block_the_receipt "share" demo_op demo_fence (6 * TokenPeriod.DAY_MS) crowded_tables eq_refl crowded_new crowded_waits). Defined.
