(* ===== verification/ProviderHealth.v ===== *)
(** * Provider health ([src/domain/health.rs])

    The store of probe snapshots, one per provider, with the confirmation of transient
    failures, and the health view computed from it and from the request logs.  The clock is
    an argument; the runtime fingerprints are strings the callers pass (their hash is not
    modelled).  [record]'s [debug_assert_ne!] is compiled out of release builds, so an
    observation with status [Unknown] counts as a failure. *)
From S2P Require Import Prelude RustStr Providers.
From Stdlib Require Import ZArith Lia Ascii.
From Stdlib Require SpecFloat.

Local Open Scope Z_scope.

(** ** Data *)
(** domain/health.rs:15-15 [PROVIDER_HEALTH_SCHEMA_VERSION] *)
Definition PROVIDER_HEALTH_SCHEMA_VERSION : Z := 1.
(** domain/health.rs:16-16 [PROVIDER_HEALTH_STALE_AFTER_MS] *)
Definition PROVIDER_HEALTH_STALE_AFTER_MS : Z := 65 * 60 * 1000.
(** domain/health.rs:17-17 [PROVIDER_HEALTH_TRANSIENT_CONFIRM_AFTER_MS] *)
Definition PROVIDER_HEALTH_TRANSIENT_CONFIRM_AFTER_MS : Z := 60 * 1000.

(** domain/health.rs:20-26 [ProviderRequestOutcome] *)
Inductive ProviderRequestOutcome : Type :=
  | Success (status_code : Z)
  | Failure (status_code : Z)
  | RateLimited (status_code : Z)
  | CapacityShed (status_code : Z)
  | NetworkFailure.
(** domain/health.rs:29-35 [from_status] *)
Definition from_status (status_code : Z) : ProviderRequestOutcome :=
  if (status_code =? 429) || ((500 <=? status_code) && (status_code <=? 599))
  then Failure status_code else Success status_code.

(** domain/health.rs:40-45 [ProviderHealthStatus] *)
Inductive ProviderHealthStatus : Type := Unknown | Healthy | Degraded | Unhealthy.
#[global] Instance ProviderHealthStatus_eq_dec : EqDecision ProviderHealthStatus.
Proof. solve_decision. Defined.
(** domain/health.rs:48-50 [is_success] *)
Definition is_success (s : ProviderHealthStatus) : bool :=
  match s with Healthy | Degraded => true | Unknown | Unhealthy => false end.

(** domain/health.rs:55-58 [ProviderProbeSupport] *)
Inductive ProviderProbeSupport : Type := Supported | Unsupported.
#[global] Instance ProviderProbeSupport_eq_dec : EqDecision ProviderProbeSupport.
Proof. solve_decision. Defined.

(** domain/health.rs:61-76 [ProviderHealthObservation] *)
Record ProviderHealthObservation := mk_observation {
  ob_app : AppKind;
  ob_provider_id : string;
  ob_provider_revision : Z;
  ob_runtime_fingerprint : string;
  ob_status : ProviderHealthStatus;
  ob_checked_at_ms : Z;
  ob_source : string;
  ob_status_code : option Z;
  ob_latency_ms : option Z;
  ob_model : option string;
  ob_error_category : option string;
  ob_error_message : option string;
  ob_transient_failure : bool;
}.

(** domain/health.rs:79-107 [ProviderHealthSnapshot] *)
Record ProviderHealthSnapshot := mk_snapshot {
  sn_app : AppKind;
  sn_provider_id : string;
  sn_provider_revision : Z;
  sn_runtime_fingerprint : string;
  sn_status : ProviderHealthStatus;
  sn_checked_at_ms : Z;
  sn_stale_at_ms : Z;
  sn_source : string;
  sn_status_code : option Z;
  sn_latency_ms : option Z;
  sn_model : option string;
  sn_error_category : option string;
  sn_error_message : option string;
  sn_consecutive_successes : Z;
  sn_consecutive_failures : Z;
  sn_effective_available : bool;
  sn_confirmation_pending : bool;
}.

(** domain/health.rs:111-116 [ProviderHealthStore] *)
Record ProviderHealthStore := mk_store {
  hs_schema_version : Z;
  hs_snapshots : gmap string ProviderHealthSnapshot;
}.
(** domain/health.rs:119-124 [default] *)
Definition store_default : ProviderHealthStore := mk_store PROVIDER_HEALTH_SCHEMA_VERSION ∅.

(** domain/health.rs:439-441 [provider_health_key] *)
Definition provider_health_key (app : AppKind) (provider_id : string) : string :=
  app_as_str app +:+ ":" +:+ provider_id.

(** ** The store *)
(** domain/health.rs:163-174 [record]: the failed probe is repeated before the confirmation window *)
Definition unconfirmed_retry (existing : ProviderHealthSnapshot) (o : ProviderHealthObservation) : bool :=
  negb (is_success (ob_status o))
  && ob_transient_failure o
  && sn_confirmation_pending existing
  && bool_decide (sn_provider_revision existing = ob_provider_revision o)
  && bool_decide (sn_runtime_fingerprint existing = ob_runtime_fingerprint o)
  && (ob_checked_at_ms o <? sn_stale_at_ms existing)
  && (ob_checked_at_ms o <?
      sat_u128 (sn_checked_at_ms existing + PROVIDER_HEALTH_TRANSIENT_CONFIRM_AFTER_MS)).

(** domain/health.rs:180-184 [record]: the snapshot that continues into the observation *)
Definition continues (snapshot : ProviderHealthSnapshot) (o : ProviderHealthObservation) : bool :=
  bool_decide (sn_provider_revision snapshot = ob_provider_revision o)
  && bool_decide (sn_runtime_fingerprint snapshot = ob_runtime_fingerprint o)
  && (ob_checked_at_ms o <? sn_stale_at_ms snapshot).

(** domain/health.rs:185-238 [record]: the snapshot an accepted observation leaves *)
Definition next_snapshot (previous : option ProviderHealthSnapshot)
    (o : ProviderHealthObservation) : ProviderHealthSnapshot :=
  let successful := is_success (ob_status o) in
  let consecutive_successes :=
    if successful then sat_u32 (from_option sn_consecutive_successes 0 previous + 1) else 0 in
  let consecutive_failures :=
    if successful then 0 else sat_u32 (from_option sn_consecutive_failures 0 previous + 1) in
  let confirmation_pending :=
    negb successful && ob_transient_failure o && (consecutive_failures <? 2) in
  let effective_available :=
    if successful then true
    else if negb (ob_transient_failure o) || (2 <=? consecutive_failures) then false
    else from_option sn_effective_available true previous in
  mk_snapshot (ob_app o) (ob_provider_id o) (ob_provider_revision o) (ob_runtime_fingerprint o)
    (ob_status o) (ob_checked_at_ms o)
    (sat_u128 (ob_checked_at_ms o + PROVIDER_HEALTH_STALE_AFTER_MS))
    (ob_source o) (ob_status_code o) (ob_latency_ms o) (ob_model o) (ob_error_category o)
    (ob_error_message o) consecutive_successes consecutive_failures effective_available
    confirmation_pending.

(** domain/health.rs:158-242 [record] *)
Definition record (store : ProviderHealthStore) (o : ProviderHealthObservation) :
    ProviderHealthStore * ProviderHealthSnapshot :=
  let key := provider_health_key (ob_app o) (ob_provider_id o) in
  let accept previous :=
    let snapshot := next_snapshot previous o in
    (mk_store (hs_schema_version store) (<[key := snapshot]> (hs_snapshots store)), snapshot) in
  match hs_snapshots store !! key with
  | None => accept None
  | Some existing =>
      if ob_checked_at_ms o <? sn_checked_at_ms existing then (store, existing)
      else if unconfirmed_retry existing o then (store, existing)
      else accept (if continues existing o then Some existing else None)
  end.

(** domain/health.rs:244-246 [get] *)
Definition get (store : ProviderHealthStore) (app : AppKind) (provider_id : string) :
    option ProviderHealthSnapshot :=
  hs_snapshots store !! provider_health_key app provider_id.

(** domain/providers/store.rs:79-86 [StoredProvider], the fields read here *)
Record StoredProvider := mk_provider {
  sp_app : AppKind; sp_id : string; sp_revision : Z;
}.

(** domain/health.rs:248-256 [retain_providers] *)
Definition retain_providers (store : ProviderHealthStore) (providers : list StoredProvider) :
    ProviderHealthStore * bool :=
  let kept := filter (λ e : string * ProviderHealthSnapshot,
    existsb (λ p, bool_decide (sp_app p = sn_app e.2) && bool_decide (sp_id p = sn_provider_id e.2))
      providers = true) (hs_snapshots store) in
  (mk_store (hs_schema_version store) kept,
   negb (Nat.eqb (size (hs_snapshots store)) (size kept))).

(** ** The view *)
(** domain/usage/store.rs:244-411 [UsageLog], the fields the health view reads *)
Record RequestLog := mk_request_log {
  rl_app : AppKind;
  rl_provider_id : string;
  rl_status_code : Z;
  rl_duration_ms : Z;
  rl_created_at_ms : Z;
  rl_is_health_check : bool;
}.

(** domain/health.rs:261-285 [ProviderHealth] *)
Record ProviderHealth := mk_health {
  ph_provider_id : string;
  ph_app : AppKind;
  ph_requests : Z;
  ph_successes : Z;
  ph_failures : Z;
  ph_success_rate : option SpecFloat.spec_float;
  ph_avg_latency_ms : option SpecFloat.spec_float;
  ph_last_status_code : option Z;
  ph_last_request_at_ms : option Z;
  ph_healthy : bool;
  ph_available : bool;
  ph_status : ProviderHealthStatus;
  ph_probe_support : ProviderProbeSupport;
  ph_checked_at_ms : option Z;
  ph_stale_at_ms : option Z;
  ph_source : option string;
  ph_probe_latency_ms : option Z;
  ph_model : option string;
  ph_error_category : option string;
  ph_consecutive_successes : Z;
  ph_consecutive_failures : Z;
  ph_confirmation_pending : bool;
  ph_reason : option string;
}.

(** [n as f64] and [/] on [f64]: IEEE 754 binary64, round to nearest, ties to even. *)
Definition as_f64 (n : Z) : SpecFloat.spec_float := SpecFloat.binary_normalize 53 1024 n 0 false.
Definition f64_div : SpecFloat.spec_float → SpecFloat.spec_float → SpecFloat.spec_float := SpecFloat.SFdiv 53 1024.

(** domain/health.rs:353-357 [health_from_logs]: the counters of the loop *)
Record LogTotals := mk_totals {
  lt_requests : Z; lt_successes : Z; lt_failures : Z; lt_latency_total : Z;
  lt_last_request_at_ms : option Z;
}.
(** domain/health.rs:359-370 [health_from_logs]: one iteration *)
Definition count_log (t : LogTotals) (log : RequestLog) : LogTotals :=
  let ok := (200 <=? rl_status_code log) && (rl_status_code log <? 400) in
  mk_totals (sat_u64 (lt_requests t + 1))
    (if ok then sat_u64 (lt_successes t + 1) else lt_successes t)
    (if ok then lt_failures t else sat_u64 (lt_failures t + 1))
    (sat_u128 (lt_latency_total t + rl_duration_ms log))
    (if from_option (λ value, value <=? rl_created_at_ms log) true (lt_last_request_at_ms t)
     then Some (rl_created_at_ms log) else lt_last_request_at_ms t).
Definition count_logs (logs : list RequestLog) : LogTotals :=
  foldl count_log (mk_totals 0 0 0 0 None) logs.

(** domain/health.rs:373-381 [health_from_logs]: the snapshot the view may use *)
Definition is_current (provider : StoredProvider) (probe_support : ProviderProbeSupport)
    (runtime_fingerprint : option string) (now : Z) (snapshot : ProviderHealthSnapshot) : bool :=
  bool_decide (probe_support = Supported)
  && bool_decide (sn_provider_revision snapshot = sp_revision provider)
  && from_option (λ f, bool_decide (sn_runtime_fingerprint snapshot = f)) true runtime_fingerprint
  && (sn_checked_at_ms snapshot <=? now)
  && (now <? sn_stale_at_ms snapshot).
Definition current_snapshot provider probe_support runtime_fingerprint now
    (snapshot : option ProviderHealthSnapshot) : option ProviderHealthSnapshot :=
  match snapshot with
  | Some s => if is_current provider probe_support runtime_fingerprint now s then Some s else None
  | None => None
  end.

(** domain/health.rs:385-402 [health_from_logs]: why the view says what it says *)
Definition health_reason (provider : StoredProvider) (probe_support : ProviderProbeSupport)
    (runtime_fingerprint : option string) (snapshot current : option ProviderHealthSnapshot) :
    option string :=
  if bool_decide (probe_support = Unsupported)
  then Some "provider driver does not support model health probes"
  else match current with
  | Some s => sn_error_message s
  | None =>
      match snapshot with
      | None => Some "provider has not been health checked"
      | Some s =>
          if negb (bool_decide (sn_provider_revision s = sp_revision provider))
          then Some "provider changed since its last health check"
          else if from_option (λ f, negb (bool_decide (sn_runtime_fingerprint s = f))) false
                    runtime_fingerprint
          then Some "provider runtime changed since its last health check"
          else Some "provider health check is stale"
      end
  end.

(** domain/health.rs:345-437 [health_from_logs] *)
Definition health_from_logs (provider : StoredProvider) (logs : list RequestLog)
    (store : ProviderHealthStore) (probe_support : ProviderProbeSupport)
    (runtime_fingerprint : option string) (now : Z) : ProviderHealth :=
  let t := count_logs logs in
  let snapshot := get store (sp_app provider) (sp_id provider) in
  let current := current_snapshot provider probe_support runtime_fingerprint now snapshot in
  let status := from_option sn_status Unknown current in
  mk_health (sp_id provider) (sp_app provider)
    (lt_requests t) (lt_successes t) (lt_failures t)
    (if 0 <? lt_requests t
     then Some (f64_div (as_f64 (lt_successes t)) (as_f64 (lt_requests t))) else None)
    (if 0 <? lt_requests t
     then Some (f64_div (as_f64 (lt_latency_total t)) (as_f64 (lt_requests t))) else None)
    (current ≫= sn_status_code)
    (lt_last_request_at_ms t)
    (negb (bool_decide (status = Unhealthy)))
    (from_option sn_effective_available true current)
    status probe_support
    (sn_checked_at_ms <$> snapshot) (sn_stale_at_ms <$> snapshot) (sn_source <$> snapshot)
    (snapshot ≫= sn_latency_ms) (snapshot ≫= sn_model) (snapshot ≫= sn_error_category)
    (from_option sn_consecutive_successes 0 current)
    (from_option sn_consecutive_failures 0 current)
    (from_option sn_confirmation_pending false current)
    (health_reason provider probe_support runtime_fingerprint snapshot current).

(** domain/usage/store.rs:159-173 [UsageStore], the two fields the health view reads *)
Record UsageStore := mk_usage { us_logs : list RequestLog; us_provider_health : ProviderHealthStore }.

(** domain/health.rs:325-343 [provider_health_with_runtime] *)
Definition provider_health_with_runtime (provider : StoredProvider) (usage : UsageStore)
    (probe_support : ProviderProbeSupport) (runtime_fingerprint : option string) (now_ms : Z) :
    ProviderHealth :=
  let logs := List.filter (λ log, negb (rl_is_health_check log)
    && bool_decide (rl_provider_id log = sp_id provider)
    && bool_decide (rl_app log = sp_app provider)) (us_logs usage) in
  health_from_logs provider logs (us_provider_health usage) probe_support runtime_fingerprint now_ms.

(** domain/health.rs:287-289 [provider_health] *)
Definition provider_health (provider : StoredProvider) (usage : UsageStore) (now_ms : Z) :
    ProviderHealth := provider_health_with_runtime provider usage Supported None now_ms.

Section plans.
(** The registry's drivers as the pairs of their id and whether they support the test operation,
    and a runtime plan as its driver and its health fingerprint. *)
Context (drivers : list (string * bool)).

(** domain/health.rs:295-308 [provider_probe_support_for_driver] *)
Definition provider_probe_support_for_driver (driver_id : string) : ProviderProbeSupport :=
  match List.find (λ d : string * bool, bool_decide (d.1 = driver_id)) drivers with
  | Some d => if d.2 then Supported else Unsupported
  | None => Unsupported
  end.
(** domain/health.rs:291-293 [provider_probe_support] *)
Definition provider_probe_support (plan : string * string) : ProviderProbeSupport :=
  provider_probe_support_for_driver plan.1.
(** domain/health.rs:310-323 [provider_health_for_plan] *)
Definition provider_health_for_plan (provider : StoredProvider) (usage : UsageStore)
    (plan : option (string * string)) (now_ms : Z) : ProviderHealth :=
  provider_health_with_runtime provider usage
    (from_option provider_probe_support Supported plan) (snd <$> plan) now_ms.
End plans.

(** The store after a sequence of observations, from the empty store. *)
Definition record_all (obs : list ProviderHealthObservation) : ProviderHealthStore :=
  foldl (λ s o, (record s o).1) store_default obs.

(** ** Histories *)
Section provider_history.
Context (app : AppKind) (id : string).
Implicit Types (o x y : ProviderHealthObservation) (obs : list ProviderHealthObservation)
  (s : ProviderHealthSnapshot).

Definition concerns o : Prop := ob_app o = app ∧ ob_provider_id o = id.
Definition failing o : Prop := is_success (ob_status o) = false.
Definition same_runtime o s : Prop :=
  ob_provider_revision o = sn_provider_revision s ∧
  ob_runtime_fingerprint o = sn_runtime_fingerprint s.
(** Milliseconds since 1970 are far from the width of [u128]. *)
Definition dated o : Prop :=
  0 ≤ ob_checked_at_ms o ≤ U128_MAX - PROVIDER_HEALTH_STALE_AFTER_MS.

(** Every later success of the provider was already overtaken by a newer observation when
    it arrived: the failure [o] starts a streak that lasts to the end of the history. *)
Definition unbroken_since obs o : Prop := ∃ l1 l2, obs = l1 ++ o :: l2 ∧
  ∀ a x b, l2 = a ++ x :: b → concerns x → ¬ failing x →
    ∃ y, y ∈ l1 ++ o :: a ∧ concerns y ∧ ob_checked_at_ms x < ob_checked_at_ms y.

(** A failing streak is confirmed when it starts with a terminal failure, or when a second
    failure of the same runtime follows a minute or more after the first, which is still
    fresh. *)
Definition confirmed obs s : Prop := ∃ o1, unbroken_since obs o1 ∧ concerns o1 ∧ failing o1 ∧
  same_runtime o1 s ∧ ob_checked_at_ms o1 ≤ sn_checked_at_ms s ∧
  (ob_transient_failure o1 = false ∨
   ∃ o2, o2 ∈ obs ∧ concerns o2 ∧ failing o2 ∧ same_runtime o2 s ∧
     ob_checked_at_ms o1 + PROVIDER_HEALTH_TRANSIENT_CONFIRM_AFTER_MS ≤ ob_checked_at_ms o2 ∧
     ob_checked_at_ms o2 < ob_checked_at_ms o1 + PROVIDER_HEALTH_STALE_AFTER_MS ∧
     ob_checked_at_ms o2 ≤ sn_checked_at_ms s).

(** What the stored snapshot says about the history. *)
Record Explained obs s : Prop := {
  ex_source : ∃ o, o ∈ obs ∧ concerns o ∧ same_runtime o s ∧
    ob_status o = sn_status s ∧ ob_checked_at_ms o = sn_checked_at_ms s ∧
    sn_stale_at_ms s = ob_checked_at_ms o + PROVIDER_HEALTH_STALE_AFTER_MS;
  ex_success : is_success (sn_status s) = true →
    sn_consecutive_failures s = 0 ∧ sn_effective_available s = true ∧
    sn_confirmation_pending s = false;
  ex_failures : is_success (sn_status s) = false → 1 ≤ sn_consecutive_failures s ≤ U32_MAX;
  ex_available : sn_effective_available s =
    is_success (sn_status s) || sn_confirmation_pending s;
  ex_pending : sn_confirmation_pending s = true → ∃ o1, unbroken_since obs o1 ∧ concerns o1 ∧
    failing o1 ∧ same_runtime o1 s ∧ ob_checked_at_ms o1 = sn_checked_at_ms s;
  ex_confirmed : sn_effective_available s = false → confirmed obs s;
}.
End provider_history.

Lemma provider_health_key_inj a a' i i' :
  provider_health_key a i = provider_health_key a' i' → a = a' ∧ i = i'.
Proof.
  intros [H ->]%(joined_inj ":"%char); [|apply app_no_colon..]. split; [by apply app_as_str_inj|done].
Qed.

Section explained.
Context (app : AppKind) (id : string).
Implicit Types (o : ProviderHealthObservation) (obs : list ProviderHealthObservation)
  (s : ProviderHealthSnapshot).

Lemma unbroken_snoc obs o1 o : unbroken_since app id obs o1 →
  (concerns app id o → ¬ failing o →
   ∃ y, y ∈ obs ∧ concerns app id y ∧ ob_checked_at_ms o < ob_checked_at_ms y) →
  unbroken_since app id (obs ++ [o]) o1.
Proof.
  intros (l1 & l2 & -> & Hl) Ho. exists l1, (l2 ++ [o]). split; [by rewrite <-app_assoc|].
  intros a x b Hab Hx Hf. destruct b as [|z b _] using rev_ind.
  - apply app_inj_2 in Hab as [-> [= ->]]; [|done]. by apply Ho.
  - rewrite app_comm_cons, app_assoc in Hab. apply app_inj_2 in Hab as [-> [= ->]]; [|done].
    by apply (Hl a x b).
Qed.
Lemma unbroken_last obs o : unbroken_since app id (obs ++ [o]) o.
Proof. exists obs, []. split; [done|]. intros [] x b Hab; discriminate. Qed.

(** A history extended by an observation that leaves the snapshot alone. *)
Lemma explained_snoc obs s o : Explained app id obs s →
  (concerns app id o → ¬ failing o → ob_checked_at_ms o < sn_checked_at_ms s) →
  Explained app id (obs ++ [o]) s.
Proof.
  intros [Hs Hsu Hf Ha Hp Hc] Ho.
  assert (∀ o1, unbroken_since app id obs o1 → unbroken_since app id (obs ++ [o]) o1) as Hu.
  { intros o1 Hu. apply unbroken_snoc; [done|]. intros Hco Hfo.
    destruct Hs as (y & Hy & Hcy & _ & _ & Ht & _). exists y. rewrite Ht. eauto. }
  constructor; [|done..| |].
  - destruct Hs as (y & Hy & Hrest). exists y. split; [set_solver|done].
  - intros E. destruct (Hp E) as (o1 & Hu1 & Hr). exists o1. eauto.
  - intros E. destruct (Hc E) as (o1 & Hu1 & Hco & Hfo & Hr & Ht & Hd). exists o1.
    split; [eauto|]. split; [done|]. split; [done|]. split; [done|]. split; [done|].
    destruct Hd as [?|(o2 & Ho2 & Hrest)]; [by left|right]. exists o2. split; [set_solver|done].
Qed.
End explained.

Lemma continues_spec s o : continues s o = true ↔
  same_runtime o s ∧ ob_checked_at_ms o < sn_stale_at_ms s.
Proof.
  unfold continues, same_runtime. rewrite <-Z.ltb_lt.
  repeat case_bool_decide; destruct (_ <? _); naive_solver.
Qed.
Lemma retry_refused s o : unconfirmed_retry s o = false →
  is_success (ob_status o) = false → ob_transient_failure o = true →
  sn_confirmation_pending s = true → continues s o = true →
  sat_u128 (sn_checked_at_ms s + PROVIDER_HEALTH_TRANSIENT_CONFIRM_AFTER_MS) ≤ ob_checked_at_ms o.
Proof.
  unfold unconfirmed_retry, continues. intros H Ho Ht Hp Hc. rewrite Ho, Ht, Hp in H.
  apply andb_true_iff in Hc as [[E1 E2]%andb_true_iff E3]. rewrite E1, E2, E3 in H.
  by apply Z.ltb_ge in H.
Qed.

(** A second failure that continues an unhealthy snapshot confirms the streak. *)
Lemma confirmed_next app id obs s o : Explained app id obs s → concerns app id o → dated o →
  is_success (ob_status o) = false → ob_transient_failure o = true →
  sn_consecutive_failures s ≠ 0 → continues s o = true →
  sn_checked_at_ms s ≤ ob_checked_at_ms o → unconfirmed_retry s o = false →
  confirmed app id (obs ++ [o]) (next_snapshot (Some s) o).
Proof.
  intros [Hsrc Hsu _ Hav Hpe Hco] Hc Hd Ho Ht Hn Hcont Hle Hretry.
  assert (∀ o1, unbroken_since app id obs o1 → unbroken_since app id (obs ++ [o]) o1) as Hu.
  { intros o1 Hu. apply unbroken_snoc; [done|]. by intros _ []. }
  pose proof Hcont as [[Hr Hf] Hstale]%continues_spec.
  assert (∀ y, same_runtime y s → same_runtime y (next_snapshot (Some s) o)) as Hsr.
  { intros y [H1 H2]. split; cbn; congruence. }
  destruct (sn_confirmation_pending s) eqn:Hpend.
  - destruct (Hpe eq_refl) as (o1 & Hu1 & Hco1 & Hfo1 & Hr1 & Ht1).
    pose proof (retry_refused s o Hretry Ho Ht Hpend Hcont) as Hgap.
    destruct Hsrc as (y & _ & _ & _ & _ & Hty & Hsty). unfold dated in Hd.
    exists o1. split; [auto|]. do 3 (split; [by auto|]). split; [cbn; lia|]. right. exists o.
    split; [set_solver|]. do 3 (split; [by auto|]). rewrite Ht1 in *. rewrite Hsty, Hty in Hstale.
    split; [|split; [done|cbn; lia]].
    revert Hgap. unfold sat_u128, saturate, PROVIDER_HEALTH_TRANSIENT_CONFIRM_AFTER_MS,
      PROVIDER_HEALTH_STALE_AFTER_MS in *. lia.
  - destruct (is_success (sn_status s)) eqn:Es.
    { by destruct (Hsu eq_refl) as (? & _). }
    destruct (Hco Hav) as (o1 & Hu1 & Hco1 & Hfo1 & Hr1 & Ht1 & Hd1).
    exists o1. split; [auto|]. do 3 (split; [by auto|]). split; [cbn; lia|].
    destruct Hd1 as [?|(o2 & Ho2 & Hco2 & Hfo2 & Hr2 & Hg & Hs & Ht2)]; [by left|right].
    exists o2. split; [set_solver|]. do 5 (split; [by auto|]). cbn. lia.
Qed.

Section record.
Context (app : AppKind) (id : string).
Implicit Types (o : ProviderHealthObservation) (obs : list ProviderHealthObservation)
  (s : ProviderHealthSnapshot).

Lemma next_same_runtime prev o : same_runtime o (next_snapshot prev o).
Proof. done. Qed.
Lemma next_stale prev o : dated o →
  sn_stale_at_ms (next_snapshot prev o) = ob_checked_at_ms o + PROVIDER_HEALTH_STALE_AFTER_MS.
Proof.
  unfold dated, PROVIDER_HEALTH_STALE_AFTER_MS. intros H. cbn [next_snapshot sn_stale_at_ms].
  apply saturate_in. unfold PROVIDER_HEALTH_STALE_AFTER_MS. lia.
Qed.

(** An accepted success. *)
Lemma next_success prev o : is_success (ob_status o) = true →
  sn_consecutive_failures (next_snapshot prev o) = 0 ∧
  sn_effective_available (next_snapshot prev o) = true ∧
  sn_confirmation_pending (next_snapshot prev o) = false.
Proof. intros H. unfold next_snapshot. rewrite H. done. Qed.
(** An accepted failure: its count, and what it makes of the provider. *)
Definition failures_before (prev : option ProviderHealthSnapshot) : Z :=
  from_option sn_consecutive_failures 0 prev.
Lemma next_failure prev o : is_success (ob_status o) = false → 0 ≤ failures_before prev ≤ U32_MAX →
  let s := next_snapshot prev o in
  1 ≤ sn_consecutive_failures s ≤ U32_MAX ∧
  sn_confirmation_pending s = (ob_transient_failure o && (failures_before prev =? 0)) ∧
  sn_effective_available s =
    (ob_transient_failure o && (failures_before prev =? 0) &&
     from_option sn_effective_available true prev).
Proof.
  unfold failures_before. intros H Hn. cbn [next_snapshot sn_consecutive_failures sn_confirmation_pending
    sn_effective_available]. rewrite H. set (n := from_option _ _ _) in *.
  assert (sat_u32 (n + 1) <? 2 = (n =? 0)) as E.
  { unfold sat_u32, saturate. destruct (Z.eqb_spec n 0) as [->|]; [done|]. unfold U32_MAX in *. lia. }
  assert (2 <=? sat_u32 (n + 1) = negb (n =? 0)) as E'.
  { rewrite <-E. apply Z.leb_antisym. }
  split; [unfold sat_u32, saturate, U32_MAX in *; lia|]. rewrite E, E'.
  split; [done|]. by destruct (ob_transient_failure o), (n =? 0).
Qed.

Lemma next_explained obs o prev : concerns app id o → dated o →
  (∀ s, prev = Some s → Explained app id obs s ∧ continues s o = true ∧
     sn_checked_at_ms s ≤ ob_checked_at_ms o ∧ unconfirmed_retry s o = false) →
  Explained app id (obs ++ [o]) (next_snapshot prev o).
Proof.
  intros Hc Hd Hprev. destruct (is_success (ob_status o)) eqn:Ho.
  { destruct (next_success prev o Ho) as (Hf & Ha & Hp). constructor.
    - exists o. rewrite next_stale by done. split; [set_solver|]. done.
    - done.
    - cbn. by rewrite Ho.
    - rewrite Ha, Hp. cbn. by rewrite Ho.
    - by rewrite Hp.
    - by rewrite Ha. }
  assert (0 ≤ failures_before prev ≤ U32_MAX) as Hn.
  { unfold failures_before. destruct prev as [s|]; simpl; [|unfold U32_MAX; lia].
    destruct (Hprev s eq_refl) as ([_ Hsu Hf _ _ _] & _).
    destruct (is_success (sn_status s)); [destruct (Hsu eq_refl); unfold U32_MAX; lia|].
    specialize (Hf eq_refl). lia. }
  destruct (next_failure prev o Ho Hn) as (Hcount & Hp & Ha).
  assert (failures_before prev = 0 → from_option sn_effective_available true prev = true) as Hav.
  { unfold failures_before. destruct prev as [s|]; simpl; [|done].
    destruct (Hprev s eq_refl) as ([_ Hsu Hf _ _ _] & _).
    destruct (is_success (sn_status s)); [by destruct (Hsu eq_refl) as (_ & -> & _)|].
    specialize (Hf eq_refl). lia. }
  constructor.
  - exists o. rewrite next_stale by done. split; [set_solver|]. done.
  - cbn [next_snapshot sn_status]. by rewrite Ho.
  - done.
  - change (sn_status (next_snapshot prev o)) with (ob_status o). rewrite Ho, Ha, Hp. simpl.
    destruct (Z.eqb_spec (failures_before prev) 0) as [E|]; [|by rewrite andb_false_r].
    rewrite (Hav E). by rewrite andb_true_r.
  - intros _. exists o. split; [apply unbroken_last|]. done.
  - rewrite Ha. intros Hf. destruct (ob_transient_failure o) eqn:Ht.
    2:{ exists o. split; [apply unbroken_last|]. split; [done|]. split; [done|]. split; [done|].
        split; [cbn; lia|]. by left. }
    simpl in Hf. destruct (Z.eqb_spec (failures_before prev) 0) as [E|E].
    { rewrite (Hav E) in Hf. done. }
    unfold failures_before in E. destruct prev as [s|]; simpl in E; [|done].
    destruct (Hprev s eq_refl) as (Hex & Hcont & Hle & Hretry).
    by eapply confirmed_next.
Qed.

(** What [record] does to the provider's snapshot. *)
Definition recorded (old : option ProviderHealthSnapshot) o : ProviderHealthSnapshot :=
  match old with
  | None => next_snapshot None o
  | Some existing =>
      if ob_checked_at_ms o <? sn_checked_at_ms existing then existing
      else if unconfirmed_retry existing o then existing
      else next_snapshot (if continues existing o then Some existing else None) o
  end.
Lemma get_record store o : concerns app id o →
  get (record store o).1 app id = Some (recorded (get store app id) o).
Proof.
  intros [<- <-]. unfold record, recorded, get.
  destruct (hs_snapshots store !! _) as [e|] eqn:E; simpl; [|by rewrite lookup_insert_eq].
  destruct (_ <? _); [done|]. destruct (unconfirmed_retry _ _); [done|].
  simpl. by rewrite lookup_insert_eq.
Qed.
Lemma get_record_other store o : ¬ concerns app id o →
  get (record store o).1 app id = get store app id.
Proof.
  intros Hc. unfold record, get.
  assert (provider_health_key (ob_app o) (ob_provider_id o) ≠ provider_health_key app id) as Hk.
  { intros [??]%provider_health_key_inj. by apply Hc. }
  destruct (hs_snapshots store !! _) as [e|] eqn:E; simpl; [|by rewrite lookup_insert_ne].
  destruct (_ <? _); [done|]. destruct (unconfirmed_retry _ _); [done|].
  simpl. by rewrite lookup_insert_ne.
Qed.
#[global] Instance concerns_dec o : Decision (concerns app id o).
Proof. apply _. Defined.

Lemma record_all_snoc obs o : record_all (obs ++ [o]) = (record (record_all obs) o).1.
Proof. unfold record_all. by rewrite foldl_app. Qed.

(** After any history the stored snapshot is the one the history explains. *)
Definition tracked obs (snapshot : option ProviderHealthSnapshot) : Prop :=
  match snapshot with
  | None => ∀ o, o ∈ obs → ¬ concerns app id o
  | Some s => Explained app id obs s
  end.
Lemma recorded_tracked obs old o : tracked obs old → concerns app id o → dated o →
  tracked (obs ++ [o]) (Some (recorded old o)).
Proof.
  intros Htr Hc Hd. unfold recorded. destruct old as [s|]; simpl in *.
  2:{ by apply next_explained. }
  destruct (Z.ltb_spec (ob_checked_at_ms o) (sn_checked_at_ms s)).
  { by apply explained_snoc. }
  destruct (unconfirmed_retry s o) eqn:Hr.
  { apply explained_snoc; [done|]. intros _ Hs. exfalso. apply Hs. unfold failing.
    unfold unconfirmed_retry in Hr. by destruct (is_success (ob_status o)). }
  apply next_explained; [done..|]. intros s'. destruct (continues s o) eqn:Hco; [|done].
  by intros [= <-].
Qed.
Lemma record_all_tracked obs : Forall dated obs → tracked obs (get (record_all obs) app id).
Proof.
  induction obs as [|o obs IH] using rev_ind; intros Hd.
  { change (tracked [] None). intros o Ho. inversion Ho. }
  apply Forall_app in Hd as [Hd Ho]. rewrite Forall_singleton in Ho. rewrite record_all_snoc.
  destruct (decide (concerns app id o)) as [Hc|Hc].
  - rewrite get_record by done. apply recorded_tracked; [by apply IH|done..].
  - rewrite get_record_other by done. specialize (IH Hd).
    destruct (get (record_all obs) app id) as [s|]; simpl in *.
    + apply explained_snoc; [done|]. by intros ?.
    + intros x [Hx| ->%list_elem_of_singleton]%elem_of_app; [by apply IH|done].
Qed.
Lemma tracked_newest obs s o : tracked obs (Some s) →
  (∀ x, x ∈ obs → concerns app id x → ob_checked_at_ms x ≤ ob_checked_at_ms o) →
  sn_checked_at_ms s ≤ ob_checked_at_ms o.
Proof. intros [(y & Hy & Hc & _ & _ & <- & _) _ _ _ _ _] Ho. by apply Ho. Qed.
End record.

(** ** The view over a history *)
Lemma current_snapshot_Some provider support fp now snapshot s :
  current_snapshot provider support fp now snapshot = Some s ↔
  snapshot = Some s ∧ support = Supported ∧ sn_provider_revision s = sp_revision provider ∧
  (∀ f, fp = Some f → sn_runtime_fingerprint s = f) ∧ sn_checked_at_ms s ≤ now < sn_stale_at_ms s.
Proof.
  unfold current_snapshot. destruct snapshot as [s'|]; [|naive_solver].
  assert (is_current provider support fp now s' = true ↔
    support = Supported ∧ sn_provider_revision s' = sp_revision provider ∧
    (∀ f, fp = Some f → sn_runtime_fingerprint s' = f) ∧ sn_checked_at_ms s' ≤ now < sn_stale_at_ms s') as H.
  { unfold is_current. rewrite !andb_true_iff, !bool_decide_eq_true, Z.leb_le, Z.ltb_lt.
    destruct fp as [f|]; simpl; [rewrite bool_decide_eq_true|]; naive_solver. }
  destruct (is_current provider support fp now s') eqn:E; naive_solver.
Qed.

Section view.
Implicit Types (o : ProviderHealthObservation) (obs : list ProviderHealthObservation).
Notation concerning provider := (concerns (sp_app provider) (sp_id provider)).

(** C16: Whatever probes a provider received, in whatever order they were recorded, the health view takes it out of rotation only when its driver can be probed and the newest snapshot, less than 65 minutes old and of the provider's current revision and runtime, is confirmed: a failing streak not ended by a timely success that starts with a terminal failure, or in which a second failure followed a first, still fresh one by at least 60 seconds.  A single transient failure, a stale result or a changed provider never do. *)
Theorem unavailable_only_when_confirmed provider logs obs support fp now (Hd : Forall dated obs) :
  ph_available (health_from_logs provider logs (record_all obs) support fp now) = false →
  support = Supported ∧
  ∃ s, get (record_all obs) (sp_app provider) (sp_id provider) = Some s ∧
    sn_provider_revision s = sp_revision provider ∧
    (∀ f, fp = Some f → sn_runtime_fingerprint s = f) ∧
    now - PROVIDER_HEALTH_STALE_AFTER_MS < sn_checked_at_ms s ≤ now ∧
    confirmed (sp_app provider) (sp_id provider) obs s.
Proof.
  cbn [health_from_logs ph_available].
  destruct (current_snapshot _ _ _ _ _) as [s|] eqn:E; [|done]. simpl. intros Hs.
  apply current_snapshot_Some in E as (Hg & -> & Hrev & Hfp & Hnow). split; [done|].
  pose proof (record_all_tracked (sp_app provider) (sp_id provider) obs Hd) as Htr.
  rewrite Hg in Htr. destruct Htr as [(y & _ & _ & _ & _ & Hy & Hst) _ _ _ _ Hc].
  exists s. do 3 (split; [done|]). split; [rewrite Hst in Hnow; lia|auto].
Qed.

(** A success recovers a provider at once: recorded after any history none of whose probes of the provider is newer, it makes the view available with the success' own status, no failures counted and nothing pending, until 65 minutes later. *)
Theorem success_recovers_at_once provider logs obs o fp now (Hd : Forall dated (obs ++ [o])) :
  concerning provider o → is_success (ob_status o) = true →
  ob_provider_revision o = sp_revision provider →
  (∀ f, fp = Some f → ob_runtime_fingerprint o = f) →
  (∀ x, x ∈ obs → concerning provider x → ob_checked_at_ms x ≤ ob_checked_at_ms o) →
  ob_checked_at_ms o ≤ now < ob_checked_at_ms o + PROVIDER_HEALTH_STALE_AFTER_MS →
  let health := health_from_logs provider logs (record_all (obs ++ [o])) Supported fp now in
  ph_available health = true ∧ ph_healthy health = true ∧ ph_status health = ob_status o ∧
  ph_consecutive_failures health = 0 ∧ ph_confirmation_pending health = false.
Proof.
  intros Hc Ho Hrev Hfp Hnew Hnow. apply Forall_app in Hd as [Hd Hdo]. rewrite Forall_singleton in Hdo.
  assert (∃ prev, get (record_all (obs ++ [o])) (sp_app provider) (sp_id provider) =
    Some (next_snapshot prev o)) as [prev Hg].
  { rewrite record_all_snoc, get_record by done. unfold recorded.
    pose proof (record_all_tracked (sp_app provider) (sp_id provider) obs Hd) as Htr.
    destruct (get (record_all obs) _ _) as [s|]; [|by eexists].
    pose proof (tracked_newest _ _ _ _ o Htr Hnew) as Hle.
    destruct (Z.ltb_spec (ob_checked_at_ms o) (sn_checked_at_ms s)); [lia|].
    unfold unconfirmed_retry. rewrite Ho. simpl. by eexists. }
  cbn [health_from_logs ph_available ph_healthy ph_status ph_consecutive_failures
    ph_confirmation_pending]. rewrite Hg.
  rewrite (proj2 (current_snapshot_Some provider Supported fp now _ (next_snapshot prev o))).
  - cbn [from_option]. destruct (next_success prev o Ho) as (-> & -> & ->).
    change (sn_status (next_snapshot prev o)) with (ob_status o).
    split_and!; [done|by destruct (ob_status o)|done..].
  - rewrite next_stale by done. done.
Qed.

(** A failing snapshot of [o1]'s runtime, at most a confirmation window older than [o1]. *)
Definition failing_since o1 o2 (snapshot : option ProviderHealthSnapshot) : Prop := ∃ s,
  snapshot = Some s ∧ is_success (sn_status s) = false ∧ same_runtime o1 s ∧
  1 ≤ sn_consecutive_failures s ≤ U32_MAX ∧
  ob_checked_at_ms o1 - PROVIDER_HEALTH_TRANSIENT_CONFIRM_AFTER_MS < sn_checked_at_ms s ≤ ob_checked_at_ms o2 ∧
  (sn_confirmation_pending s = true → sn_checked_at_ms s ≤ ob_checked_at_ms o1) ∧
  sn_stale_at_ms s = sn_checked_at_ms s + PROVIDER_HEALTH_STALE_AFTER_MS.

Lemma same_runtime_continues o1 o s : same_runtime o1 s → ob_provider_revision o = ob_provider_revision o1 →
  ob_runtime_fingerprint o = ob_runtime_fingerprint o1 →
  sn_stale_at_ms s = sn_checked_at_ms s + PROVIDER_HEALTH_STALE_AFTER_MS →
  ob_checked_at_ms o < sn_checked_at_ms s + PROVIDER_HEALTH_STALE_AFTER_MS → continues s o = true.
Proof. intros [Hr Hf] H1 H2 Hs Ho. apply continues_spec. unfold same_runtime. rewrite Hs. split; [split; congruence|done]. Qed.

(** The first failure of the streak. *)
Lemma failing_since_first app id obs o1 o2 : tracked app id obs (get (record_all obs) app id) →
  concerns app id o1 → dated o1 → failing o1 → ob_checked_at_ms o1 ≤ ob_checked_at_ms o2 →
  (∀ x, x ∈ obs → concerns app id x → ob_checked_at_ms x ≤ ob_checked_at_ms o1) →
  failing_since o1 o2 (Some (recorded (get (record_all obs) app id) o1)).
Proof.
  intros Htr Hc Hd Hf Hle Hnew.
  assert (∀ prev, 0 ≤ failures_before prev ≤ U32_MAX →
    failing_since o1 o2 (Some (next_snapshot prev o1))) as Hnext.
  { intros prev Hn. eexists. split; [done|]. split; [done|]. split; [done|].
    split; [by apply next_failure|]. split; [cbn; unfold PROVIDER_HEALTH_TRANSIENT_CONFIRM_AFTER_MS; lia|].
    split; [done|]. by rewrite next_stale. }
  unfold recorded. destruct (get _ _ _) as [s|] eqn:E; [|apply Hnext; cbn; unfold U32_MAX; lia].
  pose proof (tracked_newest _ _ _ _ o1 Htr Hnew). destruct Htr as [(y & _ & _ & _ & _ & Hy & Hst) Hsu Hfs _ _ _].
  destruct (Z.ltb_spec (ob_checked_at_ms o1) (sn_checked_at_ms s)); [lia|].
  destruct (unconfirmed_retry s o1) eqn:Hr.
  - unfold unconfirmed_retry in Hr. rewrite !andb_true_iff, !bool_decide_eq_true, !Z.ltb_lt in Hr.
    destruct Hr as ((((((_ & _) & Hp) & Hrev) & Hfp) & _) & Hw).
    destruct (is_success (sn_status s)) eqn:Es.
    { destruct (Hsu eq_refl) as (_ & _ & ?). congruence. }
    exists s. split; [done|]. split; [done|]. split; [done|]. split; [by apply Hfs|].
    unfold sat_u128, saturate, dated in *. split; [lia|]. split; [done|]. lia.
  - apply Hnext. destruct (continues s o1); [|cbn; unfold U32_MAX; lia]. cbn.
    destruct (is_success (sn_status s)) eqn:Es.
    + destruct (Hsu eq_refl) as (-> & _). unfold U32_MAX. lia.
    + specialize (Hfs eq_refl). lia.
Qed.

(** Any later failure of the same runtime keeps it. *)
Lemma failing_since_next o1 o2 s o : failing_since o1 o2 (Some s) → dated o → failing o →
  ob_provider_revision o = ob_provider_revision o1 →
  ob_runtime_fingerprint o = ob_runtime_fingerprint o1 →
  ob_checked_at_ms o1 ≤ ob_checked_at_ms o ≤ ob_checked_at_ms o2 →
  ob_checked_at_ms o2 < ob_checked_at_ms o1 + PROVIDER_HEALTH_STALE_AFTER_MS - PROVIDER_HEALTH_TRANSIENT_CONFIRM_AFTER_MS →
  failing_since o1 o2 (Some (recorded (Some s) o)).
Proof.
  intros (s' & [= <-] & Hfs & Hr & Hn & Ht & Hp & Hst) Hd Hf Hrev Hfp Ho Hgap. unfold recorded.
  destruct (Z.ltb_spec (ob_checked_at_ms o) (sn_checked_at_ms s)); [by exists s|].
  destruct (unconfirmed_retry s o); [by exists s|].
  rewrite (same_runtime_continues o1) by (done || lia).
  destruct (next_failure (Some s) o Hf) as (Hn' & Hp' & _); [cbn; lia|].
  eexists. split; [done|]. split; [done|]. split; [by split; symmetry|]. split; [done|].
  split; [cbn; unfold PROVIDER_HEALTH_TRANSIENT_CONFIRM_AFTER_MS; lia|]. split; [|by rewrite next_stale].
  rewrite Hp'. cbn. destruct (Z.eqb_spec (sn_consecutive_failures s) 0); [lia|]. by rewrite andb_false_r.
Qed.

Lemma failing_since_kept app id o1 o2 mid store : failing_since o1 o2 (get store app id) →
  Forall dated mid →
  (∀ x, x ∈ mid → concerns app id x → failing x ∧ ob_provider_revision x = ob_provider_revision o1 ∧
    ob_runtime_fingerprint x = ob_runtime_fingerprint o1 ∧
    ob_checked_at_ms o1 ≤ ob_checked_at_ms x ≤ ob_checked_at_ms o2) →
  ob_checked_at_ms o2 < ob_checked_at_ms o1 + PROVIDER_HEALTH_STALE_AFTER_MS - PROVIDER_HEALTH_TRANSIENT_CONFIRM_AFTER_MS →
  failing_since o1 o2 (get (foldl (λ s o, (record s o).1) store mid) app id).
Proof.
  intros Hs Hd Hm Hgap. revert store Hs. induction mid as [|x mid IH]; intros store Hs; [done|].
  apply Forall_cons in Hd as [Hdx Hd]. simpl. apply IH; [done| |].
  { intros y Hy. apply Hm. by right. }
  destruct (decide (concerns app id x)) as [Hc|Hc]; [|by rewrite get_record_other].
  rewrite get_record by done. destruct (Hm x ltac:(left) Hc) as (Hf & Hrev & Hfp & Ht).
  destruct Hs as (s & Hg & Hs). rewrite Hg. apply failing_since_next; [by exists s|done..].
Qed.

(** C17: A failure that persists is reported: when a provider fails a probe and fails again at least 60 seconds and less than 64 minutes later, with nothing but failures of the same revision and runtime recorded for it in between (and anything for other providers), the view is unavailable and says so for 65 minutes after the second failure, whether the failures are transient or not and whatever the history before. *)
Theorem persistent_failure_is_reported provider logs obs o1 mid o2 fp now
    (Hd : Forall dated (obs ++ o1 :: mid ++ [o2])) :
  concerning provider o1 → failing o1 → concerning provider o2 →
  (∀ x, x ∈ obs → concerning provider x → ob_checked_at_ms x ≤ ob_checked_at_ms o1) →
  (∀ x, x ∈ mid ++ [o2] → concerning provider x → failing x ∧
    ob_provider_revision x = ob_provider_revision o1 ∧
    ob_runtime_fingerprint x = ob_runtime_fingerprint o1 ∧
    ob_checked_at_ms o1 ≤ ob_checked_at_ms x ≤ ob_checked_at_ms o2) →
  ob_checked_at_ms o1 + PROVIDER_HEALTH_TRANSIENT_CONFIRM_AFTER_MS ≤ ob_checked_at_ms o2 →
  ob_checked_at_ms o2 < ob_checked_at_ms o1 + PROVIDER_HEALTH_STALE_AFTER_MS - PROVIDER_HEALTH_TRANSIENT_CONFIRM_AFTER_MS →
  ob_provider_revision o2 = sp_revision provider →
  (∀ f, fp = Some f → ob_runtime_fingerprint o2 = f) →
  ob_checked_at_ms o2 ≤ now < ob_checked_at_ms o2 + PROVIDER_HEALTH_STALE_AFTER_MS →
  let health := health_from_logs provider logs (record_all (obs ++ o1 :: mid ++ [o2])) Supported fp now in
  ph_available health = false ∧ ph_confirmation_pending health = false ∧
  ph_status health = ob_status o2 ∧ 2 ≤ ph_consecutive_failures health.
Proof.
  intros Hc1 Hf1 Hc2 Hnew Hmid Hlo Hhi Hrev Hfp Hnow.
  rewrite app_comm_cons, app_assoc in Hd |- *. rewrite Forall_app, Forall_singleton in Hd.
  destruct Hd as [Hd Hd2]. rewrite Forall_app, Forall_cons in Hd. destruct Hd as (Hd & Hd1 & Hdm).
  destruct (Hmid o2 ltac:(set_solver) Hc2) as (Hf2 & Hrev2 & Hfp2 & Ht2).
  assert (failing_since o1 o2 (get (record_all (obs ++ o1 :: mid)) (sp_app provider) (sp_id provider))) as Hs.
  { rewrite (app_assoc obs [o1] mid : obs ++ o1 :: mid = (obs ++ [o1]) ++ mid).
    unfold record_all. rewrite foldl_app. fold (record_all (obs ++ [o1])).
    apply failing_since_kept; [|done| |done].
    - rewrite record_all_snoc, get_record by done.
      apply failing_since_first; [by apply record_all_tracked|done..|lia|done].
    - intros x Hx. apply Hmid. set_solver. }
  destruct Hs as (s & Hg & Hfs & Hr & Hn & Ht & Hp & Hst).
  assert (recorded (Some s) o2 = next_snapshot (Some s) o2) as Heq.
  { unfold recorded. destruct (Z.ltb_spec (ob_checked_at_ms o2) (sn_checked_at_ms s)); [lia|].
    rewrite (same_runtime_continues o1) by (done || lia).
    destruct (unconfirmed_retry s o2) eqn:E; [|done]. exfalso.
    unfold unconfirmed_retry in E. rewrite !andb_true_iff, !Z.ltb_lt in E.
    destruct E as (((((_ & Hpe) & _) & _) & _) & Hw). specialize (Hp Hpe).
    unfold sat_u128, saturate, dated in *. lia. }
  destruct (next_failure (Some s) o2 Hf2) as (Hn2 & Hp2 & Ha2); [cbn; lia|].
  cbn [failures_before from_option] in Hp2, Ha2.
  destruct (Z.eqb_spec (sn_consecutive_failures s) 0); [lia|].
  rewrite andb_false_r in Hp2, Ha2. rewrite andb_false_l in Ha2.
  cbn [health_from_logs ph_available ph_status ph_consecutive_failures ph_confirmation_pending].
  rewrite record_all_snoc, get_record, Hg, Heq by done.
  rewrite (proj2 (current_snapshot_Some provider Supported fp now _ (next_snapshot (Some s) o2))).
  - cbn [from_option]. rewrite Ha2, Hp2. split_and!; [done..|].
    cbn. rewrite Hf2. unfold sat_u32, saturate, U32_MAX in *. cbn. lia.
  - rewrite next_stale by done. done.
Qed.
End view.

(** [retain_providers] keeps exactly the snapshots of the listed providers. *)
Lemma retain_providers_get store providers app id :
  (∀ k s, hs_snapshots store !! k = Some s → k = provider_health_key (sn_app s) (sn_provider_id s)) →
  get (retain_providers store providers).1 app id =
  if bool_decide ((app, id) ∈ (λ p, (sp_app p, sp_id p)) <$> providers)
  then get store app id else None.
Proof.
  intros Hkeys. unfold get, retain_providers. cbn [fst hs_snapshots].
  destruct (hs_snapshots store !! provider_health_key app id) as [s|] eqn:E.
  2:{ rewrite (proj2 (map_lookup_filter_None _ _ _)); [by case_bool_decide|by left]. }
  pose proof (Hkeys _ _ E) as [Ha Hi]%provider_health_key_inj. case_bool_decide as Hin.
  - apply map_lookup_filter_Some. split; [done|]. apply existsb_exists.
    apply list_elem_of_fmap in Hin as (p & Hp & Hpl). exists p. split; [by apply list_elem_of_In|].
    simpl in *. injection Hp as ??. by rewrite !bool_decide_eq_true_2 by congruence.
  - apply map_lookup_filter_None. right. intros s' Hs' Hex. rewrite E in Hs'. injection Hs' as <-.
    apply Hin. apply existsb_exists in Hex as (p & Hp%list_elem_of_In & Hb).
    apply andb_true_iff in Hb as [Hb1%bool_decide_eq_true Hb2%bool_decide_eq_true].
    apply list_elem_of_fmap. exists p. simpl in *. split; [congruence|done].
Qed.

(** ** Concrete histories *)
Definition probe (status : ProviderHealthStatus) (checked_at_ms : Z) : ProviderHealthObservation :=
  mk_observation Codex "p1" 3 "runtime-1" status checked_at_ms "test" None (Some 42)
    (Some "gpt-test") None None (negb (is_success status)).
Definition codex_provider : StoredProvider := mk_provider Codex "p1" 3.

Lemma probe_dated status t : 0 ≤ t ≤ 10000000 → dated (probe status t).
Proof. unfold dated, PROVIDER_HEALTH_STALE_AFTER_MS, U128_MAX. simpl. lia. Qed.

Lemma unavailable_only_when_confirmed_witness :
  let obs := [probe Healthy 1000; probe Unhealthy 2000; probe Unhealthy 62000] in
  Supported = Supported ∧
  ∃ s, get (record_all obs) Codex "p1" = Some s ∧ sn_provider_revision s = 3 ∧
    (∀ f, Some "runtime-1" = Some f → sn_runtime_fingerprint s = f) ∧
    70000 - PROVIDER_HEALTH_STALE_AFTER_MS < sn_checked_at_ms s ≤ 70000 ∧
    confirmed Codex "p1" obs s.
Proof.
  apply (unavailable_only_when_confirmed codex_provider [] _ Supported (Some "runtime-1") 70000).
  - repeat constructor; apply probe_dated; lia.
  - vm_compute. reflexivity.
Defined.

Lemma success_recovers_at_once_witness :
  let health := health_from_logs codex_provider []
    (record_all ([probe Unhealthy 2000; probe Unhealthy 62000] ++ [probe Degraded 63000]))
    Supported (Some "runtime-1") 63001 in
  ph_available health = true ∧ ph_healthy health = true ∧ ph_status health = Degraded ∧
  ph_consecutive_failures health = 0 ∧ ph_confirmation_pending health = false.
Proof.
  apply (success_recovers_at_once codex_provider [] [probe Unhealthy 2000; probe Unhealthy 62000]
    (probe Degraded 63000) (Some "runtime-1") 63001).
  - repeat constructor; apply probe_dated; lia.
  - done.
  - reflexivity.
  - reflexivity.
  - intros f [= <-]. reflexivity.
  - intros x Hx _. repeat (apply elem_of_cons in Hx as [->|Hx]; [simpl; lia|]). inversion Hx.
  - simpl. unfold PROVIDER_HEALTH_STALE_AFTER_MS. lia.
Defined.

Lemma persistent_failure_is_reported_witness :
  let health := health_from_logs codex_provider []
    (record_all ([probe Healthy 1000] ++ probe Unhealthy 2000 :: [probe Unhealthy 30000] ++ [probe Unhealthy 62000]))
    Supported (Some "runtime-1") 70000 in
  ph_available health = false ∧ ph_confirmation_pending health = false ∧
  ph_status health = Unhealthy ∧ 2 ≤ ph_consecutive_failures health.
Proof.
  apply (persistent_failure_is_reported codex_provider [] [probe Healthy 1000]
    (probe Unhealthy 2000) [probe Unhealthy 30000] (probe Unhealthy 62000) (Some "runtime-1") 70000).
  - repeat constructor; apply probe_dated; lia.
  - done.
  - reflexivity.
  - done.
  - intros x Hx _. repeat (apply elem_of_cons in Hx as [->|Hx]; [simpl; lia|]). inversion Hx.
  - intros x Hx _. repeat (apply elem_of_cons in Hx as [->|Hx];
      [split_and!; try reflexivity; simpl; lia|]). inversion Hx.
  - unfold PROVIDER_HEALTH_TRANSIENT_CONFIRM_AFTER_MS. simpl. lia.
  - unfold PROVIDER_HEALTH_STALE_AFTER_MS, PROVIDER_HEALTH_TRANSIENT_CONFIRM_AFTER_MS. simpl. lia.
  - reflexivity.
  - intros f [= <-]. reflexivity.
  - simpl. unfold PROVIDER_HEALTH_STALE_AFTER_MS. lia.
Defined.
