(* ===== verification/ResidentMemory.v ===== *)
(** * Resident memory ([src/infra/resident_memory.rs])

    The process-wide count of retained bytes that request budgets and long-lived caches
    charge.  Every method takes the budget's mutex for its whole body, so it is one step on
    the snapshot the mutex guards; the calls that publish metrics are left out. *)
From S2P Require Import Prelude RustStr MapSum.
From Stdlib Require Import ZArith Lia.

Local Open Scope Z_scope.

(** infra/resident_memory.rs:65-71 [ResidentMemorySnapshot] *)
Record ResidentMemorySnapshot := mk_resident {
  rm_limit_bytes : option Z;
  rm_used_bytes : Z;
  rm_high_water_bytes : Z;
  rm_active_reservations : Z;
  rm_rejections : Z;
}.

(** infra/resident_memory.rs:98-103 [new] *)
Definition resident_new (limit_bytes : option Z) : ResidentMemorySnapshot :=
  mk_resident limit_bytes 0 0 0 0.

(** infra/resident_memory.rs:107-111 [configure_limit] *)
Definition configure_limit (limit_bytes : option Z) (state : ResidentMemorySnapshot) :
    ResidentMemorySnapshot :=
  mk_resident limit_bytes (rm_used_bytes state) (rm_high_water_bytes state)
    (rm_active_reservations state) (rm_rejections state).

(** infra/resident_memory.rs:117-123 [remaining_bytes] *)
Definition remaining_bytes (state : ResidentMemorySnapshot) : Z :=
  sat_usize (default USIZE_MAX (rm_limit_bytes state) - rm_used_bytes state).

(** infra/resident_memory.rs:130-134 [try_resize]: the total the growth would reach, when it fits *)
Definition grown_total (state : ResidentMemorySnapshot) (additional : Z) : option Z :=
  match checked 0 USIZE_MAX (rm_used_bytes state + additional) with
  | Some total =>
      if from_option (λ limit, total <=? limit) true (rm_limit_bytes state)
      then Some total else None
  | None => None
  end.

(** infra/resident_memory.rs:127-152 [try_resize] *)
Definition try_resize (state : ResidentMemorySnapshot) (current next : Z) :
    ResidentMemorySnapshot * bool :=
  if current <? next then
    match grown_total state (next - current) with
    | None =>
        (mk_resident (rm_limit_bytes state) (rm_used_bytes state) (rm_high_water_bytes state)
           (rm_active_reservations state) (sat_u64 (rm_rejections state + 1)), false)
    | Some total =>
        (mk_resident (rm_limit_bytes state) total (Z.max (rm_high_water_bytes state) total)
           (if current =? 0 then sat_usize (rm_active_reservations state + 1)
            else rm_active_reservations state)
           (rm_rejections state), true)
    end
  else
    (mk_resident (rm_limit_bytes state) (sat_usize (rm_used_bytes state - (current - next)))
       (rm_high_water_bytes state)
       (if (0 <? current) && (next =? 0) then sat_usize (rm_active_reservations state - 1)
        else rm_active_reservations state)
       (rm_rejections state), true).

(** infra/resident_memory.rs:154-162 [reserve]: the state after the charge, and whether an owner of
    [bytes] was made *)
Definition resident_reserve (state : ResidentMemorySnapshot) (bytes : Z) :
    ResidentMemorySnapshot * bool := try_resize state 0 bytes.
(** infra/resident_memory.rs:178-180 [drop]: the last owner of [bytes] goes away *)
Definition resident_drop (state : ResidentMemorySnapshot) (bytes : Z) : ResidentMemorySnapshot :=
  (try_resize state bytes 0).1.

(** [str::parse::<usize>]: digits, after an optional [+]. *)
Definition parse_usize (s : string) : option Z :=
  let digits := default s (strip_prefix "+" s) in
  if negb (is_empty digits) && all_digits digits then checked 0 USIZE_MAX (dec_value digits) else None.

(** infra/resident_memory.rs:76-95 [process_resident_memory]: the process budget of the variable's value *)
Definition process_resident_memory (env : option string) : ResidentMemorySnapshot :=
  let limit :=
    match env ≫= parse_usize with
    | None => None
    | Some megabytes =>
        if megabytes =? 0 then None else checked 0 USIZE_MAX (megabytes * (1024 * 1024))
    end in
  configure_limit limit (resident_new None).

(** infra/resident_memory.rs:8-11 [Counter] *)
Record Counter := mk_counter { counter_used : Z; counter_limit : Z }.
(** infra/resident_memory.rs:13-21 [write] *)
Definition counter_write (w : Counter) (len : Z) : option Counter :=
  match checked 0 USIZE_MAX (counter_used w + len) with
  | Some next => if next <=? counter_limit w then Some (mk_counter next (counter_limit w)) else None
  | None => None
  end.
(** infra/resident_memory.rs:7-29 [serialized_json_bytes]: over the lengths of the writes the
    serializer makes, which stops at the first write that fails *)
Definition serialized_bytes_within (writes : list Z) (limit : Z) : option Z :=
  counter_used <$> foldl (λ w len, w ≫= λ w, counter_write w len) (Some (mk_counter 0 limit)) writes.

(** ** The allocation estimate

    A JSON value with the capacities of its buffers, which the estimate reads. *)
Inductive held_value : Type :=
  | HScalar
  | HString (capacity : Z)
  | HArray (capacity : Z) (items : list held_value)
  | HObject (members : list (Z * held_value)).

Section retained.
(** The sizes of the types on the target: [size_of::<Value>()] and [size_of::<String>()]. *)
Context (value_size string_size usize_size : Z).

(** infra/resident_memory.rs:34-59 [dynamic_bytes] *)
Fixpoint dynamic_bytes (v : held_value) : Z :=
  match v with
  | HScalar => 0
  | HString capacity => capacity
  | HArray capacity items =>
      foldl (λ bytes n, sat_usize (bytes + n)) (sat_usize (capacity * value_size))
        (dynamic_bytes <$> items)
  | HObject members =>
      foldl (λ bytes kn, sat_usize (sat_usize (bytes + kn.1) + kn.2))
        (sat_usize (Z.of_nat (length members) *
           sat_usize (sat_usize (string_size + value_size) + usize_size * 3)))
        ((λ kv, (kv.1, dynamic_bytes kv.2)) <$> members)
  end.
(** infra/resident_memory.rs:33-62 [retained_json_bytes] *)
Definition retained_json_bytes (v : held_value) : Z := sat_usize (value_size + dynamic_bytes v).
End retained.

(** ** Lemmas *)
(** What the snapshot's numbers mean for its client: [used] is the sum of the charges, and
    [active] counts the charges that are not zero. *)
Record resident_ok (used active : Z) (state : ResidentMemorySnapshot) : Prop := {
  rok_used : rm_used_bytes state = used;
  rok_active : rm_active_reservations state = active;
  rok_range : 0 ≤ active ≤ used ∧ used ≤ USIZE_MAX;
  rok_high : used ≤ rm_high_water_bytes state;
}.

Definition occupied (n : Z) : Z := if n =? 0 then 0 else 1.
Lemma occupied_range n : 0 ≤ n → 0 ≤ occupied n ≤ n.
Proof. unfold occupied. destruct (Z.eqb_spec n 0); lia. Qed.

Lemma grown_total_Some s additional total : grown_total s additional = Some total ↔
  total = rm_used_bytes s + additional ∧ 0 ≤ total ≤ USIZE_MAX ∧
  ∀ limit, rm_limit_bytes s = Some limit → total ≤ limit.
Proof.
  unfold grown_total. destruct (checked _ _ _) as [t|] eqn:E.
  - apply checked_Some in E as [-> ?]. destruct (rm_limit_bytes s) as [l|]; simpl; [|naive_solver].
    destruct (Z.leb_spec (rm_used_bytes s + additional) l).
    + split; [intros [= <-]|by intros (-> & _)]. split; [done|]. split; [lia|]. by intros ? [= <-].
    + split; [done|]. intros (-> & _ & Hl). specialize (Hl l eq_refl). lia.
  - apply checked_None in E. split; [done|]. lia.
Qed.

(** A growth is granted exactly when it fits what remains. *)
Lemma grown_total_remaining s additional : 0 ≤ rm_used_bytes s ≤ USIZE_MAX → 0 < additional →
  (∀ limit, rm_limit_bytes s = Some limit → limit ≤ USIZE_MAX) →
  (is_Some (grown_total s additional) ↔ additional ≤ remaining_bytes s).
Proof.
  intros Hu Ha Hl. unfold remaining_bytes. split.
  - intros [t (-> & Ht & Hlim)%grown_total_Some]. destruct (rm_limit_bytes s) as [l|]; simpl.
    + specialize (Hlim l eq_refl). specialize (Hl l eq_refl). unfold sat_usize, saturate. lia.
    + unfold sat_usize, saturate. lia.
  - intros Hr. exists (rm_used_bytes s + additional). apply grown_total_Some.
    destruct (rm_limit_bytes s) as [l|]; simpl in Hr.
    + specialize (Hl l eq_refl). unfold sat_usize, saturate in Hr.
      split; [done|]. split; [lia|]. intros l' [= <-]. lia.
    + unfold sat_usize, saturate in Hr. split; [done|]. split; [lia|]. done.
Qed.

(** The one operation on the state: a charge goes from [current] to [next]. *)
Lemma try_resize_ok used active s current next : resident_ok used active s →
  0 ≤ current ≤ used → occupied current ≤ active → active - occupied current ≤ used - current → 0 ≤ next →
  let r := try_resize s current next in
  (r.2 = true ∧ resident_ok (used - current + next) (active - occupied current + occupied next) r.1) ∨
  (r.2 = false ∧ current < next ∧ resident_ok used active r.1).
Proof.
  intros [Hu Ha Hr Hh] Hc Hoc Hou Hn. unfold try_resize. pose proof (occupied_range next Hn).
  unfold occupied in *. destruct (Z.ltb_spec current next) as [Hlt|Hge].
  - destruct (grown_total s (next - current)) as [total|] eqn:E.
    + left. apply grown_total_Some in E as (-> & Ht & _). simpl. split; [done|].
      destruct (Z.eqb_spec next 0); [lia|].
      split; simpl; [lia| |lia|lia].
      destruct (Z.eqb_spec current 0); [|lia]. unfold sat_usize, saturate. lia.
    + right. simpl. by split_and!.
  - left. simpl. split; [done|]. unfold sat_usize, saturate.
    destruct (Z.eqb_spec next 0), (Z.eqb_spec current 0), (Z.ltb_spec 0 current); simpl;
      try lia; split; simpl; lia.
Qed.
Lemma try_resize_granted s current next : current < next →
  ((try_resize s current next).2 = true ↔ is_Some (grown_total s (next - current))).
Proof.
  intros H. unfold try_resize. destruct (Z.ltb_spec current next); [|lia].
  destruct (grown_total s (next - current)); simpl; split; try done; intros [? ?]; done.
Qed.
Lemma try_resize_shrink s current next : next ≤ current → (try_resize s current next).2 = true.
Proof. intros H. unfold try_resize. destruct (Z.ltb_spec current next); [lia|done]. Qed.
Lemma try_resize_limit s current next :
  rm_limit_bytes (try_resize s current next).1 = rm_limit_bytes s.
Proof. unfold try_resize. destruct (_ <? _); [destruct (grown_total _ _)|]; done. Qed.

(** A count within the limit is the total. *)
Lemma counter_writes writes limit used : Forall (λ n, 0 ≤ n) writes → 0 ≤ used ≤ limit → limit ≤ USIZE_MAX →
  counter_used <$> foldl (λ w len, w ≫= λ w, counter_write w len) (Some (mk_counter used limit)) writes =
  if used + sum_by id writes <=? limit then Some (used + sum_by id writes) else None.
Proof.
  intros Hw Hu Hl. revert used Hu. induction Hw as [|n ws Hn Hws IH]; intros used Hu.
  { simpl. rewrite Z.add_0_r. by destruct (Z.leb_spec used limit); [|lia]. }
  assert (0 ≤ sum_by id ws) by (apply sum_by_nonneg; by rewrite <-Forall_forall).
  assert (∀ l, foldl (λ w len, w ≫= λ w, counter_write w len) None l = None) as Hnone by (by induction l).
  change (sum_by id (n :: ws)) with (n + sum_by id ws). cbn [foldl mbind option_bind].
  unfold counter_write at 2. cbn [counter_used counter_limit].
  destruct (checked _ _ _) as [t|] eqn:E.
  - apply checked_Some in E as [-> ?]. destruct (Z.leb_spec (used + n) limit).
    + rewrite IH by lia. by rewrite Z.add_assoc.
    + rewrite Hnone. destruct (Z.leb_spec (used + (n + sum_by id ws)) limit); [lia|done].
  - apply checked_None in E. rewrite Hnone.
    destruct (Z.leb_spec (used + (n + sum_by id ws)) limit); [lia|done].
Qed.
Lemma serialized_bytes_within_total writes limit : Forall (λ n, 0 ≤ n) writes →
  0 ≤ limit ≤ USIZE_MAX →
  serialized_bytes_within writes limit =
  if sum_by id writes <=? limit then Some (sum_by id writes) else None.
Proof. intros Hw Hl. apply (counter_writes writes limit 0); [done|lia..]. Qed.
