(* ===== verification/RequestMemory.v ===== *)
(** * Request memory ([src/proxy/request_memory.rs])

    The budget of one request, nested in the process budget: reservations that grow, shrink,
    are released or dropped.  Each method holds its mutexes (reservation, then budget, then
    process) until it returns, so it is one step on the three states.  Metrics, timing and
    the [Bytes] wrappers, which only hold a reservation until their last clone is dropped,
    are left out; [Memory] below has the counts of owners that decide when [Drop] runs. *)
From S2P Require Import Prelude RustStr Json MapSum ResidentMemory.
From Stdlib Require Import ZArith Lia Ascii.

Local Open Scope Z_scope.

(** proxy/request_memory.rs:10-23 [RequestMemoryComponent] *)
Inductive RequestMemoryComponent : Type :=
  | InboundRaw | DecodedBody | NormalizedBody | TransportPending | SemanticPrelude
  | StreamRetainedState | ToolArguments | NormalizedEvent | WebSocketReadQueue
  | WebSocketWriteQueue | ReasoningReplay | GroundingCitation.
(** proxy/request_memory.rs:26-41 [as_str] *)
Definition component_as_str (c : RequestMemoryComponent) : string :=
  match c with
  | InboundRaw => "inbound_raw"
  | DecodedBody => "decoded_body"
  | NormalizedBody => "normalized_body"
  | TransportPending => "transport_pending"
  | SemanticPrelude => "semantic_prelude"
  | StreamRetainedState => "stream_retained_state"
  | ToolArguments => "tool_arguments"
  | NormalizedEvent => "normalized_event"
  | WebSocketReadQueue => "websocket_read_queue"
  | WebSocketWriteQueue => "websocket_write_queue"
  | ReasoningReplay => "reasoning_replay"
  | GroundingCitation => "grounding_citation"
  end.

(** ** Estimates *)
(** proxy/request_memory.rs:50-65 [json_parse_working_bytes]: the scanner's state *)
Record Scan := mk_scan { sc_quoted : bool; sc_escaped : bool; sc_structural : Z }.
(** proxy/request_memory.rs:53-65 [json_parse_working_bytes]: one byte *)
Definition scan_byte (s : Scan) (byte : ascii) : Scan :=
  if sc_quoted s then
    if sc_escaped s then mk_scan true false (sc_structural s)
    else if code byte =? 92 then mk_scan true true (sc_structural s)
    else if code byte =? 34 then mk_scan false (sc_escaped s) (sc_structural s)
    else s
  else if code byte =? 34 then mk_scan true (sc_escaped s) (sc_structural s)
  else if (code byte =? 91) || (code byte =? 123) || (code byte =? 44) || (code byte =? 58)
  then mk_scan (sc_quoted s) (sc_escaped s) (sat_usize (sc_structural s + 1))
  else s.
(** proxy/request_memory.rs:49-71 [json_parse_working_bytes] *)
Definition json_parse_working_bytes (bytes : list ascii) : Z :=
  let s := foldl scan_byte (mk_scan false false 0) bytes in
  sat_usize (sat_usize (sat_usize (Z.of_nat (length bytes) * 2) + sat_usize (sc_structural s * 128)) + 512).

(** proxy/request_memory.rs:79-84 [quoted_bytes]: the bytes one character takes.  A character above
    ASCII takes its [len_utf8] bytes, that is one for each of the bytes it is made of here. *)
Definition escaped_bytes (c : ascii) : Z :=
  if (code c =? 34) || (code c =? 92) || (code c =? 8) || (code c =? 12) || (code c =? 10)
     || (code c =? 13) || (code c =? 9) then 2
  else if code c <=? 31 then 6 else 1.
(** proxy/request_memory.rs:77-86 [quoted_bytes] *)
Fixpoint quoted_bytes_from (bytes : Z) (s : string) : Z :=
  match s with "" => bytes | String c s' => quoted_bytes_from (sat_usize (bytes + escaped_bytes c)) s' end.
Definition quoted_bytes (s : string) : Z := quoted_bytes_from 2 s.

Section serialized.
(** The length of [serde_json::Number::to_string]. *)
Context (number_len : number → Z).
(** proxy/request_memory.rs:76-116 [serialized_json_bytes] *)
Fixpoint serialized_json_bytes (v : value) : Z :=
  match v with
  | Null => 4
  | Bool true => 4
  | Bool false => 5
  | Number n => number_len n
  | VString s => quoted_bytes s
  | Array values =>
      sat_usize (foldl (λ bytes n, sat_usize (sat_usize (bytes + n) + 1)) 2
        (serialized_json_bytes <$> values)
        - (match values with [] => 0 | _ => 1 end))
  | Object members =>
      sat_usize (foldl (λ (bytes : Z) (kn : string * Z),
          sat_usize (sat_usize (sat_usize (sat_usize (bytes + quoted_bytes kn.1) + 1) + kn.2) + 1)) 2
        ((λ kv : string * value, (kv.1, serialized_json_bytes kv.2)) <$> members)
        - (match members with [] => 0 | _ => 1 end))
  end.
End serialized.

(** ** Budgets and reservations *)
(** proxy/request_memory.rs:167-173 [RequestMemoryState] *)
Record RequestMemoryState := mk_budget {
  bg_limit_bytes : Z;
  bg_used_bytes : Z;
  bg_high_water_bytes : Z;
  bg_active_reservations : Z;
  bg_exhausted : bool;
}.
(** proxy/request_memory.rs:128-133 [RequestMemoryError] *)
Record RequestMemoryError := mk_memory_error {
  me_component : RequestMemoryComponent; me_requested_bytes : Z; me_used_bytes : Z; me_limit_bytes : Z;
}.
(** proxy/request_memory.rs:192-209 [with_parent] *)
Definition budget_new (limit_bytes : Z) : RequestMemoryState := mk_budget (Z.max limit_bytes 1) 0 0 0 false.

Definition set_exhausted (e : bool) (s : RequestMemoryState) : RequestMemoryState :=
  mk_budget (bg_limit_bytes s) (bg_used_bytes s) (bg_high_water_bytes s) (bg_active_reservations s) e.

(** proxy/request_memory.rs:285-299 [remaining_bytes] *)
Definition budget_remaining (parent : ResidentMemorySnapshot) (state : RequestMemoryState) : Z :=
  if bg_exhausted state then 0
  else Z.min (sat_usize (bg_limit_bytes state - bg_used_bytes state)) (remaining_bytes parent).

(** proxy/request_memory.rs:301-324 [reject] *)
Definition reject (state : RequestMemoryState) (component : RequestMemoryComponent) (requested_bytes : Z) :
    RequestMemoryState * RequestMemoryError :=
  (set_exhausted true state,
   mk_memory_error component (Z.max requested_bytes 1) (bg_used_bytes state) (bg_limit_bytes state)).

(** proxy/request_memory.rs:353-408 [resize_inner] *)
Definition resize_inner (parent : ResidentMemorySnapshot) (state : RequestMemoryState)
    (component : RequestMemoryComponent) (current next : Z) (exhaust_on_failure : bool) :
    (ResidentMemorySnapshot * RequestMemoryState) * result RequestMemoryError () :=
  if next <=? current then
    let parent' := (try_resize parent current next).1 in
    let released := current - next in
    ((parent', mk_budget (bg_limit_bytes state) (sat_usize (bg_used_bytes state - released))
        (bg_high_water_bytes state)
        (if (0 <? current) && (next =? 0) then sat_usize (bg_active_reservations state - 1)
         else bg_active_reservations state) (bg_exhausted state)), Ok ())
  else
    let additional := next - current in
    let '(parent', fits) :=
      if bg_exhausted state || (sat_usize (bg_limit_bytes state - bg_used_bytes state) <? additional)
      then (parent, false) else try_resize parent current next in
    if negb fits then
      ((parent', set_exhausted (bg_exhausted state || exhaust_on_failure) state),
       Err (mk_memory_error component additional (bg_used_bytes state) (bg_limit_bytes state)))
    else
      let used := sat_usize (bg_used_bytes state + additional) in
      ((parent', mk_budget (bg_limit_bytes state) used (Z.max (bg_high_water_bytes state) used)
          (if current =? 0 then sat_usize (bg_active_reservations state + 1)
           else bg_active_reservations state) (bg_exhausted state)), Ok ()).

(** proxy/request_memory.rs:451-462 [RequestMemoryReservationInner], with the budget it belongs to and
    the number of owners of the [Arc] around it *)
Record Reservation := mk_reservation {
  rs_budget : positive;
  rs_component : RequestMemoryComponent;
  rs_bytes : Z;
  rs_released : bool;
  rs_owners : Z;
}.
Definition set_bytes (bytes : Z) (r : Reservation) : Reservation :=
  mk_reservation (rs_budget r) (rs_component r) bytes (rs_released r) (rs_owners r).
(** proxy/request_memory.rs:535-536 [release] *)
Definition set_released (r : Reservation) : Reservation :=
  mk_reservation (rs_budget r) (rs_component r) 0 true (rs_owners r).
Definition set_owners (n : Z) (r : Reservation) : Reservation :=
  mk_reservation (rs_budget r) (rs_component r) (rs_bytes r) (rs_released r) n.

(** proxy/request_memory.rs:481-495 [resize] *)
Definition reservation_resize (parent : ResidentMemorySnapshot) (state : RequestMemoryState)
    (r : Reservation) (bytes : Z) :
    (ResidentMemorySnapshot * RequestMemoryState * Reservation) * result RequestMemoryError () :=
  if rs_released r then ((parent, state, r), Ok ())
  else
    let '(ps, res) := resize_inner parent state (rs_component r) (rs_bytes r) bytes true in
    match res with
    | Ok () => ((ps, set_bytes bytes r), Ok ())
    | Err e => ((ps, r), Err e)
    end.
(** proxy/request_memory.rs:522-537 [release] *)
Definition reservation_release (parent : ResidentMemorySnapshot) (state : RequestMemoryState)
    (r : Reservation) : ResidentMemorySnapshot * RequestMemoryState * Reservation :=
  if rs_released r then (parent, state, r)
  else ((resize_inner parent state (rs_component r) (rs_bytes r) 0 true).1, set_released r).
(** proxy/request_memory.rs:541-552 [drop]: the last owner goes away *)
Definition reservation_drop (parent : ResidentMemorySnapshot) (state : RequestMemoryState)
    (r : Reservation) : ResidentMemorySnapshot * RequestMemoryState :=
  if rs_released r || (rs_bytes r =? 0) then (parent, state)
  else (resize_inner parent state (rs_component r) (rs_bytes r) 0 true).1.
(** proxy/request_memory.rs:211-228 [reserve]: a refused reservation is dropped with nothing charged *)
Definition reserve (parent : ResidentMemorySnapshot) (state : RequestMemoryState) (budget : positive)
    (component : RequestMemoryComponent) (bytes : Z) :
    (ResidentMemorySnapshot * RequestMemoryState) * result RequestMemoryError Reservation :=
  let reservation := mk_reservation budget component 0 false 1 in
  let '((ps, r), res) := reservation_resize parent state reservation bytes in
  match res with
  | Ok () => (ps, Ok r)
  | Err e => (reservation_drop ps.1 ps.2 r, Err e)
  end.
(** proxy/request_memory.rs:240-256 [reserve_observation_scratch] *)
Definition reserve_observation_scratch (parent : ResidentMemorySnapshot) (state : RequestMemoryState)
    (budget : positive) (bytes : Z) :
    (ResidentMemorySnapshot * RequestMemoryState) * option Reservation :=
  let component := StreamRetainedState in
  let '(ps, res) := resize_inner parent state component 0 bytes false in
  match res with
  | Ok () => (ps, Some (mk_reservation budget component bytes false 1))
  | Err _ => (ps, None)
  end.

(** ** The process: the process budget, the request budgets, and everything that holds memory *)
(** infra/resident_memory.rs:167-174 [ResidentMemoryOwner], with the owners of its [Arc] *)
Record Resident := mk_resident_owner { ro_bytes : Z; ro_owners : Z }.
Record Memory := mk_memory {
  mm_parent : ResidentMemorySnapshot;
  mm_budgets : gmap positive RequestMemoryState;
  mm_reservations : gmap positive Reservation;
  mm_residents : gmap positive Resident;
}.
Definition memory_new (limit : option Z) : Memory := mk_memory (resident_new limit) ∅ ∅ ∅.

(** The operations the program performs, with the objects they work on.  A new object gets
    an identifier that is not in use. *)
Inductive memory_op : Type :=
  | ConfigureLimit (limit : option Z)
  | NewBudget (budget : positive) (limit_bytes : Z)
  | Reserve (budget r : positive) (component : RequestMemoryComponent) (bytes : Z)
  | ReserveScratch (budget r : positive) (bytes : Z)
  | Reject (budget : positive) (component : RequestMemoryComponent) (bytes : Z)
  | Resize (r : positive) (bytes : Z)
  | Release (r : positive)
  | Share (r : positive)
  | Drop (r : positive)
  | ReserveResident (o : positive) (bytes : Z)
  | ShareResident (o : positive)
  | DropResident (o : positive).

(** The states after an operation on the reservation [r] of budget [b]. *)
Definition put_budget (m : Memory) (b : positive) (ps : ResidentMemorySnapshot * RequestMemoryState)
    (f : gmap positive Reservation → gmap positive Reservation) : Memory :=
  mk_memory ps.1 (<[b := ps.2]> (mm_budgets m)) (f (mm_reservations m)) (mm_residents m).
Definition put_parent (m : Memory) (p : ResidentMemorySnapshot)
    (f : gmap positive Resident → gmap positive Resident) : Memory :=
  mk_memory p (mm_budgets m) (mm_reservations m) (f (mm_residents m)).

(** An operation on a live reservation and its budget. *)
Definition with_reservation (m : Memory) (r : positive)
    (f : RequestMemoryState → Reservation → Memory) : Memory :=
  match mm_reservations m !! r with
  | Some x => match mm_budgets m !! rs_budget x with Some b => f b x | None => m end
  | None => m
  end.

Definition perform (m : Memory) (op : memory_op) : Memory :=
  match op with
  | ConfigureLimit limit => put_parent m (configure_limit limit (mm_parent m)) id
  | NewBudget b limit_bytes =>
      match mm_budgets m !! b with
      | Some _ => m
      | None => put_budget m b (mm_parent m, budget_new limit_bytes) id
      end
  | Reserve b r component bytes =>
      match mm_budgets m !! b, mm_reservations m !! r with
      | Some state, None =>
          let '(ps, res) := reserve (mm_parent m) state b component bytes in
          put_budget m b ps (match res with Ok x => <[r := x]> | Err _ => id end)
      | _, _ => m
      end
  | ReserveScratch b r bytes =>
      match mm_budgets m !! b, mm_reservations m !! r with
      | Some state, None =>
          let '(ps, res) := reserve_observation_scratch (mm_parent m) state b bytes in
          put_budget m b ps (match res with Some x => <[r := x]> | None => id end)
      | _, _ => m
      end
  | Reject b component bytes =>
      match mm_budgets m !! b with
      | Some state => put_budget m b (mm_parent m, (reject state component bytes).1) id
      | None => m
      end
  | Resize r bytes => with_reservation m r (λ state x,
      let '((ps, x'), _) := reservation_resize (mm_parent m) state x bytes in
      put_budget m (rs_budget x) ps <[r := x']>)
  | Release r => with_reservation m r (λ state x,
      let '(ps, x') := reservation_release (mm_parent m) state x in
      put_budget m (rs_budget x) ps <[r := x']>)
  | Share r => with_reservation m r (λ state x,
      put_budget m (rs_budget x) (mm_parent m, state) <[r := set_owners (rs_owners x + 1) x]>)
  | Drop r => with_reservation m r (λ state x,
      if 1 <? rs_owners x
      then put_budget m (rs_budget x) (mm_parent m, state) <[r := set_owners (rs_owners x - 1) x]>
      else put_budget m (rs_budget x) (reservation_drop (mm_parent m) state x) (delete r))
  | ReserveResident o bytes =>
      match mm_residents m !! o with
      | Some _ => m
      | None =>
          let '(p, granted) := resident_reserve (mm_parent m) bytes in
          put_parent m p (if granted then <[o := mk_resident_owner bytes 1]> else id)
      end
  | ShareResident o =>
      match mm_residents m !! o with
      | Some x => put_parent m (mm_parent m) <[o := mk_resident_owner (ro_bytes x) (ro_owners x + 1)]>
      | None => m
      end
  | DropResident o =>
      match mm_residents m !! o with
      | Some x =>
          if 1 <? ro_owners x
          then put_parent m (mm_parent m) <[o := mk_resident_owner (ro_bytes x) (ro_owners x - 1)]>
          else put_parent m (resident_drop (mm_parent m) (ro_bytes x)) (delete o)
      | None => m
      end
  end.
Definition perform_all : Memory → list memory_op → Memory := foldl perform.
