(* ===== verification/RequestMemoryProofs.v ===== *)
(** * The memory accounts are exact

    Whatever operations the requests and caches of the process perform, the counters of the
    process and of every request are the sums over what is still held. *)
From S2P Require Import Prelude RustStr Json MapSum ResidentMemory RequestMemory.
From Stdlib Require Import ZArith Lia.

Local Open Scope Z_scope.

(** ** Invariants *)
(** What a reservation charges to the budget [b]. *)
Definition charge_of (b : positive) (x : Reservation) : Z :=
  if decide (rs_budget x = b) then rs_bytes x else 0.
Definition charged (m : Memory) : Z := map_sum bg_used_bytes (mm_budgets m) + map_sum ro_bytes (mm_residents m).
Definition holding (m : Memory) : Z :=
  map_sum bg_active_reservations (mm_budgets m) + map_sum (λ x, occupied (ro_bytes x)) (mm_residents m).

Record budget_ok (used active : Z) (s : RequestMemoryState) : Prop := {
  bok_used : bg_used_bytes s = used;
  bok_active : bg_active_reservations s = active;
  bok_range : 0 ≤ active ≤ used;
  bok_limit : used ≤ bg_high_water_bytes s ≤ bg_limit_bytes s;
  bok_width : 1 ≤ bg_limit_bytes s ≤ USIZE_MAX;
}.
Definition reservation_ok (x : Reservation) : Prop :=
  0 ≤ rs_bytes x ∧ (rs_released x = true → rs_bytes x = 0) ∧ 1 ≤ rs_owners x.

Record Sound (m : Memory) : Prop := {
  so_parent : resident_ok (charged m) (holding m) (mm_parent m);
  so_budgets : ∀ b s, mm_budgets m !! b = Some s →
    budget_ok (map_sum (charge_of b) (mm_reservations m))
      (map_sum (λ x, occupied (charge_of b x)) (mm_reservations m)) s;
  so_reservations : ∀ r x, mm_reservations m !! r = Some x →
    is_Some (mm_budgets m !! rs_budget x) ∧ reservation_ok x;
  so_residents : ∀ o x, mm_residents m !! o = Some x → 0 ≤ ro_bytes x;
}.

(** The arguments are machine words. *)
Definition op_ok (op : memory_op) : Prop :=
  match op with
  | NewBudget _ n => 0 ≤ n ≤ USIZE_MAX
  | Reserve _ _ _ n | ReserveScratch _ _ n | Resize _ n | ReserveResident _ n => 0 ≤ n
  | _ => True
  end.

(** ** One charge *)
Lemma resize_inner_ok U A used active p s component current next exhaust :
  resident_ok U A p → budget_ok used active s → active ≤ A → A - active ≤ U - used → used ≤ U →
  0 ≤ current ≤ used → occupied current ≤ active → active - occupied current ≤ used - current →
  0 ≤ next →
  match resize_inner p s component current next exhaust with
  | ((p', s'), Ok _) =>
      resident_ok (U - current + next) (A - occupied current + occupied next) p' ∧
      budget_ok (used - current + next) (active - occupied current + occupied next) s' ∧
      bg_exhausted s' = bg_exhausted s
  | ((p', s'), Err _) => current < next ∧ resident_ok U A p' ∧ budget_ok used active s'
  end.
Proof.
  intros Hp Hs HA HU HUu Hc Hoc Hou Hn.
  pose proof (occupied_range current ltac:(lia)) as Ho. pose proof (occupied_range next Hn) as Hon.
  pose proof (try_resize_ok U A p current next Hp ltac:(lia) ltac:(lia) ltac:(lia) Hn) as Ht.
  destruct Hs as [Hu Ha Hr Hl Hw]. unfold resize_inner. destruct (Z.leb_spec next current) as [Hle|Hgt].
  - destruct Ht as [(_ & Ht)|(_ & ? & _)]; [|lia]. split; [done|]. split; [|done].
    unfold occupied in *. destruct (Z.eqb_spec next 0), (Z.eqb_spec current 0), (Z.ltb_spec 0 current);
      try lia; split; simpl; unfold sat_usize, saturate; lia.
  - destruct (bg_exhausted s || _) eqn:E.
    { simpl. split; [done|]. split; [done|]. by split. }
    apply orb_false_iff in E as [_ E]. apply Z.ltb_ge in E. unfold sat_usize, saturate in E.
    destruct (try_resize p current next) as [p' fits]. simpl in Ht.
    destruct Ht as [(-> & Ht)|(-> & _ & Ht)]; simpl.
    + split; [done|]. split; [|done]. unfold occupied in *.
      destruct (Z.eqb_spec next 0); [lia|].
      destruct (Z.eqb_spec current 0); split; simpl; unfold sat_usize, saturate; lia.
    + split; [done|]. split; [done|]. by split.
Qed.

(** What the sums say about one reservation of a sound memory. *)
Definition bytes_at (b : positive) (old : option Reservation) : Z := from_option (charge_of b) 0 old.
Section sound.
Context (m : Memory) (Hm : Sound m).

Lemma charge_nonneg b r x : mm_reservations m !! r = Some x → 0 ≤ charge_of b x.
Proof.
  intros Hx. destruct (so_reservations m Hm r x Hx) as [_ [H _]]. unfold charge_of.
  by case_decide.
Qed.
Lemma charge_facts b s r : mm_budgets m !! b = Some s →
  let used := map_sum (charge_of b) (mm_reservations m) in
  let active := map_sum (λ x, occupied (charge_of b x)) (mm_reservations m) in
  let c := bytes_at b (mm_reservations m !! r) in
  0 ≤ c ≤ used ∧ occupied c ≤ active ∧ active - occupied c ≤ used - c.
Proof.
  intros Hs used active c.
  assert (∀ k x, delete r (mm_reservations m) !! k = Some x → 0 ≤ occupied (charge_of b x) ≤ charge_of b x) as Hd.
  { intros k x [_ Hx]%lookup_delete_Some. apply occupied_range. by eapply charge_nonneg. }
  assert (used = c + map_sum (charge_of b) (delete r (mm_reservations m)) ∧
    active = occupied c + map_sum (λ x, occupied (charge_of b x)) (delete r (mm_reservations m)) ∧ 0 ≤ c) as (-> & -> & Hc).
  { unfold used, active, c. destruct (mm_reservations m !! r) as [x|] eqn:E; simpl.
    - rewrite (map_sum_delete _ _ _ _ E), (map_sum_delete _ _ _ _ E). split; [done|]. split; [done|].
      by eapply charge_nonneg.
    - by rewrite delete_id. }
  pose proof (map_sum_le (λ x, occupied (charge_of b x)) (charge_of b) _ (λ k x H, proj2 (Hd k x H))).
  pose proof (map_sum_nonneg (λ x, occupied (charge_of b x)) _ (λ k x H, proj1 (Hd k x H))). lia.
Qed.
Lemma budget_facts b s : mm_budgets m !! b = Some s →
  bg_active_reservations s ≤ holding m ∧
  holding m - bg_active_reservations s ≤ charged m - bg_used_bytes s ∧ bg_used_bytes s ≤ charged m.
Proof.
  intros Hs. unfold holding, charged.
  rewrite (map_sum_delete bg_used_bytes _ _ _ Hs), (map_sum_delete bg_active_reservations _ _ _ Hs).
  assert (∀ k x, delete b (mm_budgets m) !! k = Some x →
    0 ≤ bg_active_reservations x ≤ bg_used_bytes x) as Hd.
  { intros k x [_ Hx]%lookup_delete_Some. destruct (so_budgets m Hm k x Hx) as [-> -> ? _ _]. lia. }
  assert (∀ k x, mm_residents m !! k = Some x → 0 ≤ occupied (ro_bytes x) ≤ ro_bytes x) as Hr.
  { intros k x Hx. apply occupied_range. by eapply so_residents. }
  pose proof (map_sum_le _ _ _ (λ k x H, proj2 (Hd k x H))).
  pose proof (map_sum_nonneg _ _ (λ k x H, proj1 (Hd k x H))).
  pose proof (map_sum_le (λ x, occupied (ro_bytes x)) ro_bytes _ (λ k x H, proj2 (Hr k x H))).
  pose proof (map_sum_nonneg (λ x, occupied (ro_bytes x)) _ (λ k x H, proj1 (Hr k x H))). lia.
Qed.

(** Replacing one reservation of budget [b], with the budget and the process budget updated
    by the difference, keeps the accounts. *)
Lemma put_sound b s r new p' s' : mm_budgets m !! b = Some s →
  (∀ x, mm_reservations m !! r = Some x → rs_budget x = b) →
  (∀ x, new = Some x → rs_budget x = b ∧ reservation_ok x) →
  let c := bytes_at b (mm_reservations m !! r) in
  let n := bytes_at b new in
  resident_ok (charged m - c + n) (holding m - occupied c + occupied n) p' →
  budget_ok (bg_used_bytes s - c + n) (bg_active_reservations s - occupied c + occupied n) s' →
  Sound (put_budget m b (p', s') (partial_alter (λ _, new) r)).
Proof.
  intros Hs Hold Hnew c n Hp Hb'. pose proof (so_budgets m Hm b s Hs) as [Hu Ha _ _ _].
  assert (∀ b', map_sum (charge_of b') (partial_alter (λ _, new) r (mm_reservations m)) =
    bytes_at b' new - bytes_at b' (mm_reservations m !! r) + map_sum (charge_of b') (mm_reservations m)) as Hsum
    by (intros; apply map_sum_alter).
  assert (∀ b', map_sum (λ x, occupied (charge_of b' x)) (partial_alter (λ _, new) r (mm_reservations m)) =
    occupied (bytes_at b' new) - occupied (bytes_at b' (mm_reservations m !! r)) +
      map_sum (λ x, occupied (charge_of b' x)) (mm_reservations m)) as Hcount.
  { intros b'. rewrite map_sum_alter. unfold bytes_at. by destruct new, (mm_reservations m !! r). }
  destruct Hm as [Hpar Hbud Hres Hro]. constructor; unfold put_budget; cbn [mm_parent mm_budgets mm_reservations mm_residents fst snd].
  - unfold charged, holding in *. cbn [mm_budgets mm_residents].
    rewrite !map_sum_insert, Hs. cbn [from_option].
    destruct Hb' as [-> -> _ _ _]. by match goal with H : resident_ok ?a ?b _ |- resident_ok ?a' ?b' _ =>
      replace a' with a by lia; replace b' with b by lia end.
  - intros b' x [[<- <-]|[Hne Hx]]%lookup_insert_Some.
    + rewrite Hsum, Hcount, <-Hu, <-Ha. fold c n.
      by match goal with H : budget_ok ?a ?b _ |- budget_ok ?a' ?b' _ =>
        replace a' with a by lia; replace b' with b by lia end.
    + rewrite Hsum, Hcount.
      assert (∀ o, (∀ x, o = Some x → rs_budget x = b) → bytes_at b' o = 0) as H0.
      { intros [y|] Hy; simpl; [|done]. unfold charge_of. rewrite (Hy y eq_refl). by case_decide. }
      rewrite !H0 by naive_solver. rewrite !Z.sub_diag, !Z.add_0_l. by apply Hbud.
  - intros r' x [[<- Hx]|[Hne Hx]]%lookup_partial_alter_Some.
    + destruct (Hnew x Hx) as [-> Hok]. by rewrite lookup_insert_eq.
    + destruct (Hres r' x Hx) as [Hx' Hok]. split; [|done].
      destruct (decide (rs_budget x = b)) as [->|]; [by rewrite lookup_insert_eq|by rewrite lookup_insert_ne].
  - done.
Qed.
End sound.

(** ** Every operation keeps the accounts *)
Section operations.
Context (m : Memory) (Hm : Sound m).

(** A resize of the reservation at [r] (or of a new one), whose outcome is [new]. *)
Lemma resize_sound b s r component next exhaust old new p' s' res :
  mm_budgets m !! b = Some s → mm_reservations m !! r = old →
  (∀ x, old = Some x → rs_budget x = b) →
  (∀ x, new = Some x → rs_budget x = b ∧ reservation_ok x) → 0 ≤ next →
  resize_inner (mm_parent m) s component (bytes_at b old) next exhaust = ((p', s'), res) →
  bytes_at b new = (match res with Ok _ => next | Err _ => bytes_at b old end) →
  Sound (put_budget m b (p', s') (partial_alter (λ _, new) r)).
Proof.
  intros Hs <- Hold Hnew Hn Hr Hb. pose proof (so_budgets m Hm b s Hs) as Hok.
  destruct (charge_facts m Hm b s r Hs) as (Hc & Ho & Hoc).
  destruct (budget_facts m Hm b s Hs) as (HA & HU & HUu). pose proof (bok_used _ _ _ Hok) as Hu. pose proof (bok_active _ _ _ Hok) as Ha.
  rewrite <-Hu in Hc, Hoc, Hok. rewrite <-Ha in Ho, Hoc, Hok.
  pose proof (resize_inner_ok (charged m) (holding m) _ _ _ s component _ next exhaust
    (so_parent m Hm) Hok HA HU HUu Hc Ho Hoc Hn) as H.
  rewrite Hr in H. destruct res; simpl in Hb.
  - destruct H as (H1 & H2 & _). apply (put_sound m Hm b s r new p' s'); [done..| |]; by rewrite Hb.
  - destruct H as (_ & H1 & H2). apply (put_sound m Hm b s r new p' s'); [done..| |]; rewrite Hb;
      by rewrite Z.sub_add, Z.sub_add.
Qed.

(** An update that leaves the charges alone. *)
Lemma same_charge_sound b s r new s' :
  mm_budgets m !! b = Some s → (∀ x, mm_reservations m !! r = Some x → rs_budget x = b) →
  (∀ x, new = Some x → rs_budget x = b ∧ reservation_ok x) →
  bytes_at b new = bytes_at b (mm_reservations m !! r) →
  budget_ok (bg_used_bytes s) (bg_active_reservations s) s' →
  Sound (put_budget m b (mm_parent m, s') (partial_alter (λ _, new) r)).
Proof.
  intros Hs Hold Hnew Hb Hs'. apply (put_sound m Hm b s r new); [done..| |]; rewrite Hb.
  - rewrite !Z.sub_add. apply Hm.
  - by rewrite !Z.sub_add.
Qed.
Lemma budget_ok_self b s : mm_budgets m !! b = Some s →
  budget_ok (bg_used_bytes s) (bg_active_reservations s) s.
Proof.
  intros Hs. pose proof (so_budgets m Hm b s Hs) as H.
  by rewrite (bok_used _ _ _ H), (bok_active _ _ _ H).
Qed.

Lemma put_parent_sound o new p' :
  (∀ x, new = Some x → 0 ≤ ro_bytes x) →
  let c := from_option ro_bytes 0 (mm_residents m !! o) in
  let n := from_option ro_bytes 0 new in
  resident_ok (charged m - c + n) (holding m - occupied c + occupied n) p' →
  Sound (put_parent m p' (partial_alter (λ _, new) o)).
Proof.
  intros Hnew c n Hp. destruct Hm as [Hpar Hbud Hres Hro].
  constructor; unfold put_parent; cbn [mm_parent mm_budgets mm_reservations mm_residents]; [|done..|].
  - unfold charged, holding in *. cbn [mm_budgets mm_residents]. rewrite !map_sum_alter.
    assert (∀ q : option Resident, from_option (λ x, occupied (ro_bytes x)) 0 q = occupied (from_option ro_bytes 0 q))
      as Hq by (by intros []).
    rewrite !Hq. fold c n. by match goal with H : resident_ok ?a ?b _ |- resident_ok ?a' ?b' _ =>
      replace a' with a by lia; replace b' with b by lia end.
  - intros o' x [[<- Hx]|[Hne Hx]]%lookup_partial_alter_Some; [by apply Hnew|by apply (Hro o')].
Qed.
Lemma resident_facts o : let c := from_option ro_bytes 0 (mm_residents m !! o) in
  0 ≤ c ≤ charged m ∧ occupied c ≤ holding m ∧ holding m - occupied c ≤ charged m - c.
Proof.
  intros c.
  assert (∀ k x, mm_budgets m !! k = Some x → 0 ≤ bg_active_reservations x ≤ bg_used_bytes x) as Hb.
  { intros k x Hx. destruct (so_budgets m Hm k x Hx) as [-> -> ? _ _]. lia. }
  assert (∀ k x, delete o (mm_residents m) !! k = Some x → 0 ≤ occupied (ro_bytes x) ≤ ro_bytes x) as Hr.
  { intros k x [_ Hx]%lookup_delete_Some. apply occupied_range. by eapply so_residents. }
  assert (map_sum ro_bytes (mm_residents m) = c + map_sum ro_bytes (delete o (mm_residents m)) ∧
    map_sum (λ x, occupied (ro_bytes x)) (mm_residents m) = occupied c +
      map_sum (λ x, occupied (ro_bytes x)) (delete o (mm_residents m)) ∧ 0 ≤ c) as (E1 & E2 & Hc).
  { unfold c. destruct (mm_residents m !! o) as [x|] eqn:E; simpl.
    - rewrite (map_sum_delete _ _ _ _ E), (map_sum_delete (λ x, occupied (ro_bytes x)) _ _ _ E).
      split; [done|]. split; [done|]. by eapply so_residents.
    - by rewrite !delete_id. }
  unfold charged, holding. rewrite E1, E2.
  pose proof (map_sum_le _ _ _ (λ k x H, proj2 (Hb k x H))).
  pose proof (map_sum_nonneg _ _ (λ k x H, proj1 (Hb k x H))).
  pose proof (map_sum_le (λ x, occupied (ro_bytes x)) ro_bytes _ (λ k x H, proj2 (Hr k x H))).
  pose proof (map_sum_nonneg (λ x, occupied (ro_bytes x)) _ (λ k x H, proj1 (Hr k x H))).
  pose proof (occupied_range c Hc). lia.
Qed.
Lemma resize_resident_sound o new next p' granted : 0 ≤ next →
  try_resize (mm_parent m) (from_option ro_bytes 0 (mm_residents m !! o)) next = (p', granted) →
  (∀ x, new = Some x → 0 ≤ ro_bytes x) →
  from_option ro_bytes 0 new =
    (if granted then next else from_option ro_bytes 0 (mm_residents m !! o)) →
  Sound (put_parent m p' (partial_alter (λ _, new) o)).
Proof.
  intros Hn Ht Hnew Hb. destruct (resident_facts o) as (Hc & Ho & Hoc).
  pose proof (try_resize_ok _ _ _ _ next (so_parent m Hm) Hc Ho Hoc Hn) as H. rewrite Ht in H.
  apply put_parent_sound; [done|]. rewrite Hb. destruct H as [(E & H)|(E & _ & H)]; simpl in E, H; subst; [done|].
  by rewrite !Z.sub_add.
Qed.
End operations.

Lemma put_budget_absent m b ps r : mm_reservations m !! r = None →
  put_budget m b ps id = put_budget m b ps (partial_alter (λ _, None) r).
Proof. intros Hr. unfold put_budget. f_equal. change (mm_reservations m = delete r (mm_reservations m)). by rewrite delete_id. Qed.
Lemma put_parent_absent m p o : mm_residents m !! o = None →
  put_parent m p id = put_parent m p (partial_alter (λ _, None) o).
Proof. intros Hr. unfold put_parent. f_equal. change (mm_residents m = delete o (mm_residents m)). by rewrite delete_id. Qed.

Section perform.
Context (m : Memory) (Hm : Sound m).

Lemma with_reservation_sound r f :
  (∀ s x, mm_reservations m !! r = Some x → mm_budgets m !! rs_budget x = Some s →
    reservation_ok x → Sound (f s x)) → Sound (with_reservation m r f).
Proof.
  intros Hf. unfold with_reservation. destruct (mm_reservations m !! r) as [x|] eqn:Hx; [|done].
  destruct (so_reservations m Hm r x Hx) as [[s Hs] Hok]. rewrite Hs. by apply Hf.
Qed.
Lemma bytes_at_own x : bytes_at (rs_budget x) (Some x) = rs_bytes x.
Proof. simpl. unfold charge_of. by case_decide. Qed.

Lemma reserve_sound b s r component bytes : mm_budgets m !! b = Some s →
  mm_reservations m !! r = None → 0 ≤ bytes →
  let '(ps, res) := reserve (mm_parent m) s b component bytes in
  Sound (put_budget m b ps (match res with Ok x => <[r := x]> | Err _ => id end)).
Proof.
  intros Hs Hr Hn. unfold reserve, reservation_resize. cbn [rs_released rs_component rs_bytes].
  destruct (resize_inner _ _ _ _ _ _) as [[p' s'] [[]|e]] eqn:E.
  - apply (resize_sound m Hm b s r component bytes true None
      (Some (mk_reservation b component bytes false 1)) p' s' (Ok ())); try done.
    + intros x [= <-]. split; [done|]. by split_and!.
    + simpl. unfold charge_of. by case_decide.
  - unfold reservation_drop. cbn [rs_released rs_bytes orb]. rewrite Z.eqb_refl.
    rewrite (put_budget_absent _ _ _ r Hr).
    by apply (resize_sound m Hm b s r component bytes true None None p' s' (Err e)).
Qed.
Lemma scratch_sound b s r bytes : mm_budgets m !! b = Some s →
  mm_reservations m !! r = None → 0 ≤ bytes →
  let '(ps, res) := reserve_observation_scratch (mm_parent m) s b bytes in
  Sound (put_budget m b ps (match res with Some x => <[r := x]> | None => id end)).
Proof.
  intros Hs Hr Hn. unfold reserve_observation_scratch.
  destruct (resize_inner _ _ _ _ _ _) as [[p' s'] [[]|e]] eqn:E.
  - apply (resize_sound m Hm b s r StreamRetainedState bytes false None
      (Some (mk_reservation b StreamRetainedState bytes false 1)) p' s' (Ok ())); try done.
    + intros x [= <-]. split; [done|]. by split_and!.
    + simpl. unfold charge_of. by case_decide.
  - rewrite (put_budget_absent _ _ _ r Hr).
    by apply (resize_sound m Hm b s r StreamRetainedState bytes false None None p' s' (Err e)).
Qed.

Lemma resize_op_sound r bytes : 0 ≤ bytes → Sound (perform m (Resize r bytes)).
Proof.
  intros Hn. apply with_reservation_sound. intros s x Hx Hs Hok. unfold reservation_resize.
  destruct (rs_released x) eqn:Hrel.
  { apply same_charge_sound with (s := s) (new := Some x); [done..|naive_solver| |by rewrite Hx|].
    - by intros ? [= <-].
    - by apply (budget_ok_self m Hm (rs_budget x)). }
  rewrite <-(bytes_at_own x).
  destruct (resize_inner _ _ _ _ _ _) as [[p' s'] [[]|e]] eqn:E.
  - eapply (resize_sound m Hm (rs_budget x) s r _ bytes true (Some x) (Some (set_bytes bytes x)) p' s' (Ok ()));
      try done; [naive_solver| |].
    + intros ? [= <-]. split; [done|]. destruct Hok as (_ & Hrl & Ho). unfold reservation_ok, set_bytes. simpl.
      split_and!; [done|congruence|done].
    + simpl. unfold charge_of. by case_decide.
  - eapply (resize_sound m Hm (rs_budget x) s r _ bytes true (Some x) (Some x) p' s' (Err e)); try done;
      naive_solver.
Qed.
(** A release and a last drop: the whole charge is given back. *)
Lemma give_back_sound s r x new : mm_reservations m !! r = Some x →
  mm_budgets m !! rs_budget x = Some s → reservation_ok x →
  (∀ y, new = Some y → rs_budget y = rs_budget x ∧ reservation_ok y) → bytes_at (rs_budget x) new = 0 →
  Sound (put_budget m (rs_budget x) (resize_inner (mm_parent m) s (rs_component x) (rs_bytes x) 0 true).1
    (partial_alter (λ _, new) r)).
Proof.
  intros Hx Hs Hok Hnew Hb. destruct (resize_inner _ _ _ _ _ _) as [[p' s'] res] eqn:E.
  assert (res = Ok ()) as ->.
  { unfold resize_inner in E. destruct Hok as [Hpos _]. destruct (Z.leb_spec 0 (rs_bytes x)); [|lia].
    by injection E. }
  rewrite <-(bytes_at_own x) in E.
  eapply (resize_sound m Hm (rs_budget x) s r _ 0 true (Some x) new p' s' (Ok ())); try done. naive_solver.
Qed.
Lemma release_sound r : Sound (perform m (Release r)).
Proof.
  apply with_reservation_sound. intros s x Hx Hs Hok. unfold reservation_release.
  destruct (rs_released x) eqn:Hrel.
  { apply same_charge_sound with (s := s) (new := Some x); [done..|naive_solver| |by rewrite Hx|].
    - by intros ? [= <-].
    - by apply (budget_ok_self m Hm (rs_budget x)). }
  apply give_back_sound; [done..| |].
  - intros ? [= <-]. split; [done|]. destruct Hok as (_ & _ & Ho). by split_and!.
  - simpl. unfold charge_of. by case_decide.
Qed.
Lemma drop_sound r : Sound (perform m (Drop r)).
Proof.
  apply with_reservation_sound. intros s x Hx Hs Hok. destruct (Z.ltb_spec 1 (rs_owners x)).
  { apply same_charge_sound with (s := s) (new := Some (set_owners (rs_owners x - 1) x)); [done..|naive_solver| | |].
    - intros ? [= <-]. split; [done|]. destruct Hok as (? & ? & ?). split_and!; simpl; [done..|lia].
    - by rewrite Hx.
    - by apply (budget_ok_self m Hm (rs_budget x)). }
  unfold reservation_drop. destruct (rs_released x || (rs_bytes x =? 0)) eqn:Hz.
  - apply same_charge_sound with (s := s) (new := None); [done..|naive_solver|done| |].
    + rewrite Hx, bytes_at_own. simpl. destruct Hok as (_ & Hr & _).
      apply orb_true_iff in Hz as [Hz| ->%Z.eqb_eq]; [by rewrite Hr|done].
    + by apply (budget_ok_self m Hm (rs_budget x)).
  - by apply (give_back_sound s r x None).
Qed.
Lemma share_sound r : Sound (perform m (Share r)).
Proof.
  apply with_reservation_sound. intros s x Hx Hs Hok.
  apply same_charge_sound with (s := s) (new := Some (set_owners (rs_owners x + 1) x)); [done..|naive_solver| | |].
  - intros ? [= <-]. split; [done|]. destruct Hok as (? & ? & ?). split_and!; simpl; [done..|lia].
  - by rewrite Hx.
  - by apply (budget_ok_self m Hm (rs_budget x)).
Qed.
End perform.

Lemma perform_sound m op : Sound m → op_ok op → Sound (perform m op).
Proof.
  intros Hm Hop. destruct op as [limit|b n|b r c n|b r n|b c n|r n|r|r|r|o n|o|o]; simpl in Hop.
  - destruct Hm as [[??[??]?] ???]. by constructor; [split|..].
  - simpl. destruct (mm_budgets m !! b) as [s|] eqn:Hb; [done|].
    assert (∀ f, f 0 = 0 → map_sum (λ x, f (charge_of b x)) (mm_reservations m) = 0) as H0.
    { intros f Hf. apply map_sum_zero. intros r x Hx. unfold charge_of. case_decide as E; [|done].
      destruct (so_reservations m Hm r x Hx) as [[s Hs] _]. congruence. }
    destruct Hm as [Hp Hbs Hr Ho]. constructor; unfold put_budget; cbn [mm_parent mm_budgets mm_reservations mm_residents fst snd id].
    + unfold charged, holding in *. cbn [mm_budgets mm_residents].
      rewrite !(map_sum_fresh _ _ b) by done. done.
    + intros b' s [[<- <-]|[_ Hs]]%lookup_insert_Some; [|by apply Hbs].
      pose proof (H0 id eq_refl) as Hz. change (map_sum (charge_of b) (mm_reservations m) = 0) in Hz.
      rewrite Hz, (H0 occupied) by done. unfold budget_new. split; simpl; unfold USIZE_MAX, U64_MAX in *; lia.
    + intros r x Hx. destruct (Hr r x Hx) as [Hx' Hok]. split; [|done].
      destruct (decide (rs_budget x = b)) as [->|]; [by rewrite lookup_insert_eq|by rewrite lookup_insert_ne].
    + done.
  - simpl. destruct (mm_budgets m !! b) as [s|] eqn:Hb; [|done].
    destruct (mm_reservations m !! r) eqn:Hr; [done|].
    pose proof (reserve_sound m Hm b s r c n Hb Hr Hop). by destruct (reserve _ _ _ _ _).
  - simpl. destruct (mm_budgets m !! b) as [s|] eqn:Hb; [|done].
    destruct (mm_reservations m !! r) eqn:Hr; [done|].
    pose proof (scratch_sound m Hm b s r n Hb Hr Hop). by destruct (reserve_observation_scratch _ _ _ _).
  - simpl. destruct (mm_budgets m !! b) as [s|] eqn:Hb; [|done].
    assert (mm_reservations m !! fresh (dom (mm_reservations m)) = None) as Hr
      by apply not_elem_of_dom, is_fresh.
    rewrite (put_budget_absent _ _ _ _ Hr).
    apply same_charge_sound with (s := s); rewrite ?Hr; try done.
    destruct (budget_ok_self m Hm b s Hb). by split.
  - by apply resize_op_sound.
  - by apply release_sound.
  - by apply share_sound.
  - by apply drop_sound.
  - simpl. destruct (mm_residents m !! o) eqn:Ho; [done|]. unfold resident_reserve.
    destruct (try_resize _ _ _) as [p granted] eqn:E. destruct granted.
    + apply (resize_resident_sound m Hm o (Some (mk_resident_owner n 1)) n p true); rewrite ?Ho; try done.
      by intros ? [= <-].
    + rewrite (put_parent_absent _ _ _ Ho).
      by apply (resize_resident_sound m Hm o None n p false); rewrite ?Ho.
  - simpl. destruct (mm_residents m !! o) as [x|] eqn:Ho; [|done]. pose proof (so_residents m Hm o x Ho).
    apply (put_parent_sound m Hm o (Some _)); [by intros ? [= <-]|]. rewrite Ho. simpl.
    rewrite !Z.sub_add. apply Hm.
  - simpl. destruct (mm_residents m !! o) as [x|] eqn:Ho; [|done]. pose proof (so_residents m Hm o x Ho).
    destruct (1 <? ro_owners x).
    + apply (put_parent_sound m Hm o (Some _)); [by intros ? [= <-]|]. rewrite Ho. simpl.
      rewrite !Z.sub_add. apply Hm.
    + unfold resident_drop. destruct (try_resize _ _ _) as [p granted] eqn:E.
      pose proof (try_resize_shrink (mm_parent m) (ro_bytes x) 0 ltac:(lia)) as Hg. rewrite E in Hg.
      simpl in Hg. subst granted. by apply (resize_resident_sound m Hm o None 0 p true); rewrite ?Ho.
Qed.
Lemma perform_all_sound m ops : Sound m → Forall op_ok ops → Sound (perform_all m ops).
Proof.
  intros Hm Hops. revert m Hm. induction Hops as [|op ops Hop _ IH]; intros m Hm; [done|].
  apply IH. by apply perform_sound.
Qed.
Lemma memory_new_sound limit : Sound (memory_new limit).
Proof. constructor; [|intros ?? H; inversion H..]. by split. Qed.
Lemma reachable_sound limit ops : Forall op_ok ops → Sound (perform_all (memory_new limit) ops).
Proof. apply perform_all_sound, memory_new_sound. Qed.

(** ** The budgets' sums are the sum over the reservations *)
Lemma sum_at_key {A} (m : gmap positive A) b v : is_Some (m !! b) →
  sum_by (λ e : positive * A, if decide (b = e.1) then v else 0) (map_to_list m) = v.
Proof.
  intros [x Hx]. rewrite <-(map_to_list_delete m b x Hx). simpl. rewrite decide_True by done.
  assert (sum_by (λ e : positive * A, if decide (b = e.1) then v else 0) (map_to_list (delete b m)) = 0); [|lia].
  rewrite (sum_by_ext _ (λ _, 0)).
  - induction (map_to_list (delete b m)); simpl; lia.
  - intros [b' y] Hy%elem_of_map_to_list. apply lookup_delete_Some in Hy as [Hne _]. simpl. by rewrite decide_False.
Qed.
Lemma sum_by_plus {A} (f g : A → Z) l : sum_by (λ x, f x + g x) l = sum_by f l + sum_by g l.
Proof. induction l; simpl; lia. Qed.
Lemma group_by_budget (budgets : gmap positive RequestMemoryState) (rs : gmap positive Reservation)
    (f : Reservation → Z) :
  (∀ r x, rs !! r = Some x → is_Some (budgets !! rs_budget x)) →
  sum_by (λ e : positive * RequestMemoryState,
    map_sum (λ x, if decide (rs_budget x = e.1) then f x else 0) rs) (map_to_list budgets) = map_sum f rs.
Proof.
  induction rs as [|r x rs Hr IH] using map_ind; intros Hrs.
  - rewrite map_sum_empty. rewrite (sum_by_ext _ (λ _, 0)); [|intros; apply map_sum_empty].
    induction (map_to_list budgets); simpl; lia.
  - rewrite map_sum_fresh by done.
    rewrite (sum_by_ext _ (λ e, (if decide (rs_budget x = e.1) then f x else 0) +
      map_sum (λ x, if decide (rs_budget x = e.1) then f x else 0) rs))
      by (intros; by rewrite map_sum_fresh).
    rewrite sum_by_plus, sum_at_key, IH; [done| |].
    + intros r' y Hy. apply (Hrs r' y). rewrite lookup_insert_ne; [done|]. intros ->. congruence.
    + apply (Hrs r x). apply lookup_insert_eq.
Qed.
Lemma map_sum_by_key {A} (f : A → Z) (m : gmap positive A) (g : positive → Z) :
  (∀ b s, m !! b = Some s → f s = g b) → map_sum f m = sum_by (λ e, g e.1) (map_to_list m).
Proof.
  intros Hf. unfold map_sum.
  assert (∀ l : list (positive * A), (∀ e, e ∈ l → f e.2 = g e.1) → sum_by f l.*2 = sum_by (λ e, g e.1) l) as H.
  { induction l as [|e l IH]; simpl; intros He; [done|]. rewrite (He e ltac:(left)). f_equal. apply IH.
    intros e' ?. apply He. by right. }
  apply H. intros [b s] Hb%elem_of_map_to_list. by apply Hf.
Qed.

(** ** Properties *)
(** C28: The memory accounts are exact: after any sequence of operations of the process (reservations taken, refused, resized, shared, released and dropped in any order, limits lowered or lifted) the process counter is the sum of the bytes every live reservation and every resident owner holds, each request's counter is the sum over its own reservations, no request is over its limit or above its recorded high water mark, and the counters of active reservations count the ones that hold bytes; a released or dropped reservation is charged exactly once and given back exactly once. *)
Theorem memory_accounts_exact limit ops (Hops : Forall op_ok ops) :
  let m := perform_all (memory_new limit) ops in
  rm_used_bytes (mm_parent m) =
    map_sum rs_bytes (mm_reservations m) + map_sum ro_bytes (mm_residents m) ∧
  rm_active_reservations (mm_parent m) =
    map_sum (λ x, occupied (rs_bytes x)) (mm_reservations m) +
    map_sum (λ x, occupied (ro_bytes x)) (mm_residents m) ∧
  rm_used_bytes (mm_parent m) ≤ rm_high_water_bytes (mm_parent m) ∧
  ∀ b s, mm_budgets m !! b = Some s →
    bg_used_bytes s = map_sum (charge_of b) (mm_reservations m) ∧
    bg_active_reservations s = map_sum (λ x, occupied (charge_of b x)) (mm_reservations m) ∧
    0 ≤ bg_used_bytes s ≤ bg_high_water_bytes s ∧ bg_high_water_bytes s ≤ bg_limit_bytes s.
Proof.
  intros m. pose proof (reachable_sound limit ops Hops : Sound m) as Hm.
  pose proof Hm as [[Hu Ha _ Hh] Hb Hr _].
  assert (∀ r x, mm_reservations m !! r = Some x → is_Some (mm_budgets m !! rs_budget x)) as Hdom
    by (intros r x Hx; by apply (Hr r x)).
  split_and!.
  - rewrite Hu. unfold charged. f_equal.
    rewrite (map_sum_by_key bg_used_bytes _ (λ b, map_sum (charge_of b) (mm_reservations m)))
      by (intros b s Hs; by apply Hb).
    by rewrite <-(group_by_budget (mm_budgets m) (mm_reservations m) rs_bytes Hdom).
  - rewrite Ha. unfold holding. f_equal.
    rewrite (map_sum_by_key bg_active_reservations _
      (λ b, map_sum (λ x, occupied (charge_of b x)) (mm_reservations m))) by (intros b s Hs; by apply Hb).
    rewrite <-(group_by_budget (mm_budgets m) (mm_reservations m) (λ x, occupied (rs_bytes x)) Hdom).
    apply sum_by_ext. intros e _. apply map_sum_ext. intros r x _. unfold charge_of. by case_decide.
  - lia.
  - intros b s Hs. destruct (Hb b s Hs) as [-> -> ? ? _]. split_and!; (done || lia).
Qed.

Section fits.
Context (m : Memory) (Hm : Sound m).
(** A growth from nothing is granted exactly when it fits what remains. *)
Lemma resize_inner_fits b s component bytes exhaust : mm_budgets m !! b = Some s → 0 < bytes →
  (∀ limit, rm_limit_bytes (mm_parent m) = Some limit → limit ≤ USIZE_MAX) →
  resize_inner (mm_parent m) s component 0 bytes exhaust =
  if bytes <=? budget_remaining (mm_parent m) s
  then ((mk_resident (rm_limit_bytes (mm_parent m)) (rm_used_bytes (mm_parent m) + bytes)
           (Z.max (rm_high_water_bytes (mm_parent m)) (rm_used_bytes (mm_parent m) + bytes))
           (sat_usize (rm_active_reservations (mm_parent m) + 1)) (rm_rejections (mm_parent m)),
         mk_budget (bg_limit_bytes s) (bg_used_bytes s + bytes)
           (Z.max (bg_high_water_bytes s) (bg_used_bytes s + bytes))
           (sat_usize (bg_active_reservations s + 1)) (bg_exhausted s)), Ok ())
  else (((resize_inner (mm_parent m) s component 0 bytes exhaust).1.1,
         set_exhausted (bg_exhausted s || exhaust) s),
        Err (mk_memory_error component bytes (bg_used_bytes s) (bg_limit_bytes s))).
Proof.
  intros Hs Hn Hl. destruct (so_budgets m Hm b s Hs) as [Hu Ha Hr Hlim Hw].
  pose proof (so_parent m Hm) as [Hpu _ Hpr _].
  pose proof (grown_total_remaining (mm_parent m) bytes ltac:(lia) Hn Hl) as Hfit.
  unfold resize_inner, budget_remaining. destruct (Z.leb_spec bytes 0); [lia|].
  rewrite Z.sub_0_r, Z.eqb_refl. destruct (bg_exhausted s) eqn:He; simpl.
  { destruct (Z.leb_spec bytes 0); [lia|done]. }
  assert (sat_usize (bg_limit_bytes s - bg_used_bytes s) = bg_limit_bytes s - bg_used_bytes s) as ->
    by (apply saturate_in; lia).
  destruct (Z.ltb_spec (bg_limit_bytes s - bg_used_bytes s) bytes); simpl.
  { destruct (Z.leb_spec bytes (Z.min (bg_limit_bytes s - bg_used_bytes s) (remaining_bytes (mm_parent m)))); [lia|done]. }
  unfold try_resize. destruct (Z.ltb_spec 0 bytes); [|lia]. rewrite Z.sub_0_r, Z.eqb_refl.
  destruct (grown_total (mm_parent m) bytes) as [total|] eqn:E; simpl.
  - destruct Hfit as [Hfit _]. specialize (Hfit ltac:(done)).
    destruct (Z.leb_spec bytes (Z.min (bg_limit_bytes s - bg_used_bytes s) (remaining_bytes (mm_parent m)))); [|lia].
    apply grown_total_Some in E as (-> & _ & _). f_equal. f_equal.
    assert (sat_usize (bg_used_bytes s + bytes) = bg_used_bytes s + bytes) as -> by (apply saturate_in; lia).
    done.
  - destruct (Z.leb_spec bytes (Z.min (bg_limit_bytes s - bg_used_bytes s) (remaining_bytes (mm_parent m)))); [|done].
    destruct Hfit as [_ Hfit]. destruct Hfit; [lia|done].
Qed.
End fits.

(** A request is refused memory exactly when it must be: in every reachable state a reservation of [bytes > 0] is granted, with exactly its bytes charged, when and only when [bytes] is at most what [remaining_bytes] reports for the budget (the least of what the request and what the process have left, nothing once the budget is exhausted); otherwise nothing is charged, no reservation exists, the budget becomes exhausted and reports no room from then on. *)
Theorem reserve_granted_iff_fits limit ops b s r component bytes (Hops : Forall op_ok ops) :
  let m := perform_all (memory_new limit) ops in
  let m' := perform m (Reserve b r component bytes) in
  mm_budgets m !! b = Some s → mm_reservations m !! r = None → 0 < bytes →
  (∀ limit, rm_limit_bytes (mm_parent m) = Some limit → limit ≤ USIZE_MAX) →
  if bytes <=? budget_remaining (mm_parent m) s
  then mm_reservations m' !! r = Some (mk_reservation b component bytes false 1) ∧
    rm_used_bytes (mm_parent m') = rm_used_bytes (mm_parent m) + bytes ∧
    ∃ s', mm_budgets m' !! b = Some s' ∧ bg_used_bytes s' = bg_used_bytes s + bytes
  else mm_reservations m' = mm_reservations m ∧
    rm_used_bytes (mm_parent m') = rm_used_bytes (mm_parent m) ∧
    ∃ s', mm_budgets m' !! b = Some s' ∧ bg_used_bytes s' = bg_used_bytes s ∧
      bg_exhausted s' = true ∧ budget_remaining (mm_parent m') s' = 0.
Proof.
  intros m m' Hs Hr Hn Hl. pose proof (reachable_sound limit ops Hops : Sound m) as Hm.
  assert (Sound m') as Hm' by (apply perform_sound; [done|simpl; lia]).
  pose proof (resize_inner_fits m Hm b s component bytes true Hs Hn Hl) as Hfit.
  unfold m' in *. cbn [perform] in *. rewrite Hs, Hr in *. unfold reserve, reservation_resize in *.
  cbn [rs_released rs_component rs_bytes] in *.
  pose proof (so_parent m Hm) as [Hpu _ _ _].
  destruct (bytes <=? budget_remaining (mm_parent m) s); rewrite Hfit in *.
  - unfold put_budget. cbn [mm_reservations mm_parent mm_budgets fst snd rm_used_bytes].
    rewrite !lookup_insert_eq. split; [done|]. split; [done|]. by eexists.
  - unfold reservation_drop, put_budget in *. cbn [rs_released rs_bytes orb fst snd] in *.
    rewrite Z.eqb_refl in *. cbn [mm_reservations mm_parent mm_budgets id fst snd] in *.
    rewrite lookup_insert_eq. split; [done|]. split.
    + pose proof (so_parent _ Hm') as [E _ _ _]. cbn [mm_parent] in E. rewrite E, Hpu. unfold charged. cbn [mm_budgets mm_residents].
      rewrite map_sum_insert, Hs. simpl. lia.
    + eexists. split; [done|]. simpl. rewrite orb_true_r. split; [done|]. split; [done|].
      done.
Qed.

(** ** Exhaustion *)
Lemma resize_inner_exhausted p s component current next exhaust : bg_exhausted s = true →
  0 ≤ bg_used_bytes s ≤ USIZE_MAX →
  let s' := (resize_inner p s component current next exhaust).1.2 in
  bg_exhausted s' = true ∧ bg_used_bytes s' ≤ bg_used_bytes s.
Proof.
  intros He Hu. unfold resize_inner. destruct (Z.leb_spec next current); simpl.
  - split; [done|]. unfold sat_usize, saturate. lia.
  - rewrite He. simpl. done.
Qed.

Section exhausted.
Context (b : positive).
(** The budget [b] stays exhausted and its use only shrinks. *)
Definition drained (used : Z) (m : Memory) : Prop := ∃ s, mm_budgets m !! b = Some s ∧
  bg_exhausted s = true ∧ bg_used_bytes s ≤ used.
Lemma drained_put used m b' s ps f : drained used m → mm_budgets m !! b' = Some s →
  (bg_exhausted s = true → bg_exhausted ps.2 = true ∧ bg_used_bytes ps.2 ≤ bg_used_bytes s) →
  drained used (put_budget m b' ps f).
Proof.
  intros (t & Ht & He & Hu) Hs Hps. unfold drained, put_budget. cbn [mm_budgets].
  destruct (decide (b = b')) as [->|Hne]; [|rewrite lookup_insert_ne by done; by exists t].
  rewrite lookup_insert_eq. eexists. split; [done|].
  assert (s = t) as -> by congruence. destruct (Hps He). split; [done|lia].
Qed.
Lemma drained_perform used m op : Sound m → drained used m → drained used (perform m op).
Proof.
  intros Hm Hd.
  assert (∀ b' s p component c n e, mm_budgets m !! b' = Some s → bg_exhausted s = true →
    bg_exhausted (resize_inner p s component c n e).1.2 = true ∧
    bg_used_bytes (resize_inner p s component c n e).1.2 ≤ bg_used_bytes s) as Hri.
  { intros b' s p component c n e Hs He. apply resize_inner_exhausted; [done|].
    destruct (so_budgets m Hm b' s Hs) as [-> _ ? ? ?]. lia. }
  assert (∀ r (f : RequestMemoryState → Reservation → Memory),
    (∀ s x, mm_budgets m !! rs_budget x = Some s → drained used (f s x)) →
    drained used (with_reservation m r f)) as Hwith.
  { intros r f Hf. unfold with_reservation. destruct (mm_reservations m !! r) as [x|]; [|done].
    destruct (mm_budgets m !! rs_budget x) eqn:E; [by apply Hf|done]. }
  destruct op as [limit|b' n|b' r c n|b' r n|b' c n|r n|r|r|r|o n|o|o]; cbn [perform].
  - done.
  - destruct (mm_budgets m !! b') eqn:Hb; [done|]. destruct Hd as (t & Ht & Hd).
    unfold drained, put_budget. cbn [mm_budgets]. rewrite lookup_insert_ne by congruence. by exists t.
  - destruct (mm_budgets m !! b') as [s|] eqn:Hb; [|done]. destruct (mm_reservations m !! r); [done|].
    destruct (reserve _ _ _ _ _) as [ps res] eqn:E. eapply drained_put; [done..|]. intros He.
    unfold reserve, reservation_resize in E. cbn [rs_released rs_component rs_bytes] in E.
    pose proof (Hri b' s (mm_parent m) c 0 n true Hb He) as H.
    destruct (resize_inner _ _ _ _ _ _) as [[p' s'] [[]|e]]; unfold reservation_drop in E; by injection E as <- <-.
  - destruct (mm_budgets m !! b') as [s|] eqn:Hb; [|done]. destruct (mm_reservations m !! r); [done|].
    destruct (reserve_observation_scratch _ _ _ _) as [ps res] eqn:E. eapply drained_put; [done..|]. intros He.
    unfold reserve_observation_scratch in E.
    pose proof (Hri b' s (mm_parent m) StreamRetainedState 0 n false Hb He) as H.
    destruct (resize_inner _ _ _ _ _ _) as [[p' s'] [[]|e]]; by injection E as <- <-.
  - destruct (mm_budgets m !! b') as [s|] eqn:Hb; [|done]. eapply drained_put; [done..|]. done.
  - apply Hwith. intros s x Hb. unfold reservation_resize. destruct (rs_released x); [by eapply drained_put|].
    pose proof (λ He, Hri _ s (mm_parent m) (rs_component x) (rs_bytes x) n true Hb He) as H.
    destruct (resize_inner _ _ _ _ _ _) as [[p' s'] [[]|e]]; by eapply drained_put.
  - apply Hwith. intros s x Hb. unfold reservation_release. destruct (rs_released x); [by eapply drained_put|].
    eapply drained_put; [done..|]. intros He. by eapply Hri.
  - apply Hwith. intros s x Hb. by eapply drained_put.
  - apply Hwith. intros s x Hb. destruct (1 <? rs_owners x); [by eapply drained_put|].
    unfold reservation_drop. destruct (rs_released x || _); [by eapply drained_put|].
    eapply drained_put; [done..|]. intros He. by eapply Hri.
  - destruct (mm_residents m !! o); [done|]. by destruct (resident_reserve _ _).
  - by destruct (mm_residents m !! o).
  - destruct (mm_residents m !! o); [|done]. by destruct (1 <? _).
Qed.
End exhausted.

(** Exhaustion is final: once a request's budget is exhausted, whatever happens afterwards to it or to any other owner of memory, it stays exhausted, reports no remaining bytes, and its use never grows again, while everything it already holds can still be given back. *)
Theorem exhaustion_is_final limit ops later b s (Hops : Forall op_ok ops) (Hlater : Forall op_ok later) :
  let m := perform_all (memory_new limit) ops in
  mm_budgets m !! b = Some s → bg_exhausted s = true →
  ∃ s', mm_budgets (perform_all m later) !! b = Some s' ∧ bg_exhausted s' = true ∧
    bg_used_bytes s' ≤ bg_used_bytes s ∧
    budget_remaining (mm_parent (perform_all m later)) s' = 0.
Proof.
  intros m Hs He. pose proof (reachable_sound limit ops Hops : Sound m) as Hm.
  assert (drained b (bg_used_bytes s) m) as Hd by (exists s; by split_and!).
  clearbody m. clear Hs He. revert m Hm Hd. induction Hlater as [|op later Hop _ IH]; intros m Hm Hd.
  - destruct Hd as (s' & Hs' & He & Hu). exists s'. split_and!; [done..|]. unfold budget_remaining. by rewrite He.
  - apply (IH (perform m op)); [by apply perform_sound|by apply drained_perform].
Qed.

(** ** A concrete run *)
Definition sample_ops : list memory_op :=
  [NewBudget 1 1000; Reserve 1 1 InboundRaw 400; Reserve 1 2 DecodedBody 300; ReserveResident 1 500;
   Resize 2 500; Release 1; Share 2; Drop 2; NewBudget 2 100].
Lemma sample_ops_ok : Forall op_ok sample_ops.
Proof. unfold sample_ops. repeat constructor; simpl; unfold USIZE_MAX, U64_MAX; lia. Qed.

Lemma memory_accounts_exact_witness :
  let m := perform_all (memory_new (Some 2000)) sample_ops in
  rm_used_bytes (mm_parent m) = map_sum rs_bytes (mm_reservations m) + map_sum ro_bytes (mm_residents m).
Proof. exact (proj1 (memory_accounts_exact (Some 2000) sample_ops sample_ops_ok)). Defined.

Lemma reserve_granted_iff_fits_witness :
  let m := perform_all (memory_new (Some 2000)) sample_ops in
  mm_reservations (perform m (Reserve 1 9 ToolArguments 500)) !! 9%positive =
  Some (mk_reservation 1 ToolArguments 500 false 1).
Proof.
  refine (proj1 (reserve_granted_iff_fits (Some 2000) sample_ops 1 (mk_budget 1000 500 900 1 false) 9
    ToolArguments 500 sample_ops_ok _ _ _ _)).
  - vm_compute. reflexivity.
  - vm_compute. reflexivity.
  - lia.
  - intros l Hl. assert (Some 2000 = Some l) as [= <-] by (rewrite <-Hl; vm_compute; reflexivity).
    unfold USIZE_MAX, U64_MAX. lia.
Defined.

Lemma exhaustion_is_final_witness :
  let m := perform_all (memory_new None) (sample_ops ++ [Reject 1 InboundRaw 1]) in
  ∃ s', mm_budgets (perform_all m [Resize 2 5; Reserve 1 3 InboundRaw 1]) !! 1%positive = Some s' ∧
    bg_exhausted s' = true ∧ bg_used_bytes s' ≤ 500 ∧
    budget_remaining (mm_parent (perform_all m [Resize 2 5; Reserve 1 3 InboundRaw 1])) s' = 0.
Proof.
  apply (exhaustion_is_final None (sample_ops ++ [Reject 1 InboundRaw 1]) [Resize 2 5; Reserve 1 3 InboundRaw 1]
    1 (mk_budget 1000 500 900 1 true)).
  - apply Forall_app. split; [apply sample_ops_ok|repeat constructor].
  - repeat constructor; simpl; lia.
  - vm_compute. reflexivity.
  - reflexivity.
Defined.
