(* ===== verification/SerializedSize.v ===== *)
(** * The size of a document before it is written

    [serialized_json_bytes] of [src/proxy/request_memory.rs] against the printer it
    predicts.  The printer is serde_json's and a parameter: the class lists what its
    documentation says of compact output, and an instance shows that the laws can hold. *)
From S2P Require Import Prelude RustStr Json MapSum RequestMemory.
From Stdlib Require Import ZArith Lia Ascii.

Local Open Scope Z_scope.

(** The documented escapes of a string character ([serde_json::ser::CharEscape]). *)
Definition hex_digit (n : Z) : string :=
  String (ascii_of_N (Z.to_N (if n <? 10 then 48 + n else 87 + n))) "".
Definition back (letter : Z) : string :=
  String (ascii_of_N 92) (String (ascii_of_N (Z.to_N letter)) "").
Definition escape (c : ascii) : string :=
  if code c =? 34 then back 34
  else if code c =? 92 then back 92
  else if code c =? 8 then back 98
  else if code c =? 12 then back 102
  else if code c =? 10 then back 110
  else if code c =? 13 then back 114
  else if code c =? 9 then back 116
  else if code c <=? 31 then back 117 +:+ "00" +:+ hex_digit (code c / 16) +:+ hex_digit (code c mod 16)
  else String c "".
Fixpoint escape_all (s : string) : string :=
  match s with "" => "" | String c s' => escape c +:+ escape_all s' end.
Definition quote : string := String (ascii_of_N 34) "".
Definition quoted (s : string) : string := quote +:+ escape_all s +:+ quote.

(** What the documentation of [serde_json::to_string] says of a [Value]. *)
Class CompactPrinter (number_to_string : number → string) (to_string : value → string) : Prop := {
  print_null : to_string Null = "null";
  print_true : to_string (Bool true) = "true";
  print_false : to_string (Bool false) = "false";
  print_number n : to_string (Number n) = number_to_string n;
  print_string s : to_string (VString s) = quoted s;
  print_array l : to_string (Array l) = "[" +:+ String.concat "," (to_string <$> l) +:+ "]";
  print_object m : to_string (Object m) =
    "{" +:+ String.concat "," ((λ kv : string * value, quoted kv.1 +:+ ":" +:+ to_string kv.2) <$> m) +:+ "}";
}.

Lemma str_len_concat l :
  str_len (String.concat "," l) = sum_by (λ s, str_len s + 1) l - (match l with [] => 0 | _ => 1 end).
Proof.
  induction l as [|s l IH]; [done|]. destruct l as [|s' l]; [cbn; lia|].
  change (String.concat "," (s :: s' :: l)) with (s +:+ "," +:+ String.concat "," (s' :: l)).
  rewrite !str_len_app, IH. change (str_len ",") with 1. simpl. lia.
Qed.

Lemma escape_len c : str_len (escape c) = escaped_bytes c.
Proof.
  unfold escape, escaped_bytes. unfold back, hex_digit.
  repeat (destruct (_ =? _); [done|]; cbn [orb]). by destruct (code c <=? 31).
Qed.
Lemma escaped_bytes_pos c : 1 ≤ escaped_bytes c.
Proof. unfold escaped_bytes. destruct (_ || _); [lia|]. destruct (_ <=? _); lia. Qed.
Lemma quoted_bytes_from_len s acc : 0 ≤ acc → acc + str_len (escape_all s) ≤ USIZE_MAX →
  quoted_bytes_from acc s = acc + str_len (escape_all s).
Proof.
  revert acc. induction s as [|c s IH]; intros acc Ha Hm; [change (str_len (escape_all "")) with 0; simpl; lia|].
  cbn [quoted_bytes_from escape_all] in *. rewrite str_len_app, escape_len in *.
  pose proof (escaped_bytes_pos c). pose proof (str_len_nonneg (escape_all s)).
  unfold sat_usize. rewrite saturate_in by lia. rewrite IH; lia.
Qed.
Lemma quoted_len s : str_len (quoted s) = 2 + str_len (escape_all s).
Proof. unfold quoted. rewrite !str_len_app. change (str_len quote) with 1. lia. Qed.
Lemma quoted_bytes_len s : str_len (quoted s) ≤ USIZE_MAX → quoted_bytes s = str_len (quoted s).
Proof. rewrite quoted_len. intros. unfold quoted_bytes. apply quoted_bytes_from_len; lia. Qed.

(** A saturating fold that stays in range is the sum. *)
Lemma sat_foldl {A} (step : Z → A → Z) (f : A → Z) l acc :
  (∀ a x, x ∈ l → 0 ≤ a → a + f x ≤ USIZE_MAX → step a x = a + f x) →
  (∀ x, x ∈ l → 0 ≤ f x) → 0 ≤ acc → acc + sum_by f l ≤ USIZE_MAX →
  foldl step acc l = acc + sum_by f l.
Proof.
  revert acc. induction l as [|x l IH]; intros acc Hs Hf Ha Hm; [simpl; lia|].
  change (sum_by f (x :: l)) with (f x + sum_by f l) in *. cbn [foldl].
  assert (0 ≤ sum_by f l) by (apply sum_by_nonneg; intros y Hy; apply Hf; by right).
  pose proof (Hf x ltac:(left)). rewrite Hs by (left || lia). rewrite IH; try lia.
  - intros a y Hy. apply Hs. by right.
  - intros y Hy. apply Hf. by right.
Qed.
Lemma sum_by_member {A} (f : A → Z) l x : (∀ y, y ∈ l → 0 ≤ f y) → x ∈ l → f x ≤ sum_by f l.
Proof.
  induction l as [|y l IH]; intros Hf Hx; [inversion Hx|].
  change (sum_by f (y :: l)) with (f y + sum_by f l).
  assert (0 ≤ sum_by f l) by (apply sum_by_nonneg; intros z Hz; apply Hf; by right).
  apply elem_of_cons in Hx as [->|Hx]; [lia|].
  pose proof (Hf y ltac:(left)). assert (f x ≤ sum_by f l); [|lia].
  apply IH; [|done]. intros z Hz. apply Hf. by right.
Qed.

Section sizes.
Context (number_to_string : number → string) (to_string : value → string).
Context `{Hprint : !CompactPrinter number_to_string to_string}.
Notation size := (serialized_json_bytes (λ n, str_len (number_to_string n))).

Lemma array_size l : str_len (to_string (Array l)) =
  2 + sum_by (λ v, str_len (to_string v) + 1) l - (match l with [] => 0 | _ => 1 end).
Proof.
  rewrite print_array, !str_len_app, str_len_concat, sum_by_fmap.
  change (str_len "[") with 1. change (str_len "]") with 1. destruct l; simpl; lia.
Qed.
Definition member_size (kv : string * value) : Z :=
  str_len (quoted kv.1) + 1 + str_len (to_string kv.2) + 1.
Lemma object_size m : str_len (to_string (Object m)) =
  2 + sum_by member_size m - (match m with [] => 0 | _ => 1 end).
Proof.
  rewrite print_object, !str_len_app, str_len_concat, sum_by_fmap.
  rewrite (sum_by_ext _ member_size).
  - change (str_len "{") with 1. change (str_len "}") with 1. destruct m; simpl; lia.
  - intros [k v] _. unfold member_size. simpl. rewrite !str_len_app. change (str_len ":") with 1. lia.
Qed.

(** The size predicted before a document is written is its exact compact length: for every JSON value whose compact text is shorter than the address space, escapes in keys and strings included, [serialized_json_bytes] is the number of bytes serde_json prints. *)
Theorem serialized_size_exact v : str_len (to_string v) < USIZE_MAX → size v = str_len (to_string v).
Proof.
  induction v as [|[]|n|s|l IH|m IH] using value_ind'; intros Hlen.
  - by rewrite print_null.
  - by rewrite print_true.
  - by rewrite print_false.
  - by rewrite print_number.
  - rewrite print_string in *. apply quoted_bytes_len. lia.
  - rewrite array_size in *. cbn [serialized_json_bytes].
    assert (∀ v, v ∈ l → 0 ≤ str_len (to_string v) + 1) as Hpos by (intros; pose proof (str_len_nonneg (to_string v)); lia).
    assert (∀ v, v ∈ l → size v = str_len (to_string v)) as Hsize.
    { intros v Hv. rewrite Forall_forall in IH. apply IH; [done|].
      pose proof (sum_by_member _ l v Hpos Hv). destruct l; [inversion Hv|lia]. }
    rewrite (sat_foldl _ (λ n, n + 1)), sum_by_fmap, (sum_by_ext _ (λ v, str_len (to_string v) + 1)).
    + apply saturate_in. pose proof (sum_by_nonneg _ l Hpos). destruct l; lia.
    + intros v Hv. by rewrite Hsize.
    + intros a n (v & -> & Hv)%list_elem_of_fmap Ha Hb. rewrite (Hsize v Hv) in *.
      pose proof (str_len_nonneg (to_string v)). unfold sat_usize. rewrite !saturate_in by (rewrite ?saturate_in by lia; lia). lia.
    + intros n (v & -> & Hv)%list_elem_of_fmap. rewrite (Hsize v Hv). by apply Hpos.
    + lia.
    + rewrite sum_by_fmap, (sum_by_ext _ (λ v, str_len (to_string v) + 1)) by (intros v Hv; by rewrite Hsize).
      destruct l; [done|lia].
  - rewrite object_size in *. cbn [serialized_json_bytes].
    assert (∀ kv, kv ∈ m → 0 ≤ member_size kv) as Hpos.
    { intros kv _. unfold member_size. pose proof (str_len_nonneg (quoted kv.1)). pose proof (str_len_nonneg (to_string kv.2)). lia. }
    assert (∀ kv, kv ∈ m → member_size kv ≤ USIZE_MAX) as Hle.
    { intros kv Hkv. pose proof (sum_by_member _ m kv Hpos Hkv). destruct m; [inversion Hkv|lia]. }
    assert (∀ kv, kv ∈ m → size kv.2 = str_len (to_string kv.2) ∧ quoted_bytes kv.1 = str_len (quoted kv.1)) as Hsize.
    { intros kv Hkv. specialize (Hle kv Hkv). unfold member_size in Hle.
      pose proof (str_len_nonneg (quoted kv.1)). pose proof (str_len_nonneg (to_string kv.2)).
      split; [|apply quoted_bytes_len; lia]. rewrite Forall_forall in IH. apply (IH kv Hkv). lia. }
    rewrite (sat_foldl _ (λ kn : string * Z, quoted_bytes kn.1 + 1 + kn.2 + 1)), sum_by_fmap, (sum_by_ext _ member_size).
    + apply saturate_in. pose proof (sum_by_nonneg _ m Hpos). destruct m; lia.
    + intros kv Hkv. simpl. by destruct (Hsize kv Hkv) as [-> ->].
    + intros a kn (kv & -> & Hkv)%list_elem_of_fmap Ha Hb. simpl in *. destruct (Hsize kv Hkv) as [E1 E2].
      rewrite E1, E2 in *. pose proof (str_len_nonneg (quoted kv.1)). pose proof (str_len_nonneg (to_string kv.2)).
      unfold sat_usize, saturate. lia.
    + intros kn (kv & -> & Hkv)%list_elem_of_fmap. simpl. destruct (Hsize kv Hkv) as [-> ->]. by apply Hpos.
    + lia.
    + rewrite sum_by_fmap, (sum_by_ext _ member_size) by (intros kv Hkv; simpl; by destruct (Hsize kv Hkv) as [-> ->]).
      destruct m; [done|lia].
Qed.
End sizes.

(** ** A printer with the documented behaviour *)
Definition sample_number (n : number) : string :=
  match n with NInt z => pretty z | NFloat text => text end.
Section compact.
Variable print : number → string.
Fixpoint compact_print (v : value) : string :=
  match v with
  | Null => "null"
  | Bool true => "true"
  | Bool false => "false"
  | Number n => print n
  | VString s => quoted s
  | Array l => "[" +:+ String.concat "," (compact_print <$> l) +:+ "]"
  | Object m => "{" +:+ String.concat ","
      ((λ kv : string * value, quoted kv.1 +:+ ":" +:+ compact_print kv.2) <$> m) +:+ "}"
  end.
#[global] Instance compact_print_printer : CompactPrinter print compact_print.
Proof. by constructor. Qed.
End compact.

Definition sample_document : value :=
  Object [("model", VString "gpt-test"); ("input", Array [VString (quote +:+ "a" +:+ back 110); Null; Bool false]);
    (back 9, Object []); ("n", Number (NInt (-42)))].
Lemma serialized_size_exact_witness :
  serialized_json_bytes (λ n, str_len (sample_number n)) sample_document = str_len (compact_print sample_number sample_document).
Proof.
  apply (serialized_size_exact sample_number (compact_print sample_number) sample_document).
  vm_compute. reflexivity.
Defined.
