(* ===== verification/ResponseCache.v ===== *)
(** * The previous-response cache ([src/domain/sharing/previous_response_cache.rs])

    Conversation items kept for a follow-up request, under the scope of the Share, principal,
    provider and account that produced them: bounded by entries and bytes, with least recently
    used eviction, expiry, and tombstones that say why an entry is gone.  The retained bytes
    are charged to the process budget; an owner gives its charge back where Rust drops it. *)
From S2P Require Import Prelude RustStr MapSum ResidentMemory.
From Stdlib Require Import ZArith Lia.

Local Open Scope Z_scope.

(** domain/sharing/previous_response_cache.rs:8-8 [CACHE_TTL_MS] *)
Definition CACHE_TTL_MS : Z := 10 * 60 * 1000.
(** domain/sharing/previous_response_cache.rs:9-9 [CACHE_MAX_BYTES] *)
Definition CACHE_MAX_BYTES : Z := 64 * 1024 * 1024.
(** domain/sharing/previous_response_cache.rs:10-10 [CACHE_MAX_ENTRY_BYTES] *)
Definition CACHE_MAX_ENTRY_BYTES : Z := 8 * 1024 * 1024.
(** domain/sharing/previous_response_cache.rs:11-11 [CACHE_MAX_ENTRIES] *)
Definition CACHE_MAX_ENTRIES : Z := 2000.
(** domain/sharing/previous_response_cache.rs:12-12 [CACHE_MAX_ITEMS_PER_ENTRY] *)
Definition CACHE_MAX_ITEMS_PER_ENTRY : Z := 200.
(** domain/sharing/previous_response_cache.rs:13-13 [CACHE_MAX_RESPONSE_ID_LEN] *)
Definition CACHE_MAX_RESPONSE_ID_LEN : Z := 512.
(** domain/sharing/previous_response_cache.rs:14-14 [TOMBSTONE_TTL_MS] *)
Definition TOMBSTONE_TTL_MS : Z := 2 * 60 * 1000.
(** domain/sharing/previous_response_cache.rs:15-15 [TOMBSTONE_MAX_ENTRIES] *)
Definition TOMBSTONE_MAX_ENTRIES : Z := 4000.

(** ** Keys *)
(** domain/sharing/previous_response_cache.rs:18-30 [PreviousResponseCacheScope] *)
Record PreviousResponseCacheScope := mk_scope {
  sc_share_id : string;
  sc_principal : string;
  sc_provider_id : string;
  sc_provider_revision : Z;
  sc_runtime_fingerprint : string;
  sc_account_id : string;
  sc_account_incarnation : Z;
  sc_auth_identity_generation : Z;
  sc_token_refresh_generation : Z;
  sc_credential_fingerprint : list Z;
  sc_workspace_id : string;
}.
(** domain/sharing/previous_response_cache.rs:33-36 [PreviousResponseCacheKey] *)
Record PreviousResponseCacheKey := mk_key { ck_scope : PreviousResponseCacheScope; ck_response_id : string }.

#[global] Instance scope_eq_dec : EqDecision PreviousResponseCacheScope.
Proof. solve_decision. Defined.
#[global] Instance key_eq_dec : EqDecision PreviousResponseCacheKey.
Proof. solve_decision. Defined.
Definition scope_tuple (s : PreviousResponseCacheScope) :=
  (sc_share_id s, sc_principal s, sc_provider_id s, sc_provider_revision s, sc_runtime_fingerprint s,
   (sc_account_id s, sc_account_incarnation s, sc_auth_identity_generation s,
    sc_token_refresh_generation s, sc_credential_fingerprint s, sc_workspace_id s)).
#[global] Instance scope_countable : Countable PreviousResponseCacheScope.
Proof.
  apply (inj_countable' scope_tuple (λ '(a, b, c, d, e, (f, g, h, i, j, k)), mk_scope a b c d e f g h i j k)).
  by intros [].
Defined.
#[global] Instance key_countable : Countable PreviousResponseCacheKey.
Proof. apply (inj_countable' (λ k, (ck_scope k, ck_response_id k)) (λ '(s, r), mk_key s r)). by intros []. Defined.

(** The derived [Ord]: the fields in order, strings and byte arrays by their bytes. *)
Inductive atom : Type := AText (s : string) | ANumber (n : Z).
Definition atom_cmp (a b : atom) : comparison :=
  match a, b with
  | AText s, AText t => String.compare s t
  | ANumber m, ANumber n => Z.compare m n
  | AText _, ANumber _ => Lt
  | ANumber _, AText _ => Gt
  end.
Fixpoint lex_cmp (l k : list atom) : comparison :=
  match l, k with
  | [], [] => Eq
  | [], _ => Lt
  | _, [] => Gt
  | a :: l', b :: k' => match atom_cmp a b with Eq => lex_cmp l' k' | c => c end
  end.
Definition key_atoms (k : PreviousResponseCacheKey) : list atom :=
  let s := ck_scope k in
  [AText (sc_share_id s); AText (sc_principal s); AText (sc_provider_id s);
   ANumber (sc_provider_revision s); AText (sc_runtime_fingerprint s); AText (sc_account_id s);
   ANumber (sc_account_incarnation s); ANumber (sc_auth_identity_generation s);
   ANumber (sc_token_refresh_generation s)]
  ++ (ANumber <$> sc_credential_fingerprint s)
  ++ [AText (sc_workspace_id s); AText (ck_response_id k)].
Definition cache_key_le (k1 k2 : PreviousResponseCacheKey) : Prop := lex_cmp (key_atoms k1) (key_atoms k2) ≠ Gt.
#[global] Instance cache_key_le_dec : RelDecision cache_key_le.
Proof. intros k1 k2. unfold cache_key_le. apply _. Defined.
(** The keys of a [BTreeMap], in order. *)
Definition ordered_keys {A} (m : gmap PreviousResponseCacheKey A) : list PreviousResponseCacheKey :=
  merge_sort cache_key_le (map_to_list m).*1.

(** [Iterator::min_by_key]: the first of the least elements. *)
Definition pick_least {K} (best : option (K * Z)) (x : K * Z) : option (K * Z) :=
  match best with Some b => if x.2 <? b.2 then Some x else Some b | None => Some x end.
Definition min_by_key {K} (l : list (K * Z)) : option K := fst <$> foldl pick_least None l.

(** ** Data *)
(** domain/sharing/previous_response_cache.rs:49-56 [PreviousResponseUnavailableReason] *)
Inductive PreviousResponseUnavailableReason : Type :=
  | Expired | CountEvicted | ByteEvicted | EntryTooLarge | TooManyItems | MemoryCapacity.

(** domain/sharing/previous_response_cache.rs:39-46 [PreviousResponseCacheEntry] *)
Record PreviousResponseCacheEntry {Value : Type} := mk_cache_entry {
  ce_items : list Value;
  ce_bytes : Z;
  ce_expires_at_ms : Z;
  ce_access_sequence : Z;
  ce_retained_bytes : Z;
}.
Arguments PreviousResponseCacheEntry : clear implicits.
(** domain/sharing/previous_response_cache.rs:59-65 [PreviousResponseTombstone] *)
Record PreviousResponseTombstone := mk_tombstone {
  tb_reason : PreviousResponseUnavailableReason;
  tb_expires_at_ms : Z;
  tb_access_sequence : Z;
  tb_retained_bytes : Z;
}.
(** domain/sharing/previous_response_cache.rs:68-88 [PreviousResponseCacheStats] *)
Record PreviousResponseCacheStats := mk_stats {
  st_current_entries : Z;
  st_current_bytes : Z;
  st_current_tombstones : Z;
  st_current_retained_bytes : Z;
  st_high_water_retained_bytes : Z;
  st_process_capacity_rejections : Z;
  st_high_water_entries : Z;
  st_high_water_bytes : Z;
  st_max_observed_entry_bytes : Z;
  st_max_observed_entry_items : Z;
  st_hits : Z;
  st_misses : Z;
  st_expired : Z;
  st_count_evictions : Z;
  st_byte_evictions : Z;
  st_oversize_entry_rejections : Z;
  st_too_many_items_rejections : Z;
  st_invalid_response_id_rejections : Z;
  st_required_context_unavailable : Z;
}.
Definition stats_default : PreviousResponseCacheStats := mk_stats 0 0 0 0 0 0 0 0 0 0 0 0 0 0 0 0 0 0 0.

(** The counters a step adds one to, saturating. *)
Inductive counter : Type :=
  | CCapacity | CHits | CMisses | CExpired | CCount | CByte | COversize | CItems | CInvalid | CContext.
Definition count_one (c : counter) (s : PreviousResponseCacheStats) : PreviousResponseCacheStats :=
  let up n := sat_u64 (n + 1) in
  let 'mk_stats a b d e f cap g h i j hits misses expired cnt byt over items inv ctx := s in
  match c with
  | CCapacity => mk_stats a b d e f (up cap) g h i j hits misses expired cnt byt over items inv ctx
  | CHits => mk_stats a b d e f cap g h i j (up hits) misses expired cnt byt over items inv ctx
  | CMisses => mk_stats a b d e f cap g h i j hits (up misses) expired cnt byt over items inv ctx
  | CExpired => mk_stats a b d e f cap g h i j hits misses (up expired) cnt byt over items inv ctx
  | CCount => mk_stats a b d e f cap g h i j hits misses expired (up cnt) byt over items inv ctx
  | CByte => mk_stats a b d e f cap g h i j hits misses expired cnt (up byt) over items inv ctx
  | COversize => mk_stats a b d e f cap g h i j hits misses expired cnt byt (up over) items inv ctx
  | CItems => mk_stats a b d e f cap g h i j hits misses expired cnt byt over (up items) inv ctx
  | CInvalid => mk_stats a b d e f cap g h i j hits misses expired cnt byt over items (up inv) ctx
  | CContext => mk_stats a b d e f cap g h i j hits misses expired cnt byt over items inv (up ctx)
  end.
Definition observe_entry (items bytes : Z) (s : PreviousResponseCacheStats) : PreviousResponseCacheStats :=
  let 'mk_stats a b d e f cap g h i j hits misses expired cnt byt over itm inv ctx := s in
  mk_stats a b d e f cap g h (Z.max i bytes) (Z.max j items) hits misses expired cnt byt over itm inv ctx.

(** domain/sharing/previous_response_cache.rs:91-94 [PreviousResponseCacheLookup] *)
Record PreviousResponseCacheLookup {T : Type} := mk_lookup {
  lk_items : option T;
  lk_unavailable_reason : option PreviousResponseUnavailableReason;
}.
Arguments PreviousResponseCacheLookup : clear implicits.
(** domain/sharing/previous_response_cache.rs:97-104 [PreviousResponseCache] *)
Record PreviousResponseCache {Value : Type} := mk_cache {
  pc_entries : gmap PreviousResponseCacheKey (PreviousResponseCacheEntry Value);
  pc_tombstones : gmap PreviousResponseCacheKey PreviousResponseTombstone;
  pc_total_bytes : Z;
  pc_access_sequence : Z;
  pc_stats : PreviousResponseCacheStats;
  pc_parent : ResidentMemorySnapshot;
}.
Arguments PreviousResponseCache : clear implicits.

Section cache.
Context {Value : Type}.
Notation Cache := (PreviousResponseCache Value).
Notation Entry := (PreviousResponseCacheEntry Value).
(** Lengths and sizes the code asks other code for: the bytes serde_json writes for an item,
    [retained_json_bytes], the capacity of a cloned string, and the sizes of the types. *)
Context (encoded_len : Value → option Z) (retained_json_bytes : Value → Z)
  (string_capacity : string → Z) (entry_size tombstone_size value_size usize_size : Z).

Definition set_entries m (c : Cache) : Cache :=
  mk_cache _ m (pc_tombstones c) (pc_total_bytes c) (pc_access_sequence c) (pc_stats c) (pc_parent c).
Definition set_tombstones m (c : Cache) : Cache :=
  mk_cache _ (pc_entries c) m (pc_total_bytes c) (pc_access_sequence c) (pc_stats c) (pc_parent c).
Definition set_total n (c : Cache) : Cache :=
  mk_cache _ (pc_entries c) (pc_tombstones c) n (pc_access_sequence c) (pc_stats c) (pc_parent c).
Definition next_sequence (c : Cache) : Cache :=
  mk_cache _ (pc_entries c) (pc_tombstones c) (pc_total_bytes c)
    ((pc_access_sequence c + 1) mod (U64_MAX + 1)) (pc_stats c) (pc_parent c).
Definition set_stats f (c : Cache) : Cache :=
  mk_cache _ (pc_entries c) (pc_tombstones c) (pc_total_bytes c) (pc_access_sequence c)
    (f (pc_stats c)) (pc_parent c).
Definition set_parent p (c : Cache) : Cache :=
  mk_cache _ (pc_entries c) (pc_tombstones c) (pc_total_bytes c) (pc_access_sequence c) (pc_stats c) p.
(** The last owner of a charge goes away. *)
Definition give_back (bytes : Z) (c : Cache) : Cache := set_parent (resident_drop (pc_parent c) bytes) c.

(** domain/sharing/previous_response_cache.rs:113-122 [with_parent] *)
Definition with_parent (parent : ResidentMemorySnapshot) : Cache := mk_cache _ ∅ ∅ 0 0 stats_default parent.

(** domain/sharing/previous_response_cache.rs:405-410 [cache_key] *)
Definition valid_response_id (response_id : string) : bool :=
  negb (is_empty response_id || (CACHE_MAX_RESPONSE_ID_LEN <? str_len response_id)
        || negb (str_eqb (trim response_id) response_id)).
(** domain/sharing/previous_response_cache.rs:401-415 [cache_key] *)
Definition cache_key (scope : PreviousResponseCacheScope) (response_id : string) :
    option PreviousResponseCacheKey :=
  if valid_response_id response_id then Some (mk_key scope response_id) else None.

(** domain/sharing/previous_response_cache.rs:381-398 [retained_bytes] *)
Definition key_retained_bytes (pair_size : Z) (k : PreviousResponseCacheKey) : Z :=
  let s := ck_scope k in
  foldl (λ bytes v, sat_usize (bytes + string_capacity v)) (sat_usize (pair_size + usize_size * 3))
    [sc_share_id s; sc_principal s; sc_provider_id s; sc_runtime_fingerprint s; sc_account_id s;
     sc_workspace_id s; ck_response_id k].

(** domain/sharing/previous_response_cache.rs:417-436 [encoded_items_size] *)
Definition encoded_items_size (items : list Value) : option Z :=
  foldl (λ total item, total ≫= λ total, encoded_len item ≫= λ n, checked 0 USIZE_MAX (total + n)) (Some 0) items.

(** domain/sharing/previous_response_cache.rs:358-377 [refresh_current_stats] *)
Definition refresh_current_stats (c : Cache) : Cache :=
  let entries := Z.of_nat (size (pc_entries c)) in
  let tombstones := Z.of_nat (size (pc_tombstones c)) in
  let retained :=
    foldl (λ bytes k, sat_usize (bytes + from_option tb_retained_bytes 0 (pc_tombstones c !! k)))
      (foldl (λ bytes k, sat_usize (bytes + from_option ce_retained_bytes 0 (pc_entries c !! k))) 0
        (ordered_keys (pc_entries c)))
      (ordered_keys (pc_tombstones c)) in
  set_stats (λ s,
    let 'mk_stats _ _ _ _ f cap g h i j hits misses expired cnt byt over items inv ctx := s in
    mk_stats entries (pc_total_bytes c) tombstones retained (Z.max f retained) cap (Z.max g entries)
      (Z.max h (pc_total_bytes c)) i j hits misses expired cnt byt over items inv ctx) c.

(** domain/sharing/previous_response_cache.rs:344-354 [mark_tombstone]: one iteration of the loop *)
Definition trim_tombstones_step (c : Cache) : Cache + Cache :=
  if TOMBSTONE_MAX_ENTRIES <? Z.of_nat (size (pc_tombstones c)) then
    match min_by_key ((λ k, (k, from_option tb_access_sequence 0 (pc_tombstones c !! k)))
            <$> ordered_keys (pc_tombstones c)) with
    | None => inr c
    | Some oldest =>
        inl (give_back (from_option tb_retained_bytes 0 (pc_tombstones c !! oldest))
          (set_tombstones (delete oldest (pc_tombstones c)) c))
    end
  else inr c.
(** The loop stops before it runs out of this much fuel, one step for each tombstone. *)
Definition stop {R} (x : R + R) : R := match x with inl r | inr r => r end.
Definition trim_tombstones (c : Cache) : Cache :=
  stop (run (Pos.of_succ_nat (size (pc_tombstones c))) trim_tombstones_step c).

(** domain/sharing/previous_response_cache.rs:320-356 [mark_tombstone] *)
Definition mark_tombstone (k : PreviousResponseCacheKey) (reason : PreviousResponseUnavailableReason)
    (now_ms : Z) (c : Cache) : Cache :=
  let retained_bytes := key_retained_bytes tombstone_size k in
  let '(parent, granted) := resident_reserve (pc_parent c) retained_bytes in
  let c := set_parent parent c in
  if negb granted then refresh_current_stats c
  else
    let c := next_sequence c in
    let replaced := pc_tombstones c !! k in
    let c := set_tombstones (<[k := mk_tombstone reason (sat_i64 (now_ms + TOMBSTONE_TTL_MS))
      (pc_access_sequence c) retained_bytes]> (pc_tombstones c)) c in
    let c := match replaced with Some t => give_back (tb_retained_bytes t) c | None => c end in
    refresh_current_stats (trim_tombstones c).

(** domain/sharing/previous_response_cache.rs:308-314 [cleanup]: one expired key *)
Definition expire_key (now_ms : Z) (c : Cache) (k : PreviousResponseCacheKey) : Cache :=
  match pc_entries c !! k with
  | None => c
  | Some entry =>
      let c := set_entries (delete k (pc_entries c)) c in
      let c := set_total (sat_usize (pc_total_bytes c - ce_bytes entry)) c in
      let c := set_stats (count_one CExpired) c in
      give_back (ce_retained_bytes entry) (mark_tombstone k Expired now_ms c)
  end.
(** domain/sharing/previous_response_cache.rs:315-316 [cleanup]: the tombstones that lapsed *)
Definition retain_tombstones (now_ms : Z) (c : Cache) : Cache :=
  let lapsed := filter (λ k, from_option tb_expires_at_ms 0 (pc_tombstones c !! k) ≤ now_ms)
    (ordered_keys (pc_tombstones c)) in
  foldl (λ c k, give_back (from_option tb_retained_bytes 0 (pc_tombstones c !! k))
    (set_tombstones (delete k (pc_tombstones c)) c)) c lapsed.
(** domain/sharing/previous_response_cache.rs:301-318 [cleanup] *)
Definition cleanup (now_ms : Z) (c : Cache) : Cache :=
  let expired := filter (λ k, from_option ce_expires_at_ms 0 (pc_entries c !! k) ≤ now_ms)
    (ordered_keys (pc_entries c)) in
  refresh_current_stats (retain_tombstones now_ms (foldl (expire_key now_ms) c expired)).

(** domain/sharing/previous_response_cache.rs:144-179 [lookup_with] *)
Definition lookup_with {T} (scope : PreviousResponseCacheScope) (response_id : string) (now_ms : Z)
    (prepare : list Value → T) (c : Cache) : Cache * PreviousResponseCacheLookup T :=
  let c := cleanup now_ms c in
  match cache_key scope response_id with
  | None => (set_stats (count_one CMisses) (set_stats (count_one CInvalid) c), mk_lookup _ None None)
  | Some k =>
      let c := next_sequence c in
      match pc_entries c !! k with
      | Some entry =>
          let touched := mk_cache_entry _ (ce_items entry) (ce_bytes entry) (ce_expires_at_ms entry)
            (pc_access_sequence c) (ce_retained_bytes entry) in
          (set_stats (count_one CHits) (set_entries (<[k := touched]> (pc_entries c)) c),
           mk_lookup _ (Some (prepare (ce_items entry))) None)
      | None =>
          let c := set_stats (count_one CMisses) c in
          match pc_tombstones c !! k with
          | Some t =>
              (set_tombstones (<[k := mk_tombstone (tb_reason t) (tb_expires_at_ms t)
                 (pc_access_sequence c) (tb_retained_bytes t)]> (pc_tombstones c)) c,
               mk_lookup _ None (Some (tb_reason t)))
          | None => (c, mk_lookup _ None None)
          end
      end
  end.
(** domain/sharing/previous_response_cache.rs:133-140 [lookup] *)
Definition lookup scope response_id now_ms (c : Cache) : Cache * PreviousResponseCacheLookup (list Value) :=
  lookup_with scope response_id now_ms (λ items, items) c.
(** domain/sharing/previous_response_cache.rs:124-131 [get] *)
Definition get scope response_id now_ms (c : Cache) : Cache * option (list Value) :=
  let '(c, r) := lookup scope response_id now_ms c in (c, lk_items r).

(** domain/sharing/previous_response_cache.rs:245-274 [insert]: one iteration of the eviction loop.  [inr
    (c, false)] is the early [return false] of a cache with nothing left to evict. *)
Definition evict_step (bytes now_ms : Z) (c : Cache) : Cache + (Cache * bool) :=
  let full := CACHE_MAX_ENTRIES <=? Z.of_nat (size (pc_entries c)) in
  if full || (CACHE_MAX_BYTES <? sat_usize (pc_total_bytes c + bytes)) then
    match min_by_key ((λ k, (k, from_option ce_access_sequence 0 (pc_entries c !! k)))
            <$> ordered_keys (pc_entries c)) with
    | None => inr (c, false)
    | Some oldest =>
        match pc_entries c !! oldest with
        | None => inl c
        | Some removed =>
            let c := set_entries (delete oldest (pc_entries c)) c in
            let c := set_total (sat_usize (pc_total_bytes c - ce_bytes removed)) c in
            let c := set_stats (count_one (if full then CCount else CByte)) c in
            inl (give_back (ce_retained_bytes removed)
              (mark_tombstone oldest (if full then CountEvicted else ByteEvicted) now_ms c))
        end
    end
  else inr (c, true).
(** The loop, with fuel for one step per entry. *)
Definition evict (bytes now_ms : Z) (c : Cache) : Cache * bool :=
  match run (Pos.of_succ_nat (size (pc_entries c))) (evict_step bytes now_ms) c with
  | inr r => r | inl c => (c, false) end.

(** domain/sharing/previous_response_cache.rs:218-230 [insert]: the retained bytes of the new entry *)
Definition entry_retained_bytes (k : PreviousResponseCacheKey) (items : list Value) (capacity : Z) : Z :=
  foldl (λ bytes item, sat_usize (bytes + sat_usize (retained_json_bytes item - value_size)))
    (sat_usize (key_retained_bytes entry_size k + sat_usize (capacity * value_size))) items.

(** domain/sharing/previous_response_cache.rs:231-290 [insert]: an entry within the limits *)
Definition insert_accepted (k : PreviousResponseCacheKey) (items : list Value) (bytes retained_bytes now_ms : Z)
    (c : Cache) : Cache * bool :=
  let '(parent, granted) := resident_reserve (pc_parent c) retained_bytes in
  let c := set_parent parent c in
  if negb granted then
    (mark_tombstone k MemoryCapacity now_ms (set_stats (count_one CCapacity) c), false)
  else
    let c := match pc_tombstones c !! k with
      | Some t => give_back (tb_retained_bytes t) (set_tombstones (delete k (pc_tombstones c)) c)
      | None => c end in
    let c := match pc_entries c !! k with
      | Some previous => give_back (ce_retained_bytes previous)
          (set_total (sat_usize (pc_total_bytes c - ce_bytes previous)) (set_entries (delete k (pc_entries c)) c))
      | None => c end in
    let '(c, room) := evict bytes now_ms c in
    if negb room then (give_back retained_bytes c, false)
    else
      let c := next_sequence c in
      let entry := mk_cache_entry _ items bytes (sat_i64 (now_ms + CACHE_TTL_MS)) (pc_access_sequence c) retained_bytes in
      let c := set_entries (<[k := entry]> (pc_entries c)) c in
      (refresh_current_stats (set_total (sat_usize (pc_total_bytes c + bytes)) c), true).

(** domain/sharing/previous_response_cache.rs:181-290 [insert].  [capacity] is the vector's. *)
Definition insert (scope : PreviousResponseCacheScope) (response_id : string) (items : list Value)
    (capacity now_ms : Z) (c : Cache) : Cache * bool :=
  let c := cleanup now_ms c in
  match cache_key scope response_id with
  | None => (set_stats (count_one CInvalid) c, false)
  | Some k =>
      let len := Z.of_nat (length items) in
      if len =? 0 then (c, false)
      else
        let c := set_stats (observe_entry len 0) c in
        if CACHE_MAX_ITEMS_PER_ENTRY <? len then
          (mark_tombstone k TooManyItems now_ms (set_stats (count_one CItems) c), false)
        else
          match encoded_items_size items with
          | None => (c, false)
          | Some bytes =>
              let c := set_stats (observe_entry 0 bytes) c in
              if (CACHE_MAX_ENTRY_BYTES <? bytes) || (CACHE_MAX_BYTES <? bytes) then
                (mark_tombstone k EntryTooLarge now_ms (set_stats (count_one COversize) c), false)
              else insert_accepted k items bytes (entry_retained_bytes k items capacity) now_ms c
          end
  end.

(** domain/sharing/previous_response_cache.rs:296-299 [record_required_context_unavailable] *)
Definition record_required_context_unavailable (c : Cache) : Cache := set_stats (count_one CContext) c.
End cache.
