(* ===== verification/ResponseCacheProofs.v ===== *)
(** * The previous-response cache is bounded and truthful

    Bounds, exact totals and exact memory charges after any sequence of operations; a hit
    returns the last items inserted under the very key, and an inserted entry is found until
    it expires as long as nothing else is inserted. *)
From S2P Require Import Prelude RustStr MapSum ResidentMemory ResponseCache.
From Stdlib Require Import ZArith Lia.

Local Open Scope Z_scope.

(** ** Generic lemmas *)
Lemma pick_least_foldl {K} (l : list (K * Z)) best :
  ∃ r, foldl pick_least (Some best) l = Some r ∧ r ∈ best :: l ∧ ∀ x, x ∈ best :: l → r.2 ≤ x.2.
Proof.
  revert best. induction l as [|x l IH]; intros best; simpl.
  - exists best. split; [done|]. split; [left|]. intros x ->%list_elem_of_singleton. lia.
  - destruct (Z.ltb_spec x.2 best.2); [destruct (IH x) as (r & Hr & Hin & Hle)|
      destruct (IH best) as (r & Hr & Hin & Hle)]; exists r; (split; [done|]).
    + split; [by right|]. pose proof (Hle x ltac:(left)).
      intros y [->|Hy]%elem_of_cons; [lia|by apply Hle].
    + pose proof (Hle best ltac:(left)). split.
      * apply elem_of_cons in Hin as [->|Hin]; [left|by right; right].
      * intros y [->|[->|Hy]%elem_of_cons]%elem_of_cons; [lia|lia|]. apply Hle. by right.
Qed.
(** The least element of a sequence that is not empty. *)
Lemma min_by_key_Some {K} (l : list (K * Z)) : l ≠ [] →
  ∃ k n, min_by_key l = Some k ∧ (k, n) ∈ l ∧ ∀ x, x ∈ l → n ≤ x.2.
Proof.
  destruct l as [|x l]; [done|]. intros _. unfold min_by_key. simpl.
  destruct (pick_least_foldl l x) as ([k n] & -> & Hin & Hle). by exists k, n.
Qed.
Lemma elem_of_ordered_keys {A} (m : gmap PreviousResponseCacheKey A) k :
  k ∈ ordered_keys m ↔ is_Some (m !! k).
Proof.
  unfold ordered_keys. rewrite merge_sort_Permutation, list_elem_of_fmap. split.
  - intros ([k' x] & -> & Hx%elem_of_map_to_list). by exists x.
  - intros [x Hx]. exists (k, x). by rewrite elem_of_map_to_list.
Qed.
(** The victim of an eviction: a key of the map whose sequence number is the least. *)
Lemma oldest_key {A} (m : gmap PreviousResponseCacheKey A) (seq : A → Z) : (0 < size m)%nat →
  ∃ k x, min_by_key ((λ k, (k, from_option seq 0 (m !! k))) <$> ordered_keys m) = Some k ∧
    m !! k = Some x ∧ ∀ k' x', m !! k' = Some x' → seq x ≤ seq x'.
Proof.
  intros Hm. destruct (min_by_key_Some ((λ k, (k, from_option seq 0 (m !! k))) <$> ordered_keys m))
    as (k & n & Hk & Hin & Hle).
  - intros E%fmap_nil_inv. assert (m = ∅) as ->; [|rewrite map_size_empty in Hm; lia].
    apply map_empty. intros k. destruct (m !! k) eqn:Ek; [|done].
    assert (k ∈ ordered_keys m) as Hk by (apply elem_of_ordered_keys; by eexists). rewrite E in Hk. inversion Hk.
  - apply list_elem_of_fmap in Hin as (k' & [= <- ->] & [x Hx]%elem_of_ordered_keys).
    exists k, x. split; [done|]. split; [done|]. intros k' x' Hx'.
    specialize (Hle (k', from_option seq 0 (m !! k'))). rewrite Hx, Hx' in Hle. apply Hle.
    apply list_elem_of_fmap. exists k'. split; [by rewrite Hx'|]. apply elem_of_ordered_keys. by eexists.
Qed.

(** What a charge does to the bytes in use. *)
Lemma try_resize_used s current next : 0 ≤ current ≤ rm_used_bytes s → rm_used_bytes s ≤ USIZE_MAX →
  rm_used_bytes (try_resize s current next).1 =
    (if (try_resize s current next).2 then rm_used_bytes s - current + next else rm_used_bytes s) ∧
  rm_used_bytes (try_resize s current next).1 ≤ USIZE_MAX ∨ next < 0.
Proof.
  intros Hc Hu. destruct (Z.ltb_spec next 0); [by right|left]. unfold try_resize.
  destruct (Z.ltb_spec current next).
  - destruct (grown_total s (next - current)) as [t|] eqn:E; [|done].
    apply grown_total_Some in E as (-> & ? & _). simpl. lia.
  - simpl. unfold sat_usize, saturate. lia.
Qed.

Section proofs.
Context {Value : Type}.
Notation Cache := (PreviousResponseCache Value).
Context (encoded_len : Value → option Z) (retained_json_bytes : Value → Z)
  (string_capacity : string → Z) (entry_size tombstone_size value_size usize_size : Z).
Notation mark_tombstone := (mark_tombstone string_capacity tombstone_size usize_size).
Notation expire_key := (expire_key string_capacity tombstone_size usize_size).
Notation cleanup := (cleanup string_capacity tombstone_size usize_size).
Notation evict_step := (evict_step string_capacity tombstone_size usize_size).
Notation evict := (evict string_capacity tombstone_size usize_size).
Notation insert_accepted := (insert_accepted string_capacity tombstone_size usize_size).
Notation insert := (insert encoded_len retained_json_bytes string_capacity entry_size tombstone_size
  value_size usize_size).
Notation lookup_with := (lookup_with string_capacity tombstone_size usize_size).
Implicit Types (c : Cache) (k : PreviousResponseCacheKey).

(** ** The invariant *)
Definition held c : Z := map_sum ce_retained_bytes (pc_entries c) + map_sum tb_retained_bytes (pc_tombstones c).
(** The bytes in use are [others], which the cache does not hold, and what it holds. *)
Record Charged (others : Z) c : Prop := {
  ch_used : rm_used_bytes (pc_parent c) = others + held c;
  ch_others : 0 ≤ others;
  ch_width : rm_used_bytes (pc_parent c) ≤ USIZE_MAX;
  ch_entries : ∀ k e, pc_entries c !! k = Some e → 0 ≤ ce_retained_bytes e;
  ch_tombstones : ∀ k t, pc_tombstones c !! k = Some t → 0 ≤ tb_retained_bytes t;
}.
Definition entry_within (e : PreviousResponseCacheEntry Value) : Prop :=
  1 ≤ Z.of_nat (length (ce_items e)) ≤ CACHE_MAX_ITEMS_PER_ENTRY ∧ 0 ≤ ce_bytes e ≤ CACHE_MAX_ENTRY_BYTES.
Record Within c : Prop := {
  wi_entries : ∀ k e, pc_entries c !! k = Some e → entry_within e;
  wi_count : Z.of_nat (size (pc_entries c)) ≤ CACHE_MAX_ENTRIES;
  wi_total : pc_total_bytes c = map_sum ce_bytes (pc_entries c);
  wi_bytes : pc_total_bytes c ≤ CACHE_MAX_BYTES;
}.
Definition few_tombstones c : Prop := Z.of_nat (size (pc_tombstones c)) ≤ TOMBSTONE_MAX_ENTRIES.
Definition gauged c : Prop :=
  st_current_entries (pc_stats c) = Z.of_nat (size (pc_entries c)) ∧
  st_current_bytes (pc_stats c) = pc_total_bytes c ∧
  st_current_tombstones (pc_stats c) = Z.of_nat (size (pc_tombstones c)).

Lemma held_nonneg others c : Charged others c → 0 ≤ held c.
Proof.
  intros [_ _ _ He Ht]. unfold held. pose proof (map_sum_nonneg _ _ He). pose proof (map_sum_nonneg _ _ Ht). lia.
Qed.
(** A charge given back, a charge taken. *)
Lemma give_back_charged others n c : 0 ≤ n → Charged (others + n) c → 0 ≤ others → Charged others (give_back n c).
Proof.
  intros Hn Hc Ho. pose proof (held_nonneg _ _ Hc) as Hh. destruct Hc as [Hu _ Hw He Ht].
  destruct (try_resize_used (pc_parent c) n 0 ltac:(lia) Hw) as [[E Hw']|]; [|lia].
  rewrite try_resize_shrink in E by lia.
  constructor; unfold give_back, resident_drop; cbn [pc_parent set_parent]; try done.
  rewrite E. change (held (set_parent _ c)) with (held c). lia.
Qed.
Lemma take_charged others n c parent : 0 ≤ n → Charged others c →
  resident_reserve (pc_parent c) n = (parent, true) → Charged (others + n) (set_parent parent c).
Proof.
  intros Hn Hc Hr. pose proof (held_nonneg _ _ Hc) as Hh. destruct Hc as [Hu Ho Hw He Ht].
  destruct (try_resize_used (pc_parent c) 0 n ltac:(lia) Hw) as [[E Hw']|]; [|lia].
  unfold resident_reserve in Hr. rewrite Hr in E, Hw'. simpl in E, Hw'.
  constructor; cbn [pc_parent set_parent]; try done; [|lia]. change (held (set_parent _ c)) with (held c). lia.
Qed.
Lemma refused_charged others n c parent : 0 ≤ n → Charged others c →
  resident_reserve (pc_parent c) n = (parent, false) → Charged others (set_parent parent c).
Proof.
  intros Hn Hc Hr. pose proof (held_nonneg _ _ Hc) as Hh. destruct Hc as [Hu Ho Hw He Ht].
  destruct (try_resize_used (pc_parent c) 0 n ltac:(lia) Hw) as [[E Hw']|]; [|lia].
  unfold resident_reserve in Hr. rewrite Hr in E, Hw'. simpl in E, Hw'.
  constructor; cbn [pc_parent set_parent]; try done. change (held (set_parent _ c)) with (held c). lia.
Qed.

Lemma Charged_ext others c c' : pc_entries c' = pc_entries c → pc_tombstones c' = pc_tombstones c →
  pc_parent c' = pc_parent c → Charged others c → Charged others c'.
Proof. intros He Ht Hp [????? ]. unfold held in *. split; unfold held; rewrite ?He, ?Ht, ?Hp; done. Qed.

(** ** Tombstones *)
Lemma drop_tombstone others k t c : Charged others c → pc_tombstones c !! k = Some t →
  Charged others (give_back (tb_retained_bytes t) (set_tombstones (delete k (pc_tombstones c)) c)).
Proof.
  intros Hc Hk. pose proof (ch_tombstones _ _ Hc _ _ Hk). destruct Hc as [Hu Ho Hw He Ht].
  apply give_back_charged; [done| |done]. unfold held in Hu.
  rewrite (map_sum_delete _ _ _ _ Hk) in Hu.
  constructor; cbn [pc_parent pc_entries pc_tombstones set_tombstones]; try done.
  - rewrite Hu. unfold held. cbn [pc_entries pc_tombstones set_tombstones]. lia.
  - lia.
  - intros k' t' [_ Hk']%lookup_delete_Some. by eapply Ht.
Qed.
Lemma put_tombstone others k t c : Charged (others + tb_retained_bytes t) c → 0 ≤ others →
  0 ≤ tb_retained_bytes t →
  let c' := set_tombstones (<[k := t]> (pc_tombstones c)) c in
  Charged others (match pc_tombstones c !! k with
    | Some old => give_back (tb_retained_bytes old) c' | None => c' end).
Proof.
  intros [Hu _ Hw He Ht] Ho Hn c'.
  assert (∀ extra, 0 ≤ extra → from_option tb_retained_bytes 0 (pc_tombstones c !! k) = extra →
    Charged (others + extra) c') as H.
  { intros extra He0 Hex. constructor; unfold c'; cbn [pc_parent pc_entries pc_tombstones set_tombstones]; try done.
    - rewrite Hu. unfold held. cbn [pc_entries pc_tombstones set_tombstones]. rewrite map_sum_insert, Hex. lia.
    - lia.
    - intros k' t' [[<- <-]|[_ Hk']]%lookup_insert_Some; [done|by eapply Ht]. }
  destruct (pc_tombstones c !! k) as [old|] eqn:E; simpl in H.
  - pose proof (Ht _ _ E). apply give_back_charged; [done|by apply H|done].
  - specialize (H 0 ltac:(done) eq_refl). by rewrite Z.add_0_r in H.
Qed.

(** What a step that only works on tombstones leaves alone. *)
Definition same_entries c c' : Prop :=
  pc_entries c' = pc_entries c ∧ pc_total_bytes c' = pc_total_bytes c.
Lemma same_entries_trans c1 c2 c3 : same_entries c1 c2 → same_entries c2 c3 → same_entries c1 c3.
Proof. intros [??] [??]. split; congruence. Qed.
Lemma trim_step_inl others c c' : Charged others c → trim_tombstones_step c = inl c' →
  Charged others c' ∧ same_entries c c' ∧ size (pc_tombstones c) = S (size (pc_tombstones c')).
Proof.
  intros Hc. unfold trim_tombstones_step. destruct (Z.ltb_spec TOMBSTONE_MAX_ENTRIES (Z.of_nat (size (pc_tombstones c)))); [|done].
  destruct (oldest_key (pc_tombstones c) tb_access_sequence) as (k & t & -> & Hk & _); [unfold TOMBSTONE_MAX_ENTRIES in *; lia|].
  intros [= <-]. rewrite Hk. split; [by apply drop_tombstone|]. split; [done|].
  cbn [give_back set_parent set_tombstones pc_tombstones]. rewrite map_size_delete, Hk.
  destruct (size (pc_tombstones c)) eqn:E; [|done]. apply map_size_empty_inv in E. by rewrite E in Hk.
Qed.
Lemma trim_step_inr c c' : trim_tombstones_step c = inr c' → c' = c ∧ few_tombstones c.
Proof.
  unfold trim_tombstones_step, few_tombstones.
  destruct (Z.ltb_spec TOMBSTONE_MAX_ENTRIES (Z.of_nat (size (pc_tombstones c)))); [|by intros [= <-]].
  destruct (oldest_key (pc_tombstones c) tb_access_sequence) as (k & t & -> & _); [unfold TOMBSTONE_MAX_ENTRIES in *; lia|done].
Qed.
Lemma trim_tombstones_spec others c : Charged others c →
  Charged others (trim_tombstones c) ∧ same_entries c (trim_tombstones c) ∧ few_tombstones (trim_tombstones c).
Proof.
  intros Hc. set (I := λ c', Charged others c' ∧ same_entries c c').
  assert (∀ s s', I s → trim_tombstones_step s = inl s' →
    I s' ∧ Z.of_nat (size (pc_tombstones s')) < Z.of_nat (size (pc_tombstones s))) as Hstep.
  { intros s s' [Hs Hf] E. destruct (trim_step_inl others s s' Hs E) as (? & ? & ?).
    split; [split; [done|by eapply same_entries_trans]|lia]. }
  destruct (run_terminates trim_tombstones_step (λ s, Z.of_nat (size (pc_tombstones s))) I Hstep
    ltac:(intros; cbv beta; lia) (Pos.of_succ_nat (size (pc_tombstones c))) c) as [r Hr]; [by split|cbv beta; lia|].
  destruct (run_inv trim_tombstones_step I (λ s, I s ∧ few_tombstones s)) with
    (p := Pos.of_succ_nat (size (pc_tombstones c))) (s := c) as [_ Hq].
  - intros s s' Hs E. by apply (Hstep s s').
  - intros s s' Hs [-> Hfew]%trim_step_inr. done.
  - by split.
  - unfold trim_tombstones. rewrite Hr. simpl. destruct (Hq r Hr) as [[??] ?]. done.
Qed.

Lemma sat_usize_nonneg z : 0 ≤ sat_usize z.
Proof. unfold sat_usize, saturate. lia. Qed.
Lemma key_retained_nonneg n k : 0 ≤ key_retained_bytes string_capacity usize_size n k.
Proof. unfold key_retained_bytes. simpl. apply sat_usize_nonneg. Qed.

Lemma refresh_charged others c : Charged others c → Charged others (refresh_current_stats c).
Proof. by apply Charged_ext. Qed.
Lemma refresh_gauged c : gauged (refresh_current_stats c).
Proof. unfold gauged, refresh_current_stats, set_stats. cbn. by destruct (pc_stats c). Qed.

(** A tombstone is charged, replaces the one of its key, and makes no room for itself among
    the entries. *)
Lemma mark_tombstone_spec others k reason now_ms c : Charged others c →
  let c' := mark_tombstone k reason now_ms c in
  Charged others c' ∧ same_entries c c' ∧ (few_tombstones c → few_tombstones c') ∧ gauged c'.
Proof.
  intros Hc. unfold ResponseCache.mark_tombstone. set (n := key_retained_bytes _ _ _ _).
  pose proof (key_retained_nonneg tombstone_size k : 0 ≤ n) as Hn. pose proof (ch_others _ _ Hc) as Ho.
  destruct (resident_reserve (pc_parent c) n) as [parent granted] eqn:E. destruct granted; simpl.
  2:{ pose proof (refused_charged others n c parent Hn Hc E).
      split; [by apply refresh_charged|]. split; [done|]. split; [done|]. apply refresh_gauged. }
  pose proof (take_charged others n c parent Hn Hc E) as Ht.
  set (t := mk_tombstone _ _ _ _). set (c1 := next_sequence (set_parent parent c)).
  pose proof (put_tombstone others k t c1 (Charged_ext (others + n) (set_parent parent c) c1 eq_refl eq_refl eq_refl Ht) Ho Hn) as Hput. simpl in Hput.
  set (c2 := match pc_tombstones c !! k with Some _ => _ | None => _ end) in *.
  destruct (trim_tombstones_spec others c2 Hput) as (H1 & H2 & H3).
  split; [by apply refresh_charged|]. split; [|split; [done|apply refresh_gauged]].
  assert (same_entries c c2) as H4 by (unfold c2; by destruct (pc_tombstones c !! k)).
  by destruct (same_entries_trans _ _ _ H4 H2).
Qed.

(** ** Removing an entry *)
Record Kept (others : Z) c : Prop := {
  ke_charged : Charged others c; ke_within : Within c; ke_few : few_tombstones c;
}.
Lemma Within_ext c c' : same_entries c c' → Within c → Within c'.
Proof. intros [He Ht] [????]. split; rewrite ?He, ?Ht; done. Qed.
Lemma Within_bytes_nonneg c : Within c → ∀ k e, pc_entries c !! k = Some e → 0 ≤ ce_bytes e.
Proof. intros Hc k e Hk. by destruct (wi_entries _ Hc k e Hk) as [_ [? _]]. Qed.
Lemma give_back_same n c : same_entries c (give_back n c).
Proof. done. Qed.
Lemma give_back_few n c : few_tombstones c → few_tombstones (give_back n c).
Proof. done. Qed.
Lemma removed_entries c k f n :
  pc_entries (set_stats f (set_total n (set_entries (delete k (pc_entries c)) c))) = delete k (pc_entries c).
Proof. done. Qed.
Lemma remove_within c k e : Within c → pc_entries c !! k = Some e →
  Within (set_total (sat_usize (pc_total_bytes c - ce_bytes e)) (set_entries (delete k (pc_entries c)) c)).
Proof.
  intros Hc Hk. pose proof (Within_bytes_nonneg c Hc) as Hb. destruct Hc as [He Hn Ht Hm].
  assert (0 ≤ map_sum ce_bytes (delete k (pc_entries c))) as Hd.
  { apply map_sum_nonneg. intros k' e' [_ Hk']%lookup_delete_Some. by apply (Hb k'). }
  pose proof (Hb k e Hk) as Hbe. rewrite (map_sum_delete _ _ _ _ Hk) in Ht.
  assert (sat_usize (pc_total_bytes c - ce_bytes e) = map_sum ce_bytes (delete k (pc_entries c))) as E.
  { rewrite Ht. unfold sat_usize. rewrite saturate_in; [lia|].
    unfold CACHE_MAX_BYTES, USIZE_MAX, U64_MAX in *. lia. }
  rewrite E. constructor; cbn [pc_entries pc_total_bytes set_total set_entries].
  - intros k' e' [_ Hk']%lookup_delete_Some. by apply (He k').
  - rewrite map_size_delete, Hk. lia.
  - done.
  - lia.
Qed.
Lemma remove_charged others c k e : Charged others c → pc_entries c !! k = Some e →
  Charged (others + ce_retained_bytes e) (set_entries (delete k (pc_entries c)) c).
Proof.
  intros [Hu Ho Hw He Ht] Hk. pose proof (He _ _ Hk). unfold held in Hu.
  rewrite (map_sum_delete _ _ _ _ Hk) in Hu.
  constructor; cbn [pc_parent pc_entries pc_tombstones set_entries]; try done.
  - rewrite Hu. unfold held. cbn [pc_entries pc_tombstones set_entries]. lia.
  - lia.
  - intros k' e' [_ Hk']%lookup_delete_Some. by eapply He.
Qed.
(** An entry is taken out, its tombstone put up, and its charge given back after that. *)
Lemma remove_kept others c k e reason now_ms f : Kept others c → pc_entries c !! k = Some e →
  let c1 := set_stats f (set_total (sat_usize (pc_total_bytes c - ce_bytes e))
    (set_entries (delete k (pc_entries c)) c)) in
  let c' := give_back (ce_retained_bytes e) (mark_tombstone k reason now_ms c1) in
  Kept others c' ∧ pc_entries c' = delete k (pc_entries c).
Proof.
  intros [Hc Hw Hf] Hk c1 c'. pose proof (Charged_ext _ (set_entries (delete k (pc_entries c)) c) c1
    eq_refl eq_refl eq_refl (remove_charged _ _ _ _ Hc Hk)) as Hc1.
  destruct (mark_tombstone_spec _ k reason now_ms c1 Hc1) as (Hc2 & Hs & Hf2 & _).
  pose proof (same_entries_trans _ _ _ Hs (give_back_same (ce_retained_bytes e) _)) as Hs'.
  fold c' in Hs'.
  split; [|rewrite (proj1 Hs'); apply removed_entries]. constructor.
  - apply give_back_charged; [exact (ch_entries _ _ Hc _ _ Hk)|done|exact (ch_others _ _ Hc)].
  - apply (Within_ext c1 _ Hs').
    apply (Within_ext (set_total (sat_usize (pc_total_bytes c - ce_bytes e)) (set_entries (delete k (pc_entries c)) c)));
      [done|by apply remove_within].
  - by apply give_back_few, Hf2.
Qed.

(** ** Cleanup *)
Lemma expire_key_kept others now_ms c k : Kept others c →
  Kept others (expire_key now_ms c k) ∧ pc_entries (expire_key now_ms c k) = delete k (pc_entries c).
Proof.
  intros Hc. unfold ResponseCache.expire_key. destruct (pc_entries c !! k) as [e|] eqn:Hk.
  - apply (remove_kept others c k e Expired now_ms (count_one CExpired) Hc Hk).
  - by rewrite delete_id.
Qed.
Lemma expire_keys_kept others now_ms l c : Kept others c →
  Kept others (foldl (expire_key now_ms) c l) ∧
  ∀ k, pc_entries (foldl (expire_key now_ms) c l) !! k =
    if bool_decide (k ∈ l) then None else pc_entries c !! k.
Proof.
  revert c. induction l as [|k l IH]; intros c Hc; simpl; [done|].
  destruct (expire_key_kept others now_ms c k Hc) as [Hc' He].
  destruct (IH _ Hc') as [Hk Hl]. split; [done|]. intros k'. rewrite Hl, He.
  destruct (decide (k' = k)) as [->|Hne].
  - rewrite lookup_delete_eq. rewrite (bool_decide_eq_true_2 (k ∈ k :: l)) by left. by case_bool_decide.
  - rewrite lookup_delete_ne by done.
    by rewrite (bool_decide_ext (k' ∈ k :: l) (k' ∈ l)) by (rewrite elem_of_cons; naive_solver).
Qed.
Lemma retain_tombstones_kept others now_ms c : Kept others c →
  Kept others (retain_tombstones now_ms c) ∧ same_entries c (retain_tombstones now_ms c).
Proof.
  unfold retain_tombstones. generalize (filter (λ k, from_option tb_expires_at_ms 0 (pc_tombstones c !! k) ≤ now_ms)
    (ordered_keys (pc_tombstones c))) as l.
  intros l. revert c. induction l as [|k l IH]; intros c Hc; simpl; [done|].
  set (c' := give_back _ _).
  assert (Kept others c' ∧ same_entries c c') as [Hc' Hs].
  { split; [|done]. destruct Hc as [Hc Hw Hf]. constructor; [|by apply (Within_ext c)|].
    - unfold c'. destruct (pc_tombstones c !! k) as [t|] eqn:Hk; simpl; [by apply drop_tombstone|].
      rewrite delete_id by done. apply give_back_charged; [done| |exact (ch_others _ _ Hc)].
      rewrite Z.add_0_r. by apply (Charged_ext _ c).
    - unfold few_tombstones in *. change (pc_tombstones c') with (delete k (pc_tombstones c)).
      rewrite map_size_delete. destruct (pc_tombstones c !! k); unfold id; lia. }
  destruct (IH c' Hc') as [H1 H2]. split; [done|by eapply same_entries_trans].
Qed.
Lemma cleanup_spec others now_ms c : Kept others c →
  Kept others (cleanup now_ms c) ∧ gauged (cleanup now_ms c) ∧
  ∀ k e, pc_entries (cleanup now_ms c) !! k = Some e ↔
    pc_entries c !! k = Some e ∧ now_ms < ce_expires_at_ms e.
Proof.
  intros Hc. unfold ResponseCache.cleanup. set (l := filter _ _).
  destruct (expire_keys_kept others now_ms l c Hc) as [Hc1 He].
  destruct (retain_tombstones_kept others now_ms _ Hc1) as [[H1 H2 H3] [Hs _]].
  split; [|split; [apply refresh_gauged|]].
  - constructor; [by apply refresh_charged| |done].
    eapply Within_ext; [|exact H2]. done.
  - intros k e. cbn [pc_entries refresh_current_stats set_stats]. rewrite Hs, He.
    assert (k ∈ l ↔ ∃ e, pc_entries c !! k = Some e ∧ ce_expires_at_ms e ≤ now_ms) as Hl.
    { unfold l. rewrite list_elem_of_filter, elem_of_ordered_keys. split.
      - intros [Hle [x Hx]]. rewrite Hx in Hle. by exists x.
      - intros (x & Hx & Hle). rewrite Hx. split; [done|by eexists]. }
    case_bool_decide as Hin; rewrite Hl in Hin.
    + destruct Hin as (x & Hx & Hle). split; [done|]. intros [Hk Hlt]. rewrite Hx in Hk. simplify_eq. lia.
    + split; [|by intros [? _]]. intros Hk. split; [done|].
      destruct (Z.lt_ge_cases now_ms (ce_expires_at_ms e)); [done|]. exfalso. eauto.
Qed.

(** ** Eviction *)
Definition has_room (bytes : Z) c : Prop :=
  Z.of_nat (size (pc_entries c)) < CACHE_MAX_ENTRIES ∧ pc_total_bytes c + bytes ≤ CACHE_MAX_BYTES.
Lemma total_fits c bytes : Within c → 0 ≤ bytes ≤ CACHE_MAX_BYTES →
  sat_usize (pc_total_bytes c + bytes) = pc_total_bytes c + bytes ∧ 0 ≤ pc_total_bytes c.
Proof.
  intros Hw Hb. pose proof (map_sum_nonneg _ _ (Within_bytes_nonneg c Hw)). rewrite (wi_total _ Hw).
  pose proof (wi_bytes _ Hw). rewrite (wi_total _ Hw) in *. split; [|done].
  apply saturate_in. unfold CACHE_MAX_BYTES, USIZE_MAX, U64_MAX in *. lia.
Qed.
Lemma evict_step_inl others bytes now_ms c c' : Kept others c → 0 ≤ bytes ≤ CACHE_MAX_BYTES →
  evict_step bytes now_ms c = inl c' → Kept others c' ∧ pc_entries c' ⊆ pc_entries c ∧
  (size (pc_entries c') < size (pc_entries c))%nat ∧
  ∃ k e, pc_entries c !! k = Some e ∧ pc_entries c' = delete k (pc_entries c) ∧
    ∀ k' e', pc_entries c !! k' = Some e' → ce_access_sequence e ≤ ce_access_sequence e'.
Proof.
  intros Hc Hb. unfold ResponseCache.evict_step. destruct (_ || _) eqn:Hfull; [|done].
  destruct (total_fits c bytes (ke_within _ _ Hc) Hb) as [Hsat Hpos].
  assert (0 < size (pc_entries c))%nat as Hsz.
  { destruct (size (pc_entries c)) eqn:E; [|lia]. apply map_size_empty_inv in E.
    pose proof (wi_total _ (ke_within _ _ Hc)) as Ht. rewrite E, map_sum_empty in Ht.
    rewrite Hsat in Hfull. apply orb_true_iff in Hfull as [Hf|Hf%Z.ltb_lt]; [done|lia]. }
  destruct (oldest_key (pc_entries c) ce_access_sequence Hsz) as (k & e & -> & Hk & Hmin). rewrite Hk.
  intros [= <-]. match goal with |- context [mark_tombstone k ?reason now_ms (set_stats ?f _)] =>
    destruct (remove_kept others c k e reason now_ms f Hc Hk) as [Hc' He] end.
  split; [exact Hc'|]. split; [|split; [|by exists k, e]].
  - etransitivity; [apply (eq_ind_r (λ m, m ⊆ _)) with (2 := He); reflexivity|apply delete_subseteq].
  - eapply (eq_ind_r (λ m, (size m < _)%nat)); [|exact He]. rewrite map_size_delete, Hk. simpl. lia.
Qed.
Lemma evict_step_inr others bytes now_ms c r : Kept others c → 0 ≤ bytes ≤ CACHE_MAX_BYTES →
  evict_step bytes now_ms c = inr r → r = (c, true) ∧ has_room bytes c.
Proof.
  intros Hc Hb. unfold ResponseCache.evict_step.
  destruct (total_fits c bytes (ke_within _ _ Hc) Hb) as [-> Hpos]. destruct (_ || _) eqn:Hfull.
  - destruct (size (pc_entries c)) eqn:E.
    + apply map_size_empty_inv in E. pose proof (wi_total _ (ke_within _ _ Hc)) as Ht.
      rewrite E, map_sum_empty in Ht. apply orb_true_iff in Hfull as [Hf|Hf%Z.ltb_lt]; [done|lia].
    + destruct (oldest_key (pc_entries c) ce_access_sequence) as (k & e & -> & Hk & _); [lia|]. by rewrite Hk.
  - intros [= <-]. split; [done|]. apply orb_false_iff in Hfull as [H1%Z.leb_gt H2%Z.ltb_ge]. by split.
Qed.
(** The loop ends, with room for the new entry. *)
Lemma evict_spec others bytes now_ms c : Kept others c → 0 ≤ bytes ≤ CACHE_MAX_BYTES →
  let r := evict bytes now_ms c in
  r.2 = true ∧ Kept others r.1 ∧ has_room bytes r.1 ∧ pc_entries r.1 ⊆ pc_entries c.
Proof.
  intros Hc Hb. set (I := λ c', Kept others c' ∧ pc_entries c' ⊆ pc_entries c).
  assert (∀ s s', I s → evict_step bytes now_ms s = inl s' →
    I s' ∧ Z.of_nat (size (pc_entries s')) < Z.of_nat (size (pc_entries s))) as Hstep.
  { intros s s' [Hs Hf] E. destruct (evict_step_inl others bytes now_ms s s' Hs Hb E) as (? & ? & ? & _).
    split; [split; [done|by etransitivity]|lia]. }
  destruct (run_terminates (evict_step bytes now_ms) (λ s, Z.of_nat (size (pc_entries s))) I Hstep
    ltac:(intros; cbv beta; lia) (Pos.of_succ_nat (size (pc_entries c))) c) as [r Hr]; [by split|cbv beta; lia|].
  destruct (run_inv (evict_step bytes now_ms) I
    (λ r, r.2 = true ∧ Kept others r.1 ∧ has_room bytes r.1 ∧ pc_entries r.1 ⊆ pc_entries c)) with
    (p := Pos.of_succ_nat (size (pc_entries c))) (s := c) as [_ Hq].
  - intros s s' Hs E. by apply (Hstep s s').
  - intros s r' [Hs Hf] E. by destruct (evict_step_inr others bytes now_ms s r' Hs Hb E) as [-> ?].
  - by split.
  - unfold ResponseCache.evict. rewrite Hr. by apply Hq.
Qed.

(** ** Insertion *)
Lemma drop_old_tombstone others k c : Kept others c →
  let c' := match pc_tombstones c !! k with
    | Some t => give_back (tb_retained_bytes t) (set_tombstones (delete k (pc_tombstones c)) c)
    | None => c end in
  Kept others c' ∧ pc_entries c' = pc_entries c.
Proof.
  intros [Hc Hw Hf] c'. unfold c'. destruct (pc_tombstones c !! k) as [t|] eqn:Hk; [|by split].
  split; [|done]. constructor; [by apply drop_tombstone|by apply (Within_ext c)|].
  apply give_back_few. unfold few_tombstones in *. cbn [pc_tombstones set_tombstones].
  rewrite map_size_delete, Hk. lia.
Qed.
Lemma drop_previous others k c : Kept others c →
  let c' := match pc_entries c !! k with
    | Some previous => give_back (ce_retained_bytes previous)
        (set_total (sat_usize (pc_total_bytes c - ce_bytes previous)) (set_entries (delete k (pc_entries c)) c))
    | None => c end in
  Kept others c' ∧ pc_entries c' = delete k (pc_entries c).
Proof.
  intros [Hc Hw Hf] c'. unfold c'. destruct (pc_entries c !! k) as [e|] eqn:Hk; [|by rewrite delete_id].
  split; [|done]. constructor; [|by apply (Within_ext _ _ (give_back_same _ _)), remove_within|done].
  apply give_back_charged; [exact (ch_entries _ _ Hc _ _ Hk)| |exact (ch_others _ _ Hc)].
  by apply (Charged_ext _ (set_entries (delete k (pc_entries c)) c)), remove_charged.
Qed.
(** The entry takes over the charge reserved for it. *)
Lemma put_entry others k e c : Kept (others + ce_retained_bytes e) c → 0 ≤ others →
  0 ≤ ce_retained_bytes e → entry_within e → has_room (ce_bytes e) c → pc_entries c !! k = None →
  Kept others (set_total (sat_usize (pc_total_bytes c + ce_bytes e))
    (set_entries (<[k := e]> (pc_entries c)) c)).
Proof.
  intros [[Hu _ Hcw He Ht] Hw Hf] Ho Hn Hwe [Hcount Hroom] Hk. pose proof Hwe as [_ Hb].
  destruct (total_fits c (ce_bytes e) Hw) as [-> Hpos];
    [unfold CACHE_MAX_ENTRY_BYTES, CACHE_MAX_BYTES in *; lia|].
  constructor; [constructor|constructor|done]; cbn [pc_parent pc_entries pc_tombstones pc_total_bytes set_total set_entries];
    try done.
  - rewrite Hu. unfold held. cbn [pc_entries pc_tombstones set_total set_entries].
    rewrite map_sum_fresh by done. lia.
  - intros k' e' [[<- <-]|[_ Hk']]%lookup_insert_Some; [done|by eapply He].
  - intros k' e' [[<- <-]|[_ Hk']]%lookup_insert_Some; [done|by eapply (wi_entries _ Hw)].
  - rewrite map_size_insert, Hk. lia.
  - rewrite map_sum_fresh, (wi_total _ Hw) by done. lia.
Qed.

(** What an insertion may change: the key it inserts, or nothing but evictions. *)
Record Inserted others k items now_ms (ok : bool) c c' : Prop := {
  in_kept : Kept others c';
  in_gauged : gauged c';
  in_new : ok = true → ∃ e, pc_entries c' !! k = Some e ∧ ce_items e = items ∧
    ce_expires_at_ms e = sat_i64 (now_ms + CACHE_TTL_MS);
  in_old : ∀ k' e, (ok = true → k' ≠ k) → pc_entries c' !! k' = Some e → pc_entries c !! k' = Some e;
}.
Lemma refused_inserted others k reason items now_ms c c0 : Kept others c → same_entries c0 c →
  Inserted others k items now_ms false c0 (mark_tombstone k reason now_ms c).
Proof.
  intros [Hc Hw Hf] [Hs _]. destruct (mark_tombstone_spec others k reason now_ms c Hc) as (H1 & H2 & H3 & H4).
  constructor; [|done|done|].
  - constructor; [done|by apply (Within_ext c)|by apply H3].
  - intros k' e _ He. rewrite (proj1 H2), Hs in He. done.
Qed.
Lemma set_stats_kept others f c : Kept others c → Kept others (set_stats f c).
Proof. intros [Hc Hw Hf]. constructor; [by apply (Charged_ext _ c)|by apply (Within_ext c)|done]. Qed.

Lemma insert_accepted_spec others k items bytes retained now_ms c : Kept others c → 0 ≤ retained →
  1 ≤ Z.of_nat (length items) ≤ CACHE_MAX_ITEMS_PER_ENTRY → 0 ≤ bytes ≤ CACHE_MAX_ENTRY_BYTES →
  let r := insert_accepted k items bytes retained now_ms c in
  Inserted others k items now_ms r.2 c r.1.
Proof.
  intros Hc Hn Hlen Hb. unfold ResponseCache.insert_accepted. pose proof (ke_charged _ _ Hc) as Hch.
  assert (0 ≤ bytes ≤ CACHE_MAX_BYTES) as Hb' by (unfold CACHE_MAX_ENTRY_BYTES, CACHE_MAX_BYTES in *; lia).
  destruct (resident_reserve (pc_parent c) retained) as [parent granted] eqn:E. destruct granted; simpl.
  2:{ apply refused_inserted; [|done]. apply set_stats_kept. destruct Hc as [_ Hw Hf].
      constructor; [by eapply refused_charged|by apply (Within_ext c)|done]. }
  pose proof (ch_others _ _ Hch) as Ho.
  assert (Kept (others + retained) (set_parent parent c)) as H0.
  { destruct Hc as [_ Hw Hf]. constructor; [by apply take_charged|by apply (Within_ext c)|done]. }
  destruct (drop_old_tombstone _ k _ H0) as [H1 E1]. cbn [pc_tombstones set_parent] in *.
  set (c1 := match pc_tombstones c !! k with Some _ => _ | None => _ end) in *.
  destruct (drop_previous _ k c1 H1) as [H2 E2].
  set (c2 := match pc_entries c1 !! k with Some _ => _ | None => _ end) in *.
  pose proof (evict_spec _ bytes now_ms c2 H2 Hb') as Hev.
  destruct (evict bytes now_ms c2) as [c3 room]. simpl in Hev. destruct Hev as (-> & H3 & Hroom & Hsub). simpl.
  set (e := mk_cache_entry _ _ _ _ _ _).
  assert (pc_entries c3 !! k = None) as Hnone.
  { destruct (pc_entries c3 !! k) as [x|] eqn:Ex; [|done]. eapply lookup_weaken in Ex; [|exact Hsub].
    rewrite E2, lookup_delete_eq in Ex. done. }
  assert (Kept (others + retained) (next_sequence c3)) as H3'.
  { destruct H3 as [Hc3 Hw3 Hf3]. constructor; [by apply (Charged_ext _ c3)|by apply (Within_ext c3)|done]. }
  destruct (put_entry others k e (next_sequence c3) H3' Ho Hn (conj Hlen Hb) Hroom Hnone) as [P1 P2 P3].
  constructor.
  - constructor; [by apply refresh_charged|by eapply Within_ext; [|exact P2]|done].
  - apply refresh_gauged.
  - intros _. exists e. split; [apply lookup_insert_eq|done].
  - intros k' x Hne Hx. specialize (Hne eq_refl).
    change (<[k := e]> (pc_entries c3) !! k' = Some x) in Hx. rewrite lookup_insert_ne in Hx by done.
    eapply lookup_weaken in Hx; [|exact Hsub]. rewrite E2, lookup_delete_ne in Hx by done. by rewrite E1 in Hx.
Qed.

Lemma Inserted_weaken others k items now_ms ok c0 c c' :
  (∀ k' e, pc_entries c !! k' = Some e → pc_entries c0 !! k' = Some e) →
  Inserted others k items now_ms ok c c' → Inserted others k items now_ms ok c0 c'.
Proof. intros H [H1 H2 H3 H4]. constructor; [done..|]. intros k' e Hne He. by apply H, H4. Qed.

(** The serializer reports a length for every item it writes, never a negative one. *)
Lemma encoded_items_size_nonneg items n : (∀ v m, encoded_len v = Some m → 0 ≤ m) →
  encoded_items_size encoded_len items = Some n → 0 ≤ n.
Proof.
  intros Hpos. unfold encoded_items_size.
  assert (∀ l acc, (∀ a, acc = Some a → 0 ≤ a) →
    foldl (λ total item, total ≫= λ total, encoded_len item ≫= λ n, checked 0 USIZE_MAX (total + n)) acc l = Some n →
    0 ≤ n) as H.
  { induction l as [|v l IH]; intros acc Ha; simpl; [by apply Ha|]. apply IH.
    destruct acc as [a|]; [|done]. simpl. destruct (encoded_len v) as [m|]; [|done]. simpl.
    intros z [-> ?]%checked_Some. lia. }
  apply H. by intros a [= <-].
Qed.
Lemma entry_retained_nonneg k items capacity :
  0 ≤ entry_retained_bytes retained_json_bytes string_capacity entry_size value_size usize_size k items capacity.
Proof.
  unfold entry_retained_bytes.
  assert (∀ (l : list Value) acc, 0 ≤ acc →
    0 ≤ foldl (λ bytes item, sat_usize (bytes + sat_usize (retained_json_bytes item - value_size))) acc l) as H.
  { induction l as [|v l IH]; intros acc Ha; simpl; [done|]. apply IH, sat_usize_nonneg. }
  apply H, sat_usize_nonneg.
Qed.

Lemma gauged_count x c : gauged c → gauged (set_stats (count_one x) c).
Proof. unfold gauged, set_stats. cbn. destruct (pc_stats c). by destruct x. Qed.
Lemma gauged_observe m n c : gauged c → gauged (set_stats (observe_entry m n) c).
Proof. unfold gauged, set_stats. cbn. by destruct (pc_stats c). Qed.
Lemma unchanged_inserted others k items now_ms c : Kept others c → gauged c →
  Inserted others k items now_ms false c c.
Proof. intros. by constructor. Qed.
Lemma cache_key_Some scope response_id k : cache_key scope response_id = Some k →
  k = mk_key scope response_id ∧ valid_response_id response_id = true.
Proof. unfold cache_key. destruct (valid_response_id response_id); [by intros [= <-]|done]. Qed.

Lemma insert_spec others scope response_id items capacity now_ms c : Kept others c →
  (∀ v m, encoded_len v = Some m → 0 ≤ m) →
  let r := insert scope response_id items capacity now_ms c in
  Inserted others (mk_key scope response_id) items now_ms r.2 c r.1.
Proof.
  intros Hc Hpos. unfold ResponseCache.insert. destruct (cleanup_spec others now_ms c Hc) as (H1 & Hg & He).
  set (c1 := cleanup now_ms c) in *.
  apply (Inserted_weaken _ _ _ _ _ _ c1); [intros k' e Hk; by apply He|]. clear He.
  assert (∀ m n, Kept others (set_stats (observe_entry m n) c1) ∧ gauged (set_stats (observe_entry m n) c1)) as Hob
    by (intros; split; [by apply set_stats_kept|by apply gauged_observe]).
  destruct (cache_key scope response_id) as [k|] eqn:Ek.
  2:{ eapply (Inserted_weaken _ _ _ _ _ _ (set_stats (count_one CInvalid) c1)); [done|].
      apply unchanged_inserted; [by apply set_stats_kept|by apply gauged_count]. }
  apply cache_key_Some in Ek as [-> _]. destruct (Z.eqb_spec (Z.of_nat (length items)) 0).
  { by apply unchanged_inserted. }
  destruct (Z.ltb_spec CACHE_MAX_ITEMS_PER_ENTRY (Z.of_nat (length items))).
  { apply refused_inserted; [|done]. by do 2 apply set_stats_kept. }
  destruct (encoded_items_size encoded_len items) as [bytes|] eqn:Eb.
  2:{ eapply (Inserted_weaken _ _ _ _ _ _ (set_stats (observe_entry _ 0) c1)); [done|].
      by apply unchanged_inserted; apply Hob. }
  apply encoded_items_size_nonneg in Eb; [|done]. destruct (_ || _) eqn:El.
  { apply refused_inserted; [|done]. by do 3 apply set_stats_kept. }
  apply orb_false_iff in El as [El%Z.ltb_ge _].
  eapply (Inserted_weaken _ _ _ _ _ _ (set_stats (observe_entry 0 bytes) (set_stats (observe_entry _ 0) c1))); [done|].
  apply insert_accepted_spec; [by do 2 apply set_stats_kept|apply entry_retained_nonneg|lia|lia].
Qed.

(** ** Lookup *)
(** A touched entry or tombstone keeps its place, its size and its charge. *)
Lemma touch_entry others c k e e' : Kept others c → gauged c → pc_entries c !! k = Some e →
  ce_items e' = ce_items e → ce_bytes e' = ce_bytes e → ce_retained_bytes e' = ce_retained_bytes e →
  Kept others (set_entries (<[k := e']> (pc_entries c)) c) ∧ gauged (set_entries (<[k := e']> (pc_entries c)) c).
Proof.
  intros [[Hu Ho Hw Her Htr] [We Wc Wt Wb] Hf] Hg Hk Hi Hb Hr.
  assert (size (<[k := e']> (pc_entries c)) = size (pc_entries c)) as Hsz by (by rewrite map_size_insert, Hk).
  split; [|by unfold gauged in *; cbn [pc_stats pc_entries pc_total_bytes pc_tombstones set_entries]; rewrite Hsz].
  constructor; [constructor|constructor|done]; cbn [pc_parent pc_entries pc_tombstones pc_total_bytes set_entries]; try done.
  - rewrite Hu. unfold held. cbn [pc_entries pc_tombstones set_entries].
    rewrite (map_sum_insert _ _ k), Hk. simpl. lia.
  - intros k' x [[<- <-]|[_ Hk']]%lookup_insert_Some; [rewrite Hr; by eapply Her|by eapply Her].
  - intros k' x [[<- <-]|[_ Hk']]%lookup_insert_Some; [|by eapply We].
    unfold entry_within. rewrite Hi, Hb. by apply (We k).
  - by rewrite Hsz.
  - rewrite (map_sum_insert _ _ k), Hk. simpl. lia.
Qed.
Lemma touch_tombstone others c k t t' : Kept others c → gauged c → pc_tombstones c !! k = Some t →
  tb_retained_bytes t' = tb_retained_bytes t →
  Kept others (set_tombstones (<[k := t']> (pc_tombstones c)) c) ∧ gauged (set_tombstones (<[k := t']> (pc_tombstones c)) c).
Proof.
  intros [[Hu Ho Hw Her Htr] Hwi Hf] Hg Hk Hr.
  assert (size (<[k := t']> (pc_tombstones c)) = size (pc_tombstones c)) as Hsz by (by rewrite map_size_insert, Hk).
  split; [|by unfold gauged in *; cbn [pc_stats pc_entries pc_total_bytes pc_tombstones set_tombstones]; rewrite Hsz].
  constructor; [constructor|by apply (Within_ext c)|by unfold few_tombstones in *; cbn [pc_tombstones set_tombstones]; rewrite Hsz];
    cbn [pc_parent pc_entries pc_tombstones set_tombstones]; try done.
  - rewrite Hu. unfold held. cbn [pc_entries pc_tombstones set_tombstones].
    rewrite (map_sum_insert _ _ k), Hk. simpl. lia.
  - intros k' x [[<- <-]|[_ Hk']]%lookup_insert_Some; [rewrite Hr; by eapply Htr|by eapply Htr].
Qed.
Lemma next_sequence_kept others c : Kept others c → gauged c →
  Kept others (next_sequence c) ∧ gauged (next_sequence c).
Proof. intros [? ? ?] Hg. split; [|done]. constructor; [by apply (Charged_ext _ c)|by apply (Within_ext c)|done]. Qed.
Lemma count_kept others x c : Kept others c ∧ gauged c →
  Kept others (set_stats (count_one x) c) ∧ gauged (set_stats (count_one x) c).
Proof. intros [? ?]. split; [by apply set_stats_kept|by apply gauged_count]. Qed.

(** The entries after a lookup: the ones that have not expired, with the same items. *)
Definition alive now_ms (m m' : gmap PreviousResponseCacheKey (PreviousResponseCacheEntry Value)) : Prop :=
  (∀ k e, m !! k = Some e → now_ms < ce_expires_at_ms e → ∃ e', m' !! k = Some e' ∧
     ce_items e' = ce_items e ∧ ce_expires_at_ms e' = ce_expires_at_ms e) ∧
  (∀ k e', m' !! k = Some e' → ∃ e, m !! k = Some e ∧ now_ms < ce_expires_at_ms e ∧
     ce_items e' = ce_items e ∧ ce_expires_at_ms e' = ce_expires_at_ms e).
Lemma alive_insert now_ms m m' k e e' : alive now_ms m m' → m' !! k = Some e →
  ce_items e' = ce_items e → ce_expires_at_ms e' = ce_expires_at_ms e → alive now_ms m (<[k := e']> m').
Proof.
  intros [H1 H2] Hk Hi Hx. split.
  - intros k' x Hx' Hlt. destruct (H1 k' x Hx' Hlt) as (y & Hy & Hyi & Hyx).
    destruct (decide (k = k')) as [->|]; [|exists y; by rewrite lookup_insert_ne].
    exists e'. rewrite lookup_insert_eq. assert (y = e) as -> by congruence. split_and!; congruence.
  - intros k' x [[<- <-]|[_ Hx']]%lookup_insert_Some; [|by apply H2].
    destruct (H2 k e Hk) as (y & Hy & Hlt & Hyi & Hyx). exists y. split_and!; congruence.
Qed.

Definition found {T} scope response_id now_ms (prepare : list Value → T) c : option T :=
  if valid_response_id response_id then
    match pc_entries c !! mk_key scope response_id with
    | Some e => if now_ms <? ce_expires_at_ms e then Some (prepare (ce_items e)) else None
    | None => None
    end
  else None.
Lemma lookup_spec {T} others scope response_id now_ms (prepare : list Value → T) c : Kept others c →
  let r := lookup_with scope response_id now_ms prepare c in
  Kept others r.1 ∧ gauged r.1 ∧ alive now_ms (pc_entries c) (pc_entries r.1) ∧
  lk_items r.2 = found scope response_id now_ms prepare c.
Proof.
  intros Hc. unfold ResponseCache.lookup_with, found.
  destruct (cleanup_spec others now_ms c Hc) as (H1 & Hg & He). set (c1 := cleanup now_ms c) in *.
  assert (alive now_ms (pc_entries c) (pc_entries c1)) as Hal.
  { split; [intros k e Hk Hlt|intros k e [? ?]%He; by exists e]. exists e. split; [by apply He|done]. }
  unfold cache_key. destruct (valid_response_id response_id).
  2:{ destruct (count_kept others CMisses _ (count_kept others CInvalid c1 (conj H1 Hg))). done. }
  set (k0 := mk_key scope response_id). cbn [pc_entries next_sequence].
  destruct (next_sequence_kept _ _ H1 Hg) as [H1' Hg'].
  destruct (pc_entries c1 !! k0) as [e|] eqn:Ek.
  - destruct (proj1 (He _ _) Ek) as [Hk Hlt]. rewrite Hk. destruct (Z.ltb_spec now_ms (ce_expires_at_ms e)); [|lia].
    set (e1 := mk_cache_entry _ _ _ _ _ _). cbn [fst snd lk_items].
    destruct (count_kept others CHits _ (touch_entry others (next_sequence c1) k0 e e1 H1' Hg' Ek eq_refl eq_refl eq_refl)).
    split; [done|]. split; [done|]. split; [by apply (alive_insert _ _ _ _ e)|done].
  - assert (match pc_entries c !! k0 with
      | Some e => if now_ms <? ce_expires_at_ms e then Some (prepare (ce_items e)) else None | None => None end = None) as ->.
    { destruct (pc_entries c !! k0) as [e|] eqn:Ek0; [|done].
      destruct (Z.ltb_spec now_ms (ce_expires_at_ms e)); [|done].
      assert (pc_entries c1 !! k0 = Some e) by (by apply He). congruence. }
    cbn [pc_tombstones set_stats next_sequence].
    destruct (count_kept others CMisses _ (conj H1' Hg')) as [H2 Hg2].
    destruct (pc_tombstones c1 !! k0) as [t|] eqn:Et; cbn [fst snd lk_items]; [|done].
    match goal with |- Kept _ (set_tombstones (<[_ := ?t']> _) _) ∧ _ =>
      by destruct (touch_tombstone others _ k0 t t' H2 Hg2 Et eq_refl) end.
Qed.

(** ** Histories

    The cache is used through these operations; between them the rest of the process may
    leave the process budget in any state in which the cache's own charges remain. *)
Inductive cache_op : Type :=
  | CInsert (scope : PreviousResponseCacheScope) (response_id : string) (items : list Value) (capacity now_ms : Z)
  | CLookup (scope : PreviousResponseCacheScope) (response_id : string) (now_ms : Z)
  | CRecordContext
  | CElsewhere (parent : ResidentMemorySnapshot).

(** The cache, what the others hold, and the last successful insertion of each key. *)
Record history := mk_history {
  hy_cache : Cache;
  hy_others : Z;
  hy_last : gmap PreviousResponseCacheKey (list Value * Z);
}.
Definition act (h : history) (op : cache_op) : history :=
  match op with
  | CInsert scope response_id items capacity now_ms =>
      let '(c, ok) := insert scope response_id items capacity now_ms (hy_cache h) in
      mk_history c (hy_others h)
        (if ok : bool then <[mk_key scope response_id := (items, now_ms)]> (hy_last h) else hy_last h)
  | CLookup scope response_id now_ms =>
      mk_history (lookup_with scope response_id now_ms id (hy_cache h)).1 (hy_others h) (hy_last h)
  | CRecordContext => mk_history (record_required_context_unavailable (hy_cache h)) (hy_others h) (hy_last h)
  | CElsewhere parent =>
      if (held (hy_cache h) <=? rm_used_bytes parent) && (rm_used_bytes parent <=? USIZE_MAX)
      then mk_history (set_parent parent (hy_cache h)) (rm_used_bytes parent - held (hy_cache h)) (hy_last h)
      else h
  end.
Definition play (parent : ResidentMemorySnapshot) (ops : list cache_op) : history :=
  foldl act (mk_history (with_parent parent) (rm_used_bytes parent) ∅) ops.

(** Every stored entry is the last successful insertion of its key. *)
Definition truthful (h : history) : Prop := ∀ k e, pc_entries (hy_cache h) !! k = Some e →
  ∃ t, hy_last h !! k = Some (ce_items e, t) ∧ ce_expires_at_ms e = sat_i64 (t + CACHE_TTL_MS).
Record Sane (h : history) : Prop := {
  sa_kept : Kept (hy_others h) (hy_cache h); sa_gauged : gauged (hy_cache h); sa_truthful : truthful h;
}.
Context (encoded_nonneg : ∀ v m, encoded_len v = Some m → 0 ≤ m).

Lemma act_sane h op : Sane h → Sane (act h op).
Proof.
  intros [Hk Hg Ht]. destruct op as [scope rid items capacity now_ms|scope rid now_ms| |parent]; cbn [act].
  - pose proof (insert_spec (hy_others h) scope rid items capacity now_ms _ Hk encoded_nonneg) as H.
    destruct (insert _ _ _ _ _ _) as [c ok]. simpl in H. destruct H as [H1 H2 H3 H4].
    constructor; [done|done|]. intros k e He. cbn [hy_cache hy_last] in *.
    destruct (decide (ok = true ∧ k = mk_key scope rid)) as [[-> ->]|Hn].
    + destruct (H3 eq_refl) as (e' & He' & <- & Hx). rewrite lookup_insert_eq. exists now_ms.
      assert (e = e') as -> by congruence. done.
    + destruct (Ht k e) as (t & Hl & Hx); [apply H4; [naive_solver|done]|]. exists t. split; [|done].
      destruct ok; [|done]. rewrite lookup_insert_ne; [done|naive_solver].
  - destruct (lookup_spec (hy_others h) scope rid now_ms id _ Hk) as (H1 & H2 & [_ H3] & _).
    constructor; [done|done|]. intros k e He. destruct (H3 k e He) as (e' & He' & _ & -> & ->). by apply Ht.
  - destruct (count_kept (hy_others h) CContext (hy_cache h) (conj Hk Hg)). by constructor.
  - destruct (_ && _) eqn:E; [|done]. apply andb_true_iff in E as [E1%Z.leb_le E2%Z.leb_le].
    destruct Hk as [[_ _ _ He Htt] Hw Hf]. constructor; [|done|done].
    constructor; [|by apply (Within_ext (hy_cache h))|done].
    constructor; cbn [hy_cache hy_others pc_parent set_parent]; try done; [|lia].
    change (held (set_parent parent (hy_cache h))) with (held (hy_cache h)). lia.
Qed.
Lemma act_all_sane h ops : Sane h → Sane (foldl act h ops).
Proof. revert h. induction ops as [|op ops IH]; intros h Hh; [done|]. by apply IH, act_sane. Qed.
Lemma play_sane parent ops : 0 ≤ rm_used_bytes parent ≤ USIZE_MAX → Sane (play parent ops).
Proof.
  intros Hp. apply act_all_sane. constructor; [|done|intros k e He; inversion He].
  constructor; [constructor|constructor|done]; cbn [hy_cache hy_others with_parent pc_parent pc_entries pc_tombstones pc_total_bytes];
    try (intros k x Hx; inversion Hx); try lia; try done.
  unfold held. cbn [with_parent pc_entries pc_tombstones]. rewrite !map_sum_empty. lia.
Qed.

(** ** Properties *)
(** The cache stays within its limits and accounts for what it holds: after any history of insertions, lookups and changes elsewhere in the process, at any times, there are at most 2000 entries of 1 to 200 items and 8 MiB each, the byte total is exactly the sum over the entries and at most 64 MiB, there are at most 4000 tombstones, the reported gauges are the actual numbers, and the process budget is charged exactly the retained bytes of the entries and tombstones present, on top of what the others hold. *)
Theorem cache_stays_bounded parent ops (Hp : 0 ≤ rm_used_bytes parent ≤ USIZE_MAX) :
  let h := play parent ops in let c := hy_cache h in
  Z.of_nat (size (pc_entries c)) ≤ CACHE_MAX_ENTRIES ∧
  (∀ k e, pc_entries c !! k = Some e → entry_within e) ∧
  pc_total_bytes c = map_sum ce_bytes (pc_entries c) ∧ pc_total_bytes c ≤ CACHE_MAX_BYTES ∧
  Z.of_nat (size (pc_tombstones c)) ≤ TOMBSTONE_MAX_ENTRIES ∧
  st_current_entries (pc_stats c) = Z.of_nat (size (pc_entries c)) ∧
  st_current_bytes (pc_stats c) = pc_total_bytes c ∧
  st_current_tombstones (pc_stats c) = Z.of_nat (size (pc_tombstones c)) ∧
  rm_used_bytes (pc_parent c) = hy_others h +
    (map_sum ce_retained_bytes (pc_entries c) + map_sum tb_retained_bytes (pc_tombstones c)).
Proof.
  intros h c. destruct (play_sane parent ops Hp) as [[Hc [We Wc Wt Wb] Hf] (G1 & G2 & G3) _].
  split_and!; try done. apply Hc.
Qed.

(** C29: A hit is the truth: after any history, a lookup returns items only when the last successful insertion under exactly that scope (Share, principal, provider and revision, runtime, account, generations, credential, workspace) and response id inserted exactly those items, less than ten minutes ago; no other scope's or superseded context can be returned. *)
Theorem hits_return_last_insert {T} parent ops scope response_id now_ms (prepare : list Value → T) x
    (Hp : 0 ≤ rm_used_bytes parent ≤ USIZE_MAX) :
  let h := play parent ops in
  lk_items (lookup_with scope response_id now_ms prepare (hy_cache h)).2 = Some x →
  ∃ items t, hy_last h !! mk_key scope response_id = Some (items, t) ∧ x = prepare items ∧
    now_ms < sat_i64 (t + CACHE_TTL_MS).
Proof.
  intros h. destruct (play_sane parent ops Hp : Sane h) as [Hk _ Ht].
  destruct (lookup_spec (hy_others h) scope response_id now_ms prepare _ Hk) as (_ & _ & _ & ->).
  unfold found. destruct (valid_response_id response_id); [|done].
  destruct (pc_entries (hy_cache h) !! _) as [e|] eqn:E; [|done].
  destruct (Z.ltb_spec now_ms (ce_expires_at_ms e)) as [Hlt|]; [|done]. intros [= <-].
  destruct (Ht _ _ E) as (t & Hl & Hx). exists (ce_items e), t. rewrite <-Hx. done.
Qed.

(** The operations that may come between an insertion and the lookup it serves. *)
Definition quiet (until : Z) (op : cache_op) : Prop :=
  match op with
  | CInsert _ _ _ _ _ => False
  | CLookup _ _ now_ms => now_ms < until
  | CRecordContext | CElsewhere _ => True
  end.
Definition holds_entry k (items : list Value) until c : Prop := ∃ e, pc_entries c !! k = Some e ∧
  ce_items e = items ∧ ce_expires_at_ms e = until.
Lemma act_holds_entry k items until h op : Sane h → quiet until op →
  holds_entry k items until (hy_cache h) → holds_entry k items until (hy_cache (act h op)).
Proof.
  intros [Hk _ _] Hq (e & He & Hi & Hx).
  destruct op as [scope rid its capacity now_ms|scope rid now_ms| |parent]; simpl in Hq; [done| | |]; cbn [act hy_cache].
  - destruct (lookup_spec (hy_others h) scope rid now_ms id _ Hk) as (_ & _ & [H _] & _).
    destruct (H k e He ltac:(lia)) as (e' & He' & Hi' & Hx'). exists e'. split_and!; [done|congruence..].
  - by exists e.
  - destruct (_ && _); by exists e.
Qed.

(** What is inserted is found: when an insertion reports success, every lookup of its key within the next ten minutes returns exactly its items, whatever lookups of any keys, context records and memory pressure elsewhere come in between; only later insertions can evict or replace it. *)
Theorem inserted_entry_is_found {T} parent ops scope response_id items capacity now_ms later when (prepare : list Value → T)
    (Hp : 0 ≤ rm_used_bytes parent ≤ USIZE_MAX) :
  let h := play parent ops in
  let inserted := insert scope response_id items capacity now_ms (hy_cache h) in
  let until := sat_i64 (now_ms + CACHE_TTL_MS) in
  inserted.2 = true → Forall (quiet until) later → when < until →
  let h' := foldl act (act h (CInsert scope response_id items capacity now_ms)) later in
  lk_items (lookup_with scope response_id when prepare (hy_cache h')).2 = Some (prepare items).
Proof.
  intros h inserted until Hok Hlater Hwhen h'. pose proof (play_sane parent ops Hp : Sane h) as Hh.
  assert (valid_response_id response_id = true) as Hid.
  { unfold inserted, ResponseCache.insert, cache_key in Hok. by destruct (valid_response_id response_id). }
  set (h1 := act h (CInsert scope response_id items capacity now_ms)) in *.
  assert (Sane h1) as Hh1 by (by apply act_sane).
  assert (holds_entry (mk_key scope response_id) items until (hy_cache h1)) as He1.
  { pose proof (insert_spec (hy_others h) scope response_id items capacity now_ms _ (sa_kept _ Hh) encoded_nonneg) as H.
    fold inserted in H. unfold h1. cbn [act]. fold inserted. destruct inserted as [c ok]. simpl in *.
    apply (in_new _ _ _ _ _ _ _ H Hok). }
  assert (Sane h' ∧ holds_entry (mk_key scope response_id) items until (hy_cache h')) as [Hh' (e & He & <- & Hx)].
  { unfold h'. clear h'. clearbody h1. clear Hok. revert h1 Hh1 He1. induction Hlater as [|op later Hop _ IH]; intros h1 Hh1 He1; [done|].
    apply IH; [by apply act_sane|by apply act_holds_entry]. }
  destruct (lookup_spec (hy_others h') scope response_id when prepare _ (sa_kept _ Hh')) as (_ & _ & _ & ->).
  unfold found. rewrite Hid, He. destruct (Z.ltb_spec when (ce_expires_at_ms e)); [done|lia].
Qed.
End proofs.

(** ** Concrete histories *)
Definition sample_scope (principal : string) : PreviousResponseCacheScope :=
  mk_scope "share-1" principal "provider-1" 3 "runtime" "account" 1 1 1 [7; 9] "workspace".
(** Items are texts of one byte a character; sizes are those of a 64-bit target. *)
Definition sample_play := play (Value := string) (λ s, Some (str_len s)) str_len str_len 200 100 32 8.
Definition sample_history : list cache_op :=
  [CInsert (sample_scope "a") "r1" ["one"; "two"] 2 1000; CInsert (sample_scope "b") "r1" ["other"] 1 2000;
   CLookup (sample_scope "a") "r1" 3000; CInsert (sample_scope "a") "bad " ["x"] 1 3000].

Lemma sample_encoded_nonneg : ∀ (v : string) m, Some (str_len v) = Some m → 0 ≤ m.
Proof. intros v m [= <-]. unfold str_len. lia. Qed.
Lemma sample_parent_ok : 0 ≤ rm_used_bytes (resident_new (Some 100000)) ≤ USIZE_MAX.
Proof. simpl. unfold USIZE_MAX, U64_MAX. lia. Qed.

Lemma cache_stays_bounded_witness :
  Z.of_nat (size (pc_entries (hy_cache (sample_play (resident_new (Some 100000)) sample_history)))) ≤ CACHE_MAX_ENTRIES.
Proof.
  exact (proj1 (cache_stays_bounded (λ s, Some (str_len s)) str_len str_len 200 100 32 8
    sample_encoded_nonneg (resident_new (Some 100000)) sample_history sample_parent_ok)).
Defined.

Definition sample_lookup (principal : string) (now_ms : Z) (h : history (Value := string)) :=
  lookup_with str_len 100 8 (sample_scope principal) "r1" now_ms (λ items, items) (hy_cache h).
Lemma hits_return_last_insert_witness : ∃ items t,
  hy_last (sample_play (resident_new (Some 100000)) sample_history) !! mk_key (sample_scope "a") "r1" = Some (items, t) ∧
  ["one"; "two"] = items ∧ 4000 < sat_i64 (t + CACHE_TTL_MS).
Proof.
  apply (hits_return_last_insert (λ s, Some (str_len s)) str_len str_len 200 100 32 8
    sample_encoded_nonneg (resident_new (Some 100000)) sample_history (sample_scope "a") "r1" 4000
    (λ items, items) ["one"; "two"] sample_parent_ok).
  vm_compute. reflexivity.
Defined.

Lemma inserted_entry_is_found_witness :
  lk_items (sample_lookup "c" 9000 (foldl (act (λ s, Some (str_len s)) str_len str_len 200 100 32 8)
    (sample_play (resident_new (Some 100000)) (sample_history ++ [CInsert (sample_scope "c") "r1" ["z"] 1 5000]))
    [CLookup (sample_scope "a") "r1" 8000; CRecordContext])).2 = Some ["z"].
Proof.
  pose proof (inserted_entry_is_found (λ s, Some (str_len s)) str_len str_len 200 100 32 8
    sample_encoded_nonneg (resident_new (Some 100000)) sample_history (sample_scope "c") "r1" ["z"] 1 5000
    [CLookup (sample_scope "a") "r1" 8000; CRecordContext] 9000 (λ items, items) sample_parent_ok) as H.
  unfold sample_play, play. rewrite foldl_app. apply H.
  - vm_compute. reflexivity.
  - repeat constructor; vm_compute; reflexivity.
  - vm_compute. reflexivity.
Defined.
