(* ===== verification/InFlight.v ===== *)
(** * Requests in flight ([src/state/in_flight.rs])

    The counters that bound the parallel requests of a Share, of a user of a Share, and of a
    bound account.  Each acquisition and each release holds the tracker's mutex; a guard
    releases when it is dropped, exactly once.  The code's recovery from a poisoned mutex is
    left out: no code panics while it holds one.  Metrics are left out. *)
From S2P Require Import Prelude MapSum RustStr Providers.
From Stdlib Require Import ZArith Lia Ascii.

Local Open Scope Z_scope.

(** ** Shares and their users *)
(** state/in_flight.rs:7-9 [ShareInFlightTracker] *)
Notation ShareInFlightTracker := (gmap string Z).
(** state/in_flight.rs:12-16 [ShareInFlightGuard] *)
Record ShareInFlightGuard := mk_share_guard { sg_share_id : string; sg_user_key : option string }.
(** state/in_flight.rs:19-22 [ShareInFlightAcquireError] *)
Inductive ShareInFlightAcquireError : Type :=
  | ShareLimit (current limit : Z)
  | UserLimit (current limit : Z).

(** [Option::filter] on a limit that [current] has reached. *)
Definition reached (current : Z) (limit : option Z) : option Z :=
  match limit with Some l => if l <=? current then Some l else None | None => None end.

(** state/in_flight.rs:53-58 [has_in_flight] *)
Definition has_in_flight (counts : ShareInFlightTracker) (share_id : string) : bool :=
  from_option (λ count, 0 <? count) false (counts !! share_id).

(** The separator of the user keys, U+001F. *)
Definition US : ascii := ascii_of_N 31.
(** state/in_flight.rs:85-86 [try_acquire_for_user] *)
Definition user_key_of (share_id email : string) : string := joined US share_id (to_ascii_lowercase email).

(** state/in_flight.rs:69-106 [try_acquire_for_user] *)
Definition try_acquire_for_user (counts : ShareInFlightTracker) (share_id : string)
    (parallel_limit : option Z) (user_email : option string) (user_parallel_limit : option Z) :
    result ShareInFlightAcquireError (ShareInFlightTracker * ShareInFlightGuard) :=
  let current := count_of counts share_id in
  match reached current parallel_limit with
  | Some limit => Err (ShareLimit current limit)
  | None =>
      let user_key := user_key_of share_id <$> user_email in
      let user_current := from_option (count_of counts) 0 user_key in
      match user_key, reached user_current user_parallel_limit with
      | Some _, Some limit => Err (UserLimit user_current limit)
      | _, _ =>
          let counts := <[share_id := sat_u32 (current + 1)]> counts in
          let counts := match user_key with
            | Some key => <[key := sat_u32 (count_of counts key + 1)]> counts
            | None => counts end in
          Ok (counts, mk_share_guard share_id user_key)
      end
  end.
(** state/in_flight.rs:60-67 [try_acquire] *)
Definition try_acquire (counts : ShareInFlightTracker) (share_id : string) (parallel_limit : option Z) :
    option (ShareInFlightTracker * ShareInFlightGuard) :=
  to_ok (try_acquire_for_user counts share_id parallel_limit None None).

(** state/in_flight.rs:112-121 [release]: one key *)
Definition release_key (counts : gmap string Z) (key : string) : gmap string Z :=
  match counts !! key with
  | None => counts
  | Some current => if current <=? 1 then delete key counts else <[key := current - 1]> counts
  end.
(** state/in_flight.rs:108-122 [release] *)
Definition release (counts : ShareInFlightTracker) (share_id : string) (user_key : option string) :
    ShareInFlightTracker :=
  foldl release_key counts (share_id :: option_list user_key).
(** state/in_flight.rs:126-129 [drop] *)
Definition drop_share_guard (counts : ShareInFlightTracker) (g : ShareInFlightGuard) : ShareInFlightTracker :=
  release counts (sg_share_id g) (sg_user_key g).

(** ** Accounts *)
(** state/in_flight.rs:30-33 [AccountInFlightCounts] *)
Record AccountInFlightCounts := mk_account_counts {
  by_account : gmap string Z; by_provider_type : gmap string Z;
}.
(** state/in_flight.rs:41-45 [AccountInFlightGuard] *)
Record AccountInFlightGuard := mk_account_guard { ag_key : string; ag_provider_type : string }.
(** state/in_flight.rs:48-51 [AccountInFlightAcquireError] *)
Record AccountInFlightAcquireError := mk_account_error { ae_current : Z; ae_limit : Z }.
(** state/in_flight.rs:221-223 [account_in_flight_key] *)
Definition account_in_flight_key (provider_type : ProviderType) (account_id : string) : string :=
  joined ":" (type_as_str provider_type) account_id.

(** state/in_flight.rs:141-176 [try_acquire] *)
Definition account_try_acquire (c : AccountInFlightCounts) (provider_type : ProviderType)
    (account_id : string) (max_concurrent : Z) :
    result AccountInFlightAcquireError (AccountInFlightCounts * AccountInFlightGuard) :=
  let key := account_in_flight_key provider_type account_id in
  let current := count_of (by_account c) key in
  if max_concurrent <=? current then Err (mk_account_error current max_concurrent)
  else
    let label := type_as_str provider_type in
    Ok (mk_account_counts (<[key := sat_u32 (current + 1)]> (by_account c))
          (<[label := sat_u32 (count_of (by_provider_type c) label + 1)]> (by_provider_type c)),
        mk_account_guard key label).

(** state/in_flight.rs:186-191 [release], the account's count: removed when it falls to zero *)
Definition lower (counts : gmap string Z) (key : string) : gmap string Z :=
  let next := sat_u32 (count_of counts key - 1) in
  if next =? 0 then delete key counts else <[key := next]> counts.
(** state/in_flight.rs:178-204 [release] *)
Definition account_release (c : AccountInFlightCounts) (key provider_type : string) : AccountInFlightCounts :=
  match by_account c !! key with
  | None => c
  | Some _ => mk_account_counts (lower (by_account c) key) (lower (by_provider_type c) provider_type)
  end.
(** state/in_flight.rs:207-212 [current] *)
Definition account_current (snapshot : gmap string Z) (provider_type : ProviderType) (account_id : string) : Z :=
  count_of snapshot (account_in_flight_key provider_type account_id).
(** state/in_flight.rs:132-139 [snapshot] *)
Definition account_snapshot (c : AccountInFlightCounts) : gmap string Z := by_account c.
(** state/in_flight.rs:216-218 [drop] *)
Definition drop_account_guard (c : AccountInFlightCounts) (g : AccountInFlightGuard) : AccountInFlightCounts :=
  account_release c (ag_key g) (ag_provider_type g).

(** ** Counters *)
(** One more request, within the width of the counter. *)
Lemma bump_in_width keys counts k : represents keys counts → Z.of_nat (length keys) < U32_MAX →
  sat_u32 (count_of counts k + 1) = count_of counts k + 1.
Proof.
  intros H Hl. rewrite (represents_count keys) by done. pose proof (occurrences_range k keys).
  unfold sat_u32. by rewrite saturate_in by lia.
Qed.
Lemma represents_acquire keys counts k : represents keys counts → Z.of_nat (length keys) < U32_MAX →
  represents (k :: keys) (<[k := sat_u32 (count_of counts k + 1)]> counts).
Proof. intros H Hl. rewrite (bump_in_width keys) by done. by apply represents_bump. Qed.
Lemma represents_release keys counts k : represents (k :: keys) counts → represents keys (release_key counts k).
Proof.
  intros H. pose proof (represents_drop _ _ _ H) as Hd. pose proof (represents_count _ _ k H) as Hc.
  rewrite occurrences_cons, decide_True in Hc by done. pose proof (occurrences_range k keys).
  unfold release_key. unfold count_of in *. destruct (counts !! k) as [n|]; simpl in *; [|lia].
  destruct (Z.leb_spec n 1), (Z.eqb_spec (n - 1) 0); try done; lia.
Qed.
(** The account tracker's way to lower a count is the same. *)
Lemma lower_release keys counts k : represents keys counts → k ∈ keys → Z.of_nat (length keys) ≤ U32_MAX →
  lower counts k = release_key counts k.
Proof.
  intros H Hk Hl. pose proof (occurrences_range k keys). unfold lower, release_key.
  rewrite (represents_count keys) by done. rewrite H.
  assert (1 ≤ occurrences k keys).
  { apply elem_of_Permutation in Hk as [keys' ->]. rewrite occurrences_cons, decide_True by done.
    pose proof (occurrences_range k keys'). lia. }
  destruct (Z.eqb_spec (occurrences k keys) 0); [lia|]. unfold sat_u32. rewrite saturate_in by lia.
  destruct (Z.eqb_spec (occurrences k keys - 1) 0), (Z.leb_spec (occurrences k keys) 1); by try lia.
Qed.

(** ** Histories of Share requests *)
(** A guard is alive from its acquisition until it is dropped; it is kept with the user it
    was acquired for. *)
Record shares_world := mk_shares {
  sw_counts : ShareInFlightTracker;
  sw_live : list (ShareInFlightGuard * option string);
}.
Inductive share_op : Type :=
  | Acquire (share_id : string) (parallel_limit : option Z) (user : option string) (user_limit : option Z)
  | DropGuard (i : nat).
Definition share_step (w : shares_world) (op : share_op) : shares_world :=
  match op with
  | Acquire share_id limit user user_limit =>
      match try_acquire_for_user (sw_counts w) share_id limit user user_limit with
      | Ok (counts, g) => mk_shares counts ((g, user) :: sw_live w)
      | Err _ => w
      end
  | DropGuard i =>
      match sw_live w !! i with
      | Some (g, _) => mk_shares (drop_share_guard (sw_counts w) g) (delete i (sw_live w))
      | None => w
      end
  end.
Definition share_run : list share_op → shares_world := foldl share_step (mk_shares ∅ []).

(** Share ids do not contain the separator. *)
Definition plain (s : string) : Prop := contains_char US s = false.
Definition plain_op (op : share_op) : Prop :=
  match op with Acquire share_id _ _ _ => plain share_id | DropGuard _ => True end.

Definition guard_keys (g : ShareInFlightGuard) : list string := sg_share_id g :: option_list (sg_user_key g).
Definition live_keys (w : shares_world) : list string := sw_live w ≫= λ gu, guard_keys gu.1.
Definition live_of_share (w : shares_world) (share_id : string) : Z :=
  Z.of_nat (length (filter (λ gu, sg_share_id gu.1 = share_id) (sw_live w))).
Definition live_of_user (w : shares_world) (share_id email : string) : Z :=
  Z.of_nat (length (filter (λ gu, sg_share_id gu.1 = share_id ∧
    to_ascii_lowercase <$> gu.2 = Some (to_ascii_lowercase email)) (sw_live w))).

Record share_sound (n : nat) (w : shares_world) : Prop := {
  ss_counts : represents (live_keys w) (sw_counts w);
  ss_guards : ∀ g u, (g, u) ∈ sw_live w → plain (sg_share_id g) ∧ sg_user_key g = user_key_of (sg_share_id g) <$> u;
  ss_length : (length (sw_live w) ≤ n)%nat;
}.

Lemma live_keys_length w : (length (live_keys w) ≤ 2 * length (sw_live w))%nat.
Proof.
  unfold live_keys. induction (sw_live w) as [|[g u] l IH]; [simpl; lia|].
  change (((g, u) :: l) ≫= λ gu, guard_keys gu.1) with (guard_keys g ++ (l ≫= λ gu, guard_keys gu.1)).
  assert (length (guard_keys g) ≤ 2)%nat by (unfold guard_keys; destruct (sg_user_key g); simpl; lia).
  rewrite length_app, length_cons. lia.
Qed.
Lemma user_key_not_plain s u s' : plain s' → user_key_of s u ≠ s'.
Proof. intros Hs <-. unfold plain, user_key_of in Hs. by rewrite contains_joined in Hs. Qed.
Lemma user_key_inj s u s' u' : plain s → plain s' →
  (user_key_of s u = user_key_of s' u' ↔ s = s' ∧ to_ascii_lowercase u = to_ascii_lowercase u').
Proof. intros Hs Hs'. unfold user_key_of. split; [by apply joined_inj|by intros [-> ->]]. Qed.

Section counts.
Context (n : nat) (w : shares_world) (Hw : share_sound n w).
Lemma occurrences_share s : plain s → occurrences s (live_keys w) = live_of_share w s.
Proof.
  intros Hs. pose proof (ss_guards n w Hw) as Hg. unfold live_keys, live_of_share.
  induction (sw_live w) as [|[g u] l IH]; [done|].
  destruct (Hg g u ltac:(left)) as [Hpl Hk]. specialize (IH (λ g' u' H, Hg g' u' ltac:(by right))).
  change (((g, u) :: l) ≫= λ gu, guard_keys gu.1) with (guard_keys g ++ (l ≫= λ gu, guard_keys gu.1)).
  unfold guard_keys at 1. rewrite Hk, filter_cons. cbn [fst]. destruct u as [u|]; simpl.
  - rewrite !occurrences_cons, IH, (decide_False (P := user_key_of _ _ = s)) by by apply user_key_not_plain.
    case_decide; simpl; lia.
  - rewrite occurrences_cons, IH. case_decide; simpl; lia.
Qed.
Lemma occurrences_user s e : plain s → occurrences (user_key_of s e) (live_keys w) = live_of_user w s e.
Proof.
  intros Hs. pose proof (ss_guards n w Hw) as Hg. unfold live_keys, live_of_user.
  induction (sw_live w) as [|[g u] l IH]; [done|].
  destruct (Hg g u ltac:(left)) as [Hpl Hk]. specialize (IH (λ g' u' H, Hg g' u' ltac:(by right))).
  change (((g, u) :: l) ≫= λ gu, guard_keys gu.1) with (guard_keys g ++ (l ≫= λ gu, guard_keys gu.1)).
  assert (sg_share_id g ≠ user_key_of s e) as Hne by (intros E; by eapply (user_key_not_plain s e)).
  unfold guard_keys at 1. rewrite Hk, filter_cons. cbn [fst snd]. destruct u as [u|]; simpl.
  - rewrite !occurrences_cons, IH, (decide_False (P := sg_share_id g = _)) by done.
    destruct (decide (user_key_of (sg_share_id g) u = user_key_of s e)) as [E|E];
      rewrite user_key_inj in E by done; destruct E as [-> E] || idtac.
    + rewrite decide_True by (split; [done|by f_equal]). simpl. lia.
    + rewrite decide_False by (intros [? [= ?]]; naive_solver). lia.
  - rewrite occurrences_cons, IH, !decide_False by naive_solver. lia.
Qed.
End counts.

Lemma share_step_sound n w op : share_sound n w → plain_op op → 2 * Z.of_nat (S n) ≤ U32_MAX →
  share_sound (S n) (share_step w op).
Proof.
  intros [Hc Hg Hl] Hp Hn. pose proof (live_keys_length w) as Hkl.
  destruct op as [s limit user ulimit|i]; cbn [share_step].
  - unfold try_acquire_for_user. destruct (reached _ limit); [split; [done..|lia]|].
    assert (share_sound (S n) (mk_shares (match user_key_of s <$> user with
        | Some key => <[key := sat_u32 (count_of (<[s := sat_u32 (count_of (sw_counts w) s + 1)]> (sw_counts w)) key + 1)]>
            (<[s := sat_u32 (count_of (sw_counts w) s + 1)]> (sw_counts w))
        | None => <[s := sat_u32 (count_of (sw_counts w) s + 1)]> (sw_counts w) end)
      ((mk_share_guard s (user_key_of s <$> user), user) :: sw_live w))) as Hok.
    { constructor; cbn [sw_counts sw_live]; [|intros g u [[= -> ->]|?]%elem_of_cons; [done|by apply Hg]|simpl; lia].
      pose proof (represents_acquire _ _ s Hc ltac:(lia)) as H1.
      destruct user as [u|]; [|exact H1].
      change (represents (s :: user_key_of s u :: live_keys w)
        (<[user_key_of s u := sat_u32 (count_of (<[s := sat_u32 (count_of (sw_counts w) s + 1)]> (sw_counts w)) (user_key_of s u) + 1)]>
          (<[s := sat_u32 (count_of (sw_counts w) s + 1)]> (sw_counts w)))).
      rewrite (Permutation_swap (user_key_of s u) s). apply (represents_acquire _ _ (user_key_of s u)) in H1; [done|simpl; lia]. }
    destruct user as [u|]; simpl in *; [destruct (reached _ ulimit)|]; try done. by split; [| |lia].
  - destruct (sw_live w !! i) as [[g u]|] eqn:E; [|by split; [| |lia]].
    pose proof (delete_Permutation _ _ _ E) as Hperm.
    constructor; cbn [sw_counts sw_live].
    + assert (represents (guard_keys g ++ live_keys (mk_shares ∅ (delete i (sw_live w)))) (sw_counts w)) as H.
      { unfold live_keys at 1 in Hc. rewrite Hperm in Hc. done. }
      unfold drop_share_guard, release, guard_keys in *. clear Hkl.
      destruct (sg_user_key g); simpl in *; [do 2 apply represents_release|apply represents_release]; done.
    + intros g' u' Hin. apply Hg. rewrite Hperm. by right.
    + apply Permutation_length in Hperm. simpl in Hperm. lia.
Qed.
Lemma share_run_sound ops : Forall plain_op ops → 2 * Z.of_nat (length ops) ≤ U32_MAX →
  share_sound (length ops) (share_run ops).
Proof.
  induction ops as [|op ops IH] using rev_ind; intros Hp Hl.
  - constructor; [intros key; done|intros g u H; inversion H|done].
  - apply Forall_app in Hp as [Hp Hop]. rewrite Forall_singleton in Hop. rewrite length_app in *. simpl in *.
    unfold share_run. rewrite foldl_app. simpl. rewrite Nat.add_1_r. apply share_step_sound; [apply IH; [done|lia]|done|lia].
Qed.

Lemma has_in_flight_count (counts : gmap string Z) key :
  has_in_flight counts key = bool_decide (0 < count_of counts key).
Proof.
  unfold has_in_flight, count_of. destruct (counts !! key) as [c|]; simpl; [|done]. unfold id.
  destruct (Z.ltb_spec 0 c); [by rewrite bool_decide_eq_true_2|rewrite bool_decide_eq_false_2; [done|lia]].
Qed.


(** ** Histories of account leases *)
Record accounts_world := mk_accounts {
  aw_counts : AccountInFlightCounts;
  aw_live : list (AccountInFlightGuard * (ProviderType * string));
}.
Inductive account_op : Type :=
  | AcquireAccount (provider_type : ProviderType) (account_id : string) (max_concurrent : Z)
  | DropAccountGuard (i : nat).
Definition account_step (w : accounts_world) (op : account_op) : accounts_world :=
  match op with
  | AcquireAccount t id max =>
      match account_try_acquire (aw_counts w) t id max with
      | Ok (counts, g) => mk_accounts counts ((g, (t, id)) :: aw_live w)
      | Err _ => w
      end
  | DropAccountGuard i =>
      match aw_live w !! i with
      | Some (g, _) => mk_accounts (drop_account_guard (aw_counts w) g) (delete i (aw_live w))
      | None => w
      end
  end.
Definition account_run : list account_op → accounts_world :=
  foldl account_step (mk_accounts (mk_account_counts ∅ ∅) []).
Definition live_of_account (w : accounts_world) (t : ProviderType) (id : string) : Z :=
  Z.of_nat (length (filter (λ ga, ga.2 = (t, id)) (aw_live w))).
Definition live_of_type (w : accounts_world) (t : ProviderType) : Z :=
  Z.of_nat (length (filter (λ ga, ga.2.1 = t) (aw_live w))).

Record account_sound (n : nat) (w : accounts_world) : Prop := {
  as_accounts : represents ((λ ga, ag_key ga.1) <$> aw_live w) (by_account (aw_counts w));
  as_types : represents ((λ ga, ag_provider_type ga.1) <$> aw_live w) (by_provider_type (aw_counts w));
  as_guards : ∀ g t id, (g, (t, id)) ∈ aw_live w → g = mk_account_guard (account_in_flight_key t id) (type_as_str t);
  as_length : (length (aw_live w) ≤ n)%nat;
}.
Lemma account_key_inj t id t' id' : account_in_flight_key t id = account_in_flight_key t' id' ↔ (t, id) = (t', id').
Proof.
  unfold account_in_flight_key. split; [|by intros [= -> ->]].
  intros [H ->]%joined_inj; [|apply type_no_colon..]. by apply type_as_str_inj in H as ->.
Qed.
Lemma occurrences_fmap {A} (f : A → string) (P : A → Prop) `{∀ x, Decision (P x)} key l :
  (∀ x, x ∈ l → f x = key ↔ P x) → occurrences key (f <$> l) = Z.of_nat (length (filter P l)).
Proof.
  induction l as [|x l IH]; intros Hf; [done|]. rewrite fmap_cons, occurrences_cons, filter_cons, IH
    by (intros; apply Hf; by right).
  destruct (decide (P x)) as [Hx|Hx]; rewrite <-(Hf x ltac:(left)) in Hx.
  - rewrite decide_True by done. simpl. lia.
  - rewrite decide_False by done. lia.
Qed.
Section leases.
Context (n : nat) (w : accounts_world) (Hw : account_sound n w).
Lemma account_count t id : count_of (by_account (aw_counts w)) (account_in_flight_key t id) = live_of_account w t id.
Proof.
  rewrite (represents_count _ _ _ (as_accounts _ _ Hw)). apply occurrences_fmap.
  intros [g [t' id']] Hin. rewrite (as_guards _ _ Hw _ _ _ Hin). simpl. apply account_key_inj.
Qed.
Lemma type_count t : count_of (by_provider_type (aw_counts w)) (type_as_str t) = live_of_type w t.
Proof.
  rewrite (represents_count _ _ _ (as_types _ _ Hw)). apply occurrences_fmap.
  intros [g [t' id']] Hin. rewrite (as_guards _ _ Hw _ _ _ Hin). simpl. split; [apply type_as_str_inj|by intros ->].
Qed.
Lemma account_step_sound op : Z.of_nat (S n) ≤ U32_MAX → account_sound (S n) (account_step w op).
Proof.
  intros Hn. destruct Hw as [Ha Ht Hg Hl]. destruct op as [t id max|i]; cbn [account_step].
  - unfold account_try_acquire. destruct (max <=? _); [split; [done..|lia]|].
    constructor; cbn [aw_counts aw_live by_account by_provider_type]; [| |intros g t' id' [[= -> -> ->]|?]%elem_of_cons; [done|by apply Hg]|simpl; lia].
    + rewrite fmap_cons. apply represents_acquire; [done|rewrite length_fmap; lia].
    + rewrite fmap_cons. apply represents_acquire; [done|rewrite length_fmap; lia].
  - destruct (aw_live w !! i) as [[g [t id]]|] eqn:E; [|split; [done..|lia]].
    pose proof (delete_Permutation _ _ _ E) as Hperm.
    assert (g = mk_account_guard (account_in_flight_key t id) (type_as_str t)) as -> by (apply Hg; rewrite Hperm; left).
    pose proof Ha as Ha'. pose proof Ht as Ht'. rewrite Hperm, fmap_cons in Ha, Ht.
    unfold drop_account_guard, account_release. cbn [ag_key ag_provider_type].
    rewrite (Ha (account_in_flight_key t id)), occurrences_cons, decide_True by done.
    pose proof (occurrences_range (account_in_flight_key t id) ((λ ga, ag_key ga.1) <$> delete i (aw_live w))).
    destruct (Z.eqb_spec (occurrences (account_in_flight_key t id) ((λ ga, ag_key ga.1) <$> delete i (aw_live w)) + 1) 0); [lia|].
    constructor; cbn [aw_counts aw_live by_account by_provider_type].
    + rewrite (lower_release ((λ ga, ag_key ga.1) <$> aw_live w)); [by apply represents_release|done| |rewrite length_fmap; lia].
      rewrite Hperm, fmap_cons. left.
    + rewrite (lower_release ((λ ga, ag_provider_type ga.1) <$> aw_live w)); [by apply represents_release|done| |rewrite length_fmap; lia].
      rewrite Hperm, fmap_cons. left.
    + intros g' t' id' Hin. apply Hg. rewrite Hperm. by right.
    + apply Permutation_length in Hperm. simpl in Hperm. lia.
Qed.
End leases.
Lemma account_run_sound ops : Z.of_nat (length ops) ≤ U32_MAX → account_sound (length ops) (account_run ops).
Proof.
  induction ops as [|op ops IH] using rev_ind; intros Hl.
  - constructor; [by intros key|by intros key|intros g t id H; inversion H|done].
  - rewrite length_app in *. simpl in *. unfold account_run. rewrite foldl_app. simpl. rewrite Nat.add_1_r.
    apply account_step_sound; [apply IH|]; lia.
Qed.

(** Account leases bound what runs on an account: after any interleaving of acquisitions and drops, a lease is granted exactly when fewer than the maximum are alive for that provider type and account, a refusal reports the exact number, the snapshot other code routes by shows that number, and the total per provider type counts the live leases of all its accounts. *)
Theorem account_lease_iff_below_limit ops t id max (Hlen : Z.of_nat (length ops) ≤ U32_MAX) :
  let w := account_run ops in
  account_current (account_snapshot (aw_counts w)) t id = live_of_account w t id ∧
  count_of (by_provider_type (aw_counts w)) (type_as_str t) = live_of_type w t ∧
  match account_try_acquire (aw_counts w) t id max with
  | Ok (_, g) => live_of_account w t id < max ∧ g = mk_account_guard (account_in_flight_key t id) (type_as_str t)
  | Err e => max ≤ live_of_account w t id ∧ e = mk_account_error (live_of_account w t id) max
  end.
Proof.
  intros w. pose proof (account_run_sound ops Hlen : account_sound _ w) as Hw.
  split; [apply (account_count _ w Hw)|]. split; [apply (type_count _ w Hw)|].
  unfold account_try_acquire. rewrite (account_count _ w Hw).
  by destruct (Z.leb_spec max (live_of_account w t id)).
Qed.

(** ** Concrete histories *)
Definition sample_share_ops : list share_op :=
  [Acquire "s1" (Some 3) (Some "A@x.io") (Some 2); Acquire "s1" (Some 3) (Some "a@x.io") (Some 2);
   Acquire "s1" (Some 3) (Some "a@X.io") (Some 2); Acquire "s1" (Some 3) None None; DropGuard 1].
Lemma account_lease_iff_below_limit_witness :
  let w := account_run [AcquireAccount PTCodexOAuth "a" 2; AcquireAccount PTCodexOAuth "a" 2; DropAccountGuard 0] in
  account_current (account_snapshot (aw_counts w)) PTCodexOAuth "a" = live_of_account w PTCodexOAuth "a".
Proof.
  refine (proj1 (account_lease_iff_below_limit
    [AcquireAccount PTCodexOAuth "a" 2; AcquireAccount PTCodexOAuth "a" 2; DropAccountGuard 0] PTCodexOAuth "a" 2 _)).
  vm_compute. discriminate.
Defined.
