(* ===== verification/Recovery.v ===== *)
(** * Transparent recovery ([src/proxy/execution/], [src/proxy/retry_policy.rs])

    The budget of a request's transparent retries, the fence that ends them when business
    output has been committed, the identity snapshot a retry must still match, the one
    mutation a cache hit authorises, and the policy for a refused credential. *)
From S2P Require Import Prelude RustStr Providers.
From Stdlib Require Import ZArith Lia.

Local Open Scope Z_scope.

(** ** Commit fence *)
(** proxy/execution/terminal.rs:4-6 [CommitGuard] *)
Record CommitGuard := mk_guard { committed_at_attempt : option Z }.
Definition guard_default : CommitGuard := mk_guard None.
(** proxy/execution/terminal.rs:9-11 [is_committed] *)
Definition is_committed (g : CommitGuard) : bool := bool_decide (is_Some (committed_at_attempt g)).
(** proxy/execution/terminal.rs:13-19 [commit_business_output] *)
Definition commit_business_output (g : CommitGuard) (attempt : Z) : CommitGuard * bool :=
  match committed_at_attempt g with
  | Some _ => (g, false)
  | None => (mk_guard (Some attempt), true)
  end.

(** ** Identity *)
(** proxy/execution/context.rs:19-24 [ManagedAccountSnapshot] *)
Record ManagedAccountSnapshot := mk_managed {
  ma_provider_type : ProviderType; ma_account_id : string;
  ma_auth_identity_generation : Z; ma_token_generation : Z;
}.
#[global] Instance ManagedAccountSnapshot_eq_dec : EqDecision ManagedAccountSnapshot.
Proof. solve_decision. Defined.
(** proxy/execution/context.rs:42-50 [BindingSnapshot] *)
Record BindingSnapshot := mk_binding {
  bs_app : AppKind; bs_provider_id : string; bs_provider_type : ProviderType;
  bs_provider_revision : Z; bs_credential_generation : Z; bs_rail : string;
  bs_account : option ManagedAccountSnapshot;
}.
#[global] Instance BindingSnapshot_eq_dec : EqDecision BindingSnapshot.
Proof. solve_decision. Defined.
(** proxy/execution/context.rs:68-73 [BindingSnapshotError] *)
Inductive BindingSnapshotError : Type :=
  | AccountMissing | AuthIdentityChanged | BindingChanged | TokenGenerationRegressed.

(** proxy/execution/context.rs:231-247 [same_identity] *)
Definition same_identity (a b : BindingSnapshot) : bool :=
  bool_decide (bs_app a = bs_app b)
  && bool_decide (bs_provider_id a = bs_provider_id b)
  && bool_decide (bs_provider_type a = bs_provider_type b)
  && bool_decide (bs_provider_revision a = bs_provider_revision b)
  && bool_decide (bs_credential_generation a = bs_credential_generation b)
  && bool_decide (bs_rail a = bs_rail b)
  && match bs_account a, bs_account b with
     | Some a, Some b =>
         bool_decide (ma_provider_type a = ma_provider_type b)
         && bool_decide (ma_account_id a = ma_account_id b)
         && bool_decide (ma_auth_identity_generation a = ma_auth_identity_generation b)
     | None, None => true
     | _, _ => false
     end.
(** proxy/execution/context.rs:186-206 [advance_token_generation], given what [capture] returned *)
Definition advance_token_generation (s : BindingSnapshot) (captured : result BindingSnapshotError BindingSnapshot) :
    BindingSnapshot * result BindingSnapshotError () :=
  match captured with
  | Err e => (s, Err e)
  | Ok current =>
      if negb (same_identity s current) then (s, Err BindingChanged)
      else match bs_account s, bs_account current with
      | Some previous, Some next =>
          if ma_token_generation next <? ma_token_generation previous
          then (s, Err TokenGenerationRegressed) else (current, Ok ())
      | None, None => (s, Ok ())
      | _, _ => (s, Err BindingChanged)
      end
  end.
(** proxy/execution/context.rs:170-181 [validate], given what [capture] returned *)
Definition validate_binding (s : BindingSnapshot) (captured : result BindingSnapshotError BindingSnapshot) :
    result BindingSnapshotError () :=
  current ← captured; if bool_decide (s = current) then Ok () else Err BindingChanged.

(** proxy/execution/context.rs:253-258 [CacheSnapshotOwnership], with the shared flag as a field: all the
    clones of a proof are one state *)
Record CacheSnapshotOwnership := mk_ownership {
  co_domain : string; co_scope_digest : list Z; co_generation : Z; co_consumed : bool;
}.
(** proxy/execution/context.rs:284-295 [from_hit] *)
Definition from_hit (domain : string) (scope_digest : list Z) (generation : Z) : CacheSnapshotOwnership :=
  mk_ownership domain scope_digest generation false.
(** proxy/execution/context.rs:297-312 [authorize_mutation] *)
Definition authorize_mutation (o : CacheSnapshotOwnership) (domain : string) (scope_digest : list Z)
    (generation : Z) : CacheSnapshotOwnership * bool :=
  if negb (bool_decide (co_domain o = domain)) || negb (bool_decide (co_scope_digest o = scope_digest))
     || negb (co_generation o =? generation)
  then (o, false)
  else if co_consumed o then (o, false)
  else (mk_ownership (co_domain o) (co_scope_digest o) (co_generation o) true, true).

(** ** Attempts *)
(** proxy/execution/recovery.rs:8-16 [RecoveryStage] *)
Inductive RecoveryStage : Type :=
  | Auth | Capacity | BodyCompatibility | Reasoning | SessionRollover | Transport | WebsocketToHttp.
#[global] Instance RecoveryStage_eq_dec : EqDecision RecoveryStage.
Proof. solve_decision. Defined.
(** proxy/execution/recovery.rs:19-29 [as_str] *)
Definition stage_as_str (s : RecoveryStage) : string :=
  match s with
  | Auth => "auth"
  | Capacity => "capacity"
  | BodyCompatibility => "body_compatibility"
  | Reasoning => "reasoning"
  | SessionRollover => "session_rollover"
  | Transport => "transport"
  | WebsocketToHttp => "websocket_to_http"
  end.
(** proxy/execution/recovery.rs:31-41 [index] *)
Definition stage_index (s : RecoveryStage) : nat :=
  match s with
  | Auth => 0 | Capacity => 1 | BodyCompatibility => 2 | Reasoning => 3
  | SessionRollover => 4 | Transport => 5 | WebsocketToHttp => 6
  end.
(** proxy/execution/recovery.rs:44-44 [RECOVERY_STAGE_COUNT] *)
Definition RECOVERY_STAGE_COUNT : nat := 7.
(** proxy/execution/recovery.rs:47-53 [DelaySource] *)
Inductive DelaySource : Type := NoDelay | Immediate | RetryAfter | ProviderHint | BoundedBackoff.
(** proxy/execution/recovery.rs:68-76 [RetryDecision] *)
Inductive RetryDecision : Type :=
  | Reserved | DeniedTotalLimit | DeniedStageLimit | DeniedElapsedLimit | DeniedCommitted
  | DeniedBindingDrift | DeniedBudget.
#[global] Instance RetryDecision_eq_dec : EqDecision RetryDecision.
Proof. solve_decision. Defined.
(** proxy/execution/recovery.rs:93-97 [AttemptLimits] *)
Record AttemptLimits := mk_limits { total_retries : Z; elapsed_ms : Z; per_stage : list Z }.
(** proxy/execution/recovery.rs:100-106 [forward_default] *)
Definition forward_default (total_retries elapsed_ms : Z) : AttemptLimits :=
  mk_limits total_retries elapsed_ms [1; 2; 3; 1; 1; 3; 1].
(** proxy/execution/recovery.rs:117-119 [stage_limit] *)
Definition stage_limit (l : AttemptLimits) (stage : RecoveryStage) : Z :=
  default 0 (per_stage l !! stage_index stage).
(** proxy/execution/recovery.rs:123-128 [AttemptObservation] *)
Record AttemptObservation := mk_attempt {
  at_stage : RecoveryStage; at_reason : string; at_delay_source : DelaySource; at_decision : RetryDecision;
}.
(** proxy/execution/recovery.rs:131-137 [AttemptBudget] *)
Record AttemptBudget := mk_attempts {
  ab_limits : AttemptLimits;
  ab_started_at_ms : Z;
  ab_retries_used : Z;
  ab_per_stage_used : list Z;
  ab_last_observation : option AttemptObservation;
}.
(** proxy/execution/recovery.rs:140-148 [new] *)
Definition attempts_new (limits : AttemptLimits) (started_at_ms : Z) : AttemptBudget :=
  mk_attempts limits started_at_ms 0 (replicate RECOVERY_STAGE_COUNT 0) None.
(** proxy/execution/recovery.rs:158-160 [used_for] *)
Definition used_for (b : AttemptBudget) (stage : RecoveryStage) : Z :=
  default 0 (ab_per_stage_used b !! stage_index stage).
(** proxy/execution/recovery.rs:162-166 [has_remaining] *)
Definition has_remaining (b : AttemptBudget) (now_ms : Z) (commit : CommitGuard) : bool :=
  negb (is_committed commit)
  && (ab_retries_used b <? total_retries (ab_limits b))
  && (sat_u128 (now_ms - ab_started_at_ms b) <? elapsed_ms (ab_limits b)).
(** proxy/execution/recovery.rs:169-202 [reserve] *)
Definition reserve (b : AttemptBudget) (stage : RecoveryStage) (reason : string) (delay_source : DelaySource)
    (now_ms : Z) (commit : CommitGuard) (expected_binding current_binding : option BindingSnapshot) :
    AttemptBudget * RetryDecision :=
  let deny d := (mk_attempts (ab_limits b) (ab_started_at_ms b) (ab_retries_used b) (ab_per_stage_used b)
    (Some (mk_attempt stage reason delay_source d)), d) in
  if is_committed commit then deny DeniedCommitted
  else if negb (bool_decide (expected_binding = current_binding)) then deny DeniedBindingDrift
  else if elapsed_ms (ab_limits b) <=? sat_u128 (now_ms - ab_started_at_ms b) then deny DeniedElapsedLimit
  else if total_retries (ab_limits b) <=? ab_retries_used b then deny DeniedTotalLimit
  else if stage_limit (ab_limits b) stage <=? used_for b stage then deny DeniedStageLimit
  else (mk_attempts (ab_limits b) (ab_started_at_ms b) (sat_u32 (ab_retries_used b + 1))
          (<[stage_index stage := sat_u32 (used_for b stage + 1)]> (ab_per_stage_used b))
          (Some (mk_attempt stage reason delay_source Reserved)), Reserved).

(** ** Refused credentials *)
(** proxy/retry_policy.rs:6-9 [AuthRecoveryDecision] *)
Inductive AuthRecoveryDecision : Type := RefreshAndReplaySameBinding | ReturnUnauthorized.
(** proxy/retry_policy.rs:26-42 [supports_unauthorized_recovery] *)
Definition supports_unauthorized_recovery (t : ProviderType) : bool :=
  match t with
  | PTClaudeOAuth | PTCodexOAuth | PTGrokOAuth | PTGeminiCli | PTAntigravityOAuth | PTAgyOAuth
  | PTKiroOAuth | PTAmazonQOAuth | PTGitHubCopilot | PTCursorOAuth | PTCursorApiKey | PTKimiCode => true
  | _ => false
  end.
(** proxy/retry_policy.rs:11-24 [unauthorized_recovery_decision] *)
Definition unauthorized_recovery_decision (status : Z) (provider_type : ProviderType)
    (attempted replay_allowed : bool) : option AuthRecoveryDecision :=
  if negb (status =? 401) then None
  else if attempted || negb replay_allowed || negb (supports_unauthorized_recovery provider_type)
  then Some ReturnUnauthorized
  else Some RefreshAndReplaySameBinding.

(** ** A request's history *)
Inductive recovery_event : Type :=
  | Commit (attempt : Z)
  | Attempt (stage : RecoveryStage) (reason : string) (delay_source : DelaySource) (now_ms : Z)
      (expected_binding current_binding : option BindingSnapshot).
(** The fence, the budget, and the stages reserved so far. *)
Record recovery_state := mk_recovery {
  rv_guard : CommitGuard; rv_budget : AttemptBudget; rv_reserved : list RecoveryStage;
}.
Definition recovery_step (s : recovery_state) (e : recovery_event) : recovery_state :=
  match e with
  | Commit attempt => mk_recovery (commit_business_output (rv_guard s) attempt).1 (rv_budget s) (rv_reserved s)
  | Attempt stage reason delay now_ms expected current =>
      let '(budget, decision) := reserve (rv_budget s) stage reason delay now_ms (rv_guard s) expected current in
      mk_recovery (rv_guard s) budget
        (if bool_decide (decision = Reserved) then stage :: rv_reserved s else rv_reserved s)
  end.
Definition recovery_run (limits : AttemptLimits) (started_at_ms : Z) (events : list recovery_event) : recovery_state :=
  foldl recovery_step (mk_recovery guard_default (attempts_new limits started_at_ms) []) events.

(** The limits are machine words, one for each stage. *)
Definition limits_ok (l : AttemptLimits) : Prop :=
  0 ≤ total_retries l ≤ U32_MAX ∧ length (per_stage l) = RECOVERY_STAGE_COUNT ∧
  ∀ stage, 0 ≤ stage_limit l stage ≤ U32_MAX.
Definition is_commit (e : recovery_event) : bool := match e with Commit _ => true | Attempt _ _ _ _ _ _ => false end.
Definition reserved_count (stage : RecoveryStage) (reserved : list RecoveryStage) : Z :=
  Z.of_nat (length (filter (λ s, s = stage) reserved)).

Record recovery_sound (limits : AttemptLimits) (started_at_ms : Z) (events : list recovery_event)
    (s : recovery_state) : Prop := {
  rs_limits : ab_limits (rv_budget s) = limits ∧ ab_started_at_ms (rv_budget s) = started_at_ms;
  rs_guard : is_committed (rv_guard s) = existsb is_commit events;
  rs_total : ab_retries_used (rv_budget s) = Z.of_nat (length (rv_reserved s));
  rs_stages : length (ab_per_stage_used (rv_budget s)) = RECOVERY_STAGE_COUNT ∧
    ∀ stage, used_for (rv_budget s) stage = reserved_count stage (rv_reserved s);
  rs_within : Z.of_nat (length (rv_reserved s)) ≤ total_retries limits ∧
    ∀ stage, reserved_count stage (rv_reserved s) ≤ stage_limit limits stage;
}.

Lemma stage_index_inj a b : stage_index a = stage_index b → a = b.
Proof. by destruct a, b. Qed.
Lemma stage_index_lt a : (stage_index a < RECOVERY_STAGE_COUNT)%nat.
Proof. unfold RECOVERY_STAGE_COUNT. destruct a; simpl; lia. Qed.
Lemma reserve_Reserved b stage reason delay now commit expected current :
  (reserve b stage reason delay now commit expected current).2 = Reserved ↔
  is_committed commit = false ∧ expected = current ∧
  sat_u128 (now - ab_started_at_ms b) < elapsed_ms (ab_limits b) ∧
  ab_retries_used b < total_retries (ab_limits b) ∧ used_for b stage < stage_limit (ab_limits b) stage.
Proof.
  unfold reserve. destruct (is_committed commit); [simpl; naive_solver|].
  case_bool_decide; simpl; [|naive_solver].
  destruct (Z.leb_spec (elapsed_ms (ab_limits b)) (sat_u128 (now - ab_started_at_ms b))); [simpl; naive_solver lia|].
  destruct (Z.leb_spec (total_retries (ab_limits b)) (ab_retries_used b)); [simpl; naive_solver lia|].
  destruct (Z.leb_spec (stage_limit (ab_limits b) stage) (used_for b stage)); simpl; naive_solver lia.
Qed.
Lemma reserve_refused b stage reason delay now commit expected current b' d :
  reserve b stage reason delay now commit expected current = (b', d) → d ≠ Reserved →
  b' = mk_attempts (ab_limits b) (ab_started_at_ms b) (ab_retries_used b) (ab_per_stage_used b)
    (Some (mk_attempt stage reason delay d)).
Proof. unfold reserve. intros. repeat case_match; naive_solver. Qed.
Lemma reserve_accepted b stage reason delay now commit expected current b' :
  reserve b stage reason delay now commit expected current = (b', Reserved) →
  b' = mk_attempts (ab_limits b) (ab_started_at_ms b) (sat_u32 (ab_retries_used b + 1))
    (<[stage_index stage := sat_u32 (used_for b stage + 1)]> (ab_per_stage_used b))
    (Some (mk_attempt stage reason delay Reserved)).
Proof. unfold reserve. intros. repeat case_match; naive_solver. Qed.

Lemma commit_is_committed g attempt : is_committed (commit_business_output g attempt).1 = true.
Proof. unfold is_committed, commit_business_output. by destruct (committed_at_attempt g) eqn:E; simpl; rewrite ?E. Qed.
Lemma reserved_count_cons stage s reserved :
  reserved_count stage (s :: reserved) = (if bool_decide (s = stage) then 1 else 0) + reserved_count stage reserved.
Proof. unfold reserved_count. rewrite filter_cons. case_decide; case_bool_decide; simpl; [lia|done|done|lia]. Qed.
Lemma reserved_count_nonneg stage reserved : 0 ≤ reserved_count stage reserved.
Proof. unfold reserved_count. lia. Qed.
Lemma stage_update l stage stage' v :
  length l = RECOVERY_STAGE_COUNT →
  default 0 (<[stage_index stage := v]> l !! stage_index stage') =
  if bool_decide (stage = stage') then v else default 0 (l !! stage_index stage').
Proof.
  intros Hl. case_bool_decide as E.
  - subst. rewrite list_lookup_insert_eq; [done|]. rewrite Hl. apply stage_index_lt.
  - rewrite list_lookup_insert_ne; [done|]. intros ?%stage_index_inj. done.
Qed.

Section sound.
Context (limits : AttemptLimits) (started_at_ms : Z) (Hlimits : limits_ok limits).

Lemma recovery_start_sound :
  recovery_sound limits started_at_ms [] (mk_recovery guard_default (attempts_new limits started_at_ms) []).
Proof.
  destruct Hlimits as ([??]&_&Hstage).
  split; try done.
  - split; [done|]. intros stage. by destruct stage.
  - split; [simpl; lia|]. intros stage. specialize (Hstage stage). unfold reserved_count. simpl. lia.
Qed.

Lemma recovery_step_sound events s e :
  recovery_sound limits started_at_ms events s → recovery_sound limits started_at_ms (events ++ [e]) (recovery_step s e).
Proof.
  intros [[Hl Hs] Hg Ht [Hlen Hused] [Hwt Hws]]. destruct Hlimits as ([??]&_&Hstage).
  destruct e as [attempt|stage reason delay now expected current]; simpl.
  { split; try done. simpl. rewrite commit_is_committed, existsb_app. simpl. by rewrite orb_true_r. }
  destruct (reserve _ _ _ _ _ _ _ _) as [b' d] eqn:E.
  assert (is_committed (rv_guard s) = existsb is_commit (events ++ [Attempt stage reason delay now expected current])) as Hg'.
  { rewrite existsb_app. simpl. by rewrite orb_false_r. }
  destruct (decide (d = Reserved)) as [->|Hd].
  - pose proof (proj1 (reserve_Reserved (rv_budget s) stage reason delay now (rv_guard s) expected current)
      ltac:(by rewrite E)) as (_&_&_&Hroom&Hroom').
    apply reserve_accepted in E as ->. rewrite bool_decide_true by done.
    rewrite Hl in *. rewrite Ht, Hused in *. specialize (Hstage stage).
    split; simpl; rewrite ?length_insert; try done.
    + unfold sat_u32. rewrite saturate_in by lia. lia.
    + split; [done|]. intros stage'. unfold used_for. simpl. rewrite stage_update by done.
      rewrite reserved_count_cons. case_bool_decide; [subst|apply Hused].
      pose proof (reserved_count_nonneg stage' (rv_reserved s)).
      unfold sat_u32. rewrite saturate_in by lia. lia.
    + split; [lia|]. intros stage'. rewrite reserved_count_cons. specialize (Hws stage').
      case_bool_decide; [subst|]; lia.
  - apply reserve_refused in E as ->; [|done]. rewrite bool_decide_false by done. by split.
Qed.

Lemma recovery_run_sound events :
  recovery_sound limits started_at_ms events (recovery_run limits started_at_ms events).
Proof.
  induction events as [|e events IH] using rev_ind; [apply recovery_start_sound|].
  unfold recovery_run in *. rewrite foldl_snoc. by apply recovery_step_sound.
Qed.
End sound.


(** ** Snapshots *)
(** A token generation only moves forward, and only while the identity is unchanged. *)
Lemma advance_token_generation_forward s captured :
  let '(s', r) := advance_token_generation s captured in
  same_identity s s' = true ∧
  (r = Ok () → from_option ma_token_generation 0 (bs_account s) ≤ from_option ma_token_generation 0 (bs_account s')) ∧
  (∀ e, r = Err e → s' = s).
Proof.
  assert (same_identity s s = true) as Hrefl.
  { unfold same_identity. rewrite !bool_decide_true by done. by destruct (bs_account s); rewrite ?bool_decide_true. }
  unfold advance_token_generation. destruct captured as [current|e]; [|naive_solver].
  destruct (same_identity s current) eqn:E; simpl; [|naive_solver].
  destruct (bs_account s) as [p|] eqn:Ep, (bs_account current) as [n|] eqn:En;
    [|naive_solver|naive_solver|rewrite Ep; naive_solver lia].
  destruct (Z.ltb_spec (ma_token_generation n) (ma_token_generation p)); [naive_solver|].
  rewrite En. split; [done|]. simpl. naive_solver.
Qed.
(** One hit authorises one mutation, whatever the attempts in between. *)
Lemma authorize_mutation_once o d g n o' :
  authorize_mutation o d g n = (o', true) → ∀ d' g' n', authorize_mutation o' d' g' n' = (o', false).
Proof.
  unfold authorize_mutation. intros H d' g' n'. repeat case_match; simplify_eq/=; try done.
Qed.
