(* ===== verification/Shares.v ===== *)
(** * Shares and their store ([src/domain/sharing/shares.rs])

    The state of a share as the operations of the store read and write it, the store itself, and the operations that
    change the life of a share: pausing, resuming, resetting, deleting with a tombstone for the Router, and the
    synchronisation of its descriptor. What a share holds of the market is [MarketTrials.Share], its field [s_market].
    Left out of the state: the display fields [subscription_level], [account_email], [quota_percent], [description],
    which no operation reads, and the parts of the store that belong to other components.

    A clock reading is an argument, one for each operation. *)
From S2P Require Import Prelude RustStr Json Providers ModelIdentity ValuePricing QuotaCycle.
From S2P Require Import TokenPeriod UserUsage UserGrant MarketTrials.
From Stdlib Require Import ZArith Lia Ascii.

Local Open Scope Z_scope.

(** ** Data *)
#[global] Instance AppKind_countable : Countable AppKind.
Proof.
  refine (inj_countable' (λ a, match a with Claude => 0 | Codex => 1 | Gemini => 2 end)%nat
    (λ n, match n with 0 => Claude | 1 => Codex | _ => Gemini end)%nat _).
  by intros [].
Defined.
(** domain/sharing/shares.rs:878-884 [ShareBinding] *)
Record ShareBinding := mk_binding { sb_app : AppKind; sb_provider_id : string; sb_provider_type : ProviderType }.
#[global] Instance ShareBinding_eq_dec : EqDecision ShareBinding.
Proof. solve_decision. Defined.
(** domain/sharing/shares.rs:886-899 [ShareBindingHistory] *)
Record ShareBindingHistory := mk_history {
  bh_app : AppKind;
  bh_previous_provider_id : option string;
  bh_next_provider_id : option string;
  bh_previous_subscription_identity_fingerprint : option string;
  bh_next_subscription_identity_fingerprint : option string;
  bh_change_kind : option string;
  bh_changed_at_ms : Z;
}.
(** domain/sharing/router_contract.rs:192-201 [GrokMediaPolicy] *)
Record GrokMediaPolicy := mk_media { image_generation : bool; image_edit : bool; video_generation : bool }.
(** domain/sharing/shares.rs:653-674 [SharePolicy] *)
Record SharePolicy := mk_share_policy {
  sp_token_limit : option Z;
  sp_parallel_limit : option Z;
  sp_expires_at : option Z;
  sp_free_access : bool;
  sp_allow_personal_credits : bool;
  sp_auto_consume_banked_reset : bool;
  sp_banked_reset_expiry_lead_minutes : Z;
  sp_previous_response_cache_enabled : bool;
  sp_grok_media_policy : GrokMediaPolicy;
}.
(** domain/sharing/shares.rs:27-27 [DEFAULT_BANKED_RESET_EXPIRY_LEAD_MINUTES] *)
Definition DEFAULT_BANKED_RESET_EXPIRY_LEAD_MINUTES : Z := 60.
(** domain/sharing/shares.rs:28-28 [MIN_BANKED_RESET_EXPIRY_LEAD_MINUTES] *)
Definition MIN_BANKED_RESET_EXPIRY_LEAD_MINUTES : Z := 10.
(** domain/sharing/shares.rs:29-29 [MAX_BANKED_RESET_EXPIRY_LEAD_MINUTES] *)
Definition MAX_BANKED_RESET_EXPIRY_LEAD_MINUTES : Z := 7 * 24 * 60.
(** domain/sharing/shares.rs:676-690 [SharePolicy::default] *)
Definition share_policy_default : SharePolicy :=
  mk_share_policy None None None false false false DEFAULT_BANKED_RESET_EXPIRY_LEAD_MINUTES true (mk_media false false false).
(** domain/sharing/shares.rs:775-781 [ShareIntegrityError] *)
Record ShareIntegrityError := mk_integrity_error { ie_code : string; ie_message : string; ie_checked_at_ms : Z }.
(** domain/sharing/shares.rs:692-773 [Share] *)
Record Share := mk_share {
  s_market : MarketTrials.Share;
  s_capacity_pool_id : string;
  s_app : AppKind;
  s_provider_id : string;
  s_provider_type : ProviderType;
  s_display_name : option string;
  s_enabled : bool;
  s_status : string;
  s_tunnel_subdomain : option string;
  s_policy : SharePolicy;
  s_tokens_used : Z;
  s_requests_count : Z;
  s_created_at_ms : Z;
  s_auto_start : bool;
  s_enabled_apps : option (gset AppKind);
  s_bindings : list ShareBinding;
  s_binding_history : list ShareBindingHistory;
  s_runtime_snapshot : option value;
  s_last_error : option string;
  s_integrity_error : option ShareIntegrityError;
  s_router_last_synced_at_ms : option Z;
  s_router_last_sync_error : option string;
  s_router_url : option string;
  s_config_revision : Z;
  s_router_synced_revision : Z;
  s_descriptor_generation : Z;
  s_descriptor_fingerprint : option string;
  s_router_synced_descriptor_generation : Z;
  s_router_synced_descriptor_fingerprint : option string;
}.
#[global] Instance Share_eta : Eta Share := λ s,
  mk_share (s_market s) (s_capacity_pool_id s) (s_app s) (s_provider_id s) (s_provider_type s) (s_display_name s)
    (s_enabled s) (s_status s) (s_tunnel_subdomain s) (s_policy s) (s_tokens_used s) (s_requests_count s)
    (s_created_at_ms s) (s_auto_start s) (s_enabled_apps s) (s_bindings s) (s_binding_history s)
    (s_runtime_snapshot s) (s_last_error s) (s_integrity_error s) (s_router_last_synced_at_ms s)
    (s_router_last_sync_error s) (s_router_url s) (s_config_revision s) (s_router_synced_revision s)
    (s_descriptor_generation s) (s_descriptor_fingerprint s) (s_router_synced_descriptor_generation s)
    (s_router_synced_descriptor_fingerprint s).
#[global] Instance market_eta : Eta MarketTrials.Share := λ s,
  MarketTrials.mk_share (sh_id s) (sh_owner_email s) (user_grants s) (market_entitlements s) (market_requests s)
    (market_compacted_usage s) (market_receipts_before_ms s) (pending_market_termination_acks s).
#[global] Instance grant_eta : Eta ShareUserGrant := λ g,
  mk_grant (gr_email g) (gr_role g) (gr_active g) (gr_policy g) (gr_value_metering g) (gr_pending_value_quota g)
    (gr_usage g) (gr_usage_rebase g) (gr_usage_quota g) (gr_account_quota_cycle g) (gr_account_reset_capability g)
    (gr_account_usage_baseline g) (gr_created_at_ms g) (gr_updated_at_ms g) (gr_revoked_at_ms g) (gr_revision g)
    (gr_manager g) (gr_entitlement_id g).
#[global] Instance view_eta : Eta ShareUserQuotaView := λ q,
  mk_view (qv_period q) (qv_anchor_at_ms q) (qv_window_starts_at_ms q) (qv_window_ends_at_ms q)
    (qv_effective_tokens_used q) (qv_observed_tokens_used q) (qv_manual_offset_tokens q) (qv_observed_requests_count q)
    (qv_rebase_applies q) (qv_usage_watermark q).
Notation s_id s := (sh_id (s_market s)).
Notation s_owner_email s := (sh_owner_email (s_market s)).
Notation s_grants s := (user_grants (s_market s)).
(** [share.user_grants = f(share.user_grants)] *)
Definition on_grants (f : gmap string ShareUserGrant → gmap string ShareUserGrant) (s : Share) : Share :=
  s <| s_market ::= with_grants f |>.

(** domain/sharing/shares.rs:606-613 [RouterDescriptorSyncMode] *)
Inductive RouterDescriptorSyncMode : Type := Unknown | Legacy | Strict.
#[global] Instance RouterDescriptorSyncMode_eq_dec : EqDecision RouterDescriptorSyncMode.
Proof. solve_decision. Defined.
(** domain/sharing/shares.rs:615-629 [ShareDeleteTombstone] *)
Record ShareDeleteTombstone := mk_tombstone {
  tb_share_id : string;
  tb_operation_id : string;
  tb_created_at_ms : Z;
  tb_router_api_base : option string;
  tb_installation_id : option string;
  tb_last_attempt_at_ms : option Z;
  tb_last_error : option string;
}.
#[global] Instance tombstone_eta : Eta ShareDeleteTombstone := λ t,
  mk_tombstone (tb_share_id t) (tb_operation_id t) (tb_created_at_ms t) (tb_router_api_base t) (tb_installation_id t)
    (tb_last_attempt_at_ms t) (tb_last_error t).
(** domain/sharing/shares.rs:646-651 [RouterSharePruneMarker] *)
Record RouterSharePruneMarker := mk_marker { pm_router_api_base : string; pm_installation_id : string }.
(** domain/sharing/shares.rs:562-589 [ShareStore] *)
Record ShareStore := mk_store {
  shares : list Share;
  pending_router_deletes : list ShareDeleteTombstone;
  router_share_prune_marker : option RouterSharePruneMarker;
  router_descriptor_sync_mode : RouterDescriptorSyncMode;
  router_descriptor_sync_diagnostic : option string;
}.
#[global] Instance store_eta : Eta ShareStore := λ st,
  mk_store (shares st) (pending_router_deletes st) (router_share_prune_marker st) (router_descriptor_sync_mode st)
    (router_descriptor_sync_diagnostic st).
(** domain/sharing/shares.rs:3917-3940 [SharePatchError] *)
Inductive SharePatchError : Type :=
  | PatchNotFound | BindingImmutable | PolicyDivergent (message : string)
  | RevisionConflict (expected current : Z)
  | GrantRevisionConflict (email : string) (expected current : Z)
  | UsageTargetBelowObserved (email : string) (target observed : Z)
  | ManagedGrantReadOnly (email : string)
  | QuotaCycleConflict (current : AccountQuotaCycle)
  | Invalid (message : string).
(** domain/sharing/shares.rs:3943-3955 [code] *)
Definition patch_code (e : SharePatchError) : string :=
  match e with
  | PatchNotFound => "cc_switch_share_not_found"
  | BindingImmutable => "cc_switch_share_binding_immutable"
  | PolicyDivergent _ => "cc_switch_share_policy_divergent"
  | RevisionConflict _ _ => "cc_switch_share_revision_conflict"
  | GrantRevisionConflict _ _ _ => "cc_switch_share_user_grant_revision_conflict"
  | UsageTargetBelowObserved _ _ _ => "cc_switch_share_usage_target_below_observed"
  | ManagedGrantReadOnly _ => "cc_switch_share_market_grant_read_only"
  | QuotaCycleConflict _ => "QUOTA_CYCLE_CONFLICT"
  | Invalid _ => "cc_switch_share_invalid_patch"
  end.
(** domain/sharing/shares.rs:3957-3962 [retryable] *)
Definition retryable (e : SharePatchError) : bool :=
  match e with RevisionConflict _ _ | QuotaCycleConflict _ => true | _ => false end.
(** domain/sharing/shares.rs:3826-3831 [ShareUpdateError] *)
Inductive ShareUpdateError : Type := UpdateNotFound | MustBePaused | InvalidApp | ProviderAlreadyShared.

(** ** The first element that satisfies a test: [iter_mut().find(p)] *)
Fixpoint alter_first {A} (p : A → bool) (f : A → A) (l : list A) : list A :=
  match l with [] => [] | x :: l => if p x then f x :: l else x :: alter_first p f l end.
Definition has_id (share_id : string) (s : Share) : bool := str_eqb (s_id s) share_id.
(** domain/sharing/shares.rs:1345-1347 [get] *)
Definition get_share (share_id : string) (st : ShareStore) : option Share := List.find (has_id share_id) (shares st).
(** [self.shares.iter_mut().find(..)?], the assignments [f], and [Some(share.clone())]. *)
Definition on_share (share_id : string) (f : Share → Share) (st : ShareStore) : ShareStore * option Share :=
  match get_share share_id st with
  | Some s => (st <| shares ::= alter_first (has_id share_id) f |>, Some (f s))
  | None => (st, None)
  end.
(** domain/sharing/shares.rs:4133-4136 [mark_share_config_pending] *)
Definition mark_share_config_pending (s : Share) : Share :=
  s <| s_config_revision ::= λ r, Z.max (sat_u64 (r + 1)) 1 |> <| s_router_last_sync_error := None |>.

(** ** Members of the runtime snapshot *)
(** [Map::insert]: in place when the key is there, at the end otherwise. *)
Fixpoint members_insert (key : string) (v : value) (m : list (string * value)) : list (string * value) :=
  match m with
  | [] => [(key, v)]
  | (k, w) :: m => if str_eqb k key then (k, v) :: m else (k, w) :: members_insert key v m
  end.
(** [Map::remove] of the crate with [preserve_order]: the last member takes the place of the removed one. *)
Fixpoint members_remove (key : string) (m : list (string * value)) : list (string * value) :=
  match m with
  | [] => []
  | (k, w) :: m =>
      if str_eqb k key then match last m with Some x => x :: removelast m | None => [] end
      else (k, w) :: members_remove key m
  end.
(** [if let Some(object) = snapshot.as_object_mut() { .. }] *)
Definition on_snapshot (f : list (string * value) → list (string * value)) (s : Share) : Share :=
  s <| s_runtime_snapshot ::= fmap (λ v, match v with Object m => Object (f m) | v => v end) |>.
Definition json_int (z : Z) : value := Number (NInt z).

(** ** The life of a share *)
(** domain/sharing/shares.rs:1659-1665 [pause] *)
Definition pause (share_id : string) : ShareStore → ShareStore * option Share :=
  on_share share_id (λ s, mark_share_config_pending (s <| s_enabled := false |> <| s_status := "paused" |>)).
(** domain/sharing/shares.rs:1667-1674 [resume] *)
Definition resume (share_id : string) : ShareStore → ShareStore * option Share :=
  on_share share_id (λ s,
    mark_share_config_pending (s <| s_enabled := true |> <| s_status := "active" |> <| s_last_error := None |>)).
(** domain/sharing/shares.rs:1681-1688 [reset_usage]: one grant *)
Definition reset_grant (now : Z) (g : ShareUserGrant) : ShareUserGrant :=
  g <| gr_usage := user_usage_default |> <| gr_usage_rebase := None |> <| gr_updated_at_ms := now |>.
(** domain/sharing/shares.rs:1676-1703 [reset_usage] *)
Definition reset_usage (now : Z) (share_id : string) : ShareStore → ShareStore * option Share :=
  on_share share_id (λ s,
    let s := on_grants (fmap (reset_grant now)) (s <| s_tokens_used := 0 |> <| s_requests_count := 0 |>) in
    let s := if str_eqb (s_status s) "exhausted" then s <| s_status := "paused" |> <| s_enabled := false |> else s in
    mark_share_config_pending (on_snapshot (λ m,
      members_insert "requestsCount" (json_int (s_requests_count s))
        (members_insert "tokensUsed" (json_int (s_tokens_used s))
          (members_remove "lastRequest" (members_remove "usage" m)))) s)).
(** domain/sharing/shares.rs:3384-3401 [set_share_tunnel_status] *)
Definition set_share_tunnel_status (share_id status : string) (error : option string)
    : ShareStore → ShareStore * option Share :=
  on_share share_id (λ s,
    let enabled := str_eqb status "active" in
    let changed := negb (str_eqb (s_status s) status) || negb (Bool.eqb (s_enabled s) enabled)
                   || negb (bool_decide (s_last_error s = error)) in
    let s := s <| s_status := status |> <| s_enabled := enabled |> <| s_last_error := error |> in
    if changed then mark_share_config_pending s else s).
(** domain/sharing/shares.rs:3404-3412 [restore_auto_start]: one share *)
Definition auto_started (s : Share) : Share :=
  if negb (s_auto_start s) then s else
  let changed := negb (str_eqb (s_status s) "active") || negb (s_enabled s) || bool_decide (is_Some (s_last_error s)) in
  let s := s <| s_status := "active" |> <| s_enabled := true |> <| s_last_error := None |> in
  if changed then mark_share_config_pending s else s.
(** domain/sharing/shares.rs:3403-3414 [restore_auto_start] *)
Definition restore_auto_start (st : ShareStore) : ShareStore * list Share :=
  let st := st <| shares ::= map auto_started |> in (st, shares st).

(** ** Deletion: a tombstone stays until the Router has the deletion *)
(** domain/sharing/shares.rs:4021-4023 [normalize_router_api_base] *)
Definition normalize_router_api_base (base : string) : string := trim_end_char "/" (trim base).
(** domain/sharing/shares.rs:632-634 [has_legacy_router_target] *)
Definition has_legacy_router_target (t : ShareDeleteTombstone) : bool :=
  bool_decide (tb_router_api_base t = None) && bool_decide (tb_installation_id t = None).
(** domain/sharing/shares.rs:636-643 [router_target_matches] *)
Definition router_target_matches (base installation_id : string) (t : ShareDeleteTombstone) : bool :=
  from_option (λ target, str_eqb (normalize_router_api_base target) (normalize_router_api_base base)) false
    (tb_router_api_base t)
  && from_option (λ target, str_eqb (trim target) (trim installation_id)) false (tb_installation_id t).
Definition pending_for (share_id : string) (t : ShareDeleteTombstone) : bool := str_eqb (tb_share_id t) share_id.
Definition has_operation (operation_id : string) (t : ShareDeleteTombstone) : bool := str_eqb (tb_operation_id t) operation_id.
(** domain/sharing/shares.rs:1535-1560 [delete_with_router_target]; the random operation id is an argument *)
Definition delete_with_router_target (operation_id : string) (now : Z) (share_id : string)
    (router_target : option (string * string)) (st : ShareStore) : ShareStore * option ShareDeleteTombstone :=
  let kept := List.filter (λ s, negb (has_id share_id s)) (shares st) in
  if (length kept =? length (shares st))%nat then (st <| shares := kept |>, None) else
  let tombstone := mk_tombstone share_id operation_id now
    ((λ t, normalize_router_api_base t.1) <$> router_target) ((λ t, trim t.2) <$> router_target) None None in
  (st <| shares := kept |>
      <| pending_router_deletes ::= λ l, List.filter (λ t, negb (pending_for share_id t)) l ++ [tombstone] |>,
   Some tombstone).
(** domain/sharing/shares.rs:1522-1524 [delete] *)
Definition delete_share (operation_id : string) (now : Z) (share_id : string) :=
  delete_with_router_target operation_id now share_id None.
(** domain/sharing/shares.rs:1526-1533 [delete_for_router_target] *)
Definition delete_for_router_target (operation_id : string) (now : Z) (share_id base installation_id : string) :=
  delete_with_router_target operation_id now share_id (Some (base, installation_id)).
(** domain/sharing/shares.rs:1562-1581 [bind_legacy_router_delete_target] *)
Definition bind_legacy_router_delete_target (operation_id base installation_id : string) (st : ShareStore)
    : ShareStore * bool :=
  match List.find (has_operation operation_id) (pending_router_deletes st) with
  | None => (st, false)
  | Some t =>
      if negb (has_legacy_router_target t) then (st, false) else
      (st <| pending_router_deletes ::= alter_first (has_operation operation_id) (λ t,
         t <| tb_router_api_base := Some (normalize_router_api_base base) |>
           <| tb_installation_id := Some (trim installation_id) |>) |>, true)
  end.
(** domain/sharing/shares.rs:1583-1591 [pending_router_delete] *)
Definition pending_router_delete (share_id operation_id : string) (st : ShareStore) : option ShareDeleteTombstone :=
  List.find (λ t, pending_for share_id t && has_operation operation_id t) (pending_router_deletes st).
(** domain/sharing/shares.rs:1593-1597 [has_pending_router_delete_for_share] *)
Definition has_pending_router_delete_for_share (share_id : string) (st : ShareStore) : bool :=
  existsb (pending_for share_id) (pending_router_deletes st).
(** [retain], and whether it removed anything *)
Definition retain_deletes (keep : ShareDeleteTombstone → bool) (st : ShareStore) : ShareStore * bool :=
  let kept := List.filter keep (pending_router_deletes st) in
  (st <| pending_router_deletes := kept |>, negb (length kept =? length (pending_router_deletes st))%nat).
(** domain/sharing/shares.rs:1628-1633 [complete_pending_router_delete] *)
Definition complete_pending_router_delete (operation_id : string) : ShareStore → ShareStore * bool :=
  retain_deletes (λ t, negb (has_operation operation_id t)).
(** domain/sharing/shares.rs:1652-1657 [cancel_pending_router_delete] *)
Definition cancel_pending_router_delete (share_id : string) : ShareStore → ShareStore * bool :=
  retain_deletes (λ t, negb (pending_for share_id t)).
(** domain/sharing/shares.rs:1635-1650 [mark_pending_router_delete_failure] *)
Definition mark_pending_router_delete_failure (now : Z) (operation_id error : string) (st : ShareStore)
    : ShareStore * bool :=
  if existsb (has_operation operation_id) (pending_router_deletes st) then
    (st <| pending_router_deletes ::= alter_first (has_operation operation_id) (λ t,
       t <| tb_last_attempt_at_ms := Some now |> <| tb_last_error := Some error |>) |>, true)
  else (st, false).
(** domain/sharing/shares.rs:1599-1611 [router_share_prune_applied_for] *)
Definition router_share_prune_applied_for (base installation_id : string) (st : ShareStore) : bool :=
  from_option (λ m, str_eqb (normalize_router_api_base (pm_router_api_base m)) (normalize_router_api_base base)
                    && str_eqb (trim (pm_installation_id m)) (trim installation_id)) false
    (router_share_prune_marker st).
(** domain/sharing/shares.rs:1613-1626 [mark_router_share_prune_applied] *)
Definition mark_router_share_prune_applied (base installation_id : string) (st : ShareStore) : ShareStore * bool :=
  if router_share_prune_applied_for base installation_id st then (st, false) else
  (st <| router_share_prune_marker := Some (mk_marker (normalize_router_api_base base) (trim installation_id)) |>, true).

(** ** Synchronisation with the Router *)
(** domain/sharing/shares.rs:3554-3579 [mark_router_sync] *)
Definition mark_router_sync (share_id : string) (revision : Z) (router_url : option string) (r : result string Z)
    (st : ShareStore) : ShareStore :=
  (on_share share_id (λ s,
     match r with
     | Ok now =>
         let s := s <| s_router_synced_revision ::= λ synced, Z.max synced revision |>
                    <| s_router_last_synced_at_ms := Some now |> in
         let s := if s_config_revision s <=? s_router_synced_revision s
                  then s <| s_router_last_sync_error := None |> else s in
         s <| s_router_url := router_url |>
     | Err error =>
         if (s_config_revision s <=? revision) && (s_router_synced_revision s <? revision)
         then s <| s_router_last_sync_error := Some error |> else s
     end) st).1.
(** domain/sharing/shares.rs:3587-3602 [prepare_descriptor_projection]: the assignments *)
Definition projected (fingerprint : string) (s : Share) : Share :=
  let changed := negb (bool_decide (s_descriptor_fingerprint s = Some fingerprint)) in
  let revision_pending := (s_router_synced_revision s <? s_config_revision s)
    && (s_descriptor_generation s =? s_router_synced_descriptor_generation s) in
  if changed || (s_descriptor_generation s =? 0) || revision_pending then
    s <| s_descriptor_generation := Z.max (sat_u64 (Z.max (s_descriptor_generation s)
             (s_router_synced_descriptor_generation s) + 1)) 1 |>
      <| s_descriptor_fingerprint := Some fingerprint |>
      <| s_router_last_sync_error := None |>
  else s.
(** domain/sharing/shares.rs:3581-3608 [prepare_descriptor_projection] *)
Definition prepare_descriptor_projection (share_id fingerprint : string) (st : ShareStore)
    : ShareStore * option (Z * string) :=
  let '(st, s) := on_share share_id (projected fingerprint) st in
  (st, (λ s, (s_descriptor_generation s, default "" (s_descriptor_fingerprint s))) <$> s).
(** domain/sharing/shares.rs:3622-3623 [mark_router_descriptor_sync]: is the answer for what is projected now *)
Definition is_current (generation : Z) (fingerprint : string) (s : Share) : bool :=
  (s_descriptor_generation s =? generation) && bool_decide (s_descriptor_fingerprint s = Some fingerprint).
(** domain/sharing/shares.rs:3624-3640 [mark_router_descriptor_sync]: the assignments *)
Definition descriptor_synced (generation : Z) (fingerprint : string) (config_revision : Z) (router_url : option string)
    (r : result string Z) (s : Share) : Share :=
  if negb (is_current generation fingerprint s) then s else
  match r with
  | Ok now =>
      s <| s_router_synced_descriptor_generation := generation |>
        <| s_router_synced_descriptor_fingerprint := Some fingerprint |>
        <| s_router_synced_revision ::= λ synced, Z.max synced config_revision |>
        <| s_router_last_synced_at_ms := Some now |>
        <| s_router_last_sync_error := None |>
        <| s_router_url := router_url |>
  | Err error => s <| s_router_last_sync_error := Some error |>
  end.
(** domain/sharing/shares.rs:3610-3641 [mark_router_descriptor_sync] *)
Definition mark_router_descriptor_sync (share_id : string) (generation : Z) (fingerprint : string) (config_revision : Z)
    (router_url : option string) (r : result string Z) (st : ShareStore) : ShareStore * bool :=
  match get_share share_id st with
  | None => (st, false)
  | Some s =>
      ((on_share share_id (descriptor_synced generation fingerprint config_revision router_url r) st).1,
       is_current generation fingerprint s && match r with Ok _ => true | Err _ => false end)
  end.
(** domain/sharing/shares.rs:3643-3653 [descriptor_projection_pending] *)
Definition descriptor_projection_pending (s : Share) : bool :=
  (s_descriptor_generation s =? 0) || bool_decide (s_descriptor_fingerprint s = None)
  || negb (s_router_synced_descriptor_generation s =? s_descriptor_generation s)
  || negb (bool_decide (s_router_synced_descriptor_fingerprint s = s_descriptor_fingerprint s))
  || (s_router_synced_revision s <? s_config_revision s).
(** domain/sharing/shares.rs:3655-3666 [record_router_descriptor_sync_mode] *)
Definition record_router_descriptor_sync_mode (mode : RouterDescriptorSyncMode) (diagnostic : option string)
    (st : ShareStore) : ShareStore :=
  let st := if negb (bool_decide (router_descriptor_sync_mode st = Strict)) || bool_decide (mode = Strict)
            then st <| router_descriptor_sync_mode := mode |> else st in
  st <| router_descriptor_sync_diagnostic := diagnostic |>.

(** ** What the operations leave alone *)
Section alter_first.
Context {A : Type} (p : A → bool) (f : A → A).
Lemma find_alter_first l : (∀ x, p (f x) = p x) → List.find p (alter_first p f l) = f <$> List.find p l.
Proof.
  intros Hf. induction l as [|x l IH]; [done|]. cbn [alter_first List.find].
  destruct (p x) eqn:E; cbn [List.find]; [by rewrite Hf, E|by rewrite E].
Qed.
Lemma find_alter_first_other q l : (∀ x, p x = true → q x = false) → (∀ x, q (f x) = q x) →
  List.find q (alter_first p f l) = List.find q l.
Proof.
  intros Hd Hf. induction l as [|x l IH]; [done|]. cbn [alter_first List.find].
  destruct (p x) eqn:E; cbn [List.find]; [rewrite Hf, (Hd x E); done|]. by rewrite IH.
Qed.
Lemma find_none_alter_first l : List.find p l = None → alter_first p f l = l.
Proof.
  induction l as [|x l IH]; [done|]. cbn [alter_first List.find]. destruct (p x); [done|]. intros H. by rewrite IH.
Qed.
Lemma Forall_alter_first (P : A → Prop) l : Forall P l → (∀ x, P x → p x = true → P (f x)) → Forall P (alter_first p f l).
Proof.
  intros Hl Hf. induction Hl as [|x l Hx Hl IH]; [constructor|]. cbn [alter_first].
  destruct (p x) eqn:E; constructor; auto.
Qed.
Lemma fmap_alter_first {B} (g : A → B) l : (∀ x, g (f x) = g x) → g <$> alter_first p f l = g <$> l.
Proof.
  intros Hg. induction l as [|x l IH]; [done|]. cbn [alter_first]. destruct (p x); csimpl; [by rewrite Hg|by rewrite IH].
Qed.
End alter_first.

Lemma has_id_true i s : has_id i s = true ↔ s_id s = i.
Proof. apply str_eqb_eq. Qed.
Lemma has_id_false i s : has_id i s = false ↔ s_id s ≠ i.
Proof. rewrite <-not_true_iff_false, has_id_true. done. Qed.
(** Assignments that keep the identity of a share. *)
Definition keeps_id (f : Share → Share) : Prop := ∀ s, s_id (f s) = s_id s.
Lemma has_id_keeps i f s : keeps_id f → has_id i (f s) = has_id i s.
Proof. intros Hf. unfold has_id. by rewrite (Hf s). Qed.

Lemma on_share_get i f st : keeps_id f → get_share i (on_share i f st).1 = f <$> get_share i st.
Proof.
  intros Hf. unfold on_share. destruct (get_share i st) eqn:E; cbn [fst]; [|done].
  rewrite <-E. unfold get_share. cbn. apply find_alter_first. intros x. by apply has_id_keeps.
Qed.
Lemma on_share_get_other i j f st : keeps_id f → i ≠ j → get_share j (on_share i f st).1 = get_share j st.
Proof.
  intros Hf Hij. unfold on_share. destruct (get_share i st); cbn [fst]; [|done]. unfold get_share. cbn.
  apply find_alter_first_other; [|intros x; by apply has_id_keeps].
  intros x Hx%has_id_true. apply has_id_false. congruence.
Qed.
Lemma on_share_shares i f st : shares (on_share i f st).1 = alter_first (has_id i) f (shares st).
Proof.
  unfold on_share. destruct (get_share i st) eqn:E; [done|]. by rewrite find_none_alter_first.
Qed.
Lemma get_share_In i st s : get_share i st = Some s → In s (shares st) ∧ s_id s = i.
Proof. intros [? ?%has_id_true]%find_some. done. Qed.
Lemma mark_share_config_pending_keeps : keeps_id mark_share_config_pending.
Proof. done. Qed.
