(* ===== verification/ShareGate.v ===== *)
(** * The gate of a share ([src/domain/sharing/shares.rs], [src/state.rs])

    Who may invoke a share: the checks of [validate_for_invocation] in the order of the code, the lease that follows
    them, and the usage a finished request adds. *)
From S2P Require Import Prelude RustStr Json Providers ModelIdentity ValuePricing QuotaCycle.
From S2P Require Import TokenPeriod UserUsage UserGrant MarketTrials InFlight Shares.
From Stdlib Require Import ZArith Lia.

Local Open Scope Z_scope.

(** domain/sharing/shares.rs:3833-3840 [ShareInvocation] *)
Record ShareInvocation := mk_invocation {
  iv_share_id : string;
  iv_share_name : string;
  iv_parallel_limit : option Z;
  iv_user_email : option string;
  iv_user_parallel_limit : option Z;
}.
(** domain/sharing/shares.rs:3862-3877 [ShareRejectReason] *)
Inductive ShareRejectReason : Type :=
  | NotFound | UnsupportedApp | UserIdentityRequired | Unauthorized | AppNotAllowed | Inactive | Expired | Exhausted
  | ParallelLimit | UserExpired | UserExhausted | UserParallelLimit | QuotaUnavailable.
(** domain/sharing/shares.rs:3880-3896 [as_str] *)
Definition reason_as_str (r : ShareRejectReason) : string :=
  match r with
  | NotFound => "NotFound" | UnsupportedApp => "UnsupportedApp" | UserIdentityRequired => "UserIdentityRequired"
  | Unauthorized => "Unauthorized" | AppNotAllowed => "AppNotAllowed" | Inactive => "Inactive" | Expired => "Expired"
  | Exhausted => "Exhausted" | ParallelLimit => "ParallelLimit" | UserExpired => "UserExpired"
  | UserExhausted => "UserExhausted" | UserParallelLimit => "UserParallelLimit"
  | QuotaUnavailable => "ACCOUNT_RESET_NOT_READY"
  end.
(** domain/sharing/shares.rs:3850-3854 [ShareConcurrencyLimit] *)
Record ShareConcurrencyLimit := mk_concurrency { cl_current : Z; cl_limit : Z }.
(** domain/sharing/shares.rs:3842-3848 [ShareInvocationRejection] *)
Record ShareInvocationRejection := mk_rejection {
  rj_reason : ShareRejectReason;
  rj_message : string;
  rj_status_changed : bool;
  rj_concurrency : option ShareConcurrencyLimit;
}.
(** domain/sharing/shares.rs:3857-3859 [formatted_message] *)
Definition formatted_message (r : ShareInvocationRejection) : string :=
  rj_message r +:+ " [" +:+ reason_as_str (rj_reason r) +:+ "]".
Definition reject (reason : ShareRejectReason) (message : string) : ShareInvocationRejection :=
  mk_rejection reason message false None.

(** ** The APIs of a share *)
(** domain/sharing/shares.rs:821-826 [share_bound_apps] *)
Definition share_bound_apps (s : Share) : gset AppKind :=
  if bool_decide (s_bindings s = []) then {[ s_app s ]} else list_to_set (sb_app <$> s_bindings s).
(** domain/sharing/shares.rs:828-834 [share_enabled_apps] *)
Definition share_enabled_apps (s : Share) : gset AppKind :=
  match s_enabled_apps s with
  | Some enabled => enabled ∩ share_bound_apps s
  | None => share_bound_apps s
  end.
(** domain/sharing/shares.rs:836-838 [share_app_api_enabled] *)
Definition share_app_api_enabled (s : Share) (app : AppKind) : bool := bool_decide (app ∈ share_enabled_apps s).
(** domain/sharing/router_contract.rs:668-677 [ShareSupport] *)
Record ShareSupport := mk_support { su_claude : bool; su_codex : bool; su_gemini : bool }.
(** domain/sharing/shares.rs:840-848 [support_from_enabled_apps] *)
Definition support_from_enabled_apps (enabled : gset AppKind) : ShareSupport :=
  mk_support (bool_decide (Claude ∈ enabled)) (bool_decide (Codex ∈ enabled)) (bool_decide (Gemini ∈ enabled)).
(** domain/sharing/shares.rs:850-876 [enabled_apps_from_support]; a [BTreeSet] is read in the order of the variants *)
Definition enabled_apps_from_support (support : ShareSupport) (bound : gset AppKind)
    : result SharePatchError (gset AppKind) :=
  let listed := List.filter (λ app, match app with Claude => su_claude support | Codex => su_codex support
                                   | Gemini => su_gemini support end) [Claude; Codex; Gemini] in
  match List.find (λ app, bool_decide (app ∉ bound)) listed with
  | Some app => Err (Invalid ("support contains unbound app " +:+ app_as_str app))
  | None =>
      if bool_decide (listed = []) then Err (Invalid "at least one bound app API must stay enabled")
      else Ok (list_to_set listed)
  end.

(** ** Admission *)
(** domain/sharing/shares.rs:4138-4145 [share_expired]: small numbers are seconds *)
Definition share_expired (expires_at now_ms : Z) : bool :=
  let expires_at_ms := if (0 <? expires_at) && (expires_at <? 10000000000) then sat_i64 (expires_at * 1000) else expires_at in
  expires_at_ms <? now_ms.
(** domain/sharing/shares.rs:1781-1784 [validate_for_invocation]: the e-mail of the caller *)
Definition normalized_email (user_email : option string) : option string :=
  user_email ≫= λ email, let email := trim email in if is_empty email then None else Some (to_ascii_lowercase email).
(** domain/sharing/shares.rs:1785-1788 [validate_for_invocation]: the active grant of the caller *)
Definition active_grant (s : Share) (email : string) : option ShareUserGrant :=
  s_grants s !! email ≫= λ g, if gr_active g then Some g else None.
(** domain/sharing/shares.rs:1754-1755 [validate_for_invocation]: the share is closed *)
Definition closed_as (status : string) (s : Share) : Share := s <| s_status := status |> <| s_enabled := false |>.

Section gate.
Context `{Chrono}.
Variable utc_now : Z.

(** domain/sharing/shares.rs:1807-1897 [validate_for_invocation]: the checks of an active grant *)
Definition check_grant (s : Share) (app : AppKind) (g : ShareUserGrant) (now_ms : Z)
    : result fault (option ShareInvocationRejection) :=
  if from_option (λ p, negb (pv_retain_access p)) false (gr_pending_value_quota g) then
    Ok (Some (reject QuotaUnavailable
      "quota_unavailable: the new authorization is scheduled for its first complete quota window"))
  else if from_option (uncertain (s_market s)) false (gr_entitlement_id g) then
    Ok (Some (reject QuotaUnavailable "MARKET_USAGE_UNAVAILABLE: unresolved metering requires cleanup"))
  else if from_option (exhausted (s_market s)) false (gr_entitlement_id g) then
    Ok (Some (reject UserExhausted "MARKET_TRIAL_EXHAUSTED: trial conversion is pending"))
  else if negb (bool_decide (allowed_apps (gr_policy g) = [])) && negb (one_of (allowed_apps (gr_policy g)) (app_as_str app)) then
    Ok (Some (reject AppNotAllowed ("This market entitlement does not include the " +:+ app_as_str app +:+ " API.")))
  else if from_option (λ e, share_expired e now_ms) false (expires_at (gr_policy g)) then
    Ok (Some (reject UserExpired "This user's Share access has expired."))
  else if bool_decide (token_period (gr_policy g) = AccountReset) && bool_decide (is_Some (token_limit (gr_policy g)))
       && (bool_decide (gr_usage_quota g = None) || negb (bool_decide (is_Some (gr_account_quota_cycle g)))
           || from_option (λ c, negb (str_eqb (ar_sync_status c) "ready") && negb (str_eqb (ar_sync_status c) "stale")) true
                (gr_account_reset_capability g)) then
    Ok (Some (reject QuotaUnavailable "ACCOUNT_RESET_NOT_READY: verified quota history is unavailable"))
  else
    match token_limit (gr_policy g) with
    | None => Ok None
    | Some limit =>
        used ← effective_grant_tokens_for_policy utc_now g now_ms;
        Ok (if limit <=? used then Some (reject UserExhausted "This user's Share token quota has been exhausted.") else None)
    end.
(** domain/sharing/shares.rs:1900-1915 [validate_for_invocation]: the answer *)
Definition invocation_of (s : Share) (email : string) (grant : option ShareUserGrant) : ShareInvocation :=
  mk_invocation (s_id s) (default (s_id s) (s_display_name s)) (sp_parallel_limit (s_policy s)) (Some email)
    (grant ≫= λ g,
       if bool_decide (is_Some (value_quota (gr_policy g)))
       then Some (Z.min (default 4 (parallel_limit (gr_policy g))) 4)
       else parallel_limit (gr_policy g)).
(** domain/sharing/shares.rs:1705-1916 [validate_for_invocation] *)
Definition validate_for_invocation (share_id : string) (app : AppKind) (user_email : option string) (now_ms : Z)
    (st : ShareStore) : result fault (ShareStore * result ShareInvocationRejection ShareInvocation) :=
  match get_share share_id st with
  | None => Ok (st, Err (reject NotFound "Share not found on this cc-switch."))
  | Some s =>
      if negb (existsb (λ b, bool_decide (sb_app b = app)) (s_bindings s)) then
        Ok (st, Err (reject UnsupportedApp ("Share does not provide the " +:+ app_as_str app +:+ " API format.")))
      else if negb (share_app_api_enabled s app) then
        Ok (st, Err (reject UnsupportedApp ("Share has disabled the " +:+ app_as_str app +:+ " API.")))
      else if negb (s_enabled s) || negb (str_eqb (s_status s) "active") then
        Ok (st, Err (reject Inactive
          ("Share is not active (current status: " +:+ s_status s +:+ "). Start the share first.")))
      else if from_option (λ e, share_expired e now_ms) false (sp_expires_at (s_policy s)) then
        Ok ((on_share share_id (closed_as "expired") st).1,
            Err (mk_rejection Expired
              "Share has expired. Extend the share expiration or create a new share." true None))
      else if from_option (λ limit, limit <=? s_tokens_used s) false (sp_token_limit (s_policy s)) then
        Ok ((on_share share_id (closed_as "exhausted") st).1,
            Err (mk_rejection Exhausted
              "Share token quota has been exhausted. Reset usage or increase the token limit." true None))
      else
        match normalized_email user_email with
        | None => Ok (st, Err (reject UserIdentityRequired
                    "An authenticated user identity is required to invoke this Share."))
        | Some email =>
            let grant := active_grant s email in
            if negb (sp_free_access (s_policy s)) && bool_decide (grant = None) then
              Ok (st, Err (reject Unauthorized "This user is not authorized to invoke the Share."))
            else
              verdict ← match grant with Some g => check_grant s app g now_ms | None => Ok None end;
              match verdict with
              | Some rejection => Ok (st, Err rejection)
              | None => Ok (st, Ok (invocation_of s email grant))
              end
        end
  end.
(** state.rs:20145-20191 [validate_and_acquire_share_invocation_with_value_text]: the checks, then the lease *)
Definition validate_and_acquire (share_id : string) (app : AppKind) (user_email : option string) (now_ms : Z)
    (st : ShareStore) (in_flight : ShareInFlightTracker)
    : result fault (ShareStore * result ShareInvocationRejection (ShareInvocation * ShareInFlightTracker * ShareInFlightGuard)) :=
  '(st, r) ← validate_for_invocation share_id app user_email now_ms st;
  Ok (st,
    invocation ← r;
    match try_acquire_for_user in_flight (iv_share_id invocation) (iv_parallel_limit invocation)
            (iv_user_email invocation) (iv_user_parallel_limit invocation) with
    | Ok (in_flight, guard) => Ok (invocation, in_flight, guard)
    | Err (ShareLimit current limit) =>
        Err (mk_rejection ParallelLimit ("Share concurrency limit has been reached (" +:+ pretty current +:+ "/"
               +:+ pretty limit +:+ "). Wait for an in-flight request to finish.") false (Some (mk_concurrency current limit)))
    | Err (UserLimit current limit) =>
        Err (mk_rejection UserParallelLimit ("Your Share user concurrency limit has been reached (" +:+ pretty current
               +:+ "/" +:+ pretty limit +:+ "). Wait for an in-flight request to finish.") false
               (Some (mk_concurrency current limit)))
    end).

(** ** Usage *)
(** domain/sharing/shares.rs:1997-2008 [record_user_usage]: the quota view follows the counted usage *)
Definition viewed (policy : ShareUserPolicy) (used tokens : Z) (count_request : bool) (q : ShareUserQuotaView)
    : ShareUserQuotaView :=
  if bool_decide (token_period policy = AccountReset) then q else
  let q := q <| qv_effective_tokens_used := used |> <| qv_observed_tokens_used ::= λ n, sat_u64 (n + tokens) |> in
  if count_request then q <| qv_observed_requests_count ::= λ n, sat_u64 (n + 1) |> else q.
(** domain/sharing/shares.rs:1973-2009 [record_user_usage]: one grant *)
Definition record_grant_usage (now recorded_at_ms tokens : Z) (count_request : bool) (g : ShareUserGrant)
    : result fault ShareUserGrant :=
  let policy := gr_policy g in
  baseline ← effective_grant_tokens_for_policy utc_now g recorded_at_ms;
  current ← tokens_for_policy utc_now (gr_usage g) policy recorded_at_ms;
  usage ←
    (if current <? baseline then
       if_ok (rebuild_current_policy_bucket utc_now (gr_usage g) policy recorded_at_ms baseline
                (from_option qv_observed_requests_count 0 (gr_usage_quota g))) Ok (Ok (gr_usage g))
     else Ok (gr_usage g));
  usage ←
    (if count_request then record_for_policy utc_now usage policy tokens recorded_at_ms
     else record_supplemental_for_policy utc_now usage policy tokens recorded_at_ms);
  used ← tokens_for_policy utc_now usage policy recorded_at_ms;
  Ok (g <| gr_usage := usage |> <| gr_usage_quota ::= fmap (viewed policy used tokens count_request) |>
        <| gr_updated_at_ms := now |>).
(** domain/sharing/shares.rs:1951-1961 [record_user_usage]: the counters of the share *)
Definition counted (tokens : Z) (count_request : bool) (s : Share) : Share :=
  let s := if count_request then s <| s_requests_count ::= λ n, sat_u64 (n + 1) |> else s in
  let s := s <| s_tokens_used ::= λ n, sat_u64 (n + tokens) |> in
  if from_option (λ limit, limit <=? s_tokens_used s) false (sp_token_limit (s_policy s))
  then closed_as "exhausted" s else s.
(** domain/sharing/shares.rs:1962-2011 [record_user_usage]: the grant of the caller, unless the market counts it *)
Definition charged (now recorded_at_ms tokens : Z) (count_request : bool) (user_email : option string) (s : Share)
    : result fault Share :=
  let charged_grant email :=
    s_grants s !! email ≫= λ g,
      if from_option (λ ent, bool_decide (is_Some (market_entitlements (s_market s) !! ent))) false (gr_entitlement_id g)
      then None else Some g in
  match normalized_email user_email with
  | Some email =>
      match charged_grant email with
      | Some g =>
          g ← record_grant_usage now recorded_at_ms tokens count_request g;
          Ok (on_grants (insert email g) s)
      | None => Ok s
      end
  | None => Ok s
  end.
(** domain/sharing/shares.rs:1942-2020 [record_user_usage] *)
Definition record_user_usage (now : Z) (share_id : string) (user_email : option string) (tokens recorded_at_ms : Z)
    (count_request : bool) (st : ShareStore) : result fault (ShareStore * option Share) :=
  match get_share share_id st with
  | None => Ok (st, None)
  | Some s =>
      s ← charged now recorded_at_ms tokens count_request user_email (counted tokens count_request s);
      let s := on_snapshot (λ m,
        members_insert "shareStatus" (VString (s_status s))
          (members_insert "requestsCount" (json_int (s_requests_count s))
            (members_insert "tokensUsed" (json_int (s_tokens_used s)) m))) s in
      Ok (on_share share_id (λ _, s) st)
  end.
(** domain/sharing/shares.rs:1922-1930 [record_user_invocation_result] *)
Definition record_user_invocation_result (now : Z) (share_id : string) (user_email : option string)
    (tokens recorded_at_ms : Z) := record_user_usage now share_id user_email tokens recorded_at_ms true.
(** domain/sharing/shares.rs:1918-1920 [record_invocation_result] *)
Definition record_invocation_result (now : Z) (share_id : string) (tokens : Z) :=
  record_user_invocation_result now share_id None tokens now.
(** domain/sharing/shares.rs:1932-1940 [record_user_supplemental_usage] *)
Definition record_user_supplemental_usage (now : Z) (share_id : string) (user_email : option string)
    (tokens recorded_at_ms : Z) := record_user_usage now share_id user_email tokens recorded_at_ms false.
End gate.
