(* ===== verification/ShareGateProofs.v ===== *)
(** * Who may invoke a share

    The gate against its specification, the finality of a spent share, and what a recorded request adds to the count a
    limit is checked against. *)
From S2P Require Import Prelude RustStr Json Providers ModelIdentity ValuePricing QuotaCycle.
From S2P Require Import TokenPeriod Gregorian UserUsage UserGrant MarketTrials InFlight Shares ShareGate.
From Stdlib Require Import ZArith Lia.

Local Open Scope Z_scope.

(** ** Specification *)
(** The last millisecond of an expiry, which small numbers give in seconds. *)
Definition expiry_ms (e : Z) : Z := if (0 <? e) && (e <? 10000000000) then sat_i64 (e * 1000) else e.
Section spec.
Context `{Chrono}.
Variable utc_now : Z.

(** What an active grant must satisfy. *)
Record grant_open (s : Share) (app : AppKind) (now : Z) (g : ShareUserGrant) : Prop := {
  go_started : ∀ p, gr_pending_value_quota g = Some p → pv_retain_access p = true;
  go_metered : ∀ ent, gr_entitlement_id g = Some ent → uncertain (s_market s) ent = false;
  go_trial : ∀ ent, gr_entitlement_id g = Some ent → exhausted (s_market s) ent = false;
  go_app : allowed_apps (gr_policy g) = [] ∨ app_as_str app ∈ allowed_apps (gr_policy g);
  go_time : ∀ e, expires_at (gr_policy g) = Some e → now ≤ expiry_ms e;
  go_reset : token_period (gr_policy g) = AccountReset → is_Some (token_limit (gr_policy g)) →
    is_Some (gr_usage_quota g) ∧ is_Some (gr_account_quota_cycle g) ∧
    ∃ c, gr_account_reset_capability g = Some c ∧ (ar_sync_status c = "ready" ∨ ar_sync_status c = "stale");
  go_limit : ∀ limit, token_limit (gr_policy g) = Some limit →
    ∃ used, effective_grant_tokens_for_policy utc_now g now = Ok used ∧ used < limit;
}.
(** What the share and the caller must satisfy. *)
Record may_invoke (s : Share) (app : AppKind) (email : string) (now : Z) : Prop := {
  mi_bound : ∃ b, b ∈ s_bindings s ∧ sb_app b = app;
  mi_enabled : ∀ apps, s_enabled_apps s = Some apps → app ∈ apps;
  mi_active : s_enabled s = true ∧ s_status s = "active";
  mi_time : ∀ e, sp_expires_at (s_policy s) = Some e → now ≤ expiry_ms e;
  mi_tokens : ∀ limit, sp_token_limit (s_policy s) = Some limit → s_tokens_used s < limit;
  mi_user : sp_free_access (s_policy s) = true ∨ is_Some (active_grant s email);
  mi_grant : ∀ g, active_grant s email = Some g → grant_open s app now g;
}.
End spec.

(** ** The checks, one by one *)
Lemma share_expired_false e now : share_expired e now = false ↔ now ≤ expiry_ms e.
Proof. unfold share_expired. fold (expiry_ms e). apply Z.ltb_ge. Qed.
Lemma from_option_false {A} (p : A → bool) (o : option A) : from_option p false o = false ↔ ∀ a, o = Some a → p a = false.
Proof. destruct o; simpl; naive_solver. Qed.
Lemma one_of_elem l s : one_of l s = true ↔ s ∈ l.
Proof.
  unfold one_of. rewrite existsb_exists. setoid_rewrite <-list_elem_of_In. split.
  - by intros (x & Hx & ->%str_eqb_eq).
  - intros Hs. exists s. by rewrite str_eqb_eq.
Qed.
Lemma existsb_app_bound (app : AppKind) l : existsb (λ b, bool_decide (sb_app b = app)) l = true ↔ ∃ b, b ∈ l ∧ sb_app b = app.
Proof.
  rewrite existsb_exists. split; intros (b & Hb & Ha); exists b; rewrite bool_decide_eq_true in *; by rewrite list_elem_of_In in *.
Qed.
Lemma app_enabled_spec s (app : AppKind) : (∃ b, b ∈ s_bindings s ∧ sb_app b = app) →
  share_app_api_enabled s app = true ↔ ∀ apps, s_enabled_apps s = Some apps → app ∈ apps.
Proof.
  intros (b & Hb & <-). unfold share_app_api_enabled, share_enabled_apps. rewrite bool_decide_eq_true.
  assert (sb_app b ∈ share_bound_apps s) as Hbound.
  { unfold share_bound_apps. rewrite bool_decide_eq_false_2 by (intros E; rewrite E in Hb; inversion Hb).
    apply elem_of_list_to_set, list_elem_of_fmap. by exists b. }
  destruct (s_enabled_apps s) as [apps|]; set_solver.
Qed.
(** The check of a verified account cycle, as the code writes it. *)
Definition reset_unready (g : ShareUserGrant) : bool :=
  bool_decide (gr_usage_quota g = None) || negb (bool_decide (is_Some (gr_account_quota_cycle g)))
  || from_option (λ c, negb (str_eqb (ar_sync_status c) "ready") && negb (str_eqb (ar_sync_status c) "stale")) true
       (gr_account_reset_capability g).
Lemma reset_unready_false g : reset_unready g = false ↔
  is_Some (gr_usage_quota g) ∧ is_Some (gr_account_quota_cycle g) ∧
  ∃ c, gr_account_reset_capability g = Some c ∧ (ar_sync_status c = "ready" ∨ ar_sync_status c = "stale").
Proof.
  unfold reset_unready. rewrite !orb_false_iff, negb_false_iff, bool_decide_eq_false, bool_decide_eq_true, not_eq_None_Some.
  destruct (gr_account_reset_capability g) as [c|]; simpl.
  - rewrite andb_false_iff, !negb_false_iff, !str_eqb_eq. split; [intros [[? ?] ?]; split_and!; [done|done|by exists c]|intros (? & ? & ? & [= <-] & ?); auto].
  - split; [by intros [_ ?]|by intros (_ & _ & ? & ? & _)].
Qed.

Section gate.
Context `{Chrono}.
Variable utc_now : Z.

Lemma check_grant_None s app g now :
  check_grant utc_now s app g now = Ok None ↔ grant_open utc_now s app now g.
Proof.
  unfold check_grant. fold (reset_unready g).
  destruct (from_option _ false (gr_pending_value_quota g)) eqn:E1.
  { split; [done|]. intros [Hp _ _ _ _ _ _]. destruct (gr_pending_value_quota g); [|done]. simpl in E1. by rewrite Hp in E1. }
  destruct (from_option _ false (gr_entitlement_id g)) eqn:E2.
  { split; [done|]. intros [_ Hm _ _ _ _ _]. destruct (gr_entitlement_id g); [|done]. simpl in E2. by rewrite Hm in E2. }
  destruct (from_option (exhausted _) false (gr_entitlement_id g)) eqn:E3.
  { split; [done|]. intros [_ _ Ht _ _ _ _]. destruct (gr_entitlement_id g); [|done]. simpl in E3. by rewrite Ht in E3. }
  destruct (_ && negb (one_of _ _)) eqn:E4.
  { split; [done|]. intros [_ _ _ Ha _ _ _]. apply andb_true_iff in E4 as [E4%negb_true_iff E5%negb_true_iff].
    apply bool_decide_eq_false in E4. destruct Ha as [Ha|Ha%one_of_elem]; congruence. }
  destruct (from_option _ false (expires_at (gr_policy g))) eqn:E5.
  { split; [done|]. intros [_ _ _ _ He _ _]. destruct (expires_at (gr_policy g)) as [e|]; [|done]. simpl in E5.
    apply not_false_iff_true in E5. destruct E5. by apply share_expired_false, He. }
  destruct (_ && reset_unready g) eqn:E6.
  { split; [done|]. intros [_ _ _ _ _ Hr _]. apply andb_true_iff in E6 as [[E6 E7]%andb_true_iff E8].
    apply bool_decide_eq_true in E6, E7. apply not_false_iff_true in E8. destruct E8. apply reset_unready_false; auto. }
  pose proof (proj1 (from_option_false _ _) E1) as Hstart. pose proof (proj1 (from_option_false _ _) E2) as Hmeter.
  pose proof (proj1 (from_option_false _ _) E3) as Htrial. pose proof (proj1 (from_option_false _ _) E5) as Htime.
  clear E1 E2 E3 E5.
  assert (∀ P, (∀ limit, token_limit (gr_policy g) = Some limit →
      ∃ used, effective_grant_tokens_for_policy utc_now g now = Ok used ∧ used < limit) ↔ P →
    grant_open utc_now s app now g ↔ P) as Hrest.
  { intros P <-. split; [by intros []|]. intros Hl. constructor; [|done..| | | |done].
    - intros p Hp%Hstart. by apply negb_false_iff.
    - apply andb_false_iff in E4 as [E4%negb_false_iff|E4%negb_false_iff]; [left; by apply bool_decide_eq_true in E4|right; by apply one_of_elem].
    - intros e He%Htime. by apply share_expired_false.
    - intros Hp Ht. apply reset_unready_false. rewrite !bool_decide_eq_true_2 in E6 by done. done. }
  symmetry. apply Hrest. clear Hrest. destruct (token_limit (gr_policy g)) as [limit|]; [|naive_solver].
  destruct (effective_grant_tokens_for_policy utc_now g now) as [used|f]; cbn [mbind result_bind].
  - destruct (Z.leb_spec limit used); split; try done.
    + intros Hl. destruct (Hl limit eq_refl) as (u & [= <-] & ?). lia.
    + intros _ ? [= <-]. by exists used.
  - split; [|done]. intros Hl. by destruct (Hl limit eq_refl) as (u & ? & _).
Qed.

(** C7: the gate of a share admits a request exactly when its specification allows it: the share exists, provides the
    API and has it enabled, is active, neither expired nor out of tokens, the caller is identified, the share is free
    or the caller has an active grant, and that grant has started, has resolved metering and trial tokens left, covers
    the API, has not expired, has verified quota history where it needs it, and is below its token limit. An admission
    changes nothing. *)
Theorem admitted_iff_allowed share_id app user_email now st st' inv :
  validate_for_invocation utc_now share_id app user_email now st = Ok (st', Ok inv) ↔
  ∃ s email, get_share share_id st = Some s ∧ normalized_email user_email = Some email ∧
    may_invoke utc_now s app email now ∧ st' = st ∧ inv = invocation_of s email (active_grant s email).
Proof.
  unfold validate_for_invocation. destruct (get_share share_id st) as [s|]; [|naive_solver].
  trans (∃ email, normalized_email user_email = Some email ∧ may_invoke utc_now s app email now ∧ st' = st ∧
    inv = invocation_of s email (active_grant s email)); [|naive_solver].
  destruct (existsb _ (s_bindings s)) eqn:E1; cbn [negb]; cycle 1.
  { split; [done|]. intros (e & _ & [Hb _ _ _ _ _ _] & _). apply existsb_app_bound in Hb. congruence. }
  apply existsb_app_bound in E1. pose proof (app_enabled_spec s app E1) as Happ.
  destruct (share_app_api_enabled s app); cbn [negb]; cycle 1.
  { split; [done|]. intros (e & _ & [_ He _ _ _ _ _] & _). by apply Happ in He. }
  destruct (negb (s_enabled s) || _) eqn:E2.
  { split; [done|]. intros (e & _ & [_ _ [Ha Hs] _ _ _ _] & _). by rewrite Ha, Hs in E2. }
  apply orb_false_iff in E2 as [Ha%negb_false_iff Hs%negb_false_iff%str_eqb_eq].
  destruct (from_option _ false (sp_expires_at _)) eqn:E3.
  { split; [done|]. intros (e & _ & [_ _ _ Ht _ _ _] & _). apply not_false_iff_true in E3. destruct E3.
    apply from_option_false. intros x Hx%Ht. by apply share_expired_false. }
  destruct (from_option _ false (sp_token_limit _)) eqn:E4.
  { split; [done|]. intros (e & _ & [_ _ _ _ Hl _ _] & _). apply not_false_iff_true in E4. destruct E4.
    apply from_option_false. intros x Hx%Hl. by apply Z.leb_gt. }
  destruct (normalized_email user_email) as [email|]; [|naive_solver].
  trans (may_invoke utc_now s app email now ∧ st' = st ∧ inv = invocation_of s email (active_grant s email)); [|naive_solver].
  destruct (negb (sp_free_access _) && _) eqn:E5.
  { split; [done|]. intros ([_ _ _ _ _ Hu _] & _). apply andb_true_iff in E5 as [E5%negb_true_iff E6%bool_decide_eq_true].
    rewrite E5, E6 in Hu. destruct Hu as [?|[? ?]]; done. }
  pose proof (proj1 (from_option_false _ _) E3) as Htime. pose proof (proj1 (from_option_false _ _) E4) as Htokens.
  assert ((∀ g, active_grant s email = Some g → grant_open utc_now s app now g) ↔
    may_invoke utc_now s app email now) as <-.
  { split; [|by intros []]. intros Hg. constructor; try done.
    - by apply Happ.
    - intros e He%Htime. by apply share_expired_false.
    - intros l Hl%Htokens. by apply Z.leb_gt.
    - apply andb_false_iff in E5 as [E5%negb_false_iff|E5%bool_decide_eq_false]; [by left|right; by apply not_eq_None_Some]. }
  destruct (active_grant s email) as [g|]; cbn [mbind result_bind].
  - setoid_rewrite (eq_comm (Some g)). trans (grant_open utc_now s app now g ∧ st' = st ∧ inv = invocation_of s email (Some g)).
    2: naive_solver.
    rewrite <-check_grant_None. destruct (check_grant utc_now s app g now) as [[rj|]|]; cbn [mbind result_bind]; naive_solver.
  - naive_solver.
Qed.
End gate.

(** ** Recorded usage *)
Section usage.
Context `{ChronoLaws}.
Variable utc_now : Z.
Implicit Types (u : ShareUserUsage) (policy : ShareUserPolicy).

Lemma current_record b s t c : current_bucket_tokens (record_bucket b s t c) s = sat_u64 (current_bucket_tokens b s + t).
Proof.
  unfold current_bucket_tokens, record_bucket. destruct (Z.eqb_spec (bk_started_at_ms b) s) as [E|E]; simpl; [by rewrite E, Z.eqb_refl|].
  by rewrite Z.eqb_refl.
Qed.
(** What the anchored bucket holds of the window that starts at [start]. *)
Definition anchored_tokens (o : option ShareAnchoredUsageBucket) (p : ShareTokenPeriod) (anchor start : Z) : Z :=
  match o with
  | Some b => if bool_decide (an_period b = p) && (an_anchor_at_ms b =? anchor) && (bk_started_at_ms (an_bucket b) =? start)
              then bk_tokens_used (an_bucket b) else 0
  | None => 0
  end.
Lemma anchored_tokens_record o p anchor start t c :
  anchored_tokens (Some (anchored_record o p anchor start t c)) p anchor start
  = sat_u64 (anchored_tokens o p anchor start + t).
Proof.
  unfold anchored_tokens, anchored_record. destruct o as [b|]; simpl; [|by rewrite bool_decide_eq_true_2, !Z.eqb_refl].
  destruct (bool_decide (an_period b = p)) eqn:Ep, (Z.eqb_spec (an_anchor_at_ms b) anchor),
    (Z.eqb_spec (bk_started_at_ms (an_bucket b)) start); simpl; rewrite ?Ep, ?bool_decide_eq_true_2, ?Z.eqb_refl by done; simpl;
    try done.
  by rewrite (proj2 (Z.eqb_eq _ _)), (proj2 (Z.eqb_eq _ _)) by done.
Qed.
(** What a usable policy reads is the bucket of its window. *)
Definition bucket_of u policy at_ms : option Z :=
  match token_period policy with
  | Lifetime => Some (bk_tokens_used (us_lifetime u))
  | Day => Some (current_bucket_tokens (us_day u) (window_start (calendar Day) at_ms))
  | Week => Some (current_bucket_tokens (us_week u) (window_start (calendar Week) at_ms))
  | CalendarMonth => Some (current_bucket_tokens (us_calendar_month u) (window_start (calendar CalendarMonth) at_ms))
  | SevenDays | ThirtyDays =>
      anchor ← token_period_anchor_at_ms policy;
      Some (anchored_tokens (us_anchored u) (token_period policy) anchor (window_start policy at_ms))
  | AccountReset => None
  end.
Lemma bucket_of_Some u policy at_ms : usable policy → is_Some (bucket_of u policy at_ms).
Proof.
  intros [Hp Hu]. unfold bucket_of. destruct (token_period policy) eqn:E; try (eexists; reflexivity).
  all: first [done|destruct (Hu eq_refl) as [[a ->] _]; by eexists].
Qed.
Lemma tokens_for_policy_bucket u policy at_ms n : usable policy → instant at_ms →
  tokens_for_policy utc_now u policy at_ms = Ok n ↔ bucket_of u policy at_ms = Some n.
Proof.
  intros [Hp Hu] Hi. unfold tokens_for_policy, bucket_of, tokens_for.
  pose proof (utc_day_start utc_now at_ms Hi) as Hd. pose proof (utc_week_start utc_now at_ms Hi) as Hw.
  pose proof (utc_month_start utc_now at_ms Hi) as Hm.
  destruct (token_period policy) eqn:E; cbn [requires_anchor negb]; rewrite ?Hd, ?Hw, ?Hm; cbn [mbind result_bind].
  4,6: destruct (Hu eq_refl) as [[a ->] Hwin]; destruct (Hwin at_ms Hi) as (w & -> & Hs); cbn [if_ok]; rewrite Hs;
    cbn [mbind option_bind]; destruct (us_anchored u) as [b|].
  all: naive_solver.
Qed.
Lemma record_adds u policy t at_ms c n : usable policy → instant at_ms → bk_started_at_ms (us_lifetime u) = 0 →
  bucket_of u policy at_ms = Some n →
  ∃ u', record_for_policy_inner utc_now u policy t at_ms c = Ok u' ∧ bucket_of u' policy at_ms = Some (sat_u64 (n + t)).
Proof.
  intros [Hp Hu] Hi Hl Hn. unfold record_for_policy_inner, record_inner.
  rewrite (utc_day_start utc_now at_ms Hi), (utc_week_start utc_now at_ms Hi), (utc_month_start utc_now at_ms Hi).
  cbn [mbind result_bind]. unfold bucket_of in *.
  destruct (token_period policy) eqn:E; cbn [requires_anchor negb] in *.
  4,6: destruct (Hu eq_refl) as [[a Ha] Hwin]; destruct (Hwin at_ms Hi) as (w & -> & Hs); cbn [if_ok]; rewrite Ha, Hs in *;
    eexists; split; [done|];
    cbn [us_anchored with_anchored mbind option_bind] in *; rewrite anchored_tokens_record; by simplify_eq.
  5: done.
  all: eexists; split; [done|]; cbn [us_day us_week us_calendar_month us_lifetime]; rewrite ?current_record; simplify_eq; try done.
  unfold record_bucket. by rewrite Hl.
Qed.
Lemma rebuild_reads u policy at_ms baseline requests : usable policy → instant at_ms →
  ∃ u', rebuild_current_policy_bucket utc_now u policy at_ms baseline requests = Ok u' ∧
    bucket_of u' policy at_ms = Some baseline ∧ (bk_started_at_ms (us_lifetime u) = 0 → bk_started_at_ms (us_lifetime u') = 0).
Proof.
  intros [Hp Hu] Hi. unfold rebuild_current_policy_bucket, bucket_of.
  rewrite (utc_day_start utc_now at_ms Hi), (utc_week_start utc_now at_ms Hi), (utc_month_start utc_now at_ms Hi).
  destruct (token_period policy) eqn:E; cbn [mbind result_bind refuse ok_or].
  4,6: destruct (Hu eq_refl) as [[a Ha] Hwin]; destruct (Hwin at_ms Hi) as (w & -> & Hs); cbn [mbind result_bind];
    rewrite Ha, Hs; cbn; eexists; split; [done|]; split; [|done]; cbn;
    by rewrite bool_decide_eq_true_2, !Z.eqb_refl.
  5: done.
  all: eexists; split; [done|]; split; [|done]; cbn; try done; unfold current_bucket_tokens; cbn; by rewrite Z.eqb_refl.
Qed.
(** What is charged when the bucket of the window holds [n]. *)
Definition effective_of (g : ShareUserGrant) (n : Z) : Z :=
  let viewed := from_option qv_effective_tokens_used 0 (gr_usage_quota g) in
  let by_view := if from_option qv_rebase_applies false (gr_usage_quota g) then Z.max viewed n else n in
  match gr_usage_rebase g with
  | Some r =>
      if bool_decide (rb_period r = token_period (gr_policy g))
         && bool_decide (rb_anchor_at_ms r = token_period_anchor_at_ms (gr_policy g))
      then Z.max (Z.max (rb_target_tokens r) n) viewed else by_view
  | None => by_view
  end.
Lemma effective_bucket g at_ms n : usable (gr_policy g) → instant at_ms → bucket_of (gr_usage g) (gr_policy g) at_ms = Some n →
  effective_grant_tokens_for_policy utc_now g at_ms = Ok (effective_of g n).
Proof.
  intros Hu Hi Hn. unfold effective_grant_tokens_for_policy. rewrite bool_decide_eq_false_2 by apply Hu.
  rewrite (proj2 (tokens_for_policy_bucket _ _ _ _ Hu Hi) Hn). cbn [mbind result_bind]. f_equal. unfold effective_of.
  by destruct (gr_usage_quota g) as [q|], (gr_usage_rebase g) as [r|]; simpl; try destruct (qv_rebase_applies q).
Qed.
Lemma effective_at_least g n : n ≤ effective_of g n.
Proof. unfold effective_of. repeat case_match; lia. Qed.
(** After a charge the bucket holds what was charged before and the new tokens, and the view agrees. *)
Lemma effective_charged g g' n t : 0 ≤ t → 0 ≤ n → effective_of g n ≤ U64_MAX →
  gr_policy g' = gr_policy g → gr_usage_rebase g' = gr_usage_rebase g →
  (∀ q', gr_usage_quota g' = Some q' → ∃ q, gr_usage_quota g = Some q ∧
    qv_effective_tokens_used q' = sat_u64 (effective_of g n + t) ∧ qv_rebase_applies q' = qv_rebase_applies q) →
  effective_of g' (sat_u64 (effective_of g n + t)) = sat_u64 (effective_of g n + t).
Proof.
  intros Ht Hn He Hp Hr Hq. pose proof (effective_at_least g n) as Hle.
  assert (effective_of g n ≤ sat_u64 (effective_of g n + t)) as Hgrow by width_lia.
  assert (∀ r, gr_usage_rebase g = Some r → rb_period r = token_period (gr_policy g) →
    rb_anchor_at_ms r = token_period_anchor_at_ms (gr_policy g) → rb_target_tokens r ≤ effective_of g n) as Htarget.
  { intros r Hg Ha Hb. unfold effective_of. rewrite Hg, !bool_decide_eq_true_2 by done. simpl. lia. }
  set (e := effective_of g n) in *. set (e' := sat_u64 (e + t)) in *. assert (0 ≤ e') by lia.
  unfold effective_of. rewrite Hp, Hr. destruct (gr_usage_quota g') as [q'|]; simpl.
  - destruct (Hq q' eq_refl) as (q & _ & -> & _). destruct (gr_usage_rebase g) as [r|]; repeat case_match; try lia.
    rewrite andb_true_iff, !bool_decide_eq_true in *. destruct_and?. specialize (Htarget r eq_refl). naive_solver lia.
  - destruct (gr_usage_rebase g) as [r|]; repeat case_match; try lia.
    rewrite andb_true_iff, !bool_decide_eq_true in *. destruct_and?. specialize (Htarget r eq_refl). naive_solver lia.
Qed.

End usage.
