(* ===== verification/ShareGrants.v ===== *)
(** * The grants of a share ([src/domain/sharing/shares.rs])

    How the grants of a share change outside the market: the owner's own grant, a patch of the users the owner names,
    and a change of the owner. The market's grants are in [MarketGrants]. *)
From S2P Require Import Prelude RustStr Json Providers ModelIdentity ValuePricing QuotaCycle.
From S2P Require Import TokenPeriod UserUsage UserGrant MarketTrials MarketGrants Shares ShareGate.
From Stdlib Require Import ZArith Lia.

Local Open Scope Z_scope.

#[global] Instance ValueQuota_eq_dec : EqDecision ValueQuota.
Proof. solve_decision. Defined.
#[global] Instance ShareUserPolicy_eq_dec : EqDecision ShareUserPolicy.
Proof. solve_decision. Defined.
#[global] Instance ValueMeteringBinding_eq_dec : EqDecision ValueMeteringBinding.
Proof. solve_decision. Defined.
#[global] Instance PendingValueQuota_eq_dec : EqDecision PendingValueQuota.
Proof. solve_decision. Defined.
#[global] Instance ShareUserUsageBucket_eq_dec : EqDecision ShareUserUsageBucket.
Proof. solve_decision. Defined.
#[global] Instance ShareAnchoredUsageBucket_eq_dec : EqDecision ShareAnchoredUsageBucket.
Proof. solve_decision. Defined.
#[global] Instance ShareUserUsage_eq_dec : EqDecision ShareUserUsage.
Proof. solve_decision. Defined.
#[global] Instance ShareUserUsageRebase_eq_dec : EqDecision ShareUserUsageRebase.
Proof. solve_decision. Defined.
#[global] Instance ShareUserQuotaView_eq_dec : EqDecision ShareUserQuotaView.
Proof. solve_decision. Defined.
#[global] Instance AccountQuotaCycle_eq_dec : EqDecision AccountQuotaCycle.
Proof. solve_decision. Defined.
#[global] Instance AccountResetCapability_eq_dec : EqDecision AccountResetCapability.
Proof. solve_decision. Defined.
#[global] Instance AccountQuotaBaseline_eq_dec : EqDecision AccountQuotaBaseline.
Proof. solve_decision. Defined.
#[global] Instance ShareUserGrant_eq_dec : EqDecision ShareUserGrant.
Proof. solve_decision. Defined.

(** domain/sharing/shares.rs:4195-4195 [PERMANENT_SHARE_EXPIRY_SENTINEL_MS] *)
Definition PERMANENT_SHARE_EXPIRY_SENTINEL_MS : Z := 4102444799000.
(** domain/sharing/shares.rs:4197-4199 [canonical_user_policy_expiry] *)
Definition canonical_user_policy_expiry (e : option Z) : option Z :=
  e ≫= λ v, if v <? PERMANENT_SHARE_EXPIRY_SENTINEL_MS then Some v else None.
(** domain/sharing/shares.rs:4201-4211 [default_user_policy] *)
Definition default_user_policy (s : Share) : ShareUserPolicy :=
  mk_policy (sp_parallel_limit (s_policy s)) (sp_token_limit (s_policy s)) None Lifetime None
    (canonical_user_policy_expiry (sp_expires_at (s_policy s))) [].
(** domain/sharing/shares.rs:4213-4239 [new_user_grant] *)
Definition new_user_grant (now : Z) (s : Share) (email role : string) : ShareUserGrant :=
  mk_grant email role true (default_user_policy s) None None user_usage_default None None None None None now now None 1
    (if str_eqb role "owner" then Owner else Manual) None.
(** [normalize_verified_email] with its error as the store reports it *)
Definition verified_email (email : string) : result SharePatchError string :=
  match normalize_verified_email email with Ok e => Ok e | Err (Refused m) | Err (Panicked m) => Err (Invalid m) end.
Definition bump (g : ShareUserGrant) : ShareUserGrant := g <| gr_revision ::= λ r, Z.max (sat_u64 (r + 1)) 1 |>.
Definition managed (g : ShareUserGrant) : bool := gr_active g && bool_decide (gr_manager g = RouterShareMarket).

(** ** A patch of the grants *)
(** domain/sharing/shares.rs:4620-4629 [normalize_user_grants]: a grant the patch does not name *)
Definition retired (now : Z) (g : ShareUserGrant) : ShareUserGrant :=
  if negb (str_eqb (gr_role g) "owner") && negb (bool_decide (gr_manager g = RouterShareMarket)) && gr_active g
  then bump (g <| gr_active := false |> <| gr_revoked_at_ms := Some now |> <| gr_updated_at_ms := now |>) else g.
(** domain/sharing/shares.rs:4633-4637 [normalize_user_grants]: the user an entry is for *)
Definition entry_email (key : string) (g : ShareUserGrant) : result SharePatchError string :=
  verified_email (if is_empty (trim (gr_email g)) then key else gr_email g).
(** domain/sharing/shares.rs:4655-4660 [normalize_user_grants]: an entry that leaves a managed grant as it is *)
Definition same_authorization (email : string) (g previous : ShareUserGrant) : bool :=
  Bool.eqb (gr_active g) (gr_active previous) && eq_ignore_ascii_case email (gr_email previous)
  && str_eqb (gr_role g) (gr_role previous) && bool_decide (gr_policy g = gr_policy previous)
  && bool_decide (gr_manager g = RouterShareMarket) && bool_decide (gr_entitlement_id g = gr_entitlement_id previous).
(** domain/sharing/shares.rs:4679-4728 [normalize_user_grants]: the grant a named user gets *)
Definition patched_grant (now : Z) (owner : option string) (email : string) (previous : option ShareUserGrant)
    (g : ShareUserGrant) : ShareUserGrant :=
  let is_owner := bool_decide (owner = Some email) in
  let role := if is_owner then "owner" else "shareto" in
  let manager := if is_owner then Owner else Manual in
  let unchanged := from_option (λ p, gr_active p && str_eqb (gr_role p) role && bool_decide (gr_policy p = gr_policy g)
    && bool_decide (gr_manager p = manager) && bool_decide (gr_entitlement_id p = None)) false previous in
  mk_grant email role true (gr_policy g) (previous ≫= gr_value_metering)
    ((previous ≫= gr_pending_value_quota) ≫= λ p, if bool_decide (pv_policy p = gr_policy g) then Some p else None)
    (from_option gr_usage user_usage_default previous) (previous ≫= gr_usage_rebase) (previous ≫= gr_usage_quota)
    (previous ≫= gr_account_quota_cycle) (previous ≫= gr_account_reset_capability) (previous ≫= gr_account_usage_baseline)
    (from_option (λ p, if 0 <? gr_created_at_ms p then gr_created_at_ms p else now) now previous)
    (if unchanged then from_option gr_updated_at_ms now previous else now) None
    (if unchanged then from_option gr_revision 1 previous
     else Z.max (from_option (λ p, sat_u64 (gr_revision p + 1)) 1 previous) 1) manager None.
Section patch.
Variables (display : ValueError → string) (now : Z).

(** domain/sharing/shares.rs:4632-4730 [normalize_user_grants]: the loop over the entries *)
Definition patch_step (existing : gmap string ShareUserGrant) (owner : option string)
    (acc : result SharePatchError (gmap string ShareUserGrant)) (entry : string * ShareUserGrant)
    : result SharePatchError (gmap string ShareUserGrant) :=
  normalized ← acc;
  let '(key, g) := entry in
  email ← entry_email key g;
  _ ← fail_if (bool_decide (owner = Some email) && negb (str_eqb (gr_role g) "owner"))
        (Invalid "share owner cannot also be a ShareTo user");
  _ ← fail_if (bool_decide (parallel_limit (gr_policy g) = Some 0) || bool_decide (token_limit (gr_policy g) = Some 0))
        (Invalid "user limits must be positive or unlimited");
  _ ← match validate_user_policy display (gr_policy g) now with Ok _ => Ok () | Err e => Err (Invalid e) end;
  match existing !! email with
  | Some previous =>
      if managed previous then
        _ ← fail_if (negb (same_authorization email g previous)) (Invalid "Share Market managed users are read-only");
        Ok (<[email := previous]> normalized)
      else
        _ ← fail_if (negb (gr_active previous) && bool_decide (gr_manager previous = RouterShareMarket)
                     && (bool_decide (gr_manager g = RouterShareMarket) || bool_decide (is_Some (gr_entitlement_id g))))
              (Invalid "Share Market managed users are read-only");
        Ok (<[email := patched_grant now owner email (Some previous) g]> normalized)
  | None => Ok (<[email := patched_grant now owner email None g]> normalized)
  end.
(** domain/sharing/shares.rs:4612-4732 [normalize_user_grants] *)
Definition normalize_user_grants (incoming existing : gmap string ShareUserGrant) (owner_email : option string)
    : result SharePatchError (gmap string ShareUserGrant) :=
  let owner := (λ e, to_ascii_lowercase (trim e)) <$> owner_email in
  fold_left (patch_step existing owner) (btree_entries incoming) (Ok (retired now <$> existing)).
End patch.

(** ** The owner's grant *)
(** domain/sharing/shares.rs:4736-4741 [reconcile_user_grants]: the owner *)
Definition grant_owner (s : Share) : option string :=
  s_owner_email s ≫= λ e, let e := trim e in if is_empty e then None else Some (to_ascii_lowercase e).
(** domain/sharing/shares.rs:4747-4786 [reconcile_user_grants]: the owner's grant is present, active and permanent *)
Definition owner_grant (now : Z) (s : Share) (owner : string) (previous : option ShareUserGrant) : ShareUserGrant :=
  let g := default (new_user_grant now s owner "owner") previous in
  let g := if negb (str_eqb (gr_email g) owner) || negb (str_eqb (gr_role g) "owner") || negb (gr_active g)
              || bool_decide (is_Some (gr_revoked_at_ms g))
           then bump (g <| gr_updated_at_ms := now |>) else g in
  let g := g <| gr_email := owner |> <| gr_role := "owner" |> <| gr_active := true |> <| gr_revoked_at_ms := None |>
             <| gr_manager := Owner |> <| gr_entitlement_id := None |> in
  let p := gr_policy g in
  if bool_decide (canonical_user_policy_expiry (expires_at p) = expires_at p) then g else
  bump (g <| gr_policy := mk_policy (parallel_limit p) (token_limit p) (value_quota p) (token_period p)
                            (token_period_anchor_at_ms p) None (allowed_apps p) |>
          <| gr_updated_at_ms := now |>).
(** domain/sharing/shares.rs:4788-4796 [reconcile_user_grants]: nobody else is an owner *)
Definition demoted (now : Z) (owner email : string) (g : ShareUserGrant) : ShareUserGrant :=
  if negb (str_eqb email owner) && str_eqb (gr_role g) "owner"
  then bump (g <| gr_role := "shareto" |> <| gr_manager := Manual |> <| gr_entitlement_id := None |>
               <| gr_updated_at_ms := now |>) else g.
(** domain/sharing/shares.rs:4734-4798 [reconcile_user_grants] *)
Definition reconcile_user_grants (now : Z) (s : Share) : Share :=
  match grant_owner s with
  | Some owner =>
      on_grants (λ grants, map_imap (λ email g, Some (demoted now owner email g))
                   (<[owner := owner_grant now s owner (grants !! owner)]> grants)) s
  | None => s
  end.
(** domain/sharing/shares.rs:2507-2513 [sync_owner_email_snapshot] *)
Definition sync_owner_email_snapshot (owner_email : string) : Share → Share :=
  on_snapshot (members_insert "ownerEmail" (VString owner_email)).
(** domain/sharing/shares.rs:3687-3694 [bind_share_to_client_owner]: the previous owner becomes a user *)
Definition former_owner (now : Z) (previous_owner : string) (g : ShareUserGrant) : ShareUserGrant :=
  bump (g <| gr_email := previous_owner |> <| gr_role := "shareto" |> <| gr_active := true |> <| gr_updated_at_ms := now |>
          <| gr_revoked_at_ms := None |>) <| gr_manager := Manual |> <| gr_entitlement_id := None |>.
(** domain/sharing/shares.rs:3669-3700 [bind_share_to_client_owner] *)
Definition bind_share_to_client_owner (now : Z) (owner_email : string) (s : Share) : bool * Share :=
  if bool_decide (s_owner_email s = Some owner_email) then (false, s) else
  let previous_owner := s_owner_email s ≫= λ e, to_ok (verified_email e) ≫= λ e,
    if eq_ignore_ascii_case e owner_email then None else Some e in
  let s := match previous_owner with
    | Some e => on_grants (λ grants, <[e := former_owner now e (default (new_user_grant now s e "shareto") (grants !! e))]> grants) s
    | None => s end in
  (true, sync_owner_email_snapshot owner_email (s <| s_market ::= λ m, m <| sh_owner_email := Some owner_email |> |>)).
(** domain/sharing/shares.rs:2482-2490 [bind_all_to_client_owner]: one share *)
Definition bound_to_owner (now : Z) (owner_email : string) (s : Share) : bool * Share :=
  let '(owner_changed, s') := bind_share_to_client_owner now owner_email s in
  let s' := reconcile_user_grants now s' in
  if owner_changed || negb (bool_decide (s_grants s' = s_grants s)) then (true, mark_share_config_pending s') else (false, s').
Definition updated (l : list (bool * Share)) : list Share := (List.filter fst l).*2.
(** domain/sharing/shares.rs:2476-2492 [bind_all_to_client_owner] *)
Definition bind_all_to_client_owner (now : Z) (owner_email : string) (st : ShareStore)
    : result SharePatchError (ShareStore * list Share) :=
  owner_email ← verified_email owner_email;
  let l := bound_to_owner now owner_email <$> shares st in
  Ok (st <| shares := l.*2 |>, updated l).
(** domain/sharing/shares.rs:2494-2505 [normalize_all_user_grants] *)
Definition normalize_all_user_grants (now : Z) (st : ShareStore) : ShareStore * list Share :=
  let l := (λ s, let s' := reconcile_user_grants now s in
     if bool_decide (s_grants s' = s_grants s) then (false, s') else (true, mark_share_config_pending s')) <$> shares st in
  (st <| shares := l.*2 |>, updated l).
