(* ===== verification/ShareGrantsProofs.v ===== *)
(** * Grants: what a patch may give and take, and the owner's own grant *)
From S2P Require Import Prelude RustStr Json Providers ModelIdentity ValuePricing QuotaCycle.
From S2P Require Import TokenPeriod UserUsage UserGrant MarketTrials MarketGrants Shares ShareGate ShareGrants.
From Stdlib Require Import ZArith Lia.

Local Open Scope Z_scope.

(** ** Patches *)
Section patch.
Variables (display : ValueError → string) (now : Z) (existing : gmap string ShareUserGrant) (owner : option string).

(** An active grant is one that was there and that a patch may not take away, or one the patch names. *)
Definition kept_grant (email : string) (g : ShareUserGrant) : Prop :=
  existing !! email = Some g ∧ (gr_manager g = RouterShareMarket ∨ gr_role g = "owner").
Definition named_grant (entries : list (string * ShareUserGrant)) (email : string) (g : ShareUserGrant) : Prop :=
  ∃ key i, (key, i) ∈ entries ∧ entry_email key i = Ok email ∧ gr_policy g = gr_policy i ∧ gr_entitlement_id g = None ∧
    gr_usage g = from_option gr_usage user_usage_default (existing !! email).
(** The grants after the entries [seen] of a patch. *)
Record patched (seen : list (string * ShareUserGrant)) (m : gmap string ShareUserGrant) : Prop := {
  pa_managed : ∀ e g, existing !! e = Some g → managed g = true → m !! e = Some g;
  pa_active : ∀ e g, m !! e = Some g → gr_active g = true → kept_grant e g ∨ named_grant seen e g;
  pa_named : ∀ key i, (key, i) ∈ seen → ∃ e g, entry_email key i = Ok e ∧ m !! e = Some g ∧ gr_active g = true;
}.

Lemma managed_spec g : managed g = true ↔ gr_active g = true ∧ gr_manager g = RouterShareMarket.
Proof. unfold managed. by rewrite andb_true_iff, bool_decide_eq_true. Qed.
Lemma patched_retired : patched [] (retired now <$> existing).
Proof.
  split.
  - intros e g He [Ha Hm]%managed_spec. rewrite lookup_fmap, He. cbn. unfold retired. rewrite (bool_decide_eq_true_2 _ Hm).
    by rewrite andb_false_r.
  - intros e g He Ha. left. apply lookup_fmap_Some in He as (g0 & <- & He0). unfold retired in *.
    destruct (negb _ && _ && _) eqn:E; [done|]. split; [done|]. rewrite Ha, andb_true_r in E.
    apply andb_false_iff in E as [E%negb_false_iff|E%negb_false_iff];
      [right; by apply str_eqb_eq in E|left; by apply bool_decide_eq_true in E].
  - intros key i Hi. inversion Hi.
Qed.
(** Entering the grant an entry gives. *)
Lemma patched_insert seen m key i email g : patched seen m → entry_email key i = Ok email → gr_active g = true →
  (∀ p, existing !! email = Some p → managed p = true → g = p) →
  kept_grant email g ∨ named_grant (seen ++ [(key, i)]) email g →
  patched (seen ++ [(key, i)]) (<[email := g]> m).
Proof.
  intros [Hm Ha Hn] He Hg Hp Hkind. split.
  - intros e g0 He0 Hg0. destruct (decide (e = email)) as [->|].
    + rewrite lookup_insert_eq. f_equal. by apply Hp.
    + rewrite lookup_insert_ne by done. by apply Hm.
  - intros e g0 [[<- <-]|[Hne He0]]%lookup_insert_Some Hg0; [done|].
    destruct (Ha e g0 He0 Hg0) as [?|(k & j & Hkj & Hrest)]; [by left|right].
    exists k, j. split; [apply elem_of_app; by left|done].
  - intros k j [Hkj|Hkj]%elem_of_app.
    + destruct (Hn k j Hkj) as (e & g0 & Hkje & Hm0 & Hg0). exists e. destruct (decide (e = email)) as [->|].
      * exists g. by rewrite lookup_insert_eq.
      * exists g0. by rewrite lookup_insert_ne.
    + apply list_elem_of_singleton in Hkj as [= -> ->]. exists email, g. by rewrite lookup_insert_eq.
Qed.
Lemma patch_step_patched seen m key i m' : patched seen m →
  patch_step display now existing owner (Ok m) (key, i) = Ok m' → patched (seen ++ [(key, i)]) m'.
Proof.
  intros Hp Hs. unfold patch_step in Hs. cbn [mbind result_bind] in Hs.
  apply bind_Ok in Hs as (email & He & Hs). apply bind_Ok in Hs as (? & _ & Hs). apply bind_Ok in Hs as (? & _ & Hs).
  apply bind_Ok in Hs as (? & _ & Hs).
  assert (∀ p, named_grant (seen ++ [(key, i)]) email (patched_grant now owner email p i) ∨ p ≠ existing !! email) as Hnamed.
  { intros p. destruct (decide (p = existing !! email)) as [->|]; [left|by right]. exists key, i.
    split; [apply elem_of_app; right; by apply list_elem_of_singleton|]. split; [done|]. split; [done|]. split; [done|].
    cbn. by destruct (existing !! email). }
  destruct (existing !! email) as [p|] eqn:Ep.
  - destruct (managed p) eqn:Em; apply bind_Ok in Hs as (? & _ & [= <-]).
    + apply managed_spec in Em as [Ha Hm]. apply patched_insert; try done; [congruence|]. left. split; [done|by left].
    + apply patched_insert; try done; [congruence|]. right. by destruct (Hnamed (Some p)).
  - injection Hs as <-. apply patched_insert; try done; [congruence|]. right. by destruct (Hnamed None).
Qed.
Lemma patch_fold_Err l e : fold_left (patch_step display now existing owner) l (Err e) = Err e.
Proof. by induction l. Qed.
Lemma patch_fold_patched l seen m m' : patched seen m →
  fold_left (patch_step display now existing owner) l (Ok m) = Ok m' → patched (seen ++ l) m'.
Proof.
  revert seen m. induction l as [|[key i] l IH]; intros seen m Hp Hf; cbn [fold_left] in Hf.
  - injection Hf as <-. by rewrite app_nil_r.
  - destruct (patch_step display now existing owner (Ok m) (key, i)) as [m1|e] eqn:Es; [|by rewrite patch_fold_Err in Hf].
    rewrite cons_middle, app_assoc. by eapply IH, Hf; eapply patch_step_patched.
Qed.
End patch.

(** C10: a patch of a share's users gives access to the users it names and to nobody else: every active grant after it is
    an unchanged grant of the owner or of the market, or is named by the patch, with the policy the patch gives and the
    usage that was counted before; every named user has an active grant; and a grant the market manages stays exactly
    as it was. *)
Theorem patch_grants_named_users display now incoming existing owner_email m :
  normalize_user_grants display now incoming existing owner_email = Ok m →
  (∀ e g, existing !! e = Some g → managed g = true → m !! e = Some g) ∧
  (∀ e g, m !! e = Some g → gr_active g = true →
    existing !! e = Some g ∧ (gr_manager g = RouterShareMarket ∨ gr_role g = "owner") ∨
    ∃ key i, incoming !! key = Some i ∧ entry_email key i = Ok e ∧ gr_policy g = gr_policy i ∧
      gr_entitlement_id g = None ∧ gr_usage g = from_option gr_usage user_usage_default (existing !! e)) ∧
  (∀ key i, incoming !! key = Some i → ∃ e g, entry_email key i = Ok e ∧ m !! e = Some g ∧ gr_active g = true).
Proof.
  intros Hn. apply (patch_fold_patched _ _ _ _ _ [] _ _ (patched_retired now existing)) in Hn as [Hm Ha Hk]. cbn [app] in *.
  split; [exact Hm|]. split.
  - intros e g He Hg. destruct (Ha e g He Hg) as [?|(key & i & Hi & Hrest)]; [by left|right]. exists key, i.
    by rewrite elem_of_btree_entries in Hi.
  - intros key i Hi. apply Hk. by apply elem_of_btree_entries.
Qed.

(** ** The owner's grant *)
Lemma on_grants_id f s : f (s_grants s) = s_grants s → on_grants f s = s.
Proof. intros Hf. unfold on_grants. cbn. unfold with_grants. rewrite Hf. by destruct s as [[]]. Qed.
Lemma reconcile_owner now s : grant_owner (reconcile_user_grants now s) = grant_owner s.
Proof. unfold reconcile_user_grants. by destruct (grant_owner s) eqn:E. Qed.
Lemma reconcile_lookup now s owner e : grant_owner s = Some owner →
  s_grants (reconcile_user_grants now s) !! e =
  if decide (e = owner) then Some (owner_grant now s owner (s_grants s !! owner)) else demoted now owner e <$> s_grants s !! e.
Proof.
  intros Ho. unfold reconcile_user_grants. rewrite Ho. cbn. rewrite map_lookup_imap. case_decide as He.
  - subst. rewrite lookup_insert_eq. cbn. unfold demoted. by rewrite str_eqb_refl.
  - rewrite lookup_insert_ne by done. by destruct (s_grants s !! e).
Qed.
Lemma canonical_idemp e : canonical_user_policy_expiry (canonical_user_policy_expiry e) = canonical_user_policy_expiry e.
Proof. destruct e as [v|]; [|done]. unfold canonical_user_policy_expiry. cbn. destruct (v <? _) eqn:E; [cbn; by rewrite E|done]. Qed.
(** What the owner's grant is after a reconciliation. *)
Record owns (owner : string) (g : ShareUserGrant) : Prop := {
  ow_email : gr_email g = owner; ow_role : gr_role g = "owner"; ow_active : gr_active g = true;
  ow_revoked : gr_revoked_at_ms g = None; ow_manager : gr_manager g = Owner; ow_entitlement : gr_entitlement_id g = None;
  ow_expiry : canonical_user_policy_expiry (expires_at (gr_policy g)) = expires_at (gr_policy g);
}.
Lemma owner_grant_owns now s owner previous : owns owner (owner_grant now s owner previous).
Proof.
  unfold owner_grant. set (g := default _ previous).
  destruct (negb (str_eqb (gr_email g) owner) || _ || _ || _); case_bool_decide as E; split; cbn in *; done.
Qed.
Lemma owner_grant_idem now s owner g : owns owner g → owner_grant now s owner (Some g) = g.
Proof.
  intros [He Hr Ha Hv Hm Ht Hx]. unfold owner_grant. cbn [default from_option id].
  rewrite (proj2 (str_eqb_eq (gr_email g) owner) He), (proj2 (str_eqb_eq (gr_role g) "owner") Hr), Ha, Hv. cbn.
  rewrite (bool_decide_eq_true_2 _ Hx). destruct g; cbn in *. by subst.
Qed.

(** after a reconciliation a share has one owner: the owner's grant is there, active, permanent where the expiry says
    so, and belongs to no market entitlement; nobody else has the owner's role; the grants of the other users are those
    from before, except that a former owner becomes a user; and a second reconciliation, at any later time, changes
    nothing. *)
Theorem reconciled_share_has_one_owner now s owner : grant_owner s = Some owner →
  let s' := reconcile_user_grants now s in
  (∃ g, s_grants s' !! owner = Some g ∧ owns owner g) ∧
  (∀ e g, s_grants s' !! e = Some g → gr_role g = "owner" → e = owner) ∧
  (∀ e g, s_grants s !! e = Some g → e ≠ owner → gr_role g ≠ "owner" → s_grants s' !! e = Some g) ∧
  ∀ now', reconcile_user_grants now' s' = s'.
Proof.
  intros Ho s'. pose proof (λ e, reconcile_lookup now s owner e Ho) as Hl. fold s' in Hl.
  assert (∃ g, s_grants s' !! owner = Some g ∧ owns owner g) as (g & Hg & Hown).
  { eexists. rewrite Hl, decide_True by done. split; [done|]. apply owner_grant_owns. }
  assert (∀ e g', s_grants s' !! e = Some g' → e ≠ owner → gr_role g' ≠ "owner") as Hothers.
  { intros e g' He Hne. rewrite Hl, decide_False in He by done. apply fmap_Some in He as (g0 & _ & ->). unfold demoted.
    rewrite (proj2 (str_eqb_neq e owner)) by done. cbn.
    destruct (str_eqb (gr_role g0) "owner") eqn:E; [done|]. rewrite <-not_true_iff_false, str_eqb_eq in E. done. }
  split; [by exists g|]. split; [|split].
  - intros e g' He Hr. destruct (decide (e = owner)) as [|Hne]; [done|]. by destruct (Hothers e g' He Hne).
  - intros e g0 He Hne Hr. rewrite Hl, decide_False, He by done. cbn. unfold demoted.
    rewrite (proj2 (str_eqb_neq (gr_role g0) _)) by done. by rewrite andb_false_r.
  - intros now'. assert (grant_owner s' = Some owner) as Ho' by (by unfold s'; rewrite reconcile_owner).
    unfold reconcile_user_grants at 1. rewrite Ho'. apply on_grants_id. rewrite Hg, owner_grant_idem by done.
    apply map_eq. intros e. rewrite map_lookup_imap, (insert_id _ _ _ Hg). destruct (s_grants s' !! e) as [ge|] eqn:Ee; [|done].
    cbn. f_equal. unfold demoted. destruct (decide (e = owner)) as [->|Hne]; [by rewrite str_eqb_refl|].
    pose proof (Hothers e ge Ee Hne) as Hr.
    rewrite (proj2 (str_eqb_neq (gr_role ge) _)) by done. by rewrite andb_false_r.
Qed.
