(* ===== verification/ShareBindings.v ===== *)
(** * The bindings of a share ([src/domain/sharing/shares.rs], [invariants.rs], [retired_fields.rs])

    Which providers a share serves: the checks of an upsert and of an import, and the operations of the store that
    create, replace and re-bind shares. *)
From S2P Require Import Prelude RustStr Json Providers ModelIdentity ValuePricing QuotaCycle.
From S2P Require Import TokenPeriod UserUsage UserGrant MarketTrials MarketGrants Shares ShareGate ShareGrants.
From Stdlib Require Import ZArith Lia Ascii.

Local Open Scope Z_scope.

(** ** Retired fields *)
(** domain/sharing/retired_fields.rs:7-35 [RETIRED_SHARE_FIELDS] *)
Definition RETIRED_SHARE_FIELDS : list string :=
  ["acl"; "forSale"; "for_sale"; "officialPricePercent"; "official_price_percent"; "forSaleOfficialPricePercentByApp";
   "for_sale_official_price_percent_by_app"; "sharedWithEmails"; "shared_with_emails"; "marketAccessMode";
   "market_access_mode"; "accessByApp"; "access_by_app"; "appSettings"; "app_settings"; "publicMarketEmail";
   "public_market_email"; "marketEmail"; "market_email"; "marketSubdomain"; "market_subdomain"; "marketUrl"; "market_url";
   "marketId"; "market_id"; "saleMarketKind"; "sale_market_kind"].
(** domain/sharing/retired_fields.rs:78-91 [format_json_path] *)
Definition format_json_path (path : list string) : string :=
  foldl (λ formatted segment,
    if starts_with "[" segment then formatted +:+ segment
    else (if is_empty formatted then "" else formatted +:+ ".") +:+ segment) "" path.
(** domain/sharing/retired_fields.rs:45-76 [walk] *)
Fixpoint walk (path : list string) (v : value) : option string :=
  match v with
  | Object members =>
      (fix object (m : list (string * value)) : option string :=
         match m with
         | [] => None
         | (key, child) :: m =>
             if one_of RETIRED_SHARE_FIELDS key then Some (format_json_path (path ++ [key]))
             else or_else (walk (path ++ [key]) child) (object m)
         end) members
  | Array items =>
      (fix array (index : Z) (l : list value) : option string :=
         match l with
         | [] => None
         | child :: l => or_else (walk (path ++ ["[" +:+ pretty index +:+ "]"]) child) (array (index + 1) l)
         end) 0 items
  | _ => None
  end.
(** domain/sharing/retired_fields.rs:44-94 [find_retired_share_field] *)
Definition find_retired_share_field (v : value) : option string := walk [] v.

(** ** Checks *)
(** domain/sharing/invariants.rs:6-17 [reject_retired_runtime_snapshot] *)
Definition reject_retired_runtime_snapshot (snapshot : option value) : result SharePatchError () :=
  match snapshot ≫= find_retired_share_field with
  | Some field => Err (Invalid ("retired Share field `" +:+ field +:+ "` is not accepted; use freeAccess/userGrants"))
  | None => Ok ()
  end.
(** domain/sharing/invariants.rs:26-37 [validate_bindings]: the loop *)
Fixpoint check_bindings (apps : list AppKind) (l : list ShareBinding) : result SharePatchError () :=
  match l with
  | [] => Ok ()
  | b :: l =>
      _ ← fail_if (bool_decide (sb_app b ∈ apps)) (Invalid "share must have at most one binding per app");
      _ ← fail_if (is_empty (trim (sb_provider_id b))) (Invalid "share binding provider_id is required");
      check_bindings (sb_app b :: apps) l
  end.
(** domain/sharing/invariants.rs:19-39 [validate_bindings] *)
Definition validate_bindings (l : list ShareBinding) : result SharePatchError () :=
  _ ← fail_if (negb ((1 <=? length l) && (length l <=? 3))%nat) (Invalid "share must have between one and three bindings");
  check_bindings [] l.
(** domain/sharing/invariants.rs:69-81 [validate_and_normalize_upsert_input]: the binding of the share's own app *)
Definition primary_binding (app : AppKind) (provider_id : string) (provider_type : ProviderType) (l : list ShareBinding)
    : result SharePatchError ShareBinding :=
  binding ← ok_or (Invalid "share.app must identify one of the bindings")
    (List.find (λ b, bool_decide (sb_app b = app)) l);
  _ ← fail_if (negb (str_eqb (sb_provider_id binding) provider_id) || negb (bool_decide (sb_provider_type binding = provider_type)))
        (Invalid "share primary fields must match the binding selected by share.app");
  Ok binding.
Definition lead_in_range (minutes : Z) : bool :=
  (MIN_BANKED_RESET_EXPIRY_LEAD_MINUTES <=? minutes) && (minutes <=? MAX_BANKED_RESET_EXPIRY_LEAD_MINUTES).
Definition lead_error : SharePatchError :=
  Invalid ("bankedResetExpiryLeadMinutes must be between " +:+ pretty MIN_BANKED_RESET_EXPIRY_LEAD_MINUTES +:+ " and "
           +:+ pretty MAX_BANKED_RESET_EXPIRY_LEAD_MINUTES).
(** [sort_by_key(|binding| binding.app)] *)
Definition app_index (a : AppKind) : nat := match a with Claude => 0 | Codex => 1 | Gemini => 2 end.
Definition app_le (b b' : ShareBinding) : Prop := (app_index (sb_app b) ≤ app_index (sb_app b'))%nat.
#[global] Instance app_le_dec b b' : Decision (app_le b b').
Proof. unfold app_le. apply _. Defined.
#[global] Instance app_le_total : Total app_le.
Proof. intros b b'. unfold app_le. lia. Qed.
#[global] Instance app_le_trans : Transitive app_le.
Proof. intros a b c. unfold app_le. lia. Qed.
Definition sort_bindings (l : list ShareBinding) : list ShareBinding := merge_sort app_le l.
(** domain/sharing/shares.rs:901-955 [UpsertShareInput], less the display fields *)
Record UpsertShareInput := mk_upsert {
  in_id : option string;
  in_owner_email : option string;
  in_app : AppKind;
  in_provider_id : string;
  in_provider_type : ProviderType;
  in_display_name : option string;
  in_enabled : option bool;
  in_status : option string;
  in_tunnel_subdomain : option string;
  in_token_limit : option Z;
  in_parallel_limit : option Z;
  in_expires_at : option Z;
  in_free_access : option bool;
  in_allow_personal_credits : option bool;
  in_auto_consume_banked_reset : option bool;
  in_banked_reset_expiry_lead_minutes : option Z;
  in_previous_response_cache_enabled : option bool;
  in_grok_media_policy : option GrokMediaPolicy;
  in_auto_start : option bool;
  in_enabled_apps : option (gset AppKind);
  in_bindings : list ShareBinding;
  in_runtime_snapshot : option value;
  in_user_grants : gmap string ShareUserGrant;
}.
#[global] Instance upsert_eta : Eta UpsertShareInput := λ i,
  mk_upsert (in_id i) (in_owner_email i) (in_app i) (in_provider_id i) (in_provider_type i) (in_display_name i)
    (in_enabled i) (in_status i) (in_tunnel_subdomain i) (in_token_limit i) (in_parallel_limit i) (in_expires_at i)
    (in_free_access i) (in_allow_personal_credits i) (in_auto_consume_banked_reset i)
    (in_banked_reset_expiry_lead_minutes i) (in_previous_response_cache_enabled i) (in_grok_media_policy i)
    (in_auto_start i) (in_enabled_apps i) (in_bindings i) (in_runtime_snapshot i) (in_user_grants i).
(** domain/sharing/invariants.rs:41-83 [validate_and_normalize_upsert_input]: the normalised input *)
Definition validate_and_normalize_upsert_input (i : UpsertShareInput) : result SharePatchError UpsertShareInput :=
  _ ← reject_retired_runtime_snapshot (in_runtime_snapshot i);
  _ ← fail_if (from_option (λ m, negb (lead_in_range m)) false (in_banked_reset_expiry_lead_minutes i)) lead_error;
  let bindings :=
    if bool_decide (in_bindings i = []) then [mk_binding (in_app i) (in_provider_id i) (in_provider_type i)]
    else in_bindings i in
  let bindings := sort_bindings bindings in
  _ ← validate_bindings bindings;
  _ ← primary_binding (in_app i) (in_provider_id i) (in_provider_type i) bindings;
  Ok (i <| in_bindings := bindings |>).
(** domain/sharing/invariants.rs:85-111 [validate_share_import] *)
Definition validate_share_import (s : Share) : result SharePatchError () :=
  _ ← reject_retired_runtime_snapshot (s_runtime_snapshot s);
  _ ← validate_bindings (s_bindings s);
  _ ← primary_binding (s_app s) (s_provider_id s) (s_provider_type s) (s_bindings s);
  fail_if (negb (lead_in_range (sp_banked_reset_expiry_lead_minutes (s_policy s)))) lead_error.

(** ** Conflicts *)
Definition deleted (s : Share) : bool := str_eqb (s_status s) "deleted".
Definition same_slot (b b' : ShareBinding) : bool :=
  bool_decide (sb_app b = sb_app b') && str_eqb (sb_provider_id b) (sb_provider_id b').
Definition serves (s : Share) (b : ShareBinding) : bool := existsb (λ b', same_slot b' b) (s_bindings s).
(** Another share that is not deleted serves one of the bindings. *)
Definition provider_conflict (own : Share → bool) (bindings : list ShareBinding) (st : ShareStore) : option Share :=
  List.find (λ s, negb (own s) && negb (deleted s) && existsb (serves s) bindings) (shares st).
Definition subdomain_conflict (own : Share → bool) (subdomain : option string) (st : ShareStore) : option Share :=
  subdomain ≫= λ d,
    List.find (λ s, bool_decide (s_tunnel_subdomain s = Some d) && negb (own s) && negb (deleted s)) (shares st).
Definition same_binding_fields (s : Share) (app : AppKind) (provider_id : string) (provider_type : ProviderType)
    (bindings : list ShareBinding) : bool :=
  bool_decide (s_app s = app) && str_eqb (s_provider_id s) provider_id
  && bool_decide (s_provider_type s = provider_type) && bool_decide (s_bindings s = bindings).

(** ** Re-binding *)
Definition history (app : AppKind) (previous next : option string) (kind : string) (now : Z) : ShareBindingHistory :=
  mk_history app previous next None None (Some kind) now.
Definition with_capacity (capacity_pool_id : option string) (s : Share) : Share :=
  match capacity_pool_id with Some c => s <| s_capacity_pool_id := c |> | None => s end.
(** domain/sharing/shares.rs:2039-2096 [update_binding_inner] *)
Definition update_binding_inner (now : Z) (share_id : string) (binding : ShareBinding) (capacity_pool_id : option string)
    (st : ShareStore) : ShareStore * result ShareUpdateError Share :=
  if bool_decide (is_Some (provider_conflict (has_id share_id) [binding] st)) then (st, Err ProviderAlreadyShared) else
  match get_share share_id st with
  | None => (st, Err UpdateNotFound)
  | Some s =>
      if negb (str_eqb (s_status s) "paused") then (st, Err MustBePaused) else
      if negb (bool_decide (sb_app binding = s_app s)) then (st, Err InvalidApp) else
      let same b := bool_decide (sb_app b = sb_app binding) in
      match List.find same (s_bindings s) with
      | None => (st, Err InvalidApp)
      | Some previous =>
          let s := s <| s_bindings ::= alter_first same (λ _, binding) |>
                     <| s_provider_id := sb_provider_id binding |> <| s_provider_type := sb_provider_type binding |> in
          let s := with_capacity capacity_pool_id s in
          let s := mark_share_config_pending (s <| s_binding_history ::= λ h, h ++
            [history (sb_app binding) (Some (sb_provider_id previous)) (Some (sb_provider_id binding)) "provider_binding" now] |>) in
          ((on_share share_id (λ _, s) st).1, Ok s)
      end
  end.
(** domain/sharing/shares.rs:2022-2028 [update_binding] *)
Definition update_binding (now : Z) (share_id : string) (binding : ShareBinding) :=
  update_binding_inner now share_id binding None.
(** domain/sharing/shares.rs:2030-2037 [update_binding_with_capacity] *)
Definition update_binding_with_capacity (now : Z) (share_id : string) (binding : ShareBinding) (capacity_pool_id : string) :=
  update_binding_inner now share_id binding (Some capacity_pool_id).
(** domain/sharing/shares.rs:2115-2168 [add_binding_inner] *)
Definition add_binding_inner (now : Z) (share_id : string) (binding : ShareBinding) (capacity_pool_id : option string)
    (st : ShareStore) : ShareStore * result SharePatchError Share :=
  if bool_decide (is_Some (provider_conflict (has_id share_id) [binding] st))
  then (st, Err (Invalid "provider already has an active share")) else
  match get_share share_id st with
  | None => (st, Err PatchNotFound)
  | Some s =>
      if existsb (λ b, bool_decide (sb_app b = sb_app binding)) (s_bindings s)
      then (st, Err (Invalid ("share already has a " +:+ app_as_str (sb_app binding) +:+ " binding"))) else
      if (3 <=? length (s_bindings s))%nat
      then (st, Err (Invalid "share already has the maximum number of bindings")) else
      let s := with_capacity capacity_pool_id (s <| s_bindings ::= λ l, sort_bindings (l ++ [binding]) |>) in
      let s := mark_share_config_pending (s <| s_binding_history ::= λ h, h ++
        [history (sb_app binding) None (Some (sb_provider_id binding)) "binding_added" now] |>) in
      ((on_share share_id (λ _, s) st).1, Ok s)
  end.
(** domain/sharing/shares.rs:2098-2104 [add_binding] *)
Definition add_binding (now : Z) (share_id : string) (binding : ShareBinding) := add_binding_inner now share_id binding None.
(** domain/sharing/shares.rs:2106-2113 [add_binding_with_capacity] *)
Definition add_binding_with_capacity (now : Z) (share_id : string) (binding : ShareBinding) (capacity_pool_id : string) :=
  add_binding_inner now share_id binding (Some capacity_pool_id).
(** [Vec::remove] at the first position that satisfies a test *)
Fixpoint remove_first {A} (p : A → bool) (l : list A) : list A :=
  match l with [] => [] | x :: l => if p x then l else x :: remove_first p l end.
(** domain/sharing/shares.rs:2196-2204 [remove_binding]: the first binding is the primary one when the primary is removed *)
Definition reprimed (removed : ShareBinding) (s : Share) : Share :=
  if bool_decide (s_app s = sb_app removed) then
    match s_bindings s with
    | primary :: _ => s <| s_app := sb_app primary |> <| s_provider_id := sb_provider_id primary |>
                        <| s_provider_type := sb_provider_type primary |>
    | [] => s
    end
  else s.
(** domain/sharing/shares.rs:2170-2216 [remove_binding] *)
Definition remove_binding (now : Z) (share_id : string) (app : AppKind) (provider_id : string) (st : ShareStore)
    : ShareStore * result SharePatchError Share :=
  match get_share share_id st with
  | None => (st, Err PatchNotFound)
  | Some s =>
      if (length (s_bindings s) <=? 1)%nat
      then (st, Err (Invalid "removing the final binding must delete the share")) else
      let this b := bool_decide (sb_app b = app) && str_eqb (sb_provider_id b) provider_id in
      match List.find this (s_bindings s) with
      | None => (st, Err (Invalid "provider is not bound to this share"))
      | Some removed =>
          let s := reprimed removed (s <| s_bindings ::= remove_first this |>) in
          let s := mark_share_config_pending (s <| s_binding_history ::= λ h, h ++
            [history (sb_app removed) (Some (sb_provider_id removed)) None "binding_removed" now] |>) in
          ((on_share share_id (λ _, s) st).1, Ok s)
      end
  end.
(** domain/sharing/shares.rs:2373-2405 [record_subscription_identity_rebind] *)
Definition record_subscription_identity_rebind (now : Z) (share_id : string) (app : AppKind)
    (provider_id previous_fingerprint next_fingerprint : string) (st : ShareStore)
    : ShareStore * result ShareUpdateError Share :=
  match get_share share_id st with
  | None => (st, Err UpdateNotFound)
  | Some s =>
      if negb (str_eqb (s_status s) "paused") then (st, Err MustBePaused) else
      match List.find (λ b, bool_decide (sb_app b = app) && str_eqb (sb_provider_id b) provider_id) (s_bindings s) with
      | None => (st, Err InvalidApp)
      | Some b =>
          let s := mark_share_config_pending (s <| s_binding_history ::= λ h, h ++
            [mk_history (sb_app b) (Some (sb_provider_id b)) (Some (sb_provider_id b)) (Some previous_fingerprint)
               (Some next_fingerprint) (Some "subscription_identity") now] |>) in
          ((on_share share_id (λ _, s) st).1, Ok s)
      end
  end.

(** ** Whole shares *)
(** domain/sharing/shares.rs:3289-3309 [import_shares]: one share *)
Definition import_step (acc : result SharePatchError (ShareStore * Z)) (s : Share) : result SharePatchError (ShareStore * Z) :=
  '(st, imported) ← acc;
  _ ← validate_share_import s;
  _ ← fail_if (from_option (λ existing,
        negb (same_binding_fields existing (s_app s) (s_provider_id s) (s_provider_type s) (s_bindings s))) false
        (get_share (s_id s) st)) BindingImmutable;
  let '(st, cancelled) := cancel_pending_router_delete (s_id s) st in
  let s := if cancelled then mark_share_config_pending s else s in
  let st := match get_share (s_id s) st with
            | Some _ => (on_share (s_id s) (λ _, s) st).1
            | None => st <| shares ::= λ l, l ++ [s] |> end in
  Ok (st, imported + 1).
(** domain/sharing/shares.rs:3310-3334 [import_shares]: two shares serve one provider *)
Fixpoint first_overlap (before after : list Share) : option Share :=
  match after with
  | [] => None
  | s :: after =>
      if negb (deleted s) && existsb (λ other, negb (deleted other) && existsb (serves other) (s_bindings s)) (before ++ after)
      then Some s else first_overlap (before ++ [s]) after
  end.
(** domain/sharing/shares.rs:3286-3337 [import_shares] *)
Definition import_shares (l : list Share) (st : ShareStore) : ShareStore * result SharePatchError Z :=
  match fold_left import_step l (Ok (st, 0)) with
  | Err e => (st, Err e)
  | Ok (candidate, imported) =>
      match first_overlap [] (shares candidate) with
      | Some s => (st, Err (Invalid ("provider already has share " +:+ s_provider_id s)))
      | None => (candidate, Ok imported)
      end
  end.
(** The other shares, by position: [enumerate().any(|(other_index, ..)| other_index != index ..)]. *)
Definition others_of (share_id : string) (st : ShareStore) : list Share := remove_first (has_id share_id) (shares st).
(** domain/sharing/shares.rs:3339-3382 [replace_configured_share] *)
Definition replace_configured_share (candidate : Share) (st : ShareStore) : ShareStore * result SharePatchError Share :=
  match validate_share_import candidate with
  | Err e => (st, Err e)
  | Ok _ =>
      match get_share (s_id candidate) st with
      | None => (st, Err PatchNotFound)
      | Some current =>
          if negb (same_binding_fields current (s_app candidate) (s_provider_id candidate) (s_provider_type candidate)
                     (s_bindings candidate)) then (st, Err BindingImmutable) else
          let others := List.filter (λ s, negb (deleted s)) (others_of (s_id candidate) st) in
          if existsb (λ s, existsb (serves s) (s_bindings candidate)) others
          then (st, Err (Invalid "provider already has an active share")) else
          if from_option (λ d, existsb (λ s, bool_decide (s_tunnel_subdomain s = Some d)) others) false
               (s_tunnel_subdomain candidate)
          then (st, Err (Invalid "share subdomain is already in use")) else
          let st := (cancel_pending_router_delete (s_id candidate) st).1 in
          ((on_share (s_id candidate) (λ _, candidate) st).1, Ok candidate)
      end
  end.

(** ** Upsert *)
(** domain/subdomain_suggest.rs:7-7 [SUGGEST_MAX_ATTEMPTS] *)
Definition SUGGEST_MAX_ATTEMPTS : nat := 8.
(** domain/sharing/shares.rs:4025-4037 [generate_unique_share_slug]; the random candidates, by attempt, are an argument:
    the candidate of attempt [SUGGEST_MAX_ATTEMPTS] is the slug taken when every attempt collides *)
Definition generate_unique_share_slug (candidate : nat → string) (st : ShareStore) : string :=
  let free attempt := bool_decide (subdomain_conflict (λ _, false) (Some (candidate attempt)) st = None) in
  candidate (default SUGGEST_MAX_ATTEMPTS (List.find free (seq 0 SUGGEST_MAX_ATTEMPTS))).
(** domain/sharing/shares.rs:1110-1115 [upsert_with_capacity]: the share an input is for *)
Definition existing_id_of (i : UpsertShareInput) (st : ShareStore) : option string :=
  or_else (in_id i)
    ((λ s, s_id s) <$> List.find (λ s, bool_decide (s_app s = in_app i) && str_eqb (s_provider_id s) (in_provider_id i))
       (shares st)).
(** domain/sharing/shares.rs:1260-1280 [upsert_with_capacity]: the policy of an upsert *)
Definition upserted_policy (i : UpsertShareInput) (existing : SharePolicy) : SharePolicy :=
  mk_share_policy (in_token_limit i) (in_parallel_limit i) (in_expires_at i) (default false (in_free_access i))
    (default (sp_allow_personal_credits existing) (in_allow_personal_credits i))
    (default (sp_auto_consume_banked_reset existing) (in_auto_consume_banked_reset i))
    (default (sp_banked_reset_expiry_lead_minutes existing) (in_banked_reset_expiry_lead_minutes i))
    (default (sp_previous_response_cache_enabled existing) (in_previous_response_cache_enabled i))
    (default (sp_grok_media_policy existing) (in_grok_media_policy i)).
(** domain/sharing/shares.rs:1194-1322 [upsert_with_capacity]: the share an upsert builds; [existing] is the share
    the input is for, [stored] the one with the id that is used *)
Definition upserted_share (now : Z) (i : UpsertShareInput) (share_id : string) (tunnel_subdomain : option string)
    (capacity_pool_id : option string) (existing stored : option Share) : Share :=
  let kept {A} (f : Share → A) (a : A) : A := from_option f a existing in
  let market {A} (f : MarketTrials.Share → A) (a : A) : A := from_option (λ s, f (s_market s)) a stored in
  let capacity := or_else (capacity_pool_id ≫= λ c, if is_empty (trim c) then None else Some c)
                    (s_capacity_pool_id <$> stored) in
  mk_share
    (MarketTrials.mk_share share_id (in_owner_email i) (kept (λ s, s_grants s) ∅)
       (market market_entitlements ∅) (market market_requests ∅) (market market_compacted_usage ∅)
       (market market_receipts_before_ms 0) (market pending_market_termination_acks ∅))
    (default "" capacity) (in_app i) (in_provider_id i) (in_provider_type i) (in_display_name i)
    (default true (in_enabled i)) (default "active" (in_status i)) tunnel_subdomain
    (upserted_policy i (kept s_policy share_policy_default))
    (kept s_tokens_used 0) (kept s_requests_count 0)
    (if 0 <? kept s_created_at_ms 0 then kept s_created_at_ms 0 else now)
    (default true (in_auto_start i)) (or_else (in_enabled_apps i) (existing ≫= s_enabled_apps)) (in_bindings i)
    (kept s_binding_history []) (in_runtime_snapshot i) (existing ≫= s_last_error) None
    (existing ≫= s_router_last_synced_at_ms) (existing ≫= s_router_last_sync_error) (existing ≫= s_router_url)
    (Z.max (sat_u64 (kept s_config_revision 0 + 1)) 1) (kept s_router_synced_revision 0)
    (kept s_descriptor_generation 0) (existing ≫= s_descriptor_fingerprint)
    (kept s_router_synced_descriptor_generation 0) (existing ≫= s_router_synced_descriptor_fingerprint).
Section upsert.
Variables (display : ValueError → string) (candidate : nat → string) (generated_id : string) (now : Z).

(** domain/sharing/shares.rs:1324-1333 [upsert_with_capacity]: the grants of the share *)
Definition with_input_grants (i : UpsertShareInput) (s : Share) : result SharePatchError Share :=
  s ← (if bool_decide (in_user_grants i = ∅) then Ok s else
         grants ← normalize_user_grants display now (in_user_grants i) (s_grants s) (s_owner_email s);
         Ok (on_grants (λ _, grants) s));
  Ok (reconcile_user_grants now s <| s_router_last_sync_error := None |>).
(** domain/sharing/shares.rs:1100-1343 [upsert_with_capacity] *)
Definition upsert_with_capacity (i : UpsertShareInput) (capacity_pool_id : option string) (st : ShareStore)
    : ShareStore * result SharePatchError Share :=
  let r :=
    i ← validate_and_normalize_upsert_input i;
    let existing_id := existing_id_of i st in
    let existing := existing_id ≫= λ id, get_share id st in
    _ ← fail_if (from_option (λ s,
          negb (same_binding_fields s (in_app i) (in_provider_id i) (in_provider_type i) (in_bindings i))) false existing)
          BindingImmutable;
    let tunnel_subdomain := or_else (in_tunnel_subdomain i)
      (or_else (existing ≫= s_tunnel_subdomain) (Some (generate_unique_share_slug candidate st))) in
    let own s := bool_decide (existing_id = Some (s_id s)) in
    _ ← match provider_conflict own (in_bindings i) st with
        | Some s => Err (Invalid ("provider already has share " +:+ s_id s)) | None => Ok () end;
    _ ← match subdomain_conflict own tunnel_subdomain st with
        | Some s => Err (Invalid ("share subdomain is already used by " +:+ s_id s)) | None => Ok () end;
    let share_id := default generated_id existing_id in
    with_input_grants i (upserted_share now i share_id tunnel_subdomain capacity_pool_id existing (get_share share_id st)) in
  match r with
  | Err e => (st, Err e)
  | Ok s =>
      let st := (cancel_pending_router_delete (s_id s) st).1 in
      (match get_share (s_id s) st with
       | Some _ => (on_share (s_id s) (λ _, s) st).1
       | None => st <| shares ::= λ l, l ++ [s] |> end, Ok s)
  end.
(** domain/sharing/shares.rs:1096-1098 [upsert] *)
Definition upsert (i : UpsertShareInput) (st : ShareStore) := upsert_with_capacity i None st.
End upsert.
