(* ===== verification/ShareStoreProofs.v ===== *)
(** * The store of shares: every operation

    The operations of the store as one type of steps, the invariant of the store that every step keeps, and what a
    share that has used up its tokens stays. *)
From S2P Require Import Prelude RustStr Json Providers ModelIdentity ValuePricing QuotaCycle.
From S2P Require Import TokenPeriod UserUsage UserGrant MarketTrials MarketGrants Shares ShareGate ShareGateProofs.
From S2P Require Import ShareGrants ShareGrantsProofs ShareBindings.
From Stdlib Require Import ZArith Lia.

Local Open Scope Z_scope.

(** ** The invariant *)
Record share_ok (s : Share) : Prop := {
  so_count : (1 ≤ length (s_bindings s) ≤ 3)%nat;
  so_apps : NoDup (sb_app <$> s_bindings s);
  so_named : ∀ b, b ∈ s_bindings s → trim (sb_provider_id b) ≠ "";
  so_primary : mk_binding (s_app s) (s_provider_id s) (s_provider_type s) ∈ s_bindings s;
  so_live : s_status s ≠ "deleted";
}.
(** No provider serves both shares under one API. *)
Definition apart (s t : Share) : Prop :=
  ∀ b c, b ∈ s_bindings s → c ∈ s_bindings t → sb_app b = sb_app c → sb_provider_id b ≠ sb_provider_id c.
(** The store less its provider conflicts, which an import checks at its end. *)
Record shape_ok (st : ShareStore) : Prop := {
  st_ids : NoDup ((λ s, s_id s) <$> shares st);
  st_shares : ∀ s, s ∈ shares st → share_ok s;
  st_buried : ∀ t s, t ∈ pending_router_deletes st → s ∈ shares st → tb_share_id t ≠ s_id s;
  st_tombstones : NoDup (tb_share_id <$> pending_router_deletes st);
}.
Record store_ok (st : ShareStore) : Prop := {
  st_shape : shape_ok st;
  st_apart : ∀ s t, s ∈ shares st → t ∈ shares st → s_id s ≠ s_id t → apart s t;
}.

(** ** Operations that change one share at a time *)
(** What the invariant reads of a share. *)
Definition same_frame (s s' : Share) : Prop :=
  s_id s' = s_id s ∧ s_bindings s' = s_bindings s ∧ s_app s' = s_app s ∧ s_provider_id s' = s_provider_id s ∧
  s_provider_type s' = s_provider_type s ∧ (s_status s ≠ "deleted" → s_status s' ≠ "deleted").
(** The share has a token limit (of 64 bits) and has used it up. *)
Definition spent (s : Share) : Prop := ∃ limit, sp_token_limit (s_policy s) = Some limit ∧ limit ≤ U64_MAX ∧ limit ≤ s_tokens_used s.
Definition counts_grow (s s' : Share) : Prop := s_id s' = s_id s ∧ (spent s → spent s').
Lemma same_frame_refl s : same_frame s s.
Proof. by repeat split. Qed.
Lemma counts_grow_refl s : counts_grow s s.
Proof. by repeat split. Qed.
#[global] Instance same_frame_reflexive : Reflexive same_frame := same_frame_refl.
#[global] Instance counts_grow_reflexive : Reflexive counts_grow := counts_grow_refl.
#[global] Instance counts_grow_transitive : Transitive counts_grow.
Proof. intros s t u [? ?] [? ?]. split; [congruence|auto]. Qed.

Lemma Forall2_alter_first {A} (R : relation A) `{!Reflexive R} p f l :
  (∀ x, p x = true → R x (f x)) → Forall2 R l (alter_first p f l).
Proof.
  intros Hf. induction l as [|x l IH]; [constructor|]. cbn [alter_first]. destruct (p x) eqn:E; constructor; auto; reflexivity.
Qed.
Lemma Forall2_alter_found {A} (R : relation A) `{!Reflexive R} p f l x :
  List.find p l = Some x → R x (f x) → Forall2 R l (alter_first p f l).
Proof.
  intros Hx Hf. induction l as [|y l IH]; [done|]. cbn [alter_first List.find] in *.
  destruct (p y); [simplify_eq|]; constructor; auto; reflexivity.
Qed.
Lemma on_share_Forall2 (R : relation Share) `{!Reflexive R} share_id f st : (∀ s, R s (f s)) →
  Forall2 R (shares st) (shares (on_share share_id f st).1).
Proof. intros Hf. rewrite on_share_shares. by apply Forall2_alter_first. Qed.
Lemma on_share_pending share_id f st : pending_router_deletes (on_share share_id f st).1 = pending_router_deletes st.
Proof. unfold on_share. by destruct (get_share share_id st). Qed.

Lemma share_ok_frame s s' : same_frame s s' → share_ok s → share_ok s'.
Proof.
  intros (Hi & Hb & Ha & Hp & Ht & Hl) [Hc Hn Hm Hpr Hs]. split; rewrite ?Hb, ?Ha, ?Hp, ?Ht; auto.
Qed.
Lemma store_ok_frame st st' : Forall2 same_frame (shares st) (shares st') →
  tb_share_id <$> pending_router_deletes st' = tb_share_id <$> pending_router_deletes st → store_ok st → store_ok st'.
Proof.
  intros Hf Hp [[Hids Hs Hb Ht] Hap].
  assert (∀ s', s' ∈ shares st' → ∃ s, s ∈ shares st ∧ same_frame s s') as Hback.
  { intros s' Hs'. apply list_elem_of_lookup in Hs' as [i Hi]. destruct (Forall2_lookup_r _ _ _ _ _ Hf Hi) as (s & Hsi & Hr).
    exists s. split; [by eapply list_elem_of_lookup_2|done]. }
  split; [split|].
  - replace ((λ s, s_id s) <$> shares st') with ((λ s, s_id s) <$> shares st); [done|].
    clear -Hf. induction Hf as [|s s' l l' (Hi & _) Hl IH]; csimpl; [done|]. by rewrite Hi, IH.
  - intros s' (s & Hin & Hr)%Hback. by eapply share_ok_frame, Hs.
  - intros t s' Hin (s & Hins & (Hi & _))%Hback. rewrite Hi.
    apply (list_elem_of_fmap_2 tb_share_id) in Hin. rewrite Hp in Hin. apply list_elem_of_fmap in Hin as (t0 & -> & Ht0).
    by apply Hb.
  - by rewrite Hp.
  - intros s' t' (s & Hs1 & (Hi & Hbs & _))%Hback (t & Ht1 & (Hj & Hbt & _))%Hback Hne b c. rewrite Hbs, Hbt. apply Hap; congruence.
Qed.

(** Assignments to fields the invariant, or the token limit, does not read. *)
Ltac frames := intros; repeat case_match; split_and!; cbn in *; repeat case_match; cbn in *; try done; lia.
Lemma mark_share_config_pending_frame s : same_frame s (mark_share_config_pending s) ∧ counts_grow s (mark_share_config_pending s).
Proof. split; frames. Qed.
Lemma closed_as_frame status s : status ≠ "deleted" → same_frame s (closed_as status s).
Proof. frames. Qed.
Lemma closed_as_grow status s : counts_grow s (closed_as status s).
Proof. frames. Qed.
Lemma on_grants_frame f s : same_frame s (on_grants f s) ∧ counts_grow s (on_grants f s).
Proof. split; frames. Qed.
Lemma on_snapshot_frame f s : same_frame s (on_snapshot f s) ∧ counts_grow s (on_snapshot f s).
Proof. split; frames. Qed.
Lemma same_frame_trans s t u : same_frame s t → same_frame t u → same_frame s u.
Proof. intros (? & ? & ? & ? & ? & ?) (? & ? & ? & ? & ? & ?). split_and!; [congruence..|auto]. Qed.
#[global] Instance same_frame_transitive : Transitive same_frame := same_frame_trans.
Lemma reconcile_frame now s : same_frame s (reconcile_user_grants now s) ∧ counts_grow s (reconcile_user_grants now s).
Proof. unfold reconcile_user_grants. destruct (grant_owner s); [apply on_grants_frame|done]. Qed.
Lemma bound_to_owner_frame now e s : same_frame s (bound_to_owner now e s).2 ∧ counts_grow s (bound_to_owner now e s).2.
Proof.
  unfold bound_to_owner. destruct (bind_share_to_client_owner now e s) as [changed s1] eqn:E.
  assert (same_frame s s1 ∧ counts_grow s s1) as [Hf Hg].
  { unfold bind_share_to_client_owner in E. case_bool_decide; [by injection E as <- <-|]. injection E as <- <-.
    split; unfold sync_owner_email_snapshot; repeat case_match; frames. }
  destruct (reconcile_frame now s1) as [Hf2 Hg2]. destruct (mark_share_config_pending_frame (reconcile_user_grants now s1)) as [Hf3 Hg3].
  case_match; cbn [snd]; split; repeat (etrans; [eassumption|]); done.
Qed.
Lemma auto_started_frame s : same_frame s (auto_started s) ∧ counts_grow s (auto_started s).
Proof. unfold auto_started. split; frames. Qed.
Lemma projected_frame fp s : same_frame s (projected fp s) ∧ counts_grow s (projected fp s).
Proof. unfold projected. split; frames. Qed.
Lemma descriptor_synced_frame g fp c url r s :
  same_frame s (descriptor_synced g fp c url r s) ∧ counts_grow s (descriptor_synced g fp c url r s).
Proof. unfold descriptor_synced. split; frames. Qed.
Lemma counted_frame tokens c s : same_frame s (counted tokens c s).
Proof. unfold counted, closed_as. frames. Qed.
Lemma counted_grow tokens c s : 0 ≤ tokens → counts_grow s (counted tokens c s).
Proof.
  intros Ht. unfold counted, closed_as. split; [by repeat case_match|]. intros (limit & Hl & Hw & Hu). exists limit.
  split; [by repeat case_match|]. split; [done|]. repeat case_match; cbn; width_lia.
Qed.
Lemma charged_frame `{Chrono} utc_now now at_ms tokens c email s s' : charged utc_now now at_ms tokens c email s = Ok s' →
  same_frame s s' ∧ counts_grow s s'.
Proof.
  unfold charged. destruct (normalized_email email) as [e|]; [|by intros [= <-]].
  destruct (s_grants s !! e ≫= _) as [g|]; [|by intros [= <-]].
  intros Hb. apply bind_Ok in Hb as (g' & _ & [= <-]). apply on_grants_frame.
Qed.

(** ** Storing a share *)
(** [*existing = share] where a share has the id, [push] otherwise. *)
Definition put (s : Share) (st : ShareStore) : ShareStore :=
  match get_share (s_id s) st with
  | Some _ => (on_share (s_id s) (λ _, s) st).1
  | None => st <| shares ::= λ l, l ++ [s] |>
  end.
Lemma get_share_None share_id st s : get_share share_id st = None → s ∈ shares st → s_id s ≠ share_id.
Proof. intros Hn Hs. apply has_id_false. apply (find_none _ _ Hn). by apply list_elem_of_In. Qed.
Lemma get_share_elem share_id st s : get_share share_id st = Some s → s ∈ shares st ∧ s_id s = share_id.
Proof. intros [Hs Hi]%get_share_In. by rewrite <-list_elem_of_In in Hs. Qed.
Lemma alter_first_put i s' l x : NoDup ((λ s, s_id s) <$> l) → x ∈ alter_first (has_id i) (λ _, s') l →
  x = s' ∨ x ∈ l ∧ s_id x ≠ i.
Proof.
  induction l as [|y l IH]; intros Hnd Hx; [inversion Hx|]. csimpl in Hnd. apply NoDup_cons in Hnd as [Hy Hnd].
  cbn [alter_first] in Hx. destruct (has_id i y) eqn:E.
  - apply elem_of_cons in Hx as [->|Hx]; [by left|right]. split; [by right|]. apply has_id_true in E. rewrite <-E.
    intros Heq. apply Hy. rewrite <-Heq. apply (list_elem_of_fmap_2 (λ s, s_id s)) in Hx. done.
  - apply elem_of_cons in Hx as [->|Hx]; [right; split; [left|by apply has_id_false]|].
    destruct (IH Hnd Hx) as [->|[? ?]]; [by left|right; split; [by right|done]].
Qed.
Lemma put_elem s st x : NoDup ((λ s, s_id s) <$> shares st) → x ∈ shares (put s st) →
  x = s ∨ x ∈ shares st ∧ s_id x ≠ s_id s.
Proof.
  intros Hnd. unfold put. destruct (get_share (s_id s) st) eqn:E.
  - rewrite on_share_shares. by apply alter_first_put.
  - cbn. intros [Hx| ->%list_elem_of_singleton]%elem_of_app; [right|by left]. split; [done|]. by eapply get_share_None.
Qed.
Lemma put_ids s st : NoDup ((λ s, s_id s) <$> shares st) → NoDup ((λ s, s_id s) <$> shares (put s st)).
Proof.
  intros Hnd. unfold put. destruct (get_share (s_id s) st) as [t|] eqn:E.
  - rewrite on_share_shares. replace (_ <$> alter_first _ _ _) with ((λ s, s_id s) <$> shares st); [done|].
    apply get_share_elem in E as Ht. destruct Ht as [_ Ht].
    assert (Reflexive (λ x y : Share, s_id x = s_id y)) by done.
    assert (Forall2 (λ x y, s_id x = s_id y) (shares st) (alter_first (has_id (s_id s)) (λ _, s) (shares st))) as Hf.
    { eapply (Forall2_alter_found (λ x y, s_id x = s_id y)); [exact E|done]. }
    clear -Hf. induction Hf as [|x y l k Hxy Hl IH]; csimpl; [done|]. by rewrite Hxy, IH.
  - cbn. rewrite fmap_app. apply NoDup_app. split; [done|]. split; [|apply NoDup_singleton].
    intros i Hi ->%list_elem_of_singleton. apply list_elem_of_fmap in Hi as (t & Ht & Hin). symmetry in Ht.
    by apply (get_share_None _ _ _ E Hin).
Qed.
Lemma put_pending s st : pending_router_deletes (put s st) = pending_router_deletes st.
Proof. unfold put. destruct (get_share (s_id s) st); [apply on_share_pending|done]. Qed.
Lemma put_shape s st : shape_ok st → share_ok s → (∀ t, t ∈ pending_router_deletes st → tb_share_id t ≠ s_id s) →
  shape_ok (put s st).
Proof.
  intros [Hids Hs Hb Ht] Hok Hburied. split; rewrite ?put_pending; [by apply put_ids| | |done].
  - intros x [->|[Hx _]]%put_elem; auto.
  - intros t x Htin [->|[Hx _]]%put_elem; auto.
Qed.
Lemma apart_sym s t : apart s t → apart t s.
Proof. intros Ha b c Hb Hc Heq Hp. by apply (Ha c b). Qed.
Lemma put_ok s st : store_ok st → share_ok s → (∀ t, t ∈ pending_router_deletes st → tb_share_id t ≠ s_id s) →
  (∀ t, t ∈ shares st → s_id t ≠ s_id s → apart s t) → store_ok (put s st).
Proof.
  intros [Hshape Hap] Hok Hburied Hnew. split; [by apply put_shape|]. pose proof (st_ids _ Hshape) as Hids.
  intros x y Hx Hy Hne. apply put_elem in Hx as [->|[Hx Hxi]]; [| |done]; apply put_elem in Hy as [->|[Hy Hyi]]; try done; auto.
  apply apart_sym. auto.
Qed.
(** Replacing a stored share. *)
Lemma put_stored share_id s s' st : get_share share_id st = Some s → s_id s' = share_id →
  (on_share share_id (λ _, s') st).1 = put s' st.
Proof. intros Hs <-. unfold put. by rewrite Hs. Qed.

(** ** Removing tombstones and shares *)
Lemma filter_sublist {A} (p : A → bool) l : sublist (List.filter p l) l.
Proof. induction l as [|x l IH]; cbn; [done|]. destruct (p x); [by apply sublist_skip|by apply sublist_cons]. Qed.
Lemma elem_of_List_filter {A} (p : A → bool) l x : x ∈ List.filter p l ↔ x ∈ l ∧ p x = true.
Proof. by rewrite !list_elem_of_In, filter_In. Qed.
Lemma retain_ok keep st : store_ok st → store_ok (retain_deletes keep st).1.
Proof.
  intros [[Hids Hs Hb Ht] Hap]. unfold retain_deletes. cbn. split; [split|done]; try done; cbn.
  - intros t s [Htin _]%elem_of_List_filter. by apply Hb.
  - eapply sublist_NoDup; [exact Ht|]. apply fmap_sublist, filter_sublist.
Qed.
Lemma cancelled_buried share_id st t : t ∈ pending_router_deletes (cancel_pending_router_delete share_id st).1 → tb_share_id t ≠ share_id.
Proof. cbn. intros [_ Hk%negb_true_iff]%elem_of_List_filter. by apply str_eqb_neq. Qed.
Lemma delete_ok op now share_id target st : store_ok st → store_ok (delete_with_router_target op now share_id target st).1.
Proof.
  intros Hok. pose proof Hok as [[Hids Hs Hb Ht] Hap]. unfold delete_with_router_target.
  set (kept := List.filter _ (shares st)). assert (∀ s, s ∈ kept → s ∈ shares st ∧ s_id s ≠ share_id) as Hkept.
  { intros s [Hin Hk%negb_true_iff%has_id_false]%elem_of_List_filter. done. }
  assert (NoDup ((λ s, s_id s) <$> kept)) as Hnd by (eapply sublist_NoDup; [exact Hids|]; apply fmap_sublist, filter_sublist).
  destruct (length kept =? length (shares st))%nat; cbn [fst]; split; [split|..|split|]; cbn; try done.
  - intros s [? _]%Hkept. auto.
  - intros t s Htin [? _]%Hkept. auto.
  - intros s t [? _]%Hkept [? _]%Hkept. auto.
  - intros s [? _]%Hkept. auto.
  - intros t s [[Htin _]%elem_of_List_filter| ->%list_elem_of_singleton]%elem_of_app [Hin Hi]%Hkept; [by apply Hb|]. cbn. congruence.
  - rewrite fmap_app. apply NoDup_app. split; [eapply sublist_NoDup; [exact Ht|]; apply fmap_sublist, filter_sublist|].
    split; [|apply NoDup_singleton]. cbn. intros i Hi ->%list_elem_of_singleton.
    apply list_elem_of_fmap in Hi as (t & Heq & [_ Hk%negb_true_iff]%elem_of_List_filter). apply str_eqb_neq in Hk. congruence.
  - intros s t [? _]%Hkept [? _]%Hkept. auto.
Qed.

(** ** Checks and conflicts *)
Lemma check_bindings_Ok seen l : check_bindings seen l = Ok () →
  NoDup (sb_app <$> l) ∧ (∀ b, b ∈ l → sb_app b ∉ seen) ∧ ∀ b, b ∈ l → trim (sb_provider_id b) ≠ "".
Proof.
  revert seen. induction l as [|b l IH]; intros seen Hc; csimpl.
  { split; [constructor|]. split; intros b Hb; inversion Hb. }
  cbn [check_bindings] in Hc. apply bind_Ok in Hc as (? & Ha%fail_if_Ok & Hc). apply bind_Ok in Hc as (? & Hn%fail_if_Ok & Hc).
  destruct (IH _ Hc) as (Hnd & Hout & Hnamed). apply bool_decide_eq_false in Ha. split; [|split].
  - apply NoDup_cons. split; [|done]. intros (c & Heq & Hin)%list_elem_of_fmap. apply (Hout c Hin). rewrite Heq. by left.
  - intros c [->|Hin]%elem_of_cons; [done|]. intros Hs. apply (Hout c Hin). by right.
  - intros c [->|Hin]%elem_of_cons; [by apply is_empty_false|auto].
Qed.
Lemma validate_bindings_Ok l : validate_bindings l = Ok () →
  (1 ≤ length l ≤ 3)%nat ∧ NoDup (sb_app <$> l) ∧ ∀ b, b ∈ l → trim (sb_provider_id b) ≠ "".
Proof.
  intros Hv. apply bind_Ok in Hv as (? & Hc%fail_if_Ok & Hb). apply check_bindings_Ok in Hb as (? & _ & ?).
  apply negb_false_iff, andb_true_iff in Hc as [?%Nat.leb_le ?%Nat.leb_le]. auto.
Qed.
Lemma primary_binding_Ok app p t l b : primary_binding app p t l = Ok b → mk_binding app p t ∈ l.
Proof.
  unfold primary_binding. intros Hp. apply bind_Ok in Hp as (c & Hf%ok_or_Ok & Hp). apply bind_Ok in Hp as (? & Hc%fail_if_Ok & _).
  apply find_some in Hf as [Hin Ha%bool_decide_eq_true]. apply list_elem_of_In in Hin.
  apply orb_false_iff in Hc as [Hi%negb_false_iff%str_eqb_eq Ht%negb_false_iff%bool_decide_eq_true].
  destruct c. cbn in *. by subst.
Qed.
Lemma validate_share_import_ok s : validate_share_import s = Ok () → s_status s ≠ "deleted" → share_ok s.
Proof.
  unfold validate_share_import. intros Hv Hs. apply bind_Ok in Hv as (? & _ & Hv). apply bind_Ok in Hv as ([] & Hb & Hv).
  apply bind_Ok in Hv as (b & Hp & _). apply validate_bindings_Ok in Hb as (? & ? & ?). split; try done.
  by eapply primary_binding_Ok.
Qed.
Lemma serves_false s b c : serves s b = false → c ∈ s_bindings s → sb_app b = sb_app c → sb_provider_id b ≠ sb_provider_id c.
Proof.
  intros Hf Hc Ha Hp. apply not_true_iff_false in Hf. apply Hf. apply existsb_exists. exists c. rewrite <-list_elem_of_In.
  split; [done|]. unfold same_slot. rewrite andb_true_iff, bool_decide_eq_true, str_eqb_eq. done.
Qed.
Lemma serves_none s t : existsb (serves t) (s_bindings s) = false → apart s t.
Proof.
  intros He b c Hb Hc Ha. apply (serves_false t); [|done..]. apply not_true_iff_false. intros Ht. apply not_true_iff_false in He.
  apply He. apply existsb_exists. exists b. by rewrite <-list_elem_of_In.
Qed.
Lemma no_conflict own bs st t b c : provider_conflict own bs st = None → t ∈ shares st → own t = false →
  s_status t ≠ "deleted" → b ∈ bs → c ∈ s_bindings t → sb_app b = sb_app c → sb_provider_id b ≠ sb_provider_id c.
Proof.
  intros Hn Ht Ho Hs Hb. rewrite list_elem_of_In in Ht. pose proof (find_none _ _ Hn t Ht) as Hf. cbn in Hf.
  unfold deleted in Hf. rewrite Ho, (proj2 (str_eqb_neq _ _) Hs) in Hf. cbn in Hf. apply serves_false.
  apply not_true_iff_false. intros Hserves. apply not_true_iff_false in Hf. apply Hf. apply existsb_exists. exists b.
  by rewrite <-list_elem_of_In.
Qed.

(** ** Re-binding a stored share *)
Section rebinding.
Context {A : Type} (p : A → bool).
Lemma alter_first_found f l x : List.find p l = Some x → f x ∈ alter_first p f l.
Proof.
  induction l as [|y l IH]; [done|]. cbn [List.find alter_first]. destruct (p y); [intros [= ->]; by left|]. right. auto.
Qed.
Lemma alter_first_const b l x : x ∈ alter_first p (λ _, b) l → x = b ∨ x ∈ l.
Proof.
  induction l as [|y l IH]; [by right|]. cbn [alter_first]. destruct (p y).
  - intros [->|?]%elem_of_cons; [by left|right; by right].
  - intros [->|[->|?]%IH]%elem_of_cons; [right; by left|by left|right; by right].
Qed.
Lemma remove_first_elem l x : x ∈ remove_first p l → x ∈ l.
Proof. induction l as [|y l IH]; [done|]. cbn. destruct (p y); [by right|]. intros [->|?]%elem_of_cons; [by left|right; auto]. Qed.
Lemma remove_first_other l x y : List.find p l = Some y → x ∈ l → x ≠ y → x ∈ remove_first p l.
Proof.
  induction l as [|z l IH]; [done|]. cbn. destruct (p z); intros Hf [->|Hx]%elem_of_cons Hne; simplify_eq; [done|by left|right; auto].
Qed.
Lemma remove_first_length l y : List.find p l = Some y → length l = S (length (remove_first p l)).
Proof. induction l as [|z l IH]; [done|]. cbn. destruct (p z); [done|]. intros Hf. cbn. f_equal. auto. Qed.
Lemma remove_first_sublist l : sublist (remove_first p l) l.
Proof. induction l as [|z l IH]; cbn; [done|]. destruct (p z); [by apply sublist_cons|by apply sublist_skip]. Qed.
End rebinding.
Lemma fmap_alter_found {A B} p (g : A → B) f l x : List.find p l = Some x → g (f x) = g x → g <$> alter_first p f l = g <$> l.
Proof.
  intros Hf Hg. induction l as [|y l IH]; [done|]. cbn [List.find alter_first] in *. destruct (p y); simplify_eq; csimpl.
  - by rewrite Hg.
  - by rewrite IH.
Qed.
Lemma stored_update share_id s s' st : store_ok st → get_share share_id st = Some s → s_id s' = s_id s → share_ok s' →
  (∀ t b c, t ∈ shares st → s_id t ≠ share_id → b ∈ s_bindings s' → b ∉ s_bindings s → c ∈ s_bindings t →
     sb_app b = sb_app c → sb_provider_id b ≠ sb_provider_id c) →
  store_ok (on_share share_id (λ _, s') st).1.
Proof.
  intros Hok Hs Hid Hs' Hnew. pose proof (get_share_elem _ _ _ Hs) as [Hin Hi]. pose proof Hok as [Hshape Hap].
  rewrite (put_stored _ _ _ _ Hs) by congruence. apply put_ok; [done|done| |].
  - intros t Ht. rewrite Hid. by apply (st_buried _ Hshape).
  - intros t Ht Hne b c Hb Hc. destruct (decide (b ∈ s_bindings s)) as [Hbs|Hbs].
    + apply (Hap s t); [done..|congruence|done|done].
    + apply (Hnew t); try done. congruence.
Qed.

(** ** Steps of the store *)
Inductive store_op : Type :=
  | OInvoke (share_id : string) (app : AppKind) (user_email : option string) (now_ms : Z)
  | ORecord (now : Z) (share_id : string) (user_email : option string) (tokens recorded_at_ms : Z) (count_request : bool)
  | OPause (share_id : string) | OResume (share_id : string) | OReset (now : Z) (share_id : string)
  | OTunnel (share_id status : string) (error : option string) | ORestore
  | ODelete (operation_id : string) (now : Z) (share_id : string) (target : option (string * string))
  | OBindDelete (operation_id base installation_id : string) | OCompleteDelete (operation_id : string)
  | ODeleteFailed (now : Z) (operation_id error : string) | OPrune (base installation_id : string)
  | OSync (share_id : string) (revision : Z) (url : option string) (r : result string Z)
  | OProject (share_id fingerprint : string)
  | ODescriptor (share_id : string) (generation : Z) (fingerprint : string) (revision : Z) (url : option string) (r : result string Z)
  | OMode (mode : RouterDescriptorSyncMode) (diagnostic : option string)
  | OBindAll (now : Z) (owner_email : string) | ONormalize (now : Z)
  | OUpdateBinding (now : Z) (share_id : string) (binding : ShareBinding) (capacity : option string)
  | OAddBinding (now : Z) (share_id : string) (binding : ShareBinding) (capacity : option string)
  | ORemoveBinding (now : Z) (share_id : string) (app : AppKind) (provider_id : string)
  | ORebind (now : Z) (share_id : string) (app : AppKind) (provider_id previous next : string)
  | OUpsert (candidate : nat → string) (generated_id : string) (now : Z) (input : UpsertShareInput) (capacity : option string)
  | OImport (l : list Share) | OReplace (s : Share).

Section steps.
Context `{Chrono}.
Variables (utc_now : Z) (display : ValueError → string).

(** One operation; a panic of the calendar leaves the store as it was. *)
Definition step (st : ShareStore) (op : store_op) : ShareStore :=
  match op with
  | OInvoke id app email now => from_option fst st (to_ok (validate_for_invocation utc_now id app email now st))
  | ORecord now id email tokens at_ms count =>
      from_option fst st (to_ok (record_user_usage utc_now now id email tokens at_ms count st))
  | OPause id => (pause id st).1
  | OResume id => (resume id st).1
  | OReset now id => (reset_usage now id st).1
  | OTunnel id status error => (set_share_tunnel_status id status error st).1
  | ORestore => (restore_auto_start st).1
  | ODelete op now id target => (delete_with_router_target op now id target st).1
  | OBindDelete op base inst => (bind_legacy_router_delete_target op base inst st).1
  | OCompleteDelete op => (complete_pending_router_delete op st).1
  | ODeleteFailed now op error => (mark_pending_router_delete_failure now op error st).1
  | OPrune base inst => (mark_router_share_prune_applied base inst st).1
  | OSync id rev url r => mark_router_sync id rev url r st
  | OProject id fp => (prepare_descriptor_projection id fp st).1
  | ODescriptor id g fp rev url r => (mark_router_descriptor_sync id g fp rev url r st).1
  | OMode mode d => record_router_descriptor_sync_mode mode d st
  | OBindAll now email => from_option fst st (to_ok (bind_all_to_client_owner now email st))
  | ONormalize now => (normalize_all_user_grants now st).1
  | OUpdateBinding now id b c => (update_binding_inner now id b c st).1
  | OAddBinding now id b c => (add_binding_inner now id b c st).1
  | ORemoveBinding now id app p => (remove_binding now id app p st).1
  | ORebind now id app p prev next => (record_subscription_identity_rebind now id app p prev next st).1
  | OUpsert cand gid now i c => (upsert_with_capacity display cand gid now i c st).1
  | OImport l => (import_shares l st).1
  | OReplace s => (replace_configured_share s st).1
  end.
Definition run : ShareStore → list store_op → ShareStore := foldl step.

(** Nothing outside sets a share to the status of a removed one, and a binding names a provider. *)
Definition op_ok (op : store_op) : Prop :=
  match op with
  | OTunnel _ status _ => status ≠ "deleted"
  | ORecord _ _ _ tokens _ _ => 0 ≤ tokens
  | OUpdateBinding _ _ b _ | OAddBinding _ _ b _ => trim (sb_provider_id b) ≠ ""
  | OUpsert _ _ _ i _ => in_status i ≠ Some "deleted"
  | OImport l => Forall (λ s, s_status s ≠ "deleted") l
  | OReplace s => s_status s ≠ "deleted"
  | _ => True
  end.
(** The operations that change neither which shares there are nor their bindings. *)
Definition mild (op : store_op) : bool :=
  match op with
  | ODelete _ _ _ _ | OCompleteDelete _ | OUpdateBinding _ _ _ _ | OAddBinding _ _ _ _ | ORemoveBinding _ _ _ _
  | OUpsert _ _ _ _ _ | OImport _ | OReplace _ => false
  | _ => true
  end.

Lemma step_on_share (R : relation Share) `{!Reflexive R} share_id f st : (∀ s, R s (f s)) →
  Forall2 R (shares st) (shares (on_share share_id f st).1) ∧
  pending_router_deletes (on_share share_id f st).1 = pending_router_deletes st.
Proof. intros Hf. split; [by apply on_share_Forall2|apply on_share_pending]. Qed.
(** Every share keeps what [R] says it keeps, and the tombstones stay where they are. *)
Definition keeps (R : relation Share) (st st' : ShareStore) : Prop :=
  Forall2 R (shares st) (shares st') ∧ tb_share_id <$> pending_router_deletes st' = tb_share_id <$> pending_router_deletes st.
Lemma keeps_on_share (R : relation Share) `{!Reflexive R} share_id f st : (∀ s, R s (f s)) → keeps R st (on_share share_id f st).1.
Proof. intros Hf. destruct (step_on_share R share_id f st Hf) as [? E]. split; [done|by rewrite E]. Qed.
#[global] Instance keeps_reflexive R `{!Reflexive R} : Reflexive (keeps R).
Proof. intros st. by split. Qed.
Lemma keeps_put (R : relation Share) `{!Reflexive R} share_id s s' st : get_share share_id st = Some s → R s s' →
  keeps R st (on_share share_id (λ _, s') st).1.
Proof. intros Hs Hr. split; [rewrite on_share_shares; by eapply Forall2_alter_found|by rewrite on_share_pending]. Qed.
Lemma keeps_shares R st st' : shares st' = shares st → `{Reflexive R} →
  tb_share_id <$> pending_router_deletes st' = tb_share_id <$> pending_router_deletes st → keeps R st st'.
Proof. intros Hs ? Hp. split; [by rewrite Hs|done]. Qed.
Lemma keeps_map (R : relation Share) f st st' : (∀ s, R s (f s)) → shares st' = f <$> shares st →
  pending_router_deletes st' = pending_router_deletes st → keeps R st st'.
Proof.
  intros Hf Hs Hp. split; [|by rewrite Hp]. rewrite Hs. clear Hs Hp. induction (shares st); constructor; auto.
Qed.

Lemma invoke_keeps (R : relation Share) `{!Reflexive R} id app email now st r :
  (∀ s, R s (closed_as "expired" s)) → (∀ s, R s (closed_as "exhausted" s)) →
  validate_for_invocation utc_now id app email now st = Ok r → keeps R st r.1.
Proof.
  intros He Hx. unfold validate_for_invocation. destruct (get_share id st) as [s|]; [|by intros [= <-]].
  repeat (case_match; [by intros [= <-]|]).
  case_match; [intros [= <-]; by apply keeps_on_share|]. case_match; [intros [= <-]; by apply keeps_on_share|].
  destruct (normalized_email email); [|by intros [= <-]]. case_match; [by intros [= <-]|].
  intros Hb. apply bind_Ok in Hb as ([rj|] & _ & [= <-]); done.
Qed.
Section mild.
Context (R : relation Share) `{!Reflexive R, !Transitive R}.
Hypothesis both : ∀ s s', same_frame s s' ∧ counts_grow s s' → R s s'.

Lemma usage_recorded_keeps now id email tokens at_ms c st r : 0 ≤ tokens →
  record_user_usage utc_now now id email tokens at_ms c st = Ok r → keeps R st r.1.
Proof.
  intros Ht. unfold record_user_usage. destruct (get_share id st) as [s|] eqn:Es; [|by intros [= <-]].
  intros Hb. apply bind_Ok in Hb as (s1 & Hch & [= <-]). apply charged_frame in Hch.
  eapply keeps_put; [done|done|]. etrans; [apply both; split; [apply counted_frame|by apply counted_grow]|].
  etrans; [apply both, Hch|]. apply both, on_snapshot_frame.
Qed.
Lemma keeps_tombstones st f p : (∀ t, tb_share_id (f t) = tb_share_id t) →
  keeps R st (st <| pending_router_deletes ::= alter_first p f |>).
Proof. intros Hf. split; [done|]. cbn. by apply fmap_alter_first. Qed.
Lemma mild_keeps st op : mild op = true → op_ok op →
  (∀ now id, op = OReset now id → keeps R st (reset_usage now id st).1) → keeps R st (step st op).
Proof.
  intros Hm Hok Hreset. destruct op; try done; cbn [step op_ok] in *.
  - destruct (validate_for_invocation _ _ _ _ _ _) as [r|] eqn:E; [|done]. eapply invoke_keeps; [done|..|exact E].
    all: intros s; apply both; split; [by apply closed_as_frame|apply closed_as_grow].
  - destruct (record_user_usage _ _ _ _ _ _ _ _) as [r|] eqn:E; [|done]. by eapply usage_recorded_keeps.
  - apply keeps_on_share; [done|]. intros s. apply both. split; frames.
  - apply keeps_on_share; [done|]. intros s. apply both. split; frames.
  - by eapply Hreset.
  - apply keeps_on_share; [done|]. intros s. apply both. split; frames.
  - eapply keeps_map; [|done|done]. intros s. apply both, auto_started_frame.
  - unfold bind_legacy_router_delete_target. repeat case_match; try done. by apply keeps_tombstones.
  - unfold mark_pending_router_delete_failure. case_match; [by apply keeps_tombstones|done].
  - unfold mark_router_share_prune_applied. by case_match.
  - apply keeps_on_share; [done|]. intros s. apply both. split; frames.
  - unfold prepare_descriptor_projection. destruct (on_share _ _ st) as [st' o] eqn:E. cbn [fst].
    change st' with (st', o).1. rewrite <-E. apply keeps_on_share; [done|]. intros s. apply both, projected_frame.
  - unfold mark_router_descriptor_sync. case_match; [|done]. apply keeps_on_share; [done|]. intros s0. apply both, descriptor_synced_frame.
  - unfold record_router_descriptor_sync_mode. by case_match.
  - unfold bind_all_to_client_owner. destruct (verified_email owner_email); [|done]. cbn.
    apply (keeps_map _ (λ s, (bound_to_owner now a s).2)); [|by cbn; rewrite <-list_fmap_compose|done].
    intros s. apply both, bound_to_owner_frame.
  - unfold normalize_all_user_grants. cbn.
    eapply (keeps_map _ (λ s, (if bool_decide (s_grants (reconcile_user_grants now s) = s_grants s)
      then (false, reconcile_user_grants now s) else (true, mark_share_config_pending (reconcile_user_grants now s))).2));
      [|by cbn; rewrite <-list_fmap_compose|done].
    intros s. destruct (reconcile_frame now s) as [Hf Hg].
    destruct (mark_share_config_pending_frame (reconcile_user_grants now s)) as [Hf' Hg'].
    case_match; apply both; cbn [snd]; split; repeat (etrans; [eassumption|]); done.
  - unfold record_subscription_identity_rebind. destruct (get_share share_id st) as [s|] eqn:Es; [|done].
    case_match; [done|]. case_match; [|done]. cbn [fst]. eapply keeps_put; [done|done|]. apply both. split; frames.
Qed.
End mild.
End steps.
