(* ===== verification/ShareInvariant.v ===== *)
(** * The invariant of the share store, kept by every operation

    Re-binding, upsert, import and replacement of whole shares keep the invariant of [ShareStoreProofs]; with the
    operations of one share at a time this makes it an invariant of every run of the store. *)
From S2P Require Import Prelude RustStr Json Providers ModelIdentity ValuePricing QuotaCycle.
From S2P Require Import TokenPeriod UserUsage UserGrant MarketTrials MarketGrants Shares ShareGate ShareGateProofs.
From S2P Require Import ShareGrants ShareGrantsProofs ShareBindings ShareStoreProofs.
From Stdlib Require Import ZArith Lia.

Local Open Scope Z_scope.

(** ** Re-binding *)
Lemma option_is_none {A} (o : option A) : bool_decide (is_Some o) = false → o = None.
Proof. intros Hn%bool_decide_eq_false. by apply eq_None_not_Some. Qed.
(** A binding no other share serves can be given to a share. *)
Lemma fresh_binding st share_id binding t c : store_ok st → provider_conflict (has_id share_id) [binding] st = None →
  t ∈ shares st → s_id t ≠ share_id → c ∈ s_bindings t → sb_app binding = sb_app c → sb_provider_id binding ≠ sb_provider_id c.
Proof.
  intros [Hshape _] Hn Ht Hi Hc. eapply (no_conflict (has_id share_id) [binding]); [done|exact Ht|by apply has_id_false| |by left|done].
  by apply so_live, (st_shares _ Hshape).
Qed.
Lemma with_capacity_frame c s : same_frame s (with_capacity c s).
Proof. unfold with_capacity. frames. Qed.
Lemma update_ok now share_id binding c st : store_ok st → trim (sb_provider_id binding) ≠ "" →
  store_ok (update_binding_inner now share_id binding c st).1.
Proof.
  intros Hok Hnamed. unfold update_binding_inner. destruct (bool_decide _) eqn:Hc; [done|]. apply option_is_none in Hc.
  destruct (get_share share_id st) as [s|] eqn:Hs; [|done]. destruct (negb (str_eqb _ _)); [done|].
  destruct (negb (bool_decide (sb_app binding = s_app s))) eqn:Ha; [done|].
  apply negb_false_iff, bool_decide_eq_true in Ha.
  destruct (List.find _ (s_bindings s)) as [previous|] eqn:Hf; [|done]. cbn [fst].
  pose proof (find_some _ _ Hf) as [_ Hprev%bool_decide_eq_true].
  destruct (get_share_elem _ _ _ Hs) as [Hin Hi]. pose proof (st_shares _ (st_shape _ Hok) s Hin) as [Hcount Happs Hnames Hprim Hlive].
  eapply (stored_update _ s); [done|done|by destruct c| |].
  - eapply (share_ok_frame (s <| s_bindings ::= alter_first (λ b, bool_decide (sb_app b = sb_app binding)) (λ _, binding) |>
                     <| s_provider_id := sb_provider_id binding |> <| s_provider_type := sb_provider_type binding |>)).
    { destruct c; repeat split; done. }
    split; cbn; [| | | |done].
    + by rewrite <-(length_map sb_app), (fmap_alter_found _ sb_app _ _ _ Hf), length_map.
    + by rewrite (fmap_alter_found _ sb_app _ _ _ Hf).
    + intros b [->|Hb]%alter_first_const; [done|auto].
    + rewrite <-Ha. replace (mk_binding _ _ _) with binding by by destruct binding. by eapply (alter_first_found _ (λ _, binding)).
  - intros t b d Ht Hne Hb Hnb. assert (b = binding) as ->; [|by apply (fresh_binding st share_id)].
    destruct c; cbn in Hb; apply alter_first_const in Hb as [->|?]; done.
Qed.
Lemma sort_bindings_Permutation l : sort_bindings l ≡ₚ l.
Proof. apply merge_sort_Permutation. Qed.
Lemma add_ok now share_id binding c st : store_ok st → trim (sb_provider_id binding) ≠ "" →
  store_ok (add_binding_inner now share_id binding c st).1.
Proof.
  intros Hok Hnamed. unfold add_binding_inner. destruct (bool_decide _) eqn:Hc; [done|]. apply option_is_none in Hc.
  destruct (get_share share_id st) as [s|] eqn:Hs; [|done]. destruct (existsb _ _) eqn:Hex; [done|].
  destruct (3 <=? length (s_bindings s))%nat eqn:Hl; [done|]. apply Nat.leb_gt in Hl. cbn [fst].
  destruct (get_share_elem _ _ _ Hs) as [Hin Hi]. pose proof (st_shares _ (st_shape _ Hok) s Hin) as [Hcount Happs Hnames Hprim Hlive].
  pose proof (sort_bindings_Permutation (s_bindings s ++ [binding])) as Hp.
  assert (sb_app binding ∉ sb_app <$> s_bindings s) as Hnew.
  { intros (b & Hb & Hbin)%list_elem_of_fmap. apply not_true_iff_false in Hex. apply Hex, existsb_exists. exists b.
    rewrite <-list_elem_of_In. split; [done|]. by apply bool_decide_eq_true. }
  eapply (stored_update _ s); [done|done|by destruct c| |].
  - eapply (share_ok_frame (s <| s_bindings ::= λ l, sort_bindings (l ++ [binding]) |>)); [destruct c; by repeat split|].
    split; cbn; [| | | |done].
    + rewrite Hp, length_app. cbn. lia.
    + rewrite Hp, fmap_app. apply NoDup_app. split; [done|]. split; [|apply NoDup_singleton].
      by intros a Ha ->%list_elem_of_singleton.
    + intros b. rewrite Hp. intros [Hb| ->%list_elem_of_singleton]%elem_of_app; auto.
    + rewrite Hp. apply elem_of_app. by left.
  - intros t b d Ht Hne Hb Hnb. assert (b = binding) as ->; [|by apply (fresh_binding st share_id)].
    assert (b ∈ s_bindings s ++ [binding]) as Hb' by (rewrite <-Hp; by destruct c).
    apply elem_of_app in Hb' as [?| ->%list_elem_of_singleton]; done.
Qed.
Lemma reprimed_same removed s : s_id (reprimed removed s) = s_id s ∧ s_bindings (reprimed removed s) = s_bindings s ∧
  s_status (reprimed removed s) = s_status s.
Proof. unfold reprimed. by repeat case_match. Qed.
Lemma reprimed_primary removed s : s_bindings s ≠ [] →
  (s_app s ≠ sb_app removed → mk_binding (s_app s) (s_provider_id s) (s_provider_type s) ∈ s_bindings s) →
  mk_binding (s_app (reprimed removed s)) (s_provider_id (reprimed removed s)) (s_provider_type (reprimed removed s)) ∈ s_bindings s.
Proof.
  intros Hne Hp. unfold reprimed. case_bool_decide as Ha; [|auto]. destruct (s_bindings s) as [|[] ?] eqn:E; [done|]. cbn. by left.
Qed.
Lemma remove_ok now share_id app provider_id st : store_ok st → store_ok (remove_binding now share_id app provider_id st).1.
Proof.
  intros Hok. unfold remove_binding. destruct (get_share share_id st) as [s|] eqn:Hs; [|done].
  destruct (length (s_bindings s) <=? 1)%nat eqn:Hl; [done|]. apply Nat.leb_gt in Hl.
  set (this := λ b, bool_decide (sb_app b = app) && str_eqb (sb_provider_id b) provider_id).
  destruct (List.find this (s_bindings s)) as [removed|] eqn:Hf; [|done]. cbn [fst].
  set (s0 := s <| s_bindings ::= remove_first this |>).
  destruct (get_share_elem _ _ _ Hs) as [Hin Hi]. pose proof (st_shares _ (st_shape _ Hok) s Hin) as [Hcount Happs Hnames Hprim Hlive].
  pose proof (remove_first_length this _ _ Hf) as Hlen. destruct (reprimed_same removed s0) as (Hri & Hrb & Hrs).
  eapply (stored_update _ s); [done|done|exact Hri| |].
  - eapply (share_ok_frame (reprimed removed s0)); [by repeat split|].
    split; rewrite ?Hrb, ?Hrs; cbn.
    + lia.
    + eapply sublist_NoDup; [exact Happs|]. apply fmap_sublist, remove_first_sublist.
    + intros b Hb%remove_first_elem. auto.
    + apply (reprimed_primary removed s0).
      * cbn. intros E. rewrite E in Hlen. cbn in Hlen. lia.
      * intros Hne. apply (remove_first_other _ _ _ _ Hf); [done|]. intros Heq. apply Hne. by rewrite <-Heq.
    + done.
  - intros t b d _ _ Hb Hnb. exfalso. apply Hnb. change (b ∈ s_bindings (reprimed removed s0)) in Hb.
    rewrite Hrb in Hb. exact (remove_first_elem _ _ _ Hb).
Qed.

(** ** Whole shares *)
Lemma normalized_input_ok i i' : validate_and_normalize_upsert_input i = Ok i' →
  (1 ≤ length (in_bindings i') ≤ 3)%nat ∧ NoDup (sb_app <$> in_bindings i') ∧
  (∀ b, b ∈ in_bindings i' → trim (sb_provider_id b) ≠ "") ∧
  mk_binding (in_app i') (in_provider_id i') (in_provider_type i') ∈ in_bindings i' ∧ in_status i' = in_status i.
Proof.
  unfold validate_and_normalize_upsert_input. intros Hv. apply bind_Ok in Hv as (? & _ & Hv). apply bind_Ok in Hv as (? & _ & Hv).
  apply bind_Ok in Hv as ([] & Hb & Hv). apply bind_Ok in Hv as (b & Hp & [= <-]). cbn.
  apply validate_bindings_Ok in Hb as (? & ? & ?). apply primary_binding_Ok in Hp. done.
Qed.
Lemma with_input_grants_frame display now i s s' : with_input_grants display now i s = Ok s' → same_frame s s'.
Proof.
  unfold with_input_grants. intros Hw. apply bind_Ok in Hw as (s1 & Hs1 & [= <-]).
  assert (same_frame s s1) as Hf.
  { case_bool_decide; [by injection Hs1 as <-|]. apply bind_Ok in Hs1 as (grants & _ & [= <-]). apply on_grants_frame. }
  etrans; [exact Hf|]. etrans; [apply (proj1 (reconcile_frame now s1))|]. by repeat split.
Qed.
Lemma put_cancelled s st : store_ok st → share_ok s → (∀ t, t ∈ shares st → s_id t ≠ s_id s → apart s t) →
  store_ok (put s (cancel_pending_router_delete (s_id s) st).1).
Proof. intros Hok Hs Ha. apply put_ok; [by apply retain_ok|done|apply cancelled_buried|done]. Qed.
Lemma upsert_ok display candidate generated_id now i c st : store_ok st → in_status i ≠ Some "deleted" →
  store_ok (upsert_with_capacity display candidate generated_id now i c st).1.
Proof.
  intros Hok Hstatus. unfold upsert_with_capacity.
  match goal with |- context [match ?r with Ok _ => _ | Err _ => _ end] => destruct r as [s|e] eqn:Hr end; [|done].
  change (store_ok (put s (cancel_pending_router_delete (s_id s) st).1)).
  apply bind_Ok in Hr as (i' & Hi & Hr). apply normalized_input_ok in Hi as (Hc & Ha & Hn & Hp & Hst).
  apply bind_Ok in Hr as (? & _ & Hr). apply bind_Ok in Hr as (? & Hconf & Hr). apply bind_Ok in Hr as (? & _ & Hr).
  set (existing_id := existing_id_of i' st) in *. destruct (provider_conflict _ _ _) eqn:Hnone in Hconf; [done|].
  apply with_input_grants_frame in Hr.
  match type of Hr with same_frame ?x _ => set (built := x) in * end.
  pose proof Hr as (Hid & Hbs & _). apply put_cancelled; [done| |].
  - eapply share_ok_frame; [exact Hr|]. split; cbn; [done..|]. rewrite Hst. by destruct (in_status i); cbn; [congruence|].
  - intros t Ht Hne b d Hb. rewrite Hbs in Hb. eapply no_conflict; [exact Hnone|done| |by apply so_live, (st_shares _ (st_shape _ Hok))|done].
    apply bool_decide_eq_false. intros He. apply Hne. rewrite Hid. cbn. by rewrite He.
Qed.
Lemma others_of_In share_id st t : t ∈ shares st → s_id t ≠ share_id → t ∈ others_of share_id st.
Proof.
  intros Ht Hne. unfold others_of. induction (shares st) as [|x l IH]; [done|]. cbn.
  destruct (has_id share_id x) eqn:E; apply elem_of_cons in Ht as [->|Ht]; [|done|by left|right; auto].
  by apply has_id_true in E.
Qed.
Lemma replace_ok s st : store_ok st → s_status s ≠ "deleted" → store_ok (replace_configured_share s st).1.
Proof.
  intros Hok Hs. unfold replace_configured_share. destruct (validate_share_import s) as [u|e] eqn:Hv; [|done]. destruct u.
  apply validate_share_import_ok in Hv; [|done]. destruct (get_share (s_id s) st) as [current|] eqn:Hc; [|done].
  case_match; [done|]. destruct (existsb _ _) eqn:He; [done|]. case_match; [done|]. cbn [fst].
  rewrite (put_stored _ current); [|done|done]. apply put_cancelled; [done|done|].
  intros t Ht Hne. apply serves_none, not_true_iff_false. intros Hserves. apply not_true_iff_false in He. apply He, existsb_exists.
  exists t. split; [|done]. rewrite <-list_elem_of_In. apply elem_of_List_filter. split; [by apply others_of_In|].
  apply negb_true_iff. unfold deleted. by apply str_eqb_neq, so_live, (st_shares _ (st_shape _ Hok)).
Qed.
(** A fold of fallible steps: an invariant of the steps holds where the fold succeeds. *)
Lemma fold_left_Err {E A B} (f : result E A → B → result E A) l e : (∀ b, f (Err e) b = Err e) →
  fold_left f l (Err e) = Err e.
Proof. intros Hf. induction l as [|b l IH]; [done|]. cbn. by rewrite Hf. Qed.
Lemma import_step_shape s st n r : import_step (Ok (st, n)) s = Ok r → s_status s ≠ "deleted" → shape_ok st → shape_ok r.1.
Proof.
  intros Hi Hs Hshape. cbn [import_step mbind result_bind] in Hi. apply bind_Ok in Hi as ([] & Hv & Hi).
  apply bind_Ok in Hi as (? & _ & Hi). apply validate_share_import_ok in Hv; [|done].
  destruct (cancel_pending_router_delete (s_id s) st) as [st1 cancelled] eqn:Ec.
  set (s' := if cancelled then mark_share_config_pending s else s) in *.
  assert (same_frame s s') as Hf by (unfold s'; destruct cancelled; [apply mark_share_config_pending_frame|done]).
  pose proof Hf as (Hid & _). injection Hi as <-.
  change (shape_ok (put s' st1)). replace st1 with (cancel_pending_router_delete (s_id s) st).1 by by rewrite Ec.
  destruct Hshape as [Hids Hss Hb Ht]. apply put_shape.
  - split; cbn; [done|done| |].
    + intros t y [Htin _]%elem_of_List_filter. by apply Hb.
    + eapply sublist_NoDup; [exact Ht|]. apply fmap_sublist, filter_sublist.
  - by eapply share_ok_frame.
  - intros t Hin. rewrite Hid. by eapply cancelled_buried.
Qed.
Lemma import_fold_shape l st n r : fold_left import_step l (Ok (st, n)) = Ok r → Forall (λ s, s_status s ≠ "deleted") l →
  shape_ok st → shape_ok r.1.
Proof.
  intros Hl Hs. revert st n Hl. induction Hs as [|s l Hs _ IH]; intros st n Hl Hshape; [by injection Hl as <-|].
  cbn [fold_left] in Hl. destruct (import_step (Ok (st, n)) s) as [[st1 n1]|e] eqn:E.
  - eapply IH; [exact Hl|]. by apply (import_step_shape _ _ _ _ E).
  - by rewrite fold_left_Err in Hl.
Qed.
Lemma first_overlap_None before after : first_overlap before after = None →
  (∀ s, s ∈ before ++ after → s_status s ≠ "deleted") →
  ∀ s t, s ∈ after → t ∈ before ++ after → s ≠ t → apart s t.
Proof.
  revert before. induction after as [|x after IH]; intros before Hn Hlive s t Hs Ht Hne; [inversion Hs|].
  cbn [first_overlap] in Hn. destruct (_ && _) eqn:E; [done|]. apply elem_of_cons in Hs as [->|Hs].
  - apply serves_none, not_true_iff_false. intros Hserves. apply not_true_iff_false in E. apply E, andb_true_iff.
    assert (∀ s, s ∈ before ++ x :: after → negb (deleted s) = true) as Hd.
    { intros s Hs%Hlive. apply negb_true_iff. unfold deleted. by apply str_eqb_neq. }
    split; [apply Hd; set_solver|]. apply existsb_exists. exists t. rewrite <-list_elem_of_In, Hd by done.
    split; [set_solver|done].
  - apply (IH (before ++ [x])); [done| |done| |done].
    + intros y. rewrite <-app_assoc. apply Hlive.
    + by rewrite <-app_assoc.
Qed.
Lemma import_ok l st : store_ok st → Forall (λ s, s_status s ≠ "deleted") l → store_ok (import_shares l st).1.
Proof.
  intros Hok Hl. unfold import_shares. destruct (fold_left _ _ _) as [[candidate n]|e] eqn:Ef; [|done].
  destruct (first_overlap [] (shares candidate)) eqn:Eo; [done|]. cbn [fst].
  pose proof (import_fold_shape _ _ _ _ Ef Hl (st_shape _ Hok)) as Hshape. split; [done|].
  intros s t Hs Ht Hne. eapply first_overlap_None; [exact Eo| |done|done|congruence].
  intros x Hx. by apply so_live, (st_shares _ Hshape).
Qed.

(** ** Every run *)
Section runs.
Context `{Chrono}.
Variables (utc_now : Z) (display : ValueError → string).

Lemma reset_keeps (R : relation Share) `{!Reflexive R} now id st : (∀ s s', same_frame s s' → R s s') →
  keeps R st (reset_usage now id st).1.
Proof. intros Hr. apply keeps_on_share; [done|]. intros s. apply Hr. frames. Qed.
Lemma step_ok st op : op_ok op → store_ok st → store_ok (step utc_now display st op).
Proof.
  intros Hop Hok. destruct (mild op) eqn:Hm.
  - destruct (mild_keeps utc_now display same_frame (λ _ _, @proj1 _ _) st op Hm Hop) as [Hf Hp]; [|by eapply store_ok_frame].
    intros now id _. by apply reset_keeps.
  - destruct op; try done; cbn [step op_ok] in *.
    + by apply delete_ok.
    + by apply retain_ok.
    + by apply update_ok.
    + by apply add_ok.
    + by apply remove_ok.
    + by apply upsert_ok.
    + by apply import_ok.
    + by apply replace_ok.
Qed.


(** *** A share that has used up its tokens *)
(** The operations that may give a share tokens again. *)
Definition refills (op : store_op) : bool :=
  match op with OReset _ _ | OUpsert _ _ _ _ _ | OImport _ | OReplace _ => true | _ => false end.
Definition all_spent (share_id : string) (st : ShareStore) : Prop := ∀ s, s ∈ shares st → s_id s = share_id → spent s.
Lemma keeps_spent share_id st st' : keeps counts_grow st st' → all_spent share_id st → all_spent share_id st'.
Proof.
  intros [Hf _] Hs s' (i & Hi)%list_elem_of_lookup Hid. destruct (Forall2_lookup_r _ _ _ _ _ Hf Hi) as (s & Hsi & He & Hg).
  apply Hg, Hs; [by eapply list_elem_of_lookup_2|congruence].
Qed.
Lemma put_spent share_id id s s' st : get_share id st = Some s → counts_grow s s' → all_spent share_id st →
  all_spent share_id (on_share id (λ _, s') st).1.
Proof. intros Hs Hg. by apply keeps_spent, (keeps_put counts_grow _ s). Qed.
Lemma rebind_spent now id b c st share_id : all_spent share_id st →
  all_spent share_id (update_binding_inner now id b c st).1 ∧ all_spent share_id (add_binding_inner now id b c st).1.
Proof.
  intros Hs. unfold update_binding_inner, add_binding_inner. destruct (bool_decide _); [done|].
  destruct (get_share id st) as [s|] eqn:E; [|done].
  split; repeat (case_match; try done); cbn [fst]; (eapply put_spent; [done| |done]); split; by destruct c.
Qed.
Lemma step_spent share_id st op : op_ok op → refills op = false → all_spent share_id st →
  all_spent share_id (step utc_now display st op).
Proof.
  intros Hop Hr Hs. destruct (mild op) eqn:Hm.
  { eapply keeps_spent; [|done]. apply (mild_keeps utc_now display counts_grow (λ _ _, @proj2 _ _)); [done|done|]. by intros now id ->. }
  destruct op; try done; cbn [step].
  - unfold delete_with_router_target. case_match; cbn; intros s [Hin _]%elem_of_List_filter; by apply Hs.
  - by apply rebind_spent.
  - by apply rebind_spent.
  - unfold remove_binding. destruct (get_share _ st) as [s|] eqn:E; [|done]. case_match; [done|]. case_match; [|done].
    cbn [fst]. eapply put_spent; [done| |done]. unfold reprimed. split; repeat case_match; done.
Qed.
Lemma run_spent share_id st ops : Forall op_ok ops → Forall (λ op, refills op = false) ops → all_spent share_id st →
  all_spent share_id (run utc_now display st ops).
Proof.
  intros Hop. revert st. induction Hop; intros st Hr Hs; [done|]. apply Forall_cons in Hr as [Hr1 Hr2].
  cbn. apply IHHop; [done|]. by apply step_spent.
Qed.

Lemma admitted_below_limit id app email now st st' inv :
  validate_for_invocation utc_now id app email now st = Ok (st', Ok inv) →
  ∃ s, get_share id st = Some s ∧ ∀ limit, sp_token_limit (s_policy s) = Some limit → s_tokens_used s < limit.
Proof.
  unfold validate_for_invocation. destruct (get_share id st) as [s|]; [|done]. intros Hv. exists s. split; [done|].
  repeat (case_match; [done|]). destruct (from_option _ false (sp_token_limit _)) eqn:E; [done|].
  intros limit Hl. rewrite Hl in E. by apply Z.leb_gt.
Qed.

End runs.
