(* ===== verification/ShareWitness.v ===== *)
(** * The store of shares at concrete inputs *)
From S2P Require Import Prelude RustStr Json Providers ModelIdentity ValuePricing QuotaCycle.
From S2P Require Import TokenPeriod Gregorian UserUsage UserGrant MarketTrials MarketGrants Shares ShareGate.
From S2P Require Import ShareGateProofs ShareGrants ShareGrantsProofs ShareBindings ShareStoreProofs ShareInvariant.
From Stdlib Require Import ZArith Lia.

Local Open Scope Z_scope.

(** ** Two shares of one owner *)
Definition sample_display (_ : ValueError) : string := "invalid value quota".
Definition user_grant (email role : string) (manager : ShareGrantManager) : ShareUserGrant :=
  mk_grant email role true (mk_policy None (Some 50) None Lifetime None None []) None None user_usage_default None None
    None None None 1 1 None 1 manager None.
Definition sample_share (id provider : string) (app : AppKind) (limit : option Z) (used : Z) : Share :=
  mk_share
    (MarketTrials.mk_share id (Some "owner@example.com")
       {["owner@example.com" := user_grant "owner@example.com" "owner" Owner;
         "old@example.com" := user_grant "old@example.com" "shareto" Manual;
         "market@example.com" := user_grant "market@example.com" "shareto" RouterShareMarket]} ∅ ∅ ∅ 0 ∅)
    "" app provider PTClaudeOAuth None true "active" (Some id) (mk_share_policy limit None None false false false 60 true (mk_media false false false)) used 3 1 true
    None [mk_binding app provider PTClaudeOAuth] [] None None None None None None 1 1 0 None 0 None.
Definition sample_store : ShareStore :=
  mk_store [sample_share "one" "p1" Claude (Some 100) 100; sample_share "two" "p2" Codex None 7]
    [mk_tombstone "gone" "op" 1 None None None None] None Unknown None.
Lemma sample_store_ok : store_ok sample_store.
Proof.
  split; [split|]; cbn.
  - apply NoDup_cons. split; [|apply NoDup_singleton]. by intros ?%list_elem_of_singleton.
  - intros s [->| ->%list_elem_of_singleton]%elem_of_cons; split; cbn; try done; try lia; try apply NoDup_singleton.
    1,3: by intros b ->%list_elem_of_singleton. all: by left.
  - intros t s ->%list_elem_of_singleton [->| ->%list_elem_of_singleton]%elem_of_cons; done.
  - apply NoDup_singleton.
  - intros s t [->| ->%list_elem_of_singleton]%elem_of_cons [->| ->%list_elem_of_singleton]%elem_of_cons Hne; try done;
      by intros b c ->%list_elem_of_singleton ->%list_elem_of_singleton.
Qed.
(** Operations of many kinds, accepted and refused. *)
Definition sample_ops : list store_op :=
  [ OAddBinding 5 "two" (mk_binding Claude "p3" PTClaudeOAuth) None;
    OAddBinding 5 "two" (mk_binding Claude "p1" PTClaudeOAuth) None;
    OInvoke "one" Claude (Some "old@example.com") 10;
    ORecord 11 "two" (Some "old@example.com") 30 11 true;
    OProject "one" "fingerprint"; ODescriptor "one" 1 "fingerprint" 1 None (Ok 12);
    OPause "two"; OUpdateBinding 13 "two" (mk_binding Codex "p4" PTClaudeOAuth) (Some "pool");
    ORemoveBinding 14 "two" Codex "p4"; OResume "one"; OBindAll 15 "next@example.com"; ODelete "op2" 16 "two" None;
    OImport [sample_share "gone" "p5" Gemini None 0] ].
Example sample_run : (λ s, (s_id s, s_status s, s_tokens_used s, s_bindings s)) <$>
    shares (run 0 sample_display sample_store sample_ops)
  = [("one", "active", 100, [mk_binding Claude "p1" PTClaudeOAuth]); ("gone", "active", 0, [mk_binding Gemini "p5" PTClaudeOAuth])].
Proof. vm_compute. reflexivity. Qed.
Lemma store_sample_ops_ok : Forall op_ok sample_ops.
Proof. repeat constructor; cbn; try done; lia. Qed.

Lemma sample_spent : all_spent "one" sample_store.
Proof.
  intros s [->| ->%list_elem_of_singleton]%elem_of_cons Hid; [|done]. exists 100. cbn. unfold U64_MAX. split_and!; [done|lia|lia].
Qed.
Definition sample_resumes : list store_op := [OResume "one"; ORestore; OBindAll 15 "next@example.com"; OSync "one" 3 None (Ok 5)].

(** ** The grants of a share *)
Definition sample_incoming : gmap string ShareUserGrant :=
  {["New@Example.com" := user_grant "" "shareto" Manual]}.
Definition sample_patch : result SharePatchError (gmap string ShareUserGrant) :=
  normalize_user_grants sample_display 20 sample_incoming (s_grants (sample_share "one" "p1" Claude None 0))
    (Some "owner@example.com").
Definition sample_patched : gmap string ShareUserGrant := match sample_patch with Ok m => m | Err _ => ∅ end.
Example sample_patched_active : (λ g, (gr_active g, gr_role g)) <$> sample_patched
  = {["owner@example.com" := (true, "owner"); "old@example.com" := (false, "shareto");
      "market@example.com" := (true, "shareto"); "new@example.com" := (true, "shareto")]}.
Proof. vm_compute. reflexivity. Qed.
Lemma patch_grants_named_users_witness :
  ∃ e g, entry_email "New@Example.com" (user_grant "" "shareto" Manual) = Ok e ∧ sample_patched !! e = Some g ∧ gr_active g = true.
Proof.
  assert (sample_patch = Ok sample_patched) as Hp by (vm_compute; reflexivity).
  destruct (patch_grants_named_users sample_display 20 sample_incoming (s_grants (sample_share "one" "p1" Claude None 0))
    (Some "owner@example.com") sample_patched Hp) as (_ & _ & Hn).
  apply (Hn "New@Example.com"). reflexivity.
Defined.
Definition handed_over : Share :=
  (bind_share_to_client_owner 20 "next@example.com" (sample_share "one" "p1" Claude None 0)).2.
Lemma reconciled_share_has_one_owner_witness :
  ∃ g, s_grants (reconcile_user_grants 21 handed_over) !! "next@example.com" = Some g ∧ owns "next@example.com" g.
Proof.
  apply (reconciled_share_has_one_owner 21 handed_over "next@example.com"). vm_compute. reflexivity.
Defined.

(** ** Usage *)
Definition weekly_grant : ShareUserGrant :=
  user_grant "old@example.com" "shareto" Manual <| gr_policy := Gregorian.sample_policy |>
    <| gr_usage_rebase := Some (mk_rebase SevenDays (Some 60000) None None 40 0) |>.
Lemma weekly_usable : usable (gr_policy weekly_grant).
Proof.
  apply (validated_usable (λ _, "") _ 604860000); [reflexivity| |discriminate]. unfold is_i64, I64_MIN, I64_MAX. lia.
Qed.
(** A caller with a grant is admitted to the share that has tokens left, and not to the other. *)
Example sample_gate : (λ id, snd <$> validate_for_invocation 0 id (if str_eqb id "two" then Codex else Claude) (Some " OLD@example.com ") 20 sample_store)
    <$> ["two"; "one"]
  = [Ok (Ok (mk_invocation "two" "two" None (Some "old@example.com") None));
     Ok (Err (mk_rejection Exhausted "Share token quota has been exhausted. Reset usage or increase the token limit." true None))].
Proof. vm_compute. reflexivity. Qed.
