(* ===== verification/SseTransport.v ===== *)
(** * The decoder of server-sent events

    The incremental decoder every streamed response of an upstream passes through ([proxy/sse_transport.rs]). A byte is
    an [ascii]; an operation returns the decoder it leaves behind together with its result, since an error keeps what
    was written before it. The text of a UTF-8 error is left out. *)
From S2P Require Import Prelude RustStr.
From Stdlib Require Import ZArith Lia Ascii.

Local Open Scope Z_scope.

Definition LF : ascii := "010".
Definition CR : ascii := "013".
Definition NUL : ascii := "000".

(** ** Data *)
(** proxy/sse_transport.rs:4-12 [SseEvent] *)
Record SseEvent := mk_sse_event {
  se_event : option string;
  se_data : bytes;
  se_has_data : bool;
  se_id : option string;
  se_retry : option string;
  se_comment_lines : Z;
  se_unknown_fields : Z;
}.
(** proxy/sse_transport.rs:15-18 [SseDecodeError] *)
Inductive SseDecodeError : Type := InvalidUtf8 | EventTooLarge (limit : Z).
(** proxy/sse_transport.rs:34-44 [PendingSseEvent] *)
Record PendingSseEvent := mk_pending {
  pe_event : option string;
  pe_data : bytes;
  pe_has_data : bool;
  pe_id : option string;
  pe_retry : option string;
  pe_comment_lines : Z;
  pe_unknown_fields : Z;
  pe_saw_field : bool;
  pe_wire_bytes : Z;
}.
#[global] Instance pending_eta : Eta PendingSseEvent := λ e,
  mk_pending (pe_event e) (pe_data e) (pe_has_data e) (pe_id e) (pe_retry e) (pe_comment_lines e) (pe_unknown_fields e)
    (pe_saw_field e) (pe_wire_bytes e).
Definition no_event : PendingSseEvent := mk_pending None [] false None None 0 0 false 0.
(** proxy/sse_transport.rs:47-57 [into_event] *)
Definition into_event (e : PendingSseEvent) : option SseEvent :=
  if pe_saw_field e
  then Some (mk_sse_event (pe_event e) (pe_data e) (pe_has_data e) (pe_id e) (pe_retry e) (pe_comment_lines e) (pe_unknown_fields e))
  else None.
(** proxy/sse_transport.rs:67-72 [SseEventDecoder] *)
Record SseEventDecoder := mk_decoder {
  sd_pending : bytes;
  sd_event : PendingSseEvent;
  sd_max_pending_bytes : Z;
  sd_max_event_bytes : Z;
}.
#[global] Instance decoder_eta : Eta SseEventDecoder := λ d,
  mk_decoder (sd_pending d) (sd_event d) (sd_max_pending_bytes d) (sd_max_event_bytes d).
(** proxy/sse_transport.rs:79-87 [with_limits] *)
Definition with_limits (max_pending_bytes max_event_bytes : Z) : SseEventDecoder :=
  let max_pending_bytes := Z.max max_pending_bytes 1 in
  mk_decoder [] no_event max_pending_bytes (Z.max max_event_bytes max_pending_bytes).
(** proxy/sse_transport.rs:75-77 [new] *)
Definition sse_new (max_event_bytes : Z) : SseEventDecoder := with_limits max_event_bytes max_event_bytes.

(** ** Lines *)
(** proxy/sse_transport.rs:219-233 [next_line_boundary]: where the first line ends, and how long its ending is; a
    carriage return at the end of the buffer may be half of an ending *)
Fixpoint next_line_boundary (buffer : bytes) (finish : bool) : option (nat * nat) :=
  match buffer with
  | [] => None
  | b :: rest =>
      if decide (b = LF) then Some (0%nat, 1%nat)
      else if decide (b = CR) then
        match rest with
        | c :: _ => Some (0%nat, if decide (c = LF) then 2%nat else 1%nat)
        | [] => if finish then Some (0%nat, 1%nat) else None
        end
      else prod_map S id <$> next_line_boundary rest finish
  end.

(** ** One line *)
Notation bytes_of := String.list_ascii_of_string.
(** proxy/sse_transport.rs:206-216 [ensure_event_bounded] *)
Definition ensure_event_bounded (max_event_bytes : Z) (e : PendingSseEvent) : result SseDecodeError () :=
  if (pe_wire_bytes e <=? max_event_bytes) && (Z.of_nat (length (pe_data e)) <=? max_event_bytes) then Ok ()
  else Err (EventTooLarge max_event_bytes).
(** proxy/sse_transport.rs:189-193 [dispatch] *)
Definition dispatch (e : PendingSseEvent) : PendingSseEvent * list SseEvent :=
  (no_event, match into_event e with Some event => [event] | None => [] end).
(** proxy/sse_transport.rs:155-158 [process_line]: the field and the value of a line *)
Definition field_value (line : string) : string * string :=
  match split_once ":" line with
  | Some (field, value) => (field, default value (strip_prefix " " value))
  | None => (line, "")
  end.
(** proxy/sse_transport.rs:159-185 [process_line]: what a field does to the event *)
Definition take_field (field value : string) (e : PendingSseEvent) : PendingSseEvent :=
  if str_eqb field "event" then e <| pe_event := if is_empty value then None else Some value |>
  else if str_eqb field "data" then
    e <| pe_data ::= λ data, (if pe_has_data e then data ++ [LF] else data) ++ bytes_of value |> <| pe_has_data := true |>
  else if str_eqb field "id" then (if contains_char NUL value then e else e <| pe_id := Some value |>)
  else if str_eqb field "retry" then e <| pe_retry := if all_bytes is_ascii_digit value then Some value else None |>
  else e <| pe_unknown_fields ::= λ n, sat_usize (n + 1) |>.
(** proxy/sse_transport.rs:125-187 [process_line]: of the decoder it reads the bound on an event and writes the event;
    the second check is made in the case of a [data] field *)
Definition process_line (max_event_bytes : Z) (line : bytes) (delimiter_len : nat) (e : PendingSseEvent)
    : PendingSseEvent * result SseDecodeError (list SseEvent) :=
  match from_utf8 line with
  | None => (e, Err InvalidUtf8)
  | Some line =>
      if is_empty line then let '(e, events) := dispatch e in (e, Ok events) else
      let e := e <| pe_wire_bytes ::= λ n, sat_usize (sat_usize (n + str_len line) + Z.of_nat delimiter_len) |> in
      match ensure_event_bounded max_event_bytes e with
      | Err error => (e, Err error)
      | Ok _ =>
          let e := e <| pe_saw_field := true |> in
          if starts_with ":" line then (e <| pe_comment_lines ::= λ n, sat_usize (n + 1) |>, Ok []) else
          let '(field, value) := field_value line in
          let e := take_field field value e in
          (e, if str_eqb field "data" then _ ← ensure_event_bounded max_event_bytes e; Ok [] else Ok [])
      end
  end.

(** ** The decoder *)
(** proxy/sse_transport.rs:195-204 [ensure_pending_bounded] *)
Definition ensure_pending_bounded (d : SseEventDecoder) : result SseDecodeError () :=
  if sat_usize (pe_wire_bytes (sd_event d) + Z.of_nat (length (sd_pending d))) <=? sd_max_pending_bytes d then Ok ()
  else Err (EventTooLarge (sd_max_pending_bytes d)).
(** proxy/sse_transport.rs:102-108 [drain]: the loop over complete lines; each turn takes at least a byte, so a turn for
    each byte of the buffer is enough *)
Fixpoint drain_lines (fuel : nat) (finish : bool) (d : SseEventDecoder) : SseEventDecoder * result SseDecodeError (list SseEvent) :=
  match fuel, next_line_boundary (sd_pending d) finish with
  | S fuel, Some (line_end, delimiter_len) =>
      let line := take line_end (sd_pending d) in
      let '(e, taken) := process_line (sd_max_event_bytes d) line delimiter_len (sd_event d) in
      let d := d <| sd_pending ::= drop (line_end + delimiter_len) |> <| sd_event := e |> in
      match taken with
      | Err error => (d, Err error)
      | Ok events => let '(d, rest) := drain_lines fuel finish d in (d, (events ++.) <$> rest)
      end
  | _, _ => (d, Ok [])
  end.
(** proxy/sse_transport.rs:102-123 [drain] *)
Definition drain (finish : bool) (d : SseEventDecoder) : SseEventDecoder * result SseDecodeError (list SseEvent) :=
  match drain_lines (length (sd_pending d)) finish d with
  | (d, Err error) => (d, Err error)
  | (d, Ok events) =>
      if finish then
        let '(e, taken) := match sd_pending d with
                           | [] => (sd_event d, Ok [])
                           | line => process_line (sd_max_event_bytes d) line 1 (sd_event d)
                           end in
        let d := d <| sd_pending := [] |> <| sd_event := e |> in
        match taken with
        | Err error => (d, Err error)
        | Ok last => let '(e, rest) := dispatch (sd_event d) in (d <| sd_event := e |>, Ok (events ++ last ++ rest))
        end
      else (d, _ ← ensure_pending_bounded d; Ok events)
  end.
(** proxy/sse_transport.rs:89-92 [push] *)
Definition sse_push (chunk : bytes) (d : SseEventDecoder) : SseEventDecoder * result SseDecodeError (list SseEvent) :=
  drain false (d <| sd_pending ::= (.++ chunk) |>).
(** proxy/sse_transport.rs:94-96 [finish] *)
Definition sse_finish : SseEventDecoder → SseEventDecoder * result SseDecodeError (list SseEvent) := drain true.
(** proxy/sse_transport.rs:98-100 [retained_bytes] *)
Definition retained_bytes (d : SseEventDecoder) : Z := sat_usize (Z.of_nat (length (sd_pending d)) + pe_wire_bytes (sd_event d)).

(** A stream that arrives in chunks; the first error ends it. *)
Fixpoint sse_push_all (chunks : list bytes) (d : SseEventDecoder) : SseEventDecoder * result SseDecodeError (list SseEvent) :=
  match chunks with
  | [] => (d, Ok [])
  | chunk :: chunks =>
      match sse_push chunk d with
      | (d, Err error) => (d, Err error)
      | (d, Ok events) => let '(d, rest) := sse_push_all chunks d in (d, (events ++.) <$> rest)
      end
  end.
