(* ===== verification/SseProofs.v ===== *)
(** * The chunks of a stream of server-sent events

    However a stream is cut into chunks, the decoder reads the lines of the whole. *)
From S2P Require Import Prelude RustStr SseTransport.
From Stdlib Require Import ZArith Lia Ascii.

Local Open Scope Z_scope.

(** ** Boundaries *)
Lemma boundary_bounds buffer finish i k : next_line_boundary buffer finish = Some (i, k) → (i + k ≤ length buffer ∧ 1 ≤ k ≤ 2)%nat.
Proof.
  revert i k. induction buffer as [|b buffer IH]; intros i k; [done|]. cbn.
  repeat case_decide; [by intros [= <- <-]; cbn; lia| |].
  - destruct buffer as [|c buffer]; [destruct finish; [|done]|]; intros [= <- <-]; cbn; [lia|]. case_decide; lia.
  - intros ([j m] & Hb & [= -> ->])%fmap_Some. apply IH in Hb. cbn. lia.
Qed.
Lemma boundary_app buffer more i k : next_line_boundary buffer false = Some (i, k) → next_line_boundary (buffer ++ more) false = Some (i, k).
Proof.
  revert i k. induction buffer as [|b buffer IH]; intros i k; [done|]. cbn. repeat case_decide; [done|by destruct buffer|].
  intros ([j m] & Hb & [= -> ->])%fmap_Some. by rewrite (IH _ _ Hb).
Qed.

(** ** Chunks *)
Notation with_pending d p := (mk_decoder p (sd_event d) (sd_max_pending_bytes d) (sd_max_event_bytes d)).
Lemma drain_lines_fuel finish n m d : (length (sd_pending d) ≤ n)%nat → (length (sd_pending d) ≤ m)%nat →
  drain_lines n finish d = drain_lines m finish d.
Proof.
  revert m d. induction n as [|n IH]; intros m d Hn Hm; destruct m as [|m]; try done;
    cbn [drain_lines]; try (destruct (sd_pending d) as [|] eqn:E; [done|cbn in Hn, Hm; lia]).
  destruct (next_line_boundary (sd_pending d) finish) as [[i k]|] eqn:Hb; [|done]. apply boundary_bounds in Hb as [Hle Hk].
  destruct (process_line _ _ _ _) as [e [events|]]; [|done]. rewrite (IH m); [done| |]; cbn; rewrite length_drop; lia.
Qed.
Definition drain_all (finish : bool) (d : SseEventDecoder) := drain_lines (length (sd_pending d)) finish d.
Lemma drain_all_eq finish d : drain_all finish d =
  match next_line_boundary (sd_pending d) finish with
  | Some (i, k) =>
      let '(e, taken) := process_line (sd_max_event_bytes d) (take i (sd_pending d)) k (sd_event d) in
      let d' := mk_decoder (drop (i + k) (sd_pending d)) e (sd_max_pending_bytes d) (sd_max_event_bytes d) in
      match taken with
      | Err error => (d', Err error)
      | Ok events => let '(d2, rest) := drain_all finish d' in (d2, (events ++.) <$> rest)
      end
  | None => (d, Ok [])
  end.
Proof.
  unfold drain_all at 1. destruct (sd_pending d) as [|b p] eqn:E; [done|]. cbn [length drain_lines]. rewrite E.
  destruct (next_line_boundary (b :: p) finish) as [[i k]|] eqn:Hb; [|done]. apply boundary_bounds in Hb as [Hle Hk].
  destruct (process_line _ _ _ _) as [e [events|]]; cbn [update]; rewrite E; [|done].
  unfold drain_all. cbn [sd_pending].
  rewrite (drain_lines_fuel finish (length (drop (i + k) (b :: p))) (length p)); [done|done|]. cbn [sd_pending]. rewrite length_drop. cbn in *. lia.
Qed.
(** Induction on what is pending. *)
Lemma pending_ind (P : SseEventDecoder → Prop) :
  (∀ d, (∀ d', (length (sd_pending d') < length (sd_pending d))%nat → P d') → P d) → ∀ d, P d.
Proof.
  intros H d. remember (length (sd_pending d)) as n eqn:Hn. revert d Hn. induction n as [n IH] using lt_wf_ind.
  intros d ->. apply H. intros d' Hd'. by eapply IH.
Qed.
(** What the lines of a buffer do is what they do when more follows; then the rest is read on. *)
Lemma drain_all_app more d :
  drain_all false (with_pending d (sd_pending d ++ more)) =
  match drain_all false d with
  | (d1, Err error) => (with_pending d1 (sd_pending d1 ++ more), Err error)
  | (d1, Ok events) =>
      let '(d2, rest) := drain_all false (with_pending d1 (sd_pending d1 ++ more)) in (d2, (events ++.) <$> rest)
  end.
Proof.
  induction d as [d IH] using pending_ind. rewrite (drain_all_eq false d).
  destruct (next_line_boundary (sd_pending d) false) as [[i k]|] eqn:Hb.
  - pose proof (boundary_bounds _ _ _ _ Hb) as [Hle Hk]. rewrite drain_all_eq. cbn [sd_pending].
    rewrite (boundary_app _ more _ _ Hb). cbn [sd_event sd_max_event_bytes sd_max_pending_bytes]. rewrite take_app_le, drop_app_le by lia.
    destruct (process_line _ _ _ _) as [e [events|]]; [|done].
    pose proof (IH (mk_decoder (drop (i + k) (sd_pending d)) e (sd_max_pending_bytes d) (sd_max_event_bytes d))) as IH'.
    cbn [sd_pending sd_event sd_max_event_bytes sd_max_pending_bytes] in IH'. rewrite IH' by (rewrite length_drop; lia).
    destruct (drain_all false (mk_decoder (drop _ _) _ _ _)) as [d1 [more_events|]]; [|done].
    cbn [fmap result_fmap]. clear IH IH'. destruct (drain_all false _) as [d2 [last|]]; [|done]. cbn. by rewrite app_assoc.
  - destruct (drain_all false _) as [d2 [last|]]; done.
Qed.
(** A stream is idle between two chunks: every complete line was read. *)
Definition sse_idle (d : SseEventDecoder) : Prop :=
  next_line_boundary (sd_pending d) false = None ∧ ensure_pending_bounded d = Ok ().
Lemma drain_all_idle d d' events : drain_all false d = (d', Ok events) →
  next_line_boundary (sd_pending d') false = None ∧ sd_max_pending_bytes d' = sd_max_pending_bytes d
  ∧ sd_max_event_bytes d' = sd_max_event_bytes d.
Proof.
  revert events. induction d as [d IH] using pending_ind. intros events. rewrite drain_all_eq.
  destruct (next_line_boundary (sd_pending d) false) as [[i k]|] eqn:Hb; [|by intros [= <- _]].
  apply boundary_bounds in Hb as [Hle Hk]. destruct (process_line _ _ _ _) as [e [taken|]]; [|done].
  cbn zeta. set (d1 := mk_decoder _ _ _ _). specialize (IH d1). destruct (drain_all false d1) as [d2 [rest|]] eqn:Hd; cbn; [|by intros [=]].
  intros [= -> _]. apply (IH ltac:(cbn; rewrite length_drop; lia) rest eq_refl).
Qed.
Lemma push_eq chunk d : sse_push chunk d =
  match drain_all false (with_pending d (sd_pending d ++ chunk)) with
  | (d, Err error) => (d, Err error)
  | (d, Ok events) => (d, _ ← ensure_pending_bounded d; Ok events)
  end.
Proof. done. Qed.
Lemma push_idle chunk d d' events : sse_push chunk d = (d', Ok events) → sse_idle d' ∧
  sd_max_pending_bytes d' = sd_max_pending_bytes d ∧ sd_max_event_bytes d' = sd_max_event_bytes d.
Proof.
  rewrite push_eq. destruct (drain_all _ _) as [d1 [taken|]] eqn:Hd; [|done]. apply drain_all_idle in Hd as (Hb & Hp & He).
  destruct (ensure_pending_bounded d1) as [[]|] eqn:Hbound; [|done]. intros [= <- _]. by split.
Qed.
Lemma push_app a b d d1 events : sse_push a d = (d1, Ok events) →
  sse_push (a ++ b) d = let '(d2, rest) := sse_push b d1 in (d2, (events ++.) <$> rest).
Proof.
  rewrite !push_eq, app_assoc. pose proof (drain_all_app b (with_pending d (sd_pending d ++ a))) as Happ.
  cbn [sd_pending sd_event sd_max_event_bytes sd_max_pending_bytes] in Happ.
  rewrite Happ. destruct (drain_all false (with_pending d (sd_pending d ++ a))) as [d' [taken|]]; [|done].
  destruct (ensure_pending_bounded d'); [|done]. intros [= -> ->]. clear; destruct (drain_all false _) as [d2 [rest|]]; [|done].
  cbn. by destruct (ensure_pending_bounded d2).
Qed.
Lemma push_app_Err a b d error : (sse_push a d).2 = Err error →
  error = EventTooLarge (sd_max_pending_bytes d) ∨ (sse_push (a ++ b) d).2 = Err error.
Proof.
  rewrite !push_eq, app_assoc. pose proof (drain_all_app b (with_pending d (sd_pending d ++ a))) as Happ.
  cbn [sd_pending sd_event sd_max_event_bytes sd_max_pending_bytes] in Happ.
  rewrite Happ. destruct (drain_all false (with_pending d (sd_pending d ++ a))) as [d' [taken|]] eqn:Hd; [|by intros [= ->]; right].
  apply drain_all_idle in Hd as (_ & Hp & _). cbn in Hp. unfold ensure_pending_bounded. cbn [snd].
  destruct (_ <=? _); [done|]. intros [= <-]. left. by rewrite Hp.
Qed.

(** By induction on the chunks, each read on from an idle decoder. *)
Lemma chunks_agree chunks d : sse_idle d →
  (sse_push_all chunks d).2 = Err (EventTooLarge (sd_max_pending_bytes d)) ∨
  (sse_push_all chunks d).2 = (sse_push (concat chunks) d).2 ∧
  (∀ events, (sse_push_all chunks d).2 = Ok events → sse_push_all chunks d = sse_push (concat chunks) d).
Proof.
  revert d. induction chunks as [|chunk chunks IH]; intros d Hidle.
  - right. cbn. rewrite push_eq, app_nil_r. assert (with_pending d (sd_pending d) = d) as -> by by destruct d.
    destruct Hidle as [Hb Hp]. rewrite drain_all_eq, Hb, Hp. done.
  - cbn [sse_push_all concat]. destruct (sse_push chunk d) as [d1 [events|error]] eqn:Hpush.
    + destruct (push_idle _ _ _ _ Hpush) as (Hidle1 & Hp & _). rewrite (push_app _ (concat chunks) _ _ _ Hpush).
      destruct (IH d1 Hidle1) as [He|[He Hs]]; [left|right].
      * destruct (sse_push_all chunks d1) as [d2 r]. cbn in *. rewrite He, Hp. done.
      * destruct (sse_push_all chunks d1) as [d2 [rest|]] eqn:Hall, (sse_push (concat chunks) d1) as [d3 [rest'|]]; cbn in *; try done.
        specialize (Hs rest eq_refl). by simplify_eq.
    + pose proof (push_app_Err chunk (concat chunks) d error) as Herr. rewrite Hpush in Herr.
      destruct (Herr eq_refl) as [->|He]; [by left|right]. by rewrite He.
Qed.

(** C33: the chunks of a stream do not matter: reading them one after the other gives the events of reading the whole at
    once, the same error if there is one, and the same decoder afterwards, which keeps no more than its bound, except that a
    chunk may end where what is pending exceeds that bound. *)
Theorem sse_chunks_do_not_matter chunks d : sse_idle d →
  (sse_push_all chunks d).2 = Err (EventTooLarge (sd_max_pending_bytes d)) ∨
  (sse_push_all chunks d).2 = (sse_push (concat chunks) d).2 ∧
  (∀ events, (sse_push_all chunks d).2 = Ok events →
     sse_push_all chunks d = sse_push (concat chunks) d ∧ retained_bytes (sse_push_all chunks d).1 ≤ sd_max_pending_bytes d).
Proof.
  intros Hidle. destruct (chunks_agree chunks d Hidle) as [He|[Hr Hs]]; [by left|right]. split; [done|].
  intros events Hev. split; [by eapply Hs|]. pose proof (Hs events Hev) as ->.
  destruct (sse_push (concat chunks) d) as [d1 [rest|]] eqn:Hpush; [|cbn in Hr; congruence].
  destruct (push_idle _ _ _ _ Hpush) as ([_ Hb] & Hp & _). unfold ensure_pending_bounded in Hb. rewrite Hp in Hb.
  unfold retained_bytes. cbn [fst]. rewrite Z.add_comm. by destruct (Z.leb_spec (sat_usize (pe_wire_bytes (sd_event d1) + Z.of_nat (length (sd_pending d1)))) (sd_max_pending_bytes d)).
Qed.
