(* ===== verification/SseReference.v ===== *)
(** * What the decoder of server-sent events reads

    The reference splits a stream into lines and the lines into events, and reads each event at once; the decoder,
    which goes through the chunks of the stream and keeps one event half read, gives the same. *)
From S2P Require Import Prelude RustStr SseTransport SseProofs.
From Stdlib Require Import ZArith Lia Ascii.

Local Open Scope Z_scope.

(** ** The reference *)
(** Lines end with LF, CR or both; what follows the last ending is a line unless it is empty. *)
Fixpoint sse_lines (l : bytes) : list bytes :=
  match l with
  | [] => []
  | b :: l =>
      if decide (b = LF) then [] :: sse_lines l
      else if decide (b = CR) then
        [] :: match l with c :: l' => if decide (c = LF) then sse_lines l' else sse_lines l | [] => [] end
      else match sse_lines l with [] => [[b]] | line :: lines => (b :: line) :: lines end
  end.
Definition is_comment (line : string) : bool := starts_with ":" line.
Definition known_field (field : string) : bool := one_of ["event"; "data"; "id"; "retry"] field.
(** The fields of an event, in order. *)
Definition fields_of (block : list string) : list (string * string) := field_value <$> List.filter (λ l, negb (is_comment l)) block.
Definition values_of (field : string) (block : list string) : list string :=
  (List.filter (λ fv, str_eqb fv.1 field) (fields_of block)).*2.
Fixpoint join_lf (l : list string) : bytes :=
  match l with [] => [] | [s] => bytes_of s | s :: l => bytes_of s ++ LF :: join_lf l end.
Definition block_event (block : list string) : SseEvent := {|
  se_event := last (values_of "event" block) ≫= λ v, if is_empty v then None else Some v;
  se_data := join_lf (values_of "data" block);
  se_has_data := bool_decide (values_of "data" block ≠ []);
  se_id := last (List.filter (λ v, negb (contains_char NUL v)) (values_of "id" block));
  se_retry := last (values_of "retry" block) ≫= λ v, if all_bytes is_ascii_digit v then Some v else None;
  se_comment_lines := Z.of_nat (length (List.filter is_comment block));
  se_unknown_fields := Z.of_nat (length (List.filter (λ fv, negb (known_field fv.1)) (fields_of block)))
|}.
Definition flushed (block : list string) : list SseEvent := match block with [] => [] | _ => [block_event block] end.
Fixpoint events_of (block : list string) (lines : list bytes) : result SseDecodeError (list SseEvent) :=
  match lines with
  | [] => Ok (flushed block)
  | line :: lines =>
      match from_utf8 line with
      | None => Err InvalidUtf8
      | Some s => if is_empty s then (flushed block ++.) <$> events_of [] lines else events_of (block ++ [s]) lines
      end
  end.
Definition sse_reference (input : bytes) : result SseDecodeError (list SseEvent) := events_of [] (sse_lines input).

Lemma boundary_final buffer i k : next_line_boundary buffer false = Some (i, k) → next_line_boundary buffer true = Some (i, k).
Proof.
  revert i k. induction buffer as [|b buffer IH]; intros i k; [done|]. cbn. repeat case_decide; [done|by destruct buffer|].
  intros ([j m] & Hb & [= -> ->])%fmap_Some. by rewrite (IH _ _ Hb).
Qed.
Lemma lines_at_boundary buffer : sse_lines buffer =
  match next_line_boundary buffer true with
  | Some (i, k) => take i buffer :: sse_lines (drop (i + k) buffer)
  | None => match buffer with [] => [] | _ => [buffer] end
  end.
Proof.
  induction buffer as [|b buffer IH]; [done|]. cbn. repeat case_decide; [done|by destruct buffer; [|case_decide]|].
  rewrite IH. destruct (next_line_boundary buffer true) as [[i k]|]; [done|]. by destruct buffer.
Qed.

(** ** One line *)
Definition state_of (block : list string) (wire : Z) : PendingSseEvent :=
  let e := block_event block in
  mk_pending (se_event e) (se_data e) (se_has_data e) (se_id e) (se_retry e) (se_comment_lines e) (se_unknown_fields e)
    (bool_decide (block ≠ [])) wire.
Lemma filter_snoc {A} (p : A → bool) l x : List.filter p (l ++ [x]) = List.filter p l ++ (if p x then [x] else []).
Proof. by rewrite List.filter_app. Qed.
Lemma fields_of_snoc block l : fields_of (block ++ [l]) = fields_of block ++ (if is_comment l then [] else [field_value l]).
Proof. unfold fields_of. rewrite filter_snoc, fmap_app. by destruct (is_comment l). Qed.
Lemma values_of_snoc field block l : values_of field (block ++ [l]) =
  values_of field block ++ (if is_comment l then [] else if str_eqb (field_value l).1 field then [(field_value l).2] else []).
Proof.
  unfold values_of. rewrite fields_of_snoc. destruct (is_comment l); [by rewrite !app_nil_r|].
  rewrite filter_snoc, fmap_app. by destruct (str_eqb _ _).
Qed.
Lemma join_lf_snoc l s : join_lf (l ++ [s]) = (if bool_decide (l ≠ []) then join_lf l ++ [LF] else join_lf l) ++ bytes_of s.
Proof.
  induction l as [|x l IH]; [done|]. destruct l as [|y l]; [cbn; by rewrite <-app_assoc|].
  cbn [app join_lf] in *. rewrite IH. cbn. by rewrite <-!app_assoc.
Qed.
Lemma known_field_cases field : known_field field =
  str_eqb field "event" || str_eqb field "data" || str_eqb field "id" || str_eqb field "retry".
Proof. unfold known_field, one_of. cbn. by rewrite orb_false_r, !orb_assoc. Qed.
Lemma fields_length block : (length (fields_of block) ≤ length block)%nat.
Proof. unfold fields_of. rewrite length_fmap. apply List.filter_length_le. Qed.
(** What a line does to the state of a block. *)
Definition take_line (l : string) (e : PendingSseEvent) : PendingSseEvent :=
  if is_comment l then e <| pe_comment_lines ::= λ n, sat_usize (n + 1) |> else take_field (field_value l).1 (field_value l).2 e.
Lemma take_line_state block wire wire' l : Z.of_nat (length block) < USIZE_MAX →
  take_line l (state_of block wire <| pe_wire_bytes := wire' |> <| pe_saw_field := true |>) = state_of (block ++ [l]) wire'.
Proof.
  intros Hlen. assert (∀ n : nat, (n ≤ length block)%nat → sat_usize (Z.of_nat n + 1) = Z.of_nat n + 1) as Hsat.
  { intros n Hn. apply saturate_in. lia. }
  pose proof (List.filter_length_le is_comment block) as Hcl.
  pose proof (fields_length block) as Hfl.
  pose proof (List.filter_length_le (λ fv, negb (known_field fv.1)) (fields_of block)) as Hul.
  unfold take_line, state_of, block_event. rewrite !values_of_snoc, filter_snoc, fields_of_snoc, !length_app.
  rewrite (bool_decide_eq_true_2 (block ++ [l] ≠ [])) by (by destruct block).
  destruct (is_comment l) eqn:Hc; cbn -[sat_usize Z.of_nat known_field].
  - rewrite !app_nil_r, Hsat by done. cbn. by rewrite Nat2Z.inj_add.
  - destruct (field_value l) as [f v]. cbn [fst snd]. rewrite ?app_nil_r, ?Nat.add_0_r, filter_snoc, length_app. cbn [fst]. rewrite known_field_cases.
    unfold take_field. destruct (str_eqb f "event") eqn:E1; [apply str_eqb_eq in E1 as ->|destruct (str_eqb f "data") eqn:E2;
      [apply str_eqb_eq in E2 as ->|destruct (str_eqb f "id") eqn:E3; [apply str_eqb_eq in E3 as ->|
       destruct (str_eqb f "retry") eqn:E4; [apply str_eqb_eq in E4 as ->|]]]];
      cbn -[sat_usize known_field Z.of_nat]; rewrite ?app_nil_r, ?last_snoc, ?Nat.add_0_r; try done.
    + f_equal; [by rewrite join_lf_snoc|symmetry; apply bool_decide_eq_true_2; by destruct (values_of "data" block)].
    + rewrite filter_snoc. destruct (contains_char NUL v); cbn; [by rewrite app_nil_r|by rewrite last_snoc].
    + rewrite Hsat by lia. by rewrite Nat2Z.inj_add.
Qed.

(** ** Sizes *)
(** What a block takes of the wire, at the least. *)
Definition block_bytes (block : list string) : Z := foldr (λ l n, str_len l + 1 + n) 0 block.
Lemma block_bytes_snoc block l : block_bytes (block ++ [l]) = block_bytes block + str_len l + 1.
Proof. induction block as [|x block IH]; [unfold block_bytes; cbn [foldr app]; lia|]. unfold block_bytes in *. cbn [foldr app]. lia. Qed.
Lemma block_bytes_length block : Z.of_nat (length block) ≤ block_bytes block.
Proof. induction block as [|x block IH]; [done|]. unfold block_bytes, str_len in *. cbn [foldr length]. lia. Qed.
Lemma bytes_of_length s : Z.of_nat (length (bytes_of s)) = str_len s.
Proof. unfold str_len. induction s as [|c s IH]; cbn in *; lia. Qed.
Lemma field_value_length l : str_len (field_value l).2 ≤ str_len l.
Proof.
  unfold field_value. destruct (split_once ":" l) as [[f v]|] eqn:Hs; [|unfold str_len; cbn; lia].
  apply split_once_app in Hs as ->.
  rewrite !str_len_app. pose proof (str_len_nonneg f). change (str_len ":") with 1.
  destruct (strip_prefix " " v) as [w|] eqn:Hw; cbn [default from_option id snd]; [|lia]. apply strip_prefix_Some in Hw as ->.
  rewrite str_len_app. change (str_len " ") with 1. lia.
Qed.
Lemma data_bytes block : Z.of_nat (length (join_lf (values_of "data" block))) ≤ block_bytes block.
Proof.
  induction block as [|l block IH] using rev_ind; [done|]. rewrite values_of_snoc, block_bytes_snoc.
  pose proof (field_value_length l). destruct (is_comment l); [rewrite app_nil_r; unfold str_len in *; lia|].
  case_match; [|rewrite app_nil_r; unfold str_len in *; lia]. rewrite join_lf_snoc, length_app.
  pose proof (bytes_of_length (field_value l).2). case_match; rewrite ?length_app; cbn [length]; lia.
Qed.
Lemma from_utf8_length line s : from_utf8 line = Some s → str_len s = Z.of_nat (length line).
Proof.
  unfold from_utf8. case_match; [|done]. intros [= <-]. rewrite <-bytes_of_length. by rewrite String.list_ascii_of_string_of_list_ascii.
Qed.

(** ** Reading lines *)
Lemma process_empty max line k block wire : from_utf8 line = Some "" →
  process_line max line k (state_of block wire) = (no_event, Ok (flushed block)).
Proof. intros Hs. unfold process_line. rewrite Hs. cbn. unfold into_event, state_of. cbn. by destruct block. Qed.
Lemma process_line_state max line k block wire s : from_utf8 line = Some s → is_empty s = false → (1 ≤ k)%nat →
  block_bytes block ≤ wire → wire + str_len s + Z.of_nat k ≤ max → max ≤ USIZE_MAX →
  process_line max line k (state_of block wire) = (state_of (block ++ [s]) (wire + str_len s + Z.of_nat k), Ok []).
Proof.
  intros Hs Hne Hk Hw Hmax Hsize. pose proof (block_bytes_length block) as Hlen. pose proof (data_bytes (block ++ [s])) as Hdata.
  pose proof (data_bytes block) as Hdata0. rewrite block_bytes_snoc in Hdata. assert (0 ≤ str_len s) by (unfold str_len; lia).
  assert (Z.of_nat (length block) < USIZE_MAX) as Hlt by lia.
  pose proof (take_line_state block wire (wire + str_len s + Z.of_nat k) s Hlt) as Htake.
  unfold process_line. rewrite Hs, Hne. change (pe_wire_bytes (state_of block wire)) with wire.
  assert (sat_usize (sat_usize (wire + str_len s) + Z.of_nat k) = wire + str_len s + Z.of_nat k) as Hsat.
  { unfold sat_usize. rewrite (saturate_in _ _ (wire + str_len s)) by lia. apply saturate_in. lia. }
  set (e1 := state_of block wire <| pe_wire_bytes := wire + str_len s + Z.of_nat k |>).
  assert (state_of block wire <| pe_wire_bytes ::= λ n, sat_usize (sat_usize (n + str_len s) + Z.of_nat k) |> = e1) as ->.
  { unfold e1. cbn [update state_of pe_wire_bytes]. by rewrite Hsat. }
  assert (ensure_event_bounded max e1 = Ok ()) as ->.
  { unfold ensure_event_bounded. change (pe_wire_bytes e1) with (wire + str_len s + Z.of_nat k).
    change (pe_data e1) with (join_lf (values_of "data" block)). by rewrite !(proj2 (Z.leb_le _ _)) by lia. }
  unfold take_line, is_comment in Htake. destruct (starts_with ":" s); [by rewrite <-Htake|].
  destruct (field_value s) as [f v]. cbn [fst snd] in Htake.
  change (e1 <| pe_saw_field := true |>) with (state_of block wire <| pe_wire_bytes := wire + str_len s + Z.of_nat k |> <| pe_saw_field := true |>).
  rewrite Htake. unfold ensure_event_bounded. cbn [state_of pe_wire_bytes pe_data block_event se_data].
  rewrite !(proj2 (Z.leb_le _ _)) by lia. by case_match.
Qed.
(** The block an event of the decoder stands for. *)
Definition reads (block : list string) (e : PendingSseEvent) : Prop := ∃ wire, e = state_of block wire ∧ block_bytes block ≤ wire.
Definition held (d : SseEventDecoder) : Z := pe_wire_bytes (sd_event d) + Z.of_nat (length (sd_pending d)).
Lemma reads_nothing : reads [] no_event.
Proof. by exists 0. Qed.
Lemma reads_nonneg block e : reads block e → 0 ≤ pe_wire_bytes e.
Proof. intros (wire & -> & Hw). cbn. pose proof (block_bytes_length block). lia. Qed.
(** One line, whatever it is. *)
Lemma process_line_reads max line k block e lines : (1 ≤ k)%nat → reads block e → max ≤ USIZE_MAX →
  pe_wire_bytes e + Z.of_nat (length line + k) ≤ max →
  match process_line max line k e with
  | (e1, Ok events) => ∃ block1, reads block1 e1 ∧ pe_wire_bytes e1 ≤ pe_wire_bytes e + Z.of_nat (length line + k) ∧
      events_of block (line :: lines) = (events ++.) <$> events_of block1 lines
  | (_, Err error) => error = InvalidUtf8 ∧ events_of block (line :: lines) = Err InvalidUtf8
  end.
Proof.
  intros Hk (wire & -> & Hw) Hsize Hmax. change (pe_wire_bytes (state_of block wire)) with wire in *.
  pose proof (block_bytes_length block) as Hlen. cbn [events_of].
  destruct (from_utf8 line) as [s|] eqn:Hs; [|unfold process_line; by rewrite Hs]. destruct (is_empty s) eqn:Hne.
  - assert (s = "") as -> by by destruct s. rewrite process_empty by done. exists []. split; [exact reads_nothing|]. cbn. split; [lia|done].
  - pose proof (from_utf8_length _ _ Hs) as Hl. rewrite (process_line_state max line k block wire s Hs Hne) by (done || lia). exists (block ++ [s]). split_and!.
    + exists (wire + str_len s + Z.of_nat k). split; [done|]. rewrite block_bytes_snoc. lia.
    + cbn. lia.
    + by destruct (events_of (block ++ [s]) lines).
Qed.
(** All complete lines of what is pending. *)
Lemma drain_all_reads finish block d : reads block (sd_event d) → sd_max_event_bytes d ≤ USIZE_MAX → held d ≤ sd_max_event_bytes d →
  match drain_all finish d with
  | (d1, Ok events) => ∃ block1, reads block1 (sd_event d1) ∧ held d1 ≤ held d ∧
      sd_max_event_bytes d1 = sd_max_event_bytes d ∧ next_line_boundary (sd_pending d1) finish = None ∧
      events_of block (sse_lines (sd_pending d)) = (events ++.) <$> events_of block1 (sse_lines (sd_pending d1))
  | (_, Err error) => error = InvalidUtf8 ∧ events_of block (sse_lines (sd_pending d)) = Err InvalidUtf8
  end.
Proof.
  revert block. induction d as [d IH] using pending_ind. intros block Hr Hsize Hheld. rewrite drain_all_eq.
  destruct (next_line_boundary (sd_pending d) finish) as [[i k]|] eqn:Hb.
  - pose proof (boundary_bounds _ _ _ _ Hb) as [Hle Hk].
    assert (next_line_boundary (sd_pending d) true = Some (i, k)) as Hb' by (destruct finish; [done|by apply boundary_final]).
    rewrite lines_at_boundary, Hb'. unfold held in Hheld.
    pose proof (process_line_reads (sd_max_event_bytes d) (take i (sd_pending d)) k block (sd_event d)
      (sse_lines (drop (i + k) (sd_pending d))) ltac:(lia) Hr Hsize) as Hp. rewrite length_take_le in Hp by lia. specialize (Hp ltac:(lia)).
    destruct (process_line _ _ _ _) as [e [taken|]]; [|done]. destruct Hp as (block1 & Hr1 & Hw1 & ->). cbn zeta.
    specialize (IH (mk_decoder (drop (i + k) (sd_pending d)) e (sd_max_pending_bytes d) (sd_max_event_bytes d))).
    unfold held in IH. cbn [sd_pending sd_event sd_max_event_bytes] in IH. rewrite length_drop in IH.
    specialize (IH ltac:(lia) block1 Hr1 Hsize ltac:(lia)).
    destruct (drain_all finish _) as [d1 [rest|]].
    + destruct IH as (block2 & Hr2 & Hh & Hm & Hnone & ->). exists block2. split_and!; [done|unfold held; lia|done|done|].
      destruct (events_of block2 _); cbn; [by rewrite app_assoc|done].
    + destruct IH as [-> ->]. done.
  - exists block. split_and!; [done|lia|done|done|]. by destruct (events_of block _).
Qed.

(** ** Whole streams *)
(** The events of a stream that arrives in chunks and ends. *)
Definition sse_decode (chunks : list bytes) (d : SseEventDecoder) : result SseDecodeError (list SseEvent) :=
  match sse_push_all chunks d with
  | (_, Err error) => Err error
  | (d, Ok events) => (events ++.) <$> (sse_finish d).2
  end.
Lemma pending_fits block d : reads block (sd_event d) → held d ≤ sd_max_pending_bytes d → sd_max_pending_bytes d ≤ USIZE_MAX →
  ensure_pending_bounded d = Ok ().
Proof.
  intros Hr Hh Hm. pose proof (reads_nonneg _ _ Hr). unfold ensure_pending_bounded, held in *. unfold sat_usize.
  rewrite saturate_in by lia. by rewrite (proj2 (Z.leb_le _ _)) by lia.
Qed.
Lemma push_reads chunk block d : reads block (sd_event d) → held d + Z.of_nat (length chunk) ≤ sd_max_pending_bytes d →
  sd_max_pending_bytes d ≤ sd_max_event_bytes d → sd_max_event_bytes d ≤ USIZE_MAX →
  match sse_push chunk d with
  | (d1, Ok events) => ∃ block1, reads block1 (sd_event d1) ∧ held d1 ≤ held d + Z.of_nat (length chunk) ∧
      sd_max_pending_bytes d1 = sd_max_pending_bytes d ∧ sd_max_event_bytes d1 = sd_max_event_bytes d ∧
      events_of block (sse_lines (sd_pending d ++ chunk)) = (events ++.) <$> events_of block1 (sse_lines (sd_pending d1))
  | (_, Err error) => error = InvalidUtf8 ∧ events_of block (sse_lines (sd_pending d ++ chunk)) = Err InvalidUtf8
  end.
Proof.
  intros Hr Hh Hle Hm. rewrite push_eq.
  pose proof (drain_all_reads false block (with_pending d (sd_pending d ++ chunk))) as Hd. unfold held in *.
  cbn [sd_pending sd_event sd_max_event_bytes] in Hd. rewrite length_app in Hd. specialize (Hd Hr Hm ltac:(lia)).
  destruct (drain_all false _) as [d1 [events|]] eqn:Hdrain; [|done]. apply drain_all_idle in Hdrain as (_ & Hp & _). cbn in Hp.
  destruct Hd as (block1 & Hr1 & Hh1 & Hme & _ & He). rewrite (pending_fits block1) by (done || unfold held; lia).
  exists block1. split_and!; [done|lia|done|done|done].
Qed.
Lemma chunks_fit chunks block d : reads block (sd_event d) → held d + Z.of_nat (length (concat chunks)) ≤ sd_max_pending_bytes d →
  sd_max_pending_bytes d ≤ sd_max_event_bytes d → sd_max_event_bytes d ≤ USIZE_MAX →
  (sse_push_all chunks d).2 ≠ Err (EventTooLarge (sd_max_pending_bytes d)).
Proof.
  revert block d. induction chunks as [|chunk chunks IH]; intros block d Hr Hh Hle Hm; [done|]. cbn [sse_push_all concat] in *.
  rewrite length_app in Hh. pose proof (push_reads chunk block d Hr ltac:(lia) Hle Hm) as Hp.
  destruct (sse_push chunk d) as [d1 [events|error]]; [|by destruct Hp as [-> _]].
  destruct Hp as (block1 & Hr1 & Hh1 & Hp1 & He1 & _). specialize (IH block1 d1 Hr1 ltac:(lia) ltac:(lia) ltac:(lia)).
  destruct (sse_push_all chunks d1) as [d2 [rest|error]]; [done|]. rewrite Hp1 in IH. exact IH.
Qed.
Lemma finish_reads block d : reads block (sd_event d) → sd_max_event_bytes d ≤ USIZE_MAX → held d + 1 ≤ sd_max_event_bytes d →
  (sse_finish d).2 = events_of block (sse_lines (sd_pending d)).
Proof.
  intros Hr Hm Hh. pose proof (drain_all_reads true block d Hr Hm ltac:(lia)) as Hd. unfold sse_finish, drain.
  change (drain_lines (length (sd_pending d)) true d) with (drain_all true d).
  destruct (drain_all true d) as [d1 [events|]]; [|by destruct Hd as [-> ->]].
  destruct Hd as (block1 & Hr1 & Hh1 & Hme & Hb & ->). rewrite lines_at_boundary, Hb.
  destruct (sd_pending d1) as [|b line] eqn:Hpend.
  - destruct Hr1 as (wire & -> & _). cbn. destruct block1; cbn; by rewrite ?app_nil_r.
  - rewrite Hme. unfold held in Hh1, Hh. rewrite Hpend in Hh1.
    pose proof (process_line_reads (sd_max_event_bytes d) (b :: line) 1 block1 (sd_event d1) [] ltac:(lia) Hr1 Hm ltac:(lia)) as Hp.
    destruct (process_line _ _ _ _) as [e [last|]]; [|by destruct Hp as [-> ->]].
    destruct Hp as (block2 & (wire & -> & _) & _ & ->). cbn. destruct block2; cbn; by rewrite ?app_nil_r.
Qed.

(** From a decoder that has read nothing. *)
Lemma fresh_decode chunks d : sd_event d = no_event → sd_pending d = [] →
  Z.of_nat (length (concat chunks)) < sd_max_pending_bytes d → sd_max_pending_bytes d ≤ sd_max_event_bytes d ≤ USIZE_MAX →
  sse_decode chunks d = sse_reference (concat chunks).
Proof.
  intros Hevent Hpend Hlen [Hle Hsize].
  assert (reads [] (sd_event d)) as Hr by (rewrite Hevent; exact reads_nothing).
  assert (held d = 0) as Hheld by (unfold held; by rewrite Hevent, Hpend).
  assert (sse_idle d) as Hidle by (split; [by rewrite Hpend|apply (pending_fits [] d Hr); lia]).
  pose proof (chunks_fit chunks [] d Hr ltac:(lia) ltac:(lia) ltac:(lia)) as Hfit.
  destruct (chunks_agree chunks d Hidle) as [|[Hres Heq]]; [done|].
  pose proof (push_reads (concat chunks) [] d Hr ltac:(lia) ltac:(lia) ltac:(lia)) as Hpush.
  rewrite Hpend in Hpush. cbn [app] in Hpush. unfold sse_decode, sse_reference.
  destruct (sse_push_all chunks d) as [d1 [events|error]].
  - cbn in Heq. specialize (Heq events eq_refl). rewrite <-Heq in Hpush.
    destruct Hpush as (block & Hr1 & Hh1 & _ & He1 & ->). by rewrite (finish_reads block d1) by (done || lia).
  - cbn in Hres. destruct (sse_push (concat chunks) d) as [d2 [|error']]; [done|]. injection Hres as ->. by destruct Hpush as [-> ->].
Qed.

(** C32: the decoder reads what the reference does: however a stream shorter than the bound on what may be pending is cut
    into chunks, reading them and then the end of the stream gives exactly the events of the reference applied to all of
    its bytes: the lines ended by LF, CR or CRLF, the events by an empty line, and of an event its last name, its data
    joined by LF, its last identifier without NUL, its last interval if that is a number, and how many comments and
    unknown fields there were; or an error, exactly if a line is not UTF-8. *)
Theorem sse_decoder_reads_reference max_pending max_event chunks :
  Z.of_nat (length (concat chunks)) < max_pending → Z.max max_event max_pending ≤ USIZE_MAX →
  sse_decode chunks (with_limits max_pending max_event) = sse_reference (concat chunks).
Proof. intros Hlen Hsize. apply fresh_decode; cbn; lia || done. Qed.

(** ** A sample *)
Notation crlf := (String CR (String LF "")).
Definition sample_stream : list string :=
  [": hello" +:+ String CR ""; String LF "event: delta" +:+ crlf +:+ "data: {" +:+ crlf; "data: ok}" +:+ crlf +:+ String CR "";
   String LF "retry: 1"].
Definition sample_chunks : list bytes := bytes_of <$> sample_stream.
Definition sample_events : list SseEvent :=
  [mk_sse_event (Some "delta") (bytes_of ("{" +:+ String LF "ok}")) true None None 1 0;
   mk_sse_event None [] false None (Some "1") 0 0].
Lemma sse_decoder_reads_reference_witness : Z.of_nat (length (concat sample_chunks)) < 100 ∧ Z.max 100 100 ≤ USIZE_MAX ∧
  sse_reference (concat sample_chunks) = Ok sample_events ∧ sse_decode sample_chunks (with_limits 100 100) = sse_reference (concat sample_chunks).
Proof.
  split; [by vm_compute|]. split; [by vm_compute|]. split; [by vm_compute|].
  apply (sse_decoder_reads_reference 100 100 sample_chunks); by vm_compute.
Defined.
(** An event of eight bytes and a bound of eight: the empty line that ends it is refused if its CRLF is cut in two, and
    accepted in one piece. *)
Definition tight_chunks : list bytes := [bytes_of ("data: 1" +:+ String LF (String CR "")); [LF]].
Lemma tight_idle : sse_idle (sse_new 8).
Proof. by vm_compute. Qed.
Lemma sse_chunks_do_not_matter_witness : sse_idle (sse_new 8) ∧
  (sse_push_all tight_chunks (sse_new 8)).2 = Err (EventTooLarge 8) ∧
  (sse_push (concat tight_chunks) (sse_new 8)).2 = Ok [mk_sse_event None (bytes_of "1") true None None 0 0] ∧
  ((sse_push_all tight_chunks (sse_new 8)).2 = Err (EventTooLarge 8) ∨
   (sse_push_all tight_chunks (sse_new 8)).2 = (sse_push (concat tight_chunks) (sse_new 8)).2).
Proof.
  split; [exact tight_idle|]. split; [by vm_compute|]. split; [by vm_compute|].
  destruct (sse_chunks_do_not_matter tight_chunks (sse_new 8) tight_idle) as [H|[H _]]; [left; exact H|right; exact H].
Defined.
