(* ===== verification/ResponsesTransport.v ===== *)
(** * The transport of Responses streams

    What an OpenAI Responses endpoint sends is server-sent events or plain JSON documents; this decoder finds out which,
    tells data from signs of life, and refuses the rest ([proxy/responses_transport.rs]). The JSON parser and printer are
    parameters. An error carries its kind and the message of the code, without the text of the error it quotes. *)
From S2P Require Import Prelude RustStr Json SseTransport.
From Stdlib Require Import ZArith Lia Ascii.

Local Open Scope Z_scope.

(** [u8::is_ascii_whitespace]. *)
Definition is_ascii_whitespace (c : ascii) : bool := bool_decide (c ∈ [" "%char; "009"%char; LF; "012"%char; CR]).

(** ** Data *)
(** proxy/responses_transport.rs:13-20 [ResponsesLivenessKind] *)
Inductive ResponsesLivenessKind : Type := LComment | LControl | LTextPing | LEventPing | LJsonPing | LSequencedKeepalive.
(** proxy/responses_transport.rs:36-43 [ResponsesTransportItem] *)
Inductive ResponsesTransportItem : Type :=
  | Json (declared_event : option string) (v : value)
  | Done
  | Liveness (kind : ResponsesLivenessKind).
(** proxy/responses_transport.rs:52-55 [ResponsesTransportErrorKind] *)
Inductive ResponsesTransportErrorKind : Type := Protocol | Capacity.
(** proxy/responses_transport.rs:46-49 [ResponsesTransportError] *)
Record ResponsesTransportError := mk_rt_error { re_kind : ResponsesTransportErrorKind; re_message : string }.
Definition protocol_error (message : string) : ResponsesTransportError := mk_rt_error Protocol message.
Definition capacity_error (message : string) : ResponsesTransportError := mk_rt_error Capacity message.
(** proxy/responses_transport.rs:72-74 [is_capacity] *)
Definition is_capacity (e : ResponsesTransportError) : bool := match re_kind e with Capacity => true | Protocol => false end.
(** proxy/responses_transport.rs:85-93 [from] *)
Definition from_sse_error (e : SseDecodeError) : ResponsesTransportError :=
  match e with
  | InvalidUtf8 => protocol_error "Responses SSE framing is invalid"
  | EventTooLarge _ => capacity_error "Responses SSE framing is invalid"
  end.
(** proxy/responses_transport.rs:96-100 [ResponsesTransportMode] *)
Inductive ResponsesTransportMode : Type := MUnknown | MSse | MJson.
(** proxy/responses_transport.rs:106-113 [ResponsesTransportDecoder] *)
Record ResponsesTransportDecoder := mk_transport {
  rt_mode : ResponsesTransportMode;
  rt_undecided : bytes;
  rt_sse : SseEventDecoder;
  rt_json : bytes;
  rt_max_pending_bytes : Z;
  rt_max_event_bytes : Z;
}.
#[global] Instance transport_eta : Eta ResponsesTransportDecoder := λ d,
  mk_transport (rt_mode d) (rt_undecided d) (rt_sse d) (rt_json d) (rt_max_pending_bytes d) (rt_max_event_bytes d).
(** proxy/responses_transport.rs:122-133 [new] *)
Definition transport_new (max_pending_bytes max_event_bytes : Z) : ResponsesTransportDecoder :=
  let max_pending_bytes := Z.max max_pending_bytes 1 in
  let max_event_bytes := Z.max max_event_bytes max_pending_bytes in
  mk_transport MUnknown [] (with_limits max_pending_bytes max_event_bytes) [] max_pending_bytes max_event_bytes.
(** proxy/responses_transport.rs:139-145 [retained_bytes] *)
Definition transport_retained_bytes (d : ResponsesTransportDecoder) : Z :=
  match rt_mode d with
  | MUnknown => Z.of_nat (length (rt_undecided d))
  | MSse => retained_bytes (rt_sse d)
  | MJson => Z.of_nat (length (rt_json d))
  end.

(** ** Prefixes of a buffer *)
(** proxy/responses_transport.rs:518-523 [trim_ascii_start] *)
Fixpoint trim_ascii_start (l : bytes) : bytes :=
  match l with b :: l' => if is_ascii_whitespace b then trim_ascii_start l' else l | [] => [] end.
(** proxy/responses_transport.rs:525-531 [trim_ascii_whitespace] *)
Definition trim_ascii_whitespace (l : bytes) : bytes := reverse (trim_ascii_start (reverse (trim_ascii_start l))).
(** [<[u8]>::starts_with], with what follows the prefix *)
Fixpoint after_prefix (p l : bytes) : option bytes :=
  match p, l with
  | [], _ => Some l
  | a :: p, b :: l => if decide (a = b) then after_prefix p l else None
  | _ :: _, [] => None
  end.
Definition has_prefix (p l : bytes) : bool := bool_decide (is_Some (after_prefix p l)).
(** proxy/responses_transport.rs:453-462 [starts_sse_field] *)
Definition starts_sse_field (l : bytes) : bool :=
  existsb (λ field, match after_prefix (bytes_of field) l with
                    | Some (b :: _) => bool_decide (b ∈ [":"%char; CR; LF])
                    | Some [] => true
                    | None => false
                    end) ["data"; "event"; "id"; "retry"].
Definition DONE : bytes := bytes_of "[DONE]".
(** proxy/responses_transport.rs:464-473 [done_token_prefix_len] *)
Definition done_token_prefix_len (l : bytes) : option nat :=
  match after_prefix DONE l with
  | Some (b :: _) => if is_ascii_whitespace b then Some (length DONE) else None
  | Some [] => Some (length DONE)
  | None => None
  end.
(** proxy/responses_transport.rs:506-508 [liveness_token] *)
Definition liveness_token (s : string) : bool := one_of ["ping"; "keepalive"] s.
(** proxy/responses_transport.rs:510-516 [valid_event_name] *)
Definition valid_event_name (s : string) : bool :=
  negb (is_empty s) && (str_len s <=? 256)
  && all_bytes (λ c, is_ascii_alphanumeric c || bool_decide (c ∈ ["."; "_"; "-"; ":"]%char)) s.
(** The part of a text that is not blank. *)
Definition nonblank (s : string) : option string := let s := trim s in if is_empty s then None else Some s.

(** The next document of [serde_json::Deserializer::into_iter], with the offset it ends at. *)
Inductive json_next : Type := JNone | JValue (v : value) (byte_offset : nat) | JEof | JInvalid.

Section transport.
(** [serde_json]: a document of all the bytes, the stream of documents of a slice, and the struct
    [JsonLivenessPayload]: exactly a [type] and optionally a [sequence_number] of 64 bits, each at most once. *)
Context (from_slice : bytes → option value) (stream_next : bytes → json_next)
  (liveness_payload : bytes → option (string * option Z)) (to_string : value → string).

(** ** Classification *)
(** proxy/responses_transport.rs:491-504 [json_liveness] *)
Definition json_liveness (v : value) (payload : bytes) : option ResponsesLivenessKind :=
  event_type ← get "type" v ≫= as_str;
  if liveness_token event_type then
    '(event_type, sequence_number) ← liveness_payload payload;
    match sequence_number with
    | None => if liveness_token event_type then Some LJsonPing else None
    | Some _ => if str_eqb event_type "keepalive" then Some LSequencedKeepalive else None
    end
  else None.
(** proxy/responses_transport.rs:371-384 [classify_sse_event]: a payload that is a sign of life by itself *)
Definition classify_ping (declared_event declared_liveness : option string) (payload : bytes)
    : result ResponsesTransportError ResponsesTransportItem :=
  if bool_decide (declared_event = None) || bool_decide (declared_liveness = from_utf8 payload)
  then Ok (Liveness (if bool_decide (is_Some declared_event) then LEventPing else LTextPing))
  else Err (protocol_error "Responses SSE liveness payload conflicted with its declared event").
(** proxy/responses_transport.rs:385-426 [classify_sse_event]: a payload that must be a JSON object *)
Definition classify_json (event declared_event declared_liveness : option string) (payload : bytes)
    : result ResponsesTransportError ResponsesTransportItem :=
  v ← ok_or (protocol_error "Responses SSE data is not valid JSON") (from_slice payload);
  _ ← fail_if (negb (is_object v)) (protocol_error "Responses SSE data must be a JSON object");
  let payload_event := (get "type" v ≫= as_str) ≫= nonblank in
  _ ← match declared_event, payload_event with
      | Some d, Some p => fail_if (negb (str_eqb d p)) (protocol_error "Responses SSE declared event conflicted with its JSON type")
      | _, _ => Ok ()
      end;
  match json_liveness v payload with
  | Some kind => Ok (Liveness (match kind with
                               | LSequencedKeepalive => kind
                               | _ => if bool_decide (is_Some declared_event) then LEventPing else kind
                               end))
  | None =>
      _ ← fail_if (bool_decide (is_Some declared_liveness))
            (protocol_error "Responses SSE liveness event contained a non-liveness payload");
      Ok (Json event v)
  end.
(** proxy/responses_transport.rs:326-427 [classify_sse_event] *)
Definition classify_sse_event (event : SseEvent) : result ResponsesTransportError ResponsesTransportItem :=
  _ ← fail_if (0 <? se_unknown_fields event) (protocol_error "Responses SSE event contained an unknown non-control field");
  let declared_event := se_event event ≫= nonblank in
  let declared_liveness := declared_event ≫= λ v, if liveness_token v then Some v else None in
  if negb (se_has_data event) then
    Ok (Liveness (if bool_decide (is_Some declared_liveness) then LEventPing
                  else if (0 <? se_comment_lines event) && bool_decide (se_event event = None) && bool_decide (se_id event = None)
                          && bool_decide (se_retry event = None)
                  then LComment else LControl)) else
  let payload := trim_ascii_whitespace (se_data event) in
  if bool_decide (payload = []) then
    Ok (Liveness (if bool_decide (is_Some declared_liveness) then LEventPing else LControl)) else
  if bool_decide (payload = DONE) then
    _ ← fail_if (bool_decide (is_Some declared_event)) (protocol_error "Responses SSE [DONE] sentinel must not declare an event");
    Ok Done
  else if bool_decide (payload ∈ [bytes_of "ping"; bytes_of "keepalive"]) then classify_ping declared_event declared_liveness payload
  else classify_json (se_event event) declared_event declared_liveness payload.
(** proxy/responses_transport.rs:320-324 [classify_sse_events] *)
Definition classify_sse_events (events : list SseEvent) : result ResponsesTransportError (list ResponsesTransportItem) :=
  try_fold (λ items event, item ← classify_sse_event event; Ok (items ++ [item])) [] events.

(** ** Encoding *)
(** proxy/responses_transport.rs:430-435 [encode_canonical_json_sse]: the name of the event *)
Definition canonical_event (declared_event : option string) (v : value) : option string :=
  or_else (get "type" v ≫= as_str) declared_event ≫= λ event,
  let event := trim event in if valid_event_name event then Some event else None.
(** proxy/responses_transport.rs:429-447 [encode_canonical_json_sse] *)
Definition encode_canonical_json_sse (declared_event : option string) (v : value) : bytes :=
  let head := match canonical_event declared_event v with Some event => "event: " +:+ event +:+ String LF "" | None => "" end in
  bytes_of (head +:+ "data: " +:+ to_string v +:+ String LF (String LF "")).
(** proxy/responses_transport.rs:449-451 [encode_canonical_done_sse] *)
Definition encode_canonical_done_sse : bytes := bytes_of ("data: [DONE]" +:+ String LF (String LF "")).

(** ** The decoder *)
(** proxy/responses_transport.rs:214-229 [detect_mode] *)
Definition detect_mode (finish : bool) (d : ResponsesTransportDecoder) : ResponsesTransportDecoder :=
  match trim_ascii_start (rt_undecided d) with
  | [] => d
  | b :: rest =>
      let trimmed := b :: rest in
      d <| rt_mode :=
        if bool_decide (b ∈ ["{"; "["]%char) then MJson
        else if bool_decide (b = ":"%char) then MSse
        else if starts_sse_field trimmed then MSse
        else if finish || bool_decide (LF ∈ trimmed) || bool_decide (CR ∈ trimmed) then MSse
        else MUnknown |>
  end.
(** proxy/responses_transport.rs:297-306 [ensure_undecided_bounded] *)
Definition ensure_undecided_bounded (d : ResponsesTransportDecoder) : result ResponsesTransportError () :=
  fail_if (negb (Z.of_nat (length (rt_undecided d)) <=? rt_max_pending_bytes d))
    (capacity_error "Responses undecided transport prefix exceeded the bytes allowed").
(** proxy/responses_transport.rs:308-317 [ensure_json_event_bounded] *)
Definition ensure_json_event_bounded (event_bytes : nat) (d : ResponsesTransportDecoder) : result ResponsesTransportError () :=
  fail_if (negb (Z.of_nat event_bytes <=? rt_max_event_bytes d)) (capacity_error "Responses JSON event exceeded the bytes allowed").
(** proxy/responses_transport.rs:236-287 [drain_json]: the loop; each turn takes at least a byte *)
Fixpoint drain_documents (fuel : nat) (finish : bool) (d : ResponsesTransportDecoder)
    : ResponsesTransportDecoder * result ResponsesTransportError (list ResponsesTransportItem) :=
  match fuel with
  | O => (d, Ok [])
  | S fuel =>
      let d := d <| rt_json ::= trim_ascii_start |> in
      let next (consumed : nat) (item : ResponsesTransportItem) :=
        let '(d, rest) := drain_documents fuel finish (d <| rt_json ::= drop consumed |>) in (d, (item ::.) <$> rest) in
      if bool_decide (rt_json d = []) then (d, Ok []) else
      match done_token_prefix_len (rt_json d) with
      | Some done_len => next done_len Done
      | None =>
          if negb finish && has_prefix (rt_json d) DONE then (d, Ok []) else
          match stream_next (rt_json d) with
          | JValue v consumed =>
              match ensure_json_event_bounded consumed d with
              | Err error => (d, Err error)
              | Ok _ =>
                  if negb (is_object v) then (d, Err (protocol_error "Responses JSON payload must be an object")) else
                  next consumed (match json_liveness v (take consumed (rt_json d)) with
                                 | Some kind => Liveness kind
                                 | None => Json None v
                                 end)
              end
          | JEof => if finish then (d, Err (protocol_error "Responses JSON data is not valid JSON")) else (d, Ok [])
          | JInvalid => (d, Err (protocol_error "Responses JSON data is not valid JSON"))
          | JNone => (d, Ok [])
          end
      end
  end.
(** proxy/responses_transport.rs:231-295 [drain_json] *)
Definition drain_json (finish : bool) (d : ResponsesTransportDecoder)
    : ResponsesTransportDecoder * result ResponsesTransportError (list ResponsesTransportItem) :=
  match drain_documents (S (length (rt_json d))) finish d with
  | (d, Err error) => (d, Err error)
  | (d, Ok items) =>
      (d, _ ← fail_if (negb finish && (rt_max_pending_bytes d <? Z.of_nat (length (rt_json d))))
                (capacity_error "Responses pending JSON event exceeded the bytes allowed");
          Ok items)
  end.
(** What the decoder makes of the events of a call of its decoder of events. *)
Definition classified (d : ResponsesTransportDecoder) (r : SseEventDecoder * result SseDecodeError (list SseEvent))
    : ResponsesTransportDecoder * result ResponsesTransportError (list ResponsesTransportItem) :=
  (d <| rt_sse := r.1 |>, match r.2 with Ok events => classify_sse_events events | Err e => Err (from_sse_error e) end).
(** proxy/responses_transport.rs:189-204 [push_decided] *)
Definition push_decided (chunk : bytes) (d : ResponsesTransportDecoder)
    : ResponsesTransportDecoder * result ResponsesTransportError (list ResponsesTransportItem) :=
  match rt_mode d with
  | MSse => classified d (sse_push chunk (rt_sse d))
  | MJson => drain_json false (d <| rt_json ::= (.++ chunk) |>)
  | MUnknown => (d, Ok [])
  end.
(** proxy/responses_transport.rs:206-212 [finish_decided] *)
Definition finish_decided (d : ResponsesTransportDecoder)
    : ResponsesTransportDecoder * result ResponsesTransportError (list ResponsesTransportItem) :=
  match rt_mode d with
  | MSse => classified d (sse_finish (rt_sse d))
  | MJson => drain_json true d
  | MUnknown => (d, Ok [])
  end.
(** proxy/responses_transport.rs:147-165 [push] *)
Definition transport_push (chunk : bytes) (d : ResponsesTransportDecoder)
    : ResponsesTransportDecoder * result ResponsesTransportError (list ResponsesTransportItem) :=
  if bool_decide (chunk = []) then (d, Ok []) else
  match rt_mode d with
  | MUnknown =>
      let d := detect_mode false (d <| rt_undecided ::= (.++ chunk) |>) in
      match rt_mode d with
      | MUnknown => (d, _ ← ensure_undecided_bounded d; Ok [])
      | _ => push_decided (rt_undecided d) (d <| rt_undecided := [] |>)
      end
  | _ => push_decided chunk d
  end.
(** proxy/responses_transport.rs:167-187 [finish] *)
Definition transport_finish (d : ResponsesTransportDecoder)
    : ResponsesTransportDecoder * result ResponsesTransportError (list ResponsesTransportItem) :=
  match rt_mode d with
  | MUnknown =>
      let d := detect_mode true d in
      match rt_mode d with
      | MUnknown =>
          if forallb is_ascii_whitespace (rt_undecided d) then (d <| rt_undecided := [] |>, Ok [])
          else (d, Err (protocol_error "Responses stream ended with an unrecognized payload"))
      | _ =>
          match push_decided (rt_undecided d) (d <| rt_undecided := [] |>) with
          | (d, Err error) => (d, Err error)
          | (d, Ok items) => let '(d, rest) := finish_decided d in (d, (items ++.) <$> rest)
          end
      end
  | _ => finish_decided d
  end.
End transport.
