(* ===== verification/ResponsesProofs.v ===== *)
(** * What the transport of Responses streams delivers

    A stream of events is classified event by event, however it is cut into chunks; what the encoder of this program
    wrote is read back; and nothing passes for a sign of life that is not on the list. *)
From S2P Require Import Prelude RustStr Json SerializedSize SseTransport SseProofs.
From S2P Require Import SseReference ResponsesTransport.
From Stdlib Require Import ZArith Lia Ascii.

Local Open Scope Z_scope.

Section transport.
Context (from_slice : bytes → option value) (stream_next : bytes → json_next)
  (liveness_payload : bytes → option (string * option Z)).
Notation classify := (classify_sse_event from_slice liveness_payload).
Notation classify_all := (classify_sse_events from_slice liveness_payload).
Notation push := (transport_push from_slice stream_next liveness_payload).
Notation finish := (transport_finish from_slice stream_next liveness_payload).

(** A stream that arrives in chunks and ends. *)
Fixpoint transport_decode (chunks : list bytes) (d : ResponsesTransportDecoder) : result ResponsesTransportError (list ResponsesTransportItem) :=
  match chunks with
  | [] => (finish d).2
  | chunk :: chunks =>
      match push chunk d with
      | (_, Err error) => Err error
      | (d, Ok items) => (items ++.) <$> transport_decode chunks d
      end
  end.

(** ** Classification of a list *)
Lemma classify_all_acc events acc :
  try_fold (λ items event, item ← classify event; Ok (items ++ [item])) acc events = (acc ++.) <$> classify_all events.
Proof.
  unfold classify_sse_events. revert acc. induction events as [|e events IH]; intros acc; cbn; [by rewrite app_nil_r|].
  destruct (classify e) as [item|]; cbn; [|done]. rewrite (IH (acc ++ [item])), (IH [item]).
  destruct (try_fold _ [] events); cbn; [by rewrite <-app_assoc|done].
Qed.
Lemma classify_all_app a b : classify_all (a ++ b) = ia ← classify_all a; (ia ++.) <$> classify_all b.
Proof.
  unfold classify_sse_events. rewrite try_fold_app. destruct (try_fold _ [] a) as [ia|]; cbn; [|done]. apply classify_all_acc.
Qed.
Lemma classify_all_cons e events : classify_all (e :: events) = item ← classify e; (item ::.) <$> classify_all events.
Proof. unfold classify_sse_events at 1. cbn. destruct (classify e); cbn; [apply classify_all_acc|done]. Qed.
Lemma classify_all_Forall2 events items : classify_all events = Ok items ↔ Forall2 (λ e i, classify e = Ok i) events items.
Proof.
  split.
  - revert items. induction events as [|e events IH]; intros items; [intros [= <-]; constructor|]. rewrite classify_all_cons.
    intros (i & He & (rest & Hr & ->)%fmap_Ok)%bind_Ok. constructor; [done|by apply IH].
  - induction 1 as [|e i events items He Hall IH]; [done|]. by rewrite classify_all_cons, He; cbn; rewrite IH.
Qed.

(** ** The mode *)
Lemma trim_start_app a b : trim_ascii_start (a ++ b) =
  match trim_ascii_start a with [] => trim_ascii_start b | t => t ++ b end.
Proof. induction a as [|x a IH]; [done|]. cbn. by destruct (is_ascii_whitespace x). Qed.
(** The first byte that is not blank opens no document. *)
Definition opens_events (input : bytes) : Prop :=
  match trim_ascii_start input with b :: _ => b ∉ ["{"; "["]%char | [] => False end.
Lemma detect_events finish d more : opens_events (rt_undecided d ++ more) → rt_mode d = MUnknown →
  rt_mode (detect_mode finish d) = MUnknown ∨ rt_mode (detect_mode finish d) = MSse.
Proof.
  unfold opens_events. rewrite trim_start_app. unfold detect_mode. destruct (trim_ascii_start (rt_undecided d)) as [|b rest].
  - intros _ Hm. by left.
  - cbn [app update rt_mode]. intros Hb _. rewrite bool_decide_eq_false_2 by done.
    destruct (bool_decide (b = _)); [auto|]. destruct (starts_sse_field (b :: rest)); [auto|]. destruct (finish || _ || _); auto.
Qed.
Lemma detect_events_end d : opens_events (rt_undecided d) → rt_mode (detect_mode true d) = MSse.
Proof.
  unfold opens_events, detect_mode. destruct (trim_ascii_start (rt_undecided d)) as [|b rest]; [done|].
  intros Hb. cbn [update rt_mode]. rewrite bool_decide_eq_false_2 by done. destruct (bool_decide (b = _)); [done|].
  by destruct (starts_sse_field (b :: rest)).
Qed.
Lemma detect_other finish d : detect_mode finish d = d <| rt_mode := rt_mode (detect_mode finish d) |>.
Proof. unfold detect_mode. by destruct (trim_ascii_start _), d. Qed.

(** ** Decided streams *)
Lemma decided_decode chunks d items : rt_mode d = MSse →
  transport_decode chunks d = Ok items ↔
  ∃ events, sse_decode (filter (.≠ []) chunks) (rt_sse d) = Ok events ∧ classify_all events = Ok items.
Proof.
  revert d items. induction chunks as [|chunk chunks IH]; intros d items Hm.
  - cbn [transport_decode]. unfold transport_finish, finish_decided, classified. rewrite Hm.
    unfold sse_decode. cbn. destruct (sse_finish (rt_sse d)) as [d1 [events|]]; cbn; naive_solver.
  - cbn [transport_decode]. unfold transport_push. rewrite filter_cons. case_bool_decide as Hc.
    + rewrite decide_False by naive_solver. rewrite <-(IH d items Hm). by destruct (transport_decode chunks d).
    + rewrite decide_True, Hm by done. unfold push_decided, classified. rewrite Hm. unfold sse_decode. cbn [sse_push_all].
      destruct (sse_push chunk (rt_sse d)) as [d1 [events|]]; cbn; [|naive_solver].
      destruct (classify_all events) as [first|] eqn:Hfirst.
      * rewrite fmap_Ok. setoid_rewrite IH; [|done]. cbn. unfold sse_decode.
        destruct (sse_push_all _ d1) as [d2 [more|]]; cbn; [|naive_solver].
        destruct (sse_finish d2).2 as [last|]; cbn; [|naive_solver]. split.
        -- intros (rest & (all & [= <-] & Hrest) & ->). eexists. split; [done|]. rewrite <-app_assoc, classify_all_app, Hfirst. cbn.
           by rewrite Hrest.
        -- intros (all & [= <-] & He). rewrite <-app_assoc, classify_all_app, Hfirst in He. cbn in He.
           apply fmap_Ok in He as (rest & Hrest & ->). eauto.
      * split; [done|]. intros (all & He & Hall). exfalso.
        destruct (sse_push_all _ d1) as [d2 [more|]]; cbn in He; [|done].
        destruct (sse_finish d2).2 as [last|]; cbn in He; [|done]. injection He as <-.
        by rewrite <-app_assoc, classify_all_app, Hfirst in Hall.
Qed.
Lemma concat_nonempty (chunks : list bytes) : concat (filter (.≠ []) chunks) = concat chunks.
Proof. induction chunks as [|c chunks IH]; [done|]. rewrite filter_cons. case_decide as Hc; cbn; rewrite IH; [done|]. by destruct c. Qed.
(** ** Undecided streams *)
Lemma undecided_fits d : Z.of_nat (length (rt_undecided d)) ≤ rt_max_pending_bytes d → ensure_undecided_bounded d = Ok ().
Proof. intros H. unfold ensure_undecided_bounded. by rewrite (proj2 (Z.leb_le _ _) H). Qed.
Lemma undecided_decode chunks d items : rt_mode d = MUnknown → opens_events (rt_undecided d ++ concat chunks) →
  Z.of_nat (length (rt_undecided d ++ concat chunks)) ≤ rt_max_pending_bytes d →
  ∃ chunks', concat chunks' = rt_undecided d ++ concat chunks ∧
    (transport_decode chunks d = Ok items ↔
     ∃ events, sse_decode chunks' (rt_sse d) = Ok events ∧ classify_all events = Ok items).
Proof.
  revert d. induction chunks as [|chunk chunks IH]; intros d Hm Hopen Hlen; cbn [concat] in *.
  - rewrite app_nil_r in *. exists [rt_undecided d]. cbn [concat]. rewrite app_nil_r. split; [done|].
    cbn [transport_decode]. unfold transport_finish. rewrite Hm, detect_other, detect_events_end by done.
    unfold push_decided, finish_decided, classified, sse_decode. cbn.
    destruct (sse_push (rt_undecided d) (rt_sse d)) as [d1 [first|]]; cbn; [|naive_solver].
    destruct (classify_all first) as [i1|] eqn:H1; cbn.
    + destruct (sse_finish d1).2 as [last|]; cbn; [|naive_solver]. rewrite app_nil_r. split.
      * intros (i2 & H2 & ->)%fmap_Ok. eexists. split; [done|]. by rewrite classify_all_app, H1; cbn; rewrite H2.
      * intros (all & [= <-] & Hall). rewrite classify_all_app, H1 in Hall. exact Hall.
    + split; [done|]. intros (all & Hall & Hc). exfalso. destruct (sse_finish d1).2 as [last|]; cbn in Hall; [|done].
      injection Hall as <-. by rewrite app_nil_r, classify_all_app, H1 in Hc.
  - cbn [transport_decode]. unfold transport_push. case_bool_decide as Hc.
    { subst chunk. cbn [app] in *. destruct (IH d Hm Hopen Hlen) as (chunks' & Hcat & Hiff). exists chunks'. split; [done|].
      rewrite <-Hiff. by destruct (transport_decode chunks d). }
    rewrite Hm. set (d0 := d <| rt_undecided ::= (.++ chunk) |>). rewrite detect_other.
    assert (opens_events (rt_undecided d0 ++ concat chunks)) as Hopen0 by (cbn; by rewrite <-app_assoc).
    destruct (detect_events false d0 (concat chunks) Hopen0 Hm) as [Hmode|Hmode]; rewrite Hmode; cbn [update rt_mode].
    + rewrite app_assoc in Hlen. rewrite undecided_fits by (cbn; rewrite !length_app in *; lia). cbn [mbind result_bind].
      destruct (IH (mk_transport MUnknown (rt_undecided d0) (rt_sse d0) (rt_json d0) (rt_max_pending_bytes d0) (rt_max_event_bytes d0)))
        as (chunks' & Hcat & Hiff); [done|done|exact Hlen|]. exists chunks'. split; [by rewrite app_assoc|].
      change (rt_sse d) with (rt_sse d0). rewrite <-Hiff. cbn. by destruct (transport_decode chunks _).
    + exists (filter (.≠ []) (rt_undecided d0 :: chunks)). split; [rewrite concat_nonempty; cbn; by rewrite app_assoc|].
      set (d1 := mk_transport MSse [] (rt_sse d0) (rt_json d0) (rt_max_pending_bytes d0) (rt_max_event_bytes d0)).
      change (rt_sse d) with (rt_sse d1). rewrite <-(decided_decode (rt_undecided d0 :: chunks) d1 items) by done.
      cbn [transport_decode]. unfold transport_push at 1. rewrite bool_decide_eq_false_2; [done|].
      cbn. intros [_ ?]%app_nil. done.
Qed.

(** From a decoder that has read nothing. *)
Lemma fresh_transport max_pending max_event chunks items :
  opens_events (concat chunks) → Z.of_nat (length (concat chunks)) < max_pending → Z.max max_event max_pending ≤ USIZE_MAX →
  transport_decode chunks (transport_new max_pending max_event) = Ok items ↔
  ∃ events, sse_reference (concat chunks) = Ok events ∧ Forall2 (λ e i, classify e = Ok i) events items.
Proof.
  intros Hopen Hlen Hsize. set (d := transport_new max_pending max_event).
  destruct (undecided_decode chunks d items eq_refl Hopen) as (chunks' & Hcat & ->); [unfold d; cbn [transport_new rt_undecided rt_max_pending_bytes app]; lia|].
  change (rt_undecided d ++ concat chunks) with (concat chunks) in Hcat.
  rewrite fresh_decode, Hcat by (rewrite ?Hcat; cbn; lia || done). by setoid_rewrite classify_all_Forall2.
Qed.

(** a Responses stream of events delivers what its events are, one by one, however it is cut: if the first byte that
    is not blank opens no JSON document and the stream is shorter than the bound on what may be pending, it is accepted
    with some items exactly if the reference reads events from all of its bytes and each of them is classified, in
    order, as the item. *)
Theorem transport_delivers_classified_events max_pending max_event chunks items :
  opens_events (concat chunks) → Z.of_nat (length (concat chunks)) < max_pending → Z.max max_event max_pending ≤ USIZE_MAX →
  transport_decode chunks (transport_new max_pending max_event) = Ok items ↔
  ∃ events, sse_reference (concat chunks) = Ok events ∧ Forall2 (λ e i, classify e = Ok i) events items.
Proof. apply fresh_transport. Qed.

(** ** The list of signs of life *)
Lemma liveness_tokens s : liveness_token s = true → s = "ping" ∨ s = "keepalive".
Proof. unfold liveness_token, one_of. cbn. rewrite !orb_true_iff, !str_eqb_eq. naive_solver. Qed.
Lemma nonblank_token s : liveness_token s = true → nonblank s = Some s.
Proof. by intros [-> | ->]%liveness_tokens. Qed.
Notation declared event := (se_event event ≫= nonblank).
Notation payload event := (trim_ascii_whitespace (se_data event)).
(** What each item says of the event it was read from. *)
Definition item_from (event : SseEvent) (item : ResponsesTransportItem) : Prop :=
  match item with
  | Liveness _ =>
      se_has_data event = false ∨ payload event = [] ∨
      (payload event ∈ [bytes_of "ping"; bytes_of "keepalive"] ∧ ∀ d, declared event = Some d → from_utf8 (payload event) = Some d) ∨
      ∃ v t s n, from_slice (payload event) = Some v ∧ get "type" v = Some (VString t) ∧ liveness_token t = true ∧
        liveness_payload (payload event) = Some (s, n) ∧ liveness_token s = true ∧ (∀ d, declared event = Some d → d = t)
  | Done => se_has_data event = true ∧ payload event = DONE ∧ declared event = None
  | Json d v =>
      se_has_data event = true ∧ d = se_event event ∧ from_slice (payload event) = Some v ∧ is_object v = true ∧
      json_liveness liveness_payload v (payload event) = None ∧
      (∀ n, declared event = Some n → liveness_token n = false ∧ ∀ t, (get "type" v ≫= as_str) ≫= nonblank = Some t → t = n)
  end.
Lemma json_liveness_Some v bytes kind : json_liveness liveness_payload v bytes = Some kind →
  ∃ t s n, get "type" v = Some (VString t) ∧ liveness_token t = true ∧ liveness_payload bytes = Some (s, n) ∧ liveness_token s = true.
Proof.
  unfold json_liveness. intros (t & Ht & Hk)%bind_Some. destruct (liveness_token t) eqn:Hl; [|done].
  apply bind_Some in Hk as ([s n] & Hs & Hk). apply bind_Some in Ht as (w & Hw & Ht). destruct w; try done. injection Ht as ->.
  exists t, s, n. split_and!; [done..|]. destruct n; case_match; try done. by apply str_eqb_eq in H as ->.
Qed.
Lemma classify_json_item event item : se_has_data event = true →
  classify_json from_slice liveness_payload (se_event event) (declared event)
    (declared event ≫= λ v, if liveness_token v then Some v else None) (payload event) = Ok item → item_from event item.
Proof.
  intros Hd. unfold classify_json. intros (v & Hv%ok_or_Ok & (u & Hobj%fail_if_Ok%negb_false_iff & (u' & Hagree & Hrest)%bind_Ok)%bind_Ok)%bind_Ok.
  assert (∀ n t, declared event = Some n → (get "type" v ≫= as_str) ≫= nonblank = Some t → t = n) as Hsame.
  { intros n t Hn Ht. rewrite Hn, Ht in Hagree. by apply fail_if_Ok, negb_false_iff, str_eqb_eq in Hagree. }
  destruct (json_liveness liveness_payload v (payload event)) as [kind|] eqn:Hlive.
  - injection Hrest as <-. right. right. right. apply json_liveness_Some in Hlive as (t & s & n & Ht & Hl & Hs & Hls).
    exists v, t, s, n. split_and!; [done..|]. intros d Hdecl. symmetry. apply (Hsame d t Hdecl). rewrite Ht. cbn. by apply nonblank_token.
  - apply bind_Ok in Hrest as (? & Hno%fail_if_Ok%bool_decide_eq_false & [= <-]). split_and!; [done..|].
    intros n Hn. split; [|intros t; by apply Hsame]. rewrite Hn in Hno. cbn [mbind option_bind] in Hno. destruct (liveness_token n); [|done]. destruct Hno. by eexists.
Qed.

(** nothing passes for a sign of life, for the end of the stream or for data but what is: an item of liveness comes
    from an event without data, with a blank payload, with the text ping or keepalive that its declared name does not
    contradict, or with a JSON object of exactly that type and nothing else than a sequence number; the end from the
    text [DONE] under no name; and data from a JSON object that is no sign of life, whose type its declared name equals. *)
Theorem items_are_what_they_claim event item : classify event = Ok item →
  se_unknown_fields event ≤ 0 ∧ item_from event item.
Proof.
  unfold classify_sse_event. intros (? & Hunknown%fail_if_Ok%Z.ltb_ge & H)%bind_Ok. split; [done|].
  destruct (se_has_data event) eqn:Hd; cbn [negb] in H; [|injection H as <-; by left].
  case_bool_decide as Hempty; [injection H as <-; right; by left|].
  case_bool_decide as Hdone.
  { apply bind_Ok in H as (? & Hno%fail_if_Ok%bool_decide_eq_false & [= <-]). split_and!; [done..|]. by apply eq_None_not_Some. }
  case_bool_decide as Hping; [|by apply classify_json_item].
  unfold classify_ping in H. case_match eqn:Hok; [|done]. injection H as <-. right. right. left. split; [done|].
  intros d Hdecl. rewrite Hdecl in Hok. rewrite (bool_decide_eq_false_2 (Some d = None)) in Hok by done.
  cbn [orb mbind option_bind] in Hok. apply bool_decide_eq_true in Hok. destruct (liveness_token d); [done|].
  apply elem_of_cons in Hping as [Hp|[Hp|[]%elem_of_nil]%elem_of_cons]; by rewrite Hp in Hok.
Qed.

(** ** Documents without events *)
Lemma trim_start_length l : (length (trim_ascii_start l) ≤ length l)%nat.
Proof. induction l as [|b l IH]; [done|]. cbn. case_match; cbn; lia. Qed.
Lemma done_token_length l n : done_token_prefix_len l = Some n → (1 ≤ n)%nat.
Proof. unfold done_token_prefix_len. intros H. assert (n = length DONE) as -> by (repeat case_match; congruence). cbn. lia. Qed.
(** The loop ends: a document takes at least a byte, so a turn for each byte and one more are enough. *)
Lemma drain_documents_fuel fin n m d : (∀ b v k, stream_next b = JValue v k → (1 ≤ k)%nat) →
  (length (rt_json d) < n)%nat → (length (rt_json d) < m)%nat →
  drain_documents stream_next liveness_payload n fin d = drain_documents stream_next liveness_payload m fin d.
Proof.
  intros Hnext. revert m d. induction n as [|n IH]; intros m d Hn Hm; [lia|]. destruct m as [|m]; [lia|]. cbn [drain_documents].
  pose proof (trim_start_length (rt_json d)) as Ht. set (d1 := d <| rt_json ::= trim_ascii_start |>).
  change (trim_ascii_start (rt_json d)) with (rt_json d1) in Ht.
  case_bool_decide as Hne; [done|]. assert (0 < length (rt_json d1))%nat by (destruct (rt_json d1); [done|cbn; lia]).
  assert (∀ k, (1 ≤ k)%nat → drain_documents stream_next liveness_payload n fin (d1 <| rt_json ::= drop k |>) =
    drain_documents stream_next liveness_payload m fin (d1 <| rt_json ::= drop k |>)) as Hrest.
  { intros k Hk. apply IH; change (rt_json (d1 <| rt_json ::= drop k |>)) with (drop k (rt_json d1)); rewrite length_drop; lia. }
  destruct (done_token_prefix_len (rt_json d1)) as [k|] eqn:Hdone; [by rewrite Hrest by by eapply done_token_length|].
  destruct (negb fin && _); [done|]. destruct (stream_next (rt_json d1)) as [|v k| |] eqn:Hj; try done.
  destruct (ensure_json_event_bounded k d1); [|done]. destruct (negb (is_object v)); [done|].
  by rewrite Hrest by by eapply Hnext.
Qed.
End transport.
