(* ===== verification/ResponsesCodec.v ===== *)
(** * Reading back the Responses streams this program writes

    The proxy writes the events of a normalised stream with [encode_canonical_json_sse] and ends it with
    [encode_canonical_done_sse]; the decoder of the next proxy reads exactly those events, however the network cuts them. *)
From S2P Require Import Prelude RustStr Json SerializedSize SseTransport SseReference.
From S2P Require Import ResponsesTransport ResponsesProofs.
From Stdlib Require Import ZArith Lia Ascii.

Local Open Scope Z_scope.

(** ** Text on one line *)
Definition plain : ascii → bool := λ c, 32 <=? code c.
Lemma plain_not_eol c : plain c = true → c ≠ LF ∧ c ≠ CR.
Proof. intros H. by split; intros ->. Qed.
Lemma lines_plain s rest : all_bytes plain s = true → sse_lines (bytes_of s ++ LF :: rest) = bytes_of s :: sse_lines rest.
Proof.
  induction s as [|c s IH]; [done|]. cbn [all_bytes]. intros [[Hlf Hcr]%plain_not_eol Hs]%andb_true_iff.
  cbn [String.list_ascii_of_string app sse_lines]. rewrite !decide_False by done. by rewrite IH.
Qed.
Lemma bytes_of_app a b : bytes_of (a +:+ b) = bytes_of a ++ bytes_of b.
Proof. induction a as [|c a IH]; [done|]. rewrite app_cons_string. cbn. by rewrite IH. Qed.
Lemma utf8_bytes s : valid_utf8 (bytes_of s) = true → from_utf8 (bytes_of s) = Some s.
Proof. intros H. unfold from_utf8. by rewrite H, String.string_of_list_ascii_of_string. Qed.
Lemma graphic_ascii c : graphic c = true → (code c <=? 127) = true ∧ plain c = true.
Proof. unfold graphic, in_bytes, plain. rewrite andb_true_iff, !Z.leb_le. lia. Qed.
Lemma valid_utf8_graphic s t : all_bytes graphic s = true → valid_utf8 (bytes_of s ++ t) = valid_utf8 t.
Proof.
  induction s as [|c s IH]; [done|]. cbn [all_bytes]. intros [[Hc _]%graphic_ascii Hs]%andb_true_iff.
  cbn [String.list_ascii_of_string app valid_utf8]. rewrite Hc. by apply IH.
Qed.

Section codec.
Context (number_to_string : number → string) (to_string : value → string) `{CompactPrinter number_to_string to_string}.
Context (from_slice : bytes → option value) (stream_next : bytes → json_next)
  (liveness_payload : bytes → option (string * option Z)).
Hypothesis numbers_plain : ∀ n, all_bytes plain (number_to_string n) = true.

(** ** The printer writes one line *)
Lemma escape_plain c : all_bytes plain (escape c) = true.
Proof. by destruct c as [[] [] [] [] [] [] [] []]; vm_compute. Qed.
Lemma quoted_plain s : all_bytes plain (quoted s) = true.
Proof.
  unfold quoted. rewrite !all_bytes_app. assert (all_bytes plain (escape_all s) = true) as ->; [|done].
  induction s as [|c s IH]; [done|]. cbn [escape_all]. by rewrite all_bytes_app, escape_plain, IH.
Qed.
Lemma concat_plain l : Forall (λ s, all_bytes plain s = true) l → all_bytes plain (String.concat "," l) = true.
Proof.
  induction 1 as [|s l Hs Hl IH]; [done|]. destruct l as [|t l]; [done|].
  change (String.concat "," (s :: t :: l)) with (s +:+ "," +:+ String.concat "," (t :: l)). by rewrite !all_bytes_app, Hs, IH.
Qed.
Lemma printed_plain v : all_bytes plain (to_string v) = true.
Proof.
  induction v as [|b|n|s|l IH|m IH] using value_ind'.
  - by rewrite print_null.
  - destruct b; by rewrite ?print_true, ?print_false.
  - by rewrite print_number.
  - rewrite print_string. apply quoted_plain.
  - rewrite print_array, !all_bytes_app, concat_plain; [done|]. by rewrite Forall_fmap.
  - rewrite print_object, !all_bytes_app, concat_plain; [done|]. rewrite Forall_fmap. eapply Forall_impl; [exact IH|].
    intros [k x] Hx. cbn in *. by rewrite !all_bytes_app, quoted_plain, Hx.
Qed.
Lemma printed_object v : is_object v = true → ∃ s, to_string v = "{" +:+ s +:+ "}".
Proof. destruct v; try done. intros _. rewrite print_object. by eexists. Qed.

(** ** Frames *)
Inductive frame : Type := FJson (declared_event : option string) (v : value) | FDone.
Definition encode_frame (f : frame) : bytes :=
  match f with FJson d v => encode_canonical_json_sse to_string d v | FDone => encode_canonical_done_sse end.
Definition frame_item (f : frame) : ResponsesTransportItem :=
  match f with FJson d v => Json (canonical_event d v) v | FDone => Done end.
(** An event the proxy may write: an object the parser reads back, in the UTF-8 of a [String], under no name of a sign of
    life. *)
Definition frame_ok (f : frame) : Prop :=
  match f with
  | FJson d v => is_object v = true ∧ from_slice (bytes_of (to_string v)) = Some v ∧ valid_utf8 (bytes_of (to_string v)) = true ∧
                 from_option liveness_token false (canonical_event d v) = false
  | FDone => True
  end.
Definition frame_block (f : frame) : list string :=
  match f with
  | FJson d v => match canonical_event d v with Some name => ["event: " +:+ name] | None => [] end ++ ["data: " +:+ to_string v]
  | FDone => ["data: [DONE]"]
  end.
Definition valid_name (name : string) : Prop := is_empty name = false ∧ all_bytes graphic name = true.
Lemma canonical_event_valid d v name : canonical_event d v = Some name → valid_name name.
Proof.
  unfold canonical_event. intros (e & _ & He)%bind_Some. case_match eqn:Hv; [|done]. injection He as <-.
  unfold valid_event_name in Hv. rewrite !andb_true_iff in Hv. destruct Hv as [[Hne _] Hb]. split; [by apply negb_true_iff|].
  refine (all_bytes_mono _ _ _ _ Hb). by intros [[] [] [] [] [] [] [] []]; vm_compute.
Qed.
(** The lines of a frame, and the empty line after them. *)
Definition line_ok (s : string) : Prop := is_empty s = false ∧ all_bytes plain s = true ∧ valid_utf8 (bytes_of s) = true.
Lemma frame_lines f : frame_ok f → Forall line_ok (frame_block f) ∧
  encode_frame f = concat ((λ s, bytes_of s ++ [LF]) <$> frame_block f) ++ [LF].
Proof.
  destruct f as [d v|]; [|by repeat constructor]. intros (_ & _ & Hutf & _). split.
  - apply Forall_app. split.
    + destruct (canonical_event d v) as [name|] eqn:Hn; [|constructor]. apply canonical_event_valid in Hn as [_ Hg].
      constructor; [|constructor]. split; [done|]. rewrite all_bytes_app, bytes_of_app. split.
      * refine (all_bytes_mono _ _ _ _ Hg). intros c Hc. by apply graphic_ascii.
      * cbn. rewrite <-(app_nil_r (bytes_of name)). by rewrite valid_utf8_graphic.
    + constructor; [|constructor]. split; [done|]. rewrite all_bytes_app, printed_plain, bytes_of_app. split; [done|exact Hutf].
  - cbn [encode_frame]. unfold encode_canonical_json_sse, frame_block. rewrite !bytes_of_app, fmap_app, concat_app.
    destruct (canonical_event d v) as [name|]; cbn [fmap list_fmap concat]; rewrite ?bytes_of_app, ?app_nil_r, <-?app_assoc; done.
Qed.
Lemma events_of_lines block lines rest : Forall line_ok lines →
  events_of block (sse_lines (concat ((λ s, bytes_of s ++ [LF]) <$> lines) ++ rest)) = events_of (block ++ lines) (sse_lines rest).
Proof.
  intros Hall. revert block. induction Hall as [|s lines (Hne & Hp & Hu) Hall IH]; intros block; [by rewrite app_nil_r|].
  cbn [fmap list_fmap concat]. rewrite <-!app_assoc. cbn [app]. rewrite lines_plain by done. cbn [events_of].
  rewrite utf8_bytes, Hne, IH by done. by rewrite <-app_assoc.
Qed.
Lemma frames_events frames : Forall frame_ok frames →
  sse_reference (concat (encode_frame <$> frames)) = Ok (block_event ∘ frame_block <$> frames).
Proof.
  unfold sse_reference. induction 1 as [|f frames Hf Hall IH]; [done|]. destruct (frame_lines f Hf) as [Hlines Heq].
  cbn [fmap list_fmap concat]. rewrite Heq, <-!app_assoc, events_of_lines by done. cbn [app].
  change (sse_lines (LF :: concat (encode_frame <$> frames))) with ([] :: sse_lines (concat (encode_frame <$> frames))).
  cbn [events_of from_utf8 valid_utf8 is_empty String.string_of_list_ascii]. rewrite IH.
  assert (frame_block f ≠ []) as Hne. { destruct f as [d v|]; [|done]. unfold frame_block. by destruct (canonical_event d v). }
  change ((block_event ∘ frame_block) f) with (block_event (frame_block f)). unfold flushed. by destruct (frame_block f).
Qed.

(** ** Reading a frame back *)
Lemma frame_event f : frame_ok f → block_event (frame_block f) =
  match f with
  | FJson d v => mk_sse_event (canonical_event d v) (bytes_of (to_string v)) true None None 0 0
  | FDone => mk_sse_event None DONE true None None 0 0
  end.
Proof.
  destruct f as [d v|]; [|done]. intros _. unfold frame_block. destruct (canonical_event d v) as [name|] eqn:Hn; [|done].
  apply canonical_event_valid in Hn as [Hne _].
  assert (block_event ["event: " +:+ name; "data: " +:+ to_string v] =
    mk_sse_event (if is_empty name then None else Some name) (bytes_of (to_string v)) true None None 0 0) as Hb by done.
  cbn [app]. by rewrite Hb, Hne.
Qed.
Lemma trim_braces s : trim_ascii_whitespace (bytes_of ("{" +:+ s +:+ "}")) = bytes_of ("{" +:+ s +:+ "}").
Proof.
  rewrite !bytes_of_app. unfold trim_ascii_whitespace.
  change (trim_ascii_start (bytes_of "{" ++ bytes_of s ++ bytes_of "}")) with (bytes_of "{" ++ bytes_of s ++ bytes_of "}").
  rewrite app_assoc, reverse_app. change (reverse (bytes_of "}")) with (bytes_of "}").
  change (trim_ascii_start (bytes_of "}" ++ reverse (bytes_of "{" ++ bytes_of s))) with (bytes_of "}" ++ reverse (bytes_of "{" ++ bytes_of s)).
  by rewrite reverse_app, reverse_involutive.
Qed.
Lemma nonblank_valid name : valid_name name → nonblank name = Some name.
Proof. intros [Hne Hg]. unfold nonblank. by rewrite trim_graphic, Hne. Qed.
(** The name of a frame is the type of its document, if that is a name at all. *)
Lemma name_is_type d v name t : canonical_event d v = Some name → (get "type" v ≫= as_str) ≫= nonblank = Some t → t = name.
Proof.
  unfold canonical_event. destruct (get "type" v ≫= as_str) as [s|]; [|done]. cbn. unfold nonblank.
  destruct (valid_event_name (trim s)); [|done]. intros [= <-]. case_match; [done|]. by intros [= <-].
Qed.
Lemma type_no_liveness d v : from_option liveness_token false (canonical_event d v) = false →
  ∀ t, get "type" v ≫= as_str = Some t → liveness_token t = false.
Proof.
  unfold canonical_event. intros Hn t Ht. rewrite Ht in Hn. destruct (liveness_token t) eqn:Hl; [|done].
  by apply liveness_tokens in Hl as [-> | ->].
Qed.
Lemma frame_classified f : frame_ok f →
  classify_sse_event from_slice liveness_payload (block_event (frame_block f)) = Ok (frame_item f).
Proof.
  intros Hf. rewrite frame_event by done. destruct f as [d v|]; [|done]. destruct Hf as (Hobj & Hparse & _ & Hlive).
  destruct (printed_object v Hobj) as [s Hs]. unfold classify_sse_event. cbn [se_unknown_fields se_has_data se_data se_event].
  rewrite Hs, trim_braces, <-Hs. cbn [fail_if Z.ltb Z.compare mbind result_bind negb].
  assert (∃ l, bytes_of (to_string v) = "{"%char :: l) as [l Hl] by (rewrite Hs, bytes_of_app; by eexists).
  rewrite !bool_decide_eq_false_2; cycle 1.
  { rewrite Hl. by intros [?|[?|[]%elem_of_nil]%elem_of_cons]%elem_of_cons. }
  { by rewrite Hl. } { by rewrite Hl. }
  assert (json_liveness liveness_payload v (bytes_of (to_string v)) = None) as Hno.
  { unfold json_liveness. destruct (get "type" v ≫= as_str) as [t|] eqn:Ht; [|done]. cbn [mbind option_bind].
    by rewrite (type_no_liveness d v Hlive t Ht). }
  unfold classify_json. rewrite Hparse. cbn [ok_or mbind result_bind]. rewrite Hobj. cbn [negb fail_if mbind result_bind]. rewrite Hno.
  cbn [frame_item]. destruct (canonical_event d v) as [name|] eqn:Hn; cbn [mbind option_bind]; [|done].
  rewrite (nonblank_valid name) by by eapply canonical_event_valid. cbn [from_option] in Hlive. cbn [mbind option_bind]. rewrite Hlive.
  destruct ((get "type" v ≫= as_str) ≫= nonblank) as [t|] eqn:Ht; [|done].
  rewrite (name_is_type _ _ _ _ Hn Ht). by rewrite (proj2 (str_eqb_eq name name)).
Qed.

End codec.

(** ** A Responses stream at work

    Two events and the end of a stream, written by the encoder, cut into chunks and read back; and the theorems on the
    transport applied to it. The parser knows the documents of the sample; the printer is complete. *)

Definition print_number (n : number) : string := match n with NInt z => pretty z | NFloat _ => "0.5" end.
Notation print := (compact_print print_number).
Lemma digits_plain s : all_digits s = true → all_bytes plain s = true.
Proof. apply all_bytes_mono. by intros [[] [] [] [] [] [] [] []]; vm_compute. Qed.
Lemma print_number_plain n : all_bytes plain (print_number n) = true.
Proof.
  destruct n as [[|p|p]|]; [done|apply digits_plain|..|done].
  - apply (pretty_N_go_digits (N.pos p) ""). done.
  - change (pretty (Z.neg p)) with (String "-" (pretty_N_go (N.pos p) "")). cbn [all_bytes]. apply andb_true_iff. split; [done|].
    apply digits_plain, (pretty_N_go_digits (N.pos p) ""). done.
Qed.

Definition delta : value := Object [("type", VString "response.output_text.delta"); ("delta", VString ("a" +:+ String LF "b")); ("n", Number (NInt 7))].
Definition untyped : value := Object [("ok", Bool true)].
Definition ping : value := Object [("type", VString "ping")].
Definition sample_documents : list value := [delta; untyped; ping].
Definition sample_parse (b : bytes) : option value := List.find (λ v, bool_decide (bytes_of (print v) = b)) sample_documents.
Definition sample_liveness (b : bytes) : option (string * option Z) :=
  if bool_decide (b = bytes_of (print ping)) then Some ("ping", None) else None.
Definition sample_next (b : bytes) : json_next :=
  match sample_parse b with Some v => JValue v (length b) | None => JInvalid end.

Definition sample_frames : list frame := [FJson (Some "ignored") delta; FJson (Some "note") untyped; FJson None untyped; FDone].
Definition sample_wire : bytes := concat (encode_frame print <$> sample_frames).
Definition sample_cut : list bytes := [take 3 sample_wire; drop 3 (take 40 sample_wire); []; drop 40 sample_wire].
Lemma sample_frames_ok : Forall (frame_ok print sample_parse) sample_frames.
Proof. repeat (apply Forall_cons_2; [by vm_compute|]). by apply Forall_nil_2. Qed.
Lemma sample_cut_whole : concat sample_cut = sample_wire.
Proof. by vm_compute. Qed.
Lemma cut_fits : Z.of_nat (length (concat sample_cut)) < 1000.
Proof. by vm_compute. Qed.
Definition sample_items : list ResponsesTransportItem :=
  [Json (Some "response.output_text.delta") delta; Json (Some "note") untyped; Json None untyped; Done].
Lemma sample_limits : Z.max 2000 1000 ≤ USIZE_MAX.
Proof. by vm_compute. Qed.


Definition sample_noise : list bytes := [bytes_of (": hello" +:+ String LF (String LF "da")); bytes_of ("ta: ping" +:+ String LF (String LF ""));
  bytes_of ("data:" +:+ print ping +:+ String LF "")].
Definition noise_events : list SseEvent := [
  mk_sse_event None [] false None None 1 0; mk_sse_event None (bytes_of "ping") true None None 0 0;
  mk_sse_event None (bytes_of (print ping)) true None None 0 0].
Definition noise_items : list ResponsesTransportItem := [Liveness LComment; Liveness LTextPing; Liveness LJsonPing].
Lemma noise_opens : opens_events (concat sample_noise).
Proof. vm_compute. intros [?|[?|[]%elem_of_nil]%elem_of_cons]%elem_of_cons; done. Qed.
Lemma noise_fits : Z.of_nat (length (concat sample_noise)) < 1000.
Proof. by vm_compute. Qed.
Lemma noise_read : sse_reference (concat sample_noise) = Ok noise_events.
Proof. by vm_compute. Qed.
Lemma noise_classified : Forall2 (λ e i, classify_sse_event sample_parse sample_liveness e = Ok i) noise_events noise_items.
Proof. repeat (apply Forall2_cons_2; [by vm_compute|]). by apply Forall2_nil_2. Qed.
Lemma transport_delivers_classified_events_witness :
  transport_decode sample_parse sample_next sample_liveness sample_noise (transport_new 1000 2000) = Ok noise_items.
Proof.
  refine (proj2 (transport_delivers_classified_events sample_parse sample_next sample_liveness 1000 2000 sample_noise noise_items
    noise_opens noise_fits sample_limits) _).
  exists noise_events. split; [exact noise_read|exact noise_classified].
Defined.
Definition json_ping : SseEvent := mk_sse_event None (bytes_of (print ping)) true None None 0 0.
Lemma json_ping_classified : classify_sse_event sample_parse sample_liveness json_ping = Ok (Liveness LJsonPing).
Proof. by vm_compute. Qed.
Lemma items_are_what_they_claim_witness : se_unknown_fields json_ping ≤ 0 ∧
  item_from sample_parse sample_liveness json_ping (Liveness LJsonPing).
Proof. exact (items_are_what_they_claim sample_parse sample_liveness json_ping (Liveness LJsonPing) json_ping_classified). Defined.
(** What is refused: an unknown field, a name that contradicts the type, a sign of life with more in it. *)
Example refused : map (λ e, match classify_sse_event sample_parse sample_liveness e with Ok _ => true | Err e => is_capacity e end)
  [mk_sse_event None [] false None None 0 1; mk_sse_event (Some "other") (bytes_of (print delta)) true None None 0 0;
   mk_sse_event (Some "ping") (bytes_of (print untyped)) true None None 0 0] = [false; false; false].
Proof. by vm_compute. Qed.
(** Documents without events: two, the second cut in half, and the end of the stream. *)
Definition next_document (b : bytes) : json_next :=
  if bool_decide (b = []) then JNone else
  match find_map (λ v, if has_prefix (bytes_of (print v)) b then Some (JValue v (length (bytes_of (print v)))) else None) sample_documents with
  | Some next => next
  | None => if existsb (λ v, has_prefix b (bytes_of (print v))) sample_documents then JEof else JInvalid
  end.
Definition sample_json : bytes := bytes_of (print untyped +:+ String LF "" +:+ print delta +:+ " [DONE]").
Example documents_are_read : transport_decode sample_parse next_document sample_liveness [take 20 sample_json; drop 20 sample_json]
  (transport_new 1000 2000) = Ok [Json None untyped; Json None delta; Done].
Proof. by vm_compute. Qed.
