(* ===== verification/Terminal.v ===== *)
(** * The end of an answer

    The detector that watches the answer of an upstream for the event that ends it ([proxy/terminal_detector.rs]), for
    the four dialects the proxy speaks upstream. The JSON parser is a parameter; the observation of timings and the
    capacity of buffers are left out. *)
From S2P Require Import Prelude RustStr Json SseTransport ResponsesTransport.
From Stdlib Require Import ZArith Lia Ascii.

Local Open Scope Z_scope.

(** ** Data *)
(** proxy/adapters.rs:1167-1172 [UpstreamFormat] *)
Inductive UpstreamFormat : Type := AnthropicMessages | OpenAiResponses | OpenAiChat | GeminiNative.
#[global] Instance UpstreamFormat_eq_dec : EqDecision UpstreamFormat.
Proof. solve_decision. Defined.
(** proxy/terminal_detector.rs:6-6 [MAX_TERMINAL_EVENT_BYTES] *)
Definition MAX_TERMINAL_EVENT_BYTES : Z := 8 * 1024 * 1024.
(** proxy/terminal_detector.rs:7-7 [MAX_OPENAI_RESPONSES_TERMINAL_EVENT_BYTES] *)
Definition MAX_OPENAI_RESPONSES_TERMINAL_EVENT_BYTES : Z := 128 * 1024 * 1024.
(** proxy/terminal_detector.rs:10-13 [TerminalDetectorError] *)
Inductive TerminalDetectorError : Type := DEventTooLarge | DProtocol (message : string).
(** proxy/terminal_detector.rs:27-31 [UpstreamTerminal] *)
Inductive UpstreamTerminal : Type := Completed | Incomplete | Failed.
(** proxy/terminal_detector.rs:34-41 [UpstreamTerminalDetector] *)
Record UpstreamTerminalDetector := mk_detector {
  td_format : UpstreamFormat;
  td_pending : bytes;
  td_terminal : option UpstreamTerminal;
  td_max_event_bytes : Z;
  td_responses : option ResponsesTransportDecoder;
}.
#[global] Instance detector_eta : Eta UpstreamTerminalDetector := λ d,
  mk_detector (td_format d) (td_pending d) (td_terminal d) (td_max_event_bytes d) (td_responses d).
(** proxy/terminal_detector.rs:44-62 [new] *)
Definition detector_new (format : UpstreamFormat) : UpstreamTerminalDetector :=
  mk_detector format [] None
    (match format with OpenAiResponses => MAX_OPENAI_RESPONSES_TERMINAL_EVENT_BYTES | _ => MAX_TERMINAL_EVENT_BYTES end)
    (if decide (format = OpenAiResponses)
     then Some (transport_new MAX_TERMINAL_EVENT_BYTES MAX_OPENAI_RESPONSES_TERMINAL_EVENT_BYTES) else None).

(** ** Text of an event *)
(** [str::lines]: what a line feed ends, without the carriage return before it *)
Definition drop_last_empty (l : list string) : list string :=
  match last l with Some "" => removelast l | _ => l end.
Definition str_lines (s : string) : list string :=
  (λ line, default line (strip_suffix (String CR "") line)) <$> drop_last_empty (split_char LF s).
(** proxy/terminal_detector.rs:271-274 [sse_field] *)
Definition sse_field (line field : string) : option string :=
  rest ← strip_prefix field line ≫= strip_prefix ":";
  Some (default rest (strip_prefix " " rest)).
(** proxy/terminal_detector.rs:276-286 [next_event_boundary] *)
Fixpoint next_event_boundary (buffer : bytes) : option (nat * nat) :=
  match buffer with
  | [] => None
  | _ :: rest =>
      if has_prefix [LF; LF] buffer then Some (0%nat, 2%nat)
      else if has_prefix [CR; LF; CR; LF] buffer then Some (0%nat, 4%nat)
      else prod_map S id <$> next_event_boundary rest
  end.
(** ** Terminal values *)
Definition nonblank_str (v : option value) : bool :=
  match v ≫= as_str with Some s => negb (is_empty (trim s)) | None => false end.
Definition is_null (v : value) : bool := match v with Null => true | _ => false end.
(** proxy/terminal_detector.rs:249-269 [gemini_terminal] *)
Definition gemini_terminal (v : value) : bool :=
  let v := default v (get "response" v) in
  nonblank_str (or_else (get "promptFeedback" v ≫= get "blockReason") (get "prompt_feedback" v ≫= get "block_reason"))
  || match get "candidates" v ≫= as_array with
     | Some (c :: candidates) =>
         forallb (λ candidate, nonblank_str (or_else (get "finishReason" candidate) (get "finish_reason" candidate))) (c :: candidates)
     | _ => false
     end.
(** proxy/terminal_detector.rs:151-158 [value_terminal]: the status of a Responses value *)
Definition responses_terminal (s : string) : option UpstreamTerminal :=
  if one_of ["response.completed"; "completed"] s then Some Completed
  else if one_of ["response.incomplete"; "incomplete"] s then Some Incomplete
  else if one_of ["response.failed"; "response.cancelled"; "response.canceled"; "failed"; "cancelled"; "canceled"] s then Some Failed
  else None.
(** proxy/terminal_detector.rs:135-170 [value_terminal] *)
Definition value_terminal (format : UpstreamFormat) (v : value) : option UpstreamTerminal :=
  if negb (bool_decide (format = OpenAiResponses))
     && (from_option (λ error, negb (is_null error)) false (get "error" v) || bool_decide (get "type" v ≫= as_str = Some "error"))
  then Some Failed else
  match format with
  | OpenAiResponses =>
      let event_type := get "type" v ≫= as_str in
      let status := or_else (get "response" v ≫= get "status") (get "status" v) ≫= as_str in
      or_else event_type status ≫= responses_terminal
  | OpenAiChat => None
  | AnthropicMessages =>
      match get "type" v ≫= as_str with
      | Some s => if str_eqb s "message_stop" then Some Completed else if str_eqb s "error" then Some Failed else None
      | None => None
      end
  | GeminiNative => if gemini_terminal v then Some Completed else None
  end.
(** proxy/terminal_detector.rs:208-226 [declared_event_terminal] *)
Definition declared_event_terminal (format : UpstreamFormat) (event : string) : option UpstreamTerminal :=
  match format with
  | OpenAiResponses =>
      if str_eqb event "response.completed" then Some Completed
      else if str_eqb event "response.incomplete" then Some Incomplete
      else if one_of ["response.failed"; "response.cancelled"; "response.canceled"] event then Some Failed else None
  | AnthropicMessages => if str_eqb event "message_stop" then Some Completed else if str_eqb event "error" then Some Failed else None
  | OpenAiChat | GeminiNative => if str_eqb event "error" then Some Failed else None
  end.

Section detector.
Context (from_str : string → option value) (from_slice : bytes → option value) (stream_next : bytes → json_next)
  (liveness_payload : bytes → option (string * option Z)).

(** proxy/terminal_detector.rs:228-247 [payload_terminal] *)
Definition payload_terminal (format : UpstreamFormat) (payload : string) : option UpstreamTerminal :=
  if str_eqb payload "[DONE]" then (if bool_decide (format = OpenAiChat) then Some Completed else None)
  else from_str payload ≫= value_terminal format.
(** proxy/terminal_detector.rs:183-191 [event_terminal]: the name an event declares, and its data *)
Definition event_line (st : option string * list string) (raw_line : string) : option string * list string :=
  let '(declared_event, data) := st in
  let line := trim_end_char CR raw_line in
  match sse_field line "event" with
  | Some v => (Some (trim v), data)
  | None => match sse_field line "data" with Some v => (declared_event, data ++ [trim_start v]) | None => st end
  end.
(** proxy/terminal_detector.rs:172-206 [event_terminal] *)
Definition event_terminal (format : UpstreamFormat) (event : bytes) : option UpstreamTerminal :=
  text ← from_utf8 event;
  let '(declared_event, data) := foldl event_line (None, []) (str_lines text) in
  let payload := match data with
                 | [] => let text := trim text in if starts_with "{" text || str_eqb text "[DONE]" then Some text else None
                 | _ => Some (trim (String.concat (String LF "") data))
                 end in
  or_else (declared_event ≫= declared_event_terminal format) (payload ≫= payload_terminal format).
(** proxy/terminal_detector.rs:97-111 [push]: the items of a Responses stream *)
Definition item_terminal (format : UpstreamFormat) (item : ResponsesTransportItem) : option UpstreamTerminal :=
  match item with
  | Json declared_event v => or_else (declared_event ≫= declared_event_terminal format) (value_terminal format v)
  | Done | Liveness _ => None
  end.
(** proxy/terminal_detector.rs:116-131 [push]: the loop over complete events, a turn for each byte at most *)
Fixpoint drain_events (fuel : nat) (d : UpstreamTerminalDetector) : UpstreamTerminalDetector * result TerminalDetectorError () :=
  match fuel, next_event_boundary (td_pending d) with
  | S fuel, Some (event_end, delimiter_len) =>
      if td_max_event_bytes d <? Z.of_nat event_end then (d, Err DEventTooLarge) else
      let event := take event_end (td_pending d) in
      let d := d <| td_pending ::= drop (event_end + delimiter_len) |> in
      match event_terminal (td_format d) event with
      | Some terminal => (d <| td_terminal := Some terminal |> <| td_pending := [] |>, Ok ())
      | None => drain_events fuel d
      end
  | _, _ => (d, fail_if (td_max_event_bytes d <? Z.of_nat (length (td_pending d))) DEventTooLarge)
  end.
(** proxy/terminal_detector.rs:84-132 [push] *)
Definition detector_push (chunk : bytes) (d : UpstreamTerminalDetector) : UpstreamTerminalDetector * result TerminalDetectorError () :=
  if bool_decide (is_Some (td_terminal d)) then (d, Ok ()) else
  match td_responses d with
  | Some decoder =>
      let '(decoder, items) := transport_push from_slice stream_next liveness_payload chunk decoder in
      let d := d <| td_responses := Some decoder |> in
      match items with
      | Err error => (d, Err (if is_capacity error then DEventTooLarge else DProtocol (re_message error)))
      | Ok items => (match find_map (item_terminal (td_format d)) items with
                     | Some terminal => d <| td_terminal := Some terminal |>
                     | None => d
                     end, Ok ())
      end
  | None =>
      let d := d <| td_pending ::= (.++ chunk) |> in
      drain_events (length (td_pending d)) d
  end.
End detector.

(** ** The end of an answer is found

    For the dialects whose events end with an empty line, the detector finds the first event of the whole answer that
    ends it, however the answer is cut into chunks. *)

(** ** The reference *)
(** The texts between empty lines, LF LF or CR LF CR LF; [cur] is what the current one has so far, and the last one, which
    no empty line ends, does not count. *)
Fixpoint cut_events (cur l : bytes) : list bytes :=
  match l with
  | [] => []
  | a :: l1 =>
      match l1 with
      | b :: l2 =>
          if decide (a = LF ∧ b = LF) then cur :: cut_events [] l2
          else match l2 with
               | c :: d :: l4 =>
                   if decide ([a; b; c; d] = [CR; LF; CR; LF]) then cur :: cut_events [] l4 else cut_events (cur ++ [a]) l1
               | _ => cut_events (cur ++ [a]) l1
               end
      | [] => cut_events (cur ++ [a]) l1
      end
  end.

(** ** Boundaries *)
Lemma event_boundary_bounds l i k : next_event_boundary l = Some (i, k) → (i + k ≤ length l ∧ 2 ≤ k)%nat.
Proof.
  revert i k. induction l as [|a l IH]; intros i k; [done|]. cbn [next_event_boundary].
  destruct (has_prefix [LF; LF] _) eqn:H1; [|destruct (has_prefix [CR; LF; CR; LF] _) eqn:H2].
  - intros [= <- <-]. unfold has_prefix in H1. cbn in H1. destruct (decide (LF = a)); [|done]. destruct l; [done|]. cbn. lia.
  - intros [= <- <-]. unfold has_prefix in H2. cbn in H2. destruct (decide (CR = a)); [|done].
    destruct l as [|b [|c [|d l]]]; cbn in H2; repeat (case_decide; [|done]); try done. cbn. lia.
  - intros ([j m] & Hb & [= -> ->])%fmap_Some. apply IH in Hb. cbn. lia.
Qed.
Lemma has_prefix_app p l m : has_prefix p l = true → has_prefix p (l ++ m) = true.
Proof.
  revert l. unfold has_prefix. induction p as [|a p IH]; intros [|b l]; cbn; try done. case_decide; [apply IH|done].
Qed.
Lemma has_prefix_short p l m : (length p ≤ length l)%nat → has_prefix p (l ++ m) = has_prefix p l.
Proof.
  revert l. unfold has_prefix. induction p as [|a p IH]; intros [|b l] Hl; cbn in *; try done; [lia|].
  case_decide; [apply IH; lia|done].
Qed.
Lemma event_boundary_app l m i k : next_event_boundary l = Some (i, k) → next_event_boundary (l ++ m) = Some (i, k).
Proof.
  revert i k. induction l as [|a l IH]; intros i k; [done|]. cbn [next_event_boundary app].
  destruct (has_prefix [LF; LF] (a :: l)) eqn:H1.
  { intros [= <- <-]. apply (has_prefix_app _ _ m) in H1. cbn [app] in H1. by rewrite H1. }
  destruct (has_prefix [CR; LF; CR; LF] (a :: l)) eqn:H2.
  { intros [= <- <-]. apply (has_prefix_app _ _ m) in H2 as H2'. cbn [app] in H2'. rewrite H2'.
    unfold has_prefix in H2 |- *. cbn in H2 |- *. destruct (decide (CR = a)) as [<-|]; [|done]. done. }
  intros ([j n] & Hb & [= -> ->])%fmap_Some. rewrite (IH _ _ Hb). pose proof (event_boundary_bounds _ _ _ Hb) as [Hle Hn].
  change (a :: l ++ m) with ((a :: l) ++ m). rewrite has_prefix_short, H1 by (cbn; lia).
  assert (has_prefix [CR; LF; CR; LF] ((a :: l) ++ m) = false) as ->; [|done].
  destruct (decide (4 ≤ length (a :: l))%nat); [by rewrite has_prefix_short|].
  destruct l as [|b [|c [|d l]]]; cbn in *; try lia.
  unfold has_prefix in *. cbn in *. destruct (decide (CR = a)); [|done]. destruct (decide (LF = b)) as [<-|]; [|done].
  destruct (decide (CR = c)) as [<-|]; [|done]. done.
Qed.
Lemma cut_at_boundary cur l : cut_events cur l =
  match next_event_boundary l with
  | Some (i, k) => (cur ++ take i l) :: cut_events [] (drop (i + k) l)
  | None => []
  end.
Proof.
  revert cur. induction l as [|a l IH]; intros cur; [done|].
  assert (cut_events (cur ++ [a]) l = match prod_map S id <$> next_event_boundary l with
    | Some (i, k) => (cur ++ take i (a :: l)) :: cut_events [] (drop (i + k) (a :: l)) | None => [] end) as Hnext.
  { rewrite IH. destruct (next_event_boundary l) as [[i k]|]; cbn; [|done]. by rewrite <-app_assoc. }
  cbn [next_event_boundary cut_events]. unfold has_prefix.
  destruct l as [|b l]; [cbn; by repeat case_decide|]. cbn [after_prefix].
  destruct (decide (LF = a)) as [<-|Ha].
  { destruct (decide (LF = b)) as [<-|Hb]; [rewrite decide_True by done; cbn; by rewrite app_nil_r|]. rewrite decide_False by naive_solver.
    cbn. destruct l as [|c [|d l]]; [exact Hnext..|]. rewrite decide_False by done. exact Hnext. }
  rewrite decide_False by naive_solver. destruct (decide (CR = a)) as [<-|Ha'].
  - destruct (decide (LF = b)) as [<-|Hb]; [|destruct l as [|c [|d l]]; [exact Hnext..|]; rewrite decide_False by naive_solver; exact Hnext].
    destruct l as [|c [|d l]]; [exact Hnext|cbn; destruct (decide (CR = c)); exact Hnext|]. cbn [after_prefix].
    destruct (decide (CR = c)) as [<-|Hc]; [|rewrite decide_False by naive_solver; exact Hnext].
    destruct (decide (LF = d)) as [<-|Hd]; [|rewrite decide_False by naive_solver; exact Hnext].
    rewrite decide_True by done. cbn. by rewrite app_nil_r.
  - destruct l as [|c [|d l]]; [exact Hnext..|]; rewrite decide_False by naive_solver; exact Hnext.
Qed.

(** ** The detector *)
Section detector.
Context (from_str : string → option value) (from_slice : bytes → option value) (stream_next : bytes → json_next)
  (liveness_payload : bytes → option (string * option Z)).
Notation terminal_of := (event_terminal from_str).
Notation push := (detector_push from_str from_slice stream_next liveness_payload).

Fixpoint detector_push_all (chunks : list bytes) (d : UpstreamTerminalDetector) : UpstreamTerminalDetector * result TerminalDetectorError () :=
  match chunks with
  | [] => (d, Ok ())
  | chunk :: chunks => match push chunk d with (d, Ok _) => detector_push_all chunks d | (d, Err e) => (d, Err e) end
  end.
(** The terminal event of a text, in order. *)
Definition first_terminal (format : UpstreamFormat) (input : bytes) : option UpstreamTerminal :=
  find_map (terminal_of format) (cut_events [] input).

(** What the loop over complete events does when what is pending is within the bound. *)
Definition same_detector (d d' : UpstreamTerminalDetector) : Prop :=
  td_format d' = td_format d ∧ td_max_event_bytes d' = td_max_event_bytes d ∧ td_responses d' = td_responses d.
Lemma drain_events_spec fuel d : (length (td_pending d) ≤ fuel)%nat → td_terminal d = None →
  Z.of_nat (length (td_pending d)) ≤ td_max_event_bytes d →
  ∃ d', drain_events from_str fuel d = (d', Ok ()) ∧ same_detector d d' ∧
    (∀ more, if decide (is_Some (td_terminal d')) then first_terminal (td_format d) (td_pending d ++ more) = td_terminal d'
             else first_terminal (td_format d) (td_pending d ++ more) = first_terminal (td_format d) (td_pending d' ++ more)) ∧
    (length (td_pending d') ≤ length (td_pending d))%nat ∧
    (td_terminal d' = None → next_event_boundary (td_pending d') = None).
Proof.
  revert d. induction fuel as [|fuel IH]; intros d Hfuel Hnone Hmax.
  - destruct (td_pending d) as [|] eqn:Hp; [|cbn in Hfuel; lia]. exists d. cbn [drain_events]. rewrite Hp.
    rewrite (proj2 (Z.ltb_ge _ _)) by (cbn in *; lia). split; [done|]. split; [done|].
    split; [|done]. intros more. rewrite decide_False; [done|]. rewrite Hnone. by intros [? ?].
  - cbn [drain_events]. destruct (next_event_boundary (td_pending d)) as [[i k]|] eqn:Hb.
    + pose proof (event_boundary_bounds _ _ _ Hb) as [Hle Hk]. rewrite (proj2 (Z.ltb_ge _ _)) by lia.
      assert (∀ more, first_terminal (td_format d) (td_pending d ++ more) =
        or_else (terminal_of (td_format d) (take i (td_pending d))) (first_terminal (td_format d) (drop (i + k) (td_pending d) ++ more))) as Hfirst.
      { intros more. unfold first_terminal. rewrite cut_at_boundary, (event_boundary_app _ _ _ _ Hb), take_app_le, drop_app_le by lia. done. }
      set (d1 := d <| td_pending ::= drop (i + k) |>). change (td_format d1) with (td_format d).
      destruct (terminal_of (td_format d) (take i (td_pending d))) as [t|] eqn:Ht.
      * eexists. split; [done|]. split; [done|]. split; [|split; [cbn; lia|done]]. intros more. rewrite decide_True by (by eexists). by rewrite Hfirst.
      * destruct (IH d1) as (d' & Hd' & Hsame & Hspec & Hlen & Hidle).
        { cbn. rewrite length_drop. lia. } { done. } { cbn. rewrite length_drop. lia. }
        exists d'. split; [done|]. split; [exact Hsame|]. split; [|split; [|done]].
        -- intros more. rewrite Hfirst. exact (Hspec more).
        -- cbn in Hlen. rewrite length_drop in Hlen. lia.
    + exists d. rewrite (proj2 (Z.ltb_ge _ _)) by lia. split; [done|]. split; [done|]. split; [|done]. intros more. rewrite decide_False; [done|]. rewrite Hnone. by intros [? ?].
Qed.
Lemma push_done chunk d : is_Some (td_terminal d) → push chunk d = (d, Ok ()).
Proof. intros H. unfold detector_push. by rewrite bool_decide_eq_true_2. Qed.
Lemma push_all_done chunks d : is_Some (td_terminal d) → detector_push_all chunks d = (d, Ok ()).
Proof. intros H. induction chunks as [|c chunks IH]; [done|]. cbn. by rewrite push_done. Qed.
Lemma push_all_finds chunks d : td_responses d = None → td_terminal d = None → next_event_boundary (td_pending d) = None →
  Z.of_nat (length (td_pending d ++ concat chunks)) ≤ td_max_event_bytes d →
  ∃ d', detector_push_all chunks d = (d', Ok ()) ∧ td_terminal d' = first_terminal (td_format d) (td_pending d ++ concat chunks).
Proof.
  revert d. induction chunks as [|chunk chunks IH]; intros d Hr Hnone Hb Hmax.
  - exists d. split; [done|]. cbn [concat]. unfold first_terminal. by rewrite app_nil_r, cut_at_boundary, Hb, Hnone.
  - cbn [detector_push_all concat] in *. unfold detector_push. rewrite bool_decide_eq_false_2, Hr by (rewrite Hnone; by intros [? ?]).
    rewrite app_assoc, length_app in Hmax. cbn zeta.
    destruct (drain_events_spec (length (td_pending d ++ chunk)) (d <| td_pending ::= (.++ chunk) |>)) as (d' & Hd' & (Hf & Hm & Hres) & Hspec & Hlen & Hidle);
      [done|done|cbn; lia|]. cbn [update td_pending td_format td_max_event_bytes td_responses] in *. rewrite Hd'.
    specialize (Hspec (concat chunks)). rewrite app_assoc. case_decide as Ht.
    + rewrite push_all_done by done. exists d'. by rewrite Hspec.
    + apply eq_None_not_Some in Ht. destruct (IH d') as (d2 & Hd2 & Hterm); [congruence|done|by apply Hidle|rewrite length_app; lia|].
      exists d2. split; [done|]. by rewrite Hspec, Hterm, Hf.
Qed.

(** C35: the end of an answer is found: in every dialect but that of Responses, whatever the chunks the answer comes in, if
    it is no longer than the bound on an event, the detector reads it without an error, and afterwards names the first of
    its events that ends the answer, or none if none does. *)
Theorem first_terminal_is_found format chunks : format ≠ OpenAiResponses →
  Z.of_nat (length (concat chunks)) ≤ MAX_TERMINAL_EVENT_BYTES →
  ∃ d, detector_push_all chunks (detector_new format) = (d, Ok ()) ∧ td_terminal d = first_terminal format (concat chunks).
Proof.
  intros Hf Hlen. apply (push_all_finds chunks (detector_new format)); try done.
  - cbn. by rewrite decide_False.
  - destruct format; done.
Qed.
End detector.

(** ** A sample *)
Definition stop_doc : value := Object [("type", VString "message_stop")].
Definition sample_json (s : string) : option value := if str_eqb s "{stop}" then Some stop_doc else None.
Notation crlf := (String CR (String LF "")).
Definition answer : bytes := bytes_of ("event: ping" +:+ crlf +:+ crlf +:+ "data: {stop}" +:+ crlf +:+ crlf +:+ "event: error" +:+ String LF (String LF "")).
Definition answer_chunks : list bytes := [take 13 answer; drop 13 (take 29 answer); drop 29 answer].
Lemma first_terminal_is_found_witness :
  ∃ d, detector_push_all sample_json (λ _, None) (λ _, JNone) (λ _, None) answer_chunks (detector_new AnthropicMessages) = (d, Ok ()) ∧
       td_terminal d = first_terminal sample_json AnthropicMessages (concat answer_chunks).
Proof.
  apply (first_terminal_is_found sample_json (λ _, None) (λ _, JNone) (λ _, None) AnthropicMessages answer_chunks); [done|by vm_compute].
Defined.
Example sample_terminal : first_terminal sample_json AnthropicMessages (concat answer_chunks) = Some Completed ∧
  first_terminal sample_json OpenAiChat (bytes_of ("data: [DONE]" +:+ String LF (String LF ""))) = Some Completed ∧
  first_terminal sample_json GeminiNative (bytes_of ("data: [DONE]" +:+ String LF (String LF ""))) = None.
Proof. by vm_compute. Qed.
