(* ===== verification/Ingress.v ===== *)
(** * Requests the Router signed ([src/clients/router/ingress.rs], [verify_router_ingress] of [src/api/mod.rs])

    The envelope a Router puts around the requests of its users, the middleware that verifies it and hands its fields on
    as trusted headers, and the cache that refuses a request seen before. Base64, the JSON decoder of the context,
    HMAC-SHA-256, SHA-256, the URL parser and what [http] accepts as the text of a header are parameters; the audit log
    is left out. A header has the value [get] returns for its name, in lower case. *)
From S2P Require Import Prelude RustStr.
From Stdlib Require Import ZArith Lia Ascii.

Local Open Scope Z_scope.

(** ** Constants *)
(** clients/router/ingress.rs:8-8 [PROTOCOL_EPOCH] *)
Definition PROTOCOL_EPOCH : string := "namespace-flat-1".
(** clients/router/ingress.rs:9-9 [INGRESS_CONTEXT_HEADER] *)
Definition INGRESS_CONTEXT_HEADER : string := "x-cc-switch-ingress-context".
(** clients/router/ingress.rs:10-10 [INGRESS_SIGNATURE_HEADER] *)
Definition INGRESS_SIGNATURE_HEADER : string := "x-cc-switch-ingress-signature".
(** clients/router/ingress.rs:16-16 [INGRESS_BODY_LIMIT_HEADER] *)
Definition INGRESS_BODY_LIMIT_HEADER : string := "x-cc-switch-ingress-body-limit".
(** clients/router/ingress.rs:17-17 [INTERNAL_INGRESS_ERROR_HEADER] *)
Definition INTERNAL_INGRESS_ERROR_HEADER : string := "x-cc-switch-internal-ingress-error".
(** clients/router/ingress.rs:18-18 [INTERNAL_INGRESS_AGE_MS_HEADER] *)
Definition INTERNAL_INGRESS_AGE_MS_HEADER : string := "x-cc-switch-internal-ingress-age-ms".
(** clients/router/ingress.rs:19-20 [INTERNAL_INGRESS_SERVER_TIME_MS_HEADER] *)
Definition INTERNAL_INGRESS_SERVER_TIME_MS_HEADER : string := "x-cc-switch-internal-ingress-server-time-ms".
(** clients/router/ingress.rs:21-21 [DEFAULT_MAX_CONTEXT_AGE_MS] *)
Definition DEFAULT_MAX_CONTEXT_AGE_MS : Z := 30000.
(** clients/router/ingress.rs:22-22 [DEFAULT_FUTURE_CLOCK_SKEW_MS] *)
Definition DEFAULT_FUTURE_CLOCK_SKEW_MS : Z := 5000.
(** clients/router/ingress.rs:23-23 [SIGNATURE_VERSION_V1] *)
Definition SIGNATURE_VERSION_V1 : Z := 1.
(** clients/router/ingress.rs:24-24 [SIGNATURE_VERSION_V2] *)
Definition SIGNATURE_VERSION_V2 : Z := 2.
(** clients/router/ingress.rs:26-26 [V1_COMPAT_UNTIL_MS] *)
Definition V1_COMPAT_UNTIL_MS : Z := 1788825600000.
(** clients/router/ingress.rs:27-27 [V1_SIGNING_DOMAIN] *)
Definition V1_SIGNING_DOMAIN : string := "cc-switch-router-ingress-v1".
(** clients/router/ingress.rs:28-28 [V2_SIGNING_DOMAIN] *)
Definition V2_SIGNING_DOMAIN : string := "cc-switch-router-ingress-v2".
(** clients/router/ingress.rs:29-29 [SHA256_HEX_LENGTH] *)
Definition SHA256_HEX_LENGTH : Z := 64.
(** clients/router/ingress.rs:30-30 [MAX_REQUEST_ID_BYTES] *)
Definition MAX_REQUEST_ID_BYTES : Z := 128.
(** clients/router/ingress.rs:31-31 [MAX_PATH_AND_QUERY_BYTES] *)
Definition MAX_PATH_AND_QUERY_BYTES : Z := 16 * 1024.
(** clients/router/ingress.rs:32-32 [MAX_REPLAY_ENTRIES] *)
Definition MAX_REPLAY_ENTRIES : Z := 16384.

(** ** The context *)
(** clients/router/ingress.rs:38-67 [IngressContext] *)
Record IngressContext := mk_context {
  ic_signature_version : Z;
  ic_protocol_epoch : string;
  ic_router_id : string;
  ic_route_id : string;
  ic_installation_id : string;
  ic_target_lane_id : string;
  ic_public_host : string;
  ic_share_id : option string;
  ic_request_id : string;
  ic_user_email : option string;
  ic_user_role : option string;
  ic_user_country : option string;
  ic_is_health_check : bool;
  ic_method : string;
  ic_path_and_query : string;
  ic_body_sha256 : string;
  ic_issued_at_ms : Z;
}.
(** clients/router/ingress.rs:73-103 [IngressContextError] *)
Inductive IngressContextError : Type :=
  | InvalidEncoding | InvalidSignature | InvalidJson | UnsupportedEpoch | UnsupportedSignatureVersion | V1CompatibilityEnded
  | Expired (issued_at_ms now_ms : Z) | FutureTimestamp (issued_at_ms now_ms : Z)
  | RouterMismatch | InstallationMismatch | InvalidField | MethodMismatch | PathMismatch | BodyDigestMismatch.
(** clients/router/ingress.rs:106-123 [code] *)
Definition error_code (e : IngressContextError) : string :=
  match e with
  | InvalidEncoding => "invalid_encoding"
  | InvalidSignature => "invalid_signature"
  | InvalidJson => "invalid_json"
  | UnsupportedEpoch => "unsupported_epoch"
  | UnsupportedSignatureVersion => "unsupported_signature_version"
  | V1CompatibilityEnded => "v1_compatibility_ended"
  | Expired _ _ => "expired"
  | FutureTimestamp _ _ => "future_timestamp"
  | RouterMismatch => "router_mismatch"
  | InstallationMismatch => "installation_mismatch"
  | InvalidField => "invalid_field"
  | MethodMismatch => "method_mismatch"
  | PathMismatch => "path_mismatch"
  | BodyDigestMismatch => "body_digest_mismatch"
  end.
(** clients/router/ingress.rs:125-137 [timing] *)
Definition error_timing (e : IngressContextError) : option (Z * Z) :=
  match e with
  | Expired issued_at_ms now_ms | FutureTimestamp issued_at_ms now_ms => Some (issued_at_ms, now_ms)
  | _ => None
  end.
Definition is_v2 (c : IngressContext) : bool := ic_signature_version c =? SIGNATURE_VERSION_V2.

(** ** Its fields *)
(** clients/router/ingress.rs:208-214 [normalize_method] *)
Definition normalize_method (method : string) : option string :=
  let method := trim method in
  if negb (is_empty method) && (str_len method <=? 16) && all_bytes (in_bytes 65 90) method then Some method else None.
(** clients/router/ingress.rs:216-223 [normalize_path_and_query] *)
Definition normalize_path_and_query (path_and_query : string) : option string :=
  let target := trim path_and_query in
  if starts_with "/" target && (str_len target <=? MAX_PATH_AND_QUERY_BYTES) && negb (contains_char "#" target)
     && all_bytes (λ b, negb (in_bytes 0 31 b || in_bytes 127 127 b)) target
  then Some target else None.
(** clients/router/ingress.rs:225-304 [validate] *)
Definition validate (c : IngressContext) (expected_router_id expected_installation_id : string) (now_ms : Z)
    : result IngressContextError () :=
  _ ← fail_if (negb (str_eqb (ic_protocol_epoch c) PROTOCOL_EPOCH)) UnsupportedEpoch;
  _ ← fail_if (negb (str_eqb (ic_router_id c) expected_router_id)) RouterMismatch;
  _ ← fail_if (negb (str_eqb (ic_installation_id c) expected_installation_id)) InstallationMismatch;
  _ ← fail_if (is_empty (trim (ic_route_id c)) || is_empty (trim (ic_target_lane_id c)) || is_empty (trim (ic_public_host c))
               || negb (str_eqb (ic_public_host c) (to_ascii_lowercase (ic_public_host c))) || is_empty (trim (ic_request_id c))
               || (MAX_REQUEST_ID_BYTES <? str_len (ic_request_id c)) || (ic_issued_at_ms c <=? 0)) InvalidField;
  _ ← fail_if (sat_i64 (now_ms + DEFAULT_FUTURE_CLOCK_SKEW_MS) <? ic_issued_at_ms c) (FutureTimestamp (ic_issued_at_ms c) now_ms);
  _ ← fail_if (DEFAULT_MAX_CONTEXT_AGE_MS <? sat_i64 (now_ms - ic_issued_at_ms c)) (Expired (ic_issued_at_ms c) now_ms);
  _ ← fail_if (negb (Bool.eqb (starts_with "share:" (ic_route_id c)) (bool_decide (is_Some (ic_share_id c))))) InvalidField;
  _ ← fail_if (match ic_share_id c with
               | Some share_id => is_empty (trim share_id) || negb (str_eqb (ic_route_id c) ("share:" +:+ share_id))
               | None => negb (str_eqb (ic_route_id c) ("client:" +:+ ic_installation_id c))
               end) InvalidField;
  _ ← fail_if (from_option (λ v, is_empty v || negb (str_eqb v (trim v)) || negb (str_eqb v (to_ascii_lowercase v))
                                 || negb (contains_char "@" v)) false (ic_user_email c)) InvalidField;
  _ ← fail_if (from_option (λ v, negb (one_of ["owner"; "admin"] v)) false (ic_user_role c)) InvalidField;
  fail_if (is_v2 c && (negb (bool_decide (normalize_method (ic_method c) = Some (ic_method c)))
                       || negb (bool_decide (normalize_path_and_query (ic_path_and_query c) = Some (ic_path_and_query c)))
                       || negb (str_len (ic_body_sha256 c) =? SHA256_HEX_LENGTH)
                       || negb (all_bytes (λ b, is_ascii_digit b || in_bytes 97 102 b) (ic_body_sha256 c)))) InvalidField.
(** clients/router/ingress.rs:181-202 [verify_request_binding] *)
Definition verify_request_binding (c : IngressContext) (method path_and_query body_sha256 : string) : result IngressContextError () :=
  if ic_signature_version c =? SIGNATURE_VERSION_V1 then Ok () else
  method ← ok_or InvalidField (normalize_method method);
  _ ← fail_if (negb (str_eqb (ic_method c) method)) MethodMismatch;
  target ← ok_or InvalidField (normalize_path_and_query path_and_query);
  _ ← fail_if (negb (str_eqb (ic_path_and_query c) target)) PathMismatch;
  fail_if (negb (str_eqb (ic_body_sha256 c) body_sha256)) BodyDigestMismatch.

(** ** The replay cache *)
(** clients/router/ingress.rs:306-310 [IngressReplayCache] *)
Record IngressReplayCache := mk_cache { rc_entries : gmap string Z; rc_order : list (string * Z) }.
Definition empty_cache : IngressReplayCache := mk_cache ∅ [].
(** clients/router/ingress.rs:312-317 [IngressReplayDecision] *)
Inductive IngressReplayDecision : Type := Accepted | Replay | Capacity.
Definition UNIT_SEPARATOR : string := String (ascii_of_nat 31) "".
(** clients/router/ingress.rs:325-328 [accept] *)
Definition replay_key (c : IngressContext) : string :=
  ic_router_id c +:+ UNIT_SEPARATOR +:+ ic_installation_id c +:+ UNIT_SEPARATOR +:+ ic_request_id c.
(** clients/router/ingress.rs:339-342 [accept] *)
Definition expires_at (c : IngressContext) : Z :=
  sat_i64 (sat_i64 (ic_issued_at_ms c + DEFAULT_MAX_CONTEXT_AGE_MS) + DEFAULT_FUTURE_CLOCK_SKEW_MS).
(** clients/router/ingress.rs:348-360 [prune] *)
Fixpoint prune (now_ms : Z) (entries : gmap string Z) (order : list (string * Z)) : IngressReplayCache :=
  match order with
  | [] => mk_cache entries []
  | (key, expiry) :: rest =>
      if now_ms <? expiry then mk_cache entries order
      else prune now_ms (if bool_decide (entries !! key = Some expiry) then delete key entries else entries) rest
  end.
(** clients/router/ingress.rs:320-346 [accept] *)
Definition accept (c : IngressContext) (now_ms : Z) (r : IngressReplayCache) : IngressReplayCache * IngressReplayDecision :=
  if negb (is_v2 c) then (r, Accepted) else
  let r := prune now_ms (rc_entries r) (rc_order r) in
  let key := replay_key c in
  if from_option (λ e, now_ms <? e) false (rc_entries r !! key) then (r, Replay) else
  if MAX_REPLAY_ENTRIES <=? Z.of_nat (size (rc_entries r)) then (r, Capacity) else
  (mk_cache (<[key := expires_at c]> (rc_entries r)) (rc_order r ++ [(key, expires_at c)]), Accepted).

(** ** Limits of request bodies *)
(** domain/settings/config.rs:391-397 [RequestBodyLimits] *)
Record RequestBodyLimits := mk_limits { default_bytes : Z; media_bytes : Z; image_bytes : Z }.
Definition image_paths : list string := ["/v1/images/generations"; "/images/generations"; "/v1/images/edits"; "/images/edits"].
Definition video_paths : list string := ["/v1/videos/generations"; "/videos/generations"].
(** domain/settings/config.rs:402-411 [for_path] *)
Definition for_path (l : RequestBodyLimits) (path : string) : Z :=
  let path := from_option fst path (split_once "?" path) in
  if one_of image_paths path then image_bytes l else if one_of video_paths path then media_bytes l else default_bytes l.
(** proxy/mod.rs:98-102 [LEGACY_REQUEST_BODY_LIMIT_BYTES] *)
Definition legacy_limits : RequestBodyLimits := mk_limits (2 * 1024 * 1024) (32 * 1024 * 1024) (48 * 1024 * 1024).
(** api/mod.rs:1193-1201 [legacy_router_ingress_body_limit] *)
Definition legacy_router_ingress_body_limit (path : string) : Z :=
  if one_of image_paths path then image_bytes legacy_limits else if one_of video_paths path then media_bytes legacy_limits
  else default_bytes legacy_limits.
(** [str::parse::<u64>]: an optional plus sign and digits. *)
Definition parse_u64 (s : string) : option Z :=
  let s := default s (strip_prefix "+" s) in
  if negb (is_empty s) && all_digits s && (dec_value s <=? U64_MAX) then Some (dec_value s) else None.
(** api/mod.rs:1222-1231 [resolve_router_ingress_body_limit] *)
Definition resolve_router_ingress_body_limit (limits : RequestBodyLimits) (path : string) (declared : option Z) : Z :=
  match declared with
  | Some declared => Z.min (for_path limits path) declared
  | None => legacy_router_ingress_body_limit path
  end.

(** ** The middleware *)
Notation header_map := (gmap string string).
(** domain/settings/config.rs:188-196 [RouterIdentity] *)
Record RouterIdentity := mk_router_identity {
  ri_installation_id : string; ri_public_key : string; ri_private_key : string; ri_control_secret : option string;
}.
(** domain/settings/config.rs:199-203 [is_registered] *)
Definition is_registered (i : RouterIdentity) : bool :=
  negb (is_empty (trim (ri_installation_id i))) && negb (is_empty (trim (ri_public_key i))) && negb (is_empty (trim (ri_private_key i))).
(** domain/settings/config.rs:163-186 [RouterConfig]: with the fields the middleware reads *)
Record RouterConfig := mk_router {
  ro_url : option string; ro_api_base : option string; ro_domain : option string; ro_identity : option RouterIdentity;
}.
(** domain/settings/config.rs:634-639 [registered_router_identity] *)
Definition registered_router_identity (r : RouterConfig) : option RouterIdentity :=
  i ← ro_identity r; if is_registered i then Some i else None.
(** domain/settings/config.rs:781-787 [router_api_base] *)
Definition router_api_base (r : RouterConfig) : option string :=
  base ← (match ro_api_base r with Some v => Some v | None => ro_url r end); if is_empty (trim base) then None else Some base.
(** A request: what the middleware reads of it. The body is [None] where reading it fails. *)
Record Request := mk_request {
  rq_method : string; rq_path : string; rq_path_and_query : option string;
  rq_headers : header_map; rq_body : option string;
}.
(** What becomes of a request: it is handed to the routes with its headers and the context, which they find as an
    extension, or answered with a status and headers. *)
Inductive ingress_outcome : Type :=
  | Passed (headers : header_map) (context : option IngressContext)
  | Rejected (status : Z) (headers : header_map).
(** api/mod.rs:932-953 [verify_router_ingress] *)
Definition STRIPPED : list string :=
  [INGRESS_CONTEXT_HEADER; INGRESS_SIGNATURE_HEADER; INGRESS_BODY_LIMIT_HEADER; "x-cc-switch-share-id"; "x-cc-switch-share-subdomain";
   "x-cc-switch-share-host"; "x-cc-switch-user-email"; "x-cc-switch-user-country"; "x-cc-switch-user-country-iso3";
   "x-cc-switch-request-id"; "x-cc-switch-health-check"; "x-cc-switch-data-source"; "x-cc-switch-source";
   "x-cc-switch-web-user-email"; "x-cc-switch-web-role"; "x-cc-switch-installation-id"; "x-cc-switch-client-tunnel-subdomain";
   "x-cc-switch-client-tunnel-host"].
Definition strip (names : list string) (h : header_map) : header_map := foldl (λ h name, delete name h) h names.
(** api/mod.rs:1233-1257 [router_ingress_rejection] *)
Definition router_ingress_rejection (code : string) (timing : option (Z * Z)) : ingress_outcome :=
  let headers : header_map := {[INTERNAL_INGRESS_ERROR_HEADER := code]} in
  Rejected 401 (match timing with
    | Some (issued_at_ms, now_ms) =>
        <[INTERNAL_INGRESS_SERVER_TIME_MS_HEADER := pretty now_ms]>
          (<[INTERNAL_INGRESS_AGE_MS_HEADER := pretty (sat_i64 (now_ms - issued_at_ms))]> headers)
    | None => headers
    end).
(** api/mod.rs:1259-1272 [strip_internal_ingress_response_headers] *)
Definition strip_internal_ingress_response_headers : header_map → header_map :=
  strip [INTERNAL_INGRESS_ERROR_HEADER; INTERNAL_INGRESS_AGE_MS_HEADER; INTERNAL_INGRESS_SERVER_TIME_MS_HEADER].
(** api/mod.rs:893-905 [require_router_share_ingress]: the status inference is refused with *)
Definition require_router_share_ingress (context : option IngressContext) : option Z :=
  match context with
  | None => Some 401
  | Some c => if bool_decide (ic_share_id c = None) then Some 403 else None
  end.
Definition first_label (host : string) : option string := head (split_char "." host).

Section ingress.
Context (base64_decode : string → option string) (context_from_slice : string → option IngressContext).
Context (hmac_sha256 : string → string → string) (sha256_hex : string → string) (host_str : string → option string).
(** [HeaderValue::to_str] and [HeaderValue::from_str]. *)
Context (is_text is_value : string → bool).

(** clients/router/client.rs:854-872 [tunnel_router_id] *)
Definition tunnel_router_id (r : RouterConfig) : option string :=
  match (d ← ro_domain r; if is_empty (trim d) then None else Some (trim d)) with
  | Some domain => Some (to_ascii_lowercase (trim_end_char "." domain))
  | None => api_base ← router_api_base r; host ← host_str api_base; Some (to_ascii_lowercase (trim_end_char "." host))
  end.
(** clients/router/ingress.rs:156-161 [verify_envelope] *)
Definition signing_domain (version now_ms : Z) : result IngressContextError string :=
  if (version =? SIGNATURE_VERSION_V1) && (now_ms <=? V1_COMPAT_UNTIL_MS) then Ok V1_SIGNING_DOMAIN
  else if version =? SIGNATURE_VERSION_V1 then Err V1CompatibilityEnded
  else if version =? SIGNATURE_VERSION_V2 then Ok V2_SIGNING_DOMAIN
  else Err UnsupportedSignatureVersion.
(** clients/router/ingress.rs:162-170 [verify_envelope] *)
Definition signed_text (domain encoded_context : string) : string :=
  domain +:+ String (ascii_of_nat 10) "" +:+ PROTOCOL_EPOCH +:+ String (ascii_of_nat 10) "" +:+ encoded_context.
(** clients/router/ingress.rs:140-179 [verify_envelope] *)
Definition verify_envelope (encoded_context signature control_secret expected_router_id expected_installation_id : string) (now_ms : Z)
    : result IngressContextError IngressContext :=
  signature ← ok_or InvalidEncoding (base64_decode signature);
  json ← ok_or InvalidEncoding (base64_decode encoded_context);
  c ← ok_or InvalidJson (context_from_slice json);
  domain ← signing_domain (ic_signature_version c) now_ms;
  _ ← fail_if (negb (str_eqb signature (hmac_sha256 control_secret (signed_text domain encoded_context)))) InvalidSignature;
  _ ← validate c expected_router_id expected_installation_id now_ms;
  Ok c.
(** [headers.get(name)] as text. *)
Definition header_text (h : header_map) (name : string) : option string := v ← h !! name; if is_text v then Some v else None.
(** api/mod.rs:1207-1215 [router_declared_body_limit] *)
Definition router_declared_body_limit (h : header_map) : option Z :=
  v ← header_text h INGRESS_BODY_LIMIT_HEADER; n ← parse_u64 (trim v); if 0 <? n then Some n else None.
(** [axum::body::to_bytes]. *)
Definition to_bytes (body : option string) (limit : Z) : option string :=
  body ← body; if str_len body <=? limit then Some body else None.
Definition set_headers (l : list (string * option string)) (h : header_map) : header_map :=
  foldl (λ h '(name, value), match value with Some v => if is_value v then <[name := v]> h else h | None => h end) h l.
(** api/mod.rs:1118-1164 [verify_router_ingress] *)
Definition trusted_headers (c : IngressContext) (h : header_map) : header_map :=
  let h := set_headers
    [("x-cc-switch-share-id", ic_share_id c);
     ("x-cc-switch-share-subdomain", first_label (ic_public_host c));
     ("x-cc-switch-share-host", (λ _, ic_public_host c) <$> ic_share_id c);
     ("x-cc-switch-user-email", ic_user_email c);
     ("x-cc-switch-user-country", ic_user_country c);
     ("x-cc-switch-request-id", Some (ic_request_id c))] h in
  let h := if ic_is_health_check c then <["x-cc-switch-health-check" := "1"]> h else h in
  if bool_decide (ic_share_id c = None) then
    set_headers
      [("x-cc-switch-web-user-email", ic_user_email c);
       ("x-cc-switch-web-role", ic_user_role c);
       ("x-cc-switch-installation-id", Some (ic_installation_id c));
       ("x-cc-switch-client-tunnel-subdomain", first_label (ic_public_host c));
       ("x-cc-switch-client-tunnel-host", Some (ic_public_host c))] h
  else h.
(** api/mod.rs:955-1031 [verify_router_ingress]: the context of a request that carries one *)
Definition request_context (r : RouterConfig) (now_ms : Z) (h : header_map) : result ingress_outcome (option IngressContext) :=
  match header_text h INGRESS_CONTEXT_HEADER, header_text h INGRESS_SIGNATURE_HEADER with
  | None, None => Ok None
  | Some encoded, Some signature =>
      identity ← ok_or (router_ingress_rejection "router_identity_unavailable" None) (registered_router_identity r);
      control_secret ← ok_or (router_ingress_rejection "control_secret_unavailable" None) (ri_control_secret identity);
      router_id ← ok_or (router_ingress_rejection "router_binding_invalid" None) (tunnel_router_id r);
      match verify_envelope encoded signature control_secret router_id (ri_installation_id identity) now_ms with
      | Ok c => Ok (Some c)
      | Err e => Err (router_ingress_rejection (error_code e) (error_timing e))
      end
  | _, _ => Err (router_ingress_rejection "headers_incomplete" None)
  end.
(** api/mod.rs:1038-1093 [verify_router_ingress]: the request a context of version 2 was signed for *)
Definition check_binding (limits : RequestBodyLimits) (c : IngressContext) (rq : Request) : result ingress_outcome () :=
  if negb (is_v2 c) then Ok () else
  let limit := resolve_router_ingress_body_limit limits (rq_path rq) (router_declared_body_limit (rq_headers rq)) in
  body ← ok_or (Rejected 413 ∅) (to_bytes (rq_body rq) limit);
  match verify_request_binding c (rq_method rq) (default "/" (rq_path_and_query rq)) (sha256_hex body) with
  | Ok _ => Ok ()
  | Err e => Err (router_ingress_rejection (error_code e) None)
  end.
(** api/mod.rs:907-1168 [verify_router_ingress]; the clock is read for the envelope, and again for the cache once the
    body has arrived *)
Definition verify_router_ingress (limits : RequestBodyLimits) (r : RouterConfig) (verify_now accept_now : Z) (rq : Request)
    (cache : IngressReplayCache) : IngressReplayCache * ingress_outcome :=
  let headers := strip STRIPPED (rq_headers rq) in
  match request_context r verify_now (rq_headers rq) with
  | Err rejection => (cache, rejection)
  | Ok None => (cache, Passed headers None)
  | Ok (Some c) =>
      match check_binding limits c rq with
      | Err rejection => (cache, rejection)
      | Ok _ =>
          match accept c accept_now cache with
          | (cache, Accepted) => (cache, Passed (trusted_headers c headers) (Some c))
          | (cache, Replay) => (cache, router_ingress_rejection "replayed_request_id" None)
          | (cache, Capacity) => (cache, router_ingress_rejection "replay_cache_capacity" None)
          end
      end
  end.
End ingress.
