(* ===== verification/IngressProofs.v ===== *)
(** * What a signed request may rely on

    A request is handed on with a context only if the Router signed it for this installation, moments ago and for this very
    method, path and body; the headers the routes trust are those of the context, whatever the request carried; a request
    is not let through twice unless its body took five seconds to arrive; and the cache that sees to it is full only of
    requests of the last forty seconds. *)
From S2P Require Import Prelude RustStr Ingress.
From Stdlib Require Import ZArith Lia Ascii.

Local Open Scope Z_scope.

(** [DateTime::timestamp_millis] of a clock between 1970 and the last date chrono has. *)
Definition is_clock (t : Z) : Prop := 0 ≤ t ≤ 8210266876799999.

(** ** The cache *)
Lemma prune_keeps now entries order k e : entries !! k = Some e → now < e → rc_entries (prune now entries order) !! k = Some e.
Proof.
  intros Hk He. revert entries Hk. induction order as [|[key expiry] order IH]; intros entries Hk; [done|]. cbn [prune].
  destruct (now <? expiry) eqn:Hlt; [done|]. apply IH. apply Z.ltb_ge in Hlt. case_bool_decide as Heq; [|done].
  rewrite lookup_delete_ne; [done|]. intros ->. rewrite Hk in Heq. injection Heq as ->. lia.
Qed.
Lemma accept_keeps c now r k e : rc_entries r !! k = Some e → now < e → rc_entries (accept c now r).1 !! k = Some e.
Proof.
  intros Hk He. unfold accept. destruct (is_v2 c); cbn [negb]; [|done].
  pose proof (prune_keeps now (rc_entries r) (rc_order r) k e Hk He) as Hp. destruct (from_option _ _ _) eqn:Hseen; [done|].
  destruct (_ <=? _); [done|]. cbn [fst rc_entries]. rewrite lookup_insert_ne; [done|]. intros Heq.
  rewrite Heq, Hp in Hseen. cbn in Hseen. apply Z.ltb_ge in Hseen. lia.
Qed.
Lemma accepted_is_stored c now r : is_v2 c = true → (accept c now r).2 = Accepted →
  rc_entries (accept c now r).1 !! replay_key c = Some (expires_at c).
Proof.
  intros Hv. unfold accept. rewrite Hv. cbn [negb]. destruct (from_option _ _ _); [done|]. destruct (_ <=? _); [done|]. intros _.
  apply lookup_insert_eq.
Qed.
Lemma seen_is_refused c now r e : is_v2 c = true → rc_entries r !! replay_key c = Some e → now < e → (accept c now r).2 = Replay.
Proof.
  intros Hv Hk He. unfold accept. rewrite Hv, (prune_keeps now (rc_entries r) (rc_order r) _ e Hk He). cbn.
  by rewrite (proj2 (Z.ltb_lt now e) He).
Qed.
Lemma expires_at_exact c : 0 < ic_issued_at_ms c ≤ 8210266876804999 → expires_at c = ic_issued_at_ms c + 35000.
Proof.
  intros Hc. unfold expires_at, sat_i64, saturate, DEFAULT_MAX_CONTEXT_AGE_MS, DEFAULT_FUTURE_CLOCK_SKEW_MS, I64_MIN, I64_MAX. lia.
Qed.

Section ingress.
Context (base64_decode : string → option string) (context_from_slice : string → option IngressContext).
Context (hmac_sha256 : string → string → string) (sha256_hex : string → string) (host_str : string → option string).
Context (is_text is_value : string → bool).
Notation envelope := (verify_envelope base64_decode context_from_slice hmac_sha256).
Notation text_of := (header_text is_text).

(** ** Requests as they reach the cache *)
Record arrival := mk_arrival {
  ar_limits : RequestBodyLimits; ar_router : RouterConfig; ar_verify : Z; ar_accept : Z; ar_request : Request;
}.
Definition arrive (cache : IngressReplayCache) (a : arrival) : IngressReplayCache * ingress_outcome :=
  verify_router_ingress base64_decode context_from_slice hmac_sha256 sha256_hex host_str is_text is_value
    (ar_limits a) (ar_router a) (ar_verify a) (ar_accept a) (ar_request a) cache.
Definition arrive_all : IngressReplayCache → list arrival → IngressReplayCache := foldl (λ cache a, (arrive cache a).1).
(** The lock of the cache is taken at times that do not go back, after the envelope was verified. *)
Fixpoint in_order (last : Z) (l : list arrival) : Prop :=
  match l with
  | [] => True
  | a :: l => last ≤ ar_accept a ∧ ar_verify a ≤ ar_accept a ∧ is_clock (ar_verify a) ∧ in_order (ar_accept a) l
  end.

(** ** What a request passed *)
Notation context_of a := (request_context base64_decode context_from_slice hmac_sha256 host_str is_text
  (ar_router a) (ar_verify a) (rq_headers (ar_request a))).
(** A request turned away before it reaches the cache. *)
Definition turned_away (o : ingress_outcome) : Prop :=
  match o with Passed _ _ => False | Rejected _ h => h !! INTERNAL_INGRESS_ERROR_HEADER ≠ Some "replay_cache_capacity" end.
Lemma rejection_code code timing : ∃ h, router_ingress_rejection code timing = Rejected 401 h ∧ h !! INTERNAL_INGRESS_ERROR_HEADER = Some code.
Proof. destruct timing as [[issued now]|]; eexists; (split; [reflexivity|]); by simplify_map_eq. Qed.
Lemma rejection_away code timing : code ≠ "replay_cache_capacity" → turned_away (router_ingress_rejection code timing).
Proof. intros Hc. destruct (rejection_code code timing) as (h & -> & Hh). cbn. rewrite Hh. by intros [= ->]. Qed.
Lemma context_away a rejection : context_of a = Err rejection → turned_away rejection.
Proof.
  unfold request_context. destruct (text_of _ _), (text_of _ _); try done; [|by intros [= <-]; apply rejection_away..].
  destruct (registered_router_identity _); cbn; [|by intros [= <-]; apply rejection_away].
  destruct (ri_control_secret _); cbn; [|by intros [= <-]; apply rejection_away].
  destruct (tunnel_router_id _ _); cbn; [|by intros [= <-]; apply rejection_away].
  destruct (envelope _ _ _ _ _ _) as [|e]; [done|]. intros [= <-]. apply rejection_away. by destruct e.
Qed.
Lemma binding_away limits c rq rejection : check_binding sha256_hex is_text limits c rq = Err rejection → turned_away rejection.
Proof.
  unfold check_binding. destruct (negb _); [done|]. destruct (to_bytes _ _); cbn; [|by intros [= <-]].
  destruct (verify_request_binding _ _ _ _) as [|e]; [done|]. intros [= <-]. apply rejection_away. by destruct e.
Qed.
Lemma arrive_cases cache a :
  ((arrive cache a).1 = cache ∧ (turned_away (arrive cache a).2 ∨ ∃ h c, (arrive cache a).2 = Passed h c ∧ from_option is_v2 false c = false)) ∨
  ∃ c, context_of a = Ok (Some c) ∧ check_binding sha256_hex is_text (ar_limits a) c (ar_request a) = Ok () ∧ is_v2 c = true ∧
    (arrive cache a).1 = (accept c (ar_accept a) cache).1 ∧
    (arrive cache a).2 = match (accept c (ar_accept a) cache).2 with
      | Accepted => Passed (trusted_headers is_value c (strip STRIPPED (rq_headers (ar_request a)))) (Some c)
      | Replay => router_ingress_rejection "replayed_request_id" None
      | Capacity => router_ingress_rejection "replay_cache_capacity" None
      end.
Proof.
  unfold arrive, verify_router_ingress. destruct (request_context _ _ _ _ _ _ _ _) as [[c|]|rejection] eqn:Hctx.
  - destruct (check_binding _ _ _ _ _) as [[]|rejection] eqn:Hb; [|left; split; [done|left; by eapply binding_away]].
    destruct (is_v2 c) eqn:Hv.
    + right. exists c. by destruct (accept c (ar_accept a) cache) as [r []].
    + left. unfold accept. rewrite Hv. cbn. split; [done|right; by repeat eexists].
  - left. split; [done|right; by repeat eexists].
  - left. split; [done|left; by eapply context_away].
Qed.
(** A context of version 2 passed. *)
Lemma passed_v2 cache a h c : (arrive cache a).2 = Passed h (Some c) → is_v2 c = true →
  context_of a = Ok (Some c) ∧ check_binding sha256_hex is_text (ar_limits a) c (ar_request a) = Ok () ∧
  (arrive cache a).1 = (accept c (ar_accept a) cache).1 ∧ (accept c (ar_accept a) cache).2 = Accepted.
Proof.
  intros Hp Hv. destruct (arrive_cases cache a) as [[_ [Haway|(h' & c' & Hp' & Hv')]]|(c' & Hctx & Hb & Hv' & Hcache & Hout)].
  - by rewrite Hp in Haway.
  - rewrite Hp in Hp'. injection Hp' as <- <-. cbn in Hv'. congruence.
  - rewrite Hp in Hout. destruct (accept c' (ar_accept a) cache).2 eqn:Hd; [|done..].
    injection Hout as -> <-. done.
Qed.
Lemma arrive_keeps cache a k e : rc_entries cache !! k = Some e → ar_accept a < e → rc_entries (arrive cache a).1 !! k = Some e.
Proof.
  intros Hk He. destruct (arrive_cases cache a) as [[-> _]|(c & _ & _ & _ & -> & _)]; [done|]. by apply accept_keeps.
Qed.
Lemma in_order_last last l a : in_order last (l ++ [a]) → last ≤ ar_accept a ∧ ar_verify a ≤ ar_accept a ∧ is_clock (ar_verify a) ∧
  Forall (λ b, ar_accept b ≤ ar_accept a) l.
Proof.
  revert last. induction l as [|b l IH]; intros last; cbn; [by intros (? & ? & ? & _)|]. intros (Hl & _ & _ & Hrest).
  destruct (IH _ Hrest) as (? & ? & ? & ?). split_and!; [lia|done|done|by constructor].
Qed.
Lemma arrive_all_keeps cache l k e t : rc_entries cache !! k = Some e → Forall (λ b, ar_accept b ≤ t) l → t < e →
  rc_entries (arrive_all cache l) !! k = Some e.
Proof.
  intros Hk Hl He. revert cache Hk. induction Hl as [|b l Hb Hl IH]; intros cache Hk; [done|]. apply IH. apply arrive_keeps; [done|lia].
Qed.

(** ** What the envelope says *)
(** The time a context was issued, against the clock that verified it. *)
Definition fresh_at (t : Z) (c : IngressContext) : Prop :=
  0 < ic_issued_at_ms c ∧ t - DEFAULT_MAX_CONTEXT_AGE_MS ≤ ic_issued_at_ms c ≤ t + DEFAULT_FUTURE_CLOCK_SKEW_MS.
Lemma validate_context_Ok c router_id installation_id now u : validate c router_id installation_id now = Ok u → is_clock now →
  ic_router_id c = router_id ∧ ic_installation_id c = installation_id ∧ fresh_at now c.
Proof.
  unfold validate, fresh_at, is_clock. intros Hv Hn.
  repeat (apply bind_Ok in Hv as ([] & ?%fail_if_Ok & Hv)). clear Hv.
  repeat match goal with H : negb _ = false |- _ => apply negb_false_iff, str_eqb_eq in H end.
  repeat match goal with H : (_ || _) = false |- _ => apply orb_false_iff in H as [? ?] end.
  repeat match goal with H : (_ <? _) = false |- _ => apply Z.ltb_ge in H | H : (_ <=? _) = false |- _ => apply Z.leb_gt in H end.
  split_and!; [done|done|done|..];
    unfold sat_i64, saturate, DEFAULT_MAX_CONTEXT_AGE_MS, DEFAULT_FUTURE_CLOCK_SKEW_MS, I64_MIN, I64_MAX in *; lia.
Qed.
Lemma context_Ok a c : context_of a = Ok (Some c) → is_clock (ar_verify a) →
  ∃ encoded signature identity control_secret domain json,
    text_of (rq_headers (ar_request a)) INGRESS_CONTEXT_HEADER = Some encoded ∧
    text_of (rq_headers (ar_request a)) INGRESS_SIGNATURE_HEADER = Some signature ∧
    registered_router_identity (ar_router a) = Some identity ∧ ri_control_secret identity = Some control_secret ∧
    signing_domain (ic_signature_version c) (ar_verify a) = Ok domain ∧
    base64_decode signature = Some (hmac_sha256 control_secret (signed_text domain encoded)) ∧
    base64_decode encoded = Some json ∧ context_from_slice json = Some c ∧
    tunnel_router_id host_str (ar_router a) = Some (ic_router_id c) ∧ ri_installation_id identity = ic_installation_id c ∧
    fresh_at (ar_verify a) c.
Proof.
  unfold request_context. intros Hctx Hclock.
  destruct (text_of _ INGRESS_CONTEXT_HEADER) as [encoded|], (text_of _ INGRESS_SIGNATURE_HEADER) as [signature|]; try done.
  apply bind_Ok in Hctx as (identity & Hid%ok_or_Ok & Hctx). apply bind_Ok in Hctx as (control_secret & Hsecret%ok_or_Ok & Hctx).
  apply bind_Ok in Hctx as (router_id & Hrouter%ok_or_Ok & Hctx).
  destruct (envelope _ _ _ _ _ _) as [c'|] eqn:Henv; [|done]. injection Hctx as ->. unfold verify_envelope in Henv.
  apply bind_Ok in Henv as (sig & Hsig%ok_or_Ok & Henv). apply bind_Ok in Henv as (json & Hjson%ok_or_Ok & Henv).
  apply bind_Ok in Henv as (c0 & Hc%ok_or_Ok & Henv). apply bind_Ok in Henv as (domain & Hdomain & Henv).
  apply bind_Ok in Henv as ([] & Hmac%fail_if_Ok%negb_false_iff%str_eqb_eq & Henv).
  apply bind_Ok in Henv as ([] & (Hr & Hi & Hf)%validate_context_Ok & [= ->]); [|done].
  exists encoded, signature, identity, control_secret, domain, json. by subst.
Qed.


(** ** The request the context was signed for *)
Lemma binding_Ok limits c rq : check_binding sha256_hex is_text limits c rq = Ok () → is_v2 c = true →
  ∃ body, rq_body rq = Some body ∧
    str_len body ≤ resolve_router_ingress_body_limit limits (rq_path rq) (router_declared_body_limit is_text (rq_headers rq)) ∧
    ic_method c = trim (rq_method rq) ∧ ic_path_and_query c = trim (default "/" (rq_path_and_query rq)) ∧
    ic_body_sha256 c = sha256_hex body.
Proof.
  unfold check_binding. intros Hb Hv. rewrite Hv in Hb. cbn [negb] in Hb.
  apply bind_Ok in Hb as (body & Hbody%ok_or_Ok & Hb). unfold to_bytes in Hbody.
  apply bind_Some in Hbody as (body' & Hrq & Hlen). destruct (_ <=? _) eqn:Hle; [|done]. injection Hlen as ->. apply Z.leb_le in Hle.
  destruct (verify_request_binding _ _ _ _) as [[]|] eqn:E; [|done]. unfold verify_request_binding in E.
  unfold is_v2 in Hv. apply Z.eqb_eq in Hv. rewrite Hv in E. cbn [Z.eqb SIGNATURE_VERSION_V1 SIGNATURE_VERSION_V2 Pos.eqb] in E.
  apply bind_Ok in E as (method & Hm%ok_or_Ok & E). apply bind_Ok in E as ([] & Hm'%fail_if_Ok%negb_false_iff%str_eqb_eq & E).
  apply bind_Ok in E as (target & Ht%ok_or_Ok & E). apply bind_Ok in E as ([] & Ht'%fail_if_Ok%negb_false_iff%str_eqb_eq & E).
  apply fail_if_Ok, negb_false_iff, str_eqb_eq in E. unfold normalize_method, normalize_path_and_query in *. cbn zeta in *.
  destruct (_ && all_bytes _ _); [|done]. injection Hm as <-. destruct (_ && all_bytes _ _); [|done]. injection Ht as <-. by exists body.
Qed.
(** What a request that passed went through. *)
Lemma passed_through cache a h ctx : (arrive cache a).2 = Passed h ctx →
  context_of a = Ok ctx ∧ (∀ c, ctx = Some c → check_binding sha256_hex is_text (ar_limits a) c (ar_request a) = Ok ()) ∧
  h = from_option (trusted_headers is_value) id ctx (strip STRIPPED (rq_headers (ar_request a))).
Proof.
  unfold arrive, verify_router_ingress. destruct (request_context _ _ _ _ _ _ _ _) as [[c|]|rejection] eqn:Hctx; cbn.
  - destruct (check_binding _ _ _ _ _) as [[]|rejection] eqn:Hb; cbn.
    + destruct (accept c (ar_accept a) cache) as [r []]; cbn; try done. intros [= <- <-]. split_and!; [done| |done]. by intros c' [= <-].
    + intros ->. by apply binding_away in Hb.
  - intros [= <- <-]. done.
  - intros ->. by apply context_away in Hctx.
Qed.

(** C21: what passes with a context was signed by the Router: a request handed on with a context carried an envelope whose
    signature is the HMAC, under the secret this installation shares with its Router, of the very text the context was
    decoded from; the context names this Router and this installation and was issued in the last thirty seconds, or at
    most five seconds ahead; its version is the second, or the first before that was retired; and with the second the
    method, the path and the digest of the body, read within its limit, are those of the request itself. *)
Theorem admitted_request_is_signed cache a h c : is_clock (ar_verify a) → (arrive cache a).2 = Passed h (Some c) →
  ∃ encoded json identity control_secret domain,
    text_of (rq_headers (ar_request a)) INGRESS_CONTEXT_HEADER = Some encoded ∧
    (text_of (rq_headers (ar_request a)) INGRESS_SIGNATURE_HEADER ≫= base64_decode)
      = Some (hmac_sha256 control_secret (signed_text domain encoded)) ∧
    base64_decode encoded = Some json ∧ context_from_slice json = Some c ∧
    registered_router_identity (ar_router a) = Some identity ∧ ri_control_secret identity = Some control_secret ∧
    ic_installation_id c = ri_installation_id identity ∧ Some (ic_router_id c) = tunnel_router_id host_str (ar_router a) ∧
    fresh_at (ar_verify a) c ∧
    ((ic_signature_version c = 1 ∧ ar_verify a ≤ V1_COMPAT_UNTIL_MS ∧ domain = V1_SIGNING_DOMAIN) ∨
     (ic_signature_version c = 2 ∧ domain = V2_SIGNING_DOMAIN ∧
      ic_method c = trim (rq_method (ar_request a)) ∧ ic_path_and_query c = trim (default "/" (rq_path_and_query (ar_request a))) ∧
      ∃ body, rq_body (ar_request a) = Some body ∧ ic_body_sha256 c = sha256_hex body ∧
        str_len body ≤ resolve_router_ingress_body_limit (ar_limits a) (rq_path (ar_request a))
                         (router_declared_body_limit is_text (rq_headers (ar_request a))))).
Proof.
  intros Hclock (Hctx & Hb & _)%passed_through. specialize (Hb c eq_refl).
  destruct (context_Ok _ _ Hctx Hclock) as (encoded & signature & identity & secret & domain & json & He & Hs & Hid & Hsec & Hd & Hsig & Hj & Hc & Hr & Hi & Hf).
  exists encoded, json, identity, secret, domain. rewrite Hs. split_and!; try done. unfold signing_domain in Hd.
  destruct (_ && _) eqn:H1; [|destruct (_ =? SIGNATURE_VERSION_V1) eqn:H2; [done|]; destruct (_ =? SIGNATURE_VERSION_V2) eqn:H3; [|done]].
  - left. apply andb_prop in H1 as [H1%Z.eqb_eq H2%Z.leb_le]. injection Hd as <-. done.
  - right. destruct (binding_Ok _ _ _ Hb H3) as (body & Hbody & Hlen & Hm & Hp & Hsha). apply Z.eqb_eq in H3. injection Hd as <-.
    split_and!; [done..|]. by exists body.
Qed.

(** ** The headers the routes trust *)
(** A value a header can hold. *)
Definition text (v : option string) : option string := v ← v; if is_value v then Some v else None.
(** What the routes find under the names the middleware owns; of a name not listed, nothing. *)
Definition trusted_table (c : IngressContext) : list (string * option string) :=
  let unshared v := if bool_decide (ic_share_id c = None) then text v else None in
  [("x-cc-switch-share-id", text (ic_share_id c)); ("x-cc-switch-share-subdomain", text (first_label (ic_public_host c)));
   ("x-cc-switch-share-host", text ((λ _, ic_public_host c) <$> ic_share_id c)); ("x-cc-switch-user-email", text (ic_user_email c));
   ("x-cc-switch-user-country", text (ic_user_country c)); ("x-cc-switch-request-id", text (Some (ic_request_id c)));
   ("x-cc-switch-health-check", if ic_is_health_check c then Some "1" else None);
   ("x-cc-switch-web-user-email", unshared (ic_user_email c)); ("x-cc-switch-web-role", unshared (ic_user_role c));
   ("x-cc-switch-installation-id", unshared (Some (ic_installation_id c)));
   ("x-cc-switch-client-tunnel-subdomain", unshared (first_label (ic_public_host c)));
   ("x-cc-switch-client-tunnel-host", unshared (Some (ic_public_host c)))].
Definition trusted_value (c : IngressContext) (name : string) : option string :=
  foldr (λ x v, if str_eqb name x.1 then x.2 else v) None (trusted_table c).
Lemma lookup_strip names h name : strip names h !! name = if one_of names name then None else h !! name.
Proof.
  unfold strip. revert h. induction names as [|n names IH]; intros h; [done|]. cbn [foldl]. rewrite IH. unfold one_of. cbn [existsb].
  destruct (existsb _ names); [by rewrite orb_true_r|]. rewrite orb_false_r. destruct (str_eqb name n) eqn:He.
  - apply str_eqb_eq in He as ->. by rewrite lookup_delete_eq.
  - rewrite lookup_delete_ne; [done|]. intros ->. by rewrite (proj2 (str_eqb_eq _ _)) in He.
Qed.
Definition put (name : string) (o : option string) (x : string * option string) : option string :=
  if str_eqb name x.1 then from_option Some o (text x.2) else o.
Lemma lookup_set_headers l h name : set_headers is_value l h !! name = foldl (put name) (h !! name) l.
Proof.
  unfold set_headers. revert h. induction l as [|[n v] l IH]; intros h; [done|]. cbn [foldl]. rewrite IH. f_equal. unfold put, text. cbn [fst snd].
  destruct (str_eqb name n) eqn:He.
  - apply str_eqb_eq in He as ->. destruct v as [v|]; [|done]. cbn. destruct (is_value v); [by rewrite lookup_insert_eq|done].
  - destruct v as [v|]; [|done]. destruct (is_value v); [|done]. rewrite lookup_insert_ne; [done|].
    intros ->. by rewrite (proj2 (str_eqb_eq _ _)) in He.
Qed.
Lemma lookup_set_flag (b : bool) k v h name :
  (if b then <[k := v]> h else h : header_map) !! name = if b && str_eqb name k then Some v else h !! name.
Proof.
  destruct b; [|done]. cbn [andb]. destruct (str_eqb name k) eqn:He.
  - apply str_eqb_eq in He as ->. by rewrite lookup_insert_eq.
  - rewrite lookup_insert_ne; [done|]. intros ->. by rewrite (proj2 (str_eqb_eq _ _)) in He.
Qed.
Lemma trusted_header_lookup c h name : name ∈ STRIPPED → h !! name = None → trusted_headers is_value c h !! name = trusted_value c name.
Proof.
  intros Hin Hnone. unfold trusted_headers. cbn zeta.
  assert (∀ (b : bool) (m : header_map) l, (if b then set_headers is_value l m else m) !! name
    = if b then foldl (put name) (m !! name) l else m !! name) as Hset by (intros [] m l; [apply lookup_set_headers|done]).
  rewrite Hset, !lookup_set_flag, !lookup_set_headers, Hnone. clear Hset Hnone h. unfold trusted_value, trusted_table, put.
  cbn [foldl foldr fst snd].
  generalize (bool_decide (ic_share_id c = None)) as unshared, (ic_is_health_check c) as health, (text (ic_share_id c)) as v1,
    (text (first_label (ic_public_host c))) as v2, (text ((λ _, ic_public_host c) <$> ic_share_id c)) as v3, (text (ic_user_email c)) as v4,
    (text (ic_user_country c)) as v5, (text (Some (ic_request_id c))) as v6, (text (ic_user_role c)) as v7,
    (text (Some (ic_installation_id c))) as v8, (text (Some (ic_public_host c))) as v9. intros.
  unfold STRIPPED in Hin. repeat (apply elem_of_cons in Hin as [->|Hin]; [lazy; by repeat case_match|]).
  by apply elem_of_nil in Hin.
Qed.
Lemma other_header_lookup c h name : one_of STRIPPED name = false → trusted_headers is_value c h !! name = h !! name.
Proof.
  intros Hout. assert (∀ n, one_of STRIPPED n = true → str_eqb name n = false) as Hne.
  { intros n Hn. destruct (str_eqb name n) eqn:He; [|done]. apply str_eqb_eq in He as ->. congruence. }
  assert (∀ l : list (string * option string), Forall (λ x, one_of STRIPPED x.1 = true) l → ∀ m, set_headers is_value l m !! name = m !! name) as Hset.
  { intros l Hl m. rewrite lookup_set_headers. generalize (m !! name) as o. induction Hl as [|x l Hx Hl IH]; intros o; [done|].
    cbn [foldl]. unfold put at 2. rewrite (Hne _ Hx). apply IH. }
  unfold trusted_headers. cbn zeta.
  assert (∀ (b : bool) (m : header_map) l, Forall (λ x, one_of STRIPPED x.1 = true) l →
    (if b then set_headers is_value l m else m) !! name = m !! name) as Hif by (intros [] m l Hl; [by apply Hset|done]).
  rewrite Hif by (repeat constructor). rewrite lookup_set_flag, (Hne "x-cc-switch-health-check" eq_refl), andb_false_r.
  apply Hset. repeat constructor.
Qed.

(** C23: the routes trust only what was signed: the request that is handed on has under each name the middleware owns what
    the context says of it and nothing else, so nothing without a context and nothing the request itself carried there;
    the owner's headers only where the context is not of a share; and every other header as it came. *)
Theorem trusted_headers_are_signed cache a h ctx name : (arrive cache a).2 = Passed h ctx →
  h !! name = if one_of STRIPPED name then (c ← ctx; trusted_value c name) else rq_headers (ar_request a) !! name.
Proof.
  intros (_ & _ & ->)%passed_through. pose proof (lookup_strip STRIPPED (rq_headers (ar_request a)) name) as Hstrip.
  destruct ctx as [c|]; cbn [from_option mbind option_bind id]; [|done]. destruct (one_of STRIPPED name) eqn:Hin.
  - apply trusted_header_lookup; [|done]. unfold one_of in Hin. apply existsb_exists in Hin as (n & Hn & ->%str_eqb_eq).
    by apply list_elem_of_In.
  - by rewrite other_header_lookup.
Qed.

(** ** The queue of the cache *)
Notation seen := (IngressContext * Z)%type.
Definition queued (x : seen) : string * Z := (replay_key x.1, expires_at x.1).
(** The contexts of version 2 that arrivals let through, with the times they did. *)
Definition let_through_by (cache : IngressReplayCache) (a : arrival) : list seen :=
  match (arrive cache a).2 with Passed _ (Some c) => if is_v2 c then [(c, ar_accept a)] else [] | _ => [] end.
Fixpoint let_through (cache : IngressReplayCache) (l : list arrival) : list seen :=
  match l with [] => [] | a :: l => let_through_by cache a ++ let_through (arrive cache a).1 l end.
(** The queue is a suffix of what was let through, in the order it was, and holds every entry of the map. *)
Record queue_ok (cache : IngressReplayCache) (kept : list seen) (now : Z) : Prop := {
  qo_order : rc_order cache = queued <$> kept;
  qo_entries : ∀ k e, rc_entries cache !! k = Some e → (k, e) ∈ rc_order cache;
  qo_sorted : StronglySorted (λ x y, x.2 ≤ y.2) kept;
  qo_recent : Forall (λ x, x.2 ≤ now ∧ expires_at x.1 ≤ x.2 + 40000) kept;
}.
Lemma prune_queue cache kept last now : queue_ok cache kept last → last ≤ now →
  ∃ dropped left, kept = dropped ++ left ∧ queue_ok (prune now (rc_entries cache) (rc_order cache)) left now ∧ Forall (λ x, now < x.2 + 40000) left.
Proof.
  intros [Ho He Hs Hr] Hle. destruct cache as [entries order]. cbn [rc_entries rc_order] in *. subst order.
  revert entries He. induction kept as [|x kept IH]; intros entries He; cbn [fmap list_fmap prune] in *.
  { exists [], []. split_and!; [done| |done]. by split; [done|exact He|constructor|constructor]. }
  apply StronglySorted_inv in Hs as [Hs Hx]. apply Forall_cons in Hr as [[Hx1 Hx2] Hr]. destruct (queued x) as [k expiry] eqn:Hq.
  injection Hq as Hk Hexp. destruct (now <? expiry) eqn:Hlt.
  - apply Z.ltb_lt in Hlt. exists [], (x :: kept). split; [done|]. split.
    + split; cbn [rc_order rc_entries]; [cbn; by rewrite <-Hk, <-Hexp|done|by constructor|].
      constructor; [split; [lia|done]|]. eapply Forall_impl; [exact Hr|]. cbn. intros y [? ?]. split; [lia|done].
    + constructor; [lia|]. eapply Forall_impl; [exact Hx|]. cbn. intros y Hy. lia.
  - destruct (IH Hs Hr (if bool_decide (entries !! k = Some expiry) then delete k entries else entries)) as (dropped & rest & -> & Hok & Hrec).
    + intros k' e' Hk'. assert (entries !! k' = Some e' ∧ (k', e') ≠ (k, expiry)) as [Hl Hne].
      { case_bool_decide as Hb.
        - apply lookup_delete_Some in Hk' as [Hne Hk']. split; [done|]. intros [= -> _]. done.
        - split; [done|]. intros [= -> ->]. done. }
      specialize (He k' e' Hl). apply elem_of_cons in He as [?|]; done.
    + by exists (x :: dropped), rest.
Qed.
Lemma entries_queued cache kept now : queue_ok cache kept now → (size (rc_entries cache) ≤ length kept)%nat.
Proof.
  intros [Ho He _ _]. rewrite <-(length_fmap queued kept), <-Ho, <-length_map_to_list. apply submseteq_length, NoDup_submseteq; [apply NoDup_map_to_list|].
  intros [k e] Hin%elem_of_map_to_list. by apply He.
Qed.
Lemma queue_later cache kept last now : last ≤ now → queue_ok cache kept last → queue_ok cache kept now.
Proof. intros Hle [Ho He Hs Hr]. split; try done. eapply Forall_impl; [exact Hr|]. cbn. intros y [? ?]. split; [lia|done]. Qed.
Lemma fresh_expires a c : is_clock (ar_verify a) → ar_verify a ≤ ar_accept a → fresh_at (ar_verify a) c → expires_at c ≤ ar_accept a + 40000.
Proof.
  unfold is_clock, fresh_at, DEFAULT_MAX_CONTEXT_AGE_MS, DEFAULT_FUTURE_CLOCK_SKEW_MS. intros ? ? [? ?]. rewrite expires_at_exact; lia.
Qed.
Lemma accept_queue c now cache kept last : queue_ok cache kept last → last ≤ now → is_v2 c = true → expires_at c ≤ now + 40000 →
  ∃ dropped left, kept ++ (match (accept c now cache).2 with Accepted => [(c, now)] | _ => [] end) = dropped ++ left ∧
    queue_ok (accept c now cache).1 left now.
Proof.
  intros Hok Hle Hv Hexp. destruct (prune_queue cache kept last now Hok Hle) as (dropped & rest & -> & [Ho He Hs Hr] & Hrec).
  unfold accept. rewrite Hv. cbn [negb]. destruct (from_option _ _ _); [exists dropped, rest; rewrite app_nil_r; by split; [|split]|].
  destruct (_ <=? _); [exists dropped, rest; rewrite app_nil_r; by split; [|split]|].
  exists dropped, (rest ++ [(c, now)]). rewrite app_assoc. split; [done|]. split; cbn [fst rc_order rc_entries].
  - by rewrite fmap_app, Ho.
  - intros k e Hk. apply elem_of_app. apply lookup_insert_Some in Hk as [[<- <-]|[_ Hk]]; [right; by left|left; by apply He].
  - apply StronglySorted_app_2; [|done|repeat constructor]. intros x y Hx [->|[]%elem_of_nil]%elem_of_cons. cbn.
    rewrite Forall_forall in Hr. by apply Hr.
  - apply Forall_app. split; [done|]. constructor; [by split|constructor].
Qed.
Lemma arrive_queue a cache kept last : queue_ok cache kept last → last ≤ ar_accept a → ar_verify a ≤ ar_accept a → is_clock (ar_verify a) →
  ∃ dropped left, kept ++ let_through_by cache a = dropped ++ left ∧ queue_ok (arrive cache a).1 left (ar_accept a).
Proof.
  intros Hok Hle Hva Hclock. unfold let_through_by.
  destruct (arrive_cases cache a) as [[-> Hcases]|(c & Hctx & _ & Hv & -> & ->)].
  - exists [], kept. split; [|exact (queue_later _ _ _ _ Hle Hok)]. cbn [app].
    destruct Hcases as [Haway|(h & [c|] & -> & Hv)]; [revert Haway; destruct (arrive cache a).2; [done|intros _]|cbn in Hv; rewrite Hv|]; by rewrite app_nil_r.
  - destruct (context_Ok _ _ Hctx Hclock) as (? & ? & ? & ? & ? & ? & Hfacts).
    destruct Hfacts as (_ & _ & _ & _ & _ & _ & _ & _ & _ & _ & Hfresh). pose proof (fresh_expires _ _ Hclock Hva Hfresh) as Hexp.
    destruct (accept_queue c (ar_accept a) cache kept last Hok Hle Hv Hexp) as (dropped & rest & Heq & Hok').
    exists dropped, rest. split; [|done]. rewrite <-Heq. destruct (accept c (ar_accept a) cache).2; [by rewrite Hv|done..].
Qed.
Lemma arrive_all_queue l a cache kept last : queue_ok cache kept last → in_order last (l ++ [a]) →
  ∃ dropped left, kept ++ let_through cache l = dropped ++ left ∧ queue_ok (arrive_all cache l) left (ar_accept a).
Proof.
  revert cache kept last. induction l as [|b l IH]; intros cache kept last Hok Horder.
  - destruct Horder as (Hle & _). exists [], kept. rewrite app_nil_r. split; [done|exact (queue_later _ _ _ _ Hle Hok)].
  - destruct Horder as (Hle & Hvb & Hclock & Horder). destruct (arrive_queue b cache kept last Hok Hle Hvb Hclock) as (d1 & k1 & Heq1 & Hok1).
    destruct (IH _ _ _ Hok1 Horder) as (d2 & k2 & Heq2 & Hok2). exists (d1 ++ d2), k2. split; [|done].
    cbn [let_through]. by rewrite app_assoc, Heq1, <-app_assoc, Heq2, app_assoc.
Qed.
Lemma filter_keeps_all {A} (P : A → Prop) `{∀ x, Decision (P x)} l : Forall P l → filter P l = l.
Proof. induction 1 as [|x l Hx Hl IH]; [done|]. by rewrite filter_cons_True, IH. Qed.

(** C24: the cache is full only under load: over a clock that does not go back, a signed request is turned away for want of
    room only when sixteen thousand requests and more were let through in the last forty seconds, so entries that are
    over never hold the place of new ones for long, whatever order they expire in. *)
Theorem full_cache_is_busy last l a : in_order last (l ++ [a]) →
  Z.of_nat (length (filter (λ x, ar_accept a < x.2 + 40000) (let_through empty_cache l))) < MAX_REPLAY_ENTRIES →
  (arrive (arrive_all empty_cache l) a).2 ≠ router_ingress_rejection "replay_cache_capacity" None.
Proof.
  intros Horder Hfew Hout. assert (queue_ok empty_cache [] last) as Hempty.
  { split; [done|by intros k e Hk; cbn in Hk; rewrite lookup_empty in Hk|constructor|constructor]. }
  destruct (arrive_all_queue l a empty_cache [] last Hempty Horder) as (dropped & kept & Heq & Hok). cbn [app] in Heq. rewrite Heq in Hfew.
  destruct (prune_queue _ kept (ar_accept a) (ar_accept a) Hok ltac:(done)) as (dropped' & rest & -> & Hok' & Hrec).
  rewrite !filter_app, (filter_keeps_all _ rest Hrec), !length_app in Hfew. pose proof (entries_queued _ _ _ Hok') as Hsize.
  destruct (arrive_cases (arrive_all empty_cache l) a) as [[_ [Haway|(h & c & Hp & _)]]|(c & _ & _ & Hv & _ & Hdec)].
  - rewrite Hout in Haway. done.
  - rewrite Hout in Hp. done.
  - rewrite Hout in Hdec. unfold accept in Hdec. rewrite Hv in Hdec. cbn [negb] in Hdec.
    destruct (from_option _ _ _); cbn [snd] in Hdec.
    + destruct (rejection_code "replayed_request_id" None) as (h & Hr & Hh), (rejection_code "replay_cache_capacity" None) as (h' & Hr' & Hh').
      rewrite Hr, Hr' in Hdec. injection Hdec as ->. congruence.
    + destruct (_ <=? _) eqn:Hfull; [|done]. apply Z.leb_le in Hfull. lia.
Qed.
End ingress.

(** ** Witnesses *)
(** A Router whose MAC is its key before the text, and one request of one of its shares. *)
Definition demo_digest : string := "aaaaaaaaaaaaaaaaaaaaaaaaaaaaaaaaaaaaaaaaaaaaaaaaaaaaaaaaaaaaaaaa".
Definition demo_sha256 (body : string) : string := if str_eqb body "hello" then demo_digest else "".
Definition demo_hmac (key text : string) : string := key +:+ "|" +:+ text.
Definition demo_issued : Z := 1800000000000.
Definition demo_context : IngressContext :=
  mk_context 2 PROTOCOL_EPOCH "router.example" "share:share-1" "inst-1" "lane" "shared-edge01.router.example" (Some "share-1") "req-1"
    (Some "user@example.com") None None false "POST" "/v1/messages" demo_digest demo_issued.
Definition demo_slice (json : string) : option IngressContext := if str_eqb json "context" then Some demo_context else None.
Definition demo_router : RouterConfig :=
  mk_router None None (Some "router.example.") (Some (mk_router_identity "inst-1" "public" "private" (Some "secret"))).
Definition demo_headers : header_map :=
  {[INGRESS_CONTEXT_HEADER := "context"; INGRESS_SIGNATURE_HEADER := demo_hmac "secret" (signed_text V2_SIGNING_DOMAIN "context");
    "x-cc-switch-web-role" := "owner"; "accept" := "*/*"]}.
Definition demo_request : Request := mk_request "POST" "/v1/messages" (Some "/v1/messages") demo_headers (Some "hello").
Definition demo_arrival (verify accept : Z) : arrival :=
  mk_arrival legacy_limits demo_router (demo_issued + verify) (demo_issued + accept) demo_request.
Notation demo_arrive := (arrive Some demo_slice demo_hmac demo_sha256 (λ _, None) (λ _, true) (λ _, true)).
Notation demo_arrive_all := (arrive_all Some demo_slice demo_hmac demo_sha256 (λ _, None) (λ _, true) (λ _, true)).
Definition demo_passed : header_map := trusted_headers (λ _, true) demo_context (strip STRIPPED demo_headers).
Lemma demo_first : (demo_arrive empty_cache (demo_arrival 29000 35000)).2 = Passed demo_passed (Some demo_context).
Proof. vm_compute. reflexivity. Qed.
Lemma demo_second : (demo_arrive (demo_arrive_all (demo_arrive empty_cache (demo_arrival 29000 35000)).1 []) (demo_arrival 29500 36000)).2
  = Passed demo_passed (Some demo_context).
Proof. vm_compute. reflexivity. Qed.
Lemma demo_order : in_order 0 (demo_arrival 29000 35000 :: [] ++ [demo_arrival 29500 36000]).
Proof. unfold is_clock, demo_arrival, demo_issued. cbn. unfold is_clock. lia. Qed.
(** The same request twice: refused when its body arrives at once, let through again when both bodies take six seconds and
    more after the envelope was verified, for then the entry of the first has expired before it is made. *)
Example slow_body_is_replayed :
  (demo_arrive (demo_arrive empty_cache (demo_arrival 29000 29100)).1 (demo_arrival 29500 29600)).2
    = router_ingress_rejection "replayed_request_id" None ∧
  (demo_arrive (demo_arrive empty_cache (demo_arrival 29000 35000)).1 (demo_arrival 29500 36000)).2 = Passed demo_passed (Some demo_context).
Proof. split; vm_compute; reflexivity. Qed.
Example admitted_request_is_signed_witness : ∃ encoded json identity control_secret domain,
  header_text (λ _, true) demo_headers INGRESS_CONTEXT_HEADER = Some encoded ∧
  (header_text (λ _, true) demo_headers INGRESS_SIGNATURE_HEADER ≫= Some) = Some (demo_hmac control_secret (signed_text domain encoded)) ∧
  Some encoded = Some json ∧ demo_slice json = Some demo_context ∧
  registered_router_identity demo_router = Some identity ∧ ri_control_secret identity = Some control_secret ∧
  ic_installation_id demo_context = ri_installation_id identity ∧
  Some (ic_router_id demo_context) = tunnel_router_id (λ _, None) demo_router ∧ fresh_at (demo_issued + 29000) demo_context ∧
  ((ic_signature_version demo_context = 1 ∧ demo_issued + 29000 ≤ V1_COMPAT_UNTIL_MS ∧ domain = V1_SIGNING_DOMAIN) ∨
   (ic_signature_version demo_context = 2 ∧ domain = V2_SIGNING_DOMAIN ∧
    ic_method demo_context = trim "POST" ∧ ic_path_and_query demo_context = trim (default "/" (Some "/v1/messages")) ∧
    ∃ body, Some "hello" = Some body ∧ ic_body_sha256 demo_context = demo_sha256 body ∧
      str_len body ≤ resolve_router_ingress_body_limit legacy_limits "/v1/messages" (router_declared_body_limit (λ _, true) demo_headers))).
Proof.
  refine (admitted_request_is_signed Some demo_slice demo_hmac demo_sha256 (λ _, None) (λ _, true) (λ _, true) empty_cache
    (demo_arrival 29000 35000) demo_passed demo_context _ demo_first).
  unfold is_clock, demo_arrival, demo_issued. cbn. lia.
Defined.
(** The role the request claimed is gone; what the context says of the user is there. *)
Example trusted_headers_are_signed_witness : demo_passed !! "x-cc-switch-web-role" = None ∧
  demo_passed !! "x-cc-switch-user-email" = Some "user@example.com".
Proof.
  pose proof (λ name, trusted_headers_are_signed Some demo_slice demo_hmac demo_sha256 (λ _, None) (λ _, true) (λ _, true) empty_cache
    (demo_arrival 29000 35000) demo_passed (Some demo_context) name demo_first) as Hname.
  split; [exact (Hname "x-cc-switch-web-role")|exact (Hname "x-cc-switch-user-email")].
Defined.
Example full_cache_is_busy_witness :
  (demo_arrive (demo_arrive_all empty_cache []) (demo_arrival 1000 2000)).2 ≠ router_ingress_rejection "replay_cache_capacity" None.
Proof.
  refine (full_cache_is_busy Some demo_slice demo_hmac demo_sha256 (λ _, None) (λ _, true) (λ _, true) 0 [] (demo_arrival 1000 2000) _ _).
  - unfold demo_arrival, demo_issued. cbn. unfold is_clock. lia.
  - reflexivity.
Defined.
