(* ===== verification/WebAuth.v ===== *)
(** * Sessions of the web console ([src/domain/web_auth.rs])

    The owner's password, the sessions it opens, the tokens they are known by, and the throttle of failed logins. A time
    is in nanoseconds and each reading of the clock an argument, as are the secrets drawn at random and the outcome of
    each write of the sessions' file. SHA-256, Argon2 and RFC 3339 are parameters. A poisoned lock is left out: nothing
    panics while it holds one. *)
From S2P Require Import Prelude RustStr.
From Stdlib Require Import ZArith Lia Ascii.

Local Open Scope Z_scope.

(** ** Data *)
Definition SECOND : Z := 1000000000.
(** domain/web_auth.rs:13-13 [ACCESS_TTL_SECS] *)
Definition ACCESS_TTL_SECS : Z := 60 * 60.
(** domain/web_auth.rs:14-14 [REFRESH_TTL_SECS] *)
Definition REFRESH_TTL_SECS : Z := 30 * 24 * 60 * 60.
(** domain/web_auth.rs:15-15 [LOGIN_FAILURE_WINDOW_SECS] *)
Definition LOGIN_FAILURE_WINDOW_SECS : Z := 10 * 60.
(** domain/web_auth.rs:16-16 [LOGIN_FAILURE_LOCK_SECS] *)
Definition LOGIN_FAILURE_LOCK_SECS : Z := 10 * 60.
(** domain/web_auth.rs:17-17 [LOGIN_FAILURE_LIMIT] *)
Definition LOGIN_FAILURE_LIMIT : Z := 8.
(** domain/web_auth.rs:18-18 [LOCAL_ADMIN_EMAIL] *)
Definition LOCAL_ADMIN_EMAIL : string := "local-admin@cc-switch.local".
Definition seconds (n : Z) : Z := n * SECOND.

(** domain/web_auth.rs:73-77 [WebAuthError] *)
Notation WebAuthError := string (only parsing).
Notation auth_result A := (result string A).
(** domain/web_auth.rs:54-65 [StoredSession] *)
Record StoredSession := mk_session {
  ss_id : string;
  ss_access_token_hash : string;
  ss_refresh_token_hash : string;
  ss_access_expires_at : string;
  ss_refresh_expires_at : string;
  ss_created_at : string;
  ss_last_used_at : string;
  ss_revoked_at : option string;
}.
#[global] Instance session_eta : Eta StoredSession := λ s,
  mk_session (ss_id s) (ss_access_token_hash s) (ss_refresh_token_hash s) (ss_access_expires_at s) (ss_refresh_expires_at s)
    (ss_created_at s) (ss_last_used_at s) (ss_revoked_at s).
(** domain/web_auth.rs:39-46 [PasswordLoginResponse] *)
Record PasswordLoginResponse := mk_login {
  lr_access_token : string; lr_refresh_token : string; lr_expires_at : string; lr_refresh_expires_at : string;
}.
(** domain/web_auth.rs:48-52 [WebPrincipal] *)
Record WebPrincipal := mk_principal { wp_user_email : string; wp_role : string }.
(** domain/web_auth.rs:67-71 [LoginThrottle] *)
Record LoginThrottle := mk_throttle { lt_failures : list Z; lt_locked_until : option Z }.
#[global] Instance throttle_eta : Eta LoginThrottle := λ t, mk_throttle (lt_failures t) (lt_locked_until t).
Definition no_failures : LoginThrottle := mk_throttle [] None.
(** domain/web_auth.rs:23-26 [WebAuthStore]: the sessions in memory, and those a restart would read from the file *)
Record WebAuthStore := mk_store { wa_sessions : list StoredSession; wa_disk : list StoredSession }.
#[global] Instance store_eta : Eta WebAuthStore := λ s, mk_store (wa_sessions s) (wa_disk s).
(** How a write of the file ended; one that failed may have truncated it, and a truncated file reads as no sessions. *)
Inductive write_outcome : Type := Written | WriteFailed (error : string) (truncated : bool).
(** The two secrets of a session. *)
Record secrets := mk_secrets { sc_access : string; sc_refresh : string }.

(** ** Configuration *)
(** domain/web_auth.rs:28-37 [AuthMethods] *)
Record AuthMethods := mk_methods {
  am_router_available : bool; am_password_configured : bool; am_setup_token_required : bool;
  am_initial_client_setup_required : bool; am_owner_email : option string; am_methods : list string;
}.
(** domain/settings/config.rs:145-154 [AuthConfig]: with the fields of the owner, the Router and the client the methods
    depend on *)
Record ServerConfig := mk_config {
  cf_password_hash : option string; cf_owner_email : option string; cf_router_url : option string; cf_tunnel_subdomain : option string;
}.
#[global] Instance config_eta : Eta ServerConfig := λ c,
  mk_config (cf_password_hash c) (cf_owner_email c) (cf_router_url c) (cf_tunnel_subdomain c).
Definition set_nonblank (v : option string) : bool := from_option (λ s, negb (is_empty (trim s))) false v.
(** domain/web_auth.rs:294-305 [router_available] *)
Definition router_available (c : ServerConfig) : bool := set_nonblank (cf_router_url c) && set_nonblank (cf_tunnel_subdomain c).
(** domain/web_auth.rs:307-313 [is_password_configured] *)
Definition is_password_configured (c : ServerConfig) : bool := set_nonblank (cf_password_hash c).
(** domain/web_auth.rs:265-292 [auth_methods] *)
Definition auth_methods (c : ServerConfig) : AuthMethods :=
  mk_methods (router_available c) (is_password_configured c) false false
    (cf_owner_email c ≫= λ v, let v := trim v in if is_empty v then None else Some v)
    ((if router_available c then ["email"; "apiToken"] else []) ++
     [if is_password_configured c then "password" else "passwordSetup"]).
(** [password.chars().count()] *)
Fixpoint chars_count (s : string) : Z :=
  match s with "" => 0 | String c s => (if continuation c then 0 else 1) + chars_count s end.
(** domain/web_auth.rs:315-322 [validate_password] *)
Definition validate_password (password : string) : auth_result () :=
  fail_if (chars_count password <? 8) "web password must be at least 8 characters".

(** ** The throttle *)
(** domain/web_auth.rs:331-333 [check_password_login_allowed]: the failures that still count *)
Definition recent_failures (now : Z) (failures : list Z) : list Z :=
  filter (λ time, now ≤ time + seconds LOGIN_FAILURE_WINDOW_SECS) failures.
(** domain/web_auth.rs:324-340 [check_password_login_allowed] *)
Definition check_password_login_allowed (now : Z) (t : LoginThrottle) : LoginThrottle * auth_result () :=
  if from_option (λ locked_until, now <? locked_until) false (lt_locked_until t)
  then (t, Err "too many password attempts")
  else (mk_throttle (recent_failures now (lt_failures t)) None, Ok ()).
(** domain/web_auth.rs:342-356 [record_password_login_failure] *)
Definition record_password_login_failure (now : Z) (t : LoginThrottle) : LoginThrottle :=
  let failures := recent_failures now (lt_failures t) ++ [now] in
  if LOGIN_FAILURE_LIMIT <=? Z.of_nat (length failures)
  then mk_throttle [] (Some (now + seconds LOGIN_FAILURE_LOCK_SECS))
  else mk_throttle failures (lt_locked_until t).
(** domain/web_auth.rs:358-364 [clear_password_login_failures] *)
Definition clear_password_login_failures : LoginThrottle := no_failures.

Section web_auth.
(** The hexadecimal SHA-256 of a token; Argon2, with its salt; and RFC 3339. *)
Context (hash_token : string → string).
Context (argon2_hash : string → string → result string string) (argon2_verify : string → string → bool).
Context (to_rfc3339 : Z → string) (parse_from_rfc3339 : string → option Z).

(** domain/settings/config.rs:919-929 [hash_secret] *)
Definition hash_secret (salt secret : string) (min_len : Z) : auth_result string :=
  if str_len secret <? min_len then Err ("secret must be at least " +:+ pretty min_len +:+ " characters") else argon2_hash salt secret.
(** domain/settings/config.rs:641-651 [verify_password] *)
Definition verify_password (password : string) (c : ServerConfig) : bool :=
  let password := trim password in
  if is_empty password then false else
  match cf_password_hash c with Some hash => argon2_verify hash password | None => false end.
(** domain/settings/config.rs:703-706 [set_password] *)
Definition set_password (salt new_password : string) (c : ServerConfig) : auth_result ServerConfig :=
  hash ← hash_secret salt (trim new_password) 8;
  Ok (c <| cf_password_hash := Some hash |>).
(** domain/settings/config.rs:708-717 [change_password] *)
Definition config_change_password (salt current_password new_password : string) (c : ServerConfig) : auth_result ServerConfig :=
  _ ← fail_if (negb (verify_password current_password c)) "invalid current password";
  set_password salt new_password c.

(** ** Sessions *)
(** domain/web_auth.rs:410-414 [parse_time] *)
Definition parse_time (s : string) : auth_result Z := ok_or "parse web auth timestamp failed" (parse_from_rfc3339 s).
(** domain/web_auth.rs:260-262 [persist]; [write_sessions_unlocked] (lines 378-393) *)
Definition persist (outcome : write_outcome) (s : WebAuthStore) : WebAuthStore * auth_result () :=
  match outcome with
  | Written => (s <| wa_disk := wa_sessions s |>, Ok ())
  | WriteFailed error truncated => (if truncated then s <| wa_disk := [] |> else s, Err error)
  end.
(** domain/web_auth.rs:86-92 [load]; an unreadable file ([read_sessions_unlocked], lines 366-376) counts as none *)
Definition load (s : WebAuthStore) : WebAuthStore := s <| wa_sessions := wa_disk s |>.
(** domain/web_auth.rs:399-408 [prune_sessions] *)
Definition prune_sessions (now : Z) (sessions : list StoredSession) : list StoredSession :=
  List.filter (λ s, bool_decide (ss_revoked_at s = None)
    && from_option (λ expires, now <=? expires) false (parse_from_rfc3339 (ss_refresh_expires_at s))) sessions.
(** What the owner is told of a session's secrets. *)
Definition login_response (now : Z) (k : secrets) : PasswordLoginResponse :=
  mk_login (sc_access k) (sc_refresh k) (to_rfc3339 (now + seconds ACCESS_TTL_SECS)) (to_rfc3339 (now + seconds REFRESH_TTL_SECS)).
(** domain/web_auth.rs:240-249 [create_session]: the new session *)
Definition new_session (id : string) (k : secrets) (now : Z) : StoredSession :=
  mk_session id (hash_token (sc_access k)) (hash_token (sc_refresh k)) (to_rfc3339 (now + seconds ACCESS_TTL_SECS))
    (to_rfc3339 (now + seconds REFRESH_TTL_SECS)) (to_rfc3339 now) (to_rfc3339 now) None.
(** domain/web_auth.rs:230-258 [create_session]; the pruning reads the clock again *)
Definition create_session (id : string) (k : secrets) (now prune_now : Z) (outcome : write_outcome) (s : WebAuthStore)
    : WebAuthStore * auth_result PasswordLoginResponse :=
  let s := s <| wa_sessions ::= λ l, prune_sessions prune_now (l ++ [new_session id k now]) |> in
  let '(s, r) := persist outcome s in (s, _ ← r; Ok (login_response now k)).
(** domain/web_auth.rs:142-146 [refresh]: the session under its new secrets *)
Definition renewed (k : secrets) (now : Z) (s : StoredSession) : StoredSession :=
  mk_session (ss_id s) (hash_token (sc_access k)) (hash_token (sc_refresh k)) (to_rfc3339 (now + seconds ACCESS_TTL_SECS))
    (to_rfc3339 (now + seconds REFRESH_TTL_SECS)) (ss_created_at s) (to_rfc3339 now) (ss_revoked_at s).
(** domain/web_auth.rs:133-146 [refresh]: the first session that is not revoked and has the token *)
Fixpoint refresh_first (refresh_hash : string) (k : secrets) (now : Z) (l : list StoredSession) : auth_result (list StoredSession) :=
  match l with
  | [] => Err "refresh session not found"
  | s :: l =>
      if bool_decide (ss_revoked_at s = None) && str_eqb (ss_refresh_token_hash s) refresh_hash then
        expires ← parse_time (ss_refresh_expires_at s);
        _ ← fail_if (expires <? now) "refresh session expired";
        Ok (renewed k now s :: l)
      else (s ::.) <$> refresh_first refresh_hash k now l
  end.
(** domain/web_auth.rs:126-157 [refresh] *)
Definition refresh (refresh_token : string) (k : secrets) (now : Z) (outcome : write_outcome) (s : WebAuthStore)
    : WebAuthStore * auth_result PasswordLoginResponse :=
  match refresh_first (hash_token (trim refresh_token)) k now (wa_sessions s) with
  | Err error => (s, Err error)
  | Ok sessions => let '(s, r) := persist outcome (s <| wa_sessions := sessions |>) in (s, _ ← r; Ok (login_response now k))
  end.
(** domain/web_auth.rs:159-172 [logout] *)
Definition logout (access_token : string) (now : Z) (outcome : write_outcome) (s : WebAuthStore) : WebAuthStore * auth_result () :=
  let access_hash := hash_token (trim access_token) in
  persist outcome (s <| wa_sessions ::= fmap (λ x, if str_eqb (ss_access_token_hash x) access_hash
                                                    then x <| ss_revoked_at := Some (to_rfc3339 now) |> else x) |>).
(** domain/web_auth.rs:218-228 [revoke_all_sessions] *)
Definition revoke_all_sessions (now : Z) (outcome : write_outcome) (s : WebAuthStore) : WebAuthStore * auth_result () :=
  persist outcome (s <| wa_sessions ::= fmap (λ x, x <| ss_revoked_at := Some (to_rfc3339 now) |>) |>).
(** domain/web_auth.rs:197-207 [authenticate_access_token]: the loop, which an unreadable time ends *)
Fixpoint touch_first (access_hash : string) (now : Z) (l : list StoredSession) : auth_result (option (list StoredSession)) :=
  match l with
  | [] => Ok None
  | s :: rest =>
      if bool_decide (is_Some (ss_revoked_at s)) || negb (str_eqb (ss_access_token_hash s) access_hash)
      then option_map (cons s) <$> touch_first access_hash now rest else
      expires ← parse_time (ss_access_expires_at s);
      if expires <? now then option_map (cons s) <$> touch_first access_hash now rest
      else Ok (Some (s <| ss_last_used_at := to_rfc3339 now |> :: rest))
  end.
(** domain/web_auth.rs:186-216 [authenticate_access_token] *)
Definition authenticate_access_token (access_token : string) (now : Z) (outcome : write_outcome) (s : WebAuthStore)
    : WebAuthStore * auth_result (option WebPrincipal) :=
  match touch_first (hash_token (trim access_token)) now (wa_sessions s) with
  | Err error => (s, Err error)
  | Ok None => (s, Ok None)
  | Ok (Some sessions) =>
      let '(s, r) := persist outcome (s <| wa_sessions := sessions |>) in
      (s, _ ← r; Ok (Some (mk_principal LOCAL_ADMIN_EMAIL "admin")))
  end.

(** ** The password *)
(** domain/web_auth.rs:94-107 [setup_password]: the configuration it is given has the password although the file was not written *)
Definition setup_password (salt password id : string) (k : secrets) (now prune_now : Z) (outcome : write_outcome)
    (c : ServerConfig) (s : WebAuthStore) : ServerConfig * WebAuthStore * auth_result PasswordLoginResponse :=
  match _ ← fail_if (is_password_configured c) "web password is already configured";
        _ ← validate_password password;
        set_password salt password c with
  | Err error => (c, s, Err error)
  | Ok c => let '(s, r) := create_session id k now prune_now outcome s in (c, s, r)
  end.
(** domain/web_auth.rs:109-124 [login]; the throttle reads the clock when it is asked and again when it records *)
Definition login (password id : string) (k : secrets) (check_now fail_now now prune_now : Z) (outcome : write_outcome)
    (c : ServerConfig) (t : LoginThrottle) (s : WebAuthStore) : LoginThrottle * WebAuthStore * auth_result PasswordLoginResponse :=
  if negb (is_password_configured c) then (t, s, Err "web password is not configured") else
  match check_password_login_allowed check_now t with
  | (t, Err error) => (t, s, Err error)
  | (t, Ok _) =>
      if negb (verify_password password c) then (record_password_login_failure fail_now t, s, Err "invalid password")
      else let '(s, r) := create_session id k now prune_now outcome s in (clear_password_login_failures, s, r)
  end.
(** domain/web_auth.rs:174-184 [change_password]: the configuration has the new password although revoking the sessions failed *)
Definition change_password (salt current_password next_password : string) (now : Z) (outcome : write_outcome)
    (c : ServerConfig) (s : WebAuthStore) : ServerConfig * WebAuthStore * auth_result () :=
  match config_change_password salt current_password next_password c with
  | Err error => (c, s, Err error)
  | Ok c => let '(s, r) := revoke_all_sessions now outcome s in (c, s, r)
  end.
End web_auth.
