(* ===== verification/WebAuthProofs.v ===== *)
(** * Who is signed in to the web console

    A token authenticates only while a grant of it is outstanding: it was handed out by a login with the password, by
    the set-up of the first password or by a refresh, at most an hour ago, and neither it nor all sessions were revoked
    since, restarts and failed writes included; and wrong passwords can be tried eight times in ten minutes. *)
From S2P Require Import Prelude RustStr WebAuth.
From Stdlib Require Import ZArith Lia Ascii.

Local Open Scope Z_scope.

Definition YEAR_10000 : Z := seconds 253402300800.

Section web_auth.
Context (hash_token : string → string).
Context (argon2_hash : string → string → result string string) (argon2_verify : string → string → bool).
Context (to_rfc3339 : Z → string) (parse_from_rfc3339 : string → option Z).
(** A time of the years that have four digits is read as it was written. *)
Hypothesis rfc3339_read : ∀ t, 0 ≤ t < YEAR_10000 → parse_from_rfc3339 (to_rfc3339 t) = Some t.
Notation verified := (verify_password argon2_verify).
Notation refreshed := (refresh_first hash_token to_rfc3339 parse_from_rfc3339).
Notation authenticate := (authenticate_access_token hash_token to_rfc3339 parse_from_rfc3339).

(** ** The operations on one server

    The handlers change a copy of the configuration, and keep it only if the store reported success and the file of the
    configuration could be written ([saved]). [WRevokeAll] is the store's part of an administrator's change of the password,
    [WConfig] any other change of the configuration, and a restart reads the file of it. *)
Inductive web_op : Type :=
  | WSetup (salt password id : string) (k : secrets) (now prune_now : Z) (w : write_outcome) (saved : bool)
  | WLogin (password id : string) (k : secrets) (check_now fail_now now prune_now : Z) (w : write_outcome)
  | WRefresh (token : string) (k : secrets) (now : Z) (w : write_outcome)
  | WLogout (token : string) (now : Z) (w : write_outcome)
  | WAuthenticate (token : string) (now : Z) (w : write_outcome)
  | WRevokeAll (now : Z) (w : write_outcome)
  | WChange (salt current next : string) (now : Z) (w : write_outcome) (saved : bool)
  | WConfig (config : ServerConfig)
  | WRestart (config : ServerConfig).
Record web_state := mk_web { ws_config : ServerConfig; ws_throttle : LoginThrottle; ws_store : WebAuthStore }.
Definition succeeded {A} (r : auth_result A) : bool := match r with Ok _ => true | Err _ => false end.
(** api/settings.rs:308-374 [web_password_login]: the state after an operation, and whether it reported success *)
Definition web_step (st : web_state) (op : web_op) : web_state * bool :=
  let '(mk_web c t s) := st in
  match op with
  | WSetup salt p id k now prune w saved =>
      let '(c', s, r) := setup_password hash_token argon2_hash to_rfc3339 parse_from_rfc3339 salt p id k now prune w c s in
      (mk_web (if succeeded r && saved then c' else c) t s, succeeded r && saved)
  | WLogin p id k cn fn now prune w =>
      let '(t, s, r) := login hash_token argon2_verify to_rfc3339 parse_from_rfc3339 p id k cn fn now prune w c t s in (mk_web c t s, succeeded r)
  | WRefresh token k now w => let '(s, r) := refresh hash_token to_rfc3339 parse_from_rfc3339 token k now w s in (mk_web c t s, succeeded r)
  | WLogout token now w => let '(s, r) := logout hash_token to_rfc3339 token now w s in (mk_web c t s, succeeded r)
  | WAuthenticate token now w => let '(s, r) := authenticate token now w s in (mk_web c t s, succeeded r)
  | WRevokeAll now w => let '(s, r) := revoke_all_sessions to_rfc3339 now w s in (mk_web c t s, succeeded r)
  | WChange salt p q now w saved =>
      let '(c', s, r) := change_password argon2_hash argon2_verify to_rfc3339 salt p q now w c s in
      (mk_web (if succeeded r && saved then c' else c) t s, succeeded r && saved)
  | WConfig c => (mk_web c t s, true)
  | WRestart c => (mk_web c no_failures (load s), true)
  end.

(** ** The specification: the grants outstanding *)
Notation grant := (secrets * Z)%type.
Notation hash_of g := (hash_token (sc_access g.1)).
(** What an operation may grant: only to who knows the password, sets the first one, or holds a live refresh token. *)
Definition granted (st : web_state) (op : web_op) : list grant :=
  let '(mk_web c t s) := st in
  match op with
  | WSetup salt p _ k now _ _ _ =>
      if negb (is_password_configured c) && (8 <=? chars_count p) then [(k, now)] else []
  | WLogin p _ k cn _ now _ _ =>
      if is_password_configured c && verified p c && negb (from_option (λ until, cn <? until) false (lt_locked_until t))
      then [(k, now)] else []
  | WRefresh token k now _ => match refreshed (hash_token (trim token)) k now (wa_sessions s) with Ok _ => [(k, now)] | Err _ => [] end
  | _ => []
  end.
(** What a successful operation takes back. *)
Definition kept (op : web_op) (ok : bool) (l : list grant) : list grant :=
  match op, ok with
  | WLogout token _ _, true => List.filter (λ g, negb (str_eqb (hash_of g) (hash_token (trim token)))) l
  | WRevokeAll _ _, true | WChange _ _ _ _ _ _, true => []
  | _, _ => l
  end.
Definition grant_step (x : web_state * list grant) (op : web_op) : web_state * list grant :=
  let '(st, l) := x in let '(st', ok) := web_step st op in (st', kept op ok l ++ granted st op).
Definition grant_run : web_state * list grant → list web_op → web_state * list grant := foldl grant_step.
Definition web_start (c : ServerConfig) : web_state * list grant := (mk_web c no_failures (mk_store [] []), []).

(** ** Sessions stand for grants *)
Definition stands_for (s : StoredSession) (g : grant) : Prop :=
  ss_access_token_hash s = hash_of g ∧ ss_access_expires_at s = to_rfc3339 (g.2 + seconds ACCESS_TTL_SECS).
Definition covered (l : list grant) (sessions : list StoredSession) : Prop :=
  ∀ s, s ∈ sessions → ss_revoked_at s = None → ∃ g, g ∈ l ∧ stands_for s g.
Definition store_covered (l : list grant) (s : WebAuthStore) : Prop := covered l (wa_sessions s) ∧ covered l (wa_disk s).
Lemma covered_nil l : covered l [].
Proof. by intros s ?%elem_of_nil. Qed.
Lemma covered_mono l l' sessions : (∀ g, g ∈ l → g ∈ l') → covered l sessions → covered l' sessions.
Proof. intros Hl Hc s Hs Hr. destruct (Hc s Hs Hr) as (g & Hg & Hst). eauto. Qed.
Lemma persist_covered l w s s' r : persist w s = (s', r) → covered l (wa_sessions s) → covered l (wa_disk s) → store_covered l s'.
Proof.
  intros Hp Hm Hd. destruct w as [|e []]; injection Hp as <- _; split; try done. apply covered_nil.
Qed.
(** A successful write leaves nothing of the old file. *)
Lemma persist_ok_covered l w s s' : persist w s = (s', Ok ()) → covered l (wa_sessions s) → store_covered l s'.
Proof. intros Hp Hm. destruct w; [|done]. injection Hp as <-. by split. Qed.
Lemma create_covered id k now prune w s s' r l : create_session hash_token to_rfc3339 parse_from_rfc3339 id k now prune w s = (s', r) →
  store_covered l s → store_covered (l ++ [(k, now)]) s'.
Proof.
  intros Hc [Hm Hd]. unfold create_session in Hc. destruct (persist w _) as [s1 r1] eqn:Hp. injection Hc as <- _.
  assert (∀ g, g ∈ l → g ∈ l ++ [(k, now)]) as Hsub by (intros g Hg; apply elem_of_app; by left).
  eapply persist_covered; [exact Hp| |by eapply covered_mono]. cbn [wa_sessions update]. intros x Hx Hr.
  unfold prune_sessions in Hx. apply list_elem_of_In, filter_In in Hx as [Hx%list_elem_of_In _].
  apply elem_of_app in Hx as [Hx|[->|[]%elem_of_nil]%elem_of_cons].
  - destruct (Hm x Hx Hr) as (g & Hg & Hs). eauto.
  - exists (k, now). split; [apply elem_of_app; right; by left|by split].
Qed.
Lemma refresh_first_covered h k now sessions sessions' l : refreshed h k now sessions = Ok sessions' →
  covered l sessions → covered (l ++ [(k, now)]) sessions'.
Proof.
  revert sessions'. induction sessions as [|s sessions IH]; intros sessions'; [done|]. cbn [refresh_first]. intros Hr Hc.
  assert (covered l sessions) as Hc' by (intros x Hx; apply Hc; by right).
  assert (∀ g, g ∈ l → g ∈ l ++ [(k, now)]) as Hsub by (intros g Hg; apply elem_of_app; by left).
  destruct (_ && _).
  - apply bind_Ok in Hr as (e & _ & Hr). apply bind_Ok in Hr as (u & _ & [= <-]). intros x [->|Hx]%elem_of_cons Hrev.
    + exists (k, now). split; [apply elem_of_app; right; by left|by split].
    + destruct (Hc' x Hx Hrev) as (g & Hg & Hst). eauto.
  - apply fmap_Ok in Hr as (rest & Hrest & ->). intros x [->|Hx]%elem_of_cons Hrev.
    + destruct (Hc s ltac:(by left) Hrev) as (g & Hg & Hst). eauto.
    + by eapply IH.
Qed.
Lemma touch_first_covered h now sessions sessions' l : touch_first to_rfc3339 parse_from_rfc3339 h now sessions = Ok (Some sessions') →
  covered l sessions → covered l sessions'.
Proof.
  revert sessions'. induction sessions as [|s sessions IH]; intros sessions'; [done|]. cbn [touch_first]. intros Hr Hc.
  assert (covered l sessions) as Hc' by (intros x Hx; apply Hc; by right).
  assert (∀ rest, option_map (cons s) <$> touch_first to_rfc3339 parse_from_rfc3339 h now sessions = Ok (Some rest) → covered l rest) as Hskip.
  { intros rest (found & Hf & Heq)%fmap_Ok. destruct found as [found|]; [|done]. injection Heq as ->.
    intros x [->|Hx]%elem_of_cons; [apply Hc; by left|]. by apply (IH found). }
  destruct (_ || _); [by apply Hskip|]. apply bind_Ok in Hr as (e & _ & Hr). destruct (e <? now); [by apply Hskip|].
  injection Hr as <-. intros x [->|Hx]%elem_of_cons Hrev; [|by apply Hc'].
  destruct (Hc s ltac:(by left) Hrev) as (g & Hg & Hst). by exists g.
Qed.
Lemma touch_first_found h now sessions sessions' : touch_first to_rfc3339 parse_from_rfc3339 h now sessions = Ok (Some sessions') →
  ∃ s e, s ∈ sessions ∧ ss_revoked_at s = None ∧ ss_access_token_hash s = h ∧ parse_from_rfc3339 (ss_access_expires_at s) = Some e ∧ now ≤ e.
Proof.
  revert sessions'. induction sessions as [|s sessions IH]; intros sessions'; [done|]. cbn [touch_first].
  assert (∀ rest, option_map (cons s) <$> touch_first to_rfc3339 parse_from_rfc3339 h now sessions = Ok (Some rest) →
    ∃ x e, x ∈ s :: sessions ∧ ss_revoked_at x = None ∧ ss_access_token_hash x = h ∧
      parse_from_rfc3339 (ss_access_expires_at x) = Some e ∧ now ≤ e) as Hskip.
  { intros rest (found & Hf & Heq)%fmap_Ok. destruct found as [found|]; [|done].
    destruct (IH found Hf) as (x & e & Hx & Hrest). exists x, e. split; [by right|done]. }
  destruct (bool_decide _ || _) eqn:Hb; [by intros ?%Hskip|]. apply orb_false_iff in Hb as [Hrev Hh].
  intros (e & He%ok_or_Ok & Hr)%bind_Ok. destruct (e <? now) eqn:Hlt; [by apply Hskip in Hr|].
  exists s, e. apply bool_decide_eq_false in Hrev. apply negb_false_iff, str_eqb_eq in Hh. apply Z.ltb_ge in Hlt.
  split; [by left|]. split; [by apply eq_None_not_Some|done].
Qed.

(** ** Every operation *)
Lemma granted_mono l l' s : store_covered l s → (∀ g, g ∈ l → g ∈ l') → store_covered l' s.
Proof. intros [Hm Hd] Hl. split; by eapply covered_mono. Qed.
Lemma logout_covered token now w s s' r l : logout hash_token to_rfc3339 token now w s = (s', r) → store_covered l s →
  store_covered (kept (WLogout token now w) (succeeded r) l) s'.
Proof.
  unfold logout. intros Hp [Hm Hd]. set (revoke := λ x, if str_eqb _ _ then _ else _) in Hp.
  assert (covered (List.filter (λ g, negb (str_eqb (hash_of g) (hash_token (trim token)))) l) (revoke <$> wa_sessions s)) as Hkept.
  { intros y (x & -> & Hx)%list_elem_of_fmap Hr. unfold revoke in *. destruct (str_eqb (ss_access_token_hash x) _) eqn:He; [done|].
    destruct (Hm x Hx Hr) as (g & Hg & Hs). exists g. split; [|done]. apply list_elem_of_In, filter_In. rewrite <-list_elem_of_In.
    split; [done|]. destruct Hs as [<- _]. by rewrite He. }
  destruct r as [[]|].
  - by eapply persist_ok_covered.
  - eapply persist_covered; [exact Hp| |done]. eapply covered_mono, Hkept. intros g Hg%list_elem_of_In. apply filter_In in Hg as [Hg _].
    by apply list_elem_of_In.
Qed.
Lemma revoke_covered now w s s' r l : revoke_all_sessions to_rfc3339 now w s = (s', r) → store_covered l s →
  store_covered (match r with Ok _ => [] | Err _ => l end) s'.
Proof.
  unfold revoke_all_sessions. intros Hp [Hm Hd].
  assert (∀ l', covered l' ((λ x, x <| ss_revoked_at := Some (to_rfc3339 now) |>) <$> wa_sessions s)) as Hnone.
  { intros l' y (x & -> & Hx)%list_elem_of_fmap Hr. done. }
  destruct r as [[]|]; [eapply persist_ok_covered; [exact Hp|apply Hnone]|eapply persist_covered; [exact Hp|apply Hnone|done]].
Qed.
Lemma grant_step_covered st l op : store_covered l (ws_store st) →
  store_covered (grant_step (st, l) op).2 (ws_store (grant_step (st, l) op).1).
Proof.
  intros Hc. destruct st as [c t s]. cbn [ws_store] in Hc. unfold grant_step.
  assert (∀ l', (∀ g, g ∈ l → g ∈ l') → store_covered l' s) as Hsame by (intros l' Hl; by eapply granted_mono).
  assert (∀ k : list grant, ∀ g, g ∈ l → g ∈ l ++ k) as Happ by (intros k g Hg; apply elem_of_app; by left).
  destruct op as [salt p id k now prune w saved|p id k cn fn now prune w|token k now w|token now w|token now w|now w|salt p q now w saved|c'|c']; cbn [web_step].
  - unfold setup_password. destruct (_ ≫= _) as [c1|] eqn:E; [|exact (Hsame _ (Happ _))].
    destruct (create_session _ _ _ _ _ _ _ _ _) as [s1 r] eqn:Hs. cbn [fst snd ws_store granted].
    apply bind_Ok in E as (u & Hconf%fail_if_Ok & E). apply bind_Ok in E as (u' & Hlen%fail_if_Ok%Z.ltb_ge & _).
    rewrite Hconf, (proj2 (Z.leb_le _ _) Hlen). cbn [negb andb]. assert (∀ b, kept (WSetup salt p id k now prune w saved) b l = l) as -> by (by intros []).
    by eapply create_covered.
  - unfold login. destruct (is_password_configured c) eqn:Hconf; cbn [negb]; [|exact (Hsame _ (Happ _))].
    unfold check_password_login_allowed. destruct (from_option _ _ _) eqn:Hlock; [exact (Hsame _ (Happ _))|].
    destruct (verified p c) eqn:Hv; cbn [negb]; [|exact (Hsame _ (Happ _))].
    destruct (create_session _ _ _ _ _ _ _ _ _) as [s1 r] eqn:Hs. cbn [fst snd ws_store granted].
    rewrite Hconf, Hv, Hlock. cbn [negb andb]. assert (∀ b, kept (WLogin p id k cn fn now prune w) b l = l) as -> by (by intros []).
    by eapply create_covered.
  - unfold refresh. destruct (refreshed _ _ _ _) as [sessions|] eqn:Hr; [|exact (Hsame _ (Happ _))].
    destruct (persist w _) as [s1 r] eqn:Hp. cbn [fst snd ws_store granted]. rewrite Hr.
    assert (∀ b, kept (WRefresh token k now w) b l = l) as -> by (by intros []). destruct Hc as [Hm Hd].
    eapply persist_covered; [exact Hp| |]; [by eapply refresh_first_covered|exact (covered_mono _ _ _ (Happ _) Hd)].
  - destruct (logout _ _ _ _ _ _) as [s1 r] eqn:Hl. cbn [fst snd ws_store granted]. rewrite app_nil_r. by eapply logout_covered.
  - unfold authenticate_access_token. destruct (touch_first _ _ _ _ _) as [[sessions|]|] eqn:Ht; [|exact (Hsame _ (Happ _))..].
    destruct (persist w _) as [s1 r] eqn:Hp. cbn [fst snd ws_store granted].
    assert (∀ b, kept (WAuthenticate token now w) b l = l) as -> by (by intros []). rewrite app_nil_r. destruct Hc as [Hm Hd].
    eapply persist_covered; [exact Hp| |done]. by eapply touch_first_covered.
  - destruct (revoke_all_sessions _ _ _ _) as [s1 r] eqn:Hr. cbn [fst snd ws_store granted]. rewrite app_nil_r.
    pose proof (revoke_covered _ _ _ _ _ _ Hr Hc) as Hcov. by destruct r.
  - unfold change_password. destruct (config_change_password _ _ _ _ _ _) as [c1|]; [|exact (Hsame _ (Happ _))].
    destruct (revoke_all_sessions _ _ _ _) as [s1 r] eqn:Hr. cbn [fst snd ws_store granted]. rewrite app_nil_r.
    pose proof (revoke_covered _ _ _ _ _ _ Hr Hc) as Hcov. destruct r, saved; cbn [succeeded andb kept]; try done.
    eapply granted_mono; [exact Hcov|by intros g ?%elem_of_nil].
  - exact (Hsame _ (Happ _)).
  - cbn [fst snd ws_store granted kept]. rewrite app_nil_r. destruct Hc as [Hm Hd]. by split.
Qed.
Lemma grant_run_covered ops x : store_covered x.2 (ws_store x.1) → store_covered (grant_run x ops).2 (ws_store (grant_run x ops).1).
Proof.
  revert x. induction ops as [|op ops IH]; intros [st l] Hc; [done|]. apply IH. by apply grant_step_covered.
Qed.

(** The clock of an operation that may open a session shows a time whose session ends in a year of four digits. *)
Definition dated (op : web_op) : Prop :=
  match op with
  | WSetup _ _ _ _ now _ _ _ | WLogin _ _ _ _ _ now _ _ | WRefresh _ _ now _ => 0 ≤ now < YEAR_10000 - seconds ACCESS_TTL_SECS
  | _ => True
  end.
Definition grants_dated (l : list grant) : Prop := ∀ g, g ∈ l → 0 ≤ g.2 < YEAR_10000 - seconds ACCESS_TTL_SECS.
Lemma granted_dated st op : dated op → grants_dated (granted st op).
Proof.
  destruct st as [c t s], op; cbn; intros Hd g; try case_match; first [by intros ?%elem_of_nil|by intros [->|[]%elem_of_nil]%elem_of_cons].
Qed.
Lemma kept_subset op ok l g : g ∈ kept op ok l → g ∈ l.
Proof.
  destruct op, ok; cbn; try done; try by intros ?%elem_of_nil. intros Hg%list_elem_of_In. apply filter_In in Hg as [Hg _].
  by apply list_elem_of_In.
Qed.
Lemma grant_run_dated ops x : Forall dated ops → grants_dated x.2 → grants_dated (grant_run x ops).2.
Proof.
  revert x. induction ops as [|op ops IH]; intros [st l] Hops Hl; [done|]. apply Forall_cons in Hops as [Hop Hops]. apply IH; [done|].
  unfold grant_step. destruct (web_step st op) as [st' ok]. cbn [snd].
  intros g [Hg%kept_subset|Hg]%elem_of_app; [by apply Hl|by eapply granted_dated].
Qed.

(** C25: who is signed in was let in: after any operations on an empty store, restarts and failed writes of the file
    included, an access token authenticates only if a grant of it is outstanding: a login that knew the password while
    the throttle let it try, the set-up of the first password, or the refresh of a session that was not revoked handed it
    out, at most an hour before now, and since then neither a logout of that token nor a revocation of all sessions nor
    a change of the password has reported success. *)
Theorem authenticated_token_is_outstanding c ops token now w s principal : Forall dated ops →
  authenticate token now w (ws_store (grant_run (web_start c) ops).1) = (s, Ok (Some principal)) →
  ∃ g, g ∈ (grant_run (web_start c) ops).2 ∧ hash_of g = hash_token (trim token) ∧ now ≤ g.2 + seconds ACCESS_TTL_SECS.
Proof.
  intros Hops Ha. assert (store_covered (grant_run (web_start c) ops).2 (ws_store (grant_run (web_start c) ops).1)) as [Hm _].
  { apply grant_run_covered. split; apply covered_nil. }
  unfold authenticate_access_token in Ha. destruct (touch_first _ _ _ _ _) as [[sessions|]|] eqn:Ht; [|done..].
  apply touch_first_found in Ht as (x & e & Hx & Hrev & Hh & He & Hle). destruct (Hm x Hx Hrev) as (g & Hg & Hhash & Hexp).
  exists g. split; [done|]. split; [congruence|]. 
  pose proof (grant_run_dated ops (web_start c) Hops ltac:(by intros ? ?%elem_of_nil) g Hg) as Hrange.
  rewrite Hexp, rfc3339_read in He by (unfold seconds, SECOND, ACCESS_TTL_SECS in *; lia). by injection He as <-.
Qed.

(** ** The throttle of wrong passwords *)
(** Logins with a wrong password, and operations that concern neither the password nor the process. *)
Definition guesses (c : ServerConfig) (op : web_op) : Prop :=
  match op with
  | WLogin p _ _ _ _ _ _ _ => verified p c = false
  | WSetup _ _ _ _ _ _ _ _ | WChange _ _ _ _ _ _ | WConfig _ | WRestart _ => False
  | _ => True
  end.
(** The clock does not go back from one reading of a login to the next. *)
Fixpoint clock_from (last : Z) (ops : list web_op) : Prop :=
  match ops with
  | [] => True
  | WLogin _ _ _ cn fn _ _ _ :: ops => last ≤ cn ∧ cn ≤ fn ∧ clock_from fn ops
  | _ :: ops => clock_from last ops
  end.
(** When a password was tried and found wrong. *)
Definition tried_at (st : web_state) (op : web_op) : list Z :=
  match op with
  | WLogin p _ _ cn fn _ _ _ =>
      if is_password_configured (ws_config st) && negb (verified p (ws_config st))
         && negb (from_option (λ until, cn <? until) false (lt_locked_until (ws_throttle st))) then [fn] else []
  | _ => []
  end.
Fixpoint tries (st : web_state) (ops : list web_op) : list Z :=
  match ops with [] => [] | op :: ops => tried_at st op ++ tries (web_step st op).1 ops end.

Notation WINDOW := (seconds LOGIN_FAILURE_WINDOW_SECS).
Definition in_window (a : Z) (l : list Z) : nat := length (filter (λ x, a ≤ x ∧ x < a + WINDOW) l).
Lemma in_window_app a l k : in_window a (l ++ k) = (in_window a l + in_window a k)%nat.
Proof. unfold in_window. by rewrite filter_app, length_app. Qed.
Lemma in_window_le a l : (in_window a l ≤ length l)%nat.
Proof. apply length_filter. Qed.
Lemma in_window_none a l : (∀ y, y ∈ l → y < a) → in_window a l = 0%nat.
Proof.
  intros Hl. unfold in_window. induction l as [|y l IH]; [done|]. rewrite filter_cons_False.
  - apply IH. intros x Hx. apply Hl. by right.
  - specialize (Hl y ltac:(by left)). lia.
Qed.
#[local] Instance in_window_perm a : Proper ((≡ₚ) ==> eq) (in_window a).
Proof. intros l k Hlk. unfold in_window. by rewrite Hlk. Qed.

(** Every try is among the failures kept, or too old to count; a lock outlasts the window of all of them. *)
Record throttle_ok (all : list Z) (now : Z) (t : LoginThrottle) : Prop := {
  to_bound : ∀ a, (in_window a all ≤ 8)%nat;
  to_past : ∀ y, y ∈ all → y ≤ now;
  to_state : match lt_locked_until t with
             | Some until => lt_failures t = [] ∧ ∀ y, y ∈ all → y + WINDOW ≤ until
             | None => ∃ old, all ≡ₚ old ++ lt_failures t ∧ (∀ y, y ∈ old → y + WINDOW ≤ now) ∧ (length (lt_failures t) ≤ 7)%nat
             end;
}.
(** The failures that count at some time, and the rest. *)
Lemma split_recent all old l now : all ≡ₚ old ++ l → (∀ y, y ∈ old → y + WINDOW ≤ now) →
  ∃ old', all ≡ₚ old' ++ recent_failures now l ∧ ∀ y, y ∈ old' → y + WINDOW ≤ now.
Proof.
  intros Hp Hold. exists (old ++ filter (λ y, ¬ now ≤ y + WINDOW) l). split.
  - rewrite Hp, <-app_assoc. f_equiv. unfold recent_failures. rewrite Permutation_app_comm. symmetry. apply filter_app_complement.
  - intros y [Hy|[Hy _]%list_elem_of_filter]%elem_of_app; [by apply Hold|lia].
Qed.
Lemma recent_length now l : (length (recent_failures now l) ≤ length l)%nat.
Proof. apply length_filter. Qed.
Lemma check_throttle all last now t t' : last ≤ now → throttle_ok all last t → check_password_login_allowed now t = (t', Ok ()) →
  throttle_ok all now t' ∧ lt_locked_until t' = None.
Proof.
  intros Hle [Hb Hpast Hst]. unfold check_password_login_allowed. destruct (from_option _ _ _) eqn:Hlock; [done|]. intros [= <-].
  split; [|done]. split; [done|intros y Hy; specialize (Hpast y Hy); lia|]. cbn.
  destruct (lt_locked_until t) as [until|]; cbn in Hlock.
  - destruct Hst as [-> Hall]. apply Z.ltb_ge in Hlock. exists all. split; [by rewrite app_nil_r|].
    split; [|cbn; lia]. intros y Hy. specialize (Hall y Hy). lia.
  - destruct Hst as (old & Hp & Hold & Hlen). destruct (split_recent all old (lt_failures t) now Hp) as (old' & Hp' & Hold').
    { intros y Hy. specialize (Hold y Hy). lia. }
    exists old'. split_and!; [done|done|]. pose proof (recent_length now (lt_failures t)). lia.
Qed.
Lemma record_throttle all last now t : last ≤ now → throttle_ok all last t → lt_locked_until t = None →
  throttle_ok (all ++ [now]) now (record_password_login_failure now t).
Proof.
  intros Hle [Hb Hpast Hst] Hnone. rewrite Hnone in Hst. destruct Hst as (old & Hp & Hold & Hlen).
  destruct (split_recent all old (lt_failures t) now Hp) as (old' & Hp' & Hold'); [intros y Hy; specialize (Hold y Hy); lia|].
  pose proof (recent_length now (lt_failures t)) as Hrec.
  assert (∀ y, y ∈ all ++ [now] → y ≤ now) as Hpast'.
  { intros y [Hy|[->|[]%elem_of_nil]%elem_of_cons]%elem_of_app; [specialize (Hpast y Hy)|]; lia. }
  assert (∀ a, (in_window a (all ++ [now]) ≤ 8)%nat) as Hb'.
  { intros a. rewrite in_window_app. destruct (decide (a ≤ now ∧ now < a + WINDOW)) as [[H1 H2]|Hout].
    - rewrite Hp', in_window_app, (in_window_none a old') by (intros y Hy; specialize (Hold' y Hy); lia).
      pose proof (in_window_le a (recent_failures now (lt_failures t))). pose proof (in_window_le a [now]). cbn [length] in *. lia.
    - assert (in_window a [now] = 0%nat) as ->; [|rewrite Nat.add_0_r; apply Hb]. unfold in_window. by rewrite filter_cons_False. }
  unfold record_password_login_failure. destruct (_ <=? _) eqn:Hfull.
  - split; [done|done|]. cbn. split; [done|]. intros y Hy. specialize (Hpast' y Hy). unfold seconds, LOGIN_FAILURE_WINDOW_SECS, LOGIN_FAILURE_LOCK_SECS. lia.
  - split; [done|done|]. cbn. rewrite Hnone. exists old'. split; [by rewrite Hp', <-app_assoc|]. split; [done|].
    apply Z.leb_gt in Hfull. unfold LOGIN_FAILURE_LIMIT in Hfull. lia.
Qed.
Lemma throttle_ok_later all last now t : last ≤ now → throttle_ok all last t → throttle_ok all now t.
Proof.
  intros Hle [Hb Hpast Hst]. split; [done|intros y Hy; specialize (Hpast y Hy); lia|]. destruct (lt_locked_until t); [done|].
  destruct Hst as (old & Hp & Hold & Hlen). exists old. split_and!; [done| |done]. intros y Hy. specialize (Hold y Hy). lia.
Qed.
(** An operation among guesses keeps the configuration, and only a login moves the throttle. *)
Lemma guess_keeps st op : guesses (ws_config st) op → ws_config (web_step st op).1 = ws_config st ∧
  ((tried_at st op = [] ∧ ws_throttle (web_step st op).1 = ws_throttle st) ∨
   ∃ p id k cn fn now prune w t, op = WLogin p id k cn fn now prune w ∧ check_password_login_allowed cn (ws_throttle st) = (t, Ok ()) ∧
     tried_at st op = [fn] ∧ ws_throttle (web_step st op).1 = record_password_login_failure fn t).
Proof.
  destruct st as [c t s]. destruct op as [|p id k cn fn now prune w|token k now w|token now w|token now w|now w| | |]; try done; cbn; intros Hg.
  2: by destruct (refresh _ _ _ _ _ _ _ _); auto. 2: by destruct (logout _ _ _ _ _ _); auto.
  2: by destruct (authenticate _ _ _ _); auto. 2: by destruct (revoke_all_sessions _ _ _ _); auto.
  unfold login, check_password_login_allowed. rewrite Hg. destruct (is_password_configured c); cbn [negb andb]; [|by cbn; auto].
  destruct (from_option _ _ _) eqn:Hlock; cbn [negb]; [by cbn; auto|]. cbn [fst ws_config ws_throttle].
  split; [done|]. right. exists p, id, k, cn, fn, now, prune, w, (mk_throttle (recent_failures cn (lt_failures t)) None).
  by rewrite Hlock.
Qed.
Lemma clock_from_cons last op ops : clock_from last (op :: ops) →
  match op with WLogin _ _ _ cn fn _ _ _ => last ≤ cn ∧ cn ≤ fn ∧ clock_from fn ops | _ => clock_from last ops end.
Proof. by destruct op. Qed.
Lemma clock_from_earlier last last' ops : last' ≤ last → clock_from last ops → clock_from last' ops.
Proof. induction ops as [|[] ops IH]; cbn; intros Hle; try done; auto. intros (? & ? & ?). split; [lia|done]. Qed.
Lemma tries_bounded ops st all last : Forall (guesses (ws_config st)) ops → clock_from last ops → throttle_ok all last (ws_throttle st) →
  ∀ a, (in_window a (all ++ tries st ops) ≤ 8)%nat.
Proof.
  revert st all last. induction ops as [|op ops IH]; intros st all last Hg Hclock Hok a.
  { rewrite app_nil_r. apply (to_bound _ _ _ Hok). }
  apply Forall_cons in Hg as [Hop Hg]. cbn [tries]. destruct (guess_keeps st op Hop) as [Hc Hstep]. rewrite <-Hc in Hg.
  destruct Hstep as [[-> Ht]|(p & id & k & cn & fn & now & prune & w & t & -> & Hcheck & -> & Ht)].
  - rewrite <-Ht in Hok. eapply IH; [done| |exact Hok]. apply clock_from_cons in Hclock. destruct op; try done.
    destruct Hclock as (Hcn & Hfn & Hclock). eapply clock_from_earlier, Hclock. lia.
  - apply clock_from_cons in Hclock as (Hcn & Hfn & Hclock). rewrite app_assoc.
    destruct (check_throttle _ _ _ _ _ Hcn Hok Hcheck) as [Hok' Hnone].
    eapply IH; [done|exact Hclock|]. rewrite Ht. by eapply record_throttle.
Qed.

(** C26: wrong passwords are throttled: from a process's start, whatever its sessions and as long as its password stays, in
    a sequence of logins one after the other with wrong passwords, and of any refreshes, logouts and other uses of the
    sessions between them, over a clock that does not go back, at most eight of the passwords are tried in any ten
    minutes. *)
Theorem wrong_passwords_are_bounded c s ops last a : Forall (guesses c) ops → clock_from last ops →
  (in_window a (tries (mk_web c no_failures s) ops) ≤ 8)%nat.
Proof.
  intros Hg Hclock. apply (tries_bounded ops (mk_web c no_failures s) [] last Hg Hclock).
  split; cbn; [lia|by intros y ?%elem_of_nil|]. exists []. split_and!; [done|by intros y ?%elem_of_nil|cbn; lia].
Qed.
End web_auth.

(** ** Witnesses *)
(** A clock of decimal nanoseconds, tokens that are their own hashes, and a password hash that is the password. *)
Definition demo_read (s : string) : option Z := if all_digits s then Some (dec_value s) else None.
Lemma demo_read_pretty t : 0 ≤ t < YEAR_10000 → demo_read (pretty t) = Some t.
Proof.
  intros [Ht _]. destruct (dec_value_pretty t Ht) as (_ & Hd & _ & Hv). unfold demo_read. by rewrite Hd, Hv.
Qed.
Definition demo_hash (salt secret : string) : result string string := Ok secret.
Definition demo_config : ServerConfig := mk_config (Some "correct horse") None None None.
Definition demo_login (p a r : string) (now : Z) : web_op := WLogin p "id" (mk_secrets a r) now now now now Written.
(** A login, a refresh whose file could not be written, and a restart, which forgets the refresh: the first token, whose
    grant is the only one it can have, is the one that authenticates. *)
Definition demo_ops : list web_op :=
  [demo_login "wrong horse" "x" "y" 1; demo_login " correct horse" "a1" "r1" 2;
   WRefresh "r1" (mk_secrets "a2" "r2") 3 (WriteFailed "disk full" false); WRestart demo_config].
Notation demo_run := (grant_run id demo_hash String.eqb pretty demo_read).
Example authenticated_token_is_outstanding_witness :
  ∃ g, g ∈ (demo_run (web_start demo_config) demo_ops).2 ∧ sc_access g.1 = trim "a1" ∧ 9 ≤ g.2 + seconds ACCESS_TTL_SECS.
Proof.
  refine (authenticated_token_is_outstanding id demo_hash String.eqb pretty demo_read demo_read_pretty demo_config demo_ops "a1" 9 Written
    _ (mk_principal LOCAL_ADMIN_EMAIL "admin") _ _).
  - repeat constructor; vm_compute; first [done|by intros ?].
  - vm_compute. reflexivity.
Defined.
Example tokens_of_the_demo : snd <$> [authenticate_access_token id pretty demo_read "a1" 9 Written (ws_store (demo_run (web_start demo_config) demo_ops).1);
    authenticate_access_token id pretty demo_read "a2" 9 Written (ws_store (demo_run (web_start demo_config) demo_ops).1)]
  = [Ok (Some (mk_principal LOCAL_ADMIN_EMAIL "admin")); Ok None].
Proof. vm_compute. reflexivity. Qed.

Definition demo_guesses : list web_op :=
  (λ t, demo_login "wrong horse" "x" "y" (seconds t)) <$> [1; 2; 3; 4; 5; 6; 7; 8; 9; 10; 609; 611; 612; 613].
Notation demo_tries := (tries id demo_hash String.eqb pretty demo_read (mk_web demo_config no_failures (mk_store [] [])) demo_guesses).
Example wrong_passwords_are_bounded_witness : (in_window 0 demo_tries ≤ 8)%nat.
Proof.
  refine (wrong_passwords_are_bounded id demo_hash String.eqb pretty demo_read demo_config (mk_store [] []) demo_guesses 0 0 _ _).
  - unfold demo_guesses. repeat constructor.
  - vm_compute. repeat split; by intros ?.
Defined.
(** Of those fourteen guesses the first eight and, once the lock has ended, the last four are tried. *)
Example guesses_tried : demo_tries = seconds <$> [1; 2; 3; 4; 5; 6; 7; 8; 609; 611; 612; 613].
Proof. vm_compute. reflexivity. Qed.
