(* ===== verification/RouterNamespace.v ===== *)
(** * Public host names ([src/domain/router/namespace.rs])

    The names a client and its shares have under the domain of a Router, the claims that carry them, and the catalogue
    of claims. The newtypes around a [String] are kept as the string; [*_parse] is the only way the code makes one. *)
From S2P Require Import Prelude RustStr.
From Stdlib Require Import ZArith Lia Ascii.

Local Open Scope Z_scope.

(** domain/router/namespace.rs:7-7 [PROTOCOL_EPOCH] *)
Definition PROTOCOL_EPOCH : string := "namespace-flat-1".
(** domain/router/namespace.rs:8-8 [PUBLIC_SLUG_MIN_LEN] *)
Definition PUBLIC_SLUG_MIN_LEN : Z := 6.
(** domain/router/namespace.rs:9-9 [PUBLIC_SLUG_MAX_LEN] *)
Definition PUBLIC_SLUG_MAX_LEN : Z := 30.
(** domain/router/namespace.rs:13-13 [DNS_LABEL_MAX_LEN] *)
Definition DNS_LABEL_MAX_LEN : Z := 63.
(** domain/router/namespace.rs:14-14 [DNS_NAME_MAX_LEN] *)
Definition DNS_NAME_MAX_LEN : Z := 253.
(** domain/router/namespace.rs:15-15 [RESERVED_LABELS] *)
Definition RESERVED_LABELS : list string := ["admin"; "api"; "cdn-cgi"; "router"; "www"].
(** domain/router/namespace.rs:173-177 [PublicHostKind] *)
Inductive PublicHostKind : Type := KClient | KShare.
#[global] Instance PublicHostKind_eq_dec : EqDecision PublicHostKind.
Proof. solve_decision. Defined.
#[global] Instance PublicHostKind_countable : Countable PublicHostKind.
Proof.
  refine (inj_countable' (λ k, match k with KClient => true | KShare => false end) (λ b : bool, if b then KClient else KShare) _).
  by intros [].
Defined.
(** domain/router/namespace.rs:180-185 [as_str] *)
Definition kind_as_str (k : PublicHostKind) : string := match k with KClient => "client" | KShare => "share" end.
(** domain/router/namespace.rs:17-39 [NamespaceError] *)
Inductive NamespaceError : Type :=
  | InvalidClientSubdomain | InvalidShareSlug | InvalidBaseDomain | InvalidPublicHost | HostLabelTooLong
  | WrongBaseDomain (base : string) | InvalidHostClaim
  | HostConflict (host : string) (existing_kind : PublicHostKind) (existing_subject : string).
(** domain/router/namespace.rs:187-193 [parse] *)
Definition kind_parse (s : string) : result NamespaceError PublicHostKind :=
  if str_eqb s "client" then Ok KClient else if str_eqb s "share" then Ok KShare else Err InvalidHostClaim.

(** ** Slugs, labels and domains *)
Definition slug_byte (c : ascii) : bool := is_ascii_lowercase c || is_ascii_digit c || bool_decide (c = "-"%char).
(** domain/router/namespace.rs:389-405 [validate_public_slug] *)
Definition validate_public_slug (s : string) : bool :=
  (PUBLIC_SLUG_MIN_LEN <=? str_len s) && (str_len s <=? PUBLIC_SLUG_MAX_LEN)
  && negb (contains_str "--" s) && negb (one_of RESERVED_LABELS s)
  && (match s with String c _ => is_ascii_lowercase c | "" => false end)
  && negb (ends_with "-" s) && all_bytes slug_byte s.
(** domain/router/namespace.rs:407-415 [valid_dns_label] *)
Definition valid_dns_label (s : string) : bool :=
  negb (is_empty s) && (str_len s <=? DNS_LABEL_MAX_LEN) && negb (starts_with "-" s) && negb (ends_with "-" s)
  && all_bytes slug_byte s.
(** domain/router/namespace.rs:45-49 [ClientSubdomain::parse] *)
Definition subdomain_parse (s : string) : result NamespaceError string :=
  let s := trim s in if validate_public_slug s then Ok s else Err InvalidClientSubdomain.
(** domain/router/namespace.rs:66-70 [ShareSlug::parse] *)
Definition slug_parse (s : string) : result NamespaceError string :=
  let s := trim s in if validate_public_slug s then Ok s else Err InvalidShareSlug.
(** One octet of [Ipv4Addr::from_str]: up to three digits, no leading zero, at most 255. *)
Definition octet (s : string) : bool :=
  negb (is_empty s) && (str_len s <=? 3) && all_digits s && no_leading_zero s && (dec_value s <=? 255).
(** [value.parse::<IpAddr>().is_ok()]. An IPv6 address holds a [:], which no label may, so that the checks below refuse
    it either way; only the IPv4 form has to be told apart. *)
Definition is_ipv4 (s : string) : bool :=
  let parts := split_char "." s in (length parts =? 4)%nat && forallb octet parts.
(** domain/router/namespace.rs:88-94 [BaseDomain::parse]: what a dotted name must satisfy *)
Definition dotted_name (s : string) : bool :=
  negb (is_empty s) && (str_len s <=? DNS_NAME_MAX_LEN) && negb (is_ipv4 s)
  && (2 <=? length (split_char "." s))%nat && forallb valid_dns_label (split_char "." s).
(** domain/router/namespace.rs:87-98 [BaseDomain::parse] *)
Definition base_domain_parse (s : string) : result NamespaceError string :=
  let s := to_ascii_lowercase (trim_end_char "." s) in if dotted_name s then Ok s else Err InvalidBaseDomain.
(** domain/router/namespace.rs:115-126 [PublicHost::parse] *)
Definition public_host_parse (s : string) : result NamespaceError string :=
  let s := to_ascii_lowercase (trim_end_char "." s) in if dotted_name s then Ok s else Err InvalidPublicHost.
(** domain/router/namespace.rs:146-151 [from_label] *)
Definition from_label (base_domain label : string) : result NamespaceError string :=
  if DNS_LABEL_MAX_LEN <? str_len label then Err HostLabelTooLong
  else public_host_parse (label +:+ "." +:+ base_domain).
(** domain/router/namespace.rs:128-133 [for_client] *)
Definition for_client (base_domain client_subdomain : string) : result NamespaceError string :=
  from_label base_domain client_subdomain.
(** domain/router/namespace.rs:135-144 [for_share] *)
Definition for_share (base_domain share_slug client_subdomain : string) : result NamespaceError string :=
  from_label base_domain (share_slug +:+ "--" +:+ client_subdomain).
(** domain/router/namespace.rs:153-159 [label_for] *)
Definition label_for (host base_domain : string) : result NamespaceError string :=
  ok_or (WrongBaseDomain base_domain)
    (strip_suffix ("." +:+ base_domain) host ≫= λ label,
       if negb (is_empty label) && negb (contains_char "." label) then Some label else None).

(** ** Claims *)
(** domain/router/namespace.rs:203-212 [PublicHostClaim] *)
Record PublicHostClaim := mk_claim {
  pc_host : string;
  pc_kind : PublicHostKind;
  pc_subject_id : string;
  pc_client_subdomain : option string;
  pc_slug : option string;
}.
#[global] Instance PublicHostClaim_eq_dec : EqDecision PublicHostClaim.
Proof. solve_decision. Defined.
(** domain/router/namespace.rs:254-260 [new]: the subject *)
Definition valid_subject (subject_id : string) : bool :=
  str_eqb (trim subject_id) subject_id && negb (is_empty subject_id) && (str_len subject_id <=? 255)
  && negb (any_control subject_id).
(** domain/router/namespace.rs:246-268 [new] *)
Definition claim_new (host : string) (kind : PublicHostKind) (subject_id : string) (client_subdomain slug : option string)
    : result NamespaceError PublicHostClaim :=
  if valid_subject subject_id then Ok (mk_claim host kind subject_id client_subdomain slug) else Err InvalidHostClaim.
(** domain/router/namespace.rs:215-228 [client] *)
Definition client_claim (base_domain client_subdomain subject_id : string) : result NamespaceError PublicHostClaim :=
  host ← for_client base_domain client_subdomain;
  claim_new host KClient subject_id (Some client_subdomain) None.
(** domain/router/namespace.rs:230-244 [share] *)
Definition share_claim (base_domain share_slug client_subdomain subject_id : string)
    : result NamespaceError PublicHostClaim :=
  host ← for_share base_domain share_slug client_subdomain;
  claim_new host KShare subject_id (Some client_subdomain) (Some share_slug).
(** domain/router/namespace.rs:271-289 [validate_for]: the host the typed fields give *)
Definition expected_host (base_domain : string) (c : PublicHostClaim) : result NamespaceError string :=
  match pc_kind c with
  | KClient =>
      subdomain ← ok_or InvalidHostClaim (pc_client_subdomain c);
      for_client base_domain subdomain
  | KShare =>
      raw ← ok_or InvalidHostClaim (pc_slug c);
      slug ← slug_parse raw;
      subdomain ← ok_or InvalidHostClaim (pc_client_subdomain c);
      for_share base_domain slug subdomain
  end.
(** domain/router/namespace.rs:270-294 [validate_for] *)
Definition validate_for (base_domain : string) (c : PublicHostClaim) : result NamespaceError () :=
  expected ← expected_host base_domain c;
  fail_if (negb (str_eqb expected (pc_host c))) InvalidHostClaim.

(** ** The catalogue of claims: a [BTreeMap] by host *)
(** domain/router/namespace.rs:317-320 [FlatHostCatalog] *)
Definition FlatHostCatalog : Type := gmap string PublicHostClaim.
(** domain/router/namespace.rs:323-342 [insert] *)
Definition catalog_insert (c : PublicHostClaim) (m : FlatHostCatalog) : result NamespaceError (bool * FlatHostCatalog) :=
  '(_, base) ← ok_or InvalidHostClaim (split_once "." (pc_host c));
  base ← base_domain_parse base;
  _ ← validate_for base c;
  match m !! pc_host c with
  | Some existing =>
      if bool_decide (existing = c) then Ok (false, m)
      else Err (HostConflict (pc_host c) (pc_kind existing) (pc_subject_id existing))
  | None => Ok (true, <[pc_host c := c]> m)
  end.
(** domain/router/namespace.rs:344-346 [resolve] *)
Definition catalog_resolve (host : string) (m : FlatHostCatalog) : option PublicHostClaim := m !! host.
(** domain/router/namespace.rs:348-350 [remove] *)
Definition catalog_remove (host : string) (m : FlatHostCatalog) : option PublicHostClaim * FlatHostCatalog :=
  (m !! host, delete host m).

(** ** Separators *)
Lemma contains_char_app c a b : contains_char c (a +:+ b) = contains_char c a || contains_char c b.
Proof. induction a as [|x a IH]; [done|]. rewrite app_cons_string. cbn [contains_char]. by rewrite IH, orb_assoc. Qed.
Lemma all_bytes_free (p : ascii → bool) c s : p c = false → all_bytes p s = true → contains_char c s = false.
Proof.
  intros Hp. induction s as [|x s IH]; [done|]. cbn. intros [Hx Hs]%andb_true_iff. rewrite IH by done.
  rewrite orb_false_r. apply bool_decide_eq_false. by intros ->; congruence.
Qed.
(** A character that is in neither prefix splits a string in one way. *)
Lemma sep_char_inj c a a' b b' : contains_char c a = false → contains_char c a' = false →
  a +:+ String c b = a' +:+ String c b' → a = a' ∧ b = b'.
Proof.
  revert a'. induction a as [|x a IH]; intros [|y a'] Ha Ha' Heq; rewrite ?app_cons_string in Heq; cbn in Ha, Ha'.
  - by injection Heq as ->.
  - injection Heq as ->. rewrite bool_decide_eq_true_2 in Ha' by done. done.
  - injection Heq as -> _. rewrite bool_decide_eq_true_2 in Ha by done. done.
  - injection Heq as -> Heq. apply orb_false_iff in Ha as [_ Ha], Ha' as [_ Ha'].
    by destruct (IH _ Ha Ha' Heq) as [-> ->].
Qed.
Lemma split_char_sep c a b : contains_char c a = false → split_char c (a +:+ String c b) = a :: split_char c b.
Proof.
  induction a as [|x a IH]; intros Ha; cbn [contains_char] in Ha.
  - change ("" +:+ String c b) with (String c b). cbn [split_char]. by rewrite bool_decide_eq_true_2.
  - rewrite app_cons_string. cbn [split_char]. apply orb_false_iff in Ha as [Hx Ha]. apply bool_decide_eq_false in Hx.
    rewrite bool_decide_eq_false_2 by done. by rewrite IH.
Qed.
Lemma split_char_cons c s : ∃ w l, split_char c s = w :: l.
Proof.
  induction s as [|d s (w & l & IH)]; cbn; [by eexists _, _|]. rewrite IH. case_bool_decide; by eexists _, _.
Qed.
Lemma all_bytes_split (p : ascii → bool) c s : forallb (all_bytes p) (split_char c s) = true →
  all_bytes (λ d, p d || bool_decide (d = c)) s = true.
Proof.
  induction s as [|d s IH]; [done|]. cbn [split_char all_bytes]. destruct (split_char_cons c s) as (w & l & E). rewrite E in *.
  case_bool_decide as Hd; cbn [forallb all_bytes].
  - intros Hl. rewrite orb_true_r. apply IH. done.
  - rewrite !andb_true_iff. intros [[Hp Hw] Hl]. rewrite Hp. split; [done|]. apply IH. cbn. by rewrite Hw, Hl.
Qed.
Lemma contains_cons pat a s : contains_str pat (String a s) = false →
  strip_prefix pat (String a s) = None ∧ contains_str pat s = false.
Proof.
  unfold contains_str. rewrite !bool_decide_eq_false, <-!eq_None_not_Some. cbn [split_once].
  destruct (strip_prefix pat (String a s)); [done|]. by rewrite fmap_None.
Qed.
Lemma ends_with_cons suf a s : ends_with suf (String a s) = false → ends_with suf s = false.
Proof.
  intros He. apply not_true_iff_false. intros [t ->]%ends_with_true. apply not_true_iff_false in He. apply He.
  apply ends_with_true. by exists (String a t).
Qed.
(** Two parts joined by [--] are read back where the first neither holds [--] nor ends in [-]. *)
Lemma split_once_dashes a b : contains_str "--" a = false → ends_with "-" a = false →
  split_once "--" (a +:+ "--" +:+ b) = Some (a, b).
Proof.
  induction a as [|x a IH]; intros Hc He; [by destruct b|]. apply contains_cons in Hc as [Hs Hc].
  rewrite app_cons_string. cbn [split_once].
  assert (strip_prefix "--" (String x (a +:+ "--" +:+ b)) = None) as ->.
  { cbn in Hs |- *. case_bool_decide as Hx; [|done]. destruct a as [|y a].
    - subst x. exfalso. apply not_true_iff_false in He. apply He. by apply ends_with_true; exists "".
    - rewrite app_cons_string. cbn in Hs |- *. by case_bool_decide. }
  rewrite IH; [done|done|by eapply ends_with_cons].
Qed.
Lemma contains_dashes a b : contains_str "--" (a +:+ "--" +:+ b) = true.
Proof.
  induction a as [|x a IH]; [by destruct b|]. apply not_false_iff_true. intros Hf. rewrite app_cons_string in Hf.
  apply contains_cons in Hf as [_ Hf]. congruence.
Qed.

(** ** Names are normalised *)
Lemma lowercase_id (p : ascii → bool) s : (∀ c, p c = true → ascii_lower c = c) → all_bytes p s = true →
  to_ascii_lowercase s = s.
Proof. intros Hp. induction s as [|c s IH]; [done|]. cbn. intros [Hc Hs]%andb_true_iff. by rewrite Hp, IH. Qed.
Lemma trim_end_char_id c s : ends_with (String c "") s = false → trim_end_char c s = s.
Proof.
  induction s as [|d s IH]; intros He; [done|]. cbn. rewrite IH by by eapply ends_with_cons.
  destruct s as [|e s]; cbn; [|done]. rewrite bool_decide_eq_false_2; [done|]. intros ->.
  apply not_true_iff_false in He. apply He. by apply ends_with_true; exists "".
Qed.
Lemma lower_slug_byte c : slug_byte c || bool_decide (c = "."%char) = true → ascii_lower c = c.
Proof. by destruct c as [[] [] [] [] [] [] [] []]; vm_compute. Qed.
Lemma slug_no_dot s : all_bytes slug_byte s = true → contains_char "." s = false.
Proof. by apply all_bytes_free. Qed.
Lemma dotted_bytes s : dotted_name s = true → all_bytes (λ c, slug_byte c || bool_decide (c = "."%char)) s = true.
Proof.
  unfold dotted_name. rewrite !andb_true_iff. intros [_ Hl]. apply all_bytes_split.
  pose proof (proj1 (forallb_forall _ _) Hl) as Hl'. apply forallb_forall. intros w Hw%Hl'. unfold valid_dns_label in Hw.
  rewrite !andb_true_iff in Hw. by destruct_and!.
Qed.
Lemma split_trailing c t : ∃ w l, split_char c (t +:+ String c "") = w :: l ∧ "" ∈ l.
Proof.
  induction t as [|d t (w & l & E & Hl)].
  - change ("" +:+ String c "") with (String c ""). cbn [split_char]. rewrite bool_decide_eq_true_2 by done.
    eexists _, _. split; [done|]. left.
  - rewrite app_cons_string. cbn [split_char]. rewrite E. case_bool_decide; eexists _, _; (split; [done|]); [by right|done].
Qed.
Lemma dotted_no_trailing s : dotted_name s = true → ends_with "." s = false.
Proof.
  unfold dotted_name. rewrite !andb_true_iff, forallb_forall. intros [_ Hl]. apply not_true_iff_false.
  intros [t ->]%ends_with_true. destruct (split_trailing "." t) as (w & l & E & Hin). rewrite E in Hl.
  pose proof (Hl "" ltac:(right; by apply list_elem_of_In)). done.
Qed.
Lemma ends_with_app c a b : b ≠ "" → ends_with (String c "") (a +:+ b) = ends_with (String c "") b.
Proof.
  intros Hb. induction a as [|x a IH]; [done|]. rewrite app_cons_string, <-IH. unfold ends_with. cbn [strip_suffix].
  rewrite (proj2 (str_eqb_neq _ _)).
  - by destruct (strip_suffix _ _).
  - intros [= _ E]. destruct a, b; done.
Qed.
Lemma host_bytes label base : dotted_name base = true → all_bytes slug_byte label = true →
  all_bytes (λ c, slug_byte c || bool_decide (c = "."%char)) (label +:+ "." +:+ base) = true.
Proof.
  intros Hb Hl. rewrite all_bytes_app. apply andb_true_iff. split.
  - clear -Hl. induction label as [|c s IH]; [done|]. cbn in *. apply andb_true_iff in Hl as [-> Hl]. cbn. auto.
  - change ("." +:+ base) with (String "." base). cbn [all_bytes]. by rewrite dotted_bytes.
Qed.
Lemma public_host_parse_label label base : dotted_name base = true → all_bytes slug_byte label = true →
  public_host_parse (label +:+ "." +:+ base)
    = if dotted_name (label +:+ "." +:+ base) then Ok (label +:+ "." +:+ base) else Err InvalidPublicHost.
Proof.
  intros Hb Hl. unfold public_host_parse. rewrite trim_end_char_id.
  - rewrite (lowercase_id _ _ lower_slug_byte); [done|]. by apply host_bytes.
  - rewrite !ends_with_app; [by apply dotted_no_trailing|by intros ->|done].
Qed.
Lemma from_label_Ok label base h : dotted_name base = true → all_bytes slug_byte label = true →
  from_label base label = Ok h → h = label +:+ "." +:+ base.
Proof.
  intros Hb Hl. unfold from_label. case_match; [done|]. rewrite public_host_parse_label by done. case_match; [|done]. by intros [= <-].
Qed.

(** ** Slugs *)
Record slug_ok (s : string) : Prop := {
  sl_length : PUBLIC_SLUG_MIN_LEN ≤ str_len s ≤ PUBLIC_SLUG_MAX_LEN;
  sl_dashes : contains_str "--" s = false;
  sl_first : ∃ c t, s = String c t ∧ is_ascii_lowercase c = true;
  sl_last : ends_with "-" s = false;
  sl_bytes : all_bytes slug_byte s = true;
}.
Lemma validate_public_slug_ok s : validate_public_slug s = true → slug_ok s.
Proof.
  unfold validate_public_slug. rewrite !andb_true_iff, !negb_true_iff, !Z.leb_le.
  intros [[[[[[? ?] ?] ?] Hf] ?] ?]. split; try done. destruct s as [|c t]; [done|]. by exists c, t.
Qed.
Lemma slug_parse_ok s t : slug_parse s = Ok t → slug_ok t.
Proof. unfold slug_parse. case_match; [|done]. intros [= <-]. by apply validate_public_slug_ok. Qed.
Lemma share_label_bytes s c : slug_ok s → slug_ok c → all_bytes slug_byte (s +:+ "--" +:+ c) = true.
Proof. intros Hs Hc. by rewrite !all_bytes_app, (sl_bytes s), (sl_bytes c). Qed.

(** *** What was parsed is parsed again *)
Lemma base_domain_parse_id d : dotted_name d = true → base_domain_parse d = Ok d.
Proof.
  intros Hd. unfold base_domain_parse. rewrite trim_end_char_id by by apply dotted_no_trailing.
  by rewrite (lowercase_id _ _ lower_slug_byte), Hd by by apply dotted_bytes.
Qed.
Lemma trim_slug s : all_bytes slug_byte s = true → trim s = s.
Proof. intros Hs. apply trim_graphic. refine (all_bytes_mono _ _ s _ Hs). by intros [[] [] [] [] [] [] [] []]; vm_compute. Qed.
Lemma subdomain_parse_id d : validate_public_slug d = true → subdomain_parse d = Ok d.
Proof. intros Hd. unfold subdomain_parse. rewrite trim_slug, Hd; [done|]. by apply validate_public_slug_ok. Qed.
Lemma subdomain_parse_Ok s d : subdomain_parse s = Ok d → validate_public_slug d = true.
Proof. unfold subdomain_parse. case_match; [|done]. by intros [= <-]. Qed.
Lemma dotted_host_parse_id d : dotted_name d = true → public_host_parse d = Ok d.
Proof.
  intros Hd. unfold public_host_parse. rewrite trim_end_char_id by by apply dotted_no_trailing.
  by rewrite (lowercase_id _ _ lower_slug_byte), Hd by by apply dotted_bytes.
Qed.
Lemma public_host_parse_dotted s h : public_host_parse s = Ok h → dotted_name h = true.
Proof. unfold public_host_parse. case_match; [|done]. by intros [= <-]. Qed.

(** ** A host names one claim *)
(** The claim's subdomain is a [ClientSubdomain]. *)
Definition claim_typed (c : PublicHostClaim) : Prop := ∀ s, pc_client_subdomain c = Some s → validate_public_slug s = true.
(** The slug a claim stands for: a client has none, whatever the field says. *)
Definition claim_slug (c : PublicHostClaim) : option string :=
  match pc_kind c with KClient => None | KShare => pc_slug c ≫= λ s, to_ok (slug_parse s) end.
Definition claim_label (kind : PublicHostKind) (slug subdomain : string) : string :=
  match kind with KClient => subdomain | KShare => slug +:+ "--" +:+ subdomain end.
Lemma validated_label base c : dotted_name base = true → claim_typed c → validate_for base c = Ok () →
  ∃ slug subdomain, pc_client_subdomain c = Some subdomain ∧ slug_ok subdomain ∧
    claim_slug c = (match pc_kind c with KClient => None | KShare => Some slug end) ∧ (pc_kind c = KShare → slug_ok slug) ∧
    pc_host c = claim_label (pc_kind c) slug subdomain +:+ "." +:+ base.
Proof.
  intros Hb Ht Hv. apply bind_Ok in Hv as (h & He & Hh%fail_if_Ok). apply negb_false_iff, str_eqb_eq in Hh as <-.
  unfold expected_host, claim_slug in *. destruct (pc_kind c).
  - apply bind_Ok in He as (s & Hs%ok_or_Ok & Hf). pose proof (validate_public_slug_ok _ (Ht s Hs)) as Hok.
    exists "", s. split_and!; try done. apply (from_label_Ok s); [done|apply Hok|done].
  - apply bind_Ok in He as (raw & Hraw%ok_or_Ok & He). apply bind_Ok in He as (slug & Hslug & He).
    apply bind_Ok in He as (s & Hs%ok_or_Ok & Hf). pose proof (validate_public_slug_ok _ (Ht s Hs)) as Hok.
    pose proof (slug_parse_ok _ _ Hslug) as Hsl. exists slug, s. rewrite Hraw. cbn. rewrite Hslug. split_and!; try done.
    apply (from_label_Ok (slug +:+ "--" +:+ s)); [done|by apply share_label_bytes|done].
Qed.
Lemma claim_label_no_dot kind slug subdomain : slug_ok subdomain → (kind = KShare → slug_ok slug) →
  contains_char "." (claim_label kind slug subdomain) = false.
Proof. intros Hc Hs. apply slug_no_dot. destruct kind; [apply Hc|]. apply share_label_bytes; auto. Qed.
Lemma claim_label_inj k k' s s' c c' : slug_ok c → slug_ok c' → (k = KShare → slug_ok s) → (k' = KShare → slug_ok s') →
  claim_label k s c = claim_label k' s' c' → k = k' ∧ c = c' ∧ (k = KShare → s = s').
Proof.
  intros Hc Hc' Hs Hs' Heq. destruct k, k'; cbn in Heq; subst.
  - done.
  - exfalso. pose proof (sl_dashes _ Hc) as Hd. by rewrite contains_dashes in Hd.
  - exfalso. pose proof (sl_dashes _ Hc') as Hd. by rewrite contains_dashes in Hd.
  - specialize (Hs eq_refl). specialize (Hs' eq_refl). apply (f_equal (split_once "--")) in Heq.
    rewrite !split_once_dashes in Heq by (apply Hs || apply Hs'). by injection Heq as -> ->.
Qed.


(** ** Hosts of shares are read back *)
Lemma lowercase_not_dash c : is_ascii_lowercase c = true → c ≠ "-"%char ∧ is_ascii_digit c = false.
Proof. by destruct c as [[] [] [] [] [] [] [] []]; vm_compute. Qed.
Lemma share_label_valid s c : slug_ok s → slug_ok c → valid_dns_label (s +:+ "--" +:+ c) = true ∧
  octet (s +:+ "--" +:+ c) = false ∧ str_len (s +:+ "--" +:+ c) ≤ DNS_LABEL_MAX_LEN.
Proof.
  intros Hs Hc. destruct (sl_first _ Hs) as (x & t & -> & [Hx Hd]%lowercase_not_dash).
  assert (str_len (String x t +:+ "--" +:+ c) ≤ DNS_LABEL_MAX_LEN) as Hlen.
  { pose proof (sl_length _ Hs). pose proof (sl_length _ Hc). unfold str_len, PUBLIC_SLUG_MAX_LEN, DNS_LABEL_MAX_LEN in *.
    rewrite !length_app_string. cbn [String.length] in *. lia. }
  assert (c ≠ "") as Hne by (by destruct (sl_first _ Hc) as (? & ? & -> & _)).
  split_and!; [|by rewrite app_cons_string; unfold octet, all_digits; cbn [all_bytes]; rewrite Hd, !andb_false_r|done].
  unfold valid_dns_label. rewrite !andb_true_iff, !negb_true_iff, Z.leb_le. split_and!; [done|done| | |by apply share_label_bytes].
  - rewrite app_cons_string. apply not_true_iff_false. by intros [r [= -> _]]%starts_with_true.
  - rewrite <-app_assoc_string, ends_with_app by done. apply Hc.
Qed.
(** C0: the host of a share is read back: for a slug and a client subdomain the code accepts, the host is made unless
    the full name is longer than a DNS name may be, its label under the domain fits in a DNS label, and splitting the
    label at its first [--] gives the slug and the client again. *)
Theorem share_host_round_trip base s c : dotted_name base = true → validate_public_slug s = true →
  validate_public_slug c = true →
  let label := s +:+ "--" +:+ c in let host := label +:+ "." +:+ base in
  for_share base s c = (if str_len host <=? DNS_NAME_MAX_LEN then Ok host else Err InvalidPublicHost) ∧
  str_len label ≤ DNS_LABEL_MAX_LEN ∧ label_for host base = Ok label ∧ split_once "--" label = Some (s, c).
Proof.
  intros Hb Hs%validate_public_slug_ok Hc%validate_public_slug_ok label host.
  destruct (share_label_valid s c Hs Hc) as (Hv & Ho & Hl). fold label in Hv, Ho, Hl.
  pose proof (share_label_bytes s c Hs Hc) as Hbytes. fold label in Hbytes. pose proof (slug_no_dot _ Hbytes) as Hdot.
  split_and!; [|done| |apply split_once_dashes; apply Hs].
  - unfold for_share, from_label. fold label. rewrite (proj2 (Z.ltb_ge _ _) Hl).
    rewrite public_host_parse_label by done. fold host. replace (dotted_name host) with (str_len host <=? DNS_NAME_MAX_LEN); [done|].
    unfold dotted_name, is_ipv4, host. change ("." +:+ base) with (String "." base). rewrite split_char_sep by done.
    cbn [forallb length]. rewrite Ho, Hv, andb_false_r. destruct (sl_first _ Hs) as (x & t & -> & _).
    unfold dotted_name in Hb. rewrite !andb_true_iff in Hb. destruct Hb as [[_ Hn] ->].
    destruct (split_char_cons "." base) as (w & l & ->). cbn. by rewrite !andb_true_r.
  - unfold label_for, host. rewrite (proj2 (strip_suffix_Some _ _ label) eq_refl). cbn [mbind option_bind].
    rewrite Hdot. destruct (sl_first _ Hs) as (x & t & Hx & _). unfold label at 1. by rewrite Hx.
Qed.

Definition sample_claim : PublicHostClaim :=
  mk_claim "team-pro--edge-main.router.example.com" KShare "share-1" (Some "edge-main") (Some "team-pro").
Example sample_claim_made :
  (base ← base_domain_parse "Router.Example.COM."; share_claim base "team-pro" "edge-main" "share-1") = Ok sample_claim.
Proof. vm_compute. reflexivity. Qed.
Example sample_client_name : for_client "router.example.com" "edge-main" = Ok "edge-main.router.example.com".
Proof. vm_compute. reflexivity. Qed.
Example ipv4_refused : base_domain_parse "10.0.0.255" = Err InvalidBaseDomain ∧ base_domain_parse "10.0.0.256" = Ok "10.0.0.256".
Proof. vm_compute. done. Qed.
(** The claim of another subject, read from a peer that did not trim the slug. *)
Definition other_claim : PublicHostClaim :=
  mk_claim "team-pro--edge-main.router.example.com" KShare "share-2" (Some "edge-main") (Some " team-pro ").
Lemma sample_claims_typed : claim_typed sample_claim ∧ claim_typed other_claim.
Proof. by split; intros s [= <-]. Qed.
Lemma share_host_round_trip_witness :
  for_share "router.example.com" "team-pro" "edge-main" = Ok "team-pro--edge-main.router.example.com" ∧
  label_for "team-pro--edge-main.router.example.com" "router.example.com" = Ok "team-pro--edge-main".
Proof.
  destruct (share_host_round_trip "router.example.com" "team-pro" "edge-main" eq_refl eq_refl eq_refl) as (Hf & _ & Hl & _).
  split; [exact Hf|exact Hl].
Defined.
