(* ===== verification/RouterControl.v ===== *)
(** * The control store of the Router client ([src/clients/router/control_store.rs])

    The tables of the SQLite database that holds the device's identity, the Routers it is registered with, the outbox of
    operations for them, the cursors of their streams and the public hosts; and one function per operation. A function
    that fails changes nothing: the code runs it as one statement or in a transaction that is rolled back.

    A table is a finite map by its primary key. Every insert and update goes through the constraints of the schema
    ([CHECK], [UNIQUE], foreign keys), whose violation is the error [Sqlite]. [serde_json::to_string] and [from_str] are
    inverse, so that the outbox keeps the payload itself. *)
From S2P Require Import Prelude RustStr Json RouterNamespace.
From Stdlib Require Import ZArith Lia Ascii.

Local Open Scope Z_scope.

(** ** Data *)
(** clients/router/control_store.rs:187-191 [RouterRole] *)
Inductive RouterRole : Type := Primary | Auxiliary.
#[global] Instance RouterRole_eq_dec : EqDecision RouterRole.
Proof. solve_decision. Defined.
(** clients/router/control_store.rs:28-98 [RouterControlStoreError] *)
Inductive RouterControlStoreError : Type :=
  | Sqlite (message : string)
  | ProtocolEpochMismatch (found expected : string)
  | Namespace (e : NamespaceError)
  | InvalidDeviceIdentity (message : string)
  | DeviceIdentityMissing
  | ClientSubdomainMismatch (existing : string)
  | InvalidRouterProfile (message : string)
  | RouterAlreadyExists (router_id : string)
  | RouterNotFound (router_id : string)
  | FirstRouterMustBePrimary
  | PrimaryRouterExists (router_id : string)
  | CannotRemovePrimary
  | InstallationConflict (installation_id : string)
  | InvalidOutbox (message : string)
  | OutboxNotFound (message_id : string)
  | OutboxLeaseMismatch (message_id : string)
  | InvalidCursor (message : string)
  | CursorConflict (expected current : option Z)
  | StoreHostConflict (host : string) (existing_kind : PublicHostKind) (existing_subject : string)
  | SubjectAlreadyClaimed (router_id : string) (kind : PublicHostKind) (subject_id : string)
  | HostClientSubdomainMismatch
  | DatabaseInvariant (message : string).
(** clients/router/control_store.rs:117-124 [DeviceIdentity] *)
Record DeviceIdentity := mk_identity {
  di_protocol_epoch : string;
  di_client_subdomain : string;
  di_public_key : string;
  di_private_key : string;
  di_created_at_ms : Z;
}.
(** clients/router/control_store.rs:213-218 [NewRouterProfile] *)
Record NewRouterProfile := mk_new_profile {
  np_router_id : string; np_api_base : string; np_base_domain : string; np_role : RouterRole;
}.
(** clients/router/control_store.rs:222-232 [RouterProfile] *)
Record RouterProfile := mk_profile {
  rp_protocol_epoch : string;
  rp_router_id : string;
  rp_api_base : string;
  rp_base_domain : string;
  rp_installation_id : option string;
  rp_control_secret : option string;
  rp_role : RouterRole;
  rp_created_at_ms : Z;
  rp_updated_at_ms : Z;
}.
#[global] Instance profile_eta : Eta RouterProfile := λ p,
  mk_profile (rp_protocol_epoch p) (rp_router_id p) (rp_api_base p) (rp_base_domain p) (rp_installation_id p)
    (rp_control_secret p) (rp_role p) (rp_created_at_ms p) (rp_updated_at_ms p).
(** clients/router/control_store.rs:255-259 [PrimaryRouterState] *)
Record PrimaryRouterState := mk_primary { ps_router_id : option string; ps_controller_epoch : Z }.
(** clients/router/control_store.rs:547-553 [NewOutboxMessage] *)
Record NewOutboxMessage := mk_new_message {
  nm_router_id : string; nm_operation : string; nm_payload : value; nm_dedupe_key : option string; nm_available_at_ms : Z;
}.
(** clients/router/control_store.rs:563-567 [OutboxStatus] *)
Inductive OutboxStatus : Type := MPending | MInFlight | MDeadLetter.
#[global] Instance OutboxStatus_eq_dec : EqDecision OutboxStatus.
Proof. solve_decision. Defined.
(** clients/router/control_store.rs:583-598 [OutboxMessage] *)
Record OutboxMessage := mk_message {
  om_message_id : string;
  om_protocol_epoch : string;
  om_router_id : string;
  om_operation : string;
  om_payload : value;
  om_dedupe_key : option string;
  om_status : OutboxStatus;
  om_attempt_count : Z;
  om_next_attempt_at_ms : Z;
  om_lease_owner : option string;
  om_lease_until_ms : option Z;
  om_last_error : option string;
  om_created_at_ms : Z;
  om_updated_at_ms : Z;
}.
#[global] Instance message_eta : Eta OutboxMessage := λ m,
  mk_message (om_message_id m) (om_protocol_epoch m) (om_router_id m) (om_operation m) (om_payload m) (om_dedupe_key m)
    (om_status m) (om_attempt_count m) (om_next_attempt_at_ms m) (om_lease_owner m) (om_lease_until_ms m) (om_last_error m)
    (om_created_at_ms m) (om_updated_at_ms m).
(** clients/router/control_store.rs:804-811 [SyncCursor] *)
Record SyncCursor := mk_cursor {
  sc_protocol_epoch : string;
  sc_router_id : string;
  sc_stream : string;
  sc_position : string;
  sc_sequence : Z;
  sc_updated_at_ms : Z;
}.
#[global] Instance cursor_eta : Eta SyncCursor := λ c,
  mk_cursor (sc_protocol_epoch c) (sc_router_id c) (sc_stream c) (sc_position c) (sc_sequence c) (sc_updated_at_ms c).
(** clients/router/control_store.rs:891-900 [StoredHostClaim] *)
Record StoredHostClaim := mk_stored {
  hc_protocol_epoch : string;
  hc_router_id : string;
  hc_host : string;
  hc_kind : PublicHostKind;
  hc_subject_id : string;
  hc_client_subdomain : option string;
  hc_slug : option string;
  hc_created_at_ms : Z;
}.
(** clients/router/control_store.rs:1052-1131 [initialize_schema]: the tables *)
Record ControlDb := mk_db {
  device_identity : option DeviceIdentity;
  router_profiles : gmap string RouterProfile;
  primary_router_id : option string;
  controller_epoch : Z;
  control_outbox : gmap string OutboxMessage;
  sync_cursors : gmap (string * string) SyncCursor;
  public_hosts : gmap string StoredHostClaim;
}.
#[global] Instance db_eta : Eta ControlDb := λ d,
  mk_db (device_identity d) (router_profiles d) (primary_router_id d) (controller_epoch d) (control_outbox d) (sync_cursors d)
    (public_hosts d).
(** clients/router/control_store.rs:1135-1136 [initialize_schema]: an empty store *)
Definition empty_db : ControlDb := mk_db None ∅ None 0 ∅ ∅ ∅.
Notation answer A := (result RouterControlStoreError A).
Definition lift_namespace {A} (r : result NamespaceError A) : answer A :=
  match r with Ok a => Ok a | Err e => Err (Namespace e) end.
(** [EXISTS(SELECT 1 FROM m WHERE p)] *)
Definition some_row {K A} `{Countable K} (p : K → A → bool) (m : gmap K A) : bool :=
  existsb (λ e, p e.1 e.2) (map_to_list m).

(** ** Validation of arguments *)
(** clients/router/control_store.rs:1649-1660 [validate_opaque_id] *)
Definition validate_opaque_id (label s : string) (max_len : Z) : answer string :=
  if negb (str_eqb (trim s) s) || is_empty s || (max_len <? str_len s) || any_control s
  then Err (InvalidRouterProfile (label +:+ " is invalid")) else Ok s.
(** clients/router/control_store.rs:1603-1614 [validate_router_id] *)
Definition validate_router_id (s : string) : answer string :=
  s ← validate_opaque_id "Router id" s 128;
  if all_bytes (λ c, is_ascii_alphanumeric c || bool_decide (c ∈ ["-"; "_"; "."; ":"]%char)) s then Ok s
  else Err (InvalidRouterProfile "Router id contains unsupported characters").
(** clients/router/control_store.rs:1636-1647 [validate_operation] *)
Definition validate_operation (s : string) : answer string :=
  s ← validate_opaque_id "operation" s 128;
  if all_bytes (λ c, is_ascii_lowercase c || is_ascii_digit c || bool_decide (c = "_"%char)) s then Ok s
  else Err (InvalidOutbox "operation must use lowercase letters, digits, and underscores").
(** clients/router/control_store.rs:1662-1673 [validate_secret] *)
Definition validate_secret (s : string) : answer string :=
  if negb (str_eqb (trim s) s) || (str_len s <? 16) || (4096 <? str_len s) || any_control s
  then Err (InvalidRouterProfile "Router control secret is invalid") else Ok s.
(** clients/router/control_store.rs:1675-1682 [validate_error_message] *)
Definition validate_error_message (s : string) : answer string :=
  if is_empty (trim s) then Err (InvalidOutbox "outbox error must not be empty") else Ok (take_chars 2048 s).
(** clients/router/control_store.rs:1684-1691 [validate_timestamp] *)
Definition validate_timestamp (ms : Z) : answer () :=
  fail_if (ms <? 0) (InvalidRouterProfile "timestamp must be non-negative").

(** ** Writing a row under the constraints of the schema *)
Definition CHECK_FAILED : RouterControlStoreError := Sqlite "CHECK constraint failed".
Definition UNIQUE_FAILED : RouterControlStoreError := Sqlite "UNIQUE constraint failed".
Definition FOREIGN_KEY_FAILED : RouterControlStoreError := Sqlite "FOREIGN KEY constraint failed".
(** clients/router/control_store.rs:1061-1075 [initialize_schema]: the constraints of [router_profiles] on one row *)
Definition profile_checked (p : RouterProfile) : bool :=
  (0 <=? rp_created_at_ms p) && (rp_created_at_ms p <=? rp_updated_at_ms p)
  && Bool.eqb (bool_decide (rp_installation_id p = None)) (bool_decide (rp_control_secret p = None)).
Definition same_some (a b : option string) : bool := bool_decide (is_Some a) && bool_decide (a = b).
(** Two rows no table of profiles may hold. *)
Definition profiles_clash (p q : RouterProfile) : bool :=
  str_eqb (rp_api_base p) (rp_api_base q) || str_eqb (rp_base_domain p) (rp_base_domain q)
  || same_some (rp_installation_id p) (rp_installation_id q)
  || bool_decide (rp_role p = Primary) && bool_decide (rp_role q = Primary).
Definition put_profile (p : RouterProfile) (db : ControlDb) : answer ControlDb :=
  _ ← fail_if (negb (profile_checked p)) CHECK_FAILED;
  _ ← fail_if (some_row (λ id q, negb (str_eqb id (rp_router_id p)) && profiles_clash p q) (router_profiles db)) UNIQUE_FAILED;
  Ok (db <| router_profiles ::= <[rp_router_id p := p]> |>).
(** clients/router/control_store.rs:1083-1103 [initialize_schema]: the constraints of [control_outbox] on one row *)
Definition message_checked (m : OutboxMessage) : bool :=
  (0 <=? om_attempt_count m) && (0 <=? om_next_attempt_at_ms m) && (0 <=? om_created_at_ms m)
  && (om_created_at_ms m <=? om_updated_at_ms m)
  && Bool.eqb (bool_decide (om_status m = MInFlight)) (bool_decide (is_Some (om_lease_owner m)))
  && Bool.eqb (bool_decide (om_status m = MInFlight)) (bool_decide (is_Some (om_lease_until_ms m))).
Definition messages_clash (m n : OutboxMessage) : bool :=
  str_eqb (om_router_id m) (om_router_id n) && same_some (om_dedupe_key m) (om_dedupe_key n).
Definition put_message (m : OutboxMessage) (db : ControlDb) : answer ControlDb :=
  _ ← fail_if (negb (message_checked m)) CHECK_FAILED;
  _ ← fail_if (bool_decide (router_profiles db !! om_router_id m = None)) FOREIGN_KEY_FAILED;
  _ ← fail_if (some_row (λ id n, negb (str_eqb id (om_message_id m)) && messages_clash m n) (control_outbox db)) UNIQUE_FAILED;
  Ok (db <| control_outbox ::= <[om_message_id m := m]> |>).
(** clients/router/control_store.rs:1107-1115 [initialize_schema]: the constraints of [sync_cursors] *)
Definition put_cursor (c : SyncCursor) (db : ControlDb) : answer ControlDb :=
  _ ← fail_if (negb ((0 <=? sc_sequence c) && (0 <=? sc_updated_at_ms c))) CHECK_FAILED;
  _ ← fail_if (bool_decide (router_profiles db !! sc_router_id c = None)) FOREIGN_KEY_FAILED;
  Ok (db <| sync_cursors ::= <[(sc_router_id c, sc_stream c) := c]> |>).
(** clients/router/control_store.rs:1117-1131 [initialize_schema]: the constraints of [public_hosts] on one row *)
Definition host_checked (h : StoredHostClaim) : bool :=
  (0 <=? hc_created_at_ms h) && bool_decide (is_Some (hc_client_subdomain h))
  && match hc_kind h with
     | KClient => bool_decide (hc_slug h = None)
     | KShare => bool_decide (is_Some (hc_slug h))
     end.
Definition hosts_clash (h k : StoredHostClaim) : bool :=
  str_eqb (hc_router_id h) (hc_router_id k) && bool_decide (hc_kind h = hc_kind k) && str_eqb (hc_subject_id h) (hc_subject_id k).
(** The key compares without case; the hosts that reach it are in lower case. *)
Definition insert_host (h : StoredHostClaim) (db : ControlDb) : answer ControlDb :=
  _ ← fail_if (negb (host_checked h)) CHECK_FAILED;
  _ ← fail_if (bool_decide (router_profiles db !! hc_router_id h = None)) FOREIGN_KEY_FAILED;
  _ ← fail_if (bool_decide (is_Some (public_hosts db !! hc_host h)) || some_row (λ _, hosts_clash h) (public_hosts db)) UNIQUE_FAILED;
  Ok (db <| public_hosts ::= <[hc_host h := h]> |>).
(** [UPDATE control_state SET primary_router_id = .., controller_epoch = controller_epoch + 1]; the column is an
    integer, which the sum must fit *)
Definition set_primary (router_id : option string) (db : ControlDb) : answer ControlDb :=
  epoch ← ok_or (Sqlite "cannot store REAL value in INTEGER column") (checked_i64 (controller_epoch db + 1));
  _ ← fail_if (from_option (λ id, bool_decide (router_profiles db !! id = None)) false router_id) FOREIGN_KEY_FAILED;
  Ok (db <| primary_router_id := router_id |> <| controller_epoch := epoch |>).

(** ** Reading a row *)
(** clients/router/control_store.rs:1405-1413 [router_profile_exists] *)
Definition router_profile_exists (db : ControlDb) (router_id : string) : bool := bool_decide (is_Some (router_profiles db !! router_id)).
(** clients/router/control_store.rs:1438-1452 [router_profile_from_row] *)
Definition router_profile_from_row (p : RouterProfile) : answer RouterProfile :=
  match base_domain_parse (rp_base_domain p) with
  | Ok d => Ok (p <| rp_base_domain := d |>)
  | Err _ => Err (Sqlite "invalid Router base domain")
  end.
(** clients/router/control_store.rs:1425-1436 [load_router_profile] *)
Definition load_router_profile (db : ControlDb) (router_id : string) : answer (option RouterProfile) :=
  match router_profiles db !! router_id with
  | Some p => Some <$> router_profile_from_row p
  | None => Ok None
  end.
(** clients/router/control_store.rs:1472-1520 [load_outbox_message] *)
Definition load_outbox_message (db : ControlDb) (message_id : string) : option OutboxMessage := control_outbox db !! message_id.
(** clients/router/control_store.rs:1539-1562 [load_sync_cursor] *)
Definition load_sync_cursor (db : ControlDb) (router_id stream : string) : option SyncCursor := sync_cursors db !! (router_id, stream).
(** clients/router/control_store.rs:1577-1594 [host_claim_from_row] *)
Definition host_claim_from_row (h : StoredHostClaim) : answer StoredHostClaim :=
  match public_host_parse (hc_host h) with
  | Err _ => Err (Sqlite "invalid public host")
  | Ok host =>
      match hc_client_subdomain h with
      | None => Ok (mk_stored (hc_protocol_epoch h) (hc_router_id h) host (hc_kind h) (hc_subject_id h) None (hc_slug h) (hc_created_at_ms h))
      | Some d =>
          match subdomain_parse d with
          | Err _ => Err (Sqlite "invalid client subdomain")
          | Ok d => Ok (mk_stored (hc_protocol_epoch h) (hc_router_id h) host (hc_kind h) (hc_subject_id h) (Some d) (hc_slug h)
                      (hc_created_at_ms h))
          end
      end
  end.
(** clients/router/control_store.rs:1564-1575 [load_host_claim] *)
Definition load_host_claim (db : ControlDb) (host : string) : answer (option StoredHostClaim) :=
  match public_hosts db !! host with
  | Some h => Some <$> host_claim_from_row h
  | None => Ok None
  end.

(** ** Operations *)
Section operations.
(** What [DeviceIdentity::validate] checks of the keys (Base64 and Ed25519), and [Url::parse] with the parts
    [normalize_api_base] reads: scheme, user name, password, query, fragment, path, host, and the URL without its path. *)
Variable check_keys : DeviceIdentity → answer ().
Record Url := mk_url {
  u_scheme : string; u_username : string; u_password : option string; u_query : option string; u_fragment : option string;
  u_path : string; u_host_str : option string; u_without_path : string;
}.
Variable url_parse : string → option Url.

(** clients/router/control_store.rs:1616-1634 [normalize_api_base] *)
Definition normalize_api_base (s base_domain : string) : answer string :=
  url ← ok_or (InvalidRouterProfile "invalid API base URL") (url_parse s);
  if negb (one_of ["http"; "https"] (u_scheme url)) || negb (is_empty (u_username url)) || bool_decide (is_Some (u_password url))
     || bool_decide (is_Some (u_query url)) || bool_decide (is_Some (u_fragment url)) || negb (str_eqb (u_path url) "/")
     || negb (bool_decide (u_host_str url = Some base_domain))
  then Err (InvalidRouterProfile "API base must be an http(s) Router origin matching base_domain")
  else Ok (trim_end_char "/" (u_without_path url)).

(** *** The identity of the device *)
(** clients/router/control_store.rs:152-183 [validate] *)
Definition identity_validate (i : DeviceIdentity) : answer () :=
  _ ← fail_if (negb (str_eqb (di_protocol_epoch i) PROTOCOL_EPOCH)) (ProtocolEpochMismatch (di_protocol_epoch i) PROTOCOL_EPOCH);
  _ ← check_keys i;
  _ ← lift_namespace (subdomain_parse (di_client_subdomain i));
  Ok ().
(** clients/router/control_store.rs:1373-1403 [load_device_identity] *)
Definition load_device_identity (db : ControlDb) : answer (option DeviceIdentity) :=
  match device_identity db with
  | None => Ok None
  | Some i =>
      d ← lift_namespace (subdomain_parse (di_client_subdomain i));
      let i := mk_identity (di_protocol_epoch i) d (di_public_key i) (di_private_key i) (di_created_at_ms i) in
      _ ← identity_validate i;
      Ok (Some i)
  end.
(** clients/router/control_store.rs:306-340 [load_or_create_device_identity]; the generated keys are an argument *)
Definition load_or_create_device_identity (keys : string * string) (client_subdomain : string) (now_ms : Z) (db : ControlDb)
    : answer (DeviceIdentity * ControlDb) :=
  _ ← validate_timestamp now_ms;
  _ ← lift_namespace (subdomain_parse client_subdomain);
  stored ← load_device_identity db;
  match stored with
  | Some i =>
      if str_eqb (di_client_subdomain i) client_subdomain then Ok (i, db) else Err (ClientSubdomainMismatch (di_client_subdomain i))
  | None =>
      d ← lift_namespace (subdomain_parse client_subdomain);
      let i := mk_identity PROTOCOL_EPOCH d keys.1 keys.2 now_ms in
      Ok (i, db <| device_identity := Some i |>)
  end.

(** *** Routers *)
(** clients/router/control_store.rs:342-392 [insert_router_profile] *)
Definition insert_router_profile (p : NewRouterProfile) (now_ms : Z) (db : ControlDb) : answer (RouterProfile * ControlDb) :=
  _ ← validate_timestamp now_ms;
  router_id ← validate_router_id (np_router_id p);
  api_base ← normalize_api_base (np_api_base p) (np_base_domain p);
  _ ← fail_if (router_profile_exists db router_id) (RouterAlreadyExists router_id);
  _ ← fail_if (bool_decide (router_profiles db = ∅) && negb (bool_decide (np_role p = Primary))) FirstRouterMustBePrimary;
  _ ← match np_role p, primary_router_id db with Primary, Some primary => Err (PrimaryRouterExists primary) | _, _ => Ok () end;
  db ← put_profile (mk_profile PROTOCOL_EPOCH router_id api_base (np_base_domain p) None None (np_role p) now_ms now_ms) db;
  db ← (if bool_decide (np_role p = Primary) then set_primary (Some router_id) db else Ok db);
  stored ← load_router_profile db router_id;
  stored ← ok_or (RouterNotFound router_id) stored;
  Ok (stored, db).
(** clients/router/control_store.rs:394-398 [router_profile] *)
Definition router_profile (router_id : string) (db : ControlDb) : answer (option RouterProfile) :=
  router_id ← validate_router_id router_id;
  load_router_profile db router_id.
(** clients/router/control_store.rs:413-452 [set_router_installation] *)
Definition set_router_installation (router_id installation_id control_secret : string) (now_ms : Z) (db : ControlDb)
    : answer (RouterProfile * ControlDb) :=
  router_id ← validate_router_id router_id;
  installation_id ← validate_opaque_id "installation id" installation_id 255;
  control_secret ← validate_secret control_secret;
  _ ← validate_timestamp now_ms;
  p ← ok_or (RouterNotFound router_id) (router_profiles db !! router_id);
  _ ← fail_if (some_row (λ id q, bool_decide (rp_installation_id q = Some installation_id) && negb (str_eqb id router_id))
                 (router_profiles db)) (InstallationConflict installation_id);
  db ← put_profile (p <| rp_installation_id := Some installation_id |> <| rp_control_secret := Some control_secret |>
                      <| rp_updated_at_ms := now_ms |>) db;
  stored ← load_router_profile db router_id;
  stored ← ok_or (RouterNotFound router_id) stored;
  Ok (stored, db).
(** clients/router/control_store.rs:454-469 [primary_state] *)
Definition primary_state (db : ControlDb) : PrimaryRouterState := mk_primary (primary_router_id db) (controller_epoch db).
(** clients/router/control_store.rs:481-486 [set_primary_router]: the primary Router becomes auxiliary *)
Definition demote_primary (now_ms : Z) (db : ControlDb) : answer ControlDb :=
  _ ← fail_if (some_row (λ _ p, bool_decide (rp_role p = Primary) && (now_ms <? rp_created_at_ms p)) (router_profiles db)) CHECK_FAILED;
  Ok (db <| router_profiles ::= fmap (λ p, if bool_decide (rp_role p = Primary)
       then p <| rp_role := Auxiliary |> <| rp_updated_at_ms := now_ms |> else p) |>).
(** clients/router/control_store.rs:471-514 [set_primary_router] *)
Definition set_primary_router (router_id : string) (now_ms : Z) (db : ControlDb) : answer (PrimaryRouterState * ControlDb) :=
  router_id ← validate_router_id router_id;
  _ ← validate_timestamp now_ms;
  _ ← fail_if (negb (router_profile_exists db router_id)) (RouterNotFound router_id);
  db ← (if bool_decide (primary_router_id db = Some router_id) then Ok db else
         db ← demote_primary now_ms db;
         p ← ok_or (RouterNotFound router_id) (router_profiles db !! router_id);
         db ← put_profile (p <| rp_role := Primary |> <| rp_updated_at_ms := now_ms |>) db;
         set_primary (Some router_id) db);
  Ok (primary_state db, db).
(** [DELETE FROM router_profiles WHERE router_id = ?1], with the cascades of the schema *)
Definition delete_router (router_id : string) (db : ControlDb) : ControlDb :=
  db <| router_profiles ::= delete router_id |>
     <| primary_router_id ::= λ p, if bool_decide (p = Some router_id) then None else p |>
     <| control_outbox ::= filter (λ e, om_router_id e.2 ≠ router_id) |>
     <| sync_cursors ::= filter (λ e, sc_router_id e.2 ≠ router_id) |>
     <| public_hosts ::= filter (λ e, hc_router_id e.2 ≠ router_id) |>.
(** clients/router/control_store.rs:516-543 [remove_router_profile] *)
Definition remove_router_profile (router_id : string) (db : ControlDb) : answer ControlDb :=
  router_id ← validate_router_id router_id;
  p ← load_router_profile db router_id;
  p ← ok_or (RouterNotFound router_id) p;
  db ← (if bool_decide (rp_role p = Primary) then
          _ ← fail_if (1 <? Z.of_nat (size (router_profiles db))) CannotRemovePrimary;
          set_primary None db
        else Ok db);
  Ok (delete_router router_id db).
End operations.

(** *** The outbox *)
(** clients/router/control_store.rs:556-559 [EnqueueResult] *)
Record EnqueueResult := mk_enqueued { eq_message_id : string; eq_inserted : bool }.
(** clients/router/control_store.rs:601-658 [enqueue_outbox]; the random message id is an argument *)
Definition enqueue_outbox (message_id : string) (m : NewOutboxMessage) (now_ms : Z) (db : ControlDb)
    : answer (EnqueueResult * ControlDb) :=
  router_id ← validate_router_id (nm_router_id m);
  operation ← validate_operation (nm_operation m);
  dedupe_key ← match nm_dedupe_key m with
               | Some key => Some <$> validate_opaque_id "outbox dedupe key" key 255
               | None => Ok None end;
  _ ← validate_timestamp (nm_available_at_ms m);
  _ ← validate_timestamp now_ms;
  _ ← fail_if (negb (router_profile_exists db router_id)) (RouterNotFound router_id);
  let same (e : string * OutboxMessage) := str_eqb (om_router_id e.2) router_id && same_some (om_dedupe_key e.2) dedupe_key in
  match List.find same (map_to_list (control_outbox db)) with
  | Some (id, _) => Ok (mk_enqueued id false, db)
  | None =>
      _ ← fail_if (bool_decide (is_Some (control_outbox db !! message_id))) UNIQUE_FAILED;
      db ← put_message (mk_message message_id PROTOCOL_EPOCH router_id operation (nm_payload m) dedupe_key MPending 0
             (nm_available_at_ms m) None None None now_ms now_ms) db;
      Ok (mk_enqueued message_id true, db)
  end.
(** clients/router/control_store.rs:26-26 [MAX_OUTBOX_CLAIM] *)
Definition MAX_OUTBOX_CLAIM : Z := 1000.
(** clients/router/control_store.rs:690-694 [claim_due_outbox]: the rows that are due *)
Definition due (router_id : string) (now_ms : Z) (m : OutboxMessage) : bool :=
  str_eqb (om_router_id m) router_id && negb (bool_decide (om_status m = MDeadLetter)) && (om_next_attempt_at_ms m <=? now_ms)
  && (bool_decide (om_status m = MPending)
      || bool_decide (om_status m = MInFlight) && from_option (λ until, until <=? now_ms) false (om_lease_until_ms m)).
(** clients/router/control_store.rs:695-695 [claim_due_outbox]: their order *)
Definition due_le (m n : OutboxMessage) : Prop :=
  om_next_attempt_at_ms m < om_next_attempt_at_ms n ∨
  om_next_attempt_at_ms m = om_next_attempt_at_ms n ∧
    (om_created_at_ms m < om_created_at_ms n ∨
     om_created_at_ms m = om_created_at_ms n ∧ String.le (om_message_id m) (om_message_id n)).
#[global] Instance due_le_dec : RelDecision due_le.
Proof. intros m n. unfold due_le. apply _. Defined.
Definition due_messages (router_id : string) (now_ms : Z) (db : ControlDb) : list OutboxMessage :=
  merge_sort due_le (List.filter (due router_id now_ms) (map_to_list (control_outbox db)).*2).
(** clients/router/control_store.rs:705-714 [claim_due_outbox]: the update of one row *)
Definition lease_message (worker_id : string) (lease_until_ms now_ms : Z) (db : ControlDb) (message_id : string) : answer ControlDb :=
  match control_outbox db !! message_id with
  | None => Ok db
  | Some m =>
      attempts ← ok_or (Sqlite "cannot store REAL value in INTEGER column") (checked_i64 (om_attempt_count m + 1));
      put_message (m <| om_status := MInFlight |> <| om_attempt_count := attempts |> <| om_lease_owner := Some worker_id |>
                     <| om_lease_until_ms := Some lease_until_ms |> <| om_updated_at_ms := now_ms |>) db
  end.
(** clients/router/control_store.rs:660-725 [claim_due_outbox] *)
Definition claim_due_outbox (router_id worker_id : string) (now_ms lease_duration_ms limit : Z) (db : ControlDb)
    : answer (list OutboxMessage * ControlDb) :=
  router_id ← validate_router_id router_id;
  worker_id ← validate_opaque_id "outbox worker id" worker_id 255;
  _ ← validate_timestamp now_ms;
  _ ← fail_if (lease_duration_ms <=? 0) (InvalidOutbox "lease duration must be positive");
  let limit := Z.min limit MAX_OUTBOX_CLAIM in
  if limit =? 0 then Ok ([], db) else
  lease_until_ms ← ok_or (InvalidOutbox "lease deadline overflow") (checked_i64 (now_ms + lease_duration_ms));
  _ ← fail_if (negb (router_profile_exists db router_id)) (RouterNotFound router_id);
  let message_ids := om_message_id <$> take (Z.to_nat limit) (due_messages router_id now_ms db) in
  db ← try_fold (lease_message worker_id lease_until_ms now_ms) db message_ids;
  messages ← try_fold (λ messages id,
    m ← ok_or (OutboxNotFound id) (load_outbox_message db id);
    Ok (messages ++ [m])) [] message_ids;
  Ok (messages, db).
(** clients/router/control_store.rs:1522-1537 [classify_outbox_lease_failure] *)
Definition classify_outbox_lease_failure {A} (db : ControlDb) (message_id : string) : answer A :=
  Err (if bool_decide (is_Some (control_outbox db !! message_id)) then OutboxLeaseMismatch message_id else OutboxNotFound message_id).
(** [WHERE message_id = ?1 AND status = 'in_flight' AND lease_owner = ?2] *)
Definition leased_to (worker_id : string) (m : OutboxMessage) : bool :=
  bool_decide (om_status m = MInFlight) && bool_decide (om_lease_owner m = Some worker_id).
Definition leased_message (message_id worker_id : string) (db : ControlDb) : option OutboxMessage :=
  control_outbox db !! message_id ≫= λ m, if leased_to worker_id m then Some m else None.
(** clients/router/control_store.rs:727-740 [acknowledge_outbox] *)
Definition acknowledge_outbox (message_id worker_id : string) (db : ControlDb) : answer ControlDb :=
  message_id ← validate_opaque_id "outbox message id" message_id 255;
  worker_id ← validate_opaque_id "outbox worker id" worker_id 255;
  match leased_message message_id worker_id db with
  | Some _ => Ok (db <| control_outbox ::= delete message_id |>)
  | None => classify_outbox_lease_failure db message_id
  end.
(** clients/router/control_store.rs:742-768 [reschedule_outbox] *)
Definition reschedule_outbox (message_id worker_id : string) (next_attempt_at_ms : Z) (error : string) (now_ms : Z) (db : ControlDb)
    : answer ControlDb :=
  message_id ← validate_opaque_id "outbox message id" message_id 255;
  worker_id ← validate_opaque_id "outbox worker id" worker_id 255;
  error ← validate_error_message error;
  _ ← validate_timestamp next_attempt_at_ms;
  _ ← validate_timestamp now_ms;
  match leased_message message_id worker_id db with
  | Some m =>
      put_message (m <| om_status := MPending |> <| om_next_attempt_at_ms := next_attempt_at_ms |> <| om_lease_owner := None |>
                     <| om_lease_until_ms := None |> <| om_last_error := Some error |> <| om_updated_at_ms := now_ms |>) db
  | None => classify_outbox_lease_failure db message_id
  end.
(** clients/router/control_store.rs:770-793 [dead_letter_outbox] *)
Definition dead_letter_outbox (message_id worker_id error : string) (now_ms : Z) (db : ControlDb) : answer ControlDb :=
  message_id ← validate_opaque_id "outbox message id" message_id 255;
  worker_id ← validate_opaque_id "outbox worker id" worker_id 255;
  error ← validate_error_message error;
  _ ← validate_timestamp now_ms;
  match leased_message message_id worker_id db with
  | Some m =>
      put_message (m <| om_status := MDeadLetter |> <| om_lease_owner := None |> <| om_lease_until_ms := None |>
                     <| om_last_error := Some error |> <| om_updated_at_ms := now_ms |>) db
  | None => classify_outbox_lease_failure db message_id
  end.
(** clients/router/control_store.rs:795-799 [outbox_message] *)
Definition outbox_message (message_id : string) (db : ControlDb) : answer (option OutboxMessage) :=
  message_id ← validate_opaque_id "outbox message id" message_id 255;
  Ok (load_outbox_message db message_id).

(** *** Cursors *)
(** clients/router/control_store.rs:814-819 [sync_cursor] *)
Definition sync_cursor (router_id stream : string) (db : ControlDb) : answer (option SyncCursor) :=
  router_id ← validate_router_id router_id;
  stream ← validate_operation stream;
  Ok (load_sync_cursor db router_id stream).
(** clients/router/control_store.rs:821-886 [compare_and_set_sync_cursor] *)
Definition compare_and_set_sync_cursor (router_id stream : string) (expected_sequence : option Z) (next_sequence : Z)
    (position : string) (now_ms : Z) (db : ControlDb) : answer (SyncCursor * ControlDb) :=
  router_id ← validate_router_id router_id;
  stream ← validate_operation stream;
  position ← validate_opaque_id "sync cursor position" position 2048;
  _ ← fail_if ((next_sequence <? 0) || from_option (λ v, v <? 0) false expected_sequence)
        (InvalidCursor "cursor sequences must be non-negative");
  _ ← validate_timestamp now_ms;
  _ ← fail_if (negb (router_profile_exists db router_id)) (RouterNotFound router_id);
  let current := load_sync_cursor db router_id stream in
  let current_sequence := sc_sequence <$> current in
  _ ← fail_if (negb (bool_decide (current_sequence = expected_sequence))) (CursorConflict expected_sequence current_sequence);
  db ← match current with
       | Some c =>
           _ ← fail_if (next_sequence <=? sc_sequence c) (InvalidCursor "next cursor sequence must advance");
           put_cursor (c <| sc_position := position |> <| sc_sequence := next_sequence |> <| sc_updated_at_ms := now_ms |>) db
       | None => put_cursor (mk_cursor PROTOCOL_EPOCH router_id stream position next_sequence now_ms) db
       end;
  cursor ← ok_or (DatabaseInvariant "cursor disappeared during transaction") (load_sync_cursor db router_id stream);
  Ok (cursor, db).

(** *** Public hosts *)
Section hosts.
Variable check_keys : DeviceIdentity → answer ().

(** clients/router/control_store.rs:903-970 [claim_public_host] *)
Definition claim_public_host (router_id : string) (claim : PublicHostClaim) (now_ms : Z) (db : ControlDb) : answer (bool * ControlDb) :=
  router_id ← validate_router_id router_id;
  _ ← validate_timestamp now_ms;
  p ← load_router_profile db router_id;
  p ← ok_or (RouterNotFound router_id) p;
  _ ← lift_namespace (validate_for (rp_base_domain p) claim);
  identity ← load_device_identity check_keys db;
  identity ← ok_or DeviceIdentityMissing identity;
  _ ← fail_if (negb (bool_decide (pc_client_subdomain claim = Some (di_client_subdomain identity)))) HostClientSubdomainMismatch;
  existing ← load_host_claim db (pc_host claim);
  match existing with
  | Some e =>
      if str_eqb (hc_router_id e) router_id && bool_decide (hc_kind e = pc_kind claim) && str_eqb (hc_subject_id e) (pc_subject_id claim)
         && bool_decide (hc_client_subdomain e = pc_client_subdomain claim) && bool_decide (hc_slug e = pc_slug claim)
      then Ok (false, db) else Err (StoreHostConflict (pc_host claim) (hc_kind e) (hc_subject_id e))
  | None =>
      _ ← fail_if (some_row (λ _ h, str_eqb (hc_router_id h) router_id && bool_decide (hc_kind h = pc_kind claim)
                                  && str_eqb (hc_subject_id h) (pc_subject_id claim)) (public_hosts db))
            (SubjectAlreadyClaimed router_id (pc_kind claim) (pc_subject_id claim));
      db ← insert_host (mk_stored PROTOCOL_EPOCH router_id (pc_host claim) (pc_kind claim) (pc_subject_id claim)
             (pc_client_subdomain claim) (pc_slug claim) now_ms) db;
      Ok (true, db)
  end.
(** clients/router/control_store.rs:972-976 [resolve_public_host] *)
Definition resolve_public_host (host : string) (db : ControlDb) : answer (option StoredHostClaim) :=
  host ← lift_namespace (public_host_parse host);
  load_host_claim db host.
(** clients/router/control_store.rs:978-994 [release_public_host] *)
Definition release_public_host (router_id host subject_id : string) (db : ControlDb) : answer (bool * ControlDb) :=
  router_id ← validate_router_id router_id;
  host ← lift_namespace (public_host_parse host);
  subject_id ← validate_opaque_id "host subject id" subject_id 255;
  match public_hosts db !! host with
  | Some h =>
      if str_eqb (hc_router_id h) router_id && str_eqb (hc_subject_id h) subject_id
      then Ok (true, db <| public_hosts ::= delete host |>) else Ok (false, db)
  | None => Ok (false, db)
  end.
End hosts.
