(* ===== verification/RouterControlProofs.v ===== *)
(** * The control store keeps its invariants

    Every operation of [RouterControl] keeps the tables consistent with each other, leases are exclusive, and cursors
    only advance. *)
From S2P Require Import Prelude RustStr Json RouterNamespace RouterControl.
From Stdlib Require Import ZArith Lia Ascii.

Local Open Scope Z_scope.

(** ** Rows *)
Lemma some_row_false {K A} `{Countable K} (p : K → A → bool) (m : gmap K A) :
  some_row p m = false ↔ ∀ k a, m !! k = Some a → p k a = false.
Proof.
  unfold some_row. rewrite <-not_true_iff_false, existsb_exists. setoid_rewrite <-list_elem_of_In. split.
  - intros Hn k a Hm. apply not_true_iff_false. intros Hp. apply Hn. exists (k, a). by rewrite elem_of_map_to_list.
  - intros Hf ([k a] & Hm%elem_of_map_to_list & Hp). cbn in Hp. by rewrite (Hf k a Hm) in Hp.
Qed.
(** No two rows of a table clash. *)
Definition apart_rows {A} (clash : A → A → bool) (m : gmap string A) : Prop :=
  ∀ i j a b, m !! i = Some a → m !! j = Some b → i ≠ j → clash a b = false.
Lemma apart_rows_insert {A} (clash : A → A → bool) m k a : (∀ a b, clash a b = clash b a) → apart_rows clash m →
  (∀ j b, m !! j = Some b → j ≠ k → clash a b = false) → apart_rows clash (<[k := a]> m).
Proof.
  intros Hsym Hm Ha i j x y Hi Hj Hij. apply lookup_insert_Some in Hi as [[<- <-]|[? Hi]], Hj as [[<- <-]|[? Hj]]; try done.
  - by apply (Ha j).
  - rewrite Hsym. by apply (Ha i).
  - by apply (Hm i j).
Qed.
Lemma apart_rows_subset {A} (clash : A → A → bool) (m m' : gmap string A) : m' ⊆ m → apart_rows clash m → apart_rows clash m'.
Proof. intros Hs Hm i j a b Hi Hj. apply Hm; by eapply lookup_weaken. Qed.
Lemma same_some_comm a b : same_some a b = same_some b a.
Proof. unfold same_some. apply Bool.eq_iff_eq_true. rewrite !andb_true_iff, !bool_decide_eq_true. by split; intros [? ->]. Qed.
Lemma str_eqb_comm a b : str_eqb a b = str_eqb b a.
Proof. unfold str_eqb. by apply bool_decide_ext. Qed.
Lemma profiles_clash_comm p q : profiles_clash p q = profiles_clash q p.
Proof.
  unfold profiles_clash. rewrite (str_eqb_comm (rp_api_base p)), (str_eqb_comm (rp_base_domain p)), (same_some_comm (rp_installation_id p)).
  by rewrite (andb_comm (bool_decide (rp_role p = _))).
Qed.
Lemma messages_clash_comm m n : messages_clash m n = messages_clash n m.
Proof. unfold messages_clash. by rewrite (str_eqb_comm (om_router_id m)), (same_some_comm (om_dedupe_key m)). Qed.
Lemma hosts_clash_comm h k : hosts_clash h k = hosts_clash k h.
Proof.
  unfold hosts_clash. rewrite (str_eqb_comm (hc_router_id h)), (str_eqb_comm (hc_subject_id h)). f_equal. f_equal. by apply bool_decide_ext.
Qed.

(** ** The invariant *)
Record profiles_ok (profiles : gmap string RouterProfile) : Prop := {
  po_key : ∀ id p, profiles !! id = Some p → rp_router_id p = id;
  po_domain : ∀ id p, profiles !! id = Some p → dotted_name (rp_base_domain p) = true;
  po_checked : ∀ id p, profiles !! id = Some p → profile_checked p = true;
  po_apart : apart_rows profiles_clash profiles;
}.
(** The Router the state names is the one with the role, and there is one unless there are none at all. *)
Record primary_ok (profiles : gmap string RouterProfile) (primary : option string) : Prop := {
  pr_role : ∀ id p, profiles !! id = Some p → rp_role p = Primary ↔ primary = Some id;
  pr_known : ∀ id, primary = Some id → is_Some (profiles !! id);
  pr_some : profiles ≠ ∅ → is_Some primary;
}.
Record messages_ok (profiles : gmap string RouterProfile) (messages : gmap string OutboxMessage) : Prop := {
  mo_key : ∀ id m, messages !! id = Some m → om_message_id m = id;
  mo_router : ∀ id m, messages !! id = Some m → is_Some (profiles !! om_router_id m);
  mo_checked : ∀ id m, messages !! id = Some m → message_checked m = true;
  mo_apart : apart_rows messages_clash messages;
}.
Record cursors_ok (profiles : gmap string RouterProfile) (cursors : gmap (string * string) SyncCursor) : Prop := {
  co_key : ∀ id c, cursors !! id = Some c → (sc_router_id c, sc_stream c) = id;
  co_router : ∀ id c, cursors !! id = Some c → is_Some (profiles !! sc_router_id c);
  co_sequence : ∀ id c, cursors !! id = Some c → 0 ≤ sc_sequence c;
}.
Definition claim_of (h : StoredHostClaim) : PublicHostClaim :=
  mk_claim (hc_host h) (hc_kind h) (hc_subject_id h) (hc_client_subdomain h) (hc_slug h).
(** A host is the name of its subject under the domain of its Router, for the client this device is. *)
Record hosts_ok (identity : option DeviceIdentity) (profiles : gmap string RouterProfile) (hosts : gmap string StoredHostClaim) : Prop := {
  ho_key : ∀ host h, hosts !! host = Some h → hc_host h = host;
  ho_named : ∀ host h, hosts !! host = Some h → ∃ i p, identity = Some i ∧ hc_client_subdomain h = Some (di_client_subdomain i) ∧
    profiles !! hc_router_id h = Some p ∧ validate_for (rp_base_domain p) (claim_of h) = Ok ();
  ho_checked : ∀ host h, hosts !! host = Some h → host_checked h = true;
  ho_apart : apart_rows hosts_clash hosts;
}.
Record db_ok (db : ControlDb) : Prop := {
  db_identity : ∀ i, device_identity db = Some i → validate_public_slug (di_client_subdomain i) = true ∧ di_protocol_epoch i = PROTOCOL_EPOCH;
  db_profiles : profiles_ok (router_profiles db);
  db_primary : primary_ok (router_profiles db) (primary_router_id db);
  db_messages : messages_ok (router_profiles db) (control_outbox db);
  db_cursors : cursors_ok (router_profiles db) (sync_cursors db);
  db_hosts : hosts_ok (device_identity db) (router_profiles db) (public_hosts db);
}.
Lemma empty_db_ok : db_ok empty_db.
Proof. split; try split; try done; intros ?; set_solver. Qed.

(** *** Writes *)
(** A change of the profiles that keeps every Router with its domain keeps what the other tables refer to. *)
Definition domains_kept (profiles profiles' : gmap string RouterProfile) : Prop :=
  ∀ id p, profiles !! id = Some p → ∃ p', profiles' !! id = Some p' ∧ rp_base_domain p' = rp_base_domain p.
Lemma referrers_kept db profiles' primary' : domains_kept (router_profiles db) profiles' → db_ok db →
  profiles_ok profiles' → primary_ok profiles' primary' → ∀ epoch,
  db_ok (db <| router_profiles := profiles' |> <| primary_router_id := primary' |> <| controller_epoch := epoch |>).
Proof.
  intros Hk [Hi _ _ Hm Hc Hh] Hp Hpr epoch. split; cbn; try done.
  - destruct Hm as [? Hr ? ?]. split; try done. intros id m Hm. destruct (Hr _ _ Hm) as [p [p' [? _]]%Hk]. by eexists.
  - destruct Hc as [? Hr ?]. split; try done. intros id c Hc. destruct (Hr _ _ Hc) as [p [p' [? _]]%Hk]. by eexists.
  - destruct Hh as [? Hn ? ?]. split; try done. intros host h Hh. destruct (Hn _ _ Hh) as (i & p & ? & ? & [p' [? Hd]]%Hk & ?).
    exists i, p'. by rewrite Hd.
Qed.
Lemma put_profile_Ok p db db' : put_profile p db = Ok db' → profile_checked p = true ∧
  (∀ id q, router_profiles db !! id = Some q → id ≠ rp_router_id p → profiles_clash p q = false) ∧
  db' = db <| router_profiles ::= <[rp_router_id p := p]> |>.
Proof.
  intros Hp. apply bind_Ok in Hp as (? & Hc%fail_if_Ok%negb_false_iff & Hp). apply bind_Ok in Hp as (? & Hu%fail_if_Ok & [= <-]).
  split_and!; [done| |done]. intros id q Hq Hne. rewrite some_row_false in Hu. specialize (Hu id q Hq).
  by rewrite (proj2 (str_eqb_neq _ _) Hne) in Hu.
Qed.
Lemma put_profile_rows p db db' : put_profile p db = Ok db' → profiles_ok (router_profiles db) → dotted_name (rp_base_domain p) = true →
  profiles_ok (router_profiles db').
Proof.
  intros (Hc & Hu & ->)%put_profile_Ok [Hk Hd Hch Ha] Hdot. cbn. split.
  - intros id q [[<- <-]|[_ ?]]%lookup_insert_Some; auto.
  - intros id q [[<- <-]|[_ ?]]%lookup_insert_Some; eauto.
  - intros id q [[<- <-]|[_ ?]]%lookup_insert_Some; eauto.
  - apply apart_rows_insert; [apply profiles_clash_comm|done|]. intros j q Hj Hne. by apply (Hu j).
Qed.
Lemma set_primary_Ok r db db' : set_primary r db = Ok db' → ∃ epoch,
  db' = db <| primary_router_id := r |> <| controller_epoch := epoch |> ∧ epoch = controller_epoch db + 1.
Proof.
  intros Hs. apply bind_Ok in Hs as (epoch & He%ok_or_Ok & Hs). apply bind_Ok in Hs as (? & _ & [= <-]). exists epoch.
  split; [done|]. unfold checked_i64 in He. apply checked_Some in He as [-> _]. done.
Qed.
Lemma put_message_Ok m db db' : put_message m db = Ok db' → message_checked m = true ∧ is_Some (router_profiles db !! om_router_id m) ∧
  (∀ id n, control_outbox db !! id = Some n → id ≠ om_message_id m → messages_clash m n = false) ∧
  db' = db <| control_outbox ::= <[om_message_id m := m]> |>.
Proof.
  intros Hp. apply bind_Ok in Hp as (? & Hc%fail_if_Ok%negb_false_iff & Hp). apply bind_Ok in Hp as (? & Hr%fail_if_Ok & Hp).
  apply bind_Ok in Hp as (? & Hu%fail_if_Ok & [= <-]). apply bool_decide_eq_false in Hr. split_and!; [done|by apply not_eq_None_Some| |done].
  intros id n Hn Hne. rewrite some_row_false in Hu. specialize (Hu id n Hn). by rewrite (proj2 (str_eqb_neq _ _) Hne) in Hu.
Qed.
Lemma put_message_ok m db db' : put_message m db = Ok db' → db_ok db → db_ok db'.
Proof.
  intros (Hc & Hr & Hu & ->)%put_message_Ok [Hi Hp Hpr [Hk Hmr Hch Ha] Hcs Hh]. split; cbn; try done. split.
  - intros id n [[<- <-]|[_ ?]]%lookup_insert_Some; auto.
  - intros id n [[<- <-]|[_ ?]]%lookup_insert_Some; eauto.
  - intros id n [[<- <-]|[_ ?]]%lookup_insert_Some; eauto.
  - apply apart_rows_insert; [apply messages_clash_comm|done|]. intros j n Hj Hne. by apply (Hu j).
Qed.

(** ** Steps *)
Inductive control_op : Type :=
  | CIdentity (keys : string * string) (client_subdomain : string) (now_ms : Z)
  | CInsert (p : NewRouterProfile) (now_ms : Z)
  | CInstall (router_id installation_id control_secret : string) (now_ms : Z)
  | CPrimary (router_id : string) (now_ms : Z)
  | CRemove (router_id : string)
  | CEnqueue (message_id : string) (m : NewOutboxMessage) (now_ms : Z)
  | CClaim (router_id worker_id : string) (now_ms lease_duration_ms limit : Z)
  | CAck (message_id worker_id : string)
  | CReschedule (message_id worker_id : string) (next_attempt_at_ms : Z) (error : string) (now_ms : Z)
  | CDead (message_id worker_id error : string) (now_ms : Z)
  | CCursor (router_id stream : string) (expected : option Z) (next : Z) (position : string) (now_ms : Z)
  | CHost (router_id : string) (claim : PublicHostClaim) (now_ms : Z)
  | CRelease (router_id host subject_id : string).

Section steps.
Variables (check_keys : DeviceIdentity → answer ()) (url_parse : string → option Url).

(** A failed operation is rolled back. *)
Definition committed {A} (db : ControlDb) (r : answer (A * ControlDb)) : ControlDb := match r with Ok (_, db') => db' | Err _ => db end.
Definition committed_unit (db : ControlDb) (r : answer ControlDb) : ControlDb := match r with Ok db' => db' | Err _ => db end.
Definition control_step (db : ControlDb) (op : control_op) : ControlDb :=
  match op with
  | CIdentity keys d now => committed db (load_or_create_device_identity check_keys keys d now db)
  | CInsert p now => committed db (insert_router_profile url_parse p now db)
  | CInstall r i s now => committed db (set_router_installation r i s now db)
  | CPrimary r now => committed db (set_primary_router r now db)
  | CRemove r => committed_unit db (remove_router_profile r db)
  | CEnqueue id m now => committed db (enqueue_outbox id m now db)
  | CClaim r w now d limit => committed db (claim_due_outbox r w now d limit db)
  | CAck id w => committed_unit db (acknowledge_outbox id w db)
  | CReschedule id w next error now => committed_unit db (reschedule_outbox id w next error now db)
  | CDead id w error now => committed_unit db (dead_letter_outbox id w error now db)
  | CCursor r s expected next position now => committed db (compare_and_set_sync_cursor r s expected next position now db)
  | CHost r claim now => committed db (claim_public_host check_keys r claim now db)
  | CRelease r host subject => committed db (release_public_host r host subject db)
  end.
Definition control_run : ControlDb → list control_op → ControlDb := foldl control_step.
(** The domain of a new profile is a [BaseDomain]. *)
Definition control_op_typed (op : control_op) : Prop :=
  match op with CInsert p _ => dotted_name (np_base_domain p) = true | _ => True end.

Lemma validated_opaque label s n a : validate_opaque_id label s n = Ok a → a = s.
Proof. unfold validate_opaque_id. case_match; [done|]. by intros [= <-]. Qed.
Lemma validated_router s a : validate_router_id s = Ok a → a = s.
Proof. intros Hv. apply bind_Ok in Hv as (? & ->%validated_opaque & Hv). case_match; [|done]. by injection Hv as <-. Qed.
Lemma validated_operation s a : validate_operation s = Ok a → a = s.
Proof. intros Hv. apply bind_Ok in Hv as (? & ->%validated_opaque & Hv). case_match; [|done]. by injection Hv as <-. Qed.

(** *** Routers *)
Lemma identity_ok keys d now db : db_ok db → db_ok (committed db (load_or_create_device_identity check_keys keys d now db)).
Proof.
  intros Hok. destruct (load_or_create_device_identity _ _ _ _ _) as [[i db']|] eqn:E; [|done]. cbn.
  unfold load_or_create_device_identity in E. apply bind_Ok in E as (? & _ & E). apply bind_Ok in E as (? & _ & E).
  apply bind_Ok in E as (stored & Hl & E). destruct stored as [j|].
  { case_match; [|done]. by injection E as <- <-. }
  apply bind_Ok in E as (s & Hs & E). injection E as <- <-.
  assert (device_identity db = None) as Hnone.
  { unfold load_device_identity in Hl. destruct (device_identity db); [|done].
    apply bind_Ok in Hl as (? & _ & Hl). by apply bind_Ok in Hl as (? & _ & ?). }
  destruct Hok as [_ ? ? ? ? Hh]. split; cbn; try done.
  - intros i [= <-]. cbn. split; [|done]. destruct (subdomain_parse d) eqn:Ed; [|done]. injection Hs as <-. by eapply subdomain_parse_Ok.
  - destruct Hh as [? Hn ? ?]. split; try done. intros host h Hh. destruct (Hn host h Hh) as (i & p & Hi & _). congruence.
Qed.
Lemma profile_loaded db router_id p : db_ok db → load_router_profile db router_id = Ok (Some p) →
  router_profiles db !! router_id = Some p.
Proof.
  intros [_ Hp _ _ _ _]. unfold load_router_profile, router_profile_from_row. destruct (router_profiles db !! router_id) as [q|] eqn:Eq; [|done].
  rewrite base_domain_parse_id by by eapply po_domain. cbn. intros [= <-]. by destruct q.
Qed.
Lemma no_primary_row db id p : db_ok db → primary_router_id db = None → router_profiles db !! id = Some p → False.
Proof.
  intros [_ _ [_ _ Hs] _ _ _] Hn Hp. destruct (Hs ltac:(by intros E; rewrite E, lookup_empty in Hp)) as [? ?]. congruence.
Qed.
Lemma domains_kept_insert profiles id p : (∀ q, profiles !! id = Some q → rp_base_domain q = rp_base_domain p) →
  domains_kept profiles (<[id := p]> profiles).
Proof.
  intros Hd i q Hq. destruct (decide (i = id)) as [->|Hne].
  - exists p. rewrite lookup_insert_eq. split; [done|]. by rewrite (Hd q).
  - exists q. by rewrite lookup_insert_ne.
Qed.
Lemma insert_ok p now db : dotted_name (np_base_domain p) = true → db_ok db →
  db_ok (committed db (insert_router_profile url_parse p now db)).
Proof.
  intros Hdot Hok. destruct (insert_router_profile _ _ _ _) as [[r db']|] eqn:E; [|done]. cbn. unfold insert_router_profile in E.
  apply bind_Ok in E as (? & _ & E). apply bind_Ok in E as (id & _ & E). apply bind_Ok in E as (base & _ & E).
  apply bind_Ok in E as (? & Hnew%fail_if_Ok%bool_decide_eq_false & E). apply bind_Ok in E as (? & Hfirst%fail_if_Ok & E).
  apply bind_Ok in E as (? & Hprim & E). apply bind_Ok in E as (db1 & Hput & E). apply bind_Ok in E as (db2 & Hset & E).
  apply bind_Ok in E as (? & _ & E). apply bind_Ok in E as (? & _ & [= _ <-]).
  set (row := mk_profile _ _ _ _ _ _ _ _ _) in Hput. apply eq_None_not_Some in Hnew.
  assert (domains_kept (router_profiles db) (<[id := row]> (router_profiles db))) as Hk by (apply domains_kept_insert; congruence).
  pose proof (put_profile_rows _ _ _ Hput (db_profiles _ Hok) Hdot) as Hrows. apply put_profile_Ok in Hput as (_ & _ & ->).
  cbn in Hrows. change (rp_router_id row) with id in *.
  destruct (np_role p) eqn:Hrole; cbn in Hset.
  - destruct (primary_router_id db) eqn:Hpid; [done|]. apply set_primary_Ok in Hset as (epoch & -> & _).
    refine (referrers_kept db _ _ Hk Hok Hrows _ epoch). split.
    + intros i q [[<- <-]|[Hne Hq]]%lookup_insert_Some; [done|]. exfalso. by eapply no_primary_row.
    + intros i [= <-]. rewrite lookup_insert_eq. by eexists.
    + by eexists.
  - injection Hset as <-. destruct (db_primary _ Hok) as [Hr Hkn Hs].
    refine (referrers_kept db _ (primary_router_id db) Hk Hok Hrows _ (controller_epoch db)). split.
    + intros i q [[<- <-]|[Hne Hq]]%lookup_insert_Some; [|by apply Hr]. split; [done|].
      intros Hi. destruct (Hkn _ Hi). congruence.
    + intros i Hi. apply lookup_insert_is_Some'. right. by apply Hkn.
    + intros _. apply Hs. intros He. by rewrite He, bool_decide_eq_true_2 in Hfirst.
Qed.
Lemma install_ok r i sec now db : db_ok db → db_ok (committed db (set_router_installation r i sec now db)).
Proof.
  intros Hok. destruct (set_router_installation _ _ _ _ _) as [[x db']|] eqn:E; [|done]. cbn. unfold set_router_installation in E.
  apply bind_Ok in E as (id & _ & E). apply bind_Ok in E as (iid & _ & E). apply bind_Ok in E as (secret & _ & E).
  apply bind_Ok in E as (? & _ & E). apply bind_Ok in E as (p & Hp%ok_or_Ok & E). apply bind_Ok in E as (? & _ & E).
  apply bind_Ok in E as (db1 & Hput & E). apply bind_Ok in E as (? & _ & E). apply bind_Ok in E as (? & _ & [= _ <-]).
  set (row := p <| rp_installation_id := _ |> <| rp_control_secret := _ |> <| rp_updated_at_ms := _ |>) in Hput.
  assert (rp_router_id row = id) as Hid by (change (rp_router_id p = id); by eapply po_key, Hp; apply Hok).
  assert (domains_kept (router_profiles db) (<[id := row]> (router_profiles db))) as Hk by (apply domains_kept_insert; intros q Hq; rewrite Hp in Hq; by injection Hq as <-).
  pose proof (put_profile_rows _ _ _ Hput (db_profiles _ Hok) (po_domain _ (db_profiles _ Hok) _ _ Hp)) as Hrows.
  apply put_profile_Ok in Hput as (_ & _ & ->). rewrite Hid in *. cbn in Hrows.
  destruct (db_primary _ Hok) as [Hr Hkn Hs]. refine (referrers_kept db _ (primary_router_id db) Hk Hok Hrows _ (controller_epoch db)). split.
  - intros j q [[<- <-]|[Hne Hq]]%lookup_insert_Some; [by apply (Hr id p)|by apply Hr].
  - intros j Hj. apply lookup_insert_is_Some'. right. by apply Hkn.
  - intros _. apply Hs. intros He. by rewrite He in Hp.
Qed.
(** The profiles after the demotion of the primary Router. *)
Definition demoted_row (now : Z) (p : RouterProfile) : RouterProfile :=
  if bool_decide (rp_role p = Primary) then p <| rp_role := Auxiliary |> <| rp_updated_at_ms := now |> else p.
Lemma demoted_role now p : rp_role (demoted_row now p) = Auxiliary.
Proof. unfold demoted_row. case_bool_decide; [done|]. by destruct (rp_role p). Qed.
Lemma demote_rows now db db' : demote_primary now db = Ok db' → profiles_ok (router_profiles db) →
  db' = db <| router_profiles ::= fmap (demoted_row now) |> ∧ profiles_ok (demoted_row now <$> router_profiles db) ∧
  ∀ id p, (demoted_row now <$> router_profiles db) !! id = Some p → rp_role p = Auxiliary.
Proof.
  intros Hd [Hk Hdot Hch Ha]. apply bind_Ok in Hd as (? & Hc%fail_if_Ok & [= <-]). rewrite some_row_false in Hc.
  split; [done|]. split; [split|].
  - intros id q. rewrite lookup_fmap. intros (p & Hp & ->)%fmap_Some. rewrite <-(Hk id p Hp). unfold demoted_row. by case_match.
  - intros id q. rewrite lookup_fmap. intros (p & Hp & ->)%fmap_Some. rewrite <-(Hdot id p Hp). unfold demoted_row. by case_match.
  - intros id q. rewrite lookup_fmap. intros (p & Hp & ->)%fmap_Some. specialize (Hc id p Hp). specialize (Hch id p Hp).
    unfold demoted_row, profile_checked in *. case_match; [|done]. cbn in *. apply Z.ltb_ge in Hc.
    rewrite !andb_true_iff, !Z.leb_le in *. tauto.
  - intros i j a b. rewrite !lookup_fmap. intros (p & Hp & ->)%fmap_Some (q & Hq & ->)%fmap_Some Hij.
    specialize (Ha i j p q Hp Hq Hij). unfold profiles_clash in *. apply orb_false_iff in Ha as [Ha _]. rewrite demoted_role.
    apply orb_false_iff. split; [|done]. unfold demoted_row. by repeat case_match.
  - intros id q. rewrite lookup_fmap. intros (p & Hp & ->)%fmap_Some. apply demoted_role.
Qed.
Lemma primary_step_ok r now db : db_ok db → db_ok (committed db (set_primary_router r now db)).
Proof.
  intros Hok. destruct (set_primary_router _ _ _) as [[x db']|] eqn:E; [|done]. cbn. unfold set_primary_router in E.
  apply bind_Ok in E as (id & _ & E). apply bind_Ok in E as (? & _ & E). apply bind_Ok in E as (? & _ & E).
  apply bind_Ok in E as (db4 & E & [= _ <-]). case_bool_decide; [by injection E as <-|].
  apply bind_Ok in E as (db1 & Hdem & E). apply bind_Ok in E as (p & Hp%ok_or_Ok & E). apply bind_Ok in E as (db2 & Hput & E).
  destruct (demote_rows _ _ _ Hdem (db_profiles _ Hok)) as (-> & Hdok & Haux). cbn in Hp.
  set (row := p <| rp_role := Primary |> <| rp_updated_at_ms := now |>) in Hput.
  assert (rp_router_id row = id) as Hid by (change (rp_router_id p = id); by eapply po_key).
  pose proof (put_profile_rows _ _ _ Hput Hdok (po_domain _ Hdok _ _ Hp)) as Hrows.
  apply put_profile_Ok in Hput as (_ & _ & ->). rewrite Hid in *. cbn in Hrows. apply set_primary_Ok in E as (epoch & -> & _).
  refine (referrers_kept db (<[id := row]> (demoted_row now <$> router_profiles db)) (Some id) _ Hok Hrows _ epoch).
  - intros j q Hq. destruct (decide (j = id)) as [->|Hne].
    + exists row. rewrite lookup_insert_eq. split; [done|]. rewrite lookup_fmap, Hq in Hp. injection Hp as <-.
      change (rp_base_domain (demoted_row now q) = rp_base_domain q). unfold demoted_row. by case_match.
    + exists (demoted_row now q). rewrite lookup_insert_ne, lookup_fmap, Hq by done. split; [done|]. unfold demoted_row. by case_match.
  - split.
    + intros j q [[<- <-]|[Hne Hq]]%lookup_insert_Some; [done|]. rewrite (Haux j q Hq). split; [done|congruence].
    + intros j [= <-]. rewrite lookup_insert_eq. by eexists.
    + by eexists.
Qed.
Lemma delete_rows db r primary epoch : db_ok db → primary_ok (delete r (router_profiles db)) primary →
  db_ok (delete_router r db <| primary_router_id := primary |> <| controller_epoch := epoch |>).
Proof.
  intros [Hi [Hk Hdot Hch Ha] _ [Hmk Hmr Hmc Hma] [Hck Hcr Hcs] [Hhk Hhn Hhc Hha]] Hp.
  assert (∀ id, is_Some (router_profiles db !! id) → id ≠ r → is_Some (delete r (router_profiles db) !! id)) as Hkeep.
  { intros id ? Hne. by rewrite lookup_delete_ne. }
  split; cbn; try done.
  - split; [..|by eapply apart_rows_subset, Ha; apply delete_subseteq]; intros id p [_ Hq]%lookup_delete_Some; eauto.
  - split.
    + intros id m [Hm _]%map_lookup_filter_Some. auto.
    + intros id m [Hm Hne]%map_lookup_filter_Some. apply Hkeep; eauto.
    + intros id m [Hm _]%map_lookup_filter_Some. eauto.
    + eapply apart_rows_subset, Hma. apply map_filter_subseteq.
  - split.
    + intros id c [Hc _]%map_lookup_filter_Some. auto.
    + intros id c [Hc Hne]%map_lookup_filter_Some. apply Hkeep; eauto.
    + intros id c [Hc _]%map_lookup_filter_Some. eauto.
  - split.
    + intros host h [Hh _]%map_lookup_filter_Some. auto.
    + intros host h [Hh Hne]%map_lookup_filter_Some. destruct (Hhn host h Hh) as (i & p & ? & ? & ? & ?). exists i, p.
      by rewrite lookup_delete_ne.
    + intros host h [Hh _]%map_lookup_filter_Some. eauto.
    + eapply apart_rows_subset, Hha. apply map_filter_subseteq.
Qed.
Lemma remove_router_ok r db : db_ok db → db_ok (committed_unit db (remove_router_profile r db)).
Proof.
  intros Hok. destruct (remove_router_profile r db) as [db'|] eqn:E; [|done]. cbn. unfold remove_router_profile in E.
  apply bind_Ok in E as (id & _ & E). apply bind_Ok in E as (o & Hl & E). apply bind_Ok in E as (p & Hp%ok_or_Ok & E). subst o.
  apply profile_loaded in Hl; [|done]. apply bind_Ok in E as (db1 & Hset & [= <-]). pose proof (db_primary _ Hok) as [Hr Hkn Hs].
  case_bool_decide as Hrole.
  - apply bind_Ok in Hset as (? & Hsize%fail_if_Ok & Hset). apply Z.ltb_ge in Hsize. apply set_primary_Ok in Hset as (epoch & -> & _).
    refine (delete_rows db id None epoch Hok _). assert (delete id (router_profiles db) = ∅) as ->.
    { apply map_size_empty_iff. rewrite map_size_delete_Some by by eexists. lia. }
    split; [intros i q Hq; by rewrite lookup_empty in Hq|done|done].
  - injection Hset as <-. assert (primary_router_id db ≠ Some id) as Hne by (intros ?; by apply Hrole, (Hr id)).
    replace (delete_router id db) with (delete_router id db <| primary_router_id := primary_router_id db |> <| controller_epoch := controller_epoch db |>)
      by (unfold delete_router; cbn; by rewrite bool_decide_eq_false_2).
    apply delete_rows; [done|]. split.
    + intros i q [_ Hq]%lookup_delete_Some. by apply Hr.
    + intros i Hi. destruct (Hkn i Hi) as [q Hq]. exists q. rewrite lookup_delete_ne; [done|congruence].
    + intros _. apply Hs. intros He. by rewrite He in Hl.
Qed.

(** *** The outbox *)
Lemma enqueue_ok id m now db : db_ok db → db_ok (committed db (enqueue_outbox id m now db)).
Proof.
  intros Hok. destruct (enqueue_outbox _ _ _ _) as [[x db']|] eqn:E; [|done]. cbn. unfold enqueue_outbox in E.
  apply bind_Ok in E as (? & _ & E). apply bind_Ok in E as (? & _ & E). apply bind_Ok in E as (? & _ & E).
  apply bind_Ok in E as (? & _ & E). apply bind_Ok in E as (? & _ & E). apply bind_Ok in E as (? & _ & E).
  destruct (List.find _ _) as [[? ?]|]; [by injection E as <- <-|].
  apply bind_Ok in E as (? & _ & E). apply bind_Ok in E as (db1 & Hput & [= _ <-]). by eapply put_message_ok.
Qed.
Lemma lease_ok w until now db id db' : lease_message w until now db id = Ok db' → db_ok db → db_ok db'.
Proof.
  unfold lease_message. destruct (control_outbox db !! id); [|by intros [= <-]].
  intros E. apply bind_Ok in E as (n & _ & E). by eapply put_message_ok.
Qed.
Lemma leases_ok w until now ids db db' : try_fold (lease_message w until now) db ids = Ok db' → db_ok db → db_ok db'.
Proof.
  revert db. induction ids as [|id ids IH]; intros db Hl Hok; [by injection Hl as <-|].
  apply bind_Ok in Hl as (db1 & Hl1 & Hl). eapply IH; [exact Hl|]. by eapply lease_ok.
Qed.
(** What a successful claim did. *)
Lemma claim_Ok r w now d limit db ms db' : claim_due_outbox r w now d limit db = Ok (ms, db') →
  ms = [] ∧ db' = db ∨
  0 < d ∧ I64_MIN ≤ now + d ≤ I64_MAX ∧
  try_fold (lease_message w (now + d) now) db (om_message_id <$> take (Z.to_nat (Z.min limit MAX_OUTBOX_CLAIM)) (due_messages r now db)) = Ok db' ∧
  try_fold (λ messages id, m ← ok_or (OutboxNotFound id) (load_outbox_message db' id); Ok (messages ++ [m])) []
    (om_message_id <$> take (Z.to_nat (Z.min limit MAX_OUTBOX_CLAIM)) (due_messages r now db)) = Ok ms.
Proof.
  intros E. unfold claim_due_outbox in E. apply bind_Ok in E as (r' & ->%validated_router & E).
  apply bind_Ok in E as (w' & ->%validated_opaque & E). apply bind_Ok in E as (? & _ & E).
  apply bind_Ok in E as (? & Hd%fail_if_Ok%Z.leb_gt & E). case_match; [left; by injection E as <- <-|right].
  apply bind_Ok in E as (until & Hu%ok_or_Ok%checked_Some & E). destruct Hu as [-> Hu].
  apply bind_Ok in E as (? & _ & E). apply bind_Ok in E as (db1 & Hl & E). apply bind_Ok in E as (l & Hm & [= <- <-]). done.
Qed.
Lemma claim_ok r w now d limit db : db_ok db → db_ok (committed db (claim_due_outbox r w now d limit db)).
Proof.
  intros Hok. destruct (claim_due_outbox _ _ _ _ _ _) as [[ms db']|] eqn:E; [|done]. cbn.
  apply claim_Ok in E as [[_ ->]|(_ & _ & Hl & _)]; [done|]. by eapply leases_ok.
Qed.
Lemma leased_Some id w db m : leased_message id w db = Some m → control_outbox db !! id = Some m ∧ om_status m = MInFlight ∧
  om_lease_owner m = Some w.
Proof.
  unfold leased_message. intros (n & Hn & Hl)%bind_Some. case_match eqn:Hlt; [|done]. injection Hl as ->.
  unfold leased_to in Hlt. by rewrite andb_true_iff, !bool_decide_eq_true in Hlt.
Qed.
Lemma ack_ok id w db : db_ok db → db_ok (committed_unit db (acknowledge_outbox id w db)).
Proof.
  intros Hok. destruct (acknowledge_outbox id w db) as [db'|] eqn:E; [|done]. cbn. unfold acknowledge_outbox in E.
  apply bind_Ok in E as (? & _ & E). apply bind_Ok in E as (? & _ & E). destruct (leased_message _ _ _); [|done]. injection E as <-.
  destruct Hok as [? ? ? [Hk Hr Hc Ha] ? ?]. split; cbn; try done.
  split; [..|eapply apart_rows_subset, Ha; apply delete_subseteq]; intros i m [_ Hm]%lookup_delete_Some; eauto.
Qed.
Lemma reschedule_ok id w next error now db : db_ok db → db_ok (committed_unit db (reschedule_outbox id w next error now db)).
Proof.
  intros Hok. destruct (reschedule_outbox _ _ _ _ _ _) as [db'|] eqn:E; [|done]. cbn. unfold reschedule_outbox in E.
  do 5 (apply bind_Ok in E as (? & _ & E)). destruct (leased_message _ _ _); [|done]. by eapply put_message_ok.
Qed.
Lemma dead_ok id w error now db : db_ok db → db_ok (committed_unit db (dead_letter_outbox id w error now db)).
Proof.
  intros Hok. destruct (dead_letter_outbox _ _ _ _ _) as [db'|] eqn:E; [|done]. cbn. unfold dead_letter_outbox in E.
  do 4 (apply bind_Ok in E as (? & _ & E)). destruct (leased_message _ _ _); [|done]. by eapply put_message_ok.
Qed.

(** *** Cursors and hosts *)
Lemma put_cursor_Ok c db db' : put_cursor c db = Ok db' → 0 ≤ sc_sequence c ∧ is_Some (router_profiles db !! sc_router_id c) ∧
  db' = db <| sync_cursors ::= <[(sc_router_id c, sc_stream c) := c]> |>.
Proof.
  intros Hp. apply bind_Ok in Hp as (? & Hc%fail_if_Ok%negb_false_iff & Hp). apply bind_Ok in Hp as (? & Hr%fail_if_Ok & [= <-]).
  apply andb_true_iff in Hc as [?%Z.leb_le _]. apply bool_decide_eq_false in Hr. split_and!; [done|by apply not_eq_None_Some|done].
Qed.
(** What a successful exchange did. *)
Lemma cursor_Ok r s expected next position now db c db' : db_ok db →
  compare_and_set_sync_cursor r s expected next position now db = Ok (c, db') →
  expected = sc_sequence <$> sync_cursors db !! (r, s) ∧ from_option (λ v, v < next) True expected ∧ 0 ≤ next ∧
  sc_sequence c = next ∧ sc_position c = position ∧ is_Some (router_profiles db !! r) ∧ (sc_router_id c, sc_stream c) = (r, s) ∧
  db' = db <| sync_cursors ::= <[(r, s) := c]> |>.
Proof.
  intros Hok E. unfold compare_and_set_sync_cursor in E. apply bind_Ok in E as (r' & ->%validated_router & E).
  apply bind_Ok in E as (s' & ->%validated_operation & E). apply bind_Ok in E as (p' & ->%validated_opaque & E).
  apply bind_Ok in E as (? & Hneg%fail_if_Ok & E). apply bind_Ok in E as (? & _ & E). apply bind_Ok in E as (? & _ & E).
  apply bind_Ok in E as (? & Hexp%fail_if_Ok%negb_false_iff%bool_decide_eq_true & E). apply bind_Ok in E as (db1 & Hput & E).
  apply bind_Ok in E as (c' & Hload%ok_or_Ok & [= -> ->]). apply orb_false_iff in Hneg as [Hneg%Z.ltb_ge _].
  unfold load_sync_cursor in *. rewrite <-Hexp. destruct (sync_cursors db !! (r, s)) as [c0|] eqn:Hc0.
  - apply bind_Ok in Hput as (? & Hadv%fail_if_Ok%Z.leb_gt & Hput). apply put_cursor_Ok in Hput as (_ & Hr & ->).
    pose proof (co_key _ _ (db_cursors _ Hok) _ _ Hc0) as [= Hk1 Hk2]. cbn in Hload, Hr |- *. rewrite Hk1, Hk2 in *.
    rewrite lookup_insert_eq in Hload. injection Hload as <-. cbn. by rewrite ?Hk1, ?Hk2.
  - apply put_cursor_Ok in Hput as (_ & Hr & ->). cbn in Hload, Hr. rewrite lookup_insert_eq in Hload. injection Hload as <-. done.
Qed.
Lemma cursor_ok r s expected next position now db : db_ok db →
  db_ok (committed db (compare_and_set_sync_cursor r s expected next position now db)).
Proof.
  intros Hok. destruct (compare_and_set_sync_cursor _ _ _ _ _ _ _) as [[c db']|] eqn:E; [|done]. cbn.
  apply cursor_Ok in E as (_ & _ & Hnext & Hseq & _ & Hr & Hkey & ->); [|done]. destruct Hok as [? ? ? ? [Hk Hkr Hks] ?].
  split; cbn; try done. injection Hkey as Hk1 Hk2. split.
  - intros i d [[<- <-]|[_ ?]]%lookup_insert_Some; [by rewrite Hk1, Hk2|auto].
  - intros i d [[<- <-]|[_ ?]]%lookup_insert_Some; [by rewrite Hk1|eauto].
  - intros i d [[<- <-]|[_ ?]]%lookup_insert_Some; [lia|eauto].
Qed.
Lemma identity_loaded db i : db_ok db → load_device_identity check_keys db = Ok (Some i) →
  ∃ j, device_identity db = Some j ∧ di_client_subdomain i = di_client_subdomain j.
Proof.
  intros Hok. unfold load_device_identity. destruct (device_identity db) as [j|] eqn:Ej; [|done]. intros Hl.
  destruct (db_identity _ Hok j Ej) as [Hv _]. rewrite subdomain_parse_id in Hl by done. cbn in Hl.
  apply bind_Ok in Hl as (? & _ & [= <-]). by exists j.
Qed.
Lemma host_ok r claim now db : db_ok db → db_ok (committed db (claim_public_host check_keys r claim now db)).
Proof.
  intros Hok. destruct (claim_public_host _ _ _ _ _) as [[b db']|] eqn:E; [|done]. cbn. unfold claim_public_host in E.
  apply bind_Ok in E as (r' & ->%validated_router & E). apply bind_Ok in E as (? & _ & E).
  apply bind_Ok in E as (o & Hp & E). apply bind_Ok in E as (p & ->%ok_or_Ok & E). apply profile_loaded in Hp; [|done].
  apply bind_Ok in E as ([] & Hv & E). apply bind_Ok in E as (o & Hi & E). apply bind_Ok in E as (i & ->%ok_or_Ok & E).
  apply identity_loaded in Hi as (j & Hj & Hsub); [|done].
  apply bind_Ok in E as (? & Hd%fail_if_Ok%negb_false_iff%bool_decide_eq_true & E). apply bind_Ok in E as (e & _ & E).
  destruct e as [e|]; [case_match; [by injection E as <- <-|done]|].
  apply bind_Ok in E as (? & _ & E). apply bind_Ok in E as (db1 & Hins & [= <- <-]).
  apply bind_Ok in Hins as (? & Hc%fail_if_Ok%negb_false_iff & Hins). apply bind_Ok in Hins as (? & _ & Hins).
  apply bind_Ok in Hins as (? & Hu%fail_if_Ok & [= <-]). apply orb_false_iff in Hu as [_ Hu]. rewrite some_row_false in Hu.
  destruct Hok as [? ? ? ? ? [Hk Hn Hch Ha]]. split; cbn; try done. split.
  - intros h row [[<- <-]|[_ ?]]%lookup_insert_Some; auto.
  - intros h row [[<- <-]|[_ ?]]%lookup_insert_Some; [|eauto]. exists j, p. split_and!; [done|cbn; by rewrite Hd, Hsub|done|].
    destruct claim. cbn in *. unfold lift_namespace in Hv. destruct (validate_for _ _) as [[]|]; done.
  - intros h row [[<- <-]|[_ ?]]%lookup_insert_Some; eauto.
  - apply apart_rows_insert; [apply hosts_clash_comm|done|]. intros k row Hrow _. by apply (Hu k).
Qed.
Lemma release_ok r host subject db : db_ok db → db_ok (committed db (release_public_host r host subject db)).
Proof.
  intros Hok. destruct (release_public_host _ _ _ _) as [[b db']|] eqn:E; [|done]. cbn. unfold release_public_host in E.
  do 3 (apply bind_Ok in E as (? & _ & E)). repeat (case_match; [|by injection E as <- <-]). injection E as <- <-.
  destruct Hok as [? ? ? ? ? [Hk Hn Hch Ha]]. split; cbn; try done.
  split; [..|eapply apart_rows_subset, Ha; apply delete_subseteq]; intros i m [_ Hm]%lookup_delete_Some; eauto.
Qed.
Lemma control_step_ok db op : control_op_typed op → db_ok db → db_ok (control_step db op).
Proof.
  intros Ht Hok. destruct op; cbn [control_step].
  - by apply identity_ok.
  - by apply insert_ok.
  - by apply install_ok.
  - by apply primary_step_ok.
  - by apply remove_router_ok.
  - by apply enqueue_ok.
  - by apply claim_ok.
  - by apply ack_ok.
  - by apply reschedule_ok.
  - by apply dead_ok.
  - by apply cursor_ok.
  - by apply host_ok.
  - by apply release_ok.
Qed.
Lemma control_run_ok db ops : Forall control_op_typed ops → db_ok db → db_ok (control_run db ops).
Proof. intros Ht. revert db. induction Ht; intros db Hok; [done|]. cbn. by apply IHHt, control_step_ok. Qed.

(** C18: the tables of the control store stay consistent whatever happens: from an empty store, after any operations, the
    Router the state calls primary is the one with that role and there is one as soon as there is any Router; addresses,
    domains and installations are not shared; every message, cursor and host belongs to a Router that is there; a
    message has a lease exactly while it is in flight and no two share a deduplication key; and every public host is the
    name of its one subject under its Router's domain, for the client this device is. *)
Theorem control_store_stays_consistent ops : Forall control_op_typed ops → db_ok (control_run empty_db ops).
Proof. intros Ht. apply control_run_ok; [done|apply empty_db_ok]. Qed.
End steps.
