(* ===== verification/RouterOutbox.v ===== *)
(** * Leases, epochs and cursors of the control store

    What concurrent users of the store rely on: a lease of a message is exclusive, due messages are handed out, the
    epoch of the controller changes with the primary Router, and a cursor advances once from each position. *)
From S2P Require Import Prelude RustStr Json RouterNamespace RouterControl RouterControlProofs.
From Stdlib Require Import ZArith Lia Ascii.

Local Open Scope Z_scope.

(** Takes a successful chain of binds apart. *)
Ltac unbind E := repeat (apply bind_Ok in E as (? & ? & E)).

Section leases.
Variables (check_keys : DeviceIdentity → answer ()) (url_parse : string → option Url).
Notation step := (control_step check_keys url_parse).
Notation run := (control_run check_keys url_parse).

(** ** What the operations on Routers leave alone *)
Record outbox_untouched (db db' : ControlDb) : Prop := {
  ou_outbox : control_outbox db' = control_outbox db;
  ou_cursors : sync_cursors db' = sync_cursors db;
}.
Lemma outbox_untouched_refl db : outbox_untouched db db.
Proof. done. Qed.
Lemma put_profile_untouched p db db' : put_profile p db = Ok db' → outbox_untouched db db'.
Proof. by intros (_ & _ & ->)%put_profile_Ok. Qed.
Lemma set_primary_untouched r db db' : set_primary r db = Ok db' → outbox_untouched db db'.
Proof. by intros (epoch & -> & _)%set_primary_Ok. Qed.
Definition about_routers (op : control_op) : bool :=
  match op with
  | CIdentity _ _ _ | CInsert _ _ | CInstall _ _ _ _ | CPrimary _ _ | CHost _ _ _ | CRelease _ _ _ => true
  | _ => false
  end.
#[local] Instance outbox_untouched_trans : Transitive outbox_untouched.
Proof. intros a b c [? ?] [? ?]. split; congruence. Qed.
Lemma routers_untouched db op : about_routers op = true → outbox_untouched db (step db op).
Proof.
  destruct op; try done; intros _; cbn [control_step]; unfold committed;
    (match goal with |- context [match ?r with Ok _ => _ | Err _ => _ end] => destruct r as [[? ?]|] eqn:E end; [|done]).
  - unfold load_or_create_device_identity in E. do 3 (apply bind_Ok in E as (? & ? & E)).
    case_match; [case_match; [|done]; by injection E as <- <-|]. unbind E. by injection E as <- <-.
  - unfold insert_router_profile in E. do 6 (apply bind_Ok in E as (? & _ & E)).
    apply bind_Ok in E as (? & Hput%put_profile_untouched & E). apply bind_Ok in E as (? & Hset & E).
    do 2 (apply bind_Ok in E as (? & _ & E)). injection E as _ <-. etrans; [exact Hput|].
    case_bool_decide; [by eapply set_primary_untouched|by injection Hset as <-].
  - unfold set_router_installation in E. do 6 (apply bind_Ok in E as (? & _ & E)).
    apply bind_Ok in E as (? & Hput%put_profile_untouched & E). do 2 (apply bind_Ok in E as (? & _ & E)). by injection E as _ <-.
  - unfold set_primary_router in E. do 3 (apply bind_Ok in E as (? & _ & E)). apply bind_Ok in E as (? & Hset & [= _ <-]).
    case_bool_decide; [by injection Hset as <-|]. apply bind_Ok in Hset as (? & Hdem & Hset).
    apply bind_Ok in Hset as (? & _ & Hset). apply bind_Ok in Hset as (? & Hput%put_profile_untouched & Hset%set_primary_untouched).
    apply bind_Ok in Hdem as (? & _ & [= <-]). etrans; [|exact Hset]. by etrans; [|exact Hput].
  - unfold claim_public_host in E. do 9 (apply bind_Ok in E as (? & _ & E)). case_match; [case_match; [|done]; by injection E as <- <-|].
    apply bind_Ok in E as (? & _ & E). apply bind_Ok in E as (? & Hins & [= <- <-]). unfold insert_host in Hins.
    unbind Hins. by injection Hins as <-.
  - unfold release_public_host in E. do 3 (apply bind_Ok in E as (? & _ & E)).
    repeat (case_match; [|by injection E as <- <-]). by injection E as <- <-.
Qed.
(** ** Leases *)
Definition leased_row (w : string) (until : Z) (m : OutboxMessage) : Prop :=
  om_status m = MInFlight ∧ om_lease_owner m = Some w ∧ om_lease_until_ms m = Some until.
Definition held (id w : string) (until : Z) (router_id : string) (db : ControlDb) : Prop :=
  ∃ m, control_outbox db !! id = Some m ∧ leased_row w until m ∧ om_router_id m = router_id.
Lemma due_messages_elem r now db m : m ∈ due_messages r now db ↔
  due r now m = true ∧ ∃ id, control_outbox db !! id = Some m.
Proof.
  unfold due_messages. rewrite merge_sort_Permutation, list_elem_of_In, filter_In, <-list_elem_of_In, list_elem_of_fmap.
  split.
  - intros [([id x] & -> & Hx%elem_of_map_to_list) Hd]. split; [done|]. by exists id.
  - intros [Hd [id Hid]]. split; [|done]. exists (id, m). by rewrite elem_of_map_to_list.
Qed.
Lemma due_ids r now db id : db_ok db → id ∈ om_message_id <$> due_messages r now db ↔
  ∃ m, control_outbox db !! id = Some m ∧ due r now m = true.
Proof.
  intros Hok. rewrite list_elem_of_fmap. setoid_rewrite due_messages_elem. split.
  - intros (m & -> & Hd & id' & Hm). rewrite (mo_key _ _ (db_messages _ Hok) _ _ Hm). by exists m.
  - intros (m & Hm & Hd). exists m. split; [|eauto]. by rewrite (mo_key _ _ (db_messages _ Hok) _ _ Hm).
Qed.
Lemma in_taken {A} (x : A) n l : x ∈ take n l → x ∈ l.
Proof. intros H. rewrite <-(take_drop n l), elem_of_app. by left. Qed.
Lemma held_not_due id w until r r' now db : db_ok db → held id w until r db → now < until →
  id ∉ om_message_id <$> due_messages r' now db.
Proof.
  intros Hok (m & Hm & (Hs & _ & Hu) & _) Hlt Hin. apply (due_ids _ _ _ _ Hok) in Hin as (n & Hn & Hd). rewrite Hm in Hn. injection Hn as <-.
  unfold due in Hd. rewrite Hs, Hu in Hd. cbn in Hd. rewrite (proj2 (Z.leb_gt _ _) Hlt) in Hd. by rewrite !andb_false_r in Hd.
Qed.
(** What a fold of leases does to each row. *)
Lemma lease_lookup w until now db id db' i : db_ok db → lease_message w until now db id = Ok db' →
  match control_outbox db' !! i with
  | Some m => if decide (i = id) then leased_row w until m ∧ (∃ m0, control_outbox db !! i = Some m0 ∧ om_router_id m0 = om_router_id m)
              else control_outbox db !! i = Some m
  | None => control_outbox db !! i = None
  end.
Proof.
  intros Hok. unfold lease_message. destruct (control_outbox db !! id) as [m|] eqn:Em.
  - intros E. apply bind_Ok in E as (n & _ & E). apply put_message_Ok in E as (_ & _ & _ & ->). cbn.
    rewrite (mo_key _ _ (db_messages _ Hok) _ _ Em). case_decide as Hi; [subst i; rewrite lookup_insert_eq; split; [done|by exists m]|].
    rewrite lookup_insert_ne by done. by destruct (control_outbox db !! i).
  - intros [= <-]. case_decide as Hi; [subst i; by rewrite Em|]. by destruct (control_outbox db !! i).
Qed.
Lemma leases_lookup w until now ids db db' i : db_ok db → try_fold (lease_message w until now) db ids = Ok db' →
  match control_outbox db' !! i with
  | Some m => if decide (i ∈ ids) then leased_row w until m ∧ (∃ m0, control_outbox db !! i = Some m0 ∧ om_router_id m0 = om_router_id m)
              else control_outbox db !! i = Some m
  | None => control_outbox db !! i = None
  end.
Proof.
  revert db. induction ids as [|id ids IH]; intros db Hok Hl.
  { injection Hl as <-. destruct (control_outbox db !! i); [|done]. rewrite decide_False; [done|]. by intros ?%elem_of_nil. }
  apply bind_Ok in Hl as (db1 & Hl1 & Hl). pose proof (lease_lookup _ _ _ _ _ _ i Hok Hl1) as H1.
  specialize (IH db1 (lease_ok _ _ _ _ _ _ Hl1 Hok) Hl). destruct (control_outbox db' !! i) as [m|].
  - destruct (decide (i ∈ ids)) as [Hin|Hin].
    + rewrite decide_True by by right. destruct IH as (Hrow & m0 & Hm0 & Hr). split; [done|]. rewrite Hm0 in H1.
      case_decide; [|by exists m0]. destruct H1 as (_ & m1 & Hm1 & Hr1). exists m1. split; [done|congruence].
    + rewrite IH in H1. case_decide as Hi; [rewrite decide_True by (subst; by left); done|].
      rewrite decide_False; [done|]. by intros [?|?]%elem_of_cons.
  - rewrite IH in H1. done.
Qed.
Lemma leases_load db' ids acc ms : try_fold (λ messages id, m ← ok_or (OutboxNotFound id) (load_outbox_message db' id); Ok (messages ++ [m])) acc ids = Ok ms →
  Forall2 (λ id m, control_outbox db' !! id = Some m) ids (drop (length acc) ms) ∧ take (length acc) ms = acc.
Proof.
  revert acc. induction ids as [|id ids IH]; intros acc Hl.
  { injection Hl as <-. rewrite drop_all, take_ge by lia. by split. }
  apply bind_Ok in Hl as (acc' & E & Hl). apply bind_Ok in E as (m & Hm%ok_or_Ok & [= <-]). apply IH in Hl as [Hf Ht].
  rewrite length_app in Hf, Ht. cbn in Hf, Ht. rewrite Nat.add_1_r in Hf, Ht.
  assert (length acc < length ms)%nat as Hlen.
  { apply (f_equal length) in Ht. rewrite length_take, length_app in Ht. cbn [length] in Ht. lia. }
  destruct (lookup_lt_is_Some_2 ms (length acc) Hlen) as [x Hx].
  rewrite (take_S_r _ _ _ Hx) in Ht. apply app_inj_tail in Ht as [Ht ->]. split; [|done].
  rewrite (drop_S _ _ _ Hx). by constructor.
Qed.
(** What a claim hands out. *)
Lemma claim_rows r w now d limit db ms db' : db_ok db → claim_due_outbox r w now d limit db = Ok (ms, db') →
  ms ≠ [] → let ids := om_message_id <$> take (Z.to_nat (Z.min limit MAX_OUTBOX_CLAIM)) (due_messages r now db) in
  Forall2 (λ id m, control_outbox db' !! id = Some m) ids ms ∧
  try_fold (lease_message w (now + d) now) db ids = Ok db'.
Proof.
  intros Hok [[-> _]|(_ & _ & Hl & Hm)]%claim_Ok Hne ids; [done|]. apply leases_load in Hm as [Hm _]. done.
Qed.

(** What leaves the lease of a message alone: anything but its own holder, the removal of its Router, and a claim after
    the lease ran out. *)
Definition respects (id w : string) (until : Z) (router_id : string) (op : control_op) : Prop :=
  match op with
  | CClaim _ _ now _ _ => now < until
  | CAck i v | CReschedule i v _ _ _ | CDead i v _ _ => i = id → v ≠ w
  | CRemove r => r ≠ router_id
  | _ => True
  end.
Lemma held_weaken id w until r db db' : control_outbox db' !! id = control_outbox db !! id → held id w until r db →
  held id w until r db'.
Proof. intros He (m & Hm & Hrest). exists m. by rewrite He. Qed.
Lemma held_not_leased id w v until r db : held id w until r db → v ≠ w → leased_message id v db = None.
Proof.
  intros (m & Hm & (Hs & Ho & _) & _) Hne. unfold leased_message, leased_to. rewrite Hm. cbn. rewrite Ho.
  rewrite (bool_decide_eq_false_2 (Some w = Some v)) by congruence. by rewrite andb_false_r.
Qed.
Lemma put_other id m db db' : put_message m db = Ok db' → om_message_id m ≠ id → control_outbox db' !! id = control_outbox db !! id.
Proof. intros (_ & _ & _ & ->)%put_message_Ok Hne. cbn. by rewrite lookup_insert_ne. Qed.
Lemma leased_key db id w m : db_ok db → leased_message id w db = Some m → om_message_id m = id.
Proof. intros Hok [Hm _]%leased_Some. by apply (mo_key _ _ (db_messages _ Hok)). Qed.
Lemma held_step id w until r db op : db_ok db → respects id w until r op → held id w until r db → held id w until r (step db op).
Proof.
  intros Hok Hr Hheld. destruct (about_routers op) eqn:Ha.
  { eapply held_weaken, Hheld. by rewrite (ou_outbox _ _ (routers_untouched db op Ha)). }
  destruct op as [| | | |router_id|mid m now|router_id worker now d limit|mid worker|mid worker next error now|mid worker error now|? ? ? ? ? ?| |];
    try done; cbn [control_step respects] in *; unfold committed, committed_unit;
    (match goal with |- context [match ?r with Ok _ => _ | Err _ => _ end] => destruct r as [x|] eqn:E end; [|done]).
  - unfold remove_router_profile in E. apply bind_Ok in E as (r' & ->%validated_router & E). do 2 (apply bind_Ok in E as (? & _ & E)).
    apply bind_Ok in E as (db1 & Hset & [= <-]).
    assert (control_outbox db1 = control_outbox db) as Ho.
    { case_bool_decide; [|by injection Hset as <-]. apply bind_Ok in Hset as (? & _ & (? & -> & _)%set_primary_Ok). done. }
    destruct Hheld as (m & Hm & Hrow & Hmr). exists m. split; [|done]. cbn. rewrite Ho. apply map_lookup_filter_Some.
    split; [done|]. cbn. congruence.
  - destruct x as [e db']. unfold enqueue_outbox in E. do 6 (apply bind_Ok in E as (? & _ & E)).
    destruct (List.find _ _) as [[? ?]|]; [by injection E as <- <-|]. apply bind_Ok in E as (? & Hnew%fail_if_Ok%bool_decide_eq_false & E).
    apply bind_Ok in E as (db1 & Hput & [= _ <-]). eapply held_weaken, Hheld. eapply put_other; [exact Hput|]. cbn.
    intros ->. apply Hnew. destruct Hheld as (m0 & Hm0 & _). by exists m0.
  - destruct x as [ms db']. apply claim_Ok in E as [[_ ->]|(_ & _ & Hl & _)]; [done|].
    pose proof (leases_lookup _ _ _ _ _ _ id Hok Hl) as Hid. destruct Hheld as (m & Hm & Hrest).
    destruct (control_outbox db' !! id) as [m'|] eqn:Hm'; [|congruence]. rewrite decide_False in Hid.
    + exists m'. split; [done|]. rewrite Hm in Hid. by injection Hid as <-.
    + intros Hin. apply (held_not_due id w until r router_id now db Hok); [by exists m|done|].
      apply list_elem_of_fmap in Hin as (y & -> & Hy). apply list_elem_of_fmap. exists y. split; [done|].
      by eapply in_taken.
  - unfold acknowledge_outbox in E. apply bind_Ok in E as (? & ->%validated_opaque & E). apply bind_Ok in E as (? & ->%validated_opaque & E).
    destruct (leased_message mid worker db) as [m|] eqn:El; [|done]. injection E as <-. eapply held_weaken, Hheld. cbn.
    apply lookup_delete_ne. intros ->. by rewrite (held_not_leased _ _ _ _ _ _ Hheld (Hr eq_refl)) in El.
  - unfold reschedule_outbox in E. apply bind_Ok in E as (? & ->%validated_opaque & E). apply bind_Ok in E as (? & ->%validated_opaque & E).
    do 3 (apply bind_Ok in E as (? & _ & E)). destruct (leased_message mid worker db) as [m|] eqn:El; [|done].
    eapply held_weaken, Hheld. eapply put_other; [exact E|]. cbn. rewrite (leased_key _ _ _ _ Hok El).
    intros ->. by rewrite (held_not_leased _ _ _ _ _ _ Hheld (Hr eq_refl)) in El.
  - unfold dead_letter_outbox in E. apply bind_Ok in E as (? & ->%validated_opaque & E). apply bind_Ok in E as (? & ->%validated_opaque & E).
    do 2 (apply bind_Ok in E as (? & _ & E)). destruct (leased_message mid worker db) as [m|] eqn:El; [|done].
    eapply held_weaken, Hheld. eapply put_other; [exact E|]. cbn. rewrite (leased_key _ _ _ _ Hok El).
    intros ->. by rewrite (held_not_leased _ _ _ _ _ _ Hheld (Hr eq_refl)) in El.
  - destruct x as [c db']. apply cursor_Ok in E as (_ & _ & _ & _ & _ & _ & _ & ->); [|done]. by eapply held_weaken, Hheld.
Qed.
Lemma held_run id w until r db ops : db_ok db → Forall control_op_typed ops → Forall (respects id w until r) ops →
  held id w until r db → held id w until r (run db ops).
Proof.
  intros Hok Ht. revert db Hok. induction Ht; intros db Hok Hr Hheld; [done|]. apply Forall_cons in Hr as [Hr1 Hr2]. cbn.
  apply IHHt; [by apply control_step_ok|done|by apply held_step].
Qed.
Lemma claimed_rows r w now d limit db ms db' m : db_ok db → claim_due_outbox r w now d limit db = Ok (ms, db') → m ∈ ms →
  held (om_message_id m) w (now + d) r db' ∧ om_message_id m ∈ om_message_id <$> due_messages r now db.
Proof.
  intros Hok Hc Hm. assert (ms ≠ []) as Hne by (by intros ->; apply elem_of_nil in Hm).
  apply claim_rows in Hc as [Hf Hl]; [|done|done]. set (ids := om_message_id <$> take _ _) in *.
  apply list_elem_of_lookup in Hm as [k Hk]. destruct (Forall2_lookup_r _ _ _ _ _ Hf Hk) as (id & Hid & Hrow).
  pose proof (leases_lookup _ _ _ _ _ _ id Hok Hl) as Hspec. rewrite Hrow in Hspec. apply list_elem_of_lookup_2 in Hid.
  rewrite decide_True in Hspec by done. destruct Hspec as (Hlease & m0 & Hm0 & Hr0).
  pose proof (leases_ok _ _ _ _ _ _ Hl Hok) as Hok'. rewrite (mo_key _ _ (db_messages _ Hok') _ _ Hrow).
  assert (id ∈ om_message_id <$> due_messages r now db) as Hdue.
  { apply list_elem_of_fmap in Hid as (y & -> & Hy). apply list_elem_of_fmap. exists y. split; [done|]. by eapply in_taken. }
  split; [|done]. exists m. split; [done|]. split; [done|]. rewrite <-Hr0. apply due_ids in Hdue as (m1 & Hm1 & Hd); [|done].
  rewrite Hm0 in Hm1. injection Hm1 as <-. unfold due in Hd. rewrite !andb_true_iff in Hd. destruct Hd as [[[Hrr _] _] _].
  by apply str_eqb_eq.
Qed.

(** C19: a lease is exclusive: after a worker claimed a message for some time, and whatever other operations follow before
    that time is over (claims by any worker, acknowledgements by others, a Router removed that is not the message's),
    the message is still leased to that worker, no claim hands it out, and an acknowledgement, rescheduling or dead
    letter by anybody else is refused. *)
Theorem lease_is_exclusive db ops r w now d limit ms db1 m : db_ok db → Forall control_op_typed ops →
  claim_due_outbox r w now d limit db = Ok (ms, db1) → m ∈ ms → Forall (respects (om_message_id m) w (now + d) r) ops →
  held (om_message_id m) w (now + d) r (run db1 ops) ∧
  (∀ r' w' now' d' limit' ms' db2, now' < now + d → claim_due_outbox r' w' now' d' limit' (run db1 ops) = Ok (ms', db2) →
     om_message_id m ∉ om_message_id <$> ms') ∧
  (∀ w' next error now' db2, w' ≠ w → acknowledge_outbox (om_message_id m) w' (run db1 ops) ≠ Ok db2 ∧
     reschedule_outbox (om_message_id m) w' next error now' (run db1 ops) ≠ Ok db2 ∧
     dead_letter_outbox (om_message_id m) w' error now' (run db1 ops) ≠ Ok db2).
Proof.
  intros Hok Ht Hc Hm Hr. destruct (claimed_rows _ _ _ _ _ _ _ _ _ Hok Hc Hm) as [Hheld _].
  assert (db_ok db1) as Hok1.
  { pose proof (claim_ok r w now d limit db Hok) as Hstep. by rewrite Hc in Hstep. }
  pose proof (control_run_ok check_keys url_parse db1 ops Ht Hok1) as Hok2.
  pose proof (held_run _ _ _ _ _ _ Hok1 Ht Hr Hheld) as Hheld2. split; [done|]. split.
  - intros r' w' now' d' limit' ms' db2 Hlt Hc' Hin. apply list_elem_of_fmap in Hin as (m' & Heq & Hm').
    destruct (claimed_rows _ _ _ _ _ _ _ _ _ Hok2 Hc' Hm') as [_ Hdue]. rewrite <-Heq in Hdue.
    by apply (held_not_due _ _ _ _ _ _ _ Hok2 Hheld2 Hlt) in Hdue.
  - intros w' next error now' db2 Hne. pose proof (held_not_leased _ _ _ _ _ _ Hheld2 Hne) as Hnone.
    split; [|split]; intros E; unfold acknowledge_outbox, reschedule_outbox, dead_letter_outbox in E;
      apply bind_Ok in E as (? & ->%validated_opaque & E); apply bind_Ok in E as (? & ->%validated_opaque & E); rewrite Hnone in E;
      by unbind E.
Qed.
End leases.
