(* ===== verification/RouterFences.v ===== *)
(** * Epochs, cursors and due messages of the control store

    The two fences of the store, [controller_epoch] and the sequence of a cursor, never go back, so that what was seen
    once tells whether anything has happened since; and a message that is due is handed out. *)
From S2P Require Import Prelude RustStr Json RouterNamespace RouterControl.
From S2P Require Import RouterControlProofs RouterOutbox.
From Stdlib Require Import ZArith Lia Ascii.

Local Open Scope Z_scope.

Section fences.
Variables (check_keys : DeviceIdentity → answer ()) (url_parse : string → option Url).
Notation step := (control_step check_keys url_parse).
Notation run := (control_run check_keys url_parse).

(** ** What the operations on the outbox leave alone *)
Record fences_kept (db db' : ControlDb) : Prop := {
  fk_cursors : sync_cursors db' = sync_cursors db;
  fk_primary : primary_state db' = primary_state db;
}.
#[local] Instance fences_kept_refl : Reflexive fences_kept.
Proof. by split. Qed.
#[local] Instance fences_kept_trans : Transitive fences_kept.
Proof. intros a b c [? ?] [? ?]. split; congruence. Qed.
Lemma put_message_fences m db db' : put_message m db = Ok db' → fences_kept db db'.
Proof. by intros (_ & _ & _ & ->)%put_message_Ok. Qed.
Lemma leases_fences w until now ids db db' : try_fold (lease_message w until now) db ids = Ok db' → fences_kept db db'.
Proof.
  revert db. induction ids as [|id ids IH]; intros db Hl; [by injection Hl as <-|].
  apply bind_Ok in Hl as (db1 & Hl1 & Hl). etrans; [|by apply IH]. unfold lease_message in Hl1.
  case_match; [|by injection Hl1 as <-]. apply bind_Ok in Hl1 as (? & _ & Hl1). by eapply put_message_fences.
Qed.
Definition about_outbox (op : control_op) : bool :=
  match op with CEnqueue _ _ _ | CClaim _ _ _ _ _ | CAck _ _ | CReschedule _ _ _ _ _ | CDead _ _ _ _ => true | _ => false end.
Lemma outbox_fences db op : about_outbox op = true → fences_kept db (step db op).
Proof.
  destruct op; try done; intros _; cbn [control_step]; unfold committed, committed_unit;
    (match goal with |- context [match ?r with Ok _ => _ | Err _ => _ end] => destruct r as [x|] eqn:E end; [|done]).
  - destruct x as [e db']. unfold enqueue_outbox in E. do 6 (apply bind_Ok in E as (? & _ & E)).
    destruct (List.find _ _) as [[? ?]|]; [by injection E as <- <-|]. apply bind_Ok in E as (? & _ & E).
    apply bind_Ok in E as (db1 & Hput & [= _ <-]). by eapply put_message_fences.
  - destruct x as [ms db']. apply claim_Ok in E as [[_ ->]|(_ & _ & Hl & _)]; [done|]. by eapply leases_fences.
  - unfold acknowledge_outbox in E. do 2 (apply bind_Ok in E as (? & _ & E)). case_match; [|done]. by injection E as <-.
  - unfold reschedule_outbox in E. do 5 (apply bind_Ok in E as (? & _ & E)). case_match; [|done]. by eapply put_message_fences.
  - unfold dead_letter_outbox in E. do 4 (apply bind_Ok in E as (? & _ & E)). case_match; [|done]. by eapply put_message_fences.
Qed.

(** ** Cursors *)
Definition cursor_at (router_id stream : string) (db : ControlDb) : option Z :=
  sc_sequence <$> load_sync_cursor db router_id stream.
Lemma remove_Ok r db db' : db_ok db → remove_router_profile r db = Ok db' → ∃ db1, db' = delete_router r db1 ∧
  sync_cursors db1 = sync_cursors db ∧
  (primary_router_id db = Some r ∧ controller_epoch db1 = controller_epoch db + 1 ∧ primary_router_id db1 = None ∨
   primary_router_id db ≠ Some r ∧ db1 = db).
Proof.
  intros Hok E. apply bind_Ok in E as (r' & ->%validated_router & E). apply bind_Ok in E as (p & Hp & E).
  apply bind_Ok in E as (p' & ->%ok_or_Ok & E). apply bind_Ok in E as (db1 & Hset & [= <-]).
  apply profile_loaded in Hp as Hrow; [|done]. exists db1. split; [done|].
  destruct (db_primary _ Hok) as [Hr _ _]. specialize (Hr _ _ Hrow). case_bool_decide as Hrole.
  - apply bind_Ok in Hset as (? & _ & (epoch & -> & He)%set_primary_Ok). split; [done|]. left. split; [tauto|done].
  - injection Hset as <-. split; [done|]. right. split; [tauto|done].
Qed.
Lemma cursor_step r s db op n : db_ok db → op ≠ CRemove r → cursor_at r s db = Some n →
  ∃ n', cursor_at r s (step db op) = Some n' ∧ n ≤ n'.
Proof.
  intros Hok Hne Hn. destruct (about_routers op) eqn:Ha.
  { exists n. unfold cursor_at, load_sync_cursor. rewrite (ou_cursors _ _ (routers_untouched check_keys url_parse db op Ha)). done. }
  destruct (about_outbox op) eqn:Hb.
  { exists n. unfold cursor_at, load_sync_cursor. rewrite (fk_cursors _ _ (outbox_fences db op Hb)). done. }
  destruct op as [| | | |router_id| | | | | |r' s' expected next position now| |]; try done;
    cbn [control_step]; unfold committed, committed_unit.
  - destruct (remove_router_profile router_id db) as [db'|] eqn:E; [|by exists n].
    apply remove_Ok in E as (db1 & -> & Hc & _); [|done]. exists n. split; [|done].
    unfold cursor_at, load_sync_cursor in *. cbn. rewrite Hc.
    destruct (sync_cursors db !! (r, s)) as [c|] eqn:Hcur; [|done]. rewrite (map_lookup_filter_Some_2 _ _ _ c); [done|done|].
    pose proof (co_key _ _ (db_cursors _ Hok) _ _ Hcur) as [= Hr _]. cbn. congruence.
  - destruct (compare_and_set_sync_cursor _ _ _ _ _ _ _) as [[c db']|] eqn:E; [|by exists n].
    apply cursor_Ok in E as (He & Hadv & _ & Hseq & _ & _ & _ & ->); [|done]. unfold cursor_at, load_sync_cursor in *. cbn.
    destruct (decide ((r', s') = (r, s))) as [[= -> ->]|Hk].
    + rewrite lookup_insert_eq. exists next. cbn. split; [by rewrite Hseq|]. rewrite Hn in He. subst expected. cbn in Hadv. lia.
    + rewrite lookup_insert_ne by done. by exists n.
Qed.
Lemma cursor_run r s ops db n : db_ok db → Forall control_op_typed ops → Forall (.≠ CRemove r) ops → cursor_at r s db = Some n →
  ∃ n', cursor_at r s (run db ops) = Some n' ∧ n ≤ n'.
Proof.
  intros Hok Ht. revert db n Hok. induction Ht as [|op ops Hop Ht IH]; intros db n Hok Hr Hn; [by exists n|].
  apply Forall_cons in Hr as [Hr1 Hr2]. destruct (cursor_step r s db op n Hok Hr1 Hn) as (n1 & Hn1 & Hle).
  edestruct (IH (step db op) n1) as (n2 & Hn2 & Hle2); [by apply control_step_ok|done|done|]. exists n2. split; [done|lia].
Qed.

(** C20: a position of a stream is left once: after an exchange that expected one sequence and succeeded, and any further
    operations that do not remove the Router, the cursor is at least where the exchange put it, and no exchange that
    expects the old sequence succeeds any more, whoever tries. *)
Theorem cursor_leaves_a_position_once db ops r s expected next position now c db1 : db_ok db → Forall control_op_typed ops →
  compare_and_set_sync_cursor r s expected next position now db = Ok (c, db1) → Forall (.≠ CRemove r) ops →
  (∃ n, cursor_at r s (run db1 ops) = Some n ∧ next ≤ n) ∧
  (∀ next' position' now' c' db2, compare_and_set_sync_cursor r s expected next' position' now' (run db1 ops) ≠ Ok (c', db2)).
Proof.
  intros Hok Ht E Hr. pose proof (cursor_ok r s expected next position now db Hok) as Hok1. rewrite E in Hok1. cbn in Hok1.
  apply cursor_Ok in E as (He & Hadv & Hnext & Hseq & _ & _ & _ & Hdb1); [|done].
  assert (cursor_at r s db1 = Some next) as Hn.
  { subst db1. unfold cursor_at, load_sync_cursor. cbn. rewrite lookup_insert_eq. cbn. by rewrite Hseq. }
  destruct (cursor_run r s ops db1 next Hok1 Ht Hr Hn) as (n & Hn' & Hle). split; [by exists n|].
  intros next' position' now' c' db2 E2. apply cursor_Ok in E2 as (He2 & _); [|by apply control_run_ok].
  unfold cursor_at, load_sync_cursor in Hn'. rewrite Hn' in He2. rewrite He2 in Hadv. cbn in Hadv. lia.
Qed.

(** ** The epoch of the controller *)
Definition fenced (db db' : ControlDb) : Prop :=
  primary_state db' = primary_state db ∨ controller_epoch db < controller_epoch db'.
Lemma fenced_trans a b c : fenced a b → fenced b c → fenced a c.
Proof. unfold fenced, primary_state. intros [[= E1 E2]|E1] [[= E3 E4]|E3]; [left; congruence|right; lia..]. Qed.
Lemma fenced_set_primary r db db' : set_primary r db = Ok db' → controller_epoch db < controller_epoch db'.
Proof. intros (epoch & -> & ->)%set_primary_Ok. cbn. lia. Qed.
Lemma put_profile_primary p db db' : put_profile p db = Ok db' → primary_state db' = primary_state db.
Proof. by intros (_ & _ & ->)%put_profile_Ok. Qed.
Lemma routers_fenced db op : about_routers op = true → fenced db (step db op).
Proof.
  destruct op; try done; intros _; cbn [control_step]; unfold committed;
    (match goal with |- context [match ?r with Ok _ => _ | Err _ => _ end] => destruct r as [[? ?]|] eqn:E end; [|by left]).
  - left. unfold load_or_create_device_identity in E. do 3 (apply bind_Ok in E as (? & ? & E)).
    case_match; [case_match; [|done]; by injection E as <- <-|]. unbind E. by injection E as <- <-.
  - unfold insert_router_profile in E. do 6 (apply bind_Ok in E as (? & _ & E)).
    apply bind_Ok in E as (db1 & [= Hid Hep]%put_profile_primary & E). apply bind_Ok in E as (? & Hset & E).
    do 2 (apply bind_Ok in E as (? & _ & E)). injection E as _ <-. case_bool_decide.
    + right. apply fenced_set_primary in Hset. lia.
    + left. injection Hset as <-. unfold primary_state. congruence.
  - left. unfold set_router_installation in E. do 6 (apply bind_Ok in E as (? & _ & E)).
    apply bind_Ok in E as (? & Hput%put_profile_primary & E). do 2 (apply bind_Ok in E as (? & _ & E)). by injection E as _ <-.
  - unfold set_primary_router in E. do 3 (apply bind_Ok in E as (? & _ & E)). apply bind_Ok in E as (? & Hset & [= _ <-]).
    case_bool_decide; [left; by injection Hset as <-|right]. apply bind_Ok in Hset as (? & Hdem & Hset).
    apply bind_Ok in Hset as (? & _ & Hset). apply bind_Ok in Hset as (? & [= _ Hep]%put_profile_primary & Hset%fenced_set_primary).
    apply bind_Ok in Hdem as (? & _ & [= <-]). cbn in Hep. lia.
  - left. unfold claim_public_host in E. do 9 (apply bind_Ok in E as (? & _ & E)). case_match; [case_match; [|done]; by injection E as <- <-|].
    apply bind_Ok in E as (? & _ & E). apply bind_Ok in E as (? & Hins & [= <- <-]). unfold insert_host in Hins.
    unbind Hins. by injection Hins as <-.
  - left. unfold release_public_host in E. do 3 (apply bind_Ok in E as (? & _ & E)).
    repeat (case_match; [|by injection E as <- <-]). by injection E as <- <-.
Qed.
Lemma step_fenced db op : db_ok db → fenced db (step db op).
Proof.
  intros Hok. destruct (about_routers op) eqn:Ha; [by apply routers_fenced|].
  destruct (about_outbox op) eqn:Hb; [left; by apply outbox_fences|].
  destruct op as [| | | |router_id| | | | | |r s expected next position now| |]; try done; cbn [control_step]; unfold committed, committed_unit.
  - destruct (remove_router_profile router_id db) as [db'|] eqn:E; [|by left].
    apply remove_Ok in E as (db1 & -> & _ & [(_ & He & _)|[Hne ->]]); [| |done].
    + right. cbn. lia.
    + left. unfold primary_state. cbn. by rewrite bool_decide_eq_false_2.
  - destruct (compare_and_set_sync_cursor _ _ _ _ _ _ _) as [[c db']|] eqn:E; [|by left].
    apply cursor_Ok in E as (_ & _ & _ & _ & _ & _ & _ & ->); [|done]. by left.
Qed.
(** [controller_epoch] fences the primary Router: it never goes back, and between two moments at which it is the
    same the primary Router has not changed, not even away and back again. *)
Theorem epoch_fences_primary db ops ops' : db_ok db → Forall control_op_typed ops → Forall control_op_typed ops' →
  controller_epoch db ≤ controller_epoch (run db ops) ∧
  (controller_epoch (run db (ops ++ ops')) = controller_epoch db → primary_state (run db ops) = primary_state db).
Proof.
  intros Hok Ht Ht'.
  assert (∀ l d, db_ok d → Forall control_op_typed l → fenced d (run d l)) as Hrun.
  { induction l as [|op l IH]; intros d Hd Hl; [by left|]. apply Forall_cons in Hl as [Hop Hl]. cbn.
    eapply fenced_trans; [by apply step_fenced|apply IH; [by apply control_step_ok|done]]. }
  destruct (Hrun ops db Hok Ht) as [He|He].
  - split; [injection He as _ He; lia|done].
  - split; [lia|]. intros Heq. exfalso. unfold control_run in Heq. rewrite foldl_app in Heq.
    destruct (Hrun ops' (run db ops)) as [He2|He2]; [by apply control_run_ok|done|injection He2 as _ He2|]; unfold control_run in *; lia.
Qed.

(** ** Due messages *)
Definition lease_row (w : string) (until now : Z) (m : OutboxMessage) : OutboxMessage :=
  m <| om_status := MInFlight |> <| om_attempt_count := om_attempt_count m + 1 |> <| om_lease_owner := Some w |>
    <| om_lease_until_ms := Some until |> <| om_updated_at_ms := now |>.
Definition can_lease (now : Z) (m : OutboxMessage) : Prop := om_created_at_ms m ≤ now ∧ om_attempt_count m < I64_MAX.
Lemma lease_succeeds w until now db id m : db_ok db → control_outbox db !! id = Some m → can_lease now m →
  lease_message w until now db id = Ok (db <| control_outbox ::= <[id := lease_row w until now m]> |>).
Proof.
  intros Hok Hm [Hc Ha]. pose proof (mo_checked _ _ (db_messages _ Hok) _ _ Hm) as Hch. unfold message_checked in Hch.
  rewrite !andb_true_iff, !Z.leb_le in Hch. destruct Hch as [[[[[H1 H2] H3] H4] H5] H6].
  unfold lease_message. rewrite Hm. 
  unfold checked_i64. rewrite (proj2 (checked_Some I64_MIN I64_MAX (om_attempt_count m + 1) _)) by (split; [reflexivity|unfold I64_MIN; lia]).
  change (put_message (lease_row w until now m) db = Ok (db <| control_outbox ::= <[id := lease_row w until now m]> |>)).
  unfold put_message. assert (message_checked (lease_row w until now m) = true) as Hch.
  { unfold message_checked, lease_row. cbn. rewrite !andb_true_iff, !Z.leb_le. split_and!; done || lia. }
  rewrite Hch. cbn [negb fail_if mbind result_bind]. change (om_router_id (lease_row w until now m)) with (om_router_id m).
  destruct (mo_router _ _ (db_messages _ Hok) _ _ Hm) as [p Hp]. rewrite Hp. cbn [fail_if mbind result_bind].
  change (om_message_id (lease_row w until now m)) with (om_message_id m).
  rewrite bool_decide_eq_false_2 by done. cbn [fail_if mbind result_bind]. rewrite (proj2 (some_row_false _ _)).
  - cbn [fail_if mbind result_bind]. by rewrite (mo_key _ _ (db_messages _ Hok) _ _ Hm).
  - intros j n Hj. rewrite (mo_key _ _ (db_messages _ Hok) _ _ Hm). destruct (str_eqb j id) eqn:Hji; [done|]. cbn.
    refine (mo_apart _ _ (db_messages _ Hok) id j m n Hm Hj _). intros ->. by rewrite str_eqb_refl in Hji.
Qed.
Lemma leases_succeed w until now ms db : db_ok db → NoDup (om_message_id <$> ms) →
  (∀ m, m ∈ ms → control_outbox db !! om_message_id m = Some m ∧ can_lease now m) →
  ∃ db', try_fold (lease_message w until now) db (om_message_id <$> ms) = Ok db' ∧
    (∀ m, m ∈ ms → control_outbox db' !! om_message_id m = Some (lease_row w until now m)) ∧
    (∀ id, id ∉ om_message_id <$> ms → control_outbox db' !! id = control_outbox db !! id).
Proof.
  revert db. induction ms as [|m ms IH]; intros db Hok Hnd Hall.
  { exists db. split_and!; [done| |done]. by intros m ?%elem_of_nil. }
  rewrite fmap_cons in Hnd. apply NoDup_cons in Hnd as [Hnin Hnd]. destruct (Hall m) as [Hm Hcan]; [by left|].
  pose proof (lease_succeeds w until now db _ m Hok Hm Hcan) as Hl. cbn [fmap list_fmap try_fold]. rewrite Hl. cbn [mbind result_bind].
  destruct (IH (db <| control_outbox ::= <[om_message_id m := lease_row w until now m]> |>)) as (db' & Hdb' & Hin & Hout);
    [by eapply lease_ok|done| |].
  - intros n Hn. destruct (Hall n) as [? ?]; [by right|]. split; [|done]. cbn. rewrite lookup_insert_ne; [done|].
    intros He. apply Hnin. rewrite He. by apply list_elem_of_fmap_2.
  - exists db'. split; [done|]. split.
    + intros n [->|Hn]%elem_of_cons; [|by apply Hin]. rewrite Hout by done. cbn. apply lookup_insert_eq.
    + intros id [Hne Hid]%not_elem_of_cons. rewrite Hout by done. cbn. by rewrite lookup_insert_ne.
Qed.
Lemma loads_succeed db ms (f : OutboxMessage → OutboxMessage) acc : (∀ m, m ∈ ms → control_outbox db !! om_message_id m = Some (f m)) →
  try_fold (λ messages id, m ← ok_or (OutboxNotFound id) (load_outbox_message db id); Ok (messages ++ [m])) acc (om_message_id <$> ms)
  = Ok (acc ++ (f <$> ms)).
Proof.
  revert acc. induction ms as [|m ms IH]; intros acc Hall; [by rewrite app_nil_r|]. cbn [fmap list_fmap try_fold].
  rewrite (Hall m (list_elem_of_here _ _) : load_outbox_message db (om_message_id m) = _). cbn [ok_or mbind result_bind].
  rewrite IH; [|intros n Hn; apply Hall; by right]. by rewrite <-app_assoc.
Qed.
Lemma filtered_ids (p : OutboxMessage → bool) l : (∀ e : string * OutboxMessage, e ∈ l → om_message_id e.2 = e.1) →
  om_message_id <$> List.filter p l.*2 `sublist_of` l.*1.
Proof.
  induction l as [|[id m] l IH]; intros Hall; [done|]. pose proof (Hall (id, m) (list_elem_of_here _ _)) as Hk. cbn in Hk |- *.
  subst id.
  assert (om_message_id <$> List.filter p l.*2 `sublist_of` l.*1) by (apply IH; intros e He; apply Hall; by right).
  case_match; [by apply sublist_skip|by apply sublist_cons].
Qed.
Lemma due_ids_NoDup r now db : db_ok db → NoDup (om_message_id <$> due_messages r now db).
Proof.
  intros Hok. unfold due_messages. rewrite merge_sort_Permutation.
  eapply sublist_NoDup; [apply (NoDup_fst_map_to_list (control_outbox db))|]. apply filtered_ids.
  intros e He%elem_of_map_to_list'. by apply (mo_key _ _ (db_messages _ Hok)).
Qed.
(** what is due is handed out: a claim by a worker of a known Router, with a positive duration that fits the clock,
    succeeds and returns the due messages in their order, all of them up to the limit and to a thousand, each
    leased to that worker and counted as one attempt more, provided no counter is exhausted and the clock is not before
    the creation of a due message. *)
Theorem due_messages_are_claimed db r w now d limit : db_ok db → validate_router_id r = Ok r →
  validate_opaque_id "outbox worker id" w 255 = Ok w → is_Some (router_profiles db !! r) → 0 ≤ now → 0 < d → now + d ≤ I64_MAX →
  0 < limit → Forall (can_lease now) (due_messages r now db) →
  ∃ db', claim_due_outbox r w now d limit db =
    Ok (lease_row w (now + d) now <$> take (Z.to_nat (Z.min limit MAX_OUTBOX_CLAIM)) (due_messages r now db), db').
Proof.
  intros Hok Hr Hw Hp Hnow Hd Hfit Hlim Hcan. unfold claim_due_outbox. rewrite Hr, Hw. cbn. unfold validate_timestamp.
  rewrite (proj2 (Z.ltb_ge _ _)), (proj2 (Z.leb_gt _ _)) by lia. cbn.
  rewrite (proj2 (Z.eqb_neq _ _)) by (unfold MAX_OUTBOX_CLAIM; lia).
  unfold checked_i64. rewrite (proj2 (checked_Some I64_MIN I64_MAX (now + d) _)) by (split; [reflexivity|unfold I64_MIN; lia]). cbn.
  unfold router_profile_exists. rewrite bool_decide_eq_true_2 by done. cbn.
  set (ds := take _ (due_messages r now db)).
  assert (∀ m, m ∈ ds → control_outbox db !! om_message_id m = Some m ∧ can_lease now m) as Hds.
  { intros m Hm%in_taken. rewrite Forall_forall in Hcan. split; [|by apply Hcan].
    apply due_messages_elem in Hm as [_ [id Hid]]. by rewrite (mo_key _ _ (db_messages _ Hok) _ _ Hid). }
  assert (NoDup (om_message_id <$> ds)) as Hnd.
  { eapply sublist_NoDup; [apply (due_ids_NoDup r now db Hok)|]. apply fmap_sublist, sublist_take. }
  destruct (leases_succeed w (now + d) now ds db) as (db' & Hl & Hrows); [done|done|done|].
  rewrite Hl. cbn. rewrite (loads_succeed db' ds (lease_row w (now + d) now)); [by exists db'|]. by destruct Hrows.
Qed.
End fences.

(** ** A control store at work

    Two Routers, a message that is claimed, fails and is claimed again, a cursor and a public host: the operations
    evaluated, and the theorems about the store applied to them. *)

Definition sample_keys (i : DeviceIdentity) : answer () :=
  fail_if (is_empty (di_public_key i)) (DatabaseInvariant "public key is empty").
(** The origins [https://<name>/]. *)
Definition sample_url (s : string) : option Url :=
  rest ← strip_prefix "https://" s;
  host ← strip_suffix "/" rest;
  Some (mk_url "https" "" None None None "/" (Some host) s).
Notation sample_step := (control_step sample_keys sample_url).
Notation sample_run := (control_run sample_keys sample_url).

Definition setup_ops : list control_op := [
  CIdentity ("pub", "priv") "home" 1000;
  CInsert (mk_new_profile "r1" "https://one.example.com/" "one.example.com" Primary) 1000;
  CInsert (mk_new_profile "r2" "https://two.example.com/" "two.example.com" Auxiliary) 1000;
  CEnqueue "m1" (mk_new_message "r1" "publish_share" Null (Some "share-1") 1000) 1000;
  CEnqueue "m2" (mk_new_message "r1" "publish_share" Null None 5000) 1000;
  CEnqueue "m3" (mk_new_message "r1" "publish_share" Null (Some "share-1") 1000) 1000].
Definition setup_db : ControlDb := sample_run empty_db setup_ops.
Lemma setup_typed : Forall control_op_typed setup_ops.
Proof. repeat constructor. Qed.
Lemma setup_ok : db_ok setup_db.
Proof. apply control_run_ok; [apply setup_typed|apply empty_db_ok]. Qed.

Definition setup_shape : Prop :=
  map_to_list (rp_role <$> router_profiles setup_db) ≡ₚ [("r1", Primary); ("r2", Auxiliary)] ∧
  (map_to_list (control_outbox setup_db)).*1 ≡ₚ ["m1"; "m2"] ∧ primary_state setup_db = mk_primary (Some "r1") 1.
(** The third message has the deduplication key of the first, and is not stored again. *)
Example setup_runs : setup_shape.
Proof. vm_compute. split; [|split]; [by apply perm_swap || reflexivity|by apply perm_swap || reflexivity|done]. Qed.

Definition claimed : answer (list OutboxMessage * ControlDb) := claim_due_outbox "r1" "w1" 2000 500 10 setup_db.
Definition claimed_messages : list OutboxMessage := match claimed with Ok (ms, _) => ms | Err _ => [] end.
Definition claimed_db : ControlDb := match claimed with Ok (_, db) => db | Err _ => setup_db end.
Lemma claimed_eq : claimed = Ok (claimed_messages, claimed_db).
Proof. by vm_compute. Qed.
Definition first_message : OutboxMessage :=
  mk_message "m1" PROTOCOL_EPOCH "r1" "publish_share" Null (Some "share-1") MInFlight 1 1000 (Some "w1") (Some 2500) None 1000 2000.
Lemma claimed_first : claimed_messages = [first_message].
Proof. by vm_compute. Qed.
(** Another worker tries while the lease lasts; a Router is installed; the primary changes. *)
Definition rival_ops : list control_op := [
  CClaim "r1" "w2" 2400 500 10; CAck "m1" "w2"; CReschedule "m1" "w2" 9000 "busy" 2400;
  CInstall "r1" "inst-1" "0123456789abcdef" 2400; CPrimary "r2" 2400; CRemove "r2"].
Lemma rival_typed : Forall control_op_typed rival_ops.
Proof. repeat constructor. Qed.
Lemma rival_respects : Forall (respects "m1" "w1" 2500 "r1") rival_ops.
Proof. repeat apply Forall_cons_2; [..|apply Forall_nil_2]; cbn; done || lia. Qed.
(** The lease of a worker that acknowledges, or is over, is taken. *)
Example lease_ends : match claim_due_outbox "r1" "w2" 2500 500 10 claimed_db with
                     | Ok (ms, _) => om_lease_owner <$> ms = [Some "w2"] | Err _ => False end ∧
  match acknowledge_outbox "m1" "w1" claimed_db with Ok db => control_outbox db !! "m1" = None | Err _ => False end.
Proof. by vm_compute. Qed.

Definition positioned : answer (SyncCursor * ControlDb) := compare_and_set_sync_cursor "r1" "shares" None 3 "abc" 2000 setup_db.
Definition positioned_db : ControlDb := match positioned with Ok (_, db) => db | Err _ => setup_db end.
Lemma positioned_eq : positioned = Ok (mk_cursor PROTOCOL_EPOCH "r1" "shares" "abc" 3 2000, positioned_db).
Proof. by vm_compute. Qed.
Definition cursor_ops : list control_op := [CCursor "r1" "shares" (Some 3) 9 "def" 2100; CCursor "r1" "shares" None 4 "x" 2100; CRemove "r2"].
Lemma cursor_ops_typed : Forall control_op_typed cursor_ops.
Proof. repeat constructor. Qed.
Lemma cursor_ops_keep : Forall (.≠ CRemove "r1") cursor_ops.
Proof. by repeat constructor. Qed.
#[local] Instance can_lease_dec now m : Decision (can_lease now m).
Proof. unfold can_lease. apply _. Defined.
Lemma due_can_lease : Forall (can_lease 6000) (due_messages "r1" 6000 setup_db).
Proof. apply (bool_decide_eq_true_1 _). by vm_compute. Qed.

Lemma setup_valid_router : validate_router_id "r1" = Ok "r1".
Proof. by vm_compute. Qed.
Lemma setup_valid_worker : validate_opaque_id "outbox worker id" "w1" 255 = Ok "w1".
Proof. by vm_compute. Qed.
Lemma setup_router : is_Some (router_profiles setup_db !! "r1").
Proof. apply (bool_decide_eq_true_1 _). by vm_compute. Qed.

Lemma control_store_stays_consistent_witness :
  Forall control_op_typed (setup_ops ++ rival_ops) ∧ db_ok (sample_run empty_db (setup_ops ++ rival_ops)).
Proof.
  assert (Forall control_op_typed (setup_ops ++ rival_ops)) as Ht by exact (Forall_app_2 _ _ _ setup_typed rival_typed).
  split; [exact Ht|]. exact (control_store_stays_consistent sample_keys sample_url _ Ht).
Defined.
Lemma lease_is_exclusive_witness : held "m1" "w1" 2500 "r1" (sample_run claimed_db rival_ops).
Proof.
  refine (proj1 (lease_is_exclusive sample_keys sample_url setup_db rival_ops "r1" "w1" 2000 500 10 claimed_messages claimed_db
    first_message setup_ok rival_typed claimed_eq _ rival_respects)).
  rewrite claimed_first. apply list_elem_of_here.
Defined.
Lemma cursor_leaves_a_position_once_witness : ∃ n, cursor_at "r1" "shares" (sample_run positioned_db cursor_ops) = Some n ∧ 3 ≤ n.
Proof.
  exact (proj1 (cursor_leaves_a_position_once sample_keys sample_url setup_db cursor_ops "r1" "shares" None 3 "abc" 2000 _ positioned_db
    setup_ok cursor_ops_typed positioned_eq cursor_ops_keep)).
Defined.
Lemma epoch_fences_primary_witness : controller_epoch setup_db ≤ controller_epoch (sample_run setup_db rival_ops) ∧
  controller_epoch (sample_run setup_db rival_ops) = 2.
Proof.
  split; [exact (proj1 (epoch_fences_primary sample_keys sample_url setup_db rival_ops cursor_ops setup_ok rival_typed cursor_ops_typed))|].
  by vm_compute.
Defined.
Lemma due_messages_are_claimed_witness : ∃ db', claim_due_outbox "r1" "w1" 6000 500 10 setup_db =
  Ok (lease_row "w1" (6000 + 500) 6000 <$> take (Z.to_nat (Z.min 10 MAX_OUTBOX_CLAIM)) (due_messages "r1" 6000 setup_db), db').
Proof.
  refine (due_messages_are_claimed setup_db "r1" "w1" 6000 500 10 setup_ok setup_valid_router setup_valid_worker setup_router _ _ _ _ due_can_lease);
    [lia|lia|by apply Z.leb_le|lia].
Defined.
