(* ===== verification/KiroWire.v ===== *)
(** * The binary event stream of Kiro ([src/proxy/kiro/wire/])

    Frames with checksums, their typed headers, and the incremental decoder that turns chunks of bytes into frames.
    A byte is an [ascii], a slice of bytes a list of them; lengths and checksums are integers at their width. Every
    offset into a slice is below the length of a buffer, so the additions of [usize] do not overflow. *)
From S2P Require Import Prelude RustStr.
From Stdlib Require Import ZArith Lia Ascii.

Local Open Scope Z_scope.

(** ** Errors *)
(** proxy/kiro/wire/error.rs:4-50 [WireError] *)
Inductive WireError : Type :=
  | BufferOverflow (size max : Z)
  | FrameTooSmall (size : Z)
  | FrameTooLarge (size max : Z)
  | InvalidFrameLayout (total_length headers_length : Z)
  | PreludeCrcMismatch (expected actual : Z)
  | MessageCrcMismatch (expected actual : Z)
  | InvalidHeaderName
  | InvalidHeaderType (kind : Z)
  | InvalidHeaderValue (kind : string)
  | DuplicateHeader (name : string)
  | UnexpectedEof (buffered : Z)
  | RecoveryLimitExceeded (errors skipped : Z)
  | InvalidMessageType (value : string)
  | MissingEventType
  | InvalidEventPayload (event_type message : string)
  | Upstream (message_type : string) (error_code : option string) (message : string).
(** proxy/kiro/wire/error.rs:53-59 [code] *)
Definition wire_code (e : WireError) : string :=
  match e with
  | BufferOverflow _ _ | FrameTooLarge _ _ => "KIRO_EVENT_STREAM_LIMIT"
  | Upstream _ _ _ => "KIRO_UPSTREAM_STREAM_ERROR"
  | _ => "KIRO_EVENT_STREAM_INVALID"
  end.

(** ** Bytes *)
Definition len (l : bytes) : Z := Z.of_nat (length l).
(** [l[from..to]], where both are within the slice. *)
Definition slice (from to : Z) (l : bytes) : bytes := take (Z.to_nat (to - from)) (drop (Z.to_nat from) l).
(** [from_be_bytes] of an unsigned type, and of a signed one of [w] bits. *)
Definition from_be (l : bytes) : Z := foldl (λ n c, n * 256 + code c) 0 l.
Definition as_signed (w z : Z) : Z := if z <? 2 ^ (w - 1) then z else z - 2 ^ w.
(** proxy/kiro/wire/frame.rs:88-91 [crc32]: one bit of a byte; [wrapping_neg] of a [u32] *)
Definition crc_bit (crc : Z) : Z :=
  let mask := (- Z.land crc 1) mod 2 ^ 32 in
  Z.lxor (Z.shiftr crc 1) (Z.land 0xedb88320 mask).
(** proxy/kiro/wire/frame.rs:86-92 [crc32]: one byte *)
Definition crc_byte (crc : Z) (b : ascii) : Z := Nat.iter 8 crc_bit (Z.lxor crc (code b)).
(** proxy/kiro/wire/frame.rs:84-94 [crc32] *)
Definition crc32 (l : bytes) : Z := Z.lxor (foldl crc_byte 0xffffffff l) 0xffffffff.

(** ** Headers *)
(** proxy/kiro/wire/header.rs:6-16 [HeaderValue] *)
Inductive HeaderValue : Type :=
  | HBool (b : bool) | HByte (z : Z) | HShort (z : Z) | HInteger (z : Z) | HLong (z : Z)
  | HByteArray (l : bytes) | HString (s : string) | HTimestamp (z : Z) | HUuid (l : bytes).
(** proxy/kiro/wire/header.rs:36-36 [Headers] *)
Notation Headers := (gmap string HeaderValue).
(** proxy/kiro/wire/header.rs:19-24 [as_str] *)
Definition header_str (v : HeaderValue) : option string := match v with HString s => Some s | _ => None end.
(** proxy/kiro/wire/header.rs:43-45 [string] *)
Definition headers_string (h : Headers) (name : string) : option string := h !! name ≫= header_str.
(** proxy/kiro/wire/header.rs:47-49 [event_type] *)
Definition event_type_of (h : Headers) : option string := headers_string h ":event-type".
(** proxy/kiro/wire/header.rs:51-53 [message_type] *)
Definition message_type_of (h : Headers) : option string := headers_string h ":message-type".
(** proxy/kiro/wire/header.rs:55-57 [exception_type] *)
Definition exception_type_of (h : Headers) : option string := headers_string h ":exception-type".
(** proxy/kiro/wire/header.rs:59-61 [error_code] *)
Definition error_code_of (h : Headers) : option string := headers_string h ":error-code".

(** proxy/kiro/wire/header.rs:150-164 [take]: the slice and what follows it, in place of the offset *)
Definition take_bytes (n : Z) (kind : string) (l : bytes) : result WireError (bytes * bytes) :=
  if n <=? len l then Ok (take (Z.to_nat n) l, drop (Z.to_nat n) l) else Err (InvalidHeaderValue kind).
(** proxy/kiro/wire/header.rs:146-148 [take_u8] *)
Definition take_u8 (l : bytes) : result WireError (Z * bytes) :=
  '(b, l) ← take_bytes 1 "byte" l; Ok (from_be b, l).
(** proxy/kiro/wire/header.rs:91-138 [parse_headers]: the value of one header *)
Definition parse_value (kind : Z) (l : bytes) : result WireError (HeaderValue * bytes) :=
  let signed w what wrap := '(b, l) ← take_bytes (w / 8) what l; Ok (wrap (as_signed w (from_be b)), l) in
  match kind with
  | 0 => Ok (HBool true, l)
  | 1 => Ok (HBool false, l)
  | 2 => signed 8 "byte" HByte
  | 3 => signed 16 "short" HShort
  | 4 => signed 32 "integer" HInteger
  | 5 => signed 64 "long" HLong
  | 6 =>
      '(n, l) ← take_bytes 2 "byte array length" l;
      '(b, l) ← take_bytes (from_be n) "byte array" l;
      Ok (HByteArray b, l)
  | 7 =>
      '(n, l) ← take_bytes 2 "string length" l;
      '(b, l) ← take_bytes (from_be n) "string" l;
      s ← ok_or (InvalidHeaderValue "UTF-8 string") (from_utf8 b);
      Ok (HString s, l)
  | 8 => signed 64 "timestamp" HTimestamp
  | 9 => '(b, l) ← take_bytes 16 "UUID" l; Ok (HUuid b, l)
  | other => Err (InvalidHeaderType other)
  end.
(** proxy/kiro/wire/header.rs:82-138 [parse_headers]: one header *)
Definition parse_header (l : bytes) : result WireError (string * HeaderValue * bytes) :=
  '(name_length, l) ← take_u8 l;
  _ ← fail_if (name_length =? 0) InvalidHeaderName;
  '(name_bytes, l) ← take_bytes name_length "header name" l;
  name ← ok_or InvalidHeaderName (from_utf8 name_bytes);
  '(kind, l) ← take_u8 l;
  '(v, l) ← parse_value kind l;
  Ok (name, v, l).
(** proxy/kiro/wire/header.rs:81-142 [parse_headers]: the loop; every header takes at least two bytes, so the length
    of the slice is fuel enough *)
Fixpoint parse_headers_from (fuel : nat) (l : bytes) (headers : Headers) : result WireError Headers :=
  match l, fuel with
  | [], _ => Ok headers
  | _, O => Err InvalidHeaderName
  | _, S fuel =>
      '(name, v, l) ← parse_header l;
      _ ← fail_if (bool_decide (is_Some (headers !! name))) (DuplicateHeader name);
      parse_headers_from fuel l (<[name := v]> headers)
  end.
(** proxy/kiro/wire/header.rs:78-144 [parse_headers] *)
Definition parse_headers (l : bytes) : result WireError Headers := parse_headers_from (length l) l ∅.

(** ** Frames *)
(** proxy/kiro/wire/frame.rs:4-4 [PRELUDE_LENGTH] *)
Definition PRELUDE_LENGTH : Z := 12.
(** proxy/kiro/wire/frame.rs:5-5 [MIN_FRAME_LENGTH] *)
Definition MIN_FRAME_LENGTH : Z := PRELUDE_LENGTH + 4.
(** proxy/kiro/wire/frame.rs:6-6 [DEFAULT_MAX_FRAME_LENGTH] *)
Definition DEFAULT_MAX_FRAME_LENGTH : Z := 16 * 1024 * 1024.
(** proxy/kiro/wire/frame.rs:9-12 [Frame] *)
Record Frame := mk_frame { f_headers : Headers; f_payload : bytes }.
(** proxy/kiro/wire/frame.rs:22-25 [ParseOutcome] *)
Inductive ParseOutcome : Type := Incomplete | Complete (frame : Frame) (consumed : Z).
(** proxy/kiro/wire/frame.rs:27-82 [parse_frame] *)
Definition parse_frame (buffer : bytes) (max_frame_length : Z) : result WireError ParseOutcome :=
  if len buffer <? PRELUDE_LENGTH then Ok Incomplete else
  let total_length := from_be (slice 0 4 buffer) in
  let headers_length := from_be (slice 4 8 buffer) in
  _ ← fail_if (total_length <? MIN_FRAME_LENGTH) (FrameTooSmall total_length);
  _ ← fail_if (max_frame_length <? total_length) (FrameTooLarge total_length max_frame_length);
  _ ← fail_if (total_length - MIN_FRAME_LENGTH <? headers_length) (InvalidFrameLayout total_length headers_length);
  let expected_prelude_crc := from_be (slice 8 12 buffer) in
  let actual_prelude_crc := crc32 (slice 0 8 buffer) in
  _ ← fail_if (negb (expected_prelude_crc =? actual_prelude_crc))
        (PreludeCrcMismatch expected_prelude_crc actual_prelude_crc);
  if len buffer <? total_length then Ok Incomplete else
  let expected_message_crc := from_be (slice (total_length - 4) total_length buffer) in
  let actual_message_crc := crc32 (slice 0 (total_length - 4) buffer) in
  _ ← fail_if (negb (expected_message_crc =? actual_message_crc))
        (MessageCrcMismatch expected_message_crc actual_message_crc);
  let headers_end := PRELUDE_LENGTH + headers_length in
  headers ← parse_headers (slice PRELUDE_LENGTH headers_end buffer);
  Ok (Complete (mk_frame headers (slice headers_end (total_length - 4) buffer)) total_length).

(** ** The decoder *)
(** proxy/kiro/wire/decoder.rs:6-6 [DEFAULT_MAX_BUFFER_LENGTH] *)
Definition DEFAULT_MAX_BUFFER_LENGTH : Z := 16 * 1024 * 1024 + 12.
(** proxy/kiro/wire/decoder.rs:9-12 [RecoveryPolicy] *)
Record RecoveryPolicy := mk_policy { max_errors : Z; max_skipped_bytes : Z }.
#[global] Instance RecoveryPolicy_eq_dec : EqDecision RecoveryPolicy.
Proof. solve_decision. Defined.
(** proxy/kiro/wire/decoder.rs:15-18 [STRICT] *)
Definition STRICT : RecoveryPolicy := mk_policy 0 0.
(** proxy/kiro/wire/decoder.rs:30-38 [EventStreamDecoder] *)
Record EventStreamDecoder := mk_decoder {
  buffer : bytes; max_buffer_length : Z; max_frame_length : Z; recovery : RecoveryPolicy;
  errors : Z; skipped : Z; failed : option WireError;
}.
(** proxy/kiro/wire/decoder.rs:51-61 [with_policy] *)
Definition with_policy (recovery : RecoveryPolicy) : EventStreamDecoder :=
  mk_decoder [] DEFAULT_MAX_BUFFER_LENGTH DEFAULT_MAX_FRAME_LENGTH recovery 0 0 None.
(** proxy/kiro/wire/decoder.rs:47-49 [strict] *)
Definition strict : EventStreamDecoder := with_policy STRICT.
Definition set_buffer (b : bytes) (d : EventStreamDecoder) : EventStreamDecoder :=
  mk_decoder b (max_buffer_length d) (max_frame_length d) (recovery d) (errors d) (skipped d) (failed d).
Definition set_counts (e s : Z) (d : EventStreamDecoder) : EventStreamDecoder :=
  mk_decoder (buffer d) (max_buffer_length d) (max_frame_length d) (recovery d) e s (failed d).
(** proxy/kiro/wire/decoder.rs:133-136 [fail] *)
Definition fail {A} (d : EventStreamDecoder) (e : WireError) : EventStreamDecoder * result WireError A :=
  (mk_decoder (buffer d) (max_buffer_length d) (max_frame_length d) (recovery d) (errors d) (skipped d) (Some e), Err e).
(** proxy/kiro/wire/decoder.rs:105-130 [drain]: the loop; every turn shortens the buffer, so its length is fuel enough *)
Fixpoint drain_from (fuel : nat) (d : EventStreamDecoder) (frames : list Frame) :
    EventStreamDecoder * result WireError (list Frame) :=
  match fuel with
  | O => (d, Ok frames)
  | S fuel =>
      match parse_frame (buffer d) (max_frame_length d) with
      | Ok Incomplete => (d, Ok frames)
      | Ok (Complete frame consumed) =>
          drain_from fuel (set_counts 0 (skipped d) (set_buffer (drop (Z.to_nat consumed) (buffer d)) d)) (frames ++ [frame])
      | Err error =>
          if bool_decide (recovery d = STRICT) then fail d error
          else
            let d := set_counts (sat_usize (errors d + 1)) (skipped d) d in
            if (max_errors (recovery d) <? errors d) || (max_skipped_bytes (recovery d) <=? skipped d)
            then fail d (RecoveryLimitExceeded (errors d) (skipped d))
            else drain_from fuel (set_counts (errors d) (sat_usize (skipped d + 1)) (set_buffer (drop 1 (buffer d)) d)) frames
      end
  end.
(** proxy/kiro/wire/decoder.rs:103-131 [drain] *)
Definition drain (d : EventStreamDecoder) : EventStreamDecoder * result WireError (list Frame) :=
  drain_from (S (length (buffer d))) d [].
(** proxy/kiro/wire/decoder.rs:69-81 [feed]: the loop; every turn takes at least one byte *)
Fixpoint feed_from (fuel : nat) (d : EventStreamDecoder) (remaining : bytes) (frames : list Frame) :
    EventStreamDecoder * result WireError (list Frame) :=
  match remaining, fuel with
  | [], _ => (d, Ok frames)
  | _, O => (d, Ok frames)
  | _, S fuel =>
      let room := Z.max 0 (max_buffer_length d - len (buffer d)) in
      if room =? 0 then
        fail d (BufferOverflow (sat_usize (len (buffer d) + len remaining)) (max_buffer_length d))
      else
        let n := Z.to_nat (Z.min (len remaining) room) in
        match drain (set_buffer (buffer d ++ take n remaining) d) with
        | (d, Ok more) => feed_from fuel d (drop n remaining) (frames ++ more)
        | (d, Err error) => (d, Err error)
        end
  end.
(** proxy/kiro/wire/decoder.rs:63-83 [feed] *)
Definition feed (d : EventStreamDecoder) (chunk : bytes) : EventStreamDecoder * result WireError (list Frame) :=
  match failed d with
  | Some error => (d, Err error)
  | None =>
      match drain d with
      | (d, Ok frames) => feed_from (length chunk) d chunk frames
      | (d, Err error) => (d, Err error)
      end
  end.
(** proxy/kiro/wire/decoder.rs:85-97 [finish] *)
Definition finish (d : EventStreamDecoder) : EventStreamDecoder * result WireError (list Frame) :=
  match failed d with
  | Some error => (d, Err error)
  | None =>
      match drain d with
      | (d, Ok frames) =>
          if bool_decide (buffer d = []) then (d, Ok frames) else fail d (UnexpectedEof (len (buffer d)))
      | (d, Err error) => (d, Err error)
      end
  end.
