(* ===== verification/KiroStream.v ===== *)
(** * Chunks of the event stream of Kiro

    The frames of a stream of bytes as a relation, and the decoder refining it: however the bytes are cut into
    chunks, the strict decoder returns the frames of the stream, or fails with its first error and stays failed. *)
From S2P Require Import Prelude RustStr KiroWire.
From Stdlib Require Import ZArith Lia Ascii.

Local Open Scope Z_scope.

(** ** Slices *)
Lemma len_nonneg l : 0 ≤ len l.
Proof. unfold len. lia. Qed.
Lemma len_app l k : len (l ++ k) = len l + len k.
Proof. unfold len. rewrite length_app. lia. Qed.
Lemma len_drop n l : 0 ≤ n ≤ len l → len (drop (Z.to_nat n) l) = len l - n.
Proof. unfold len. rewrite length_drop. lia. Qed.
Lemma len_slice a b l : 0 ≤ a ≤ b → b ≤ len l → len (slice a b l) = b - a.
Proof. unfold slice, len. intros. rewrite length_take, length_drop. lia. Qed.
Lemma slice_app a b l k : 0 ≤ a ≤ b → b ≤ len l → slice a b (l ++ k) = slice a b l.
Proof.
  unfold slice, len. intros. rewrite drop_app_le by lia. rewrite take_app_le; [done|]. rewrite length_drop. lia.
Qed.

Lemma from_be_acc l n : foldl (λ n c, n * 256 + code c) n l = n * 256 ^ len l + from_be l.
Proof.
  unfold from_be, len. revert n. induction l as [|c l IH] using rev_ind; intros n; [simpl; lia|].
  rewrite !foldl_app, IH. cbn [foldl]. rewrite length_app. cbn [length].
  rewrite Nat2Z.inj_add, Z.pow_add_r by lia. change (Z.of_nat 1) with 1. lia.
Qed.
Lemma code_range c : 0 ≤ code c < 256.
Proof. unfold code. pose proof (N_ascii_bounded c). lia. Qed.
Lemma from_be_range l : 0 ≤ from_be l < 256 ^ len l.
Proof.
  unfold len. induction l as [|c l IH]; [done|]. unfold from_be. cbn [foldl]. rewrite from_be_acc. unfold len.
  pose proof (code_range c). cbn [length]. rewrite Nat2Z.inj_succ, Z.pow_succ_r by lia. nia.
Qed.
Lemma from_be_nonneg l : 0 ≤ from_be l.
Proof. apply from_be_range. Qed.

(** ** Frames of a buffer that grows *)
Lemma parse_frame_Complete l max f n : parse_frame l max = Ok (Complete f n) → MIN_FRAME_LENGTH ≤ n ≤ max ∧ n ≤ len l.
Proof.
  unfold parse_frame. destruct (Z.ltb_spec (len l) PRELUDE_LENGTH); [done|]. cbn zeta.
  intros (? & H1%fail_if_Ok%Z.ltb_ge & Hp)%bind_Ok. apply bind_Ok in Hp as (? & H2%fail_if_Ok%Z.ltb_ge & Hp).
  apply bind_Ok in Hp as (? & _ & Hp). apply bind_Ok in Hp as (? & _ & Hp).
  destruct (Z.ltb_spec (len l) (from_be (slice 0 4 l))); [done|]. apply bind_Ok in Hp as (? & _ & Hp).
  apply bind_Ok in Hp as (h & _ & [= _ <-]). lia.
Qed.
Lemma parse_frame_Incomplete l max : parse_frame l max = Ok Incomplete → len l < Z.max PRELUDE_LENGTH max.
Proof.
  unfold parse_frame. destruct (Z.ltb_spec (len l) PRELUDE_LENGTH); [lia|]. cbn zeta.
  intros (? & _ & Hp)%bind_Ok. apply bind_Ok in Hp as (? & H2%fail_if_Ok%Z.ltb_ge & Hp).
  apply bind_Ok in Hp as (? & _ & Hp). apply bind_Ok in Hp as (? & _ & Hp).
  destruct (Z.ltb_spec (len l) (from_be (slice 0 4 l))); [lia|]. apply bind_Ok in Hp as (? & _ & Hp).
  by apply bind_Ok in Hp as (h & _ & [=]).
Qed.
(** Once a buffer decides, more bytes do not change its answer. *)
Lemma parse_frame_app l k max : parse_frame l max ≠ Ok Incomplete → parse_frame (l ++ k) max = parse_frame l max.
Proof.
  intros Hd. unfold parse_frame in *. pose proof (len_nonneg k). rewrite len_app.
  destruct (Z.ltb_spec (len l) PRELUDE_LENGTH); [done|].
  change MIN_FRAME_LENGTH with 16 in *. change PRELUDE_LENGTH with 12 in *.
  rewrite (proj2 (Z.ltb_ge (len l + len k) 12)) by lia.
  rewrite !(slice_app 0 4 l k), (slice_app 4 8 l k), (slice_app 8 12 l k), (slice_app 0 8 l k) by lia. cbn zeta in *.
  set (total := from_be (slice 0 4 l)) in *. set (hlen := from_be (slice 4 8 l)) in *.
  destruct (Z.ltb_spec total 16); [done|]. cbn [fail_if mbind result_bind] in *.
  destruct (max <? total); [done|]. cbn [fail_if mbind result_bind] in *.
  destruct (Z.ltb_spec (total - 16) hlen); [done|]. cbn [fail_if mbind result_bind] in *.
  destruct (negb (from_be (slice 8 12 l) =? _)); [done|]. cbn [fail_if mbind result_bind] in *.
  destruct (Z.ltb_spec (len l) total); [done|]. rewrite (proj2 (Z.ltb_ge (len l + len k) total)) by lia.
  assert (0 ≤ hlen) by apply from_be_nonneg.
  by rewrite !slice_app by lia.
Qed.

(** ** The frames of a stream *)
(** [stream max l frames o]: the bytes [l] start with [frames], and then come the bytes of an unfinished frame
    ([inl]) or an error ([inr]). *)
Inductive stream (max : Z) : bytes → list Frame → bytes + WireError → Prop :=
  | stream_rest l : parse_frame l max = Ok Incomplete → stream max l [] (inl l)
  | stream_error l e : parse_frame l max = Err e → stream max l [] (inr e)
  | stream_frame l f n frames o : parse_frame l max = Ok (Complete f n) →
      stream max (drop (Z.to_nat n) l) frames o → stream max l (f :: frames) o.

Lemma stream_total max l : ∃ frames o, stream max l frames o.
Proof.
  induction l as [l IH] using (induction_ltof1 _ (λ l, length l)). unfold ltof in IH.
  destruct (parse_frame l max) as [[|f n]|e] eqn:E.
  - eexists _, _. by apply stream_rest.
  - pose proof (parse_frame_Complete _ _ _ _ E) as [Hn Hl]. unfold MIN_FRAME_LENGTH, PRELUDE_LENGTH, len in *.
    destruct (IH (drop (Z.to_nat n) l)) as (frames & o & Ho); [rewrite length_drop; lia|].
    exists (f :: frames), o. by eapply stream_frame.
  - eexists _, _. by apply stream_error.
Qed.
Lemma stream_det max l frames o frames' o' : stream max l frames o → stream max l frames' o' → frames = frames' ∧ o = o'.
Proof.
  intros Hs. revert frames' o'. induction Hs as [l Hp|l e Hp|l f n frames o Hp Hs IH]; intros frames' o' Hs';
    inversion Hs'; simplify_eq; try done; rewrite Hp in *; simplify_eq; try done.
  destruct (IH frames0 o') as [-> ->]; [|done]. congruence.
Qed.
Lemma stream_app max l frames rest k frames' o : stream max l frames (inl rest) → stream max (rest ++ k) frames' o →
  stream max (l ++ k) (frames ++ frames') o.
Proof.
  remember (inl rest) as r eqn:Hr. intros Hs. revert Hr. induction Hs as [l Hp|l e Hp|l f n frames o' Hp Hs IH]; intros Hr Hk; simplify_eq.
  - done.
  - pose proof (parse_frame_Complete _ _ _ _ Hp) as [_ Hl]. simpl. apply (stream_frame _ _ _ n).
    + rewrite parse_frame_app; [done|by rewrite Hp].
    + unfold len in Hl. rewrite drop_app_le by lia. by apply IH.
Qed.
Lemma stream_app_error max l frames e k : stream max l frames (inr e) → stream max (l ++ k) frames (inr e).
Proof.
  remember (inr e) as r eqn:Hr. intros Hs. revert Hr. induction Hs as [l Hp|l e' Hp|l f n frames o' Hp Hs IH]; intros Hr; simplify_eq.
  - apply stream_error. rewrite parse_frame_app; [done|by rewrite Hp].
  - pose proof (parse_frame_Complete _ _ _ _ Hp) as [_ Hl]. apply (stream_frame _ _ _ n).
    + rewrite parse_frame_app; [done|by rewrite Hp].
    + unfold len in Hl. rewrite drop_app_le by lia. by apply IH.
Qed.
Lemma stream_resting max l frames rest : stream max l frames (inl rest) → parse_frame rest max = Ok Incomplete.
Proof. remember (inl rest) as r eqn:Hr. intros Hs. revert Hr. induction Hs; intros; simplify_eq; auto. Qed.

(** ** The strict decoder *)
(** The strict decoder between two chunks: only its buffer matters. *)
Definition holding (l : bytes) : EventStreamDecoder := set_buffer l strict.
Notation stream_of := (stream DEFAULT_MAX_FRAME_LENGTH).
Definition resting (l : bytes) : Prop := parse_frame l DEFAULT_MAX_FRAME_LENGTH = Ok Incomplete.
(** What one call answers on a stream: the frames, with the rest kept, or the error, kept too. *)
Definition answers (r : EventStreamDecoder * result WireError (list Frame)) (frames : list Frame) (o : bytes + WireError) : Prop :=
  match o with
  | inl rest => r = (holding rest, Ok frames)
  | inr e => r.2 = Err e ∧ failed r.1 = Some e
  end.

Lemma drain_from_answers fuel l frames o acc : stream_of l frames o → (length l < fuel)%nat →
  answers (drain_from fuel (holding l) acc) (acc ++ frames) o.
Proof.
  intros Hs. revert fuel acc. induction Hs as [l Hp|l e Hp|l f n frames o Hp Hs IH]; intros fuel acc Hf;
    (destruct fuel as [|fuel]; [lia|]); cbn [drain_from buffer max_frame_length holding set_buffer strict with_policy];
    rewrite Hp.
  - by rewrite app_nil_r.
  - by rewrite bool_decide_true.
  - apply parse_frame_Complete in Hp as [Hn Hl]. replace (acc ++ f :: frames) with ((acc ++ [f]) ++ frames) by (by rewrite <-app_assoc).
    apply IH.
    rewrite length_drop. unfold MIN_FRAME_LENGTH, PRELUDE_LENGTH, len in *. lia.
Qed.
Lemma drain_answers l frames o : stream_of l frames o → answers (drain (holding l)) frames o.
Proof. intros Hs. apply (drain_from_answers _ _ _ _ [] Hs). cbn. lia. Qed.
Lemma resting_room l : resting l → len l < DEFAULT_MAX_BUFFER_LENGTH.
Proof. intros Hr%parse_frame_Incomplete. unfold DEFAULT_MAX_BUFFER_LENGTH, DEFAULT_MAX_FRAME_LENGTH, PRELUDE_LENGTH in *. lia. Qed.
Lemma feed_from_answers fuel l remaining frames o acc : resting l → stream_of (l ++ remaining) frames o →
  (length remaining ≤ fuel)%nat → answers (feed_from fuel (holding l) remaining acc) (acc ++ frames) o.
Proof.
  revert l remaining frames acc. induction fuel as [|fuel IH]; intros l remaining frames acc Hr Hs Hf.
  { destruct remaining; [|simpl in Hf; lia]. rewrite app_nil_r in Hs.
    destruct (stream_det _ _ _ _ _ _ Hs (stream_rest _ l Hr)) as [-> ->]. by rewrite app_nil_r. }
  destruct remaining as [|b remaining].
  { rewrite app_nil_r in Hs. destruct (stream_det _ _ _ _ _ _ Hs (stream_rest _ l Hr)) as [-> ->]. by rewrite app_nil_r. }
  pose proof (resting_room l Hr). cbn [feed_from buffer max_buffer_length holding set_buffer strict with_policy].
  set (chunk := b :: remaining) in *. set (room := Z.max 0 _). rewrite (proj2 (Z.eqb_neq room 0)) by lia.
  set (n := Z.to_nat _). assert (0 < n ≤ length chunk)%nat as Hn by (unfold n, len; cbn [length chunk]; lia).
  change (set_buffer (l ++ take n chunk) _) with (holding (l ++ take n chunk)).
  destruct (stream_total DEFAULT_MAX_FRAME_LENGTH (l ++ take n chunk)) as (now & o' & Hnow).
  rewrite <-(take_drop n chunk), app_assoc in Hs. pose proof (drain_answers _ _ _ Hnow) as Ha. destruct o' as [rest|e].
  - cbn [answers] in Ha. rewrite Ha.
    destruct (stream_total DEFAULT_MAX_FRAME_LENGTH (rest ++ drop n chunk)) as (later & o' & Hlater).
    destruct (stream_det _ _ _ _ _ _ Hs (stream_app _ _ _ _ _ _ _ Hnow Hlater)) as [-> ->]. rewrite app_assoc.
    apply IH; [by eapply stream_resting|done|]. rewrite length_drop. lia.
  - destruct (stream_det _ _ _ _ _ _ Hs (stream_app_error _ _ _ _ (drop n chunk) Hnow)) as [-> ->].
    cbn [answers] in Ha. destruct (drain _) as [d [|]]; destruct Ha; simpl in *; [done|by simplify_eq].
Qed.
Lemma feed_answers l chunk frames o : resting l → stream_of (l ++ chunk) frames o →
  answers (feed (holding l) chunk) frames o.
Proof.
  intros Hr Hs. unfold feed. cbn [failed holding set_buffer strict with_policy].
  pose proof (drain_answers l [] (inl l) (stream_rest _ l Hr)) as Ha. cbn [answers] in Ha. fold strict (holding l). rewrite Ha.
  apply (feed_from_answers _ _ _ _ _ [] Hr Hs). lia.
Qed.
Lemma feed_failed d e chunk : failed d = Some e → feed d chunk = (d, Err e) ∧ finish d = (d, Err e).
Proof. intros Hf. unfold feed, finish. by rewrite Hf. Qed.

(** ** Several chunks *)
(** The calls of a reader, until one fails. *)
Fixpoint feed_all (d : EventStreamDecoder) (chunks : list bytes) : EventStreamDecoder * result WireError (list Frame) :=
  match chunks with
  | [] => (d, Ok [])
  | chunk :: chunks =>
      match feed d chunk with
      | (d, Ok frames) =>
          match feed_all d chunks with
          | (d, Ok more) => (d, Ok (frames ++ more))
          | (d, Err e) => (d, Err e)
          end
      | (d, Err e) => (d, Err e)
      end
  end.
Lemma feed_all_answers l chunks frames o : resting l → stream_of (l ++ concat chunks) frames o →
  answers (feed_all (holding l) chunks) frames o.
Proof.
  revert l frames. induction chunks as [|chunk chunks IH]; intros l frames Hr Hs; cbn [feed_all concat] in *.
  { rewrite app_nil_r in Hs. by destruct (stream_det _ _ _ _ _ _ Hs (stream_rest _ l Hr)) as [-> ->]. }
  destruct (stream_total DEFAULT_MAX_FRAME_LENGTH (l ++ chunk)) as (now & o' & Hnow).
  pose proof (feed_answers l chunk _ _ Hr Hnow) as Ha. rewrite app_assoc in Hs. destruct o' as [rest|e].
  - cbn [answers] in Ha. rewrite Ha.
    destruct (stream_total DEFAULT_MAX_FRAME_LENGTH (rest ++ concat chunks)) as (later & o' & Hlater).
    destruct (stream_det _ _ _ _ _ _ Hs (stream_app _ _ _ _ _ _ _ Hnow Hlater)) as [-> ->].
    specialize (IH rest later (stream_resting _ _ _ _ Hnow) Hlater).
    destruct (feed_all (holding rest) chunks) as [d [more|e]], o' as [rest'|e']; simpl in *; naive_solver.
  - destruct (stream_det _ _ _ _ _ _ Hs (stream_app_error _ _ _ _ (concat chunks) Hnow)) as [-> ->].
    cbn [answers] in Ha. destruct (feed _ _) as [d [|]]; destruct Ha; simpl in *; [done|by simplify_eq].
Qed.
Lemma resting_nil : resting [].
Proof. done. Qed.
Lemma finish_resting l : resting l → (finish (holding l)).2 = if bool_decide (l = []) then Ok [] else Err (UnexpectedEof (len l)).
Proof.
  intros Hr. unfold finish. cbn [failed holding set_buffer strict with_policy].
  pose proof (drain_answers l [] (inl l) (stream_rest _ l Hr)) as Ha. cbn [answers] in Ha. fold strict (holding l). rewrite Ha. cbn.
  by case_bool_decide.
Qed.

(** ** Properties *)
(** C36: however a stream of bytes is cut into chunks, the strict decoder behaves as if it had read the whole stream: it
    returns exactly the frames at its start, in order, and keeps the bytes of the unfinished frame, so that the end
    of the stream is accepted just when none are left; or it fails with the first error of the stream, and every
    later call fails with that error. The buffer limit is never reached. *)
Theorem chunks_do_not_matter chunks frames o : stream_of (concat chunks) frames o →
  match o with
  | inl rest => ∃ d, feed_all strict chunks = (d, Ok frames) ∧ buffer d = rest ∧
      (finish d).2 = if bool_decide (rest = []) then Ok [] else Err (UnexpectedEof (len rest))
  | inr e => ∃ d, feed_all strict chunks = (d, Err e) ∧ ∀ chunk, feed d chunk = (d, Err e) ∧ finish d = (d, Err e)
  end.
Proof.
  intros Hs. pose proof (feed_all_answers [] chunks frames o resting_nil Hs) as Ha. change (holding []) with strict in Ha.
  destruct o as [rest|e]; cbn [answers] in Ha.
  - exists (holding rest). split; [done|]. split; [done|]. by eapply finish_resting, stream_resting.
  - destruct (feed_all strict chunks) as [d [|e']]; simpl in *; [by destruct Ha|]. destruct Ha as [[= ->] Hf].
    exists d. split; [done|]. intros chunk. by apply feed_failed.
Qed.
