(* ===== verification/KiroCrc.v ===== *)
(** * The checksums of the event stream of Kiro

    What a complete frame satisfies, the injectivity of one step of the checksum, and the corruption of one byte. *)
From S2P Require Import Prelude RustStr KiroWire KiroStream.
From Stdlib Require Import ZArith Lia Ascii.

Local Open Scope Z_scope.

(** ** Words of 32 bits *)
Definition u32 (z : Z) : Prop := 0 ≤ z < 2 ^ 32.
Lemma u32_bits z : 0 ≤ z → (∀ i, 32 ≤ i → Z.testbit z i = false) → u32 z.
Proof.
  intros Hz Hb. split; [done|]. destruct (Z.lt_ge_cases z (2 ^ 32)) as [|Hge]; [done|].
  assert (0 < z) by lia. pose proof (Hb (Z.log2 z)) as Hl. rewrite Z.bit_log2 in Hl by done.
  assert (32 ≤ Z.log2 z); [|specialize (Hl ltac:(done)); done].
  apply Z.log2_le_pow2; lia.
Qed.
Lemma u32_high z i : u32 z → 32 ≤ i → Z.testbit z i = false.
Proof.
  intros [H0 Hz] Hi. destruct (Z.eq_dec z 0) as [->|]; [by rewrite Z.bits_0|].
  apply Z.bits_above_log2; [done|]. assert (Z.log2 z < 32); [|lia]. apply Z.log2_lt_pow2; lia.
Qed.
Lemma u32_lxor a b : u32 a → u32 b → u32 (Z.lxor a b).
Proof.
  intros Ha Hb. apply u32_bits; [apply Z.lxor_nonneg; destruct Ha, Hb; lia|].
  intros i Hi. by rewrite Z.lxor_spec, (u32_high a i Ha Hi), (u32_high b i Hb Hi).
Qed.
Lemma lxor_inj a b c : Z.lxor a c = Z.lxor b c → a = b.
Proof. intros H. rewrite <-(Z.lxor_0_r a), <-(Z.lxor_0_r b), <-(Z.lxor_nilpotent c), <-!Z.lxor_assoc. by rewrite H. Qed.

(** ** One step *)
Definition crc_poly : Z := 0xedb88320.
Lemma crc_bit_odd c : crc_bit c = Z.lxor (Z.div2 c) (if Z.odd c then crc_poly else 0).
Proof.
  unfold crc_bit. cbn zeta. rewrite <-Z.div2_spec. f_equal. change 1 with (Z.ones 1). rewrite Z.land_ones by done.
  change (2 ^ 1) with 2. rewrite Zmod_odd. by destruct (Z.odd c).
Qed.
Lemma crc_bit_u32 c : u32 c → u32 (crc_bit c).
Proof.
  intros Hc. rewrite crc_bit_odd. apply u32_lxor.
  - pose proof (Z.div2_odd c). unfold u32 in *. destruct (Z.odd c); simpl in *; lia.
  - by destruct (Z.odd c).
Qed.
(** The top bit of the result is the bit that was shifted out. *)
Lemma crc_bit_top c : u32 c → Z.testbit (crc_bit c) 31 = Z.odd c.
Proof.
  intros Hc. rewrite crc_bit_odd, Z.lxor_spec, Z.div2_spec, Z.shiftr_spec by lia.
  rewrite (u32_high c) by (done || lia). by destruct (Z.odd c).
Qed.
Lemma crc_bit_inj a b : u32 a → u32 b → crc_bit a = crc_bit b → a = b.
Proof.
  intros Ha Hb H. assert (Z.odd a = Z.odd b) as Hodd by (by rewrite <-!crc_bit_top, H).
  rewrite !crc_bit_odd, Hodd in H. apply lxor_inj in H.
  rewrite (Z.div2_odd a), (Z.div2_odd b). by rewrite H, Hodd.
Qed.
Lemma crc_bits n a : u32 a → u32 (Nat.iter n crc_bit a).
Proof. intros Ha. induction n as [|n IH]; [done|]. by apply crc_bit_u32. Qed.
Lemma crc_bits_inj n a b : u32 a → u32 b → Nat.iter n crc_bit a = Nat.iter n crc_bit b → a = b.
Proof.
  intros Ha Hb. induction n as [|n IH]; [done|]. intros H. apply IH. apply crc_bit_inj; [by apply crc_bits..|done].
Qed.
Lemma code_u32 c : u32 (code c).
Proof. pose proof (code_range c). unfold u32. lia. Qed.
Lemma crc_byte_u32 a c : u32 a → u32 (crc_byte a c).
Proof. intros Ha. apply crc_bits, u32_lxor; [done|apply code_u32]. Qed.
Lemma crc_byte_state a b c : u32 a → u32 b → crc_byte a c = crc_byte b c → a = b.
Proof.
  intros Ha Hb H%crc_bits_inj; [by eapply lxor_inj|apply u32_lxor; [done|apply code_u32]..].
Qed.
Lemma crc_byte_byte a c d : u32 a → crc_byte a c = crc_byte a d → c = d.
Proof.
  intros Ha H%crc_bits_inj; [|apply u32_lxor; [done|apply code_u32]..].
  rewrite !(Z.lxor_comm a) in H. apply lxor_inj in H. unfold code in H.
  rewrite <-(ascii_N_embedding c), <-(ascii_N_embedding d). f_equal. lia.
Qed.
Lemma crc_fold_u32 l a : u32 a → u32 (foldl crc_byte a l).
Proof. revert a. induction l as [|c l IH]; intros a Ha; [done|]. apply IH. by apply crc_byte_u32. Qed.
Lemma crc_fold_state l a b : u32 a → u32 b → foldl crc_byte a l = foldl crc_byte b l → a = b.
Proof.
  revert a b. induction l as [|c l IH]; intros a b Ha Hb H; [done|]. apply (crc_byte_state a b c Ha Hb).
  by apply IH; [apply crc_byte_u32..|].
Qed.
Lemma crc32_u32 l : u32 (crc32 l).
Proof. apply u32_lxor; [by apply crc_fold_u32|done]. Qed.
Lemma crc32_byte l k c d : c ≠ d → crc32 (l ++ c :: k) ≠ crc32 (l ++ d :: k).
Proof.
  intros Hcd H. apply lxor_inj in H. rewrite !foldl_app in H. cbn [foldl] in H.
  assert (u32 (foldl crc_byte 4294967295 l)) as Hl by (by apply crc_fold_u32).
  apply crc_fold_state in H; [|by apply crc_byte_u32..]. by apply crc_byte_byte in H.
Qed.
Lemma from_be_byte l k c d : c ≠ d → from_be (l ++ c :: k) ≠ from_be (l ++ d :: k).
Proof.
  intros Hcd H. unfold from_be in H. rewrite !foldl_app in H. cbn [foldl] in H. rewrite !(from_be_acc k) in H.
  assert (code c = code d) as Hc.
  { assert (0 < 256 ^ len k) by (apply Z.pow_pos_nonneg; unfold len; lia). nia. }
  apply Hcd. unfold code in Hc. rewrite <-(ascii_N_embedding c), <-(ascii_N_embedding d). f_equal. lia.
Qed.

(** ** What a complete frame satisfies *)
Record frame_checks (l : bytes) (max : Z) (f : Frame) (n h : Z) : Prop := {
  fc_total : from_be (slice 0 4 l) = n; fc_headers : from_be (slice 4 8 l) = h;
  fc_range : MIN_FRAME_LENGTH ≤ n ≤ max; fc_len : n ≤ len l; fc_layout : h ≤ n - MIN_FRAME_LENGTH;
  fc_prelude : from_be (slice 8 12 l) = crc32 (slice 0 8 l);
  fc_message : from_be (slice (n - 4) n l) = crc32 (slice 0 (n - 4) l);
  fc_parse : parse_headers (slice PRELUDE_LENGTH (PRELUDE_LENGTH + h) l) = Ok (f_headers f);
  fc_payload : f_payload f = slice (PRELUDE_LENGTH + h) (n - 4) l;
}.
Lemma frame_checks_Complete l max f n h : frame_checks l max f n h → parse_frame l max = Ok (Complete f n).
Proof.
  intros [<- <- ? ? ? Hp Hm Hh Hb]. unfold MIN_FRAME_LENGTH, PRELUDE_LENGTH in *. unfold parse_frame, MIN_FRAME_LENGTH, PRELUDE_LENGTH.
  rewrite (proj2 (Z.ltb_ge (len l) 12)) by lia. cbn zeta. rewrite !(proj2 (Z.ltb_ge _ _)) by lia.
  cbn [fail_if mbind result_bind]. rewrite Hp, Z.eqb_refl. cbn [negb fail_if mbind result_bind].
  rewrite Hm, Z.eqb_refl. cbn [negb fail_if mbind result_bind].
  rewrite Hh. cbn [mbind result_bind]. rewrite <-Hb. by destruct f.
Qed.
Lemma Complete_checks l max f n : parse_frame l max = Ok (Complete f n) → ∃ h, frame_checks l max f n h.
Proof.
  unfold parse_frame. destruct (Z.ltb_spec (len l) PRELUDE_LENGTH); [done|]. cbn zeta.
  intros (? & H1%fail_if_Ok%Z.ltb_ge & Hp)%bind_Ok. apply bind_Ok in Hp as (? & H2%fail_if_Ok%Z.ltb_ge & Hp).
  apply bind_Ok in Hp as (? & H3%fail_if_Ok%Z.ltb_ge & Hp).
  apply bind_Ok in Hp as (? & H4%fail_if_Ok%negb_false_iff%Z.eqb_eq & Hp).
  destruct (Z.ltb_spec (len l) (from_be (slice 0 4 l))); [done|].
  apply bind_Ok in Hp as (? & H5%fail_if_Ok%negb_false_iff%Z.eqb_eq & Hp).
  apply bind_Ok in Hp as (hs & H6 & [= <- <-]). exists (from_be (slice 4 8 l)). by split.
Qed.

(** ** One corrupted byte *)
Lemma slice_around a b p k : 0 ≤ a ≤ len p → len p < b ≤ len p + 1 + len k →
  ∃ p' k', ∀ c, slice a b (p ++ c :: k) = p' ++ c :: k'.
Proof.
  intros Ha Hb. exists (drop (Z.to_nat a) p), (take (Z.to_nat (b - a) - S (length p - Z.to_nat a)) k). intros c.
  unfold slice, len in *. rewrite drop_app_le by lia. rewrite take_app_ge by (rewrite length_drop; lia).
  f_equal. rewrite length_drop. replace (Z.to_nat (b - a) - (length p - Z.to_nat a))%nat
    with (S (Z.to_nat (b - a) - S (length p - Z.to_nat a))) by lia. done.
Qed.
Lemma slice_before a b p k c d : 0 ≤ a ≤ b → b ≤ len p → slice a b (p ++ c :: k) = slice a b (p ++ d :: k).
Proof. intros. by rewrite !slice_app. Qed.
Lemma slice_after a b p k c d : len p < a → slice a b (p ++ c :: k) = slice a b (p ++ d :: k).
Proof.
  intros Ha. unfold slice, len in *. f_equal. rewrite !drop_app_ge by lia.
  by destruct (Z.to_nat a - length p)%nat eqn:E; [lia|].
Qed.
(** A check that fails is an error at once; a check that holds goes on. *)
Ltac skip_check :=
  match goal with |- ∃ _, fail_if ?c _ ≫= _ = _ => destruct c; [by eexists|]; cbn [fail_if mbind result_bind] end.
Lemma bad_prelude l max : 12 ≤ len l → from_be (slice 8 12 l) ≠ crc32 (slice 0 8 l) → ∃ e, parse_frame l max = Err e.
Proof.
  intros Hl Hp. unfold parse_frame, PRELUDE_LENGTH. rewrite (proj2 (Z.ltb_ge (len l) 12)) by lia. cbn zeta.
  do 3 skip_check.
  rewrite (proj2 (Z.eqb_neq _ _) Hp). by eexists.
Qed.
Lemma bad_message l max n : 16 ≤ n ≤ len l → from_be (slice 0 4 l) = n →
  from_be (slice (n - 4) n l) ≠ crc32 (slice 0 (n - 4) l) → ∃ e, parse_frame l max = Err e.
Proof.
  intros Hn Ht Hp. unfold parse_frame, PRELUDE_LENGTH. rewrite (proj2 (Z.ltb_ge (len l) 12)) by lia. cbn zeta. rewrite Ht.
  do 4 skip_check.
  rewrite (proj2 (Z.ltb_ge (len l) n)) by lia. rewrite (proj2 (Z.eqb_neq _ _) Hp). by eexists.
Qed.

(** a frame with one byte changed, wherever in the frame it is (lengths, headers, payload or the checksums
    themselves), is refused: the parser neither accepts it nor waits for more. *)
Theorem corrupted_byte_is_refused p c k max f n d :
  parse_frame (p ++ c :: k) max = Ok (Complete f n) → len p < n → d ≠ c →
  ∃ e, parse_frame (p ++ d :: k) max = Err e.
Proof.
  intros (h & [Ht _ Hr Hl _ Hpre Hmsg _ _])%Complete_checks Hp Hd. unfold MIN_FRAME_LENGTH, PRELUDE_LENGTH in Hr.
  pose proof (len_nonneg p). assert (len (p ++ d :: k) = len p + 1 + len k) as Hlen by (unfold len; rewrite length_app; simpl; lia).
  assert (len (p ++ c :: k) = len p + 1 + len k) as Hlen' by (unfold len; rewrite length_app; simpl; lia).
  destruct (Z.lt_ge_cases (len p) 8) as [H8|H8].
  { apply bad_prelude; [lia|]. rewrite (slice_after 8 12 p k d c), Hpre by lia.
    destruct (slice_around 0 8 p k ltac:(lia) ltac:(lia)) as (p' & k' & Hs). rewrite !Hs. by apply crc32_byte. }
  destruct (Z.lt_ge_cases (len p) 12) as [H12|H12].
  { apply bad_prelude; [lia|]. rewrite (slice_before 0 8 p k d c), <-Hpre by lia.
    destruct (slice_around 8 12 p k ltac:(lia) ltac:(lia)) as (p' & k' & Hs). rewrite !Hs. by apply from_be_byte. }
  apply (bad_message _ _ n); [lia|by rewrite (slice_before 0 4 p k d c) by lia|].
  destruct (Z.lt_ge_cases (len p) (n - 4)) as [Hin|Hin].
  - rewrite (slice_after (n - 4) n p k d c), Hmsg by lia.
    destruct (slice_around 0 (n - 4) p k ltac:(lia) ltac:(lia)) as (p' & k' & Hs). rewrite !Hs. by apply crc32_byte.
  - rewrite (slice_before 0 (n - 4) p k d c), <-Hmsg by lia.
    destruct (slice_around (n - 4) n p k ltac:(lia) ltac:(lia)) as (p' & k' & Hs). rewrite !Hs. by apply from_be_byte.
Qed.
