(* ===== verification/KiroCodec.v ===== *)
(** * Encoding the event stream of Kiro

    The format as an encoder, written from the layout the parser reads, and the round trip: every sequence of
    well-formed messages is read back, however its bytes are cut into chunks. *)
From S2P Require Import Prelude RustStr KiroWire KiroStream KiroCrc.
From Stdlib Require Import ZArith Lia Ascii.

Local Open Scope Z_scope.

(** ** Integers *)
Definition byte_of (z : Z) : ascii := ascii_of_N (Z.to_N (z mod 256)).
Fixpoint to_be (n : nat) (z : Z) : bytes :=
  match n with O => [] | S n => byte_of (z / 256 ^ Z.of_nat n) :: to_be n z end.
Lemma code_byte_of z : code (byte_of z) = z mod 256.
Proof. unfold code, byte_of. pose proof (Z.mod_pos_bound z 256 ltac:(lia)). rewrite N_ascii_embedding; lia. Qed.
Lemma len_to_be n z : len (to_be n z) = Z.of_nat n.
Proof. unfold len. f_equal. induction n as [|n IH]; simpl; congruence. Qed.
Lemma from_be_cons c l : from_be (c :: l) = code c * 256 ^ len l + from_be l.
Proof. unfold from_be at 1. cbn [foldl]. by rewrite from_be_acc. Qed.
Lemma from_be_to_be n z : from_be (to_be n z) = z mod 256 ^ Z.of_nat n.
Proof.
  induction n as [|n IH]; [by rewrite Z.mod_1_r|]. cbn [to_be].
  rewrite from_be_cons, code_byte_of, len_to_be, IH, Nat2Z.inj_succ, Z.pow_succ_r by lia.
  rewrite (Z.mul_comm 256), Z.rem_mul_r by lia. lia.
Qed.
Lemma from_be_small n z : 0 ≤ z < 256 ^ Z.of_nat n → from_be (to_be n z) = z.
Proof. intros. rewrite from_be_to_be. by apply Z.mod_small. Qed.
Lemma as_signed_to_be n z : let w := 8 * Z.of_nat n in (0 < n)%nat → - 2 ^ (w - 1) ≤ z < 2 ^ (w - 1) →
  as_signed w (from_be (to_be n z)) = z.
Proof.
  intros w Hn Hz. rewrite from_be_to_be. unfold as_signed.
  assert (256 ^ Z.of_nat n = 2 ^ w) as -> by (unfold w; rewrite Z.pow_mul_r by lia; done).
  assert (2 ^ w = 2 * 2 ^ (w - 1)) as Hw by (rewrite <-Z.pow_succ_r by lia; f_equal; lia).
  destruct (Z.lt_ge_cases z 0).
  - rewrite <-(Z_mod_plus_full z 1 (2 ^ w)), Z.mod_small by lia. rewrite (proj2 (Z.ltb_ge _ _)) by lia. lia.
  - rewrite Z.mod_small by lia. by rewrite (proj2 (Z.ltb_lt _ _)) by lia.
Qed.

(** ** Headers *)
Definition text (s : string) : bytes := String.list_ascii_of_string s.
Definition in_signed (w z : Z) : Prop := - 2 ^ (w - 1) ≤ z < 2 ^ (w - 1).
(** The kind of a value and its bytes. *)
Definition encode_value (v : HeaderValue) : Z * bytes :=
  match v with
  | HBool true => (0, [])
  | HBool false => (1, [])
  | HByte z => (2, to_be 1 z)
  | HShort z => (3, to_be 2 z)
  | HInteger z => (4, to_be 4 z)
  | HLong z => (5, to_be 8 z)
  | HByteArray l => (6, to_be 2 (len l) ++ l)
  | HString s => (7, to_be 2 (len (text s)) ++ text s)
  | HTimestamp z => (8, to_be 8 z)
  | HUuid l => (9, l)
  end.
Definition value_ok (v : HeaderValue) : Prop :=
  match v with
  | HBool _ => True
  | HByte z => in_signed 8 z
  | HShort z => in_signed 16 z
  | HInteger z => in_signed 32 z
  | HLong z | HTimestamp z => in_signed 64 z
  | HByteArray l => len l ≤ U16_MAX
  | HString s => len (text s) ≤ U16_MAX ∧ valid_utf8 (text s) = true
  | HUuid l => len l = 16
  end.
Definition encode_header (h : string * HeaderValue) : bytes :=
  to_be 1 (len (text h.1)) ++ text h.1 ++ to_be 1 (encode_value h.2).1 ++ (encode_value h.2).2.
Definition header_ok (h : string * HeaderValue) : Prop :=
  0 < len (text h.1) ≤ 255 ∧ valid_utf8 (text h.1) = true ∧ value_ok h.2.

Lemma take_bytes_app n what l k : len l = n → take_bytes n what (l ++ k) = Ok (l, k).
Proof.
  intros <-. unfold take_bytes. pose proof (len_nonneg k). rewrite len_app, (proj2 (Z.leb_le _ _)) by lia.
  unfold len. by rewrite Nat2Z.id, take_app_length, drop_app_length.
Qed.
Lemma take_u8_app z k : 0 ≤ z < 256 → take_u8 (to_be 1 z ++ k) = Ok (z, k).
Proof. intros Hz. unfold take_u8. rewrite take_bytes_app by apply len_to_be. cbn [mbind result_bind]. by rewrite from_be_small. Qed.
Lemma from_utf8_text s : valid_utf8 (text s) = true → from_utf8 (text s) = Some s.
Proof. intros Hv. unfold from_utf8. rewrite Hv. unfold text. by rewrite String.string_of_list_ascii_of_string. Qed.
Lemma parse_signed n what (wrap : Z → HeaderValue) z k : (0 < n)%nat → in_signed (8 * Z.of_nat n) z →
  ('(b, l) ← take_bytes (8 * Z.of_nat n / 8) what (to_be n z ++ k);
   Ok (wrap (as_signed (8 * Z.of_nat n) (from_be b)), l)) = Ok (wrap z, k).
Proof.
  intros Hn Hz. rewrite take_bytes_app by (rewrite len_to_be, Z.mul_comm, Z.div_mul; lia).
  cbn [mbind result_bind]. by rewrite as_signed_to_be.
Qed.
Lemma parse_value_encode v k : value_ok v → parse_value (encode_value v).1 ((encode_value v).2 ++ k) = Ok (v, k).
Proof.
  intros Hv. destruct v as [[]|z|z|z|z|l|s|z|l]; cbn [encode_value fst snd parse_value value_ok] in *; try done.
  - apply (parse_signed 1 _ HByte); [lia|done].
  - apply (parse_signed 2 _ HShort); [lia|done].
  - apply (parse_signed 4 _ HInteger); [lia|done].
  - apply (parse_signed 8 _ HLong); [lia|done].
  - pose proof (len_nonneg l). rewrite <-app_assoc, take_bytes_app by apply len_to_be. cbn [mbind result_bind].
    rewrite from_be_small by (unfold U16_MAX in Hv; lia). by rewrite take_bytes_app.
  - destruct Hv as [Hl Hu]. pose proof (len_nonneg (text s)).
    rewrite <-app_assoc, take_bytes_app by apply len_to_be. cbn [mbind result_bind].
    rewrite from_be_small by (unfold U16_MAX in Hl; lia). rewrite take_bytes_app by done. cbn [mbind result_bind].
    by rewrite from_utf8_text.
  - apply (parse_signed 8 _ HTimestamp); [lia|done].
  - by rewrite take_bytes_app.
Qed.
Lemma kind_range v : 0 ≤ (encode_value v).1 < 256.
Proof. destruct v as [[]|z|z|z|z|l|s|z|l]; simpl; lia. Qed.
Lemma parse_header_encode h k : header_ok h → parse_header (encode_header h ++ k) = Ok (h, k).
Proof.
  intros (Hl & Hu & Hv). unfold parse_header, encode_header. rewrite <-!app_assoc, take_u8_app by lia.
  cbn [mbind result_bind]. rewrite (proj2 (Z.eqb_neq _ _)) by lia. cbn [fail_if mbind result_bind].
  rewrite take_bytes_app by done. cbn [mbind result_bind]. rewrite from_utf8_text by done. cbn [ok_or mbind result_bind].
  rewrite take_u8_app by apply kind_range. cbn [mbind result_bind]. rewrite parse_value_encode by done. by destruct h.
Qed.
Lemma encode_header_nonempty h : header_ok h → ∃ c l, encode_header h = c :: l.
Proof. intros _. unfold encode_header. simpl. eauto. Qed.
Lemma parse_headers_encode fuel hs acc : Forall header_ok hs → NoDup hs.*1 → (∀ h, h ∈ hs → acc !! h.1 = None) →
  (length hs ≤ fuel)%nat → parse_headers_from fuel (concat (encode_header <$> hs)) acc = Ok (list_to_map hs ∪ acc).
Proof.
  revert fuel acc. induction hs as [|h hs IH]; intros fuel acc Hok Hnd Hacc Hf.
  { cbn. destruct fuel; by rewrite map_empty_union. }
  apply Forall_cons in Hok as [Hh Hok]. rewrite fmap_cons in Hnd. apply NoDup_cons in Hnd as [Hn Hnd].
  destruct fuel as [|fuel]; [simpl in Hf; lia|]. rewrite fmap_cons. cbn [concat].
  pose proof (parse_header_encode h (concat (encode_header <$> hs)) Hh) as Hp.
  destruct (encode_header_nonempty h Hh) as (c & l & E). rewrite E in *. cbn [app parse_headers_from].
  change (c :: l ++ concat (encode_header <$> hs)) with ((c :: l) ++ concat (encode_header <$> hs)). rewrite Hp.
  cbn [mbind result_bind]. destruct h as [name v].
  assert (acc !! name = None) as Hname by (apply (Hacc (name, v)); left). rewrite Hname.
  rewrite bool_decide_false by (intros [? [=]]). cbn [fail_if mbind result_bind]. rewrite IH; [|done|done| |simpl in Hf; lia].
  - cbn [list_to_map foldr fst snd] in *. f_equal. rewrite <-insert_union_l, <-insert_union_r; [done|].
    by apply not_elem_of_list_to_map_1.
  - intros h Hin. rewrite lookup_insert_ne; [apply Hacc; by right|]. intros ->. apply Hn. by apply (list_elem_of_fmap_2 fst hs h).
Qed.
Lemma length_headers hs : Forall header_ok hs → (length hs ≤ length (concat (encode_header <$> hs)))%nat.
Proof.
  induction 1 as [|h hs Hh _ IH]; [done|]. rewrite fmap_cons. cbn [concat]. rewrite length_app.
  destruct (encode_header_nonempty h Hh) as (c & l & ->). simpl in *. lia.
Qed.

(** ** Frames *)
(** A message: its headers in the order they are sent, and its payload. *)
Notation message := (list (string * HeaderValue) * bytes)%type.
Definition frame_of (m : message) : Frame := mk_frame (list_to_map m.1) m.2.
Definition message_headers (m : message) : bytes := concat (encode_header <$> m.1).
Definition message_total (m : message) : Z := 12 + len (message_headers m) + len m.2 + 4.
Definition message_lengths (m : message) : bytes := to_be 4 (message_total m) ++ to_be 4 (len (message_headers m)).
Definition message_body (m : message) : bytes :=
  message_lengths m ++ to_be 4 (crc32 (message_lengths m)) ++ message_headers m ++ m.2.
Definition encode_frame (m : message) : bytes := message_body m ++ to_be 4 (crc32 (message_body m)).
Definition message_ok (m : message) : Prop :=
  Forall header_ok m.1 ∧ NoDup m.1.*1 ∧ message_total m ≤ DEFAULT_MAX_FRAME_LENGTH.

Lemma slice_middle p l k a b : len p = a → len p + len l = b → slice a b (p ++ l ++ k) = l.
Proof.
  intros <- <-. unfold slice, len. rewrite Nat2Z.id, drop_app_length.
  replace (Z.to_nat (Z.of_nat (length p) + Z.of_nat (length l) - Z.of_nat (length p))) with (length l) by lia.
  by rewrite take_app_length.
Qed.
Lemma slice_start l k b : len l = b → slice 0 b (l ++ k) = l.
Proof. intros Hb. apply (slice_middle [] l k); [done|]. exact Hb. Qed.
Lemma crc_small l : 0 ≤ crc32 l < 256 ^ Z.of_nat 4.
Proof. pose proof (crc32_u32 l) as Hu. unfold u32 in Hu. change (256 ^ Z.of_nat 4) with (2 ^ 32). lia. Qed.
Lemma encode_frame_checks m k : message_ok m →
  frame_checks (encode_frame m ++ k) DEFAULT_MAX_FRAME_LENGTH (frame_of m) (message_total m) (len (message_headers m)).
Proof.
  intros (Hh & Hnd & Hmax). pose proof (len_nonneg (message_headers m)). pose proof (len_nonneg m.2). pose proof (len_nonneg k).
  assert (message_total m < 256 ^ Z.of_nat 4) as Hsmall
    by (change (256 ^ Z.of_nat 4) with 4294967296; unfold DEFAULT_MAX_FRAME_LENGTH in Hmax; lia).
  assert (len (message_lengths m) = 8) as Hlen8 by (unfold message_lengths; by rewrite len_app, !len_to_be).
  assert (len (message_body m) = message_total m - 4) as Hbody
    by (unfold message_body; rewrite !len_app, len_to_be, Hlen8; unfold message_total; lia).
  unfold message_total in *. split; unfold MIN_FRAME_LENGTH, PRELUDE_LENGTH.
  - unfold encode_frame, message_body, message_lengths at 1. rewrite <-!app_assoc.
    rewrite (slice_start _ _ 4) by apply len_to_be. apply from_be_small. unfold message_total. lia.
  - unfold encode_frame, message_body, message_lengths at 1. rewrite <-!app_assoc.
    rewrite (slice_middle _ _ _ 4 8) by (rewrite ?len_to_be; done). apply from_be_small. lia.
  - lia.
  - unfold encode_frame. rewrite !len_app, len_to_be, Hbody. lia.
  - lia.
  - unfold encode_frame, message_body. rewrite <-!app_assoc.
    rewrite (slice_middle _ _ _ 8 12) by (rewrite ?len_to_be; lia). rewrite (slice_start _ _ 8) by done.
    apply from_be_small, crc_small.
  - unfold encode_frame. rewrite <-!app_assoc. rewrite (slice_middle _ _ _ _ _ Hbody) by (rewrite Hbody, len_to_be; lia).
    rewrite (slice_start _ _ _ Hbody). apply from_be_small, crc_small.
  - unfold encode_frame, message_body. rewrite <-!app_assoc, (app_assoc (message_lengths m)).
    rewrite (slice_middle _ _ _ 12) by (rewrite len_app, len_to_be; lia). unfold parse_headers, message_headers.
    rewrite parse_headers_encode; [by rewrite map_union_empty|done|done|done|by apply length_headers].
  - unfold encode_frame. set (last := to_be 4 (crc32 (message_body m))). unfold message_body.
    rewrite <-!app_assoc, (app_assoc (to_be 4 _) (message_headers m)), (app_assoc (message_lengths m)).
    change (f_payload (frame_of m)) with m.2. symmetry. apply slice_middle; rewrite !len_app, len_to_be; lia.
Qed.
Lemma encode_frame_Complete m k : message_ok m →
  parse_frame (encode_frame m ++ k) DEFAULT_MAX_FRAME_LENGTH = Ok (Complete (frame_of m) (message_total m)) ∧
  len (encode_frame m) = message_total m.
Proof.
  intros Hm. pose proof (encode_frame_checks m k Hm) as Hc. split; [by eapply frame_checks_Complete|].
  unfold encode_frame, message_body, message_lengths. rewrite !len_app, !len_to_be. unfold message_total. lia.
Qed.
Lemma encoded_stream ms : Forall message_ok ms → stream_of (concat (encode_frame <$> ms)) (frame_of <$> ms) (inl []).
Proof.
  induction 1 as [|m ms Hm _ IH]; [by apply stream_rest|]. rewrite !fmap_cons. cbn [concat].
  destruct (encode_frame_Complete m (concat (encode_frame <$> ms)) Hm) as [Hp Hl]. eapply stream_frame; [exact Hp|].
  unfold len in Hl. rewrite <-Hl, Nat2Z.id, drop_app_length. exact IH.
Qed.

(** ** Properties *)
(** every sequence of well-formed messages, encoded and cut into chunks in any way, is read back as exactly these
    messages, in order, and the stream ends cleanly. *)
Theorem encoded_messages_are_read_back ms chunks : Forall message_ok ms → concat chunks = concat (encode_frame <$> ms) →
  ∃ d, feed_all strict chunks = (d, Ok (frame_of <$> ms)) ∧ (finish d).2 = Ok [].
Proof.
  intros Hms Hc. pose proof (feed_all_answers [] chunks (frame_of <$> ms) (inl []) resting_nil) as Ha.
  cbn [app] in Ha. rewrite Hc in Ha. specialize (Ha (encoded_stream ms Hms)). exists (holding []).
  split; [exact Ha|]. by apply finish_resting.
Qed.
