(* ===== verification/KiroEvent.v ===== *)
(** * The events of Kiro ([src/proxy/kiro/wire/event.rs])

    What a complete frame means: an error of the upstream, a message that is refused, or an event. The JSON parser
    and the derived deserializers of the payloads are parameters. *)
From S2P Require Import Prelude RustStr Json KiroWire KiroStream KiroCrc KiroCodec.
From Stdlib Require Import ZArith Lia Ascii.

Local Open Scope Z_scope.

(** proxy/kiro/wire/event.rs:8-31 [Event] *)
Inductive Event : Type :=
  | AssistantResponse (content : string)
  | Code (content : string)
  | Reasoning (payload : value)
  | ToolUse (tool_use_id name input : string) (stop : bool)
  | Usage (event_type : string) (payload : value)
  | End
  | UnknownEvent (event_type : string) (payload : value).
(** proxy/kiro/wire/event.rs:34-37 [TextPayload] *)
Record TextPayload := mk_text_payload { tp_content : string }.
(** proxy/kiro/wire/event.rs:41-49 [ToolUsePayload] *)
Record ToolUsePayload := mk_tool_use { tu_tool_use_id : string; tu_name : string; tu_input : string; tu_stop : bool }.

(** proxy/kiro/wire/event.rs:240-242 [truncate] *)
Definition truncate (s : string) (max_chars : nat) : string := take_chars max_chars s.

Definition is_string (v : value) : bool := match v with VString _ => true | _ => false end.
Definition is_null (v : value) : bool := match v with Null => true | _ => false end.
(** proxy/kiro/wire/event.rs:157-164 [validate_reasoning_payload]: the fields it reads *)
Definition REASONING_FIELDS : list string :=
  ["text"; "content"; "reasoningContent"; "signature"; "redactedContent"; "redacted_content"].
(** proxy/kiro/wire/event.rs:153-183 [validate_reasoning_payload] *)
Definition validate_reasoning_payload (payload : value) (event_type : string) : result WireError () :=
  match default payload (get "reasoningContentEvent" payload) with
  | VString _ | Null => Ok ()
  | Object fields =>
      fail_if (existsb (λ name, from_option (λ field, negb (is_string field) && negb (is_null field)) false
                 (member name fields)) REASONING_FIELDS)
        (InvalidEventPayload event_type "reasoning field must be a string or null")
  | _ => Err (InvalidEventPayload event_type "reasoning payload must be an object or string")
  end.
(** proxy/kiro/wire/event.rs:201-217 [validate_token_usage_payload]: the counters it reads *)
Definition USAGE_COUNTERS : list string :=
  ["uncachedInputTokens"; "uncached_input_tokens"; "inputTokens"; "input_tokens"; "cacheReadInputTokens";
   "cache_read_input_tokens"; "cacheReadTokens"; "cacheWriteInputTokens"; "cache_write_input_tokens";
   "cacheCreationInputTokens"; "cache_creation_input_tokens"; "outputTokens"; "output_tokens";
   "completionTokens"; "completion_tokens"].
(** [as_i64().and_then(|count| i32::try_from(count).ok())] *)
Definition as_i32 (v : value) : option Z := as_i64 v ≫= checked (- 2 ^ 31) (2 ^ 31 - 1).
(** proxy/kiro/wire/event.rs:186-194 [validate_token_usage_payload]: the object that holds the counters *)
Definition token_usage (payload : value) : option value :=
  get "tokenUsage" (default payload (or_else (get "messageMetadataEvent" payload) (get "metadataEvent" payload))).
(** proxy/kiro/wire/event.rs:185-228 [validate_token_usage_payload] *)
Definition validate_token_usage_payload (payload : value) (event_type : string) : result WireError () :=
  let invalid := InvalidEventPayload event_type "tokenUsage counters must be 32-bit integers" in
  match token_usage payload with
  | None | Some Null => Ok ()
  | Some (Object fields) =>
      fail_if (existsb (λ key, from_option (λ v, bool_decide (as_i32 v = None)) false (member key fields)) USAGE_COUNTERS) invalid
  | Some _ => Err invalid
  end.

Section event.
(** [serde_json::from_slice] at each type, with the text of its error. *)
Context (from_slice : bytes → result string value).
Context (text_payload : bytes → result string TextPayload) (tool_use_payload : bytes → result string ToolUsePayload).

(** proxy/kiro/wire/event.rs:230-238 [parse_typed]; [parse_json] (lines 146-151) is the same at [Value] *)
Definition parse_typed {A} (read : bytes → result string A) (payload : bytes) (event_type : string) : result WireError A :=
  match read payload with Ok a => Ok a | Err text => Err (InvalidEventPayload event_type text) end.
(** proxy/kiro/wire/event.rs:56-72 [parse_event]: an error or exception of the upstream *)
Definition upstream_error (frame : Frame) (message_type : string) : result WireError Event :=
  payload ← parse_typed from_slice (f_payload frame) message_type;
  let message := default "" (or_else (get "message" payload) (get "error" payload ≫= get "message") ≫= as_str) in
  Err (Upstream message_type (or_else (error_code_of (f_headers frame)) (exception_type_of (f_headers frame)))
         (truncate message 4096)).
(** proxy/kiro/wire/event.rs:81-143 [parse_event]: an event by its type *)
Definition event_by_type (event_type : string) (payload : bytes) : result WireError Event :=
  if str_eqb event_type "assistantResponseEvent" then
    p ← parse_typed text_payload payload event_type; Ok (AssistantResponse (tp_content p))
  else if str_eqb event_type "codeEvent" then
    p ← parse_typed text_payload payload event_type; Ok (Code (tp_content p))
  else if str_eqb event_type "reasoningContentEvent" then
    p ← parse_typed from_slice payload event_type;
    _ ← validate_reasoning_payload p event_type;
    Ok (Reasoning p)
  else if str_eqb event_type "toolUseEvent" then
    p ← parse_typed tool_use_payload payload event_type;
    _ ← fail_if (is_empty (trim (tu_tool_use_id p))) (InvalidEventPayload event_type "toolUseId is required");
    Ok (ToolUse (tu_tool_use_id p) (tu_name p) (tu_input p) (tu_stop p))
  else if one_of ["contextUsageEvent"; "metricsEvent"; "messageMetadataEvent"; "metadataEvent"; "meteringEvent"] event_type then
    p ← parse_typed from_slice payload event_type;
    _ ← (if one_of ["messageMetadataEvent"; "metadataEvent"] event_type
         then validate_token_usage_payload p event_type else Ok ());
    Ok (Usage event_type p)
  else if str_eqb event_type "endEvent" then
    _ ← (if bool_decide (payload = []) then Ok () else
           _ ← parse_typed from_slice payload event_type; Ok ());
    Ok End
  else
    p ← parse_typed from_slice payload event_type; Ok (UnknownEvent event_type p).
(** proxy/kiro/wire/event.rs:51-144 [parse_event] *)
Definition parse_event (frame : Frame) : result WireError Event :=
  let message_type := message_type_of (f_headers frame) in
  _ ← fail_if (bool_decide (message_type = None) && bool_decide (is_Some (f_headers frame !! ":message-type")))
        (InvalidHeaderValue "message type");
  match message_type with
  | Some m =>
      if one_of ["error"; "exception"] m then upstream_error frame m
      else if negb (str_eqb m "event") then Err (InvalidMessageType m)
      else
        event_type ← ok_or MissingEventType (event_type_of (f_headers frame));
        event_by_type event_type (f_payload frame)
  | None =>
      event_type ← ok_or MissingEventType (event_type_of (f_headers frame));
      event_by_type event_type (f_payload frame)
  end.

(** ** Well-typed events *)
(** What a consumer may rely on: a tool use names its call, the fields of a reasoning payload are text or null, the
    counters of a usage payload are 32-bit integers, and the end of the stream carries no other meaning. *)
Definition event_typed (e : Event) : Prop :=
  match e with
  | ToolUse id _ _ _ => trim id ≠ ""
  | Reasoning payload => ∀ fields name v, default payload (get "reasoningContentEvent" payload) = Object fields →
      name ∈ REASONING_FIELDS → member name fields = Some v → v = Null ∨ ∃ s, v = VString s
  | Usage event_type payload => event_type = "metadataEvent" ∨ event_type = "messageMetadataEvent" →
      ∀ fields key v, token_usage payload = Some (Object fields) → key ∈ USAGE_COUNTERS → member key fields = Some v →
      ∃ n, v = Number (NInt n) ∧ - 2 ^ 31 ≤ n < 2 ^ 31
  | _ => True
  end.
Lemma existsb_false_in {A} (p : A → bool) l x : existsb p l = false → x ∈ l → p x = false.
Proof.
  induction l as [|y l IH]; intros Hp Hx; [inversion Hx|]. cbn in Hp. apply orb_false_iff in Hp as [Hy Hl].
  apply elem_of_cons in Hx as [->|Hx]; [done|by apply IH].
Qed.
Lemma as_i32_Some v n : as_i32 v = Some n → v = Number (NInt n) ∧ - 2 ^ 31 ≤ n < 2 ^ 31.
Proof.
  unfold as_i32, as_i64. intros (z & Hz & [-> ?]%checked_Some)%bind_Some. destruct v as [| |[z'|]| | |]; try done.
  apply checked_Some in Hz as [-> _]. split; [done|]. lia.
Qed.
Lemma event_by_type_typed event_type payload e : event_by_type event_type payload = Ok e → event_typed e.
Proof.
  unfold event_by_type. intros H.
  destruct (str_eqb event_type _); [apply bind_Ok in H as (p & _ & [= <-]); done|].
  destruct (str_eqb event_type _); [apply bind_Ok in H as (p & _ & [= <-]); done|].
  destruct (str_eqb event_type _).
  { apply bind_Ok in H as (p & _ & H). apply bind_Ok in H as ([] & Hv & [= <-]). intros fields name v Hf Hn Hm.
    unfold validate_reasoning_payload in Hv. rewrite Hf in Hv. apply fail_if_Ok in Hv.
    apply (existsb_false_in _ _ name Hv) in Hn. rewrite Hm in Hn. destruct v; try done; [by left|right; by eexists]. }
  destruct (str_eqb event_type _).
  { apply bind_Ok in H as (p & _ & H). apply bind_Ok in H as ([] & Hid%fail_if_Ok & [= <-]). cbn.
    by apply is_empty_false. }
  destruct (one_of [_; _; _; _; _] event_type).
  { apply bind_Ok in H as (p & _ & H). apply bind_Ok in H as ([] & Hv & [= <-]). intros Ht fields key v Hu Hk Hm.
    assert (one_of ["messageMetadataEvent"; "metadataEvent"] event_type = true) as E by (destruct Ht as [->| ->]; done).
    rewrite E in Hv. unfold validate_token_usage_payload in Hv. rewrite Hu in Hv. apply fail_if_Ok in Hv.
    apply (existsb_false_in _ _ key Hv) in Hk. rewrite Hm in Hk. apply bool_decide_eq_false in Hk.
    destruct (as_i32 v) as [n|] eqn:En; [|done]. apply as_i32_Some in En. by exists n. }
  destruct (str_eqb event_type _); [by apply bind_Ok in H as (p & _ & [= <-])|].
  by apply bind_Ok in H as (p & _ & [= <-]).
Qed.
Lemma parse_event_Ok frame e : parse_event frame = Ok e → ∃ event_type,
  event_type_of (f_headers frame) = Some event_type ∧ event_by_type event_type (f_payload frame) = Ok e ∧
  (f_headers frame !! ":message-type" = None ∨ f_headers frame !! ":message-type" = Some (HString "event")).
Proof.
  unfold parse_event. cbn zeta. intros (? & Hc%fail_if_Ok & H)%bind_Ok.
  unfold message_type_of, headers_string in *. destruct (f_headers frame !! ":message-type") as [v|]; cbn [mbind option_bind] in *.
  - destruct (header_str v) as [m|] eqn:Em; [|done].
    assert (v = HString m) as -> by (destruct v; by simplify_eq/=).
    destruct (one_of ["error"; "exception"] m).
    { unfold upstream_error in H. by apply bind_Ok in H as (p & _ & [=]). }
    destruct (str_eqb m "event") eqn:Ev; [|done]. apply str_eqb_eq in Ev as ->. cbn [negb] in H.
    apply bind_Ok in H as (t & Ht%ok_or_Ok & H). eauto 6.
  - apply bind_Ok in H as (t & Ht%ok_or_Ok & H). eauto 6.
Qed.

End event.

(** ** A stream of two messages *)
Definition sample_messages : list message :=
  [([(":event-type", HString "assistantResponseEvent"); (":sequence", HLong (-7))], text "{}");
   ([(":event-type", HString "endEvent")], [])].
Definition sample_bytes : bytes := concat (encode_frame <$> sample_messages).
Lemma sample_messages_ok : Forall message_ok sample_messages.
Proof.
  repeat constructor; unfold in_signed; try (vm_compute; first [reflexivity|discriminate]); simpl; set_solver.
Qed.
Lemma encoded_messages_are_read_back_witness :
  ∃ d, feed_all strict [take 5 sample_bytes; []; drop 5 sample_bytes] = (d, Ok (frame_of <$> sample_messages)) ∧ (finish d).2 = Ok [].
Proof.
  apply (encoded_messages_are_read_back sample_messages).
  - exact sample_messages_ok.
  - vm_compute. reflexivity.
Defined.
Lemma chunks_do_not_matter_witness : ∃ d,
  feed_all strict [take 20 sample_bytes; drop 20 sample_bytes ++ ["a"%char; "b"%char]] = (d, Ok (frame_of <$> sample_messages)) ∧
  (finish d).2 = Err (UnexpectedEof 2).
Proof.
  assert (stream_of (concat [take 20 sample_bytes; drop 20 sample_bytes ++ ["a"%char; "b"%char]])
    ((frame_of <$> sample_messages) ++ []) (inl ["a"%char; "b"%char])) as Hs.
  { change (concat [take 20 sample_bytes; drop 20 sample_bytes ++ ["a"%char; "b"%char]]) with (sample_bytes ++ ["a"%char; "b"%char]).
    apply (stream_app _ _ _ []); [exact (encoded_stream _ sample_messages_ok)|]. apply stream_rest. reflexivity. }
  destruct (chunks_do_not_matter _ _ _ Hs) as (d & Hd & _ & Hf). exists d. split; [exact Hd|exact Hf].
Defined.
Lemma corrupted_byte_is_refused_witness : ∃ e, parse_frame (take 30 sample_bytes ++ "X"%char :: drop 31 sample_bytes) DEFAULT_MAX_FRAME_LENGTH = Err e.
Proof.
  apply (corrupted_byte_is_refused (take 30 sample_bytes) "i"%char (drop 31 sample_bytes) DEFAULT_MAX_FRAME_LENGTH
    (frame_of ([(":event-type", HString "assistantResponseEvent"); (":sequence", HLong (-7))], text "{}"))
    (message_total ([(":event-type", HString "assistantResponseEvent"); (":sequence", HLong (-7))], text "{}"))).
  - vm_compute. reflexivity.
  - vm_compute. reflexivity.
  - discriminate.
Defined.
